(* ===== verification/_CoqProject ===== *)
-Q . S2P
Prelude.v
Cdc.v
GoText.v
TextProps.v
Value.v
FlowDef.v
Redact.v
FlowGraph.v
Rbac.v
Access.v
AccessProps.v
Engine.v
EngineProps.v
EngineRun.v
EngineSafety.v
Repo.v
RepoProps.v
Remote.v
RemoteProps.v
Queue.v
QueueProps.v
DiskGuard.v
DiskGuardProps.v
Lockout.v
Place.v
Civil.v
Retention.v
Cron.v
CronProps.v
GoNum.v
Expr.v
ExprProps.v
Template.v
TemplateProps.v
When.v
Trigger.v
Validate.v
ValidateProps.v
Steps.v
StepsProps.v
EngineStatus.v
AutoStore.v
Service.v
AutoStoreProps.v
ServiceSpec.v
ServiceProps.v
Approvals.v
ApprovalsProps.v
ServiceDemo.v
Breaker.v
ServiceSafety.v
ApprovalsSafety.v
Paths.v
Capture.v
CaptureProps.v
CaptureSafety.v
Scope.v
ScopeProps.v
ScopeSafety.v
Ip.v
IpProps.v
Net.v
NetApply.v
NetProps.v
NetOps.v
NetSafety.v
NetMigrate.v
Locators.v
VmSpec.v
Qemu.v
VmProps.v
VmArgs.v
VmReads.v
VmSafety.v
VmDemo.v
