(* ===== verification/Prelude.v ===== *)
(** * Verification of the No-DAL Community Edition core

    No-DAL is a platform for a cluster of hosts that run virtual machines, containers and
    applications.  A control plane ([src/internal/httpapi] over [src/internal/appdb]) answers
    users and drives agents on the hosts.  This library models the parts of it that decide
    rather than call: the automation flows with their approvals, who may do what, what a
    backup covers, the backup repository with its off-site copies, the changes of a host's
    network with their rollback, the devices and the command line of a virtual machine, and
    the guards of disks, logins and placement.

    ** Parts, files and code

    Foundations, without a part of the program of their own:
    - [Prelude]: fallible results, machine integers, lemmas on lists and relations; [TextProps]:
      facts about texts;
    - [GoText], [GoNum], [Value], [Civil]: what the code uses of Go's strings, [strconv],
      [unicode/utf8], float64, [any] values and package [time].  The Unicode tables beyond
      ASCII are the interfaces [GoText.CaseTables] and [Expr.PrintTables], with the laws
      they are used by; [ascii_tables] and [ascii_print] are their instances.

    Automation ([src/internal/automation]).  A flow is a trigger, steps and edges; it is
    validated when it is published, an event or a schedule starts a run, and the engine
    takes the run through the steps.
    - [Expr], [ExprProps] ([expr/expr.go]): lexer, parser, evaluation, text forms.
    - [Template], [TemplateProps] ([expr/template.go]): references in braces.
    - [FlowDef], [FlowGraph] ([flowdef/def.go], [limits.go], the searches of [validate.go]).
    - [Cron], [CronProps] ([flowdef/cron.go]): cron lines, presets, the next run.
    - [When] ([flowdef/when.go]): conditions of events.
    - [Trigger], [Validate], [ValidateProps] ([flowdef/validate.go]): the whole check, and
      the specification [publishable] of what it lets through.
    - [Redact] ([engine/redact.go]): secrets in stored values and logs.
    - [Engine], [EngineProps], [EngineRun], [EngineSafety] ([engine/engine.go]): the state of
      a run and [stepper.step].  A call is a list of turns; what the outside answers in a
      turn is the argument [tick].
    - [AutoStore], [AutoStoreProps] ([src/internal/appdb/automation.go],
      [automation_memory.go]): the rows of flows, versions, schedules and runs, leases, and
      the monad of computations on them.  [outside] answers what the code cannot know: the
      clock, identifiers, the order of maps and whether a call of the store fails.
    - [Service] ([engine/service.go], with the calls around a step of [engine.go]): starting
      runs, events, schedules, cancelling, retrying, approving, test runs, the breaker and
      the queue of a flow.  [ServiceSpec] is its specification, a machine on the table of
      runs; [ServiceProps] proves that every operation is a sequence of the machine's steps,
      [ServiceSafety] and [Breaker] draw the conclusions, [ServiceDemo] is a cluster to run
      it on.  [EngineStatus] says how a step leaves the status of a run.
    - [Steps], [StepsProps] ([engine/registry.go], [builtin.go]): the registry of step
      types, which implements the interface [Validate.Catalog], and the logic steps.
    - [Approvals], [ApprovalsProps], [ApprovalsSafety] ([src/internal/httpapi]:
      [automation_api.go], [automation_guard.go], [automation_approvals.go],
      [automation_templates.go]; [policy.go]): what users do to flows and their versions, the
      review of protected steps and its decisions, beside what the service does.

    Access ([src/internal/rbac], [src/internal/httpapi]).
    - [Rbac]: permissions, roles, [Authorize].
    - [Access], [AccessProps]: principals, tokens, grants, the handlers that change them.
    - [Lockout] ([src/internal/auth/lockout.go]): the gate against guessing.

    Backup ([src/internal/backup]).
    - [Cdc] ([cdc/]): content-defined chunking.
    - [Repo], [RepoProps] ([repo.go], [gc.go]): packs, indexes, manifests, collection.  A run
      is the list of its writes, so a crash is a prefix.
    - [Remote], [RemoteProps] ([remote.go], [remote_gc.go], [remote_index.go]): copies on a
      target whose every call may fail.
    - [Queue], [QueueProps] ([queue.go]): the jobs of uploads; dispatcher passes and the
      ends of jobs come in any order.
    - [Retention] ([gc.go]): which restore points expire.
    - [Paths]: slash-separated paths ([path/filepath]); [Capture], [CaptureProps],
      [CaptureSafety] ([engine.go], [src/internal/backuphost/rules.go]): which files a capture
      keeps, and the rules of a workload.
    - [Scope], [ScopeProps], [ScopeSafety] ([src/internal/backupscope]): how a root is
      discovered, what the preview lists, and the capture that is planned from a selection.

    Networks of a host ([src/internal/ndnet]).
    - [Ip], [IpProps] ([cidr.go], the reservations of [plan.go]): addresses and subnets.
    - [Net] ([danger.go], [hostview.go], [plan.go], [dnsmasq.go], [nft.go]): what a change
      touches, whether the management path answers, the files of a network.
    - [NetApply], [NetProps] ([engine.go], [rollback.go], [migrate.go], [uplink.go],
      [src/cmd/ndl-network-rollback]): changes, copies and the rollback as sequences of calls,
      any of which may fail or be the last; the triples to reason about them.
    - [NetOps] ([vlan.go], [bond.go], [overlay.go], [policy.go], [teardown.go]): the other
      operations; [NetSafety]: what becomes of a change to the management path;
      [NetMigrate] ([ifupdown.go]): taking an interface from ifupdown.

    Virtual machines ([src/internal/vmspec], [src/internal/qemu]).
    - [Locators] ([src/internal/storage]: [zfs.go], [lvm.go], [distributed.go]): the names of
      block devices.
    - [VmSpec] ([spec.go], [pci.go], [nic.go], [validate.go], [nocloud.go], [usb.go],
      [compile.go], [httpapi/phase8.go]): normal form, validation, PCI addresses, edits, the
      frozen launch, and what creating, editing and starting a machine decide.
    - [Qemu] ([launch.go], [validate.go], [vfio.go], [usb.go], [querypci.go]): the command line
      of a launch, and devices given to it later.
    - [VmProps]: the slots; [VmArgs], [VmReads]: texts without a comma, and the arguments read
      back as QEMU reads them; [VmSafety]: the conclusions; [VmDemo]: a machine to run them on.

    Resources.
    - [DiskGuard], [DiskGuardProps] ([src/internal/diskguard/guard.go]).
    - [Place] ([src/internal/placement/place.go]).

    ** Conventions

    A Go function with an error is a function into [result]; a panic is an error of its own
    or [None]; Go maps are association lists with distinct keys where their order of
    iteration matters, [gmap] elsewhere; [int64] and [uint64] wrap through [i64] and [u64]
    where a computation can leave their range.  A file [XProps] holds the theorems of the
    component [X].  Claims are numbered C1 to C40 in the doc comments.

    ** What the theorems show

    - A flow that passes validation is a [publishable] one and conversely (C39), with pieces
      of that proved on their own: cycles (C3), owners of loops (C4), schedules (C37),
      expressions (C38).  A published step runs without the errors publishing looks for (C40).
    - A run: a call of [step] ends (C6), a finished run has no lost step (C7), retries (C8),
      dry runs and destructive steps (C9, C10), and what is stored is redacted (C5).
    - The service: whatever operations are made and whatever calls of the store fail, the
      table of runs moves by the steps of an abstract machine (C11), whose invariants are
      the limits a flow has: its slots and its queue (C12), its starts in a minute and an
      hour (C13), one run for an idempotency key (C14), chains of runs that cause each other
      (C15).  Failures turn a flow off at the threshold, and it starts nothing then (C16).
      The operations come one at a time; [ServiceSafety] ends with what two at once, a
      failed read and old rows do to the limits.
    - Approvals: only what was published and, where it must be, approved runs (C17), and a
      protected step has two people behind it (C18).
    - Access: tokens (C19), nobody gives what they do not hold (C20), guessing
      ([Lockout.tries_bounded]).
    - What a backup covers: the walk of a capture keeps what is wanted (C22), a workload's
      rules hold (C23), what is left out is shown (C24) and has a reason (C25).
    - The repository: chunking (C1, C2), crash safety of collection (C21), an off-site copy
      can be fetched back (C26 to C28), retention (C36).
    - Networks: a change of the management path comes undone unless the path answers,
      whatever fails and wherever the agent stops (C30); such a change is confirmed (C31);
      beside them, ifupdown lets go of an interface ([NetMigrate.migration_quiets]) and
      subnets compare by their addresses ([IpProps.SameIPv4Net_spec]).
    - Virtual machines: devices do not share a slot (C32), no text becomes an option of the
      command line (C33), addresses stay over restarts (C34), and an edit that is live changes
      nothing else (C35).
    - Resources: the disk guard (C29) and placement ([Place.place_refines]).
    Examples beside the theorems run the definitions, and show where code and its comments
    part: they are named in the findings of the manifest.

    ** Fuel and bounds

    Recursion that is not structural carries a fuel, and a lemma says it is enough:
    [FlowGraph.reach_loop_spec] (two more than the edges), [FlowGraph.findCycle_spec] (one
    more than the names), [FlowDef.body_fuel] (twice the edges), [ExprProps.Parse_sat] (eight
    for each token, since a token is at most seven calls deep), [Template.refs_loop] and the
    text loops (the length of the text, of which every round takes something),
    a call of [stepper.step] (an explicit number of turns, C6), the search for the next run
    (the minutes of five years, C37; the service's [cronFuel] is any number: with too little,
    a schedule counts as one that never runs again), an IPv6 address (its eight groups), the
    rounds of the watchdog (any number; more than come before the deadline, C30).  [GoNum]
    looks for at most 17 digits, which identify a float64.  The search for a free slot looks at
    the thirty slots once ([VmProps.nextFree_spec]).

    ** What is not modelled

    Texts of JSON and YAML, SQL, processes, the clock and randomness: they are arguments, or
    the part is left out.  The regular expressions of log redaction, the hash and the sealing
    of packs, the time-zone database, UUIDs, SHA-256 and the output of Git are parameters
    with the facts that are used of them.

    In the parts that are modelled: of the automation engine the steps that wait, compose JSON
    or send HTTP; of the service two operations at once, the event bus, and the rows of steps,
    attempts and logs that a step of the engine writes; of the HTTP API everything but the
    handlers of access control, flows and approvals and of creating, editing and starting a
    virtual machine, whose volumes, media and devices are arguments; of a capture the reading of the files;
    of the networks the statuses of an observation, WireGuard and the rules beside Docker.
    Reading a view of the host ([CollectHostView]) is an answer of the outside.  Of virtual
    machines the image of the cloud-init seed, the older command line of [argv.go], QMP, units
    and migration.

    The processes of hypervisors and containers, storage engines, migration, host updates and application catalogues drive
    external programs: what they decide is spread between calls whose answers decide more, and
    a model of them would be made of parameters.  The pack format of [backuppack] and the
    archives are encodings around cryptography of Go's standard library.  The remaining
    handlers of the HTTP API, the agent's RPC and the command line decode, call and encode.
    The manifest lists each with its reason. *)
From stdpp Require Export base list gmap strings.
From Stdlib Require Export ZArith Lia.

#[global] Open Scope Z_scope.

(** ** Fallible results

    A Go function with results [(T, error)] becomes a function into
    [result E T]: the error values the code distinguishes are a type of the
    component; where there are dozens and nothing inspects them, the error is the
    constant part of its message. *)
Inductive result (E A : Type) : Type :=
  | Ok (a : A)
  | Err (e : E).
Arguments Ok {E A} _.
Arguments Err {E A} _.

#[export] Instance result_mret E : MRet (result E) := fun A a => Ok a.
#[export] Instance result_mbind E : MBind (result E) :=
  fun A B f m => match m with Ok a => f a | Err e => Err e end.
#[export] Instance result_fmap E : FMap (result E) :=
  fun A B f m => match m with Ok a => Ok (f a) | Err e => Err e end.

(** ** Machine integers: Go's [uint64] and [int64] as [Z] with wrap-around. *)
Definition u64 (z : Z) : Z := z mod 2 ^ 64.
Definition i64 (z : Z) : Z := (z + 2 ^ 63) mod 2 ^ 64 - 2 ^ 63.

Lemma u64_range z : 0 <= u64 z < 2 ^ 64.
Proof. apply Z.mod_pos_bound. lia. Qed.

Lemma u64_id z : 0 <= z < 2 ^ 64 -> u64 z = z.
Proof. apply Z.mod_small. Qed.

Lemma i64_id z : - 2 ^ 63 <= z < 2 ^ 63 -> i64 z = z.
Proof. intros H. unfold i64. rewrite Z.mod_small by lia. lia. Qed.

Lemma i64_range z : - 2 ^ 63 <= i64 z < 2 ^ 63.
Proof. unfold i64. pose proof (Z.mod_pos_bound (z + 2 ^ 63) (2 ^ 64)). lia. Qed.

(** ** Lists and relations *)
Lemma length_filter_mono {A} (P Q : A -> Prop) `{!forall x, Decision (P x)} `{!forall x, Decision (Q x)} l :
  (forall x, P x -> Q x) -> (length (filter P l) <= length (filter Q l))%nat.
Proof.
  intros HPQ. induction l as [|x l IH]; [done|].
  rewrite !filter_cons. repeat case_decide; cbn; try lia. naive_solver.
Qed.

Lemma length_filter_lt {A} (P Q : A -> Prop) `{!forall x, Decision (P x)} `{!forall x, Decision (Q x)} l x :
  (forall x, P x -> Q x) -> x ∈ l -> Q x -> ~ P x -> (length (filter P l) < length (filter Q l))%nat.
Proof.
  intros HPQ Hx HQ HP. induction l as [|y l IH]; [by apply not_elem_of_nil in Hx|].
  apply elem_of_cons in Hx as [->|Hx].
  - rewrite !filter_cons, decide_False, decide_True by done. cbn.
    pose proof (length_filter_mono P Q l HPQ). lia.
  - specialize (IH Hx). rewrite !filter_cons. repeat case_decide; cbn; try lia. naive_solver.
Qed.

Lemma tc_closed {A} (R : relation A) (P : A -> Prop) x y :
  (forall v, R x v -> P v) -> (forall u v, P u -> R u v -> P v) -> tc R x y -> P y.
Proof. intros H0 HS Ht. revert H0. induction Ht as [|? y ? ?? IH]; intros H0; [auto|]. apply IH. eauto. Qed.

Lemma elem_of_rev {A} (x : A) l : x ∈ rev l <-> x ∈ l.
Proof. by rewrite !list_elem_of_In, <- in_rev. Qed.

Lemma flat_map_nil {A B} (f : A -> list B) l : flat_map f l = [] <-> forall x, x ∈ l -> f x = [].
Proof.
  induction l as [|x l IH]; cbn; [by split; [intros _ ? ?%not_elem_of_nil|]|].
  rewrite app_nil, IH. setoid_rewrite elem_of_cons. naive_solver.
Qed.

Lemma filter_nil {A} (P : A -> Prop) `{!forall x, Decision (P x)} l : filter P l = [] <-> forall x, x ∈ l -> ~ P x.
Proof.
  induction l as [|x l IH]; [by split; [intros _ ? ?%not_elem_of_nil|]|].
  rewrite filter_cons. setoid_rewrite elem_of_cons. case_decide; naive_solver.
Qed.

Lemma length_filter_insert {A} (P : A -> Prop) `{!forall x, Decision (P x)} (l : list A) i x y :
  l !! i = Some x ->
  (length (filter P (<[i := y]> l)) + (if decide (P x) then 1 else 0) =
   length (filter P l) + (if decide (P y) then 1 else 0))%nat.
Proof.
  intros Hi. rewrite (insert_take_drop _ _ _ (lookup_lt_Some _ _ _ Hi)).
  rewrite <- (take_drop_middle l i x Hi) at 3.
  rewrite !filter_app, !filter_cons, !length_app. repeat case_decide; cbn; lia.
Qed.

Lemma filter_ext_in {A} (P Q : A -> Prop) `{!forall x, Decision (P x)} `{!forall x, Decision (Q x)} (l : list A) :
  (forall x, x ∈ l -> P x <-> Q x) -> filter P l = filter Q l.
Proof.
  induction l as [|x l IH]; intros HPQ; [done|]. rewrite !filter_cons, IH by (intros; apply HPQ; by right).
  pose proof (HPQ x ltac:(left)). repeat case_decide; try done; exfalso; tauto.
Qed.

Lemma filter_snoc {A} (P : A -> Prop) `{!forall x, Decision (P x)} (l : list A) x :
  filter P (l ++ [x]) = if decide (P x) then filter P l ++ [x] else filter P l.
Proof. rewrite filter_app, filter_cons. case_decide; [done|]. by rewrite app_nil_r. Qed.

(** A statement about a range of integers, by computation. *)
Fixpoint all_from (f : Z -> bool) (z : Z) (n : nat) : bool := match n with O => true | S n => f z && all_from f (z + 1) n end.
Definition all_between (f : Z -> bool) (a b : Z) : bool := all_from f a (Z.to_nat (b - a)).

Lemma all_from_spec f n : forall z, all_from f z n = true -> forall w, z <= w < z + Z.of_nat n -> f w = true.
Proof.
  induction n as [|n IH]; intros z; cbn [all_from]; [lia|]. rewrite andb_true_iff. intros [Hz Hn] w Hw.
  destruct (decide (w = z)) as [-> |]; [done|]. apply (IH _ Hn). lia.
Qed.

Lemma all_between_spec f a b : all_between f a b = true -> forall w, a <= w < b -> f w = true.
Proof. intros H w Hw. apply (all_from_spec f _ a H). lia. Qed.

Lemma concat_imap_nil {A B} (f : nat -> A -> list B) l : concat (imap f l) = [] <-> forall i x, l !! i = Some x -> f i x = [].
Proof.
  revert f. induction l as [|x l IH]; intros f; [done|]. cbn [imap concat]. rewrite app_nil, IH. split.
  - intros [H1 H2] [|i] y; cbn; [by intros [= <-]|apply H2].
  - intros H. split; [by apply (H 0%nat)|]. intros i y Hy. by apply (H (S i)).
Qed.

Lemma foldr_max_le l n d : (Z.of_nat (d + foldr Nat.max 0%nat l) <= n) <-> Z.of_nat d <= n /\ Forall (fun m => Z.of_nat (d + m) <= n) l.
Proof.
  induction l as [|m l IH]; cbn; [rewrite Nat.add_0_r; split; [by split|tauto]|]. rewrite Forall_cons.
  replace (d + Nat.max m (foldr Nat.max 0 l))%nat with (Nat.max (d + m) (d + foldr Nat.max 0 l))%nat by lia. rewrite Nat2Z.inj_max, Z.max_lub_iff, IH. tauto.
Qed.

Lemma Forall_concat_map {A B} (f : A -> list B) (P : B -> Prop) l : Forall P (concat (map f l)) <-> Forall (fun x => Forall P (f x)) l.
Proof. induction l as [|x l IH]; cbn; [by rewrite !Forall_nil|]. by rewrite Forall_app, Forall_cons, IH. Qed.

Lemma tc_rtc_step {A} (R : relation A) u v : rtc R u v <-> u = v \/ tc R u v.
Proof. split; [intros [->|]%rtc_tc; auto|intros [-> |]; [constructor|by apply tc_rtc]]. Qed.
