(* ===== verification/Cdc.v ===== *)
(** * Content-defined chunking ([src/internal/backup/cdc])

    [Config.normalized], [New], [spreadMask], [buildGear], [cutpoint] and the
    streaming loop [Split].  A reader is the list of results its [Read]
    returns; [emit] is a function on an accumulator the caller owns. *)
From Stdlib Require Import Strings.Byte.
From S2P Require Import Prelude.

(** ** Parameters: [Config], [DefaultConfig], [normalized] *)
Record Config := mkConfig { Min : Z; Avg : Z; Max : Z }.

Definition DefaultMin : Z := Z.shiftl 256 10.
Definition DefaultAvg : Z := Z.shiftl 1 20.
Definition DefaultMax : Z := Z.shiftl 4 20.

Definition DefaultConfig : Config := mkConfig DefaultMin DefaultAvg DefaultMax.

Definition normalized (c : Config) : Config :=
  let mn := if decide (Min c <= 0) then DefaultMin else Min c in
  let av := if decide (Avg c <= 0) then DefaultAvg else Avg c in
  let mx := if decide (Max c <= 0) then DefaultMax else Max c in
  let av := if decide (av < mn) then mn else av in
  let mx := if decide (mx < av) then av else mx in
  mkConfig mn av mx.

(** ** Masks and the gear table *)
Fixpoint spreadMask_loop (n : nat) (m pos : Z) : Z :=
  match n with
  | O => m
  | S n' =>
      let m := Z.lor m (Z.shiftl 1 pos) in
      let pos := pos - 2 in
      let pos := if decide (pos < 0) then 62 else pos in
      spreadMask_loop n' m pos
  end.

Definition spreadMask (bitsSet : Z) : Z :=
  if decide (bitsSet = 0) then 0
  else if decide (64 <= bitsSet) then 2 ^ 64 - 1
  else spreadMask_loop (Z.to_nat bitsSet) 0 63.

(** [splitmix64]: one table entry and the advanced seed. *)
Definition gear_entry (s : Z) : Z :=
  let z := s in
  let z := u64 (Z.lxor z (Z.shiftr z 30) * 0xbf58476d1ce4e5b9) in
  let z := u64 (Z.lxor z (Z.shiftr z 27) * 0x94d049bb133111eb) in
  Z.lxor z (Z.shiftr z 31).

Fixpoint buildGear_loop (n : nat) (s : Z) : list Z :=
  match n with
  | O => []
  | S n' =>
      let s := u64 (s + 0x9e3779b97f4a7c15) in
      gear_entry s :: buildGear_loop n' s
  end.

Definition buildGear (seed : Z) : list Z := buildGear_loop 256 seed.

Definition gear : list Z := Eval vm_compute in buildGear 0x3f6a8885a308d313.

Definition gear_at (b : byte) : Z := nth (N.to_nat (Byte.to_N b)) gear 0.

(** ** The chunker *)
Record Chunker := mkChunker { cfg : Config; maskS : Z; maskL : Z }.

(** [bits.Len] of a positive word, less one, is its binary logarithm. *)
Definition New (c : Config) : Chunker :=
  let c := normalized c in
  let avgBits := Z.log2 (Avg c) in
  let sBits := avgBits + 2 in
  let lBits := u64 (avgBits - 2) in
  let lBits := if decide (avgBits < 2) then 0 else lBits in
  mkChunker c (spreadMask sBits) (spreadMask lBits).

(** One of the two scanning loops: [ds] is [data[i:]] up to the loop's bound.
    It returns the position where the loop stopped, the rolling sum, and
    whether it stopped by [return i]. *)
Fixpoint scan (mask : Z) (ds : list byte) (fp i : Z) : Z * Z * bool :=
  match ds with
  | [] => (i, fp, false)
  | b :: ds' =>
      let fp := u64 (u64 (Z.shiftl fp 1) + gear_at b) in
      if decide (Z.land fp mask = 0) then (i, fp, true)
      else scan mask ds' fp (i + 1)
  end.

Definition slice (data : list byte) (lo hi : Z) : list byte :=
  take (Z.to_nat (hi - lo)) (drop (Z.to_nat lo) data).

Definition cutpoint (c : Chunker) (data : list byte) : Z :=
  let n := Z.of_nat (length data) in
  if decide (n <= Min (cfg c)) then n
  else
    let n := if decide (Max (cfg c) < n) then Max (cfg c) else n in
    let normal := Avg (cfg c) in
    let normal := if decide (n < normal) then n else normal in
    let '(i, fp, cut) := scan (maskS c) (slice data (Min (cfg c)) normal) 0 (Min (cfg c)) in
    if cut then i
    else let '(i, _, _) := scan (maskL c) (slice data i n) fp i in i.

(** ** [Split] *)
Inductive read_status (E : Type) := RdOK | RdEOF | RdErr (e : E).
Arguments RdOK {E}. Arguments RdEOF {E}. Arguments RdErr {E} e.

(** What successive calls of [r.Read] return.  A reader that has nothing more
    to say answers [(0, io.EOF)]. *)
Definition reader (E : Type) := list (list byte * read_status E).

(** The inner loop: read until the buffer holds [Max] bytes or the reader
    ends.  Result: buffer, [eof], rest of the reader. *)
Fixpoint fill {E} (mx : Z) (buf : list byte) (r : reader E)
  : result E (list byte * bool * reader E) :=
  if decide (Z.of_nat (length buf) < mx) then
    match r with
    | [] => Ok (buf, true, [])
    | (bs, st) :: r' =>
        let buf := buf ++ bs in
        match st with
        | RdOK => fill mx buf r'
        | RdEOF => Ok (buf, true, r')
        | RdErr e => Err e
        end
    end
  else Ok (buf, false, r).

(** How [Split] can end: [nil], the reader's error, the callback's error.
    [OutOfFuel] is not an outcome of the code; [Split_terminates] excludes it. *)
Inductive outcome (E F : Type) := Done | ReadFailed (e : E) | EmitFailed (f : F) | OutOfFuel.
Arguments Done {E F}. Arguments ReadFailed {E F} e.
Arguments EmitFailed {E F} f. Arguments OutOfFuel {E F}.

Section Split.
Context {E F A : Type} (emit : A -> list byte -> A * option F).

Fixpoint Split_loop (fuel : nat) (c : Chunker) (buf : list byte) (eof : bool)
    (r : reader E) (acc : A) : A * outcome E F :=
  match fuel with
  | O => (acc, OutOfFuel)
  | S fuel' =>
      match (if eof then Ok (buf, true, r) else fill (Max (cfg c)) buf r) with
      | Err e => (acc, ReadFailed e)
      | Ok (buf, eof, r) =>
          if decide (buf = []) then (acc, Done)
          else
            let cp := cutpoint c buf in
            let cp := if decide (cp <= 0) then Z.of_nat (length buf) else cp in
            match emit acc (take (Z.to_nat cp) buf) with
            | (acc, Some e) => (acc, EmitFailed e)
            | (acc, None) =>
                let buf := drop (Z.to_nat cp) buf in
                if decide (buf = [] /\ eof = true) then (acc, Done)
                else Split_loop fuel' c buf eof r acc
            end
      end
  end.

(** The bytes the reader will deliver bound the number of iterations. *)
Definition reader_size (r : reader E) : nat := list_sum (map (fun x => length x.1) r).

Definition Split (c : Chunker) (r : reader E) (acc : A) : A * outcome E F :=
  Split_loop (S (reader_size r)) c [] false r acc.
End Split.

(** ** Well-formed parameters *)
Definition config_wf (c : Config) : Prop := 0 < Min c /\ Min c <= Avg c /\ Avg c <= Max c.

Lemma normalized_wf c : config_wf (normalized c).
Proof.
  unfold config_wf, normalized; cbn [Min Avg Max].
  change DefaultMin with 262144; change DefaultAvg with 1048576; change DefaultMax with 4194304.
  repeat case_decide; lia.
Qed.

Lemma normalized_id c : config_wf c -> normalized c = c.
Proof.
  unfold config_wf, normalized; destruct c as [mn av mx]; cbn; intros.
  repeat case_decide; try lia; reflexivity.
Qed.

Lemma New_wf c : config_wf (cfg (New c)).
Proof. apply normalized_wf. Qed.

(** ** The cut point *)
Lemma scan_bounds mask ds fp i i' fp' b :
  scan mask ds fp i = (i', fp', b) ->
  i <= i' <= i + Z.of_nat (length ds) /\ (b = true -> i' < i + Z.of_nat (length ds)) /\
  (b = false -> i' = i + Z.of_nat (length ds)).
Proof.
  revert fp i; induction ds as [|x ds IH]; cbn [scan length]; intros fp i.
  - intros [= <- <- <-]. split; [lia|]. split; [done|lia].
  - case_decide.
    + intros [= <- <- <-]. split; [lia|]. split; [lia|done].
    + intros (?&Ht&Hf)%IH. split; [lia|].
      split; intros Hb; [specialize (Ht Hb)|specialize (Hf Hb)]; lia.
Qed.

Lemma length_slice data lo hi :
  0 <= lo <= hi -> hi <= Z.of_nat (length data) -> Z.of_nat (length (slice data lo hi)) = hi - lo.
Proof. intros. unfold slice. rewrite length_take, length_drop. lia. Qed.

Lemma slice_app p s lo hi :
  0 <= lo <= hi -> hi <= Z.of_nat (length p) -> slice (p ++ s) lo hi = slice p lo hi.
Proof.
  intros. unfold slice. rewrite drop_app_le by lia.
  apply take_app_le. rewrite length_drop. lia.
Qed.

(** Where a cut may fall, for any non-empty buffer. *)
Lemma cutpoint_bounds c data :
  config_wf (cfg c) -> data <> [] ->
  let n := Z.of_nat (length data) in
  0 < cutpoint c data <= Z.min n (Max (cfg c)) /\ (Min (cfg c) < n -> Min (cfg c) <= cutpoint c data).
Proof.
  intros (H1&H2&H3) Hne n.
  assert (0 < n) by (destruct data; [done|subst n; cbn; lia]).
  unfold cutpoint. fold n. case_decide as Hmin; [lia|].
  set (n' := if decide (Max (cfg c) < n) then Max (cfg c) else n).
  set (normal := if decide (n' < Avg (cfg c)) then n' else Avg (cfg c)).
  assert (Min (cfg c) <= n' <= Z.min n (Max (cfg c))) by (subst n'; case_decide; lia).
  assert (Min (cfg c) <= normal <= n') by (subst normal; case_decide; lia).
  destruct (scan (maskS c) _ _ _) as [[i fp] cut] eqn:E1.
  apply scan_bounds in E1. rewrite length_slice in E1 by lia.
  destruct cut; [lia|].
  destruct (scan (maskL c) _ _ _) as [[i2 fp2] cut2] eqn:E2.
  apply scan_bounds in E2. rewrite length_slice in E2 by lia. lia.
Qed.

Lemma cutpoint_small c data :
  Z.of_nat (length data) <= Min (cfg c) -> cutpoint c data = Z.of_nat (length data).
Proof. intros. unfold cutpoint. by rewrite decide_True. Qed.

Lemma cutpoint_at_max c data :
  Min (cfg c) = Avg (cfg c) -> Avg (cfg c) = Max (cfg c) -> 0 <= Max (cfg c) <= Z.of_nat (length data) ->
  cutpoint c data = Max (cfg c).
Proof.
  intros E1 E2 ?. unfold cutpoint. rewrite E1, E2.
  case_decide; [lia|].
  assert (E : forall d x, slice d x x = []) by (intros; unfold slice; rewrite Z.sub_diag; done).
  repeat case_decide; try lia; rewrite E; cbn [scan]; rewrite E; done.
Qed.

(** A cut only looks at the first [Max] bytes. *)
Lemma cutpoint_app c p s :
  config_wf (cfg c) -> Max (cfg c) <= Z.of_nat (length p) -> cutpoint c (p ++ s) = cutpoint c p.
Proof.
  intros (H1&H2&H3) Hp.
  destruct (decide (Z.of_nat (length p) <= Min (cfg c))) as [Hle|Hgt].
  { rewrite cutpoint_at_max by (rewrite ?length_app; lia).
    rewrite cutpoint_at_max by lia. done. }
  unfold cutpoint. rewrite length_app, Nat2Z.inj_add, decide_False by lia.
  rewrite (decide_False (P := Z.of_nat (length p) <= Min (cfg c))) by lia.
  assert (E : (if decide (Max (cfg c) < Z.of_nat (length p) + Z.of_nat (length s)) then Max (cfg c)
           else Z.of_nat (length p) + Z.of_nat (length s))
         = (if decide (Max (cfg c) < Z.of_nat (length p)) then Max (cfg c) else Z.of_nat (length p))).
  { repeat case_decide; lia. }
  rewrite E. clear E. set (n' := if decide (Max (cfg c) < Z.of_nat (length p)) then _ else _).
  assert (Min (cfg c) <= n' <= Z.of_nat (length p)) by (subst n'; case_decide; lia).
  set (normal := if decide (n' < Avg (cfg c)) then n' else Avg (cfg c)).
  assert (Min (cfg c) <= normal <= n') by (subst normal; case_decide; lia).
  rewrite slice_app by lia.
  destruct (scan (maskS c) _ _ _) as [[i fp] cut] eqn:E1.
  apply scan_bounds in E1. rewrite length_slice in E1 by lia.
  destruct cut; [done|]. rewrite slice_app by lia. done.
Qed.

(** ** The reference: cut, emit, continue *)
Fixpoint chunks_loop (fuel : nat) (c : Chunker) (data : list byte) : list (list byte) :=
  match fuel, data with
  | O, _ | _, [] => []
  | S fuel', _ =>
      let cp := Z.to_nat (cutpoint c data) in
      take cp data :: chunks_loop fuel' c (drop cp data)
  end.

Definition chunks (c : Chunker) (data : list byte) : list (list byte) :=
  chunks_loop (length data) c data.

(** What the reader delivers before it ends or fails, and whether it fails. *)
Fixpoint stream {E} (r : reader E) : list byte :=
  match r with
  | [] => []
  | (bs, RdOK) :: r' => bs ++ stream r'
  | (bs, _) :: _ => bs
  end.

Fixpoint clean {E} (r : reader E) : bool :=
  match r with
  | [] | (_, RdEOF) :: _ => true
  | (_, RdOK) :: r' => clean r'
  | (_, RdErr _) :: _ => false
  end.

Fixpoint emit_all {E F A} (emit : A -> list byte -> A * option F) (acc : A)
    (l : list (list byte)) : A * outcome E F :=
  match l with
  | [] => (acc, Done)
  | x :: l' => match emit acc x with
               | (acc, Some e) => (acc, EmitFailed e)
               | (acc, None) => emit_all emit acc l'
               end
  end.

Section Chunks.
Context (c : Chunker) (Hc : config_wf (cfg c)).
Implicit Types (data p s : list byte).

Lemma cutpoint_pos_nat data :
  data <> [] -> (0 < Z.to_nat (cutpoint c data) <= length data)%nat.
Proof using Hc. intros [H _]%(cutpoint_bounds c); [lia|done]. Qed.

Lemma chunks_loop_enough n m data :
  (length data <= n)%nat -> (length data <= m)%nat -> chunks_loop n c data = chunks_loop m c data.
Proof using Hc.
  revert m data; induction n as [|n IH]; intros [|m] [|x data] Hn Hm; cbn in Hn, Hm; try lia; try done.
  cbn [chunks_loop]. destruct (cutpoint_pos_nat (x :: data)) as [Hp _]; [done|].
  f_equal. apply IH; rewrite length_drop; cbn [length]; lia.
Qed.

Lemma chunks_cons data :
  data <> [] ->
  chunks c data = take (Z.to_nat (cutpoint c data)) data :: chunks c (drop (Z.to_nat (cutpoint c data)) data).
Proof using Hc.
  intros Hne. destruct (cutpoint_pos_nat data) as [Hp _]; [done|].
  unfold chunks. destruct data as [|x data]; [done|]. cbn [length chunks_loop]. f_equal.
  apply chunks_loop_enough; rewrite length_drop; cbn [length]; lia.
Qed.

(** Induction along the cuts. *)
Lemma chunks_ind (P : list byte -> Prop) :
  P [] ->
  (forall data, data <> [] -> P (drop (Z.to_nat (cutpoint c data)) data) -> P data) ->
  forall data, P data.
Proof using Hc.
  intros H0 HS data. induction data as [data IH] using (induction_ltof1 _ length).
  destruct data as [|x data]; [done|]. apply HS; [done|]. apply IH. unfold ltof.
  destruct (cutpoint_pos_nat (x :: data)) as [Hp _]; [done|]. rewrite length_drop. cbn [length]. lia.
Qed.

Lemma chunks_concat data : concat (chunks c data) = data.
Proof using Hc.
  induction data as [|data Hne IH] using chunks_ind; [done|].
  rewrite chunks_cons by done. cbn [concat]. rewrite IH. apply take_drop.
Qed.

(** Every chunk but the last has at least [Min] bytes; none exceeds [Max]. *)
Fixpoint sizes_ok (l : list (list byte)) : Prop :=
  match l with
  | [] => True
  | x :: l' => (0 < length x)%nat /\ Z.of_nat (length x) <= Max (cfg c) /\
               (l' <> [] -> Min (cfg c) <= Z.of_nat (length x)) /\ sizes_ok l'
  end.

Lemma chunks_sizes data : sizes_ok (chunks c data).
Proof using Hc.
  induction data as [|data Hne IH] using chunks_ind; [done|].
  rewrite chunks_cons by done. cbn [sizes_ok].
  destruct (cutpoint_bounds c data) as [Hb Hmin]; [done..|].
  rewrite length_take. split; [lia|]. split; [lia|]. split; [|done]. intros Hl.
  destruct (decide (Min (cfg c) < Z.of_nat (length data))) as [|Hs]; [lia|].
  rewrite (cutpoint_small c data), Nat2Z.id, drop_all in Hl by lia. done.
Qed.

(** *** The buffer refill *)
Lemma fill_spec {E} (r : reader E) mx buf :
  clean r = true ->
  exists buf' eof r', fill mx buf r = Ok (buf', eof, r') /\ (eof = false -> clean r' = true) /\
    buf ++ stream r = buf' ++ (if eof then [] else stream r') /\
    (eof = false -> mx <= Z.of_nat (length buf')).
Proof using.
  revert buf; induction r as [|[bs st] r IH]; intros buf Hcl; cbn [fill stream clean] in *;
    (case_decide as Hd; [|by eexists _, false, _; split_and!; [done|done|done|lia]]).
  - by eexists _, true, [].
  - destruct st; [|by eexists _, true, r; rewrite app_nil_r|done].
    rewrite (assoc_L (++)). by apply IH.
Qed.

Lemma stream_size {E} (r : reader E) : (length (stream r) <= reader_size r)%nat.
Proof using.
  unfold reader_size. induction r as [|[bs []] r IH]; cbn [stream map list_sum fst]; rewrite ?length_app; unfold list_sum in *; cbn; lia.
Qed.

(** *** Streaming equals the reference *)
Lemma Split_loop_chunks {E F A} (emit : A -> list byte -> A * option F) fuel buf eof (r : reader E) acc :
  (eof = false -> clean r = true) ->
  (length (buf ++ (if eof then [] else stream r)) < fuel)%nat ->
  Split_loop emit fuel c buf eof r acc =
    emit_all emit acc (chunks c (buf ++ (if eof then [] else stream r))).
Proof using Hc.
  revert buf eof r acc; induction fuel as [|fuel IH]; intros buf eof r acc Hcl Hf; [lia|].
  cbn [Split_loop].
  assert (exists buf' eof' r', (if eof then Ok (buf, true, r) else fill (Max (cfg c)) buf r) = Ok (buf', eof', r')
    /\ (eof' = false -> clean r' = true)
    /\ buf ++ (if eof then [] else stream r) = buf' ++ (if eof' then [] else stream r')
    /\ (eof' = false -> Max (cfg c) <= Z.of_nat (length buf'))) as (buf'&eof'&r'&->&Hcl'&Heq&Hlen).
  { destruct eof; [by eexists _, _, _|]. apply fill_spec. auto. }
  rewrite Heq in *. clear Heq. destruct Hc as (?&?&?).
  destruct (decide (buf' = [])) as [->|Hne].
  { destruct eof'; [done|]. cbn in Hlen. by specialize (Hlen eq_refl); lia. }
  set (rest := if eof' then [] else stream r') in *.
  assert (cutpoint c (buf' ++ rest) = cutpoint c buf') as Hcut.
  { subst rest. destruct eof'; [by rewrite app_nil_r|]. apply cutpoint_app; auto. }
  destruct (cutpoint_pos_nat buf' Hne) as [Hp1 Hp2].
  rewrite decide_False by lia.
  rewrite chunks_cons by (by destruct buf'). rewrite Hcut, take_app_le, drop_app_le by lia. cbn [emit_all].
  destruct (emit acc _) as [acc' [e|]]; [done|].
  rewrite length_app in Hf.
  case_decide as Hfin.
  - destruct Hfin as [-> ->]. done.
  - rewrite IH; [done..|]. fold rest. rewrite length_app, length_drop. lia.
Qed.
End Chunks.

(** ** Properties *)

(** C1: [Split] over any error-free reader, however the reads divide the
    stream, calls the callback on exactly the chunks the one-shot reference
    cuts from the whole stream, stops at the callback's first error, and always
    ends (no fuel runs out).  The chunks concatenate to the stream, none is empty
    or longer than [Max], and all but the last hold at least [Min] bytes. *)
Theorem Split_correct {E F A} (emit : A -> list byte -> A * option F) (conf : Config)
    (r : reader E) (acc : A) :
  clean r = true ->
  Split emit (New conf) r acc = emit_all emit acc (chunks (New conf) (stream r)) /\
  (emit_all emit acc (chunks (New conf) (stream r))).2 <> @OutOfFuel E F /\
  concat (chunks (New conf) (stream r)) = stream r /\
  sizes_ok (New conf) (chunks (New conf) (stream r)).
Proof.
  intros Hcl. split_and!.
  - unfold Split. rewrite Split_loop_chunks; [done|apply New_wf|done|].
    cbn. pose proof (stream_size r). lia.
  - clear Hcl. generalize (chunks (New conf) (stream r)). intros l. revert acc.
    induction l as [|x l IH]; intros acc; cbn [emit_all]; [done|]. by destruct (emit acc x) as [? []].
  - apply chunks_concat, New_wf.
  - apply chunks_sizes, New_wf.
Qed.

(** What [Split] gives a caller that copies every chunk. *)
Definition collect (acc : list (list byte)) (x : list byte) : list (list byte) * option unit :=
  (acc ++ [x], None).

Lemma Split_correct_witness :
  clean [([x61; x62; x63], @RdOK unit); ([], RdOK); ([x64; x65], RdEOF)] = true /\
  Split collect (New (mkConfig 2 2 4)) [([x61; x62; x63], @RdOK unit); ([], RdOK); ([x64; x65], RdEOF)] [] =
    emit_all collect [] (chunks (New (mkConfig 2 2 4)) [x61; x62; x63; x64; x65]).
Proof.
  split; [reflexivity|].
  exact (proj1 (Split_correct collect (mkConfig 2 2 4)
    [([x61; x62; x63], @RdOK unit); ([], RdOK); ([x64; x65], RdEOF)] [] eq_refl)).
Defined.

(** [pos] is a chunk boundary of [data], the end of its [k]-th chunk. *)
Definition cut_at (c : Chunker) (data : list byte) (k : nat) (pos : nat) : Prop :=
  length (concat (take k (chunks c data))) = pos.

Lemma chunks_drop c data k :
  config_wf (cfg c) ->
  drop k (chunks c data) = chunks c (drop (length (concat (take k (chunks c data)))) data).
Proof.
  intros Hc. revert k.
  induction data as [|data Hne IH] using (chunks_ind c Hc); intros k; [by destruct k|].
  destruct k as [|k]; [done|]. rewrite chunks_cons by done. cbn [take drop concat].
  rewrite IH, drop_drop, length_app, length_take_le by (by apply cutpoint_pos_nat). done.
Qed.

(** Chunks that end [Max] bytes before two streams diverge are the same. *)
Lemma chunks_stable c p s1 s2 k :
  config_wf (cfg c) ->
  Z.of_nat (length (concat (take k (chunks c (p ++ s1))))) + Max (cfg c) <= Z.of_nat (length p) ->
  take (S k) (chunks c (p ++ s1)) = take (S k) (chunks c (p ++ s2)).
Proof.
  intros Hc. pose proof Hc as (?&?&?). revert p. induction k as [|k IH]; intros p Hlen.
  all: destruct (decide (p = [])) as [->|Hp]; [cbn in Hlen; lia|].
  all: assert (forall s, chunks c (p ++ s) = take (Z.to_nat (cutpoint c p)) p ::
      chunks c (drop (Z.to_nat (cutpoint c p)) p ++ s)) as Hcons by
    (intros s; destruct (cutpoint_pos_nat c Hc p Hp);
     rewrite chunks_cons, cutpoint_app, take_app_le, drop_app_le by (lia || by destruct p); done).
  - by rewrite !Hcons.
  - rewrite (Hcons s1) in Hlen. rewrite (Hcons s1), (Hcons s2).
    cbn [take concat] in *. rewrite length_app in Hlen. destruct (cutpoint_pos_nat c Hc p Hp).
    rewrite length_take_le in Hlen by lia.
    f_equal. apply IH. rewrite length_drop. lia.
Qed.

(** C2: boundaries realign.  Two streams [p1 ++ tail] and [p2 ++ tail] that both
    have a boundary where the common tail starts share every later chunk, whatever
    came before it; and two streams with a common prefix [p] share every chunk
    that starts at least [Max] bytes before the prefix ends. *)
Theorem chunks_realign (conf : Config) (p1 p2 tail : list byte) (k1 k2 : nat) :
  let c := New conf in
  (cut_at c (p1 ++ tail) k1 (length p1) -> cut_at c (p2 ++ tail) k2 (length p2) ->
   drop k1 (chunks c (p1 ++ tail)) = drop k2 (chunks c (p2 ++ tail))) /\
  (forall k pos s1 s2,
     cut_at c (p1 ++ s1) k pos -> Z.of_nat pos + Max (cfg c) <= Z.of_nat (length p1) ->
     take (S k) (chunks c (p1 ++ s1)) = take (S k) (chunks c (p1 ++ s2))).
Proof.
  intros c. unfold cut_at. split.
  - intros H1 H2. rewrite !chunks_drop, H1, H2, !drop_app_length by apply New_wf. done.
  - intros k pos s1 s2 <- Hl. apply chunks_stable; [apply New_wf|done].
Qed.

Lemma chunks_realign_witness :
  let c := New (mkConfig 2 2 4) in
  cut_at c ([x61; x62; x63; x64] ++ [x01; x02; x03]) 2 4 /\
  cut_at c ([x05; x06] ++ [x01; x02; x03]) 1 2 /\
  drop 2 (chunks c ([x61; x62; x63; x64] ++ [x01; x02; x03])) =
    drop 1 (chunks c ([x05; x06] ++ [x01; x02; x03])).
Proof.
  intros c.
  assert (H1 : cut_at c ([x61; x62; x63; x64] ++ [x01; x02; x03]) 2 4) by (vm_compute; reflexivity).
  assert (H2 : cut_at c ([x05; x06] ++ [x01; x02; x03]) 1 2) by (vm_compute; reflexivity).
  split; [exact H1|]. split; [exact H2|].
  exact (proj1 (chunks_realign (mkConfig 2 2 4) [x61; x62; x63; x64] [x05; x06]
           [x01; x02; x03] 2 1) H1 H2).
Defined.

(** Number of set bits of a 64-bit word. *)
Definition popcount (m : Z) : Z := Z.of_nat (length (filter (fun i => Z.testbit m (Z.of_nat i) = true) (seq 0 64))).

Definition spreadMask_check (b : Z) : bool :=
  let m := spreadMask b in
  (0 <=? m) && (m <? 2 ^ 64) && (popcount m =? b) && (m =? Z.land m (spreadMask (b + 1))).

Lemma spreadMask_table : forallb spreadMask_check (map Z.of_nat (seq 0 64)) = true.
Proof. vm_compute. reflexivity. Qed.

Lemma spreadMask_small b :
  0 <= b < 64 ->
  0 <= spreadMask b < 2 ^ 64 /\ popcount (spreadMask b) = b /\
  spreadMask b = Z.land (spreadMask b) (spreadMask (b + 1)).
Proof.
  intros Hb. pose proof (proj1 (forallb_forall _ _) spreadMask_table b) as H.
  unfold spreadMask_check in H. rewrite !andb_true_iff, Z.leb_le, Z.ltb_lt, !Z.eqb_eq in H.
  destruct H as [[??]?]; [|done].
  apply in_map_iff. exists (Z.to_nat b). rewrite in_seq. lia.
Qed.

Lemma spreadMask_large b : 64 <= b -> spreadMask b = 2 ^ 64 - 1.
Proof. intros. unfold spreadMask. by rewrite decide_False, decide_True by lia. Qed.

Lemma popcount_spreadMask b : 0 <= b -> popcount (spreadMask b) = Z.min b 64.
Proof.
  intros. destruct (decide (b < 64)).
  - destruct (spreadMask_small b) as (_ & -> & _); lia.
  - rewrite spreadMask_large by lia. rewrite Z.min_r by lia. reflexivity.
Qed.

Lemma spreadMask_range b : 0 <= b -> 0 <= spreadMask b < 2 ^ 64.
Proof.
  intros. destruct (decide (b < 64)); [by apply spreadMask_small|]. rewrite spreadMask_large by lia. lia.
Qed.

Lemma spreadMask_nested a b : 0 <= a <= b -> Z.land (spreadMask a) (spreadMask b) = spreadMask a.
Proof.
  intros [Ha Hab]. replace b with (a + Z.of_nat (Z.to_nat (b - a))) by lia.
  generalize (Z.to_nat (b - a)). clear b Hab. intros n. revert a Ha. induction n as [|n IH]; intros a Ha.
  { rewrite Z.add_0_r. apply Z.land_diag. }
  replace (a + Z.of_nat (S n)) with ((a + 1) + Z.of_nat n) by lia.
  destruct (decide (a < 64)).
  - destruct (spreadMask_small a) as (_ & _ & E); [lia|]. rewrite E at 1.
    rewrite <- Z.land_assoc, IH by lia. by symmetry.
  - rewrite !(spreadMask_large) by lia. apply Z.land_diag.
Qed.

(** The two masks.  For any configuration whose sizes are Go ints, the early mask has the binary
    logarithm of the average plus two set bits and the late mask that logarithm less
    two (never negative), both are 64-bit words, and the late mask is contained in the
    early one: every rolling sum that would cut early would also cut late. *)
Theorem New_masks (conf : Config) :
  Avg (normalized conf) < 2 ^ 63 ->
  let c := New conf in
  let avgBits := Z.log2 (Avg (normalized conf)) in
  popcount (maskS c) = Z.min (avgBits + 2) 64 /\
  popcount (maskL c) = Z.max 0 (avgBits - 2) /\
  0 <= maskL c < 2 ^ 64 /\ 0 <= maskS c < 2 ^ 64 /\
  (forall fp, Z.land fp (maskS c) = 0 -> Z.land fp (maskL c) = 0).
Proof.
  intros Havg c avgBits. pose proof (normalized_wf conf) as (?&?&?).
  assert (0 <= avgBits < 63) as Hb.
  { split; [apply Z.log2_nonneg|]. apply Z.log2_lt_pow2; lia. }
  assert (HL : maskL c = spreadMask (Z.max 0 (avgBits - 2))).
  { unfold c, New; cbn [maskL]. fold avgBits. f_equal. case_decide; [lia|]. rewrite u64_id by lia. lia. }
  assert (HS : maskS c = spreadMask (avgBits + 2)) by done.
  rewrite HL, HS. split_and!; try (apply spreadMask_range; lia).
  - apply popcount_spreadMask. lia.
  - rewrite popcount_spreadMask by lia. lia.
  - intros fp Hz. rewrite <- (spreadMask_nested (Z.max 0 (avgBits - 2)) (avgBits + 2)) by lia.
    rewrite (Z.land_comm (spreadMask _)), Z.land_assoc, Hz. apply Z.land_0_l.
Qed.

Lemma New_masks_witness :
  Avg (normalized DefaultConfig) < 2 ^ 63 /\
  popcount (maskS (New DefaultConfig)) = 22 /\ popcount (maskL (New DefaultConfig)) = 18.
Proof.
  assert (H : Avg (normalized DefaultConfig) < 2 ^ 63) by reflexivity.
  split; [exact H|]. destruct (New_masks DefaultConfig H) as (HS & HL & _).
  split; [exact HS|exact HL].
Defined.
