(* ===== verification/GoText.v ===== *)
(** * Text as Go has it

    Strings are byte strings.  The functions of [strings], [strconv] and
    [unicode/utf8] that the source calls, as executable definitions.  The case
    tables of package [unicode] beyond ASCII are an interface, [CaseTables]: the
    only facts used are the ones its laws state. *)
From Stdlib Require Export Ascii.
From Stdlib Require Strings.String.
From stdpp Require Import sorting.
From S2P Require Export Prelude.

#[global] Open Scope Z_scope.

Definition byteZ (a : ascii) : Z := Z.of_N (N_of_ascii a).
Definition chr (z : Z) : ascii := ascii_of_N (Z.to_N z).

Definition bytes (s : string) : list ascii := Stdlib.Strings.String.list_ascii_of_string s.
Definition ofBytes (l : list ascii) : string := Stdlib.Strings.String.string_of_list_ascii l.

Lemma ofBytes_bytes s : ofBytes (bytes s) = s.
Proof. apply Stdlib.Strings.String.string_of_list_ascii_of_string. Qed.

Lemma bytes_ofBytes l : bytes (ofBytes l) = l.
Proof. apply Stdlib.Strings.String.list_ascii_of_string_of_list_ascii. Qed.

Lemma bytes_inj s t : bytes s = bytes t -> s = t.
Proof. intros E. by rewrite <- (ofBytes_bytes s), E, ofBytes_bytes. Qed.

Lemma bytes_app s t : bytes (s +:+ t) = bytes s ++ bytes t.
Proof. induction s as [|c s IH]; [done|]. change (bytes (String c s +:+ t)) with (c :: bytes (s +:+ t)). by rewrite IH. Qed.

(** ** Prefixes, suffixes, substrings *)
Fixpoint prefixb (p l : list ascii) : bool :=
  match p, l with
  | [], _ => true
  | a :: p', b :: l' => Ascii.eqb a b && prefixb p' l'
  | _ :: _, [] => false
  end.

Definition HasPrefix (s p : string) : bool := prefixb (bytes p) (bytes s).
Definition HasSuffix (s p : string) : bool := prefixb (rev (bytes p)) (rev (bytes s)).

Definition TrimSuffix (s p : string) : string :=
  if HasSuffix s p then ofBytes (take (length (bytes s) - length (bytes p)) (bytes s)) else s.

Definition TrimPrefix (s p : string) : string :=
  if HasPrefix s p then ofBytes (drop (length (bytes p)) (bytes s)) else s.

(** [strings.Split] on a separator of one byte. *)
Fixpoint splitb (c : ascii) (l : list ascii) (acc : list ascii) : list (list ascii) :=
  match l with
  | [] => [rev acc]
  | a :: l' => if Ascii.eqb a c then rev acc :: splitb c l' [] else splitb c l' (a :: acc)
  end.

Definition Split (s : string) (c : ascii) : list string := map ofBytes (splitb c (bytes s) []).

(** [strings.Index]: the first position of [p], if any. *)
Fixpoint indexb (p l : list ascii) (i : nat) : option nat :=
  if prefixb p l then Some i
  else match l with [] => None | _ :: l' => indexb p l' (S i) end.

Definition Index (s p : string) : option nat := indexb (bytes p) (bytes s) 0.
Definition Contains (s p : string) : bool := match Index s p with Some _ => true | None => false end.

(** [strings.LastIndex]: the last position of [p], if any. *)
Fixpoint last_indexb (p l : list ascii) (i : nat) : option nat :=
  match l with
  | [] => if prefixb p [] then Some i else None
  | _ :: l' => match last_indexb p l' (S i) with Some j => Some j | None => if prefixb p l then Some i else None end
  end.

Definition LastIndex (s p : string) : option nat := last_indexb (bytes p) (bytes s) 0.

Lemma prefixb_spec p l : prefixb p l = true <-> exists r, l = p ++ r.
Proof.
  revert l. induction p as [|a p IH]; intros [|b l]; cbn.
  - split; [by exists []|done].
  - split; [by eexists|done].
  - split; [done|by intros [? ?]].
  - rewrite andb_true_iff, IH. split.
    + intros [->%Ascii.eqb_eq (r & ->)]. by exists r.
    + intros (r & [= -> ->]). split; [apply Ascii.eqb_refl|by exists r].
Qed.

Lemma HasPrefix_spec s p : HasPrefix s p = true <-> exists r, bytes s = bytes p ++ r.
Proof. apply prefixb_spec. Qed.

Lemma HasSuffix_spec s p : HasSuffix s p = true <-> exists r, bytes s = r ++ bytes p.
Proof.
  unfold HasSuffix. rewrite prefixb_spec. split; intros [r Hr].
  - exists (rev r). rewrite <- (rev_involutive (bytes s)), Hr, rev_app_distr. by rewrite rev_involutive.
  - exists (rev r). by rewrite Hr, rev_app_distr.
Qed.

Lemma bytes_TrimSuffix s p r : bytes s = r ++ bytes p -> bytes (TrimSuffix s p) = r.
Proof.
  intros E. unfold TrimSuffix. assert (H : HasSuffix s p = true) by (apply HasSuffix_spec; eauto).
  rewrite H, bytes_ofBytes, E, length_app. replace (length r + length (bytes p) - length (bytes p))%nat with (length r) by lia.
  by rewrite take_app_length.
Qed.

Lemma bytes_TrimPrefix s p r : bytes s = bytes p ++ r -> bytes (TrimPrefix s p) = r.
Proof.
  intros E. unfold TrimPrefix. assert (H : HasPrefix s p = true) by (apply HasPrefix_spec; eauto).
  by rewrite H, bytes_ofBytes, E, drop_app_length.
Qed.

Lemma splitb_app c a l acc :
  c ∉ a -> splitb c (a ++ c :: l) acc = (rev acc ++ a) :: splitb c l [].
Proof.
  revert acc. induction a as [|x a IH]; intros acc Hc; cbn.
  - by rewrite Ascii.eqb_refl, app_nil_r.
  - apply not_elem_of_cons in Hc as [Hx Hc]. destruct (Ascii.eqb_spec x c) as [->|_]; [done|].
    rewrite IH by done. cbn. by rewrite <- app_assoc.
Qed.

Lemma splitb_last c a acc : c ∉ a -> splitb c a acc = [rev acc ++ a].
Proof.
  revert acc. induction a as [|x a IH]; intros acc Hc; cbn; [by rewrite app_nil_r|].
  apply not_elem_of_cons in Hc as [Hx Hc]. destruct (Ascii.eqb_spec x c) as [->|_]; [done|].
  rewrite IH by done. cbn. by rewrite <- app_assoc.
Qed.

Lemma indexb_contains p l i : is_Some (indexb p l i) <-> exists a b, l = a ++ p ++ b.
Proof.
  revert i. induction l as [|x l IH]; intros i; cbn; destruct (prefixb p _) eqn:Hp.
  - apply prefixb_spec in Hp as [r Hr]. split; [exists [], r; done|by eexists].
  - split; [by intros [? ?]|]. intros (a & b & Hab). destruct a; [|done].
    assert (prefixb p [] = true) by (apply prefixb_spec; by exists b). congruence.
  - apply prefixb_spec in Hp as [r Hr]. split; [exists [], r; done|by eexists].
  - rewrite IH. split.
    + intros (a & b & ->). by exists (x :: a), b.
    + intros ([|y a] & b & Hab); cbn in Hab.
      * assert (prefixb p (x :: l) = true) by (apply prefixb_spec; by exists b). congruence.
      * simplify_eq. eauto.
Qed.

(** ** White space: [unicode.IsSpace] in UTF-8, for [strings.TrimSpace] *)
Definition spaces : list (list ascii) :=
  map (map chr)
   ([[9]; [10]; [11]; [12]; [13]; [32]; [194; 133]; [194; 160]; [225; 154; 128];
     [226; 128; 168]; [226; 128; 169]; [226; 128; 175]; [226; 129; 159]; [227; 128; 128]]
    ++ map (fun k => [226; 128; 128 + Z.of_nat k]) (seq 0 11)).

(** Drop one leading white-space rune, given the rune encodings. *)
Fixpoint drop_space (sps : list (list ascii)) (l : list ascii) : option (list ascii) :=
  match sps with
  | [] => None
  | p :: sps' => if prefixb p l then Some (drop (length p) l) else drop_space sps' l
  end.

Fixpoint trim_loop (fuel : nat) (sps : list (list ascii)) (l : list ascii) : list ascii :=
  match fuel with
  | O => l
  | S fuel' => match drop_space sps l with Some l' => trim_loop fuel' sps l' | None => l end
  end.

Definition trim_left (l : list ascii) : list ascii := trim_loop (length l) spaces l.
Definition trim_right (l : list ascii) : list ascii :=
  rev (trim_loop (length l) (map (@rev ascii) spaces) (rev l)).

Definition TrimSpace (s : string) : string := ofBytes (trim_right (trim_left (bytes s))).

(** [strings.Fields]. *)
Fixpoint fields_loop (fuel : nat) (l acc : list ascii) : list (list ascii) :=
  match fuel with
  | O => []
  | S fuel =>
      match l with
      | [] => match acc with [] => [] | _ => [rev acc] end
      | a :: l' =>
          match drop_space spaces l with
          | Some rest => match acc with [] => fields_loop fuel rest [] | _ => rev acc :: fields_loop fuel rest [] end
          | None => fields_loop fuel l' (a :: acc)
          end
      end
  end.
Definition Fields (s : string) : list string := map ofBytes (fields_loop (S (String.length s)) (bytes s) []).

(** ** Runes *)
Definition RuneError : Z := 65533.

Definition cont (b : Z) (lo hi : Z) : bool := (lo <=? b) && (b <=? hi).

(** [utf8.DecodeRune] on a non-empty string: the rune and its width. *)
Definition decode_rune (l : list ascii) : Z * nat :=
  let b i := nth i (map byteZ l) (-1) in
  let b0 := b 0%nat in
  if b0 <? 128 then (b0, 1%nat)
  else if cont b0 194 223 && cont (b 1%nat) 128 191 then ((b0 - 192) * 64 + (b 1%nat - 128), 2%nat)
  else if cont b0 224 239 && cont (b 1%nat) (if b0 =? 224 then 160 else 128) (if b0 =? 237 then 159 else 191)
          && cont (b 2%nat) 128 191
  then ((b0 - 224) * 4096 + (b 1%nat - 128) * 64 + (b 2%nat - 128), 3%nat)
  else if cont b0 240 244 && cont (b 1%nat) (if b0 =? 240 then 144 else 128) (if b0 =? 244 then 143 else 191)
          && cont (b 2%nat) 128 191 && cont (b 3%nat) 128 191
  then ((b0 - 240) * 262144 + (b 1%nat - 128) * 4096 + (b 2%nat - 128) * 64 + (b 3%nat - 128), 4%nat)
  else (RuneError, 1%nat).

Fixpoint runes_loop (fuel : nat) (l : list ascii) : list Z :=
  match fuel, l with
  | O, _ | _, [] => []
  | S fuel', _ => let '(r, w) := decode_rune l in r :: runes_loop fuel' (drop w l)
  end.

(** [[]rune(s)]. *)
Definition runes (s : string) : list Z := runes_loop (String.length s) (bytes s).

Definition encode_rune (r : Z) : list ascii :=
  let r := if (r <? 0) || (1114111 <? r) || ((55296 <=? r) && (r <=? 57343)) then RuneError else r in
  map chr
  (if r <? 128 then [r]
   else if r <? 2048 then [192 + r / 64; 128 + r mod 64]
   else if r <? 65536 then [224 + r / 4096; 128 + (r / 64) mod 64; 128 + r mod 64]
   else [240 + r / 262144; 128 + (r / 4096) mod 64; 128 + (r / 64) mod 64; 128 + r mod 64]).

(** ** Case *)
Class CaseTables := {
  unicode_lower : Z -> Z;
  unicode_upper : Z -> Z;
  (** a representative of the rune's simple case-folding orbit *)
  unicode_fold : Z -> Z;
  unicode_lower_ascii r : 0 <= r < 128 -> unicode_lower r = if (65 <=? r) && (r <=? 90) then r + 32 else r;
  unicode_upper_ascii r : 0 <= r < 128 -> unicode_upper r = if (97 <=? r) && (r <=? 122) then r - 32 else r;
  unicode_fold_ascii r : 0 <= r < 128 -> unicode_fold r = if (65 <=? r) && (r <=? 90) then r + 32 else r;
  (** beyond ASCII a few runes have an ASCII letter as their lower case, never a sign *)
  unicode_lower_high r : 128 <= r -> 97 <= unicode_lower r
}.

Lemma ascii_lower_high r : 128 <= r -> 97 <= (if (65 <=? r) && (r <=? 90) then r + 32 else r).
Proof. intros Hr. destruct (_ && _); lia. Qed.
(** The tables cut down to ASCII: an instance for concrete runs. *)
Definition ascii_tables : CaseTables := {|
  unicode_lower r := if (65 <=? r) && (r <=? 90) then r + 32 else r;
  unicode_upper r := if (97 <=? r) && (r <=? 122) then r - 32 else r;
  unicode_fold r := if (65 <=? r) && (r <=? 90) then r + 32 else r;
  unicode_lower_ascii r _ := eq_refl;
  unicode_upper_ascii r _ := eq_refl;
  unicode_fold_ascii r _ := eq_refl;
  unicode_lower_high := ascii_lower_high
|}.

Section Case.
Context `{H : CaseTables}.

Definition ToLower (s : string) : string := ofBytes (concat (map (fun r => encode_rune (unicode_lower r)) (runes s))).
Definition ToUpper (s : string) : string := ofBytes (concat (map (fun r => encode_rune (unicode_upper r)) (runes s))).
Definition EqualFold (s t : string) : bool :=
  bool_decide (map unicode_fold (runes s) = map unicode_fold (runes t)).

Lemma EqualFold_refl s : EqualFold s s = true.
Proof. by apply bool_decide_eq_true. Qed.

Lemma EqualFold_sym s t : EqualFold s t = EqualFold t s.
Proof. apply bool_decide_ext. done. Qed.
End Case.

(** ** Decimal integers *)
Fixpoint digits_loop (fuel : nat) (n : Z) (acc : list ascii) : list ascii :=
  match fuel with
  | O => acc
  | S fuel' =>
      let acc := chr (48 + n mod 10) :: acc in
      if n <? 10 then acc else digits_loop fuel' (n / 10) acc
  end.

(** [strconv.Itoa], [%d]. *)
Definition Itoa (n : Z) : string :=
  let d m := digits_loop (S (Z.to_nat (Z.log2 m))) m [] in
  ofBytes (if n <? 0 then chr 45 :: d (- n) else d n).

Fixpoint parse_digits (l : list ascii) (acc : Z) : option Z :=
  match l with
  | [] => Some acc
  | a :: l' => let z := byteZ a in
               if (48 <=? z) && (z <=? 57) then parse_digits l' (acc * 10 + (z - 48)) else None
  end.

(** [strconv.Atoi] on a 64-bit platform. *)
Definition Atoi (s : string) : option Z :=
  let '(neg, l) := match bytes s with
                   | a :: l => if byteZ a =? 45 then (true, l) else if byteZ a =? 43 then (false, l) else (false, a :: l)
                   | [] => (false, [])
                   end in
  match l with
  | [] => None
  | _ => match parse_digits l 0 with
         | Some n => let n := if neg then - n else n in
                     if (- 2 ^ 63 <=? n) && (n <? 2 ^ 63) then Some n else None
         | None => None
         end
  end.

Example Itoa_ex : map Itoa [0; 7; 10; -305; 1234567890] = ["0"; "7"; "10"; "-305"; "1234567890"]%string.
Proof. reflexivity. Qed.
Example Atoi_ex : map Atoi ["0"; "-12"; "+7"; ""; "-"; "1x"; "9223372036854775808"]%string
  = [Some 0; Some (-12); Some 7; None; None; None; None].
Proof. reflexivity. Qed.
Example TrimSpace_ex : map TrimSpace [" a b "; ""; "   "]%string = ["a b"; ""; ""]%string.
Proof. reflexivity. Qed.
Example ToLower_ex : map (ToLower (H := ascii_tables)) ["AbC-9"]%string = ["abc-9"]%string.
Proof. reflexivity. Qed.

(** [sort.Strings]: by bytes. *)
Definition sortStrings (l : list string) : list string := merge_sort String.le l.
