(* ===== verification/TextProps.v ===== *)
(** * Facts about Go's texts

    What trimming removes, that trimming twice is trimming once, and where the first
    occurrence of a short text is. *)
From S2P Require Export GoText.

Lemma length_bytes s : length (bytes s) = String.length s.
Proof. unfold bytes. induction s as [|a s IH]; cbn; [done|by rewrite IH]. Qed.

(** ** Trimming *)
Definition space_bytes : list ascii := concat spaces.

Lemma drop_space_spec sps l l' : drop_space sps l = Some l' -> exists p, l = p ++ l' /\ forall c, c ∈ p -> c ∈ concat sps.
Proof.
  induction sps as [|sp sps IH]; cbn; [done|]. destruct (prefixb sp l) eqn:Ep.
  - intros [= <-]. apply prefixb_spec in Ep as [r ->]. exists sp. split; [by rewrite drop_app_length|]. intros c Hc. apply elem_of_app. by left.
  - intros H. destruct (IH H) as (p & -> & Hp). exists p. split; [done|]. intros c Hc. apply elem_of_app. right. by apply Hp.
Qed.

Lemma trim_loop_spec fuel sps : forall l, exists p, l = p ++ trim_loop fuel sps l /\ forall c, c ∈ p -> c ∈ concat sps.
Proof.
  induction fuel as [|fuel IH]; intros l; cbn [trim_loop]; [exists []; split; [done|]; intros c []%elem_of_nil|].
  destruct (drop_space sps l) as [l'|] eqn:Ed; [|exists []; split; [done|]; intros c []%elem_of_nil].
  destruct (drop_space_spec _ _ _ Ed) as (p & -> & Hp). destruct (IH l') as (q & Hq & Hq').
  exists (p ++ q). split; [by rewrite <- app_assoc, <- Hq|]. intros c [Hc|Hc]%elem_of_app; [by apply Hp|by apply Hq'].
Qed.

Lemma TrimSpace_spec s : exists a b, bytes s = a ++ bytes (TrimSpace s) ++ b /\ forall c, c ∈ a ++ b -> c ∈ space_bytes.
Proof.
  unfold TrimSpace, trim_left, trim_right. rewrite bytes_ofBytes.
  destruct (trim_loop_spec (length (bytes s)) spaces (bytes s)) as (a & Ha & Ha'). set (l := trim_loop _ spaces (bytes s)) in *.
  destruct (trim_loop_spec (length l) (map (@rev ascii) spaces) (rev l)) as (b & Hb & Hb').
  exists a, (rev b). split.
  - rewrite Ha at 1. f_equal. transitivity (rev (rev l)); [by rewrite rev_involutive|]. rewrite Hb at 1. by rewrite rev_app_distr.
  - intros c [Hc|Hc]%elem_of_app; [by apply Ha'|]. apply elem_of_rev, Hb' in Hc.
    assert (forall sps : list (list ascii), c ∈ concat (map (@rev ascii) sps) -> c ∈ concat sps) as Hrev; [|by apply Hrev].
    induction sps as [|sp sps IH]; cbn; [done|]. rewrite !elem_of_app, elem_of_rev. naive_solver.
Qed.

(** *** Trimming twice *)
Lemma drop_space_take sps l k l' : drop_space sps (take k l) = Some l' -> is_Some (drop_space sps l).
Proof.
  induction sps as [|p sps IH]; cbn; [done|]. destruct (prefixb p l) eqn:Hl; [by intros _|].
  destruct (prefixb p (take k l)) eqn:Ht; [|done]. apply prefixb_spec in Ht as [r Hr].
  enough (prefixb p l = true) by congruence. apply prefixb_spec. exists (r ++ drop k l). by rewrite app_assoc, <- Hr, take_drop.
Qed.

Lemma trim_loop_fix sps l : drop_space sps l = None -> forall fuel, trim_loop fuel sps l = l.
Proof. intros H [|fuel]; [done|]. cbn. by rewrite H. Qed.

Lemma spaces_not_nil p : p ∈ spaces \/ p ∈ map (@rev ascii) spaces -> p <> [].
Proof.
  assert (forallb (fun p : list ascii => bool_decide (p <> [])) (spaces ++ map (@rev ascii) spaces) = true) as H by (vm_compute; reflexivity).
  rewrite forallb_forall in H. intros Hp. apply (bool_decide_eq_true (p <> [])), H, list_elem_of_In, elem_of_app, Hp.
Qed.

Lemma drop_space_shorter sps l l' : (forall p, p ∈ sps -> p <> []) -> drop_space sps l = Some l' -> (length l' < length l)%nat.
Proof.
  induction sps as [|p sps IH]; cbn; [done|]. intros Hne. destruct (prefixb p l) eqn:Hp; [|intros; apply IH; [set_solver|done]].
  intros [= <-]. apply prefixb_spec in Hp as [r ->]. rewrite length_drop, length_app. specialize (Hne p ltac:(left)). destruct p; [done|]. cbn. lia.
Qed.

Lemma trim_loop_done sps : (forall p, p ∈ sps -> p <> []) -> forall fuel l, (length l <= fuel)%nat -> drop_space sps (trim_loop fuel sps l) = None.
Proof.
  intros Hne. induction fuel as [|fuel IH]; intros l Hl.
  - destruct l; [|cbn in Hl; lia]. cbn [trim_loop]. destruct (drop_space sps []) as [l'|] eqn:E; [|done]. apply drop_space_shorter in E; [cbn in E; lia|done].
  - cbn [trim_loop]. destruct (drop_space sps l) as [l'|] eqn:E; [|done]. apply IH. apply drop_space_shorter in E; [lia|done].
Qed.

Lemma trim_right_take l : exists k, trim_right l = take k l.
Proof.
  unfold trim_right. destruct (trim_loop_spec (length l) (map (@rev ascii) spaces) (rev l)) as (p & Hp & _).
  exists (length (trim_loop (length l) (map (@rev ascii) spaces) (rev l))). set (r := trim_loop _ _ _) in *. clearbody r.
  assert (l = rev r ++ rev p) as -> by (by rewrite <- rev_app_distr, <- Hp, rev_involutive). rewrite <- (length_rev r). by rewrite take_app_length.
Qed.

Lemma TrimSpace_idem s : TrimSpace (TrimSpace s) = TrimSpace s.
Proof.
  unfold TrimSpace. rewrite bytes_ofBytes. set (l := bytes s). set (m := trim_left l).
  assert (drop_space spaces m = None) as Hm by (apply trim_loop_done; [intros p Hp; apply spaces_not_nil; by left|done]).
  destruct (trim_right_take m) as [k Hk].
  assert (trim_left (trim_right m) = trim_right m) as ->.
  { apply trim_loop_fix. destruct (drop_space spaces (trim_right m)) as [l'|] eqn:E; [|done].
    rewrite Hk in E. apply drop_space_take in E as [? E]. congruence. }
  f_equal. unfold trim_right at 1. rewrite trim_loop_fix; [by rewrite rev_involutive|].
  unfold trim_right. rewrite rev_involutive. apply trim_loop_done; [intros p Hp; apply spaces_not_nil; by right|by rewrite length_rev].
Qed.

(** ** First occurrences *)
Lemma indexb_one (c : ascii) a r : c ∉ a -> forall i, indexb [c] (a ++ c :: r) i = Some (i + length a)%nat.
Proof.
  induction a as [|x a IH]; intros Hc i; cbn [app indexb prefixb length].
  - rewrite Ascii.eqb_refl. cbn. f_equal. lia.
  - apply not_elem_of_cons in Hc as [Hne Hc]. rewrite (proj2 (Ascii.eqb_neq c x)) by done. cbn [andb]. rewrite IH by done. f_equal. lia.
Qed.

Lemma indexb_first (x : ascii) a r : x ∉ a -> forall i, indexb [x; x] (a ++ x :: x :: r) i = Some (i + length a)%nat.
Proof.
  induction a as [|y a IH]; intros Hx i; cbn [indexb app].
  - cbn. rewrite !Ascii.eqb_refl. cbn. f_equal. lia.
  - assert (prefixb [x; x] (y :: a ++ x :: x :: r) = false) as -> by (cbn; by rewrite (proj2 (Ascii.eqb_neq x y)) by set_solver).
    rewrite IH by set_solver. f_equal. cbn. lia.
Qed.

Lemma indexb_none (x : ascii) a : x ∉ a -> forall i, indexb [x; x] a i = None.
Proof.
  induction a as [|y a IH]; intros Hx i; [done|]. cbn [indexb].
  assert (prefixb [x; x] (y :: a) = false) as -> by (cbn; by rewrite (proj2 (Ascii.eqb_neq x y)) by set_solver). apply IH. set_solver.
Qed.
