(* ===== verification/Value.v ===== *)
(** * Dynamic values

    The [any] values that cross the automation packages: JSON shapes plus the
    typed shapes [expr.Normalize] knows.  Numbers are IEEE 754 binary64 values
    ([spec_float] at precision 53, exponent bound 1024), Go integers are kept apart until
    [Normalize].  A Go map is an association list with distinct keys. *)
From Stdlib Require Export SpecFloat.
From S2P Require Export Prelude.

Inductive value :=
  | VNull
  | VBool (b : bool)
  | VNum (f : spec_float)
  | VInt (n : Z)
  | VStr (s : string)
  | VList (l : list value)
  | VMap (m : list (string * value))
  | VStrs (l : list string)
  | VStrMap (m : list (string * string))
  | VMaps (l : list (list (string * value))).

(** A float64 from a Go integer, rounded to nearest even. *)
Definition float_of_Z (n : Z) : spec_float := binary_normalize 53 1024 n 0 false.

(** [int64(f)]: towards zero; what does not fit becomes the least integer. *)
Definition int64_of_float (f : spec_float) : Z :=
  match f with
  | S754_zero _ => 0
  | S754_finite s m e =>
      let a := if decide (0 <= e) then Z.pos m * 2 ^ e else Z.pos m / 2 ^ (- e) in
      let z := if s then - a else a in
      if decide (- 2 ^ 63 <= z < 2 ^ 63) then z else - 2 ^ 63
  | _ => - 2 ^ 63
  end.

(** [expr.Normalize]: typed maps, slices and integers in their general shapes. *)
Definition Normalize (v : value) : value :=
  match v with
  | VStrs l => VList (map VStr l)
  | VMaps l => VList (map VMap l)
  | VInt n => VNum (float_of_Z n)
  | VStrMap m => VMap (map (fun kv => (kv.1, VStr kv.2)) m)
  | _ => v
  end.

(** ** Go maps as association lists *)
Fixpoint assoc {A} (k : string) (m : list (string * A)) : option A :=
  match m with
  | [] => None
  | (k', v) :: m' => if decide (k = k') then Some v else assoc k m'
  end.

Definition field (k : string) (m : list (string * value)) : value := default VNull (assoc k m).

Fixpoint assoc_set {A} (k : string) (v : A) (m : list (string * A)) : list (string * A) :=
  match m with
  | [] => [(k, v)]
  | (k', v') :: m' => if decide (k = k') then (k, v) :: m' else (k', v') :: assoc_set k v m'
  end.

Lemma assoc_set_eq {A} k (v : A) m : assoc k (assoc_set k v m) = Some v.
Proof. induction m as [|[k' v'] m IH]; cbn; repeat (case_decide; cbn); try done; by rewrite decide_True. Qed.

Lemma assoc_set_ne {A} k k' (v : A) m : k <> k' -> assoc k' (assoc_set k v m) = assoc k' m.
Proof.
  intros Hne. induction m as [|[k2 v2] m IH]; cbn; [by rewrite decide_False|].
  case_decide; cbn; [subst; by rewrite !decide_False|]. by case_decide.
Qed.

Lemma assoc_set_keys {A} k (v : A) m : NoDup (map fst m) -> NoDup (map fst (assoc_set k v m)) /\
  (forall kv, kv ∈ assoc_set k v m <-> kv = (k, v) \/ (kv ∈ m /\ kv.1 <> k)).
Proof.
  induction m as [|[k' v'] m IH]; cbn [assoc_set map fst].
  { intros _. split; [apply NoDup_singleton|set_solver]. }
  intros [Hk Hnd]%NoDup_cons. destruct (IH Hnd) as [IH1 IH2]. case_decide as Hd; cbn [map fst].
  - subst k'. split; [by apply NoDup_cons|]. intros [k2 v2]. rewrite !elem_of_cons. split.
    + intros [|Hin]; [auto|]. right. split; [auto|]. cbn. intros ->. apply Hk, list_elem_of_fmap. by eexists (_, _).
    + intros [|[[[= -> ->]|] Hne]]; [auto|done|auto].
  - split.
    + apply NoDup_cons. split; [|done]. intros ([k2 v2] & Hk2 & [[= -> ->]|[Hin _]]%IH2)%list_elem_of_fmap; cbn in Hk2; [done|].
      apply Hk, list_elem_of_fmap. eexists (_, _); cbn; eauto.
    + intros [k2 v2]. rewrite !elem_of_cons, IH2. cbn. naive_solver.
Qed.

Lemma assoc_NoDup {A} k (v : A) m : NoDup (map fst m) -> (k, v) ∈ m -> assoc k m = Some v.
Proof.
  induction m as [|[k' v'] m IH]; cbn [map fst assoc]; [by intros _ ?%not_elem_of_nil|].
  intros [Hk Hnd]%NoDup_cons [[= -> ->]|Hin]%elem_of_cons; [by rewrite decide_True|].
  rewrite decide_False; [auto|]. intros ->. apply Hk, list_elem_of_fmap. by eexists (_, _).
Qed.

Lemma assoc_set_NoDup {A} k (v : A) m : NoDup (map fst m) -> NoDup (map fst (assoc_set k v m)).
Proof. intros H. by apply assoc_set_keys. Qed.

Lemma assoc_Some_in {A} k (m : list (string * A)) x : assoc k m = Some x -> k ∈ map fst m /\ (k, x) ∈ m.
Proof. induction m as [|[k' y] m IH]; [done|]. cbn. case_decide; [intros [= ->]; subst; split; by left|]. intros [??]%IH. split; by right. Qed.

Lemma assoc_None {A} k (m : list (string * A)) : assoc k m = None -> k ∉ map fst m.
Proof. induction m as [|[k' y] m IH]; [by intros _ ?%not_elem_of_nil|]. cbn. case_decide; [done|]. intros Hn [?|?]%elem_of_cons; [done|by apply IH]. Qed.

Lemma assoc_is_Some {A} k (m : list (string * A)) : is_Some (assoc k m) <-> k ∈ map fst m.
Proof.
  split; [intros [x Hx]; by apply assoc_Some_in in Hx as [? _]|]. intros Hk. destruct (assoc k m) eqn:E; [eauto|]. by apply assoc_None in E.
Qed.

Lemma assoc_map {A B} (f : string -> A -> B) k m : assoc k (map (fun kx => (kx.1, f kx.1 kx.2)) m) = f k <$> assoc k m.
Proof. induction m as [|[k' x] m IH]; [done|]. cbn. case_decide; [by subst|done]. Qed.

Lemma assoc_filter {A} (P : string -> Prop) `{!forall k, Decision (P k)} k (m : list (string * A)) :
  assoc k (filter (fun kv => P kv.1) m) = if decide (P k) then assoc k m else None.
Proof.
  induction m as [|[k' x] m IH]; [by case_decide|]. rewrite filter_cons. cbn [fst assoc].
  destruct (decide (P k')) as [Hp|Hp]; cbn [assoc]; destruct (decide (k = k')) as [-> |]; try done.
  - by rewrite decide_True.
  - rewrite IH. by rewrite !decide_False.
Qed.

Lemma assoc_fold k (keep : list (string * value)) : forall m, NoDup (map fst keep) ->
  assoc k (fold_left (fun m kv => assoc_set kv.1 kv.2 m) keep m) = match assoc k keep with Some v => Some v | None => assoc k m end.
Proof.
  induction keep as [|[k' v] keep IH]; intros m Hnd; [done|]. cbn [map fst] in Hnd. apply NoDup_cons in Hnd as [Hk Hnd]. cbn [fold_left fst snd assoc].
  rewrite IH by done. destruct (decide (k = k')) as [-> |Hne].
  - rewrite assoc_set_eq. destruct (assoc k' keep) eqn:E; [|done]. by apply assoc_Some_in in E as [? _].
  - by rewrite assoc_set_ne.
Qed.

(** Structural induction that reaches inside lists and maps. *)
Section value_ind.
Context (P : value -> Prop).
Context (HNull : P VNull) (HBool : forall b, P (VBool b)) (HNum : forall f, P (VNum f))
  (HInt : forall n, P (VInt n)) (HStr : forall s, P (VStr s))
  (HList : forall l, Forall P l -> P (VList l))
  (HMap : forall m, Forall (fun kv => P kv.2) m -> P (VMap m))
  (HStrs : forall l, P (VStrs l)) (HStrMap : forall m, P (VStrMap m))
  (HMaps : forall l, Forall (Forall (fun kv => P kv.2)) l -> P (VMaps l)).

Fixpoint value_deep_ind (v : value) : P v :=
  match v with
  | VNull => HNull
  | VBool b => HBool b
  | VNum f => HNum f
  | VInt n => HInt n
  | VStr s => HStr s
  | VList l =>
      HList l ((fix go l := match l return Forall P l with
                | [] => List.Forall_nil _
                | x :: l' => List.Forall_cons _ x l' (value_deep_ind x) (go l')
                end) l)
  | VMap m =>
      HMap m ((fix go m := match m return Forall (fun kv => P kv.2) m with
                | [] => List.Forall_nil _
                | (k, x) :: m' => List.Forall_cons _ (k, x) m' (value_deep_ind x) (go m')
                end) m)
  | VStrs l => HStrs l
  | VStrMap m => HStrMap m
  | VMaps l =>
      HMaps l ((fix go1 l := match l return Forall (Forall (fun kv => P kv.2)) l with
                | [] => List.Forall_nil _
                | m :: l' => List.Forall_cons _ m l'
                    ((fix go m := match m return Forall (fun kv => P kv.2) m with
                      | [] => List.Forall_nil _
                      | (k, x) :: m' => List.Forall_cons _ (k, x) m' (value_deep_ind x) (go m')
                      end) m) (go1 l')
                end) l)
  end.
End value_ind.
