(* ===== verification/FlowDef.v ===== *)
(** * Flow definitions ([src/internal/automation/flowdef/def.go], [limits.go])

    The definition's records, its look-ups, the defaults of retries and error
    policies, the safety limits, and the loop bodies of foreach steps. *)
From S2P Require Export Value.

(** ** Limits *)
Definition MaxNodes : Z := 200.
Definition MaxRetries : Z := 8.
Definition MaxPayloadBytes : Z := Z.shiftl 1 20.
Definition MaxParallelSteps : Z := 8.
Definition MaxConditionDepth : Z := 3.
Definition DestructivePerTarget : Z := 3.

Record Limits := mkLimits {
  MaxLoopItems : Z; MaxSteps : Z; StepTimeoutSec : Z; RunTimeoutSec : Z; Concurrency : Z;
  QueueDepth : Z; PerMinute : Z; PerHour : Z; DebounceSec : Z; MaxParallel : Z; BreakerThreshold : Z
}.

Record bound := mkBound { b_def : Z; b_min : Z; b_max : Z }.

Definition limitBounds (k : string) : bound :=
  default (mkBound 0 0 0) (assoc k
   [ ("max_loop_items", mkBound 100 1 1000); ("max_steps", mkBound 500 1 5000);
     ("step_timeout_sec", mkBound 300 1 3600); ("run_timeout_sec", mkBound 3600 10 86400);
     ("concurrency", mkBound 1 1 8); ("queue_depth", mkBound 10 0 100);
     ("per_minute", mkBound 6 1 60); ("per_hour", mkBound 60 1 600);
     ("debounce_sec", mkBound 30 0 3600);
     ("max_parallel", mkBound MaxParallelSteps 1 MaxParallelSteps);
     ("breaker_threshold", mkBound 5 1 50) ]%string).

Definition clamp (v : Z) (b : bound) : Z :=
  if decide (v = 0) then b_def b
  else if decide (v < b_min b) then b_min b
  else if decide (v > b_max b) then b_max b
  else v.

Definition Normalized (l : Limits) : Limits :=
  let b := limitBounds in
  mkLimits
    (clamp (MaxLoopItems l) (b "max_loop_items"%string))
    (clamp (MaxSteps l) (b "max_steps"%string))
    (clamp (StepTimeoutSec l) (b "step_timeout_sec"%string))
    (clamp (RunTimeoutSec l) (b "run_timeout_sec"%string))
    (clamp (Concurrency l) (b "concurrency"%string))
    (if decide (QueueDepth l < 0) then 0 else clamp (QueueDepth l) (b "queue_depth"%string))
    (clamp (PerMinute l) (b "per_minute"%string))
    (clamp (PerHour l) (b "per_hour"%string))
    (if decide (DebounceSec l < 0) then 0 else clamp (DebounceSec l) (b "debounce_sec"%string))
    (clamp (MaxParallel l) (b "max_parallel"%string))
    (clamp (BreakerThreshold l) (b "breaker_threshold"%string)).

Definition DefaultLimits : Limits := Normalized (mkLimits 0 0 0 0 0 0 0 0 0 0 0).

(** ** The definition *)
Definition TriggerID : string := "trigger".
Definition OnErrorStop : string := "stop".
Definition OnErrorContinue : string := "continue".
Definition OnErrorFailBranch : string := "fail_branch".
Definition ErrorPort : string := "error".

Record Edge := mkEdge { eFrom : string; eTo : string; ePort : string }.
Record Retry := mkRetry { rMode : string; MaxAttempts : Z; DelayMS : Z; MaxDelayMS : Z }.
Record Trigger := mkTrigger { tID : string; tType : string; tConfig : list (string * value) }.
Record Node := mkNode {
  nID : string; nType : string; nConfig : list (string * value);
  nRetry : option Retry; nOnError : string; nTimeoutMS : Z
}.
Record Definition_ := mkDefinition {
  SchemaVersion : Z; dTrigger : Trigger; Nodes : list Node; Edges : list Edge;
  dRetry : option Retry; dError : option string (* ErrorPolicy.OnError *);
  Variables : gmap string value
}.

#[export] Instance Edge_eq_dec : EqDecision Edge.
Proof. solve_decision. Defined.

Definition findNode (d : Definition_) (id : string) : option Node :=
  List.find (fun n => bool_decide (nID n = id)) (Nodes d).

Definition OnErrorFor (d : Definition_) (n : option Node) : string :=
  let flow := match dError d with
              | Some oe => if decide (oe <> "") then oe else OnErrorStop
              | None => OnErrorStop
              end in
  match n with
  | Some n => if decide (nOnError n <> "") then nOnError n else flow
  | None => flow
  end.

Definition RetryFor (d : Definition_) (n : option Node) : Retry :=
  let r := mkRetry "none" 1 0 0 in
  let r := match dRetry d with Some r' => r' | None => r end in
  let r := match n with Some n => match nRetry n with Some r' => r' | None => r end | None => r end in
  let a := if decide (MaxAttempts r < 1) then 1 else MaxAttempts r in
  let a := if decide (MaxRetries < a) then MaxRetries else a in
  mkRetry (if decide (rMode r = "") then "none"%string else rMode r) a (DelayMS r) (MaxDelayMS r).

Definition Outgoing (d : Definition_) (id : string) : list Edge :=
  filter (fun e => eFrom e = id) (Edges d).

Definition Incoming (d : Definition_) (id : string) : list Edge :=
  filter (fun e => eTo e = id) (Edges d).

(** ** Loop bodies *)

(** The worklist of [LoopBodies] for one foreach step [self]: the head of [stack]
    is the end of the Go slice.  [None] when the fuel runs out. *)
Fixpoint body_loop (fuel : nat) (d : Definition_) (self : string)
    (stack : list string) (body : gset string) : option (gset string) :=
  match fuel with
  | O => None
  | S fuel' =>
      match stack with
      | [] => Some body
      | id :: stack =>
          if decide (id ∈ body \/ id = self) then body_loop fuel' d self stack body
          else body_loop fuel' d self (rev (map eTo (Outgoing d id)) ++ stack) ({[id]} ∪ body)
      end
  end.

Definition body_fuel (d : Definition_) : nat := S (2 * length (Edges d)).

(** The targets of the [each] edges, in order. *)
Definition eachTargets (d : Definition_) (self : string) : list string :=
  map eTo (filter (fun e => ePort e = "each"%string) (Outgoing d self)).

Definition loopBody (d : Definition_) (self : string) : gset string :=
  default ∅ (body_loop (body_fuel d) d self (rev (eachTargets d self)) ∅).

(** [LoopBodies] visits [Nodes] in order and assigns [out[n.ID]]: a later node
    with the same id replaces the earlier one. *)
Definition LoopBodies (d : Definition_) (isLoop : string -> bool) : list (string * gset string) :=
  fold_left (fun out n => if isLoop (nType n) then assoc_set (nID n) (loopBody d (nID n)) out else out)
    (Nodes d) [].

(** [Owners] ranges over the bodies in an order Go does not fix; the model takes
    it as the order of the list. *)
Definition owner_step (id : string) (best : string * Z) (lb : string * gset string) : string * Z :=
  if decide (id ∈ lb.2 /\ (best.2 < 0 \/ Z.of_nat (size lb.2) < best.2))
  then (lb.1, Z.of_nat (size lb.2)) else best.

Definition owner (bodies : list (string * gset string)) (id : string) : string :=
  (fold_left (owner_step id) bodies (""%string, -1)).1.

Definition Owners (d : Definition_) (bodies : list (string * gset string)) : gmap string string :=
  list_to_map (map (fun n => (nID n, owner bodies (nID n))) (Nodes d)).

(** ** Limits are always inside their caps *)
Definition in_bound (v : Z) (b : bound) : Prop := b_min b <= v <= b_max b.

Definition limits_ok (l : Limits) : Prop :=
  let b := limitBounds in
  in_bound (MaxLoopItems l) (b "max_loop_items"%string) /\ in_bound (MaxSteps l) (b "max_steps"%string) /\
  in_bound (StepTimeoutSec l) (b "step_timeout_sec"%string) /\
  in_bound (RunTimeoutSec l) (b "run_timeout_sec"%string) /\
  in_bound (Concurrency l) (b "concurrency"%string) /\ in_bound (QueueDepth l) (b "queue_depth"%string) /\
  in_bound (PerMinute l) (b "per_minute"%string) /\ in_bound (PerHour l) (b "per_hour"%string) /\
  in_bound (DebounceSec l) (b "debounce_sec"%string) /\ in_bound (MaxParallel l) (b "max_parallel"%string) /\
  in_bound (BreakerThreshold l) (b "breaker_threshold"%string).

Definition limits_nonzero (l : Limits) : Prop := QueueDepth l <> 0 /\ DebounceSec l <> 0.

Lemma clamp_in v b : b_min b <= b_def b <= b_max b -> in_bound (clamp v b) b.
Proof. unfold in_bound, clamp. intros. repeat case_decide; lia. Qed.

Lemma clamp_id v b : v <> 0 -> in_bound v b -> clamp v b = v.
Proof. unfold in_bound, clamp. intros. repeat case_decide; lia. Qed.

Lemma limitBounds_wf k : b_min (limitBounds k) <= b_def (limitBounds k) <= b_max (limitBounds k).
Proof. unfold limitBounds; cbn [assoc]. repeat case_decide; cbn; unfold MaxParallelSteps; lia. Qed.

Lemma Normalized_in_caps l : limits_ok (Normalized l).
Proof.
  unfold limits_ok, Normalized; cbn [MaxLoopItems MaxSteps StepTimeoutSec RunTimeoutSec Concurrency
    QueueDepth PerMinute PerHour DebounceSec MaxParallel BreakerThreshold].
  split_and!; try (apply clamp_in, limitBounds_wf);
    (case_decide; [vm_compute; split; discriminate|apply clamp_in, limitBounds_wf]).
Qed.

Ltac eval_caps := repeat match goal with
  | H : context [limitBounds ?k] |- _ =>
      let x := eval vm_compute in (limitBounds k) in change (limitBounds k) with x in *
  | |- context [limitBounds ?k] =>
      let x := eval vm_compute in (limitBounds k) in change (limitBounds k) with x in *
  end.

Lemma Normalized_id l : limits_ok l -> limits_nonzero l -> Normalized l = l.
Proof.
  intros H [H1 H2]. destruct l; unfold limits_ok, in_bound, Normalized in *.
  cbn [MaxLoopItems MaxSteps StepTimeoutSec RunTimeoutSec Concurrency QueueDepth PerMinute PerHour
    DebounceSec MaxParallel BreakerThreshold] in *. eval_caps; cbn [b_min b_max] in *.
  destruct H as (?&?&?&?&?&?&?&?&?&?&?).
  f_equal; try (apply clamp_id; unfold in_bound; cbn; lia);
    (rewrite decide_False by lia; apply clamp_id; unfold in_bound; cbn; lia).
Qed.

(** Normalized limits keep their two "zero means off" fields non-zero unless the
    input was negative. *)
Lemma Normalized_nonzero l : 0 <= QueueDepth l -> 0 <= DebounceSec l -> limits_nonzero (Normalized l).
Proof.
  intros. unfold limits_nonzero, Normalized; cbn [QueueDepth DebounceSec].
  rewrite !decide_False by lia. eval_caps. unfold clamp; cbn [b_min b_max b_def].
  repeat case_decide; lia.
Qed.

(** [Normalized] puts every limit inside its cap whatever the input, leaves
    in-cap non-zero limits alone, and a second application (a run's limits are
    normalized again each time its state is decoded) changes nothing exactly when
    neither [queue_depth] nor [debounce_sec] was negative: a negative one becomes 0
    the first time and the default the second. *)
Theorem Normalized_ok (l : Limits) :
  limits_ok (Normalized l) /\
  (limits_ok l -> limits_nonzero l -> Normalized l = l) /\
  (Normalized (Normalized l) = Normalized l <-> 0 <= QueueDepth l /\ 0 <= DebounceSec l).
Proof.
  split_and!; [apply Normalized_in_caps|apply Normalized_id|split].
  - intros E. split.
    + apply (f_equal QueueDepth) in E. revert E. unfold Normalized; cbn [QueueDepth].
      destruct (decide (QueueDepth l < 0)); [eval_caps; intros E; vm_compute in E; discriminate|lia].
    + apply (f_equal DebounceSec) in E. revert E. unfold Normalized; cbn [DebounceSec].
      destruct (decide (DebounceSec l < 0)); [eval_caps; intros E; vm_compute in E; discriminate|lia].
  - intros [??]. apply Normalized_id; [apply Normalized_in_caps|by apply Normalized_nonzero].
Qed.

Lemma Normalized_ok_witness :
  limits_ok DefaultLimits /\ Normalized DefaultLimits = DefaultLimits.
Proof.
  assert (H : limits_ok DefaultLimits /\ limits_nonzero DefaultLimits)
    by (vm_compute; repeat split; discriminate).
  split; [apply H|]. exact (proj1 (proj2 (Normalized_ok DefaultLimits)) (proj1 H) (proj2 H)).
Defined.

(** [OnErrorFor] and [RetryFor] always answer with a usable policy. *)
Lemma RetryFor_attempts d n : 1 <= MaxAttempts (RetryFor d n) <= MaxRetries.
Proof. unfold RetryFor, MaxRetries; cbn [MaxAttempts]. repeat case_decide; lia. Qed.

Lemma Outgoing_from d id e : e ∈ Outgoing d id <-> e ∈ Edges d /\ eFrom e = id.
Proof. unfold Outgoing. rewrite list_elem_of_filter. naive_solver. Qed.

Lemma Incoming_to d id e : e ∈ Incoming d id <-> e ∈ Edges d /\ eTo e = id.
Proof. unfold Incoming. rewrite list_elem_of_filter. naive_solver. Qed.
