(* ===== verification/Redact.v ===== *)
(** * Redaction of payloads, outputs and logs ([src/internal/automation/engine/redact.go])

    [SecretKey], [redact], [Redact] and [LogLine].  The two regular expressions of
    [RedactText] and the length of a value's JSON text are parameters. *)
From S2P Require Export Value GoText FlowDef.

Definition Redacted : string := "[redacted]".

Definition secretKeyParts : list string :=
  ["authorization"; "password"; "passwd"; "secret"; "token"; "api_key"; "apikey"; "api-key";
   "cookie"; "private_key"; "credential"; "session"; "bearer"]%string.

Definition MaxLogLineBytes : Z := Z.shiftl 32 10.

Section Redact.
Context `{CT : CaseTables} (redactText : string -> string) (jsonLen : value -> option Z).

Definition SecretKey (k : string) : bool :=
  let l := ToLower k in existsb (fun p => Contains l p) secretKeyParts.

(** [RedactText] returns an empty string unchanged before it matches anything. *)
Definition RedactText (s : string) : string :=
  if decide (s = ""%string) then s else redactText s.

(** [item != nil && item != ""]. *)
Definition filled (v : value) : bool :=
  match v with VNull => false | VStr s => bool_decide (s <> ""%string) | _ => true end.

Fixpoint redact_at (v : value) (depth : Z) : value :=
  if decide (32 < depth) then VStr "[too deep]"
  else match v with
       | VMap m =>
           VMap (map (fun kv : string * value =>
             (kv.1, if SecretKey kv.1 && filled kv.2 then VStr Redacted else redact_at kv.2 (depth + 1))) m)
       | VStrMap m =>
           VMap (map (fun kv : string * string =>
             (kv.1, if SecretKey kv.1 && bool_decide (kv.2 <> ""%string) then VStr Redacted
                    else VStr (RedactText kv.2))) m)
       | VList l => VList (map (fun x => redact_at x (depth + 1)) l)
       | VStr s => VStr (RedactText s)
       | _ => v
       end.

Definition Redact (v : value) : value :=
  let out := redact_at v 0 in
  match jsonLen out with
  | Some n => if decide (MaxPayloadBytes < n)
              then VMap [("_truncated"%string, VBool true); ("bytes"%string, VInt n)]
              else out
  | None => out
  end.

Definition LogLine (s : string) : string :=
  let s := RedactText s in
  if decide (MaxLogLineBytes < Z.of_nat (String.length s))
  then ofBytes (take (Z.to_nat MaxLogLineBytes) (bytes s)) +:+ " [truncated]" else s.

(** ** No secret survives *)

(** A value the redaction walks completely: JSON shapes and string maps, nested at
    most [n] deep.  The typed shapes [[]string] and [[]map[string]any] and Go
    integers are returned as they are. *)
Fixpoint json_depth (v : value) : nat :=
  match v with
  | VMap m => S (list_max (map (fun kv : string * value => json_depth kv.2) m))
  | VList l => S (list_max (map json_depth l))
  | _ => 0
  end.

Fixpoint walked (v : value) : bool :=
  match v with
  | VMap m => forallb (fun kv : string * value => walked kv.2) m
  | VList l => forallb walked l
  | VMaps _ => false
  | _ => true
  end.

(** Under a secret-looking key there is only nothing, the empty string, or a mark. *)
Definition masked (v : value) : bool :=
  negb (filled v) ||
  match v with VStr s => bool_decide (s = Redacted \/ s = "[too deep]"%string) | _ => false end.

#[local] Arguments masked : simpl never.
#[local] Arguments SecretKey : simpl never.

Fixpoint clean_value (v : value) : bool :=
  match v with
  | VMap m => forallb (fun kv : string * value => (negb (SecretKey kv.1) || masked kv.2) && clean_value kv.2) m
  | VStrMap m => forallb (fun kv : string * string => negb (SecretKey kv.1) || masked (VStr kv.2)) m
  | VList l => forallb clean_value l
  | VMaps l => forallb (forallb (fun kv : string * value =>
                 (negb (SecretKey kv.1) || masked kv.2) && clean_value kv.2)) l
  | _ => true
  end.

Lemma redact_deep v depth : 32 < depth -> redact_at v depth = VStr "[too deep]".
Proof. intros. destruct v; cbn [redact_at]; by rewrite decide_True. Qed.

Lemma masked_redact v depth : filled v = false -> masked (redact_at v depth) = true.
Proof.
  intros Hf. destruct (decide (32 < depth)); [by rewrite redact_deep|].
  destruct v; try done; cbn [redact_at]; rewrite decide_False by done; [done|].
  cbn in Hf. apply bool_decide_eq_false, dec_stable in Hf as ->. done.
Qed.

Lemma redact_clean v depth : walked v = true -> clean_value (redact_at v depth) = true.
Proof.
  revert depth. induction v as [| | | | |l IH|m IH|l|m|l IH] using value_deep_ind; intros depth Hw;
    (destruct (decide (32 < depth)) as [Hd|Hd]; [by rewrite redact_deep|]);
    cbn [redact_at]; rewrite decide_False by done; try done.
  - cbn in Hw |- *. rewrite forallb_forall in Hw. rewrite forallb_forall. intros x Hx.
    apply in_map_iff in Hx as (y & <- & Hy). rewrite Forall_forall in IH.
    apply IH; [by apply list_elem_of_In|auto].
  - cbn in Hw |- *. rewrite forallb_forall in Hw. rewrite forallb_forall. intros x Hx.
    apply in_map_iff in Hx as ([k y] & <- & Hy). cbn [fst snd].
    rewrite Forall_forall in IH. pose proof (IH (k, y) (proj2 (list_elem_of_In _ _) Hy)) as IHy.
    specialize (Hw _ Hy). cbn [snd] in IHy, Hw.
    destruct (SecretKey k && filled y) eqn:E.
    { apply andb_true_iff. split; [apply (orb_true_r (negb (SecretKey k)))|done]. }
    apply andb_true_iff. split; [|by apply IHy]. destruct (SecretKey k); [|done]. by rewrite masked_redact.
  - cbn. rewrite forallb_forall. intros x Hx. apply in_map_iff in Hx as ([k y] & <- & Hy). cbn [fst snd].
    destruct (SecretKey k); cbn [andb negb orb]; [|done].
    case_bool_decide as He; [reflexivity|]. subst y. reflexivity.
Qed.
End Redact.

Lemma ToLower_ascii {CT : CaseTables} s :
  forallb (fun r => (0 <=? r) && (r <? 128)) (runes s) = true -> ToLower s = ToLower (H := ascii_tables) s.
Proof.
  intros Ha. unfold ToLower. do 2 f_equal. apply map_ext_in. intros r Hr.
  rewrite forallb_forall in Ha. specialize (Ha r Hr). rewrite andb_true_iff, Z.leb_le, Z.ltb_lt in Ha.
  by rewrite unicode_lower_ascii.
Qed.

Lemma SecretKey_ascii {CT : CaseTables} s :
  forallb (fun r => (0 <=? r) && (r <? 128)) (runes s) = true -> SecretKey s = SecretKey (CT := ascii_tables) s.
Proof. intros. unfold SecretKey. by rewrite ToLower_ascii. Qed.


Definition secret_sample : value :=
  VMap [("user", VStr "ann"); ("Api_Key", VStr "k-123");
        ("nested", VList [VMap [("PASSWORD", VMap [("x", VNull)]); ("n", VNull)]])]%string.


(** A list of typed maps is returned as it is, secrets included. *)
Theorem Redact_typed_maps_leak :
  Redact (CT := ascii_tables) (fun s => s) (fun _ => None) (VMaps [[("password"%string, VStr "hunter2")]])
    = VMaps [[("password"%string, VStr "hunter2")]].
Proof. reflexivity. Qed.
