(* ===== verification/FlowGraph.v ===== *)
(** * The flow graph ([src/internal/automation/flowdef/validate.go])

    [reachable], [findCycle] and [validateLoops], with the soundness, completeness and
    termination of the two searches, and what loop validation buys: the loops around a
    step are nested.  The other checks of the file are in [Validate]. *)
From stdpp Require Export relations sorting.
From S2P Require Export GoText FlowDef.

Definition edge (d : Definition_) (u v : string) : Prop :=
  exists e, e ∈ Edges d /\ eFrom e = u /\ eTo e = v.

Lemma edge_outgoing d u v : edge d u v <-> v ∈ map eTo (Outgoing d u).
Proof. unfold edge. rewrite list_elem_of_fmap. setoid_rewrite Outgoing_from. naive_solver. Qed.

(** ** [reachable] *)
Definition reach_visit (st : gset string * list string) (e : Edge) : gset string * list string :=
  let '(seen, stack) := st in
  if decide (eTo e ∈ seen) then (seen, stack) else ({[eTo e]} ∪ seen, eTo e :: stack).

Fixpoint reach_loop (fuel : nat) (d : Definition_) (seen : gset string) (stack : list string)
  : option (gset string) :=
  match fuel with
  | O => None
  | S fuel' =>
      match stack with
      | [] => Some seen
      | id :: stack =>
          let '(seen, stack) := fold_left reach_visit (Outgoing d id) (seen, stack) in
          reach_loop fuel' d seen stack
      end
  end.

Definition reachable (d : Definition_) (from : string) : gset string :=
  default ∅ (reach_loop (2 + length (Edges d)) d ∅ [from]).

(** Edges whose target is not yet seen: with the stack they bound the search. *)
Definition unseen (d : Definition_) (seen : gset string) : nat :=
  length (filter (fun e => eTo e ∉ seen) (Edges d)).

Lemma reach_visit_case e seen stack :
  (eTo e ∈ seen /\ reach_visit (seen, stack) e = (seen, stack)) \/
  (eTo e ∉ seen /\ reach_visit (seen, stack) e = ({[eTo e]} ∪ seen, eTo e :: stack)).
Proof. unfold reach_visit. case_decide; auto. Qed.

Lemma reach_visit_measure d es seen stack :
  (forall e, e ∈ es -> e ∈ Edges d) ->
  let st := fold_left reach_visit es (seen, stack) in
  (unseen d st.1 + length st.2 <= unseen d seen + length stack)%nat.
Proof.
  revert seen stack. induction es as [|e es IH]; intros seen stack Hes; cbn [fold_left]; [done|].
  destruct (reach_visit_case e seen stack) as [[Hd ->]|[Hd ->]]; [apply IH; set_solver|].
  assert (Hlt : (unseen d ({[eTo e]} ∪ seen) < unseen d seen)%nat).
  { apply (length_filter_lt _ _ _ e); [set_solver|set_solver|done|set_solver]. }
  specialize (IH ({[eTo e]} ∪ seen) (eTo e :: stack)). cbn in IH |- *.
  etransitivity; [apply IH; set_solver|]. lia.
Qed.

Lemma reach_visit_spec es seen stack :
  let st := fold_left reach_visit es (seen, stack) in
  (forall v, v ∈ st.1 <-> v ∈ seen \/ v ∈ map eTo es) /\
  (forall v, v ∈ st.2 -> v ∈ stack \/ (v ∈ st.1 /\ v ∉ seen)) /\
  (forall v, v ∈ stack -> v ∈ st.2) /\
  (forall v, v ∈ st.1 -> v ∉ seen -> v ∈ st.2).
Proof.
  revert seen stack. induction es as [|e es IH]; intros seen stack; cbn [fold_left map].
  { cbn. split_and!; set_solver. }
  destruct (reach_visit_case e seen stack) as [[Hd ->]|[Hd ->]].
  - destruct (IH seen stack) as (H1&H2&H3&H4). split_and!; set_solver.
  - destruct (IH ({[eTo e]} ∪ seen) (eTo e :: stack)) as (H1&H2&H3&H4).
    split_and!; [set_solver..|]. intros v Hv Hn.
    destruct (decide (v = eTo e)) as [->|]; [apply H3; set_solver|apply H4; set_solver].
Qed.

(** The search state: everything seen is reachable, and what is seen (or is the
    start) and no longer on the stack has its successors seen. *)
Definition reach_inv (d : Definition_) (from : string) (seen : gset string) (stack : list string) : Prop :=
  (forall v, v ∈ seen -> tc (edge d) from v) /\
  (forall v, v ∈ stack -> v = from \/ v ∈ seen) /\
  (forall u v, (u = from \/ u ∈ seen) -> u ∉ stack -> edge d u v -> v ∈ seen).

Lemma reach_inv_step d from seen id stack :
  reach_inv d from seen (id :: stack) ->
  let st := fold_left reach_visit (Outgoing d id) (seen, stack) in reach_inv d from st.1 st.2.
Proof.
  intros (Hs & Hst & Hcl) st. destruct (reach_visit_spec (Outgoing d id) seen stack) as (H1 & H2 & H3 & H4).
  fold st in H1, H2, H3, H4. split_and!.
  - intros v [Hv|Hv]%H1; [auto|]. apply edge_outgoing in Hv.
    destruct (Hst id) as [->|Hid]; [set_solver|by apply tc_once|eapply tc_r; eauto].
  - intros v [Hv|[Hv _]]%H2; [|auto]. destruct (Hst v); [set_solver|auto|right; apply H1; auto].
  - intros u v Hu Hnu Huv. apply H1. destruct (decide (u = id)) as [->|Hne]; [right; by apply edge_outgoing|].
    destruct Hu as [->|Hu].
    + left. apply (Hcl from v); [auto| |done]. intros [|]%elem_of_cons; [done|]. by apply Hnu, H3.
    + destruct (decide (u ∈ seen)) as [Hin|Hnin]; [|by destruct Hnu; apply H4].
      left. apply (Hcl u v); [auto| |done]. intros [|]%elem_of_cons; [done|]. by apply Hnu, H3.
Qed.

Lemma reach_loop_spec fuel d from seen stack :
  (unseen d seen + length stack < fuel)%nat -> reach_inv d from seen stack ->
  exists seen', reach_loop fuel d seen stack = Some seen' /\ reach_inv d from seen' [].
Proof.
  revert seen stack. induction fuel as [|fuel IH]; intros seen stack Hf Hinv; [lia|].
  cbn [reach_loop]. destruct stack as [|id stack]; [by eauto|].
  pose proof (reach_inv_step d from seen id stack Hinv) as Hinv'.
  pose proof (reach_visit_measure d (Outgoing d id) seen stack) as Hm.
  destruct (fold_left reach_visit (Outgoing d id) (seen, stack)) as [seen' stack'].
  apply IH; [|done]. cbn in *. ospecialize (Hm _); [intros e He; by apply Outgoing_from in He as [? _]|]. lia.
Qed.

Lemma unseen_le d seen : (unseen d seen <= length (Edges d))%nat.
Proof. apply length_filter. Qed.

Lemma reachable_spec d from v : v ∈ reachable d from <-> tc (edge d) from v.
Proof.
  unfold reachable. destruct (reach_loop_spec (2 + length (Edges d)) d from ∅ [from]) as (seen & -> & Hs & _ & Hcl).
  - pose proof (unseen_le d ∅). cbn [length]. lia.
  - split_and!; [set_solver|set_solver|]. intros u w Hu Hn. set_solver.
  - cbn [default from_option]. unfold id. split; [apply Hs|]. apply (tc_closed (edge d) (fun w => w ∈ seen));
      [intros w Hw; apply (Hcl from w); set_solver|intros u w Hu Hw; apply (Hcl u w); set_solver].
Qed.

(** ** Loop bodies *)
Definition edge_off (d : Definition_) (self : string) (u v : string) : Prop := edge d u v /\ u <> self.

Definition body_inv (d : Definition_) (self : string) (init : list string)
    (stack : list string) (body : gset string) : Prop :=
  self ∉ body /\
  (forall v, v ∈ body \/ v ∈ stack -> exists u, u ∈ init /\ rtc (edge_off d self) u v) /\
  (forall v, v ∈ init -> v ∈ body \/ v ∈ stack \/ v = self) /\
  (forall u v, u ∈ body -> edge d u v -> v ∈ body \/ v ∈ stack \/ v = self).

(** Edges that can still be pushed: those leaving a step outside the body. *)
Definition pending (d : Definition_) (body : gset string) : nat :=
  length (filter (fun e => eFrom e ∉ body) (Edges d)).

Lemma pending_le d body : (pending d body <= length (Edges d))%nat.
Proof. apply length_filter. Qed.

Lemma Outgoing_le d id : (length (Outgoing d id) <= length (Edges d))%nat.
Proof. apply length_filter. Qed.

Lemma pending_add d body id :
  id ∉ body -> (pending d ({[id]} ∪ body) + length (Outgoing d id) = pending d body)%nat.
Proof.
  intros Hid. unfold pending, Outgoing. induction (Edges d) as [|e es IH]; [done|].
  rewrite !filter_cons. destruct (decide (eFrom e = id)) as [E|E].
  - rewrite (decide_False (P := eFrom e ∉ {[id]} ∪ body)) by set_solver.
    rewrite decide_True by set_solver. cbn. lia.
  - destruct (decide (eFrom e ∈ body)).
    + rewrite !(decide_False (P := _ ∉ _)) by set_solver. lia.
    + rewrite !(decide_True (P := _ ∉ _)) by set_solver. cbn. lia.
Qed.

Lemma body_inv_push d self init id stack body :
  body_inv d self init (id :: stack) body -> id ∉ body -> id <> self ->
  body_inv d self init (rev (map eTo (Outgoing d id)) ++ stack) ({[id]} ∪ body).
Proof.
  intros (H1 & H2 & H3 & H4) Hid Hne. split_and!.
  - set_solver.
  - intros v Hv. destruct (decide (v ∈ map eTo (Outgoing d id))) as [Ho|Hn].
    + destruct (H2 id) as (u & Hu & Hr); [set_solver|]. exists u. split; [done|].
      eapply rtc_r; [done|]. split; [by apply edge_outgoing|done].
    + apply H2. rewrite elem_of_app, elem_of_rev in Hv. set_solver.
  - intros v [|[|]]%H3; [set_solver| |auto]. rewrite elem_of_app. set_solver.
  - intros u v Hu Huv. destruct (decide (u = id)) as [->|Hu'].
    + right; left. rewrite elem_of_app, elem_of_rev. left. by apply edge_outgoing.
    + destruct (H4 u v) as [|[|]]; [set_solver|done|set_solver| |auto]. rewrite elem_of_app. set_solver.
Qed.

Lemma body_inv_skip d self init id stack body :
  body_inv d self init (id :: stack) body -> id ∈ body \/ id = self ->
  body_inv d self init stack body.
Proof.
  intros (H1 & H2 & H3 & H4) Hid. split_and!; [done|set_solver| |].
  - intros v [|[[->|]%elem_of_cons|]]%H3; naive_solver.
  - intros u v Hu [|[[->|]%elem_of_cons|]]%(H4 u v); naive_solver.
Qed.

Lemma body_loop_spec fuel d self init stack body :
  (pending d body + length stack < fuel)%nat -> body_inv d self init stack body ->
  exists body', body_loop fuel d self stack body = Some body' /\ body_inv d self init [] body'.
Proof.
  revert stack body. induction fuel as [|fuel IH]; intros stack body Hf Hinv; [lia|].
  cbn [body_loop]. destruct stack as [|id stack]; [by eauto|]. cbn [length] in Hf. case_decide as Hd.
  - apply IH; [lia|]. by eapply body_inv_skip.
  - assert (id ∉ body /\ id <> self) as [Hb Hs] by tauto. apply IH; [|by apply body_inv_push].
    pose proof (pending_add d body id Hb). rewrite length_app, length_rev, length_map. lia.
Qed.

(** What [LoopBodies] computes for one loop: the steps reachable from its [each]
    branch without passing through the loop step again. *)
Lemma eachTargets_le d self : (length (eachTargets d self) <= length (Edges d))%nat.
Proof.
  unfold eachTargets. rewrite length_map. etransitivity; [apply length_filter|apply Outgoing_le].
Qed.

Lemma loopBody_inv d self : body_inv d self (eachTargets d self) [] (loopBody d self).
Proof.
  unfold loopBody.
  destruct (body_loop_spec (body_fuel d) d self (eachTargets d self) (rev (eachTargets d self)) ∅)
    as (b & -> & Hb); [| |done].
  - pose proof (pending_le d ∅). pose proof (eachTargets_le d self).
    rewrite length_rev. unfold body_fuel. lia.
  - split_and!; [apply not_elem_of_empty| | |intros u v Hu; by apply not_elem_of_empty in Hu].
    + intros v [Hv|Hv]; [by apply not_elem_of_empty in Hv|]. rewrite elem_of_rev in Hv.
      exists v. split; [done|apply rtc_refl].
    + intros v Hv. right; left. by apply elem_of_rev.
Qed.

Lemma loopBody_spec d self v :
  v ∈ loopBody d self <->
  v <> self /\ exists u, u ∈ eachTargets d self /\ u <> self /\ rtc (edge_off d self) u v.
Proof.
  destruct (loopBody_inv d self) as (H1 & H2 & H3 & H4). split.
  - intros Hv. assert (v <> self) by (by intros ->). split; [done|].
    destruct (H2 v) as (u & Hu & Hr); [auto|]. exists u. split_and!; [done| |done].
    intros ->. apply rtc_inv in Hr as [->|(y & [_ ?] & _)]; done.
  - intros (Hne & u & Hu & Hus & Hr). assert (Hub : u ∈ loopBody d self).
    { destruct (H3 u) as [|[Hn|]]; [done|done|by apply not_elem_of_nil in Hn|done]. }
    clear Hu. induction Hr as [|u w v [Hw _] Hr IH]; [done|].
    assert (w <> self).
    { intros ->. apply rtc_inv in Hr as [->|(y & [_ ?] & _)]; done. }
    apply IH; [done|done|]. destruct (H4 u w) as [|[Hn|]]; [done|done|done|by apply not_elem_of_nil in Hn|done].
Qed.

(** ** [findCycle] *)
Inductive colour := Grey | Black.

(** The closure's captured variables: [color] (white is absent), [stack] (bottom
    first) and [found]. *)
Record dfs := mkDfs { color : gmap string colour; stack : list string; found : list string }.

(** The part of [stack] from the first entry equal to [s]. *)
Fixpoint from_first (s : string) (l : list string) : option (list string) :=
  match l with
  | [] => None
  | x :: l' => if decide (x = s) then Some l else from_first s l'
  end.

(** The loop over [d.Outgoing(id)], with [visit] as the recursive call. *)
Fixpoint visit_edges (visit : string -> dfs -> option (dfs * bool)) (es : list Edge) (st : dfs)
  : option (dfs * bool) :=
  match es with
  | [] => Some (st, false)
  | e :: es' =>
      match color st !! eTo e with
      | Some Grey =>
          match from_first (eTo e) (stack st) with
          | Some l => Some (mkDfs (color st) (stack st) (l ++ [eTo e]), true)
          | None => visit_edges visit es' st
          end
      | Some Black => visit_edges visit es' st
      | None =>
          match visit (eTo e) st with
          | None => None
          | Some (st, true) => Some (st, true)
          | Some (st, false) => visit_edges visit es' st
          end
      end
  end.

Fixpoint visit (fuel : nat) (d : Definition_) (id : string) (st : dfs) : option (dfs * bool) :=
  match fuel with
  | O => None
  | S fuel' =>
      let st := mkDfs (<[id := Grey]> (color st)) (stack st ++ [id]) (found st) in
      match visit_edges (visit fuel' d) (Outgoing d id) st with
      | None => None
      | Some (st, true) => Some (st, true)
      | Some (st, false) =>
          Some (mkDfs (<[id := Black]> (color st)) (take (length (stack st) - 1) (stack st)) (found st), false)
      end
  end.

Definition starts (d : Definition_) : list string := TriggerID :: map nID (Nodes d).

Fixpoint cycle_from (fuel : nat) (d : Definition_) (ss : list string) (st : dfs) : option (list string) :=
  match ss with
  | [] => Some []
  | s :: ss' =>
      match color st !! s with
      | None =>
          match visit fuel d s st with
          | None => None
          | Some (st, true) => Some (found st)
          | Some (st, false) => cycle_from fuel d ss' st
          end
      | Some _ => cycle_from fuel d ss' st
      end
  end.

Definition universe (d : Definition_) : gset string :=
  list_to_set (starts d ++ map eTo (Edges d)).

Definition findCycle (d : Definition_) : list string :=
  default [] (cycle_from (S (size (universe d))) d (starts d) (mkDfs ∅ [] [])).

(** *** Walks *)
Fixpoint walk (d : Definition_) (l : list string) : Prop :=
  match l with
  | u :: (v :: _) as l' => edge d u v /\ walk d l'
  | _ => True
  end.

Lemma walk_app d l1 x l2 : walk d (l1 ++ [x]) -> walk d (x :: l2) -> walk d (l1 ++ x :: l2).
Proof.
  induction l1 as [|u l1 IH]; intros H1 H2; [done|].
  destruct l1 as [|v l1]; cbn in *; [by split; [apply H1|]|]. destruct H1. split; [done|by apply IH].
Qed.

Lemma walk_suffix d l1 l2 : walk d (l1 ++ l2) -> walk d l2.
Proof.
  induction l1 as [|u l1 IH]; [done|]. intros H. apply IH.
  cbn [app walk] in H. destruct (l1 ++ l2); [done|apply H].
Qed.

Lemma walk_snoc d l x y : walk d (l ++ [x]) -> edge d x y -> walk d ((l ++ [x]) ++ [y]).
Proof. intros H1 H2. rewrite <- (assoc_L (++)). by apply walk_app. Qed.

(** A closed walk of at least one edge. *)
Definition is_cycle (d : Definition_) (l : list string) : Prop :=
  exists x m, l = x :: m ++ [x] /\ walk d l.

Lemma from_first_spec s l l' :
  from_first s l = Some l' -> exists p m, l = p ++ l' /\ l' = s :: m.
Proof.
  induction l as [|x l IH]; cbn; [done|]. case_decide; [intros [= <-]; subst; by exists [], l|].
  intros (p & m & -> & ->)%IH. by exists (x :: p), m.
Qed.

Lemma from_first_in s l : s ∈ l -> exists l', from_first s l = Some l'.
Proof.
  induction l as [|x l IH]; cbn; [by intros ?%not_elem_of_nil|].
  intros [->|H]%elem_of_cons; [rewrite decide_True by done; eauto|]. case_decide; eauto.
Qed.

(** *** The search invariant *)
Definition black (st : dfs) (u : string) : Prop := color st !! u = Some Black.

Record dfs_inv (d : Definition_) (st : dfs) : Prop := {
  di_grey : forall u, color st !! u = Some Grey <-> u ∈ stack st;
  di_black : forall u v, black st u -> edge d u v -> black st v;
  di_acyclic : forall u, black st u -> ~ tc (edge d) u u;
  di_walk : walk d (stack st);
  di_nodup : NoDup (stack st);
  di_univ : forall u, is_Some (color st !! u) -> u ∈ universe d
}.

(** White steps bound the recursion depth. *)
Definition white (d : Definition_) (st : dfs) : nat := size (universe d ∖ dom (color st)).

Definition dfs_le (st st' : dfs) : Prop :=
  stack st' = stack st /\ (forall u, black st u -> black st' u) /\ dom (color st) ⊆ dom (color st').

Definition visit_ok (d : Definition_) (st : dfs) (r : option (dfs * bool)) (P : dfs -> Prop) : Prop :=
  match r with
  | None => False
  | Some (st', true) => is_cycle d (found st')
  | Some (st', false) => dfs_inv d st' /\ dfs_le st st' /\ P st'
  end.

Lemma universe_to d u v : edge d u v -> v ∈ universe d.
Proof.
  intros (e & He & _ & <-). apply elem_of_list_to_set, elem_of_app. right.
  apply list_elem_of_fmap. eauto.
Qed.

Lemma white_le d st st' : dom (color st) ⊆ dom (color st') -> (white d st' <= white d st)%nat.
Proof. intros. apply subseteq_size. set_solver. Qed.

Lemma black_tc d st u v : dfs_inv d st -> black st u -> tc (edge d) u v -> black st v.
Proof. intros Hi Hu Ht. induction Ht; eauto using di_black. Qed.

Lemma visit_edges_spec d rec es st id :
  (forall v s, dfs_inv d s -> color s !! v = None -> v ∈ universe d ->
     (exists p, stack s = p ++ [id]) -> edge d id v -> (white d s <= white d st)%nat ->
     visit_ok d s (rec v s) (fun s' => black s' v)) ->
  (forall e, e ∈ es -> edge d id (eTo e)) -> dfs_inv d st -> (exists p, stack st = p ++ [id]) ->
  visit_ok d st (visit_edges rec es st) (fun st' => forall e, e ∈ es -> black st' (eTo e)).
Proof.
  intros Hrec. remember (white d st) as w eqn:Hw. assert (white d st <= w)%nat as Hle by lia. clear Hw.
  revert st Hle. induction es as [|e es IH]; intros st Hle Hes Hinv Hlast; cbn [visit_edges].
  { split; [done|]. split; [by split_and!|]. intros e He. by apply not_elem_of_nil in He. }
  assert (Hedge : edge d id (eTo e)) by (apply Hes; set_solver).
  assert (Htail : forall st', dfs_inv d st' -> dfs_le st st' -> black st' (eTo e) ->
    visit_ok d st (visit_edges rec es st') (fun st'' => forall e', e' ∈ e :: es -> black st'' (eTo e'))).
  { intros st' Hi' (Hs & Hb & Hd) Hbe.
    assert (visit_ok d st' (visit_edges rec es st') (fun st'' => forall e', e' ∈ es -> black st'' (eTo e'))) as HIH.
    { apply IH; [pose proof (white_le d st st' Hd); lia|set_solver|done|by rewrite Hs]. }
    destruct (visit_edges rec es st') as [[st'' []]|]; cbn in *; [done| |done].
    destruct HIH as (Hi'' & (Hs' & Hb' & Hd') & Hall). split; [done|]. split; [split_and!; [congruence|auto|set_solver]|].
    intros e' [->|He']%elem_of_cons; auto. }
  destruct (color st !! eTo e) as [[]|] eqn:Hc.
  - apply (di_grey _ _ Hinv) in Hc. destruct (from_first_in _ _ Hc) as [l Hl]. rewrite Hl.
    destruct (from_first_spec _ _ _ Hl) as (p & m & Hp & ->). cbn. exists (eTo e), m. split; [done|].
    destruct Hlast as [q Hq]. assert (exists r, eTo e :: m = r ++ [id]) as [r Hr].
    { rewrite Hp in Hq. destruct (exists_last (l := eTo e :: m)) as (r & x & Hr); [done|].
      rewrite Hr, (assoc_L (++)) in Hq. apply app_inj_tail in Hq as [_ ->]. eauto. }
    change (walk d ((eTo e :: m) ++ [eTo e])). rewrite Hr. apply walk_snoc; [|done].
    rewrite <- Hr. apply (walk_suffix d p). rewrite <- Hp. apply (di_walk _ _ Hinv).
  - apply Htail; [done|by split_and!|done].
  - specialize (Hrec (eTo e) st Hinv Hc (universe_to _ _ _ Hedge) Hlast Hedge Hle).
    destruct (rec (eTo e) st) as [[st' []]|]; cbn in Hrec |- *; [done| |done].
    apply Htail; tauto.
Qed.

Lemma dfs_inv_push d st id :
  dfs_inv d st -> color st !! id = None -> id ∈ universe d ->
  (stack st = [] \/ exists p x, stack st = p ++ [x] /\ edge d x id) ->
  dfs_inv d (mkDfs (<[id := Grey]> (color st)) (stack st ++ [id]) (found st)).
Proof.
  intros Hi Hc Hu Hl. constructor; cbn [color stack]; unfold black; cbn [color].
  - intros u. rewrite elem_of_app, list_elem_of_singleton. destruct (decide (u = id)) as [->|Hne].
    + rewrite lookup_insert_eq. naive_solver.
    + rewrite lookup_insert_ne by done. rewrite (di_grey _ _ Hi). naive_solver.
  - intros u v Hb He. destruct (decide (u = id)) as [->|Hne]; [by rewrite lookup_insert_eq in Hb|].
    rewrite lookup_insert_ne in Hb by done. pose proof (di_black _ _ Hi _ _ Hb He) as Hv.
    rewrite lookup_insert_ne; [done|]. intros ->. unfold black in Hv. congruence.
  - intros u Hb. destruct (decide (u = id)) as [->|Hne]; [by rewrite lookup_insert_eq in Hb|].
    rewrite lookup_insert_ne in Hb by done. by apply (di_acyclic _ _ Hi).
  - destruct Hl as [->|(p & x & Hs & He)]; [done|]. rewrite Hs. apply walk_snoc; [|done].
    rewrite <- Hs. apply (di_walk _ _ Hi).
  - apply NoDup_app. split_and!; [apply (di_nodup _ _ Hi)| |apply NoDup_singleton].
    intros u Hs ->%list_elem_of_singleton. apply (di_grey _ _ Hi) in Hs. congruence.
  - intros u Hu'. destruct (decide (u = id)) as [->|Hne]; [done|].
    rewrite lookup_insert_ne in Hu' by done. by apply (di_univ _ _ Hi).
Qed.

(** Blackening the top of the stack once its successors are black. *)
Lemma dfs_inv_pop d st id p :
  dfs_inv d st -> stack st = p ++ [id] ->
  (forall v, edge d id v -> black st v) ->
  dfs_inv d (mkDfs (<[id := Black]> (color st)) p (found st)).
Proof.
  intros Hi Hs Hsucc. pose proof (di_nodup _ _ Hi) as Hnd. rewrite Hs in Hnd. pose proof Hnd as Hnd'. apply NoDup_app in Hnd as (Hndp & Hdis & _).
  assert (Hnb : ~ black st id).
  { intros Hb. assert (id ∈ stack st) as Hg by (rewrite Hs; set_solver).
    apply (di_grey _ _ Hi) in Hg. unfold black in Hb. congruence. }
  assert (Hother : forall u, u <> id -> black (mkDfs (<[id := Black]> (color st)) p (found st)) u <-> black st u).
  { intros u Hu. unfold black; cbn. by rewrite lookup_insert_ne. }
  constructor; cbn [color stack].
  - intros u. destruct (decide (u = id)) as [->|Hne].
    + rewrite lookup_insert_eq. split; [done|]. intros Hu. destruct (Hdis id Hu). set_solver.
    + rewrite lookup_insert_ne by done. rewrite (di_grey _ _ Hi), Hs. set_solver.
  - intros u v Hb He. assert (black st v) as Hv.
    { destruct (decide (u = id)) as [->|Hne]; [auto|]. apply Hother in Hb; [|done]. eapply di_black; eauto. }
    apply Hother; [congruence|done].
  - intros u Hb Ht. destruct (decide (u = id)) as [->|Hne].
    + apply Hnb. inversion Ht as [? ? He|? y ? He Ht']; subst; [auto|]. eapply black_tc; eauto.
    + apply Hother in Hb; [|done]. by apply (di_acyclic _ _ Hi u).
  - pose proof (di_walk _ _ Hi) as Hw. rewrite Hs in Hw. clear -Hw.
    induction p as [|x [|y p] IH]; [done|done|]. cbn in *. destruct Hw. split; [done|by apply IH].
  - done.
  - intros u Hu. apply (di_univ _ _ Hi). destruct (decide (u = id)) as [->|Hne]; [|by rewrite lookup_insert_ne in Hu].
    assert (id ∈ stack st) as Hg by (rewrite Hs; set_solver). apply (di_grey _ _ Hi) in Hg. by rewrite Hg.
Qed.

Lemma visit_spec d fuel id st :
  (white d st <= fuel)%nat -> dfs_inv d st -> color st !! id = None -> id ∈ universe d ->
  (stack st = [] \/ exists p x, stack st = p ++ [x] /\ edge d x id) ->
  visit_ok d st (visit fuel d id st) (fun st' => black st' id).
Proof.
  revert id st. induction fuel as [|fuel IH]; intros id st Hf Hi Hc Hu Hl.
  { exfalso. assert (id ∈ universe d ∖ dom (color st)) as Hin.
    { apply elem_of_difference. split; [done|]. by apply not_elem_of_dom. }
    unfold white in Hf. assert (size (universe d ∖ dom (color st)) = 0)%nat as Hz%size_empty_inv by lia. rewrite Hz in Hin. by apply not_elem_of_empty in Hin. }
  cbn [visit]. set (st1 := mkDfs _ _ _).
  assert (Hw : (white d st1 < white d st)%nat).
  { apply subset_size. cbn. rewrite dom_insert_L. apply not_elem_of_dom in Hc. set_solver. }
  assert (Hi1 : dfs_inv d st1) by (by apply dfs_inv_push).
  pose proof (visit_edges_spec d (visit fuel d) (Outgoing d id) st1 id) as Hes.
  ospecialize (Hes _ _ Hi1 _).
  { intros v s Hs Hcv Hv [p Hp] Hidv Hle. apply IH; [lia|done..|]. right. eauto. }
  { intros e He. apply edge_outgoing, list_elem_of_fmap. eauto. }
  { eexists. done. }
  destruct (visit_edges _ _ _) as [[st2 []]|]; cbn in Hes |- *; [done| |done].
  destruct Hes as (Hi2 & (Hs2 & Hb2 & Hd2) & Hall). cbn [stack st1] in Hs2.
  assert (Htake : take (length (stack st2) - 1) (stack st2) = stack st).
  { rewrite Hs2, length_app. cbn. rewrite Nat.add_sub. apply take_app_length. }
  rewrite Htake. split_and!.
  - apply dfs_inv_pop; [done|done|]. intros v Hv. apply edge_outgoing, list_elem_of_fmap in Hv as (e & -> & He). auto.
  - split_and!; [done| |].
    { intros u Hub. unfold black; cbn. destruct (decide (u = id)) as [->|]; [by rewrite lookup_insert_eq|].
      rewrite lookup_insert_ne by done. apply Hb2. unfold black; cbn. by rewrite lookup_insert_ne. }
    cbn [color st1] in Hd2 |- *. rewrite dom_insert_L in Hd2 |- *. set_solver.
  - unfold black; cbn. by rewrite lookup_insert_eq.
Qed.

Lemma cycle_from_spec d fuel ss st :
  (white d st <= fuel)%nat -> dfs_inv d st -> stack st = [] -> (forall s, s ∈ ss -> s ∈ universe d) ->
  exists l, cycle_from fuel d ss st = Some l /\
    (l <> [] -> is_cycle d l) /\
    (l = [] -> exists st', dfs_inv d st' /\ (forall u, black st u -> black st' u) /\ forall s, s ∈ ss -> black st' s).
Proof.
  revert st. induction ss as [|s ss IH]; intros st Hf Hi Hst Hss; cbn [cycle_from].
  { eexists. split_and!; [done|done|]. intros _. exists st. split_and!; [done|auto|].
    intros s Hs. by apply not_elem_of_nil in Hs. }
  destruct (color st !! s) as [[]|] eqn:Hc.
  - apply (di_grey _ _ Hi) in Hc. rewrite Hst in Hc. by apply not_elem_of_nil in Hc.
  - destruct (IH st) as (l & -> & H1 & H2); [done..|set_solver|]. eexists. split_and!; [done|done|].
    intros Hl. destruct (H2 Hl) as (st' & ? & Hb & ?). exists st'. split_and!; [done|done|].
    intros s' [->|]%elem_of_cons; auto.
  - pose proof (visit_spec d fuel s st Hf Hi Hc) as Hv. ospecialize (Hv _ _); [set_solver|by left|].
    destruct (visit fuel d s st) as [[st1 []]|]; cbn in Hv; [| |done].
    + eexists. split_and!; [done|done|]. intros E. destruct Hv as (x & m & Hx & _). by rewrite Hx in E.
    + destruct Hv as (Hi1 & (Hs1 & Hb1 & Hd1) & Hbs).
      destruct (IH st1) as (l & -> & H1 & H2); [|done|congruence|set_solver|].
      { pose proof (white_le d st st1 Hd1). lia. }
      eexists. split_and!; [done|done|]. intros Hl. destruct (H2 Hl) as (st' & ? & Hb & ?).
      exists st'. split_and!; [done|auto|]. intros s' [->|]%elem_of_cons; auto.
Qed.

(** Every edge starts at the trigger or a step: what [Validate] checks first. *)
Definition edges_known (d : Definition_) : Prop := forall u v, edge d u v -> u ∈ starts d.

Definition acyclic (d : Definition_) : Prop := forall u, ~ tc (edge d) u u.

Lemma walk_tc d x m y : walk d (x :: m ++ [y]) -> tc (edge d) x y.
Proof.
  revert x. induction m as [|z m IH]; intros x; cbn; [intros [? _]; by apply tc_once|].
  intros [He Hw]. eapply tc_l; [done|]. by apply IH.
Qed.

Lemma findCycle_spec (d : Definition_) :
  (exists l, cycle_from (S (size (universe d))) d (starts d) (mkDfs ∅ [] []) = Some l) /\
  (findCycle d <> [] -> is_cycle d (findCycle d)) /\
  (edges_known d -> (findCycle d = [] <-> acyclic d)).
Proof.
  destruct (cycle_from_spec d (S (size (universe d))) (starts d) (mkDfs ∅ [] [])) as (l & Hl & H1 & H2).
  - unfold white. cbn. rewrite dom_empty_L, difference_empty_L. lia.
  - assert (Hn : forall u : string, (∅ : gmap string colour) !! u = None) by (intros; apply lookup_empty).
    constructor; unfold black; cbn [color stack]; try setoid_rewrite Hn; [|done|done|done|constructor|].
    + intros u. split; [done|by intros ?%not_elem_of_nil].
    + by intros u [? ?].
  - done.
  - intros s Hs. apply elem_of_list_to_set, elem_of_app. by left.
  - assert (Hfc : findCycle d = l) by (unfold findCycle; by rewrite Hl). rewrite Hfc.
    split_and!; [by exists l|done|]. intros Hk. split.
    + intros Hnil u Ht. destruct (H2 Hnil) as (st' & Hi & _ & Hall).
      assert (exists v, edge d u v) as [v Hv] by (inversion Ht; eauto).
      apply (di_acyclic _ _ Hi u); [|done]. apply Hall. by eapply Hk.
    + intros Ha. destruct l as [|x l]; [done|]. destruct (H1 ltac:(done)) as (y & m & -> & Hw).
      destruct (Ha y). by apply (walk_tc d y m y).
Qed.

(** C3: [findCycle] terminates within its fuel, what it returns is a closed walk of
    the graph, and when every edge starts at a known step it returns nothing
    exactly when the graph has no cycle. *)
Theorem findCycle_correct (d : Definition_) :
  (exists l, cycle_from (S (size (universe d))) d (starts d) (mkDfs ∅ [] []) = Some l) /\
  (findCycle d <> [] -> is_cycle d (findCycle d)) /\
  (edges_known d -> (findCycle d = [] <-> acyclic d)).
Proof. exact (findCycle_spec d). Qed.

(** ** Loop validation *)
Record Problem := mkProblem { Path : string; Message : string }.

Definition loop_problem (loop : string) (e : Edge) : Problem :=
  mkProblem "edges" ("step " +:+ eTo e +:+ " repeats inside " +:+ loop +:+ " but is also reached from "
    +:+ eFrom e +:+ " outside the loop").

Definition validateLoops (d : Definition_) (isLoop : string -> bool) : list Problem :=
  let bodies := LoopBodies d isLoop in
  flat_map (fun loop =>
    let body := default ∅ (assoc loop bodies) in
    map (loop_problem loop)
      (filter (fun e => eTo e ∈ body /\ eFrom e ∉ body /\ ~ (eFrom e = loop /\ ePort e = "each"%string)) (Edges d)))
    (sortStrings (map fst bodies)).

(** *** [LoopBodies] *)
Lemma LoopBodies_spec d isLoop :
  NoDup (map fst (LoopBodies d isLoop)) /\
  (forall l b, (l, b) ∈ LoopBodies d isLoop <->
    b = loopBody d l /\ exists n, n ∈ Nodes d /\ nID n = l /\ isLoop (nType n) = true).
Proof.
  unfold LoopBodies. set (f := fun out n => _).
  assert (forall ns out, NoDup (map fst out) -> (forall l b, (l, b) ∈ out -> b = loopBody d l) ->
    NoDup (map fst (fold_left f ns out)) /\
    (forall l b, (l, b) ∈ fold_left f ns out <-> b = loopBody d l /\
      ((l, b) ∈ out \/ exists n, n ∈ ns /\ nID n = l /\ isLoop (nType n) = true))) as H.
  { induction ns as [|n ns IH]; intros out Hnd Hb; cbn [fold_left].
    { split; [done|]. intros l b. split; [auto|]. intros [-> [|(n & Hn & _)]]; [done|]. by apply not_elem_of_nil in Hn. }
    unfold f at 2 4. destruct (isLoop (nType n)) eqn:Hn.
    - destruct (assoc_set_keys (nID n) (loopBody d (nID n)) out Hnd) as [Hnd' Hel].
      destruct (IH _ Hnd') as [H1 H2]; [intros l b [[= -> ->]|[? _]]%Hel; auto|].
      split; [done|]. intros l b. rewrite H2, Hel. setoid_rewrite elem_of_cons. split.
      + intros [-> [[[= -> _]|[? _]]|(m & ? & ? & ?)]]; split; eauto 10.
      + intros [-> [Hin|(m & [->|Hm] & <- & ?)]]; split; eauto 10.
        destruct (decide (l = nID n)) as [->|]; eauto.
    - destruct (IH out) as [H1 H2]; [done..|]. split; [done|]. intros l b. rewrite H2. setoid_rewrite elem_of_cons.
      split; intros [-> [Hin|(m & Hm & <- & ?)]]; (split; [done|]); [by left|right; eauto 10|by left|].
      destruct Hm as [->|]; [congruence|right; eauto 10]. }
  destruct (H (Nodes d) []) as [H1 H2]; [constructor|by intros ?? ?%not_elem_of_nil|].
  split; [done|]. intros l b. rewrite H2. split.
  - intros [-> [Hin|]]; [by apply not_elem_of_nil in Hin|done].
  - naive_solver.
Qed.

Lemma elem_of_sortStrings x l : x ∈ sortStrings l <-> x ∈ l.
Proof. unfold sortStrings. by rewrite merge_sort_Permutation. Qed.

(** What an empty answer of [validateLoops] means. *)
Definition loops_closed (d : Definition_) (isLoop : string -> bool) : Prop :=
  forall l b e, (l, b) ∈ LoopBodies d isLoop -> e ∈ Edges d -> eTo e ∈ b ->
    eFrom e ∈ b \/ (eFrom e = l /\ ePort e = "each"%string).

Lemma validateLoops_nil d isLoop : validateLoops d isLoop = [] <-> loops_closed d isLoop.
Proof.
  destruct (LoopBodies_spec d isLoop) as [Hnd _]. unfold validateLoops. rewrite flat_map_nil.
  setoid_rewrite elem_of_sortStrings. unfold loops_closed. split.
  - intros H l b e Hlb He Hto. specialize (H l). ospecialize (H _).
    { apply list_elem_of_fmap. eexists (_, _); cbn; eauto. }
    apply map_eq_nil in H. rewrite (assoc_NoDup l b) in H by done. cbn in H.
    pose proof (proj1 (filter_nil _ _) H e He) as Hn.
    destruct (decide (eFrom e ∈ b)); [auto|].
    destruct (decide (eFrom e = l /\ ePort e = "each"%string)); [auto|]. destruct Hn. auto.
  - intros H l ([l' b] & -> & Hlb)%list_elem_of_fmap. cbn. rewrite (assoc_NoDup l' b) by done. cbn.
    rewrite (proj2 (filter_nil _ _)); [done|].
    intros e He (Hto & Hfrom & Heach). destruct (H l' b e); tauto.
Qed.

(** *** [Owners] *)
Lemma owner_fold id (bodies : list (string * gset string)) (best : string * Z) :
  (best.2 = -1 \/ exists b : gset string, id ∈ b /\ best.2 = Z.of_nat (size b)) ->
  let r := fold_left (owner_step id) bodies best in
  (r = best \/ exists b : gset string, (r.1, b) ∈ bodies /\ id ∈ b /\ r.2 = Z.of_nat (size b)) /\
  (forall l b, (l, b) ∈ bodies -> id ∈ b -> 0 <= r.2 <= Z.of_nat (size b)) /\
  (0 <= best.2 -> 0 <= r.2 <= best.2).
Proof.
  revert best. induction bodies as [|[l b] bodies IH]; intros best Hb; cbn [fold_left].
  { cbn. split_and!; [auto|by intros ?? ?%not_elem_of_nil|lia]. }
  set (best' := owner_step id best (l, b)).
  assert (Hb' : (best' = best /\ (id ∉ b \/ 0 <= best.2 <= Z.of_nat (size b))) \/
    (best' = (l, Z.of_nat (size b)) /\ id ∈ b /\ (best.2 < 0 \/ Z.of_nat (size b) < best.2))).
  { unfold best', owner_step. case_decide as Hd; cbn [fst snd] in Hd; [right; tauto|left; split; [done|]].
    destruct (decide (id ∈ b)); [right|by left].
    assert (~ (best.2 < 0 \/ Z.of_nat (size b) < best.2)) by tauto. lia. }
  assert (best'.2 = -1 \/ exists b : gset string, id ∈ b /\ best'.2 = Z.of_nat (size b)) as Hinv.
  { destruct Hb' as [[-> _]|(-> & Hin & _)]; [done|]. right. by exists b. }
  destruct (IH best' Hinv) as (H1 & H2 & H3). cbn zeta. split_and!.
  - destruct H1 as [->|(b' & Hin & ?)]; [|right; exists b'; set_solver].
    destruct Hb' as [[-> _]|(-> & Hin & _)]; [by left|]. right. exists b. set_solver.
  - intros l' b' [[= -> ->]|Hin]%elem_of_cons Hid; [|by apply (H2 l' b')].
    destruct Hb' as [[Heq [|Hle]]|(Heq & _ & _)]; [done| |]; apply (f_equal snd) in Heq; cbn [snd] in Heq; lia.
  - destruct Hb' as [[Heq _]|(Heq & _ & Hlt)]; apply (f_equal snd) in Heq; cbn [snd] in Heq; lia.
Qed.

Lemma owner_spec bodies id :
  (owner bodies id = ""%string /\ forall l b, (l, b) ∈ bodies -> id ∉ b) \/
  (exists b, (owner bodies id, b) ∈ bodies /\ id ∈ b /\
     forall l' b', (l', b') ∈ bodies -> id ∈ b' -> (size b <= size b')%nat).
Proof.
  unfold owner. destruct (owner_fold id bodies (""%string, -1)) as (H1 & H2 & _); [by left|].
  destruct H1 as [Heq|(b & Hin & Hid & Hsz)].
  - left. rewrite Heq in *. split; [done|]. intros l b Hlb Hid. specialize (H2 l b Hlb Hid). cbn in H2. lia.
  - right. exists b. split_and!; [done|done|]. intros l' b' Hlb Hid'. specialize (H2 l' b' Hlb Hid'). lia.
Qed.
(** *** Nesting *)
Section nesting.
Context (d : Definition_) (isLoop : string -> bool).
Context (Hacyclic : acyclic d) (Hclosed : loops_closed d isLoop).

Lemma each_edge l u : u ∈ eachTargets d l <-> exists e, e ∈ Edges d /\ eFrom e = l /\ eTo e = u /\ ePort e = "each"%string.
Proof using.
  unfold eachTargets. rewrite list_elem_of_fmap. setoid_rewrite list_elem_of_filter.
  setoid_rewrite Outgoing_from. naive_solver.
Qed.

Lemma rtc_off l u v : edge d l u -> rtc (edge d) u v -> rtc (edge_off d l) u v.
Proof using Hacyclic.
  intros He Hr. assert (forall w, rtc (edge d) u w -> w <> l) as Hoff.
  { intros w Hw ->. apply (Hacyclic l). apply rtc_tc in Hw as [->|Hw]; [by apply tc_once|by eapply tc_l]. }
  clear He. induction Hr as [u|u w v Huw Hr IH]; [done|]. eapply rtc_l; [split; [done|apply Hoff; done]|].
  apply IH. intros x Hx. apply Hoff. by eapply rtc_l.
Qed.

(** On an acyclic flow a loop's body is everything reachable from its [each] branch. *)
Lemma body_acyclic l v : v ∈ loopBody d l <-> exists u, u ∈ eachTargets d l /\ rtc (edge d) u v.
Proof using Hacyclic.
  rewrite loopBody_spec. split.
  - intros (_ & u & Hu & _ & Hr). exists u. split; [done|]. clear Hu. induction Hr as [|? ? ? [? _]]; [done|].
    by eapply rtc_l.
  - intros (u & Hu & Hr). pose proof Hu as (e & He & <- & Hto & _)%each_edge.
    assert (edge d (eFrom e) u) as Hedge by (by exists e).
    assert (forall w, rtc (edge d) u w -> w <> eFrom e) as Hoff.
    { intros w Hw ->. apply (Hacyclic (eFrom e)). apply rtc_tc in Hw as [->|Hw]; [by apply tc_once|by eapply tc_l]. }
    split; [by apply Hoff|]. exists u. split_and!; [done|by apply Hoff|by apply rtc_off].
Qed.

Lemma body_closed l u v : u ∈ loopBody d l -> rtc (edge d) u v -> v ∈ loopBody d l.
Proof using Hacyclic.
  rewrite !body_acyclic. intros (w & Hw & Hr) Huv. exists w. split; [done|]. by trans u.
Qed.

Lemma body_irrefl l : l ∉ loopBody d l.
Proof using. rewrite loopBody_spec. by intros []. Qed.

Lemma body_nested_lt l1 l2 : l2 ∈ loopBody d l1 -> loopBody d l2 ⊂ loopBody d l1.
Proof using Hacyclic.
  intros H. split.
  - intros v (u & (e & He & <- & <- & _)%each_edge & Hr)%body_acyclic. eapply body_closed; [done|].
    eapply rtc_l; [by exists e|done].
  - intros Hsub. by apply (body_irrefl l2), Hsub.
Qed.

Definition is_loop (l : string) : Prop := exists n, n ∈ Nodes d /\ nID n = l /\ isLoop (nType n) = true.

(** Following a path into a body passes through the loop step or starts inside. *)
Lemma enter_body l u v :
  is_loop l -> rtc (edge d) u v -> v ∈ loopBody d l ->
  u ∈ loopBody d l \/ rtc (edge d) u l.
Proof using Hacyclic Hclosed.
  intros Hl Hr Hv. induction Hr as [|u w v (e & He & <- & <-) Hr IH]; [auto|].
  destruct (IH Hv) as [Hw|Hw].
  - destruct (Hclosed l (loopBody d l) e) as [|[-> _]]; [|done..|by left|by right].
    by apply LoopBodies_spec.
  - right. eapply rtc_l; [by exists e|done].
Qed.

Lemma loops_nested l1 l2 v :
  is_loop l1 -> is_loop l2 -> l1 <> l2 -> v ∈ loopBody d l1 -> v ∈ loopBody d l2 ->
  l2 ∈ loopBody d l1 \/ l1 ∈ loopBody d l2.
Proof using Hacyclic Hclosed.
  intros H1 H2 Hne Hv1 Hv2. pose proof Hv1 as (u & Hu & Hr)%body_acyclic.
  destruct (enter_body l2 u v H2 Hr Hv2) as [Hin|Hin].
  - apply each_edge in Hu as (e & He & Hf & Ht & _). right.
    destruct (Hclosed l2 (loopBody d l2) e) as [|[? _]]; [|done|congruence|congruence|congruence].
    by apply LoopBodies_spec.
  - left. apply body_acyclic. eauto.
Qed.

Lemma body_sizes l1 l2 v :
  is_loop l1 -> is_loop l2 -> v ∈ loopBody d l1 -> v ∈ loopBody d l2 ->
  size (loopBody d l1) = size (loopBody d l2) -> l1 = l2.
Proof using Hacyclic Hclosed.
  intros H1 H2 Hv1 Hv2 Hsz. destruct (decide (l1 = l2)) as [|Hne]; [done|exfalso].
  destruct (loops_nested l1 l2 v) as [H|H]; [done..| |];
    apply body_nested_lt, subset_size in H; lia.
Qed.

(** Every edge of a validated definition joins two steps of the same loop, or leaves
    a foreach step for its own body. *)
Lemma owner_edge e :
  e ∈ Edges d ->
  let own := owner (LoopBodies d isLoop) in
  own (eFrom e) = own (eTo e) \/ (eFrom e = own (eTo e) /\ ePort e = "each"%string).
Proof using Hacyclic Hclosed.
  intros He own. subst own. cbv beta. set (B := LoopBodies d isLoop).
  destruct (LoopBodies_spec d isLoop) as [_ HB]. fold B in HB.
  assert (Hstep : forall l b, (l, b) ∈ B -> eFrom e ∈ b -> eTo e ∈ b).
  { intros l b Hlb Hu. apply HB in Hlb as [-> _]. apply (body_closed l (eFrom e)); [done|].
    apply rtc_once. by exists e. }
  destruct (owner_spec B (eTo e)) as [[-> Hv]|(b & Hlb & Hv & Hmin)];
    destruct (owner_spec B (eFrom e)) as [[Eu Hu]|(b' & Hlb' & Hu & Hmin')]; rewrite ?Eu.
  - by left.
  - destruct (Hv _ _ Hlb'). by apply (Hstep _ _ Hlb').
  - destruct (Hclosed _ _ e Hlb He Hv) as [H|[??]]; [|auto]. by destruct (Hu _ _ Hlb).
  - destruct (Hclosed _ _ e Hlb He Hv) as [H|[??]]; [left|auto].
    pose proof (Hmin _ _ Hlb' (Hstep _ _ Hlb' Hu)). pose proof (Hmin' _ _ Hlb H).
    apply HB in Hlb as [-> ?]. apply HB in Hlb' as [-> ?]. apply (body_sizes _ _ (eFrom e)); try done. lia.
Qed.

End nesting.

Lemma Owners_lookup d bodies id :
  (exists n, n ∈ Nodes d /\ nID n = id) -> Owners d bodies !! id = Some (owner bodies id).
Proof.
  intros (n & Hn & <-). unfold Owners. apply elem_of_list_to_map_1'.
  - intros y Hy. apply list_elem_of_fmap in Hy as (m & Hm & _). cbn in Hm. congruence.
  - apply list_elem_of_fmap. eauto.
Qed.

(** Edges cannot be followed backwards for ever. *)
Lemma edge_wf d : edges_known d -> acyclic d -> well_founded (edge d).
Proof.
  intros Hk Ha. set (anc v := filter (fun u => v ∈ reachable d u) (universe d)).
  apply (wf_projected (R1 := edge d) (Nat.lt) (fun v => size (anc v))); [|apply lt_wf].
  intros u v Huv. apply subset_size. split.
  - intros w. unfold anc. rewrite !elem_of_filter, !reachable_spec. intros [Hw ?]. split; [|done].
    eapply tc_r; eauto.
  - intros Hsub. assert (Hu : u ∈ anc v).
    { unfold anc. rewrite elem_of_filter, reachable_spec. split; [by constructor|].
      apply elem_of_list_to_set, elem_of_app. left. by eapply Hk. }
    apply Hsub in Hu. unfold anc in Hu. rewrite elem_of_filter, reachable_spec in Hu. exact (Ha u (proj1 Hu)).
Qed.

(** C4: loops nest.  On an acyclic flow that loop validation accepts, two loops
    that share a step contain one another, the inner body strictly smaller; so the
    owner [Owners] gives a step does not depend on the order in which Go ranges over
    the bodies, it is a loop that repeats the step (or none, exactly when no loop
    does), and every other loop that repeats the step also repeats the owner. *)
Theorem Owners_innermost (d : Definition_) (isLoop : string -> bool) (id : string) :
  findCycle d = [] -> edges_known d -> validateLoops d isLoop = [] ->
  let bodies := LoopBodies d isLoop in
  (forall bodies', bodies' ≡ₚ bodies -> owner bodies' id = owner bodies id) /\
  ((forall l b, (l, b) ∈ bodies -> id ∉ b) \/
   (id ∈ loopBody d (owner bodies id) /\
    forall l b, (l, b) ∈ bodies -> id ∈ b -> l <> owner bodies id ->
      owner bodies id ∈ b /\ loopBody d (owner bodies id) ⊂ b)).
Proof.
  intros Hc Hk Hv bodies. apply (findCycle_spec d) in Hc; [|done]. apply validateLoops_nil in Hv.
  destruct (LoopBodies_spec d isLoop) as [_ HB]. fold bodies in HB. split.
  - intros bodies' Hp. assert (Hperm : forall lb, lb ∈ bodies' <-> lb ∈ bodies) by (intros lb; by rewrite Hp).
    destruct (owner_spec bodies' id) as [[-> H]|(b & Hin & Hid & Hmin)];
      destruct (owner_spec bodies id) as [[-> H']|(b' & Hin' & Hid' & Hmin')].
    + done.
    + by destruct (H _ _ (proj2 (Hperm _) Hin')).
    + by destruct (H' _ _ (proj1 (Hperm _) Hin)).
    + apply Hperm in Hin. pose proof (Hmin' _ _ Hin Hid). pose proof (Hmin _ _ (proj2 (Hperm _) Hin') Hid').
      apply HB in Hin as [-> Hl]. apply HB in Hin' as [-> Hl'].
      apply (body_sizes d isLoop Hc Hv _ _ id); [done..|lia].
  - destruct (owner_spec bodies id) as [[_ H]|(b & Hin & Hid & Hmin)]; [by left|right].
    apply HB in Hin as [-> Hl]. split; [done|]. intros l b Hlb Hidb Hne.
    pose proof (Hmin _ _ Hlb Hidb). apply HB in Hlb as [-> Hl'].
    destruct (loops_nested d isLoop Hc Hv l (owner bodies id) id) as [Hn|Hn]; [done..| |].
    + split; [done|]. by apply body_nested_lt.
    + apply body_nested_lt, subset_size in Hn; [lia|done].
Qed.

(** ** A concrete flow: a foreach inside a foreach *)
Definition demo_node (id typ : string) : Node := mkNode id typ [] None "" 0.

Definition demo : Definition_ :=
  mkDefinition 1 (mkTrigger "trigger" "trigger.manual" [])
    [demo_node "outer" "logic.foreach"; demo_node "inner" "logic.foreach"; demo_node "x" "logic.noop";
     demo_node "y" "logic.noop"]
    [mkEdge "trigger" "outer" ""; mkEdge "outer" "inner" "each"; mkEdge "inner" "x" "each"; mkEdge "outer" "y" "done"]
    None None ∅.

Definition demo_isLoop (t : string) : bool := bool_decide (t = "logic.foreach"%string).

Lemma edges_known_iff d : edges_known d <-> Forall (fun e => eFrom e ∈ starts d) (Edges d).
Proof.
  rewrite Forall_forall. unfold edges_known, edge. split; [|naive_solver].
  intros H e He. apply (H _ (eTo e)). eauto.
Qed.

Lemma demo_known : edges_known demo.
Proof. apply edges_known_iff. repeat constructor; set_solver. Qed.

Lemma findCycle_correct_witness :
  edges_known demo /\ findCycle demo = [] /\ acyclic demo.
Proof.
  split; [exact demo_known|]. split; [vm_compute; reflexivity|].
  apply (proj2 (proj2 (findCycle_correct demo)) demo_known). vm_compute. reflexivity.
Defined.

Lemma Owners_innermost_witness :
  findCycle demo = [] /\ validateLoops demo demo_isLoop = [] /\
  owner (LoopBodies demo demo_isLoop) "x" = "inner"%string /\
  owner (rev (LoopBodies demo demo_isLoop)) "x" = "inner"%string.
Proof.
  assert (H1 : findCycle demo = []) by (vm_compute; reflexivity).
  assert (H2 : validateLoops demo demo_isLoop = []) by (vm_compute; reflexivity).
  split; [exact H1|]. split; [exact H2|]. split; [vm_compute; reflexivity|].
  rewrite (proj1 (Owners_innermost demo demo_isLoop "x" H1 demo_known H2) (rev (LoopBodies demo demo_isLoop))
    (Permutation_sym (Permutation_rev _))).
  vm_compute. reflexivity.
Defined.
