(* ===== verification/Rbac.v ===== *)
(** * Permissions and roles ([src/internal/rbac])

    The permission names, the built-in roles and their grants, [Authorize] with its
    wildcards, the token presets, and what the catalogue promises: the built-in roles
    grow from one to the next, and the roles below SuperAdmin hold none of the
    permissions the code reserves. *)
From S2P Require Export GoText.

Definition SuperAdmin : string := "superadmin".
Definition IAMManager : string := "iam-manager".
Definition Admin : string := "admin".
Definition User : string := "user".
Definition Automation : string := "automation".
Definition NoRole : string := "none".
Definition IdentityRead : string := "identity.read".
Definition IdentityTokenCreate : string := "identity.token.create".
Definition IdentityTokenRevoke : string := "identity.token.revoke".
Definition IdentityRecover : string := "identity.recover".
Definition IdentityMFA : string := "identity.mfa".
Definition IdentityGroupManage : string := "identity.group.manage".
Definition IdentityService : string := "identity.service".
Definition SecretReveal : string := "secret.reveal".
Definition SecretUse : string := "secret.use".
Definition ClusterDestroy : string := "cluster.destroy".
Definition AuditRead : string := "audit.read".
Definition AlertRead : string := "alert.read".
Definition AlertManage : string := "alert.manage".
Definition ClusterRead : string := "cluster.read".
Definition NodeRead : string := "node.read".
Definition EventsRead : string := "events.read".
Definition MetricsRead : string := "metrics.read".
Definition StorageRead : string := "storage.read".
Definition StoragePoolCreate : string := "storage.pool.create".
Definition StorageVolumeCreate : string := "storage.volume.create".
Definition StorageImageUpload : string := "storage.image.upload".
Definition NetworkRead : string := "network.read".
Definition NetworkCreate : string := "network.create".
Definition NetworkApply : string := "network.apply".
Definition ComputeRead : string := "compute.read".
Definition ComputeCreate : string := "compute.create".
Definition ComputeLifecycle : string := "compute.lifecycle".
Definition ComputeModify : string := "compute.modify".
Definition ComputeGPUAssign : string := "compute.gpu.assign".
Definition ComputeStart : string := "compute.start".
Definition ComputeStop : string := "compute.stop".
Definition ComputeDelete : string := "compute.delete".
Definition ComputeConsole : string := "compute.console".
Definition ComputeSnapshot : string := "compute.snapshot".
Definition ComputeMigrate : string := "compute.migrate".
Definition StorageSnapshot : string := "storage.snapshot".
Definition BackupRead : string := "backup.read".
Definition BackupCreate : string := "backup.create".
Definition BackupRestore : string := "backup.restore".
Definition NodeUpdate : string := "node.update".
Definition NodeRevoke : string := "node.revoke".
Definition ClusterJoin : string := "cluster.join".
Definition ClusterPromote : string := "cluster.promote".
Definition TerminalOpen : string := "terminal.open".
Definition FilesRead : string := "files.read".
Definition FilesDownload : string := "files.download".
Definition FilesUpload : string := "files.upload".
Definition FilesCreate : string := "files.create".
Definition FilesModify : string := "files.modify".
Definition FilesDelete : string := "files.delete".
Definition FilesPermissions : string := "files.permissions".
Definition FilesOwnership : string := "files.ownership".
Definition SettingsTLSRead : string := "settings.tls.read".
Definition SettingsTLSManage : string := "settings.tls.manage".
Definition FeatureRead : string := "feature.read".
Definition FeatureManage : string := "feature.manage".
Definition StoreRead : string := "store.read".
Definition StoreInstall : string := "store.install".
Definition StoreVerify : string := "store.verify".
Definition PolicyRead : string := "policy.read".
Definition PolicyApply : string := "policy.apply".
Definition PolicyRun : string := "policy.run".
Definition AIAsk : string := "ai.ask".
Definition AIManage : string := "ai.manage".
Definition SettingsLicenseRead : string := "settings.license.read".
Definition SettingsLicenseManage : string := "settings.license.manage".
Definition MigrationRead : string := "migration.read".
Definition MigrationImport : string := "migration.import".
Definition MigrationExport : string := "migration.export".
Definition MigrationManage : string := "migration.manage".
Definition UsersRead : string := "users.read".
Definition UsersCreate : string := "users.create".
Definition UsersUpdate : string := "users.update".
Definition UsersDelete : string := "users.delete".
Definition UsersRolesManage : string := "users.roles.manage".
Definition UsersSessionsRevoke : string := "users.sessions.revoke".
Definition APIAccessManage : string := "api_access.manage".
Definition UpdatesManage : string := "updates.manage".
Definition RolesManage : string := "roles.manage".
Definition SettingsSecurityManage : string := "settings.security.manage".
Definition GameServerRead : string := "gameserver.read".
Definition GameServerCreate : string := "gameserver.create".
Definition GameServerPower : string := "gameserver.power".
Definition GameServerConsole : string := "gameserver.console".
Definition GameServerFiles : string := "gameserver.files".
Definition GameServerConfig : string := "gameserver.config".
Definition GameServerContent : string := "gameserver.content".
Definition GameServerBackup : string := "gameserver.backup".
Definition GameServerSchedule : string := "gameserver.schedule".
Definition GameServerNetwork : string := "gameserver.network".
Definition GameServerUsers : string := "gameserver.users".
Definition GameServerReinstall : string := "gameserver.reinstall".
Definition GameServerDelete : string := "gameserver.delete".
Definition GameServerAdmin : string := "gameserver.admin".
Definition CloudflareRead : string := "cloudflare.read".
Definition CloudflareManage : string := "cloudflare.manage".
Definition CloudflareCredentials : string := "cloudflare.credentials".
Definition DDoSRead : string := "ddos.read".
Definition DDoSManage : string := "ddos.manage".
Definition ApprovalsView : string := "approvals.view".
Definition ApprovalsDecide : string := "approvals.decide".
Definition SearchManage : string := "search.manage".
Definition AppearanceManage : string := "settings.appearance.manage".
Definition PermissionsAssign : string := "permissions.assign".
Definition PermissionsAssignOverride : string := "permissions.assign.override".
Definition ComputePrivileged : string := "compute.privileged".
Definition NodeHostAccess : string := "node.host".
Definition TerminalSessionsManage : string := "terminal.sessions.manage".
Definition LabManage : string := "lab.manage".
Definition MigrationPrivileged : string := "migration.privileged".
Definition BackupGitManage : string := "backup.git.manage".
Definition PlatformBackupManage : string := "platform_backup.manage".
Definition CloudflareHostTunnel : string := "cloudflare.host_tunnel".
Definition DockerScriptsAdmin : string := "docker.scripts.admin".
Definition DeployConfigure : string := "deploy.configure".
Definition StorageProtectedDelete : string := "storage.protected.delete".
Definition AutomationSkipTest : string := "automation.skip_test".
Definition UpdatesWipe : string := "updates.wipe".
Definition SearchHostFiles : string := "search.host_files".
Definition IdentityServiceForce : string := "identity.service.force".
Definition AppearanceLimit : string := "settings.appearance.limit".
Definition All : string := "*".
Definition TokenPresetReadonlyDebug : string := "readonly-debug".
Definition TokenPresetFullAudit : string := "full-audit".

(** ** Built-in grants *)
Definition adminPerms : list string :=
  [ IdentityRead; IdentityTokenCreate; IdentityTokenRevoke; IdentityMFA; IdentityGroupManage;
    ClusterRead; NodeRead; EventsRead; MetricsRead; AlertRead; AlertManage; StorageRead;
    StoragePoolCreate; StorageVolumeCreate; StorageImageUpload; NetworkRead; NetworkCreate;
    NetworkApply; ComputeRead; ComputeCreate; ComputeLifecycle; ComputeModify; ComputeStart;
    ComputeStop; ComputeDelete; ComputeConsole; ComputeSnapshot; StorageSnapshot; ComputeGPUAssign;
    ComputeMigrate; BackupRead; BackupCreate; BackupRestore; NodeUpdate; ClusterJoin; NodeRevoke;
    TerminalOpen; FilesRead; FilesDownload; FilesUpload; FilesCreate; FilesModify; FilesDelete;
    FilesPermissions; FilesOwnership; SettingsTLSRead; FeatureRead; FeatureManage; StoreRead;
    StoreInstall; StoreVerify; PolicyRead; PolicyApply; PolicyRun; AIAsk; AIManage;
    SettingsLicenseRead; MigrationRead; MigrationImport; MigrationExport; MigrationManage;
    APIAccessManage; UpdatesManage; GameServerRead; GameServerCreate; GameServerPower;
    GameServerConsole; GameServerFiles; GameServerConfig; GameServerContent; GameServerBackup;
    GameServerSchedule; GameServerNetwork; GameServerUsers; GameServerReinstall; GameServerDelete;
    GameServerAdmin; CloudflareRead; CloudflareManage; SearchManage; DDoSRead; DDoSManage ].

Definition iamPerms : list string :=
  [ UsersRead; UsersCreate; UsersUpdate; UsersDelete; UsersRolesManage; UsersSessionsRevoke;
    RolesManage; PermissionsAssign; AuditRead ].

Definition userPerms : list string :=
  [ IdentityRead; IdentityMFA; ClusterRead; NodeRead; EventsRead; MetricsRead; AlertRead;
    StorageRead; NetworkRead; ComputeRead; FilesRead; SettingsTLSRead; BackupRead; FeatureRead;
    StoreRead; PolicyRead; AIAsk; SettingsLicenseRead; MigrationRead; GameServerRead;
    CloudflareRead; DDoSRead ].

Definition PermissionsForRole (role : string) : list string :=
  if decide (role = SuperAdmin) then [All]
  else if decide (role = Admin) then adminPerms
  else if decide (role = IAMManager) then adminPerms ++ iamPerms
  else if decide (role = User) then userPerms
  else if decide (role = Automation) then [All]
  else [].

Definition AllPermissions : list string :=
  [ IdentityRead; IdentityTokenCreate; IdentityTokenRevoke; IdentityRecover; IdentityMFA;
    IdentityGroupManage; IdentityService; SecretReveal; SecretUse; ClusterDestroy; AuditRead;
    AlertRead; AlertManage; ClusterRead; NodeRead; EventsRead; MetricsRead; StorageRead;
    StoragePoolCreate; StorageVolumeCreate; StorageImageUpload; NetworkRead; NetworkCreate;
    NetworkApply; ComputeRead; ComputeCreate; ComputeLifecycle; ComputeModify; ComputeGPUAssign;
    ComputeStart; ComputeStop; ComputeDelete; ComputeConsole; ComputeSnapshot; ComputeMigrate;
    StorageSnapshot; BackupRead; BackupCreate; BackupRestore; NodeUpdate; NodeRevoke; ClusterJoin;
    ClusterPromote; TerminalOpen; FilesRead; FilesDownload; FilesUpload; FilesCreate; FilesModify;
    FilesDelete; FilesPermissions; FilesOwnership; SettingsTLSRead; SettingsTLSManage; FeatureRead;
    FeatureManage; StoreRead; StoreInstall; StoreVerify; PolicyRead; PolicyApply; PolicyRun; AIAsk;
    AIManage; SettingsLicenseRead; SettingsLicenseManage; MigrationRead; MigrationImport;
    MigrationExport; MigrationManage; UsersRead; UsersCreate; UsersUpdate; UsersDelete;
    UsersRolesManage; UsersSessionsRevoke; APIAccessManage; UpdatesManage; RolesManage;
    SettingsSecurityManage; GameServerRead; GameServerCreate; GameServerPower; GameServerConsole;
    GameServerFiles; GameServerConfig; GameServerContent; GameServerBackup; GameServerSchedule;
    GameServerNetwork; GameServerUsers; GameServerReinstall; GameServerDelete; GameServerAdmin;
    CloudflareRead; CloudflareManage; CloudflareCredentials; DDoSRead; DDoSManage; SearchManage;
    AppearanceManage; PermissionsAssign; PermissionsAssignOverride; ComputePrivileged;
    NodeHostAccess; TerminalSessionsManage; LabManage; MigrationPrivileged; BackupGitManage;
    PlatformBackupManage; CloudflareHostTunnel; DockerScriptsAdmin; DeployConfigure;
    StorageProtectedDelete; AutomationSkipTest; UpdatesWipe; SearchHostFiles; IdentityServiceForce;
    AppearanceLimit ].

Definition readonlyDebugPerms : list string :=
  [ ClusterRead; NodeRead; EventsRead; MetricsRead; AlertRead; StorageRead; NetworkRead;
    ComputeRead; FilesRead; BackupRead; PolicyRead; FeatureRead; SettingsLicenseRead;
    SettingsTLSRead; MigrationRead ].

Definition PermissionsForTokenPreset `{CaseTables} (preset : string) : list string :=
  let p := ToLower (TrimSpace preset) in
  if decide (p = TokenPresetReadonlyDebug) then readonlyDebugPerms
  else if decide (p = TokenPresetFullAudit) then readonlyDebugPerms ++ [AuditRead]
  else [].

(** ** [Authorize] *)
Definition grants_one (g permission : string) : bool :=
  bool_decide (g = All \/ g = permission) ||
  (HasSuffix g ".*" && HasPrefix permission (TrimSuffix g "*")).

Definition Authorize (grants : list string) (permission : string) : bool :=
  existsb (fun g => grants_one g permission) grants.

Definition IsLoginRole (name : string) : bool :=
  bool_decide (name = User \/ name = Admin \/ name = IAMManager \/ name = SuperAdmin).

(** The permissions of several roles, each once, in order. *)
Definition add_perm (out : list string) (p : string) : list string :=
  if decide (p ∈ out) then out else out ++ [p].

Definition GrantsForRoles (roles : list string) : list string :=
  fold_left (fun out role => fold_left add_perm (PermissionsForRole role) out) roles [].

(** ** What [Authorize] means *)
Lemma Authorize_spec gs p : Authorize gs p = true <-> exists g, g ∈ gs /\ grants_one g p = true.
Proof.
  unfold Authorize. rewrite existsb_exists. split; intros (g & Hg & ?); exists g; (split; [by apply list_elem_of_In|done]).
Qed.

Lemma grants_one_spec g p :
  grants_one g p = true <->
  g = All \/ g = p \/ exists r t, bytes g = r ++ bytes ".*" /\ bytes p = r ++ bytes "." ++ t.
Proof.
  unfold grants_one. rewrite orb_true_iff, bool_decide_eq_true, andb_true_iff, HasSuffix_spec, HasPrefix_spec. split.
  - intros [[?|?]|[(r & Hr) (t & Ht)]]; [by left|by right; left|right; right]. exists r, t. split; [done|].
    rewrite (bytes_TrimSuffix g "*" (r ++ bytes ".")) in Ht by (by rewrite Hr, <- app_assoc). by rewrite <- app_assoc in Ht.
  - intros [?|[?|(r & t & Hr & Ht)]]; [by left; left|by left; right|right]. split; [eauto|].
    exists t. rewrite (bytes_TrimSuffix g "*" (r ++ bytes ".")) by (by rewrite Hr, <- app_assoc).
    by rewrite <- app_assoc.
Qed.

Lemma app_prefix_cases {A} (r1 r2 t1 t2 : list A) :
  r1 ++ t1 = r2 ++ t2 -> (exists k, r2 = r1 ++ k /\ t1 = k ++ t2) \/ (exists k, r1 = r2 ++ k /\ t2 = k ++ t1).
Proof.
  revert r2. induction r1 as [|a r1 IH]; intros [|b r2] E; cbn in E.
  - left. by exists [].
  - left. by exists (b :: r2).
  - right. exists (a :: r1). by rewrite <- E.
  - injection E as -> E. destruct (IH r2 E) as [(k & -> & ->)|(k & -> & ->)]; [left|right]; by exists k.
Qed.

(** A grant that covers another grant covers everything that one covers. *)
Lemma grants_one_trans g e p : grants_one g e = true -> grants_one e p = true -> grants_one g p = true.
Proof.
  rewrite !grants_one_spec. intros [->|[->|(r & t & Hg & He)]] H2; [by left|done|].
  destruct H2 as [->|[->|(r2 & t2 & He2 & Hp)]]; [|right; right; by exists r, t|].
  - exfalso. cbn in He. destruct r as [|a [|b r]]; cbn in He; discriminate He.
  - right; right. rewrite He in He2.
    destruct (app_prefix_cases _ _ _ _ He2) as [(k & -> & Hk)|(k & -> & Hk)].
    + destruct k as [|a k]; cbn in Hk.
      * exists r, t2. split; [done|]. by rewrite app_nil_r in Hp.
      * injection Hk as <- Hk. exists r, (k ++ bytes "." ++ t2). split; [done|]. rewrite Hp, <- !app_assoc. done.
    + destruct k as [|a [|b k]]; cbn in Hk; [|injection Hk as <- Hk; discriminate Hk|].
      * exists r2, t2. rewrite app_nil_r in *. done.
      * injection Hk as <- <- Hk. by destruct k.
Qed.

Lemma Authorize_trans gs e p : Authorize gs e = true -> grants_one e p = true -> Authorize gs p = true.
Proof.
  rewrite !Authorize_spec. intros (g & Hg & H1) H2. exists g. split; [done|]. by eapply grants_one_trans.
Qed.

Lemma Authorize_app gs hs p : Authorize (gs ++ hs) p = Authorize gs p || Authorize hs p.
Proof. apply existsb_app. Qed.

(** ** Unions of roles *)
Lemma add_perm_in out p q : q ∈ add_perm out p <-> q ∈ out \/ q = p.
Proof. unfold add_perm. case_decide; [|set_solver]. split; [by left|by intros [?| ->]]. Qed.

Lemma add_perms_in ps out q : q ∈ fold_left add_perm ps out <-> q ∈ out \/ q ∈ ps.
Proof.
  revert out. induction ps as [|p ps IH]; intros out; cbn [fold_left]; [set_solver|].
  rewrite IH, add_perm_in. set_solver.
Qed.

Lemma add_perms_NoDup ps out : NoDup out -> NoDup (fold_left add_perm ps out).
Proof.
  revert out. induction ps as [|p ps IH]; intros out H; cbn [fold_left]; [done|]. apply IH. unfold add_perm.
  case_decide; [done|]. apply NoDup_app. split_and!; [done|set_solver|apply NoDup_singleton].
Qed.

Lemma union_roles_in (f : string -> list string) roles out q :
  q ∈ fold_left (fun out role => fold_left add_perm (f role) out) roles out <->
  q ∈ out \/ exists role, role ∈ roles /\ q ∈ f role.
Proof.
  revert out. induction roles as [|r roles IH]; intros out; cbn [fold_left]; [set_solver|].
  rewrite IH, add_perms_in. set_solver.
Qed.

Lemma GrantsForRoles_in roles q : q ∈ GrantsForRoles roles <-> exists role, role ∈ roles /\ q ∈ PermissionsForRole role.
Proof. unfold GrantsForRoles. rewrite union_roles_in. set_solver. Qed.

(** ** The catalogue *)

(** Without wildcards, [Authorize] is membership. *)
Definition plain (gs : list string) : bool := forallb (fun g => negb (bool_decide (g = All)) && negb (HasSuffix g ".*")) gs.

Lemma Authorize_plain gs p : plain gs = true -> Authorize gs p = true <-> p ∈ gs.
Proof.
  intros Hp. rewrite Authorize_spec. split; [|intros H; exists p; split; [done|]; by apply grants_one_spec; auto].
  intros (g & Hg & H). unfold plain in Hp. rewrite forallb_forall in Hp.
  specialize (Hp g (proj1 (list_elem_of_In _ _) Hg)). apply andb_true_iff in Hp as [H1 H2].
  apply negb_true_iff, bool_decide_eq_false in H1. apply negb_true_iff in H2. unfold grants_one in H.
  rewrite H2, orb_false_r in H. apply bool_decide_eq_true in H as [?|<-]; done.
Qed.

Lemma Authorize_all p : Authorize [All] p = true.
Proof. apply Authorize_spec. exists All. split; [by left|]. apply grants_one_spec. auto. Qed.

Definition subset (l k : list string) : bool := forallb (fun p => bool_decide (p ∈ k)) l.

Lemma Authorize_subset l k p : plain l = true -> plain k = true -> subset l k = true -> Authorize l p = true -> Authorize k p = true.
Proof.
  intros Hl Hk Hs. rewrite !Authorize_plain by done. unfold subset in Hs. rewrite forallb_forall in Hs. intros Hp.
  apply list_elem_of_In in Hp. specialize (Hs p Hp). by apply bool_decide_eq_true in Hs.
Qed.

(** What the roles' summaries reserve. *)
Definition adminReserved : list string :=
  [ UsersRead; UsersCreate; UsersUpdate; UsersDelete; UsersRolesManage; UsersSessionsRevoke; RolesManage;
    SettingsLicenseManage; AuditRead; SettingsSecurityManage; PermissionsAssign; PermissionsAssignOverride;
    ApprovalsView; ApprovalsDecide; SecretReveal; ClusterDestroy; All ].
Definition iamReserved : list string :=
  [ PermissionsAssignOverride; ApprovalsView; ApprovalsDecide; SecretReveal; ClusterDestroy;
    SettingsLicenseManage; SettingsSecurityManage; NodeHostAccess; ComputePrivileged; UpdatesWipe; All ].

Definition readOnly (p : string) : bool := HasSuffix p ".read".

(** The built-in roles are ordered by what they may do (User, Admin, IAM Manager,
    SuperAdmin); Admin and IAM Manager hold none of the permissions reserved above
    them; the role editor's list has every permission of these roles once, and neither
    "*" nor the approvals permissions; the read-only token preset holds nothing but
    read permissions. *)
Theorem catalogue_ok `{CaseTables} :
  (forall p, Authorize userPerms p = true -> Authorize adminPerms p = true) /\
  (forall p, Authorize adminPerms p = true -> Authorize (PermissionsForRole IAMManager) p = true) /\
  (forall p, Authorize (PermissionsForRole SuperAdmin) p = true) /\
  (forall p, p ∈ adminReserved -> Authorize adminPerms p = false) /\
  (forall p, p ∈ iamReserved -> Authorize (PermissionsForRole IAMManager) p = false) /\
  (forall p, p ∈ PermissionsForRole IAMManager -> p ∈ AllPermissions) /\
  (NoDup AllPermissions /\ All ∉ AllPermissions /\ ApprovalsView ∉ AllPermissions /\ ApprovalsDecide ∉ AllPermissions) /\
  (forall preset p, ToLower (TrimSpace preset) = TokenPresetReadonlyDebug ->
     Authorize (PermissionsForTokenPreset preset) p = true -> readOnly p = true).
Proof.
  assert (Hn : forall l gs, forallb (fun p => negb (Authorize gs p)) l = true -> forall p, p ∈ l -> Authorize gs p = false).
  { intros l gs Hf p Hp. rewrite forallb_forall in Hf. apply negb_true_iff, Hf, list_elem_of_In, Hp. }
  split_and!.
  - intros p. by apply Authorize_subset; vm_compute.
  - intros p. by apply Authorize_subset; vm_compute.
  - apply Authorize_all.
  - apply Hn. by vm_compute.
  - apply Hn. by vm_compute.
  - intros p Hp. assert (Hs : subset (PermissionsForRole IAMManager) AllPermissions = true) by by vm_compute.
    unfold subset in Hs. rewrite forallb_forall in Hs. apply list_elem_of_In in Hp.
    specialize (Hs p Hp). by apply bool_decide_eq_true in Hs.
  - apply (bool_decide_unpack _). by vm_compute.
  - apply (bool_decide_unpack _). by vm_compute.
  - apply (bool_decide_unpack _). by vm_compute.
  - apply (bool_decide_unpack _). by vm_compute.
  - intros preset p E. unfold PermissionsForTokenPreset. rewrite E, decide_True by done.
    rewrite Authorize_plain by by vm_compute. intros Hp.
    assert (Hr : forallb readOnly readonlyDebugPerms = true) by by vm_compute.
    rewrite forallb_forall in Hr. by apply Hr, list_elem_of_In.
Qed.
