(* ===== verification/Access.v ===== *)
(** * Access control ([src/internal/httpapi]: [iam_access.go], [iam_root.go], [resource_access.go],
      the principal of [server.go] and the group handlers of [phase13.go])

    Who holds which permission, who may act on whom, and the handlers that change it.
    The store is the in-memory one of [src/internal/appdb]; one cluster; a handler is
    a function from the store to a refusal or the next store.  The role and grant
    caches (dropped by the handlers that change them), audit lines, the cluster-writer
    check and JSON are not modelled. *)
From stdpp Require Import sorting.
From S2P Require Export Rbac.

(** ** Data *)
Record RoleDef := mkRole {
  rdName : string; rdTitle : string; rdSummary : string; rdPermissions : list string; rdRank : Z;
  rdBuiltIn : bool; rdLogin : bool; rdCustomized : bool }.

Record Account := mkAccount { uID : string; uService : bool; uCreated : Z }.

Record resourceGrant := mkGrant {
  gID : string; gSubjectKind : string; gSubjectID : string; gResourceKind : string; gResourceID : string;
  gPermissions : list string }.

Record Store := mkStore {
  users : list Account;                         (* in ListUsers order *)
  roles : gmap string (list string);            (* Memory.roles *)
  roleMeta : gmap string RoleDef;               (* Memory.roleMeta *)
  binds : gmap string (list string);
  groups : gset string;
  groupMembers : gmap string (list string);
  groupRoles : gmap string (list string);
  rootUser : string; approvalsAccess : gmap string (list string);   (* IAMSettings *)
  accessDoc : list resourceGrant }.

Record principal := mkPrincipal {
  pID : string; pRoles : list string; pGrants : list string; pScoped : bool; pBase : list string }.

Inductive refusal := BadRequest | Forbidden | NotFound.

Definition LocalRootUserID : string := "local-root".

(** ** Strings *)
Definition containsString (items : list string) (want : string) : bool := bool_decide (want ∈ items).

Definition unique_step (out : list string) (v : string) : list string :=
  let v := TrimSpace v in if decide (v = ""%string) then out else add_perm out v.
Definition uniqueStrings (l : list string) : list string := fold_left unique_step l [].

(** ** The in-memory store *)
Definition builtinRoleDefaults (name : string) : Z * bool * bool * string :=
  if decide (name = "superadmin"%string) then (0, true, true, "SuperAdmin"%string)
  else if decide (name = "iam-manager"%string) then (1, true, true, "IAM Manager"%string)
  else if decide (name = "admin"%string) then (2, true, true, "Admin"%string)
  else if decide (name = "automation"%string) then (3, true, false, "Automation"%string)
  else if decide (name = "user"%string) then (4, true, true, "User"%string)
  else (100, false, true, name).

(** One entry of [ListRoleDefs]. *)
Definition roleDef (w : Store) (name : string) (perms : list string) : RoleDef :=
  match roleMeta w !! name with
  | Some d => mkRole name (rdTitle d) (rdSummary d) perms (rdRank d) (rdBuiltIn d) (rdLogin d) (rdCustomized d)
  | None => let '(rank, builtin, login, title) := builtinRoleDefaults name in
            mkRole name title "" perms rank builtin login false
  end.

Definition role_before (a b : RoleDef) : Prop :=
  rdRank a < rdRank b \/ (rdRank a = rdRank b /\ String.le (rdName a) (rdName b)).
#[export] Instance role_before_dec a b : Decision (role_before a b).
Proof. unfold role_before. apply _. Defined.

Definition ListRoleDefs (w : Store) : list RoleDef :=
  merge_sort role_before (map (fun p => roleDef w p.1 p.2) (map_to_list (roles w))).

Definition withRoles (w : Store) (r : gmap string (list string)) (m : gmap string RoleDef) : Store :=
  mkStore (users w) r m (binds w) (groups w) (groupMembers w) (groupRoles w) (rootUser w) (approvalsAccess w) (accessDoc w).
Definition withBinds (w : Store) (b : gmap string (list string)) : Store :=
  mkStore (users w) (roles w) (roleMeta w) b (groups w) (groupMembers w) (groupRoles w) (rootUser w) (approvalsAccess w) (accessDoc w).
Definition withGroups (w : Store) (g : gset string) (m r : gmap string (list string)) : Store :=
  mkStore (users w) (roles w) (roleMeta w) (binds w) g m r (rootUser w) (approvalsAccess w) (accessDoc w).
Definition withDoc (w : Store) (d : list resourceGrant) : Store :=
  mkStore (users w) (roles w) (roleMeta w) (binds w) (groups w) (groupMembers w) (groupRoles w) (rootUser w) (approvalsAccess w) d.

Definition SaveRoleDef (w : Store) (d : RoleDef) : Store :=
  let key := rdName d in
  let d := match roleMeta w !! key with
           | Some prev => mkRole key (rdTitle d) (rdSummary d) (rdPermissions d) (rdRank prev) (rdBuiltIn d) (rdLogin d) (rdCustomized d)
           | None => match roles w !! key with
                     | Some _ => let '(rank, builtin, _, _) := builtinRoleDefaults key in
                                 mkRole key (rdTitle d) (rdSummary d) (rdPermissions d) rank builtin (rdLogin d) (rdCustomized d)
                     | None => d
                     end
           end in
  withRoles w (<[key := rdPermissions d]> (roles w)) (<[key := d]> (roleMeta w)).

Definition removeString (l : list string) (v : string) : list string := filter (fun x => x <> v) l.

Definition DeleteRoleDef (w : Store) (name : string) : Store :=
  mkStore (users w) (delete name (roles w)) (delete name (roleMeta w))
    ((fun rs => removeString rs name) <$> binds w) (groups w) (groupMembers w)
    ((fun rs => removeString rs name) <$> groupRoles w) (rootUser w) (approvalsAccess w) (accessDoc w).

Definition order_step (m : gmap string RoleDef * Z) (n : string) : gmap string RoleDef * Z :=
  let d := match m.1 !! n with
           | Some d => d
           | None => let '(_, builtin, login, title) := builtinRoleDefaults n in mkRole n title "" [] 0 builtin login false
           end in
  (<[n := mkRole (rdName d) (rdTitle d) (rdSummary d) (rdPermissions d) m.2 (rdBuiltIn d) (rdLogin d) (rdCustomized d)]> m.1, m.2 + 1).
Definition SetRoleOrder (w : Store) (names : list string) : Store :=
  withRoles w (roles w) (fold_left order_step names (roleMeta w, 0)).1.

Definition BindRole (w : Store) (user role : string) : Store :=
  let cur := default [] (binds w !! user) in
  if decide (role ∈ cur) then w else withBinds w (<[user := cur ++ [role]]> (binds w)).

Definition ListGroupMembers (w : Store) (g : string) : list string :=
  if decide (g ∈ groups w) then default [] (groupMembers w !! g) else [].
Definition ListGroupRoles (w : Store) (g : string) : list string :=
  if decide (g ∈ groups w) then default [] (groupRoles w !! g) else [].

(** A nil argument leaves that side alone. *)
Definition SetGroup (w : Store) (g : string) (members rs : option (list string)) : Store :=
  withGroups w (groups w)
    (match members with Some m => <[g := m]> (groupMembers w) | None => groupMembers w end)
    (match rs with Some r => <[g := r]> (groupRoles w) | None => groupRoles w end).

(** [UserRoles]: bound directly, then through each group the user is in. *)
Definition UserRoles (w : Store) (user : string) : list string :=
  default [] (binds w !! user) ++
  flat_map (fun p : string * list string =>
    flat_map (fun uid => if decide (uid = user) then default [] (groupRoles w !! p.1) else []) p.2)
    (map_to_list (groupMembers w)).

Definition GetUser (w : Store) (id : string) : option Account := List.find (fun u => bool_decide (uID u = id)) (users w).

(** ** Ranks *)
Definition noRank : Z := Z.shiftl 1 20.

Definition rankOf (defs : list RoleDef) (rs : list string) : Z :=
  fold_left (fun best r =>
    fold_left (fun best d => if decide (rdName d = r /\ rdRank d < best) then rdRank d else best) defs best) rs noRank.

Definition superAdminRank (defs : list RoleDef) : Z :=
  match List.find (fun d => bool_decide (rdName d = SuperAdmin)) defs with Some d => rdRank d | None => 0 end.

Definition rolesAboveSuperAdmin (defs : list RoleDef) : list string :=
  map rdName (filter (fun d => rdRank d < superAdminRank defs /\ rdName d <> SuperAdmin) defs).

Definition isOwner (p : principal) : bool := containsString (pRoles p) SuperAdmin.

Definition older (a b : Account) : bool :=
  bool_decide (uCreated a < uCreated b) || (bool_decide (uCreated a = uCreated b) && String.ltb (uID a) (uID b)).

Definition root_step (w : Store) (best : option Account) (u : Account) : option Account :=
  if uService u then best
  else if negb (containsString (UserRoles w (uID u)) SuperAdmin) then best
  else match best with
       | None => Some u
       | Some b => if bool_decide (uID b = ""%string) || older u b then Some u else best
       end.

Definition rootUserID (w : Store) : string :=
  if decide (rootUser w <> ""%string /\ GetUser w (rootUser w) <> None) then rootUser w
  else match fold_left (root_step w) (users w) None with Some u => uID u | None => ""%string end.

Definition isRoot (w : Store) (p : principal) : bool :=
  bool_decide (pID p = LocalRootUserID) || (isOwner p && bool_decide (pID p = rootUserID w)).

Definition myRankFor (w : Store) (p : principal) : Z :=
  if isRoot w p then - noRank
  else if isOwner p then superAdminRank (ListRoleDefs w) - 1
  else rankOf (ListRoleDefs w) (pRoles p).

Definition mayActOnUser (w : Store) (p : principal) (target : string) : bool :=
  if decide (target = pID p \/ pID p = LocalRootUserID) then true
  else if decide (rootUserID w <> ""%string /\ target = rootUserID w) then false
  else bool_decide (myRankFor w p < rankOf (ListRoleDefs w) (UserRoles w target)).

Definition mayActOnRole (w : Store) (p : principal) (role : string) : bool :=
  (isOwner p && bool_decide (role = SuperAdmin)) ||
  bool_decide (myRankFor w p < rankOf (ListRoleDefs w) [role]).

Definition isAdminOrAbove (w : Store) (p : principal) : bool :=
  isOwner p || bool_decide (rankOf (ListRoleDefs w) (pRoles p) <= rankOf (ListRoleDefs w) [Admin]).

(** ** Grants *)
Definition approvalsPerms (l : list string) : list string :=
  filter (fun p => p = ApprovalsView \/ p = ApprovalsDecide) l.

Definition findDef (defs : list RoleDef) (name : string) : option RoleDef :=
  List.find (fun d => bool_decide (rdName d = name)) defs.

(** What one role gives, apart from the approvals permissions. *)
Definition rolePerms (w : Store) (role : string) : list string :=
  if decide (role = SuperAdmin \/ role = Automation) then GrantsForRoles [role]
  else match findDef (ListRoleDefs w) role with
       | Some d => if negb (rdBuiltIn d) || rdCustomized d then rdPermissions d else GrantsForRoles [role]
       | None => GrantsForRoles [role]
       end.

Definition grantsForRoles (w : Store) (rs : list string) : list string :=
  let out := fold_left (fun out r => fold_left add_perm (rolePerms w r) out) rs [] in
  fold_left (fun out r => fold_left add_perm (approvalsPerms (default [] (approvalsAccess w !! r))) out) rs out.

Definition grantsForUser (w : Store) (user : string) (rs : list string) : list string :=
  grantsForRoles w (if containsString rs SuperAdmin && bool_decide (user = rootUserID w)
                    then rs ++ rolesAboveSuperAdmin (ListRoleDefs w) else rs).

Definition accessCluster : string := "cluster".
Definition accessWorkload : string := "workload".
Definition accessGameServer : string := "gameserver".
Definition accessDocker : string := "docker".
Definition accessNode : string := "node".
Definition subjectUser : string := "user".
Definition subjectGroup : string := "group".
Definition subjectRole : string := "role".

Definition suggestedPerms (kind : string) : option (list string) :=
  if decide (kind = accessWorkload) then Some
    [ ComputeRead; ComputeLifecycle; ComputeStart; ComputeStop; ComputeConsole; ComputeSnapshot; TerminalOpen;
      FilesRead; FilesDownload; FilesUpload; FilesCreate; FilesModify; FilesDelete; BackupRead; BackupCreate;
      MetricsRead; EventsRead ]
  else if decide (kind = accessGameServer) then Some
    [ GameServerRead; GameServerPower; GameServerConsole; GameServerFiles; GameServerConfig; GameServerContent;
      GameServerBackup; GameServerSchedule; GameServerReinstall ]
  else if decide (kind = accessDocker) then Some [ ComputeRead; ComputeLifecycle; TerminalOpen ]
  else if decide (kind = accessNode) then Some
    [ NodeRead; MetricsRead; EventsRead; TerminalOpen; FilesRead; FilesDownload; FilesUpload; FilesCreate;
      FilesModify; FilesDelete ]
  else None.

(** [readPerm], the zero value for a kind that is not in the map. *)
Definition readPerm (kind : string) : string :=
  if decide (kind = accessWorkload \/ kind = accessDocker) then ComputeRead
  else if decide (kind = accessGameServer) then GameServerRead
  else if decide (kind = accessNode) then NodeRead else "".

Definition baseGrants : list string := [IdentityRead; IdentityMFA].

Definition applies (w : Store) (user : string) (rs : list string) (g : resourceGrant) : bool :=
  bool_decide (gSubjectKind g = subjectUser /\ gSubjectID g = user) ||
  bool_decide (gSubjectKind g = subjectGroup /\ gSubjectID g ∈ groups w /\ user ∈ ListGroupMembers w (gSubjectID g)) ||
  bool_decide (gSubjectKind g = subjectRole /\ gSubjectID g ∈ rs).

Definition subjectGrants (w : Store) (user : string) (rs : list string) : list resourceGrant :=
  if decide (user = ""%string) then [] else filter (fun g => applies w user rs g = true) (accessDoc w).

Definition clusterGrants (w : Store) (user : string) (rs : list string) : list string :=
  flat_map (fun g => if decide (gResourceKind g = accessCluster) then gPermissions g else []) (subjectGrants w user rs).

Definition merge_step (grants : list string) (g : string) : list string :=
  if negb (Authorize grants g) || (bool_decide (g = All) && negb (containsString grants All)) then grants ++ [g] else grants.
Definition mergeGrants (grants extra : list string) : list string := fold_left merge_step extra grants.

(** [asPrincipal]: what a session ([tokenPerms = []]) or a token may do. *)
Definition userGrants (w : Store) (user : string) : list string :=
  let rs := UserRoles w user in
  mergeGrants (mergeGrants (grantsForUser w user rs) (clusterGrants w user rs)) baseGrants.

Definition asPrincipal (w : Store) (user : string) (tokenPerms : list string) : principal :=
  let grants := userGrants w user in
  let grants := match tokenPerms with [] => grants | _ => filter (fun p => Authorize grants p = true) tokenPerms end in
  mkPrincipal user (UserRoles w user) grants false [].

Definition roleGrants (p : principal) : list string := if pScoped p then pBase p else pGrants p.

Section cased.
Context `{CT : CaseTables}.

Definition itemPerms (w : Store) (p : principal) (kind id : string) : list string :=
  flat_map (fun g => if bool_decide (gResourceKind g = kind) && EqualFold (gResourceID g) id then gPermissions g else [])
    (subjectGrants w (pID p) (pRoles p)).

Definition scopedIDs (w : Store) (p : principal) (kind : string) : list string * bool :=
  if Authorize (roleGrants p) (readPerm kind) then ([], false)
  else (flat_map (fun g => if bool_decide (gResourceKind g = kind) && Authorize (gPermissions g) (readPerm kind)
                           then [ToLower (gResourceID g)] else [])
          (subjectGrants w (pID p) (pRoles p)), true).

(** [scopedAllow]; [kind], [id] and [lst] are [routeItem]'s answer for the request. *)
Definition scopedAllow (w : Store) (p : principal) (kind id : string) (lst : bool) (perm : string) : option principal :=
  let allow perms :=
    Some (mkPrincipal (pID p) (pRoles p) (uniqueStrings (roleGrants p ++ perms ++ baseGrants)) true (roleGrants p)) in
  if decide (kind = ""%string) then None
  else if lst then
    if decide (perm <> readPerm kind) then None
    else if decide ((scopedIDs w p kind).1 = []) then None else allow [perm]
  else if decide (id = ""%string) then None
  else let perms := itemPerms w p kind id in
       if Authorize perms perm then allow perms else None.

(** [require]: the principal the handler goes on with. *)
Definition require (w : Store) (p : principal) (kind id : string) (lst : bool) (perm : string) : option principal :=
  if Authorize (pGrants p) perm then Some p else scopedAllow w p kind id lst perm.

(** ** Giving permissions *)
Definition knownPerm (perm : string) : bool :=
  bool_decide (perm = All \/ perm = ApprovalsView \/ perm = ApprovalsDecide) || containsString AllPermissions perm.

Definition assignablePerms : list string := All :: AllPermissions ++ [ApprovalsView; ApprovalsDecide].

Definition accessOwner (p : principal) : bool := isOwner p || bool_decide (pID p = LocalRootUserID).

(** [mayAssign]; [true] is its status 0. *)
Definition mayAssign (w : Store) (p : principal) (kind id : string) (perms : list string) : bool :=
  if existsb (fun perm => bool_decide (perm = All \/ perm = PermissionsAssignOverride) && negb (accessOwner p)) perms then false
  else if accessOwner p || Authorize (pGrants p) PermissionsAssignOverride then true
  else if negb (isAdminOrAbove w p) then false
  else if negb (forallb (Authorize (pGrants p)) perms) then false
  else if decide (kind = subjectUser) then negb (bool_decide (id = pID p)) && mayActOnUser w p id
  else if decide (kind = subjectRole) then negb (containsString (pRoles p) id) && mayActOnRole w p id
  else if decide (kind = subjectGroup) then
    forallb (fun m => negb (bool_decide (m = pID p)) && mayActOnUser w p m) (ListGroupMembers w id)
  else true.

Definition accessSubjectExists (w : Store) (kind id : string) : bool :=
  if decide (kind = subjectGroup) then bool_decide (id ∈ groups w)
  else if decide (kind = subjectRole) then
    existsb (fun d => bool_decide (rdName d = id /\ rdName d <> Automation)) (ListRoleDefs w)
  else match GetUser w id with Some _ => true | None => false end.

(** The display order of permissions on an item. *)
Definition perm_rank (kind perm : string) : nat :=
  match list_find (fun p => p = perm) (default [] (suggestedPerms kind) ++ assignablePerms) with
  | Some (i, _) => i | None => 0%nat end.
Definition perm_before (kind : string) (a b : string) : Prop := (perm_rank kind a <= perm_rank kind b)%nat.
#[export] Instance perm_before_dec kind a b : Decision (perm_before kind a b).
Proof. unfold perm_before. apply _. Defined.

Definition sameGrant (i g : resourceGrant) : bool :=
  if decide (gID i <> ""%string) then bool_decide (gID g = gID i)
  else bool_decide (gSubjectKind g = gSubjectKind i /\ gSubjectID g = gSubjectID i /\ gResourceKind g = gResourceKind i)
       && EqualFold (gResourceID g) (gResourceID i).

Definition last_some {A} (f : A -> bool) (l : list A) : option A :=
  fold_left (fun acc a => if f a then Some a else acc) l None.

(** [putResourceAccess] after [require]; [fresh] is the new grant's id. *)
Definition putResourceAccess (w : Store) (p : principal) (i : resourceGrant) (fresh : string) : result refusal Store :=
  let sid := TrimSpace (gSubjectID i) in
  let kind := if decide (gResourceKind i = ""%string) then accessCluster else gResourceKind i in
  let rid := if decide (kind = accessCluster) then ""%string else TrimSpace (gResourceID i) in
  if decide (gSubjectKind i <> subjectUser /\ gSubjectKind i <> subjectGroup /\ gSubjectKind i <> subjectRole) then Err BadRequest
  else if decide (suggestedPerms kind = None /\ kind <> accessCluster) then Err BadRequest
  else if decide (sid = ""%string \/ (kind <> accessCluster /\ rid = ""%string)) then Err BadRequest
  else if negb (accessSubjectExists w (gSubjectKind i) sid) then Err NotFound
  else if negb (forallb knownPerm (uniqueStrings (gPermissions i))) then Err BadRequest
  else
    let perms := uniqueStrings (gPermissions i) in
    let rp := readPerm kind in
    let perms := if decide (perms <> [] /\ rp <> ""%string /\ Authorize perms rp = false) then rp :: perms else perms in
    let perms := merge_sort (perm_before kind) perms in
    let i := mkGrant (gID i) (gSubjectKind i) sid kind rid perms in
    let next := filter (fun g => sameGrant i g = false) (accessDoc w) in
    let kept := last_some (sameGrant i) (accessDoc w) in
    if decide (gID i <> ""%string /\ kept = None) then Err NotFound
    else if match kept with
            | Some k => negb (bool_decide (gSubjectKind k = gSubjectKind i /\ gSubjectID k = gSubjectID i))
            | None => false end then Err BadRequest
    else
      let check := match kept with Some k => uniqueStrings (perms ++ gPermissions k) | None => perms end in
      if negb (mayAssign w p (gSubjectKind i) sid check) then Err Forbidden
      else
        let g := mkGrant (match kept with Some k => gID k | None => fresh end) (gSubjectKind i) sid kind rid perms in
        Ok (withDoc w (if decide (perms <> []) then next ++ [g] else next)).

Definition deleteResourceAccess (w : Store) (p : principal) (id : string) : result refusal Store :=
  let next := filter (fun g => gID g <> id) (accessDoc w) in
  match last_some (fun g => bool_decide (gID g = id)) (accessDoc w) with
  | None => Err NotFound
  | Some f => if mayAssign w p (gSubjectKind f) (gSubjectID f) (gPermissions f) then Ok (withDoc w next) else Err Forbidden
  end.

(** ** Roles *)

(** [roleNameRe]. *)
Definition role_char (a : ascii) : bool :=
  let z := byteZ a in (97 <=? z) && (z <=? 122) || (48 <=? z) && (z <=? 57) || (z =? 45).
Definition roleNameOK (name : string) : bool :=
  match bytes name with
  | a :: l => (97 <=? byteZ a) && (byteZ a <=? 122) && forallb role_char l &&
              bool_decide (1 <= length l <= 39)%nat
  | [] => false
  end.

Definition role_id_step (st : list ascii * bool) (c : Z) : list ascii * bool :=
  if ((97 <=? c) && (c <=? 122)) || ((48 <=? c) && (c <=? 57)) then (st.1 ++ [chr c], false)
  else if negb st.2 then (st.1 ++ [chr 45], true) else st.

Fixpoint trim_dash (l : list ascii) : list ascii :=
  match l with a :: l' => if byteZ a =? 45 then trim_dash l' else l | [] => [] end.

Definition roleIDFor (title : string) : string :=
  let b := (fold_left role_id_step (runes (ToLower (TrimSpace title))) ([], false)).1 in
  ofBytes (take 40 (rev (trim_dash (rev (trim_dash b))))).

(** [iamSaveRole] after [require]. *)
Definition iamSaveRole (w : Store) (p : principal) (path title summary : string) (perms : list string) (login : option bool)
  : result refusal Store :=
  let name := ToLower (TrimSpace path) in
  if decide (name = SuperAdmin \/ name = Automation) then Err Forbidden
  else if negb (roleNameOK name) then Err BadRequest
  else
    let defs := ListRoleDefs w in
    let existing := last_some (fun d => bool_decide (rdName d = name)) defs in
    let maxRank := fold_left (fun m d => if decide (m < rdRank d) then rdRank d else m) defs 0 in
    if match existing with Some _ => negb (mayActOnRole w p name) | None => false end then Err Forbidden
    else
      let perms := uniqueStrings perms in
      match find (fun perm => negb (containsString AllPermissions perm)
                              || (negb (isOwner p) && negb (Authorize (pGrants p) perm))
                              || (bool_decide (perm = PermissionsAssignOverride) && negb (isOwner p))) perms with
      | Some perm => Err (if containsString AllPermissions perm then Forbidden else BadRequest)
      | None =>
          let title := TrimSpace title in
          let '(rank, builtin, lg, custom) := match existing with
            | Some e => (rdRank e, rdBuiltIn e, rdLogin e, rdBuiltIn e)
            | None => (maxRank + 1, false, true, false) end in
          let lg := match login with Some b => b | None => lg end in
          let title' := if builtin then match existing with Some e => Ok (rdTitle e) | None => Err BadRequest end
                        else if decide (title = ""%string) then Ok name
                        else if decide (roleIDFor title <> name) then Err BadRequest else Ok title in
          match title' with
          | Err e => Err e
          | Ok title => Ok (SaveRoleDef w (mkRole name title (TrimSpace summary) perms rank builtin lg custom))
          end
      end.

(** [iamDeleteRole] after [require]; [reassign] is the query parameter. *)
Definition iamDeleteRole (w : Store) (p : principal) (path reassign : string) : result refusal Store :=
  let name := TrimSpace path in
  if decide (name = SuperAdmin \/ name = Automation) then Err Forbidden
  else if negb (mayActOnRole w p name) then Err Forbidden
  else
    let to := TrimSpace reassign in
    if decide (to <> ""%string /\ to <> name) then
      if negb (mayActOnRole w p to) then Err Forbidden
      else Ok (DeleteRoleDef
                 (fold_left (fun w u => if containsString (UserRoles w (uID u)) name then BindRole w (uID u) to else w) (users w) w)
                 name)
    else Ok (DeleteRoleDef w name).

Definition rank_before (defs : list RoleDef) (a b : string) : Prop := rankOf defs [a] <= rankOf defs [b].
#[export] Instance rank_before_dec defs a b : Decision (rank_before defs a b).
Proof. unfold rank_before. apply _. Defined.

(** The order [iamRoleOrder] stores. *)
Definition roleOrder (w : Store) (p : principal) (names : list string) : list string :=
  let names := uniqueStrings names in
  if isRoot w p then if containsString names SuperAdmin then names else SuperAdmin :: names
  else
    let above := merge_sort (rank_before (ListRoleDefs w)) (rolesAboveSuperAdmin (ListRoleDefs w)) in
    above ++ SuperAdmin :: filter (fun n => n <> SuperAdmin /\ n ∉ above) names.

Definition iamRoleOrder (w : Store) (p : principal) (names : list string) : result refusal Store :=
  if negb (isOwner p) then Err Forbidden
  else if decide (names = []) then Err BadRequest
  else Ok (SetRoleOrder w (roleOrder w p names)).

(** ** Groups *)

(** [iamSaveGroup] after [require]; an absent list is [None]. *)
Definition iamSaveGroup (w : Store) (p : principal) (id : string) (members rs : option (list string)) : result refusal Store :=
  if decide (id ∉ groups w) then Err NotFound
  else if decide (rankOf (ListRoleDefs w) (ListGroupRoles w id) <= myRankFor w p) then Err Forbidden
  else
    let members := uniqueStrings <$> members in
    let rs := uniqueStrings <$> rs in
    if negb (forallb (mayActOnRole w p) (default [] rs)) then Err Forbidden
    else Ok (SetGroup w id members rs).

Definition createGroup (w : Store) (name fresh : string) : result refusal Store :=
  if decide (TrimSpace name = ""%string) then Err BadRequest
  else Ok (withGroups w ({[fresh]} ∪ groups w) (groupMembers w) (groupRoles w)).

(** [addGroupMember] after [require]. *)
Definition addGroupMember (w : Store) (id user : string) : result refusal Store :=
  if decide (user = ""%string) then Err BadRequest
  else if decide (id ∉ groups w) then Err NotFound
  else if decide (GetUser w user = None) then Err NotFound
  else let cur := default [] (groupMembers w !! id) in
       Ok (if decide (user ∈ cur) then w else SetGroup w id (Some (cur ++ [user])) None).

(** [bindGroupRole] after [require]. *)
Definition bindGroupRole (w : Store) (id role : string) : result refusal Store :=
  let role := TrimSpace role in
  if decide (role = ""%string) then Err BadRequest
  else if decide (role <> Admin /\ role <> User) then Err Forbidden
  else if decide (id ∉ groups w) then Err NotFound
  else Ok (SetGroup w id None (Some (default [] (groupRoles w !! id) ++ [role]))).
End cased.
