(* ===== verification/AccessProps.v ===== *)
(** * What access control guarantees

    Tokens and item grants stay inside what their owner was given; giving permissions
    and editing roles never creates a permission the giver does not hold; the hierarchy
    is antisymmetric; and where the group handlers break this. *)
From stdpp Require Import sorting.
From S2P Require Export Access.

(** ** Merging grants *)
Lemma merge_step_spec gs g p : Authorize (merge_step gs g) p = Authorize gs p || grants_one g p.
Proof.
  unfold merge_step. destruct (negb (Authorize gs g) || _) eqn:E.
  - rewrite Authorize_app. cbn. by rewrite orb_false_r.
  - apply orb_false_iff in E as [E%negb_false_iff _].
    destruct (grants_one g p) eqn:Eg; [|by rewrite orb_false_r]. by rewrite (Authorize_trans gs g p).
Qed.

Lemma mergeGrants_spec gs ex p : Authorize (mergeGrants gs ex) p = Authorize gs p || Authorize ex p.
Proof.
  unfold mergeGrants. revert gs. induction ex as [|g ex IH]; intros gs; cbn [fold_left]; [cbn; by rewrite orb_false_r|].
  rewrite IH, merge_step_spec. cbn. by rewrite orb_assoc.
Qed.

Lemma Authorize_in gs g p : g ∈ gs -> grants_one g p = true -> Authorize gs p = true.
Proof. intros. apply Authorize_spec. eauto. Qed.

Lemma grants_one_refl p : grants_one p p = true.
Proof. apply grants_one_spec. auto. Qed.

(** What a user may do: by a role, by a grant made everywhere, or as anyone signed in. *)
Lemma userGrants_spec w u p :
  Authorize (userGrants w u) p =
    Authorize (grantsForUser w u (UserRoles w u)) p || Authorize (clusterGrants w u (UserRoles w u)) p || Authorize baseGrants p.
Proof. unfold userGrants. by rewrite !mergeGrants_spec. Qed.

Lemma grantsForRoles_in w rs q :
  q ∈ grantsForRoles w rs <->
  exists r, r ∈ rs /\ (q ∈ rolePerms w r \/ q ∈ approvalsPerms (default [] (approvalsAccess w !! r))).
Proof.
  unfold grantsForRoles.
  rewrite (union_roles_in (fun r => approvalsPerms (default [] (approvalsAccess w !! r)))), (union_roles_in (rolePerms w)).
  set_solver.
Qed.

(** ** Role definitions *)
Lemma ListRoleDefs_in w d : d ∈ ListRoleDefs w <-> exists name perms, roles w !! name = Some perms /\ d = roleDef w name perms.
Proof.
  unfold ListRoleDefs. rewrite merge_sort_Permutation, list_elem_of_fmap. split.
  - intros ([n ps] & -> & H%elem_of_map_to_list). eauto.
  - intros (n & ps & H & ->). exists (n, ps). split; [done|]. by apply elem_of_map_to_list.
Qed.

Lemma roleDef_name w n ps : rdName (roleDef w n ps) = n.
Proof. unfold roleDef. destruct (roleMeta w !! n); [done|]. by destruct (builtinRoleDefaults n) as [[[? ?] ?] ?]. Qed.

Lemma roleDef_perms w n ps : rdPermissions (roleDef w n ps) = ps.
Proof. unfold roleDef. destruct (roleMeta w !! n); [done|]. by destruct (builtinRoleDefaults n) as [[[? ?] ?] ?]. Qed.

Lemma find_unique (l : list RoleDef) n (o : option RoleDef) :
  (forall d, d ∈ l -> rdName d = n -> o = Some d) -> (o = None -> True) ->
  (forall d, o = Some d -> d ∈ l /\ rdName d = n) -> findDef l n = o.
Proof.
  intros H1 _ H2. unfold findDef. destruct (List.find _ l) as [d|] eqn:E.
  - apply List.find_some in E as [Hin Hn]. apply bool_decide_eq_true in Hn. symmetry. apply H1; [|done]. by apply list_elem_of_In.
  - destruct o as [d|]; [|done]. destruct (H2 d eq_refl) as [Hin Hn].
    pose proof (List.find_none _ _ E d (proj1 (list_elem_of_In _ _) Hin)) as Hf. cbn in Hf.
    rewrite bool_decide_true in Hf; done.
Qed.

Lemma findDef_spec w n : findDef (ListRoleDefs w) n = roleDef w n <$> roles w !! n.
Proof.
  apply find_unique; [|done|].
  - intros d (m & ps & Hm & ->)%ListRoleDefs_in. rewrite roleDef_name. intros ->. by rewrite Hm.
  - intros d Hd. destruct (roles w !! n) as [ps|] eqn:E; [|done]. injection Hd as <-.
    split; [|apply roleDef_name]. apply ListRoleDefs_in. eauto.
Qed.

Lemma superAdminRank_spec w :
  superAdminRank (ListRoleDefs w) = match roles w !! SuperAdmin with Some ps => rdRank (roleDef w SuperAdmin ps) | None => 0 end.
Proof.
  unfold superAdminRank. pose proof (findDef_spec w SuperAdmin) as H. unfold findDef in H. rewrite H.
  by destruct (roles w !! SuperAdmin).
Qed.

Lemma rolesAbove_in w r :
  r ∈ rolesAboveSuperAdmin (ListRoleDefs w) <->
  r <> SuperAdmin /\ exists ps, roles w !! r = Some ps /\ rdRank (roleDef w r ps) < superAdminRank (ListRoleDefs w).
Proof.
  unfold rolesAboveSuperAdmin. rewrite list_elem_of_fmap. split.
  - intros (d & -> & [[Hr Hn] Hd]%list_elem_of_filter). apply ListRoleDefs_in in Hd as (n & ps & Hps & ->).
    rewrite roleDef_name in *. eauto.
  - intros (Hn & ps & Hps & Hr). exists (roleDef w r ps). rewrite roleDef_name. split; [done|].
    apply list_elem_of_filter. rewrite roleDef_name. split; [done|]. apply ListRoleDefs_in. eauto.
Qed.

(** ** What a token holds *)

(** C19: a token never holds more than the user it belongs to: every permission it
    answers for is one the user's roles, cluster-wide grants or base grants give, and
    each of its grants is one it was made with; a session has exactly the user's. *)
Theorem token_confined w u tokenPerms p :
  let t := asPrincipal w u tokenPerms in
  (Authorize (pGrants t) p = true -> Authorize (userGrants w u) p = true) /\
  (tokenPerms <> [] -> forall g, g ∈ pGrants t -> g ∈ tokenPerms) /\
  (tokenPerms = [] -> pGrants t = userGrants w u) /\
  (Authorize (userGrants w u) p = true <->
     Authorize (grantsForUser w u (UserRoles w u)) p = true \/
     Authorize (clusterGrants w u (UserRoles w u)) p = true \/ Authorize baseGrants p = true).
Proof.
  cbv zeta. split_and!.
  - unfold asPrincipal. cbn [pGrants]. destruct tokenPerms as [|x l]; [done|].
    rewrite (Authorize_spec (filter _ _)). intros (g & [Hg _]%list_elem_of_filter & Ho). by eapply Authorize_trans.
  - intros Hne g. unfold asPrincipal. cbn [pGrants]. destruct tokenPerms as [|x l]; [done|]. by intros [_ ?]%list_elem_of_filter.
  - by intros ->.
  - rewrite userGrants_spec, !orb_true_iff. tauto.
Qed.

(** ** Giving permissions *)
Section cased.
Context `{CT : CaseTables}.

Lemma existsb_false {A} (f : A -> bool) l : existsb f l = false <-> forall x, x ∈ l -> f x = false.
Proof using Type.
  induction l as [|a l IH]; cbn; [split; [by intros _ ? ?%not_elem_of_nil|done]|].
  rewrite orb_false_iff, IH. set_solver.
Qed.

Lemma forallb_in {A} (f : A -> bool) l : forallb f l = true <-> forall x, x ∈ l -> f x = true.
Proof using Type.
  rewrite forallb_forall. split; intros H x Hx; apply H; by apply list_elem_of_In.
Qed.

(** What [mayAssign] lets through: never "*" nor the override from anyone but a
    SuperAdmin; without the override only what the giver holds, to a subject below. *)
Lemma mayAssign_spec w p kind id perms :
  mayAssign w p kind id perms = true -> accessOwner p = false ->
  (forall q, q ∈ perms -> q <> All /\ q <> PermissionsAssignOverride) /\
  (Authorize (pGrants p) PermissionsAssignOverride = false ->
   (forall q, q ∈ perms -> Authorize (pGrants p) q = true) /\
   (kind = subjectUser -> id <> pID p /\ mayActOnUser w p id = true) /\
   (kind = subjectRole -> id ∉ pRoles p /\ mayActOnRole w p id = true) /\
   (kind = subjectGroup -> forall m, m ∈ ListGroupMembers w id -> m <> pID p /\ mayActOnUser w p m = true)).
Proof using Type.
  unfold mayAssign. intros H Ho. rewrite Ho in H. cbn [negb orb] in H.
  destruct (existsb _ perms) eqn:Ex; [done|]. pose proof (proj1 (existsb_false _ _) Ex) as Ex'. split.
  - intros q Hq. specialize (Ex' q Hq). cbv beta in Ex'. rewrite andb_true_r in Ex'. apply bool_decide_eq_false in Ex'. tauto.
  - intros Hov. rewrite Hov in H. destruct (isAdminOrAbove w p); [|done]. cbn [negb] in H.
    destruct (forallb _ perms) eqn:Ea; [|done]. cbn [negb] in H. pose proof (proj1 (forallb_in _ _) Ea) as Hall.
    split_and!; [done|intros -> |intros -> |intros -> ].
    + rewrite decide_True in H by done. apply andb_true_iff in H as [H1 H2].
      apply negb_true_iff, bool_decide_eq_false in H1. done.
    + rewrite decide_False, decide_True in H by done. apply andb_true_iff in H as [H1 H2].
      apply negb_true_iff, bool_decide_eq_false in H1. done.
    + rewrite !decide_False, decide_True in H by done. intros m Hm. pose proof (proj1 (forallb_in _ _) H m Hm) as Hx.
      apply andb_true_iff in Hx as [H1 H2]. apply negb_true_iff, bool_decide_eq_false in H1. done.
Qed.

(** Known permissions are plain names that [TrimSpace] leaves alone. *)
Definition known : list string := All :: AllPermissions ++ [ApprovalsView; ApprovalsDecide].

Lemma knownPerm_in q : knownPerm q = true <-> q ∈ known.
Proof using Type.
  unfold knownPerm, known, containsString. rewrite orb_true_iff, !bool_decide_eq_true. set_solver.
Qed.

Lemma known_trim q : q ∈ known -> TrimSpace q = q.
Proof using Type.
  assert (H : forallb (fun q => bool_decide (TrimSpace q = q)) known = true) by (vm_compute; reflexivity).
  intros Hq. pose proof (proj1 (forallb_in _ _) H q Hq) as E. cbv beta in E. by apply bool_decide_eq_true in E.
Qed.

Lemma known_plain q : q ∈ known -> q <> All -> HasSuffix q ".*" = false.
Proof using Type.
  assert (H : forallb (fun q => bool_decide (q = All) || negb (HasSuffix q ".*")) known = true) by (vm_compute; reflexivity).
  intros Hq Hne. pose proof (proj1 (forallb_in _ _) H q Hq) as E. cbv beta in E. rewrite bool_decide_false in E by done. by apply negb_true_iff.
Qed.

Lemma known_nonempty q : q ∈ known -> q <> ""%string.
Proof using Type.
  assert (H : forallb (fun q => negb (bool_decide (q = ""%string))) known = true) by (vm_compute; reflexivity).
  intros Hq. pose proof (proj1 (forallb_in _ _) H q Hq) as E. cbv beta in E. by apply negb_true_iff, bool_decide_eq_false in E.
Qed.

Lemma readPerm_known kind : readPerm kind <> ""%string -> readPerm kind ∈ known.
Proof using Type.
  unfold readPerm. repeat case_decide; intros ?; try done; apply (bool_decide_unpack _); vm_compute; reflexivity.
Qed.

Lemma uniqueStrings_in l q : q ∈ uniqueStrings l <-> q <> ""%string /\ exists v, v ∈ l /\ TrimSpace v = q.
Proof using Type.
  unfold uniqueStrings. assert (H : forall out, q ∈ fold_left unique_step l out <->
    q ∈ out \/ (q <> ""%string /\ exists v, v ∈ l /\ TrimSpace v = q)).
  { induction l as [|v l IH]; intros out; cbn [fold_left]; [set_solver|]. rewrite IH. unfold unique_step. cbv zeta.
    case_decide as Hv; [set_solver|]. rewrite add_perm_in. set_solver. }
  rewrite H. set_solver.
Qed.

Lemma uniqueStrings_keep l q : q ∈ known -> q ∈ l -> q ∈ uniqueStrings l.
Proof using Type. intros Hk Hq. apply uniqueStrings_in. split; [by apply known_nonempty|]. exists q. split; [done|by apply known_trim]. Qed.

(** A successful put: what the new document holds, and what was checked. *)
Lemma put_inv w p i fresh w' :
  putResourceAccess w p i fresh = Ok w' ->
  exists doc perms check,
    w' = withDoc w doc /\
    (forall g, g ∈ doc -> g ∈ accessDoc w \/
       (gSubjectKind g = gSubjectKind i /\ gSubjectID g = TrimSpace (gSubjectID i) /\ gPermissions g = perms)) /\
    (forall q, q ∈ perms -> q ∈ known /\ q ∈ check) /\
    mayAssign w p (gSubjectKind i) (TrimSpace (gSubjectID i)) check = true.
Proof using Type.
  unfold putResourceAccess. cbv zeta. intros H.
  repeat (case_decide; [discriminate H|]). destruct (accessSubjectExists _ _ _); [|discriminate H]. cbn [negb] in H.
  destruct (forallb knownPerm _) eqn:Hk; [|discriminate H]. cbn [negb] in H.
  set (kind := if decide (gResourceKind i = ""%string) then accessCluster else gResourceKind i) in *.
  set (perms := merge_sort (perm_before kind) _) in H.
  assert (Hperms : forall q, q ∈ perms -> q ∈ known).
  { intros q Hq. subst perms. rewrite merge_sort_Permutation in Hq.
    assert (Hu : forall q, q ∈ uniqueStrings (gPermissions i) -> q ∈ known).
    { intros q' Hq'. apply knownPerm_in. by apply (proj1 (forallb_in _ _) Hk). }
    case_decide as Hd; [|by apply Hu]. apply elem_of_cons in Hq as [->|Hq]; [|by apply Hu].
    apply readPerm_known. tauto. }
  clearbody perms. set (j := mkGrant (gID i) _ _ _ _ _) in H.
  set (kept := last_some _ _) in H. case_decide; [discriminate H|].
  destruct (match kept with Some _ => _ | None => false end); [discriminate H|].
  set (check := match kept with Some _ => _ | None => _ end) in H.
  destruct (mayAssign w p _ _ check) eqn:Hm; [|discriminate H]. cbn [negb] in H. injection H as <-.
  eexists _, perms, check. split; [reflexivity|]. split_and!; [|intros q Hq; split; [by apply Hperms|]|done].
  - intros g Hg. case_decide; [apply elem_of_app in Hg as [Hg|Hg]|];
      try (apply list_elem_of_filter in Hg as [_ Hg]; by left).
    apply list_elem_of_singleton in Hg as ->. right. by split_and!.
  - subst check. destruct kept as [k|]; [|done]. apply uniqueStrings_keep; [by apply Hperms|]. apply elem_of_app. by left.
Qed.

Lemma clusterGrants_mono w doc perms u rs q :
  (forall g, g ∈ doc -> g ∈ accessDoc w \/ gPermissions g = perms) ->
  q ∈ clusterGrants (withDoc w doc) u rs -> q ∈ clusterGrants w u rs \/ q ∈ perms.
Proof using Type.
  intros Hd. unfold clusterGrants, subjectGrants. case_decide; [by left|].
  change (applies (withDoc w doc) u rs) with (applies w u rs). cbn [accessDoc withDoc].
  rewrite !list_elem_of_In, !in_flat_map. intros (g & Hg & Hq). apply list_elem_of_In, list_elem_of_filter in Hg as [Ha Hg].
  destruct (Hd g Hg) as [Hold|<-]; [left|right].
  - exists g. split; [|done]. by apply list_elem_of_In, list_elem_of_filter.
  - case_decide; [done|by destruct Hq].
Qed.


(** ** Editing roles *)
Lemma maxRank_spec (defs : list RoleDef) m :
  let r := fold_left (fun m d => if decide (m < rdRank d) then rdRank d else m) defs m in
  m <= r /\ forall d, d ∈ defs -> rdRank d <= r.
Proof using Type.
  cbv zeta. revert m. induction defs as [|d defs IH]; intros m; cbn [fold_left].
  { split; [lia|by intros ? ?%not_elem_of_nil]. }
  destruct (IH (if decide (m < rdRank d) then rdRank d else m)) as [H1 H2].
  assert (m <= (if decide (m < rdRank d) then rdRank d else m) /\
          rdRank d <= (if decide (m < rdRank d) then rdRank d else m)) as [? ?] by (case_decide; lia).
  split; [lia|]. intros x [->|Hx]%elem_of_cons; [lia|by apply H2].
Qed.

Lemma last_some_spec {A} (f : A -> bool) l acc :
  match fold_left (fun acc a => if f a then Some a else acc) l acc with
  | Some a => acc = Some a \/ (a ∈ l /\ f a = true)
  | None => acc = None /\ forall a, a ∈ l -> f a = false
  end.
Proof using Type.
  revert acc. induction l as [|x l IH]; intros acc; cbn [fold_left].
  { destruct acc; [by left|split; [done|by intros ? ?%not_elem_of_nil]]. }
  specialize (IH (if f x then Some x else acc)). destruct (fold_left _ l _) as [a|].
  - destruct IH as [E|[Hin Ha]]; [|right; set_solver]. destruct (f x) eqn:Ex; [|by left].
    injection E as ->. right. split; [by left|done].
  - destruct IH as [E Hall]. destruct (f x) eqn:Ex; [done|]. split; [done|].
    intros y [->|Hy]%elem_of_cons; auto.
Qed.

(** What a successful [iamSaveRole] stores. *)
Lemma saveRole_inv w p path title summary perms login w' :
  iamSaveRole w p path title summary perms login = Ok w' ->
  exists d, w' = SaveRoleDef w d /\
    rdName d <> SuperAdmin /\ rdName d <> Automation /\
    (forall q, q ∈ rdPermissions d -> isOwner p = true \/ Authorize (pGrants p) q = true) /\
    match roles w !! rdName d with
    | Some ps => rdRank d = rdRank (roleDef w (rdName d) ps) /\ rdBuiltIn d = rdBuiltIn (roleDef w (rdName d) ps) /\
                 rdCustomized d = rdBuiltIn d
    | None => superAdminRank (ListRoleDefs w) < rdRank d /\ rdBuiltIn d = false
    end.
Proof using Type.
  unfold iamSaveRole. cbv zeta. set (name := ToLower (TrimSpace path)). case_decide as Hn; [done|].
  destruct (roleNameOK name); [|done]. cbn [negb].
  set (existing := last_some _ _). set (maxRank := fold_left _ _ 0).
  destruct (match existing with Some _ => _ | None => false end); [done|].
  destruct (find _ (uniqueStrings perms)) as [q|] eqn:Hf; [done|].
  assert (Hp : forall q, q ∈ uniqueStrings perms -> isOwner p = true \/ Authorize (pGrants p) q = true).
  { intros q Hq. pose proof (List.find_none _ _ Hf q (proj1 (list_elem_of_In _ _) Hq)) as E. cbv beta in E.
    apply orb_false_iff in E as [[_ E]%orb_false_iff _]. destruct (isOwner p); [by left|right].
    by apply negb_false_iff in E. }
  assert (Hex : match existing with
                | Some e => exists ps, roles w !! name = Some ps /\ e = roleDef w name ps
                | None => roles w !! name = None end).
  { pose proof (last_some_spec (fun d => bool_decide (rdName d = name)) (ListRoleDefs w) None) as Hs.
    unfold existing, last_some. destruct (fold_left _ _ None) as [e|].
    - destruct Hs as [?|[Hin He]]; [done|]. apply bool_decide_eq_true in He.
      apply ListRoleDefs_in in Hin as (n & ps & Hps & ->). rewrite roleDef_name in He. subst n. eauto.
    - destruct Hs as [_ Hs]. destruct (roles w !! name) as [ps|] eqn:E; [|done]. exfalso.
      specialize (Hs (roleDef w name ps)). rewrite roleDef_name, bool_decide_true in Hs by done.
      discriminate Hs. apply ListRoleDefs_in. eauto. }
  clearbody existing. destruct existing as [e|].
  - destruct Hex as (ps & Hps & ->). intros H. destruct (if rdBuiltIn _ then _ else _) as [t|]; [|done].
    injection H as <-. eexists. split; [reflexivity|]. cbn [rdName rdPermissions rdRank rdBuiltIn rdCustomized].
    rewrite Hps. split_and!; try done; tauto.
  - intros H. destruct (if decide (TrimSpace title = _) then _ else _) as [t|]; [|done].
    injection H as <-. eexists. split; [reflexivity|]. cbn [rdName rdPermissions rdRank rdBuiltIn rdCustomized].
    rewrite Hex. split_and!; try done; [tauto..|]. rewrite superAdminRank_spec.
    destruct (maxRank_spec (ListRoleDefs w) 0) as [H0 Hmax]. cbv zeta in H0, Hmax. fold maxRank in H0, Hmax.
    destruct (roles w !! SuperAdmin) as [ps|] eqn:E; [|lia].
    assert (rdRank (roleDef w SuperAdmin ps) <= maxRank); [|lia]. apply Hmax, ListRoleDefs_in. eauto.
Qed.

Lemma roleDef_save_ne w d n ps : n <> rdName d -> roleDef (SaveRoleDef w d) n ps = roleDef w n ps.
Proof using Type. intros Hn. unfold roleDef, SaveRoleDef. cbn [roleMeta withRoles]. by rewrite lookup_insert_ne. Qed.

Lemma roleDef_save_eq w d ps ps' :
  roles w !! rdName d = Some ps -> rdBuiltIn d = rdBuiltIn (roleDef w (rdName d) ps) ->
  let r := roleDef (SaveRoleDef w d) (rdName d) ps' in
  rdRank r = rdRank (roleDef w (rdName d) ps) /\ rdBuiltIn r = rdBuiltIn d /\ rdCustomized r = rdCustomized d.
Proof using Type.
  intros Hps Hb. cbv zeta. unfold roleDef at 1 3 4, SaveRoleDef. cbn [roleMeta withRoles].
  rewrite lookup_insert_eq. revert Hb. unfold roleDef. destruct (roleMeta w !! rdName d) as [m|] eqn:E.
  - cbn. rewrite ?E. by intros.
  - rewrite Hps. destruct (builtinRoleDefaults (rdName d)) as [[[rank b] l] t] eqn:Eb. cbn. by intros ->.
Qed.

Lemma roleDef_save_new w d ps' :
  roles w !! rdName d = None -> roleMeta w !! rdName d = None ->
  roleDef (SaveRoleDef w d) (rdName d) ps' = mkRole (rdName d) (rdTitle d) (rdSummary d) ps' (rdRank d) (rdBuiltIn d) (rdLogin d) (rdCustomized d).
Proof using Type.
  intros Hn Hm. unfold roleDef, SaveRoleDef. cbn [roleMeta withRoles]. rewrite lookup_insert_eq, Hm, Hn. done.
Qed.

(** Every stored role description belongs to a role. *)
Definition meta_listed (w : Store) : Prop := forall n, is_Some (roleMeta w !! n) -> is_Some (roles w !! n).

Lemma save_rolePerms w d r q :
  meta_listed w -> rdName d <> SuperAdmin -> rdName d <> Automation ->
  match roles w !! rdName d with
  | Some ps => rdBuiltIn d = rdBuiltIn (roleDef w (rdName d) ps) /\ rdCustomized d = rdBuiltIn d
  | None => rdBuiltIn d = false end ->
  q ∈ rolePerms (SaveRoleDef w d) r -> q ∈ rolePerms w r \/ q ∈ rdPermissions d.
Proof using Type.
  intros Hm Hn1 Hn2 Hd. unfold rolePerms. case_decide as Hr; [by left|]. rewrite !findDef_spec.
  destruct (decide (r = rdName d)) as [->|Hne].
  - assert (E : roles (SaveRoleDef w d) !! rdName d = Some (rdPermissions d)).
    { unfold SaveRoleDef. cbn [roles withRoles]. rewrite lookup_insert_eq.
      destruct (roleMeta w !! rdName d); [done|]. destruct (roles w !! rdName d); [|done].
      by destruct (builtinRoleDefaults (rdName d)) as [[[? ?] ?] ?]. }
    rewrite E. cbn [fmap option_fmap option_map]. rewrite roleDef_perms.
    assert (Hc : negb (rdBuiltIn (roleDef (SaveRoleDef w d) (rdName d) (rdPermissions d))) ||
                 rdCustomized (roleDef (SaveRoleDef w d) (rdName d) (rdPermissions d)) = true).
    { destruct (roles w !! rdName d) as [ps|] eqn:Er.
      - destruct Hd as [Hb Hcu]. destruct (roleDef_save_eq w d ps (rdPermissions d) Er Hb) as (_ & -> & ->).
        rewrite Hcu. by destruct (rdBuiltIn d).
      - assert (Hmn : roleMeta w !! rdName d = None).
        { apply eq_None_not_Some. intros Hs. apply Hm in Hs. rewrite Er in Hs. by destruct Hs. }
        rewrite roleDef_save_new by done. cbn. by rewrite Hd. }
    rewrite Hc. by right.
  - left. assert (E : roles (SaveRoleDef w d) !! r = roles w !! r).
    { unfold SaveRoleDef. cbn [roles withRoles]. by rewrite lookup_insert_ne. }
    rewrite E in *. destruct (roles w !! r) as [ps|]; [|done]. cbn [fmap option_fmap option_map] in *.
    by rewrite roleDef_save_ne in *.
Qed.

Lemma save_above w d r :
  meta_listed w -> rdName d <> SuperAdmin ->
  match roles w !! rdName d with
  | Some ps => rdRank d = rdRank (roleDef w (rdName d) ps) /\ rdBuiltIn d = rdBuiltIn (roleDef w (rdName d) ps)
  | None => superAdminRank (ListRoleDefs w) < rdRank d end ->
  r ∈ rolesAboveSuperAdmin (ListRoleDefs (SaveRoleDef w d)) -> r ∈ rolesAboveSuperAdmin (ListRoleDefs w).
Proof using Type.
  intros Hm Hn Hd. assert (Hroles : forall n, n <> rdName d -> roles (SaveRoleDef w d) !! n = roles w !! n).
  { intros n Hne. unfold SaveRoleDef. cbn [roles withRoles]. by rewrite lookup_insert_ne. }
  assert (Hsa : superAdminRank (ListRoleDefs (SaveRoleDef w d)) = superAdminRank (ListRoleDefs w)).
  { rewrite !superAdminRank_spec, Hroles by done. destruct (roles w !! SuperAdmin); [|done]. by rewrite roleDef_save_ne. }
  rewrite !rolesAbove_in, Hsa. intros (Hr & ps & Hps & Hlt). split; [done|].
  destruct (decide (r = rdName d)) as [->|Hne].
  - destruct (roles w !! rdName d) as [ps0|] eqn:E.
    + destruct Hd as [_ Hb]. destruct (roleDef_save_eq w d ps0 ps E Hb) as (Hrk & _). exists ps0. split; [done|]. lia.
    + assert (Hmn : roleMeta w !! rdName d = None).
      { apply eq_None_not_Some. intros Hs. apply Hm in Hs. rewrite E in Hs. by destruct Hs. }
      rewrite roleDef_save_new in Hlt by done. cbn in Hlt. lia.
  - rewrite Hroles in Hps by done. rewrite roleDef_save_ne in Hlt by done. eauto.
Qed.

(** Editing or creating a role cannot create permissions either: after a
    successful [iamSaveRole] by someone who is not a SuperAdmin, whatever any user may
    do they could do before, or the editor may do it; the SuperAdmin and Automation
    roles are never the one written. *)
Theorem saveRole_confined w p path title summary perms login w' u q :
  meta_listed w -> iamSaveRole w p path title summary perms login = Ok w' -> isOwner p = false ->
  Authorize (userGrants w' u) q = true ->
  Authorize (userGrants w u) q = true \/ Authorize (pGrants p) q = true.
Proof using Type.
  intros Hm H Ho. destruct (saveRole_inv _ _ _ _ _ _ _ _ H) as (d & -> & Hn1 & Hn2 & Hp & Hd).
  set (w' := SaveRoleDef w d).
  assert (Hone : forall g, g ∈ grantsForUser w' u (UserRoles w u) -> g ∈ grantsForUser w u (UserRoles w u) \/ g ∈ rdPermissions d).
  { intros g. unfold grantsForUser. rewrite !grantsForRoles_in.
    change (rootUserID w') with (rootUserID w). intros (r & Hr & Hg).
    assert (Hr' : r ∈ (if containsString (UserRoles w u) SuperAdmin && bool_decide (u = rootUserID w)
                       then UserRoles w u ++ rolesAboveSuperAdmin (ListRoleDefs w) else UserRoles w u)).
    { destruct (containsString _ _ && _); [|done]. apply elem_of_app in Hr as [Hr|Hr]; apply elem_of_app; [by left|right].
      apply (save_above w d r Hm Hn1) in Hr; [done|]. destruct (roles w !! rdName d); tauto. }
    destruct Hg as [Hg|Hg]; [|left; exists r; split; [done|by right]].
    apply (save_rolePerms w d r g Hm Hn1 Hn2) in Hg as [Hg|Hg]; [|by right|].
    - left. exists r. split; [done|by left].
    - destruct (roles w !! rdName d); tauto. }
  rewrite !userGrants_spec. change (UserRoles w' u) with (UserRoles w u).
  change (clusterGrants w' u (UserRoles w u)) with (clusterGrants w u (UserRoles w u)).
  rewrite !orb_true_iff. intros [[Hg|?]|?]; [|by left; left; right|by left; right].
  apply Authorize_spec in Hg as (g & Hg & Hgq). destruct (Hone g Hg) as [Hold|Hnew].
  - left; left; left. by eapply Authorize_in.
  - right. destruct (Hp g Hnew) as [|Ha]; [congruence|]. by eapply Authorize_trans.
Qed.

(** ** The hierarchy *)
Lemma rankOf_fold (defs : list RoleDef) rs best :
  let r := fold_left (fun best r =>
    fold_left (fun best d => if decide (rdName d = r /\ rdRank d < best) then rdRank d else best) defs best) rs best in
  r <= best /\ (forall d, d ∈ defs -> rdName d ∈ rs -> r <= rdRank d).
Proof using Type.
  cbv zeta. revert best. induction rs as [|r rs IH]; intros best; cbn [fold_left].
  { split; [lia|by intros ? _ ?%not_elem_of_nil]. }
  set (f := fun best d => if decide (rdName d = r /\ rdRank d < best) then rdRank d else best).
  assert (Hin : forall l b, fold_left f l b <= b /\ (forall d, d ∈ l -> rdName d = r -> fold_left f l b <= rdRank d)).
  { intros l. induction l as [|d l IHl]; intros b; cbn [fold_left]; [split; [lia|by intros ? ?%not_elem_of_nil]|].
    destruct (IHl (f b d)) as [H1 H2]. assert (Hf : f b d <= b /\ (rdName d = r -> f b d <= rdRank d)).
    { unfold f. case_decide; [lia|]. split; [lia|]. intros Hd. destruct (decide (rdRank d < b)); [tauto|lia]. }
    split; [lia|]. intros x [->|Hx]%elem_of_cons Hn; [destruct Hf as [_ Hf]; specialize (Hf Hn); lia|by apply H2]. }
  destruct (Hin defs best) as [H1 H2]. destruct (IH (fold_left f defs best)) as [H3 H4]. split; [lia|].
  intros d Hd [Hn|Hn]%elem_of_cons; [specialize (H2 d Hd Hn); lia|by apply H4].
Qed.

Lemma rankOf_le w rs d : d ∈ ListRoleDefs w -> rdName d ∈ rs -> rankOf (ListRoleDefs w) rs <= rdRank d.
Proof using Type. intros. by apply (rankOf_fold (ListRoleDefs w) rs noRank). Qed.

Lemma rankOf_super w rs :
  is_Some (roles w !! SuperAdmin) -> SuperAdmin ∈ rs -> rankOf (ListRoleDefs w) rs <= superAdminRank (ListRoleDefs w).
Proof using Type.
  intros [ps Hps] Hin. rewrite superAdminRank_spec, Hps. apply rankOf_le; [|by rewrite roleDef_name].
  apply ListRoleDefs_in. eauto.
Qed.

(** The hierarchy has no cycles of two: of two different people, signed in, of
    whom each may act on the other, both are SuperAdmins and neither is the root
    account; and nobody else may act on the root account. *)
Theorem hierarchy_antisym w a b ta tb :
  is_Some (roles w !! SuperAdmin) -> a <> b -> a <> LocalRootUserID -> b <> LocalRootUserID ->
  rootUserID w <> ""%string ->
  let p := asPrincipal w a ta in let q := asPrincipal w b tb in
  mayActOnUser w p b = true -> mayActOnUser w q a = true ->
  isOwner p = true /\ isOwner q = true /\ a <> rootUserID w /\ b <> rootUserID w.
Proof using Type.
  intros Hsa Hab Ha Hb Hroot. cbv zeta. unfold mayActOnUser. cbn [asPrincipal pID].
  rewrite !(decide_False (P := _ \/ _)) by (intros [?|?]; congruence).
  destruct (decide (rootUserID w <> "" /\ b = rootUserID w)%string) as [|Hb']; [done|].
  destruct (decide (rootUserID w <> "" /\ a = rootUserID w)%string) as [|Ha']; [done|].
  rewrite !bool_decide_eq_true. unfold myRankFor, isRoot. cbn [asPrincipal pID pRoles].
  assert (Hna : a <> rootUserID w) by tauto. assert (Hnb : b <> rootUserID w) by tauto.
  rewrite !(bool_decide_false (_ = LocalRootUserID)), (bool_decide_false (a = _)), (bool_decide_false (b = _)) by done.
  rewrite !andb_false_r. cbn [orb]. unfold isOwner, containsString. cbn [asPrincipal pRoles].
  pose proof (rankOf_super w (UserRoles w a) Hsa) as HA. pose proof (rankOf_super w (UserRoles w b) Hsa) as HB.
  destruct (bool_decide (SuperAdmin ∈ UserRoles w a)) eqn:Oa; destruct (bool_decide (SuperAdmin ∈ UserRoles w b)) eqn:Ob;
    try apply bool_decide_eq_true in Oa; try apply bool_decide_eq_true in Ob; intros H1 H2.
  - by split_and!.
  - specialize (HA Oa). lia.
  - specialize (HB Ob). lia.
  - lia.
Qed.

(** ** Item grants *)
Definition trimmed (l : list string) : Prop := forall q, q ∈ l -> TrimSpace q = q.

Lemma uniqueStrings_sub l q : trimmed l -> q ∈ uniqueStrings l -> q ∈ l.
Proof using Type. intros Ht (_ & v & Hv & <-)%uniqueStrings_in. by rewrite (Ht v Hv). Qed.

Lemma uniqueStrings_Authorize l q : trimmed l -> Authorize (uniqueStrings l) q = true -> Authorize l q = true.
Proof using Type.
  intros Ht (g & Hg & Hq)%Authorize_spec. eapply Authorize_in; [|done]. by apply uniqueStrings_sub.
Qed.

Lemma itemPerms_in w p kind id q :
  q ∈ itemPerms w p kind id <->
  exists g, g ∈ subjectGrants w (pID p) (pRoles p) /\ gResourceKind g = kind /\ EqualFold (gResourceID g) id = true /\ q ∈ gPermissions g.
Proof using Type.
  unfold itemPerms. rewrite list_elem_of_In, in_flat_map. split.
  - intros (g & Hg & Hq). apply list_elem_of_In in Hg. destruct (_ && _) eqn:E; [|done].
    apply andb_true_iff in E as [E1 E2]. apply bool_decide_eq_true in E1. exists g. split_and!; try done. by apply list_elem_of_In.
  - intros (g & Hg & Hk & Hi & Hq). exists g. split; [by apply list_elem_of_In|].
    rewrite bool_decide_true, Hi by done. cbn. by apply list_elem_of_In.
Qed.

Lemma subjectGrants_in w u rs g : g ∈ subjectGrants w u rs -> g ∈ accessDoc w /\ applies w u rs g = true.
Proof using Type.
  unfold subjectGrants. case_decide; [by intros ?%not_elem_of_nil|]. intros [? ?]%list_elem_of_filter. done.
Qed.

(** What [require] lets a request go on with: the permission asked for, and
    nothing but the roles' grants, what the grants on that one item give (for a list,
    just the permission to see it), and the base grants. *)
Theorem scoped_confined w p kind id lst perm p' :
  pScoped p = false -> trimmed (pGrants p) -> (forall g, g ∈ accessDoc w -> trimmed (gPermissions g)) -> trimmed [perm] ->
  require w p kind id lst perm = Some p' ->
  (perm ∈ pGrants p' \/ Authorize (pGrants p) perm = true \/ exists g, g ∈ accessDoc w /\ Authorize (gPermissions g) perm = true) /\
  (forall q, Authorize (pGrants p') q = true ->
     Authorize (pGrants p) q = true \/ Authorize baseGrants q = true \/
     exists g, g ∈ accessDoc w /\ applies w (pID p) (pRoles p) g = true /\ gResourceKind g = kind /\
       (if lst then grants_one perm q = true /\ perm = readPerm kind /\ Authorize (gPermissions g) perm = true
        else EqualFold (gResourceID g) id = true /\ Authorize (gPermissions g) q = true)).
Proof using Type.
  intros Hs Htp Htd Htq. unfold require. destruct (Authorize (pGrants p) perm) eqn:Ha.
  { intros [= <-]. split; [auto|]. intros q Hq. by left. }
  unfold scopedAllow, roleGrants. rewrite Hs. cbv zeta. case_decide; [done|].
  assert (Hbase : trimmed baseGrants).
  { intros q Hq. apply known_trim. revert q Hq. apply (proj1 (Forall_forall _ _)). apply (bool_decide_unpack _).
    vm_compute. reflexivity. }
  assert (Hcut : forall perms q, trimmed perms -> Authorize (uniqueStrings (pGrants p ++ perms ++ baseGrants)) q = true ->
    Authorize (pGrants p) q = true \/ Authorize baseGrants q = true \/ Authorize perms q = true).
  { intros perms q Ht Hq. apply uniqueStrings_Authorize in Hq.
    - rewrite !Authorize_app, !orb_true_iff in Hq. tauto.
    - intros x. rewrite !elem_of_app. intros [?|[?|?]]; auto. }
  destruct lst.
  - case_decide as Hp; [done|]. destruct (decide ((scopedIDs w p kind).1 = [])) as [|Hne]; [done|]. intros [= <-]. cbn [pGrants].
    assert (Hg : exists g, g ∈ accessDoc w /\ applies w (pID p) (pRoles p) g = true /\ gResourceKind g = kind /\ Authorize (gPermissions g) perm = true).
    { unfold scopedIDs, roleGrants in Hne. rewrite Hs in Hne. destruct (Authorize (pGrants p) (readPerm kind)); [done|]. cbn [fst] in Hne.
      destruct (flat_map _ _) as [|x l] eqn:E; [done|]. assert (Hx : In x (x :: l)) by (by left). rewrite <- E in Hx.
      apply in_flat_map in Hx as (g & Hg & Hx). apply list_elem_of_In, subjectGrants_in in Hg as [? ?].
      destruct (bool_decide _ && _) eqn:Eb; [|by destruct Hx]. apply andb_true_iff in Eb as [Eb1 Eb2].
      apply bool_decide_eq_true in Eb1. rewrite <- Hp in Eb2. eauto. }
    split; [right; right; destruct Hg as (g & ? & _ & _ & ?); eauto|].
    intros q Hq. apply (Hcut [perm]) in Hq as [?|[?|Hq]]; [by left|by right; left| |done].
    right; right. destruct Hg as (g & ? & ? & ? & ?). exists g. split_and!; try done.
    apply Authorize_spec in Hq as (x & Hx & ?). by apply list_elem_of_singleton in Hx as ->.
  - case_decide; [done|]. destruct (Authorize (itemPerms w p kind id) perm) eqn:Hi; [|done]. intros [= <-]. cbn [pGrants].
    assert (Hof : forall q, Authorize (itemPerms w p kind id) q = true -> exists g, g ∈ accessDoc w /\
      applies w (pID p) (pRoles p) g = true /\ gResourceKind g = kind /\ EqualFold (gResourceID g) id = true /\ Authorize (gPermissions g) q = true).
    { intros q (x & Hx & Hq)%Authorize_spec. apply itemPerms_in in Hx as (g & Hg & Hk & He & Hx).
      apply subjectGrants_in in Hg as [? ?]. exists g. split_and!; try done. by eapply Authorize_in. }
    split; [right; right; destruct (Hof perm Hi) as (g & ? & _ & _ & _ & ?); eauto|].
    intros q Hq. apply (Hcut (itemPerms w p kind id)) in Hq as [?|[?|Hq]]; [by left|by right; left|right; right; by apply Hof|].
    intros x (g & Hg & _ & _ & Hx)%itemPerms_in. apply subjectGrants_in in Hg as [Hg _]. by apply (Htd g Hg).
Qed.

(** ** Groups *)
Lemma rankOf_lower w rs r ps best :
  best < rankOf (ListRoleDefs w) rs -> r ∈ rs -> roles w !! r = Some ps -> best < rdRank (roleDef w r ps).
Proof using Type.
  intros H Hr Hps. assert (rankOf (ListRoleDefs w) rs <= rdRank (roleDef w r ps)); [|lia].
  apply rankOf_le; [apply ListRoleDefs_in; eauto|by rewrite roleDef_name].
Qed.

(** [iamSaveGroup] changes only the group named, only when every role it held is
    ranked below the caller, and gives it only roles the caller may act on; what it
    is not given stays. *)
Theorem saveGroup_guarded w p id members rs w' :
  iamSaveGroup w p id members rs = Ok w' ->
  (forall r ps, r ∈ ListGroupRoles w id -> roles w !! r = Some ps -> myRankFor w p < rdRank (roleDef w r ps)) /\
  (forall r, r ∈ ListGroupRoles w' id -> r ∈ ListGroupRoles w id \/ mayActOnRole w p r = true) /\
  (forall g, g <> id -> ListGroupMembers w' g = ListGroupMembers w g /\ ListGroupRoles w' g = ListGroupRoles w g) /\
  (members = None -> ListGroupMembers w' id = ListGroupMembers w id) /\
  (rs = None -> ListGroupRoles w' id = ListGroupRoles w id).
Proof using Type.
  unfold iamSaveGroup. case_decide as Hid; [done|]. case_decide as Hrank; [done|].
  destruct (forallb _ _) eqn:Hall; [|done]. intros [= <-].
  assert (Hid' : id ∈ groups w) by (by destruct (decide (id ∈ groups w))).
  unfold ListGroupMembers, ListGroupRoles. cbn [groups groupMembers groupRoles SetGroup withGroups].
  unfold ListGroupRoles in Hrank. rewrite decide_True in Hrank by done. rewrite !(decide_True (P := id ∈ groups w)) by done.
  split_and!.
  - intros r ps Hr Hps. eapply rankOf_lower; [|done..]. lia.
  - intros r. destruct rs as [l|]; cbn [fmap option_fmap option_map]; [|by left].
    rewrite lookup_insert_eq. cbn [default]. intros Hr. right. by apply (proj1 (forallb_in _ _) Hall).
  - intros g Hg. split; case_decide; try done; destruct members, rs; cbn [fmap option_fmap option_map]; by rewrite ?lookup_insert_ne.
  - by intros ->.
  - by intros ->.
Qed.
End cased.

(** ** A concrete cluster *)
#[local] Existing Instance ascii_tables.

(** [root] is the SuperAdmin, [mgr] an IAM manager, [alice] an Admin, [bob] a User;
    [helper] may manage groups and nothing else.  The group [ops] holds the SuperAdmin
    role (its SuperAdmin gave it one), [desk] is empty. *)
Definition ex_world : Store :=
  mkStore [mkAccount "root" false 1; mkAccount "mgr" false 2; mkAccount "alice" false 3; mkAccount "bob" false 4;
           mkAccount "helper" false 5]
    {[ "superadmin" := [All]; "iam-manager" := []; "admin" := []; "user" := []; "desk-helper" := [IdentityGroupManage] ]}%string ∅
    {[ "root" := ["superadmin"]; "mgr" := ["iam-manager"]; "alice" := ["admin"]; "bob" := ["user"]; "helper" := ["desk-helper"] ]}%string
    {[ "ops"; "desk" ]}%string {[ "ops" := ["root"] ]}%string {[ "ops" := ["superadmin"] ]}%string "root" ∅
    [mkGrant "g0" "user" "helper" "workload" "W1" [ComputeRead; ComputeStart]].

Definition ex_session (u : string) : principal := asPrincipal ex_world u [].

Lemma token_confined_witness :
  pGrants (asPrincipal ex_world "bob" [ComputeRead; ComputeStart]) = [ComputeRead] /\
  Authorize (userGrants ex_world "bob") ComputeRead = true.
Proof.
  split; [vm_compute; reflexivity|].
  apply (proj1 (token_confined ex_world "bob" [ComputeRead; ComputeStart] ComputeRead)). vm_compute. reflexivity.
Defined.

Definition ex_put : resourceGrant := mkGrant "" "user" "bob" "workload" " W1 " [ComputeStart].
Definition ex_after_put : Store := withDoc ex_world
  [mkGrant "g0" "user" "helper" "workload" "W1" [ComputeRead; ComputeStart];
   mkGrant "g1" "user" "bob" "workload" "W1" [ComputeRead; ComputeStart]].


Lemma ex_meta : meta_listed ex_world.
Proof. intros n [d Hd]. cbn in Hd. rewrite lookup_empty in Hd. discriminate Hd. Qed.

Definition ex_after_role : Store := SaveRoleDef ex_world (mkRole "night" "Night" "" [ComputeStart] 101 false true false).

Lemma saveRole_confined_witness :
  iamSaveRole ex_world (ex_session "mgr") "Night" "Night" "" [ComputeStart] None = Ok ex_after_role /\
  iamSaveRole ex_world (ex_session "mgr") "Night" "Night" "" [UpdatesWipe] None = Err Forbidden /\
  (Authorize (userGrants ex_after_role "bob") ComputeStart = true ->
   Authorize (userGrants ex_world "bob") ComputeStart = true \/ Authorize (pGrants (ex_session "mgr")) ComputeStart = true).
Proof.
  assert (E : iamSaveRole ex_world (ex_session "mgr") "Night" "Night" "" [ComputeStart] None = Ok ex_after_role)
    by (vm_compute; reflexivity).
  split; [exact E|]. split; [vm_compute; reflexivity|].
  apply (saveRole_confined ex_world (ex_session "mgr") "Night" "Night" "" [ComputeStart] None ex_after_role "bob" ComputeStart ex_meta E).
  vm_compute. reflexivity.
Defined.

Lemma hierarchy_antisym_witness :
  mayActOnUser ex_world (ex_session "mgr") "bob" = true /\ mayActOnUser ex_world (ex_session "bob") "mgr" = false.
Proof.
  split; [vm_compute; reflexivity|].
  destruct (mayActOnUser ex_world (ex_session "bob") "mgr") eqn:E; [exfalso|reflexivity].
  assert (Hsa : is_Some (roles ex_world !! SuperAdmin)) by (eexists; vm_compute; reflexivity).
  assert (E1 : mayActOnUser ex_world (ex_session "mgr") "bob" = true) by (vm_compute; reflexivity).
  destruct (hierarchy_antisym ex_world "mgr" "bob" [] [] Hsa ltac:(discriminate) ltac:(discriminate) ltac:(discriminate)
    ltac:(vm_compute; discriminate) E1 E) as [H _].
  vm_compute in H. discriminate H.
Defined.

Definition ex_scoped : principal :=
  mkPrincipal "helper" ["desk-helper"%string] [IdentityGroupManage; ComputeRead; ComputeStart; IdentityRead; IdentityMFA] true
    (pGrants (ex_session "helper")).

Lemma trimmed_check l : forallb (fun q => bool_decide (TrimSpace q = q)) l = true -> trimmed l.
Proof. intros H q Hq. pose proof (proj1 (forallb_in _ _) H q Hq) as E. cbv beta in E. by apply bool_decide_eq_true in E. Qed.

Lemma scoped_confined_witness :
  require ex_world (ex_session "helper") "workload" "w1" false ComputeStart = Some (mkPrincipal "helper" ["desk-helper"%string]
    [IdentityGroupManage; IdentityRead; IdentityMFA; ComputeRead; ComputeStart] true (pGrants (ex_session "helper"))) /\
  Authorize (pGrants (ex_session "helper")) ComputeStart = false /\
  (forall q, Authorize [IdentityGroupManage; IdentityRead; IdentityMFA; ComputeRead; ComputeStart] q = true ->
     Authorize (pGrants (ex_session "helper")) q = true \/ Authorize baseGrants q = true \/
     exists g, g ∈ accessDoc ex_world /\ applies ex_world "helper" ["desk-helper"%string] g = true /\ gResourceKind g = "workload"%string /\
       EqualFold (gResourceID g) "w1" = true /\ Authorize (gPermissions g) q = true).
Proof.
  assert (E : require ex_world (ex_session "helper") "workload" "w1" false ComputeStart = Some (mkPrincipal "helper" ["desk-helper"%string]
    [IdentityGroupManage; IdentityRead; IdentityMFA; ComputeRead; ComputeStart] true (pGrants (ex_session "helper")))) by (vm_compute; reflexivity).
  split; [exact E|]. split; [vm_compute; reflexivity|].
  apply (scoped_confined ex_world (ex_session "helper") "workload" "w1" false ComputeStart _ eq_refl) in E as [_ H]; [exact H| | |].
  - apply trimmed_check. vm_compute. reflexivity.
  - intros g Hg. apply list_elem_of_singleton in Hg as ->. apply trimmed_check. vm_compute. reflexivity.
  - apply trimmed_check. vm_compute. reflexivity.
Defined.

Lemma saveGroup_guarded_witness :
  (exists w', iamSaveGroup ex_world (ex_session "alice") "desk" (Some ["bob"%string]) (Some ["user"%string]) = Ok w' /\
     ListGroupRoles w' "ops" = ListGroupRoles ex_world "ops") /\
  iamSaveGroup ex_world (ex_session "alice") "ops" (Some ["alice"%string]) None = Err Forbidden.
Proof.
  split; [|vm_compute; reflexivity].
  destruct (iamSaveGroup ex_world (ex_session "alice") "desk" (Some ["bob"%string]) (Some ["user"%string])) as [w'|] eqn:E;
    [|vm_compute in E; discriminate E].
  exists w'. split; [reflexivity|].
  destruct (saveGroup_guarded ex_world (ex_session "alice") "desk" (Some ["bob"%string]) (Some ["user"%string]) w' E)
    as (_ & _ & H & _). apply H. discriminate.
Defined.

(** ** The group handlers without the hierarchy *)

(** [addGroupMember] asks only for identity.group.manage: an Admin adds itself to a
    group that holds the SuperAdmin role and is a SuperAdmin. [iamSaveGroup] refuses
    the same change. *)
Lemma group_join_escalates :
  require ex_world (ex_session "alice") "" "" false IdentityGroupManage = Some (ex_session "alice") /\
  isOwner (ex_session "alice") = false /\
  match addGroupMember ex_world "ops" "alice" with
  | Ok w' => isOwner (asPrincipal w' "alice" []) = true /\ Authorize (userGrants w' "alice") UpdatesWipe = true
  | Err _ => False
  end.
Proof. vm_compute. repeat split; reflexivity. Qed.

(** [bindGroupRole] gives the Admin role to a group whatever the caller's rank. *)
Lemma group_bind_escalates :
  require ex_world (ex_session "helper") "" "" false IdentityGroupManage = Some (ex_session "helper") /\
  mayActOnRole ex_world (ex_session "helper") Admin = false /\
  match bindGroupRole ex_world "desk" Admin ≫= (fun w => addGroupMember w "desk" "helper") with
  | Ok w' => Authorize (userGrants w' "helper") NodeRevoke = true
  | Err _ => False
  end.
Proof. vm_compute. repeat split; reflexivity. Qed.

(** A grant made to a group reaches whoever joins it later: [mayAssign] looks at the
    members of the moment, and an Admin joins with [iamSaveGroup]. *)
Definition ex_group_grant : Store := withDoc ex_world [mkGrant "g2" "group" "desk" "cluster" "" [All]].

Lemma group_grant_escalates :
  match iamSaveGroup ex_group_grant (asPrincipal ex_group_grant "alice" []) "desk" (Some ["alice"%string]) None with
  | Ok w' => Authorize (userGrants ex_group_grant "alice") UpdatesWipe = false /\ Authorize (userGrants w' "alice") UpdatesWipe = true
  | Err _ => False
  end.
Proof. vm_compute. split; reflexivity. Qed.
