(* ===== verification/Engine.v ===== *)
(** * The run engine ([src/internal/automation/engine/engine.go])

    One run of a flow: the resumable state, the choice of the steps that are ready
    or skipped, the execution of a step behind its safety guards, the recording of an outcome, foreach
    frames, parking, cancellation, recovery after a crash, and the loop of
    [stepper.step] that ties them together.  What the code asks the outside world
    (the clock, the adapters, the store, the rendered configuration) is the
    argument [tick] of one turn of that loop. *)
From S2P Require Export FlowGraph Redact.

(** ** State *)
Inductive status :=
  | NodeNone | NodeRunning | NodeSucceeded | NodeFailed | NodeSkipped
  | NodeWaiting | NodeRetrying | NodeApproval | NodeCancelled.

#[export] Instance status_eq_dec : EqDecision status.
Proof. solve_decision. Defined.

Record NodeState := mkNS {
  Status : status; Port : string; Attempts : Z; WakeAt : option Z; NError : string; StartedAt : option Z }.

Definition zeroNS : NodeState := mkNS NodeNone "" 0 None "" None.

Record Frame := mkFrame {
  Loop : string; Scope : string; Items : list value; Index : Z;
  FNodes : gmap string NodeState; Results : list value }.

Record ReportLine := mkLine {
  rlNode : string; rlScope : string; rlKind : string; rlText : string; rlMatched : option bool }.

(** [Frames] is innermost first: its head is the last element of the Go slice. *)
Record State := mkState {
  SLimits : Limits; Vars : gmap string value; Outputs : gmap string value;
  Frames : list Frame; Steps : Z; Report : list ReportLine }.

Definition topFrame : Frame := mkFrame "" "" [] 0 ∅ [].

Definition NewState (limits : Limits) (vars : gmap string value) (lines : list ReportLine) : State :=
  mkState (Normalized limits) vars ∅ [topFrame] 0 lines.

(** [DecodeState] after the JSON text was read. *)
Definition DecodeState (st : State) : State :=
  mkState (Normalized (SLimits st)) (Vars st) (Outputs st)
    (match Frames st with [] => [topFrame] | fs => fs end) (Steps st) (Report st).

Inductive run_status := RunPending | RunRunning | RunWaiting | RunWaitingApproval
  | RunSucceeded | RunFailed | RunCancelled.

#[export] Instance run_status_eq_dec : EqDecision run_status.
Proof. solve_decision. Defined.

Record Run := mkRun {
  rStatus : run_status; rError : string; rWakeAt : option Z; rStartedAt : option Z;
  rFinishedAt : option Z; rDry : bool; rReportOK : option bool }.

(** The stepper's mutable part: the run row and the state.  The log lines and the
    per-step rows it writes are never read back and are not modelled. *)
Record stepper := mkX { x_run : Run; x_st : State }.

(** ** Node types, adapters and the outside world *)
Record NodeType := mkType {
  DisplayName : string; CategoryLogic : bool; Idempotent : bool; Destructive : bool; Action : bool;
  LoopType : bool; HasExecute : bool; HasPreview : bool; HasTargetOf : bool }.

Definition zeroType : NodeType := mkType "" false false false false false false false false.

Record error := mkErr { isLimit : bool; errText : string }.

#[export] Instance error_eq_dec : EqDecision error.
Proof. solve_decision. Defined.

Record Result := mkResult {
  ROutput : option value; RVars : list (string * value); RPort : string; WaitUntil : option Z;
  WaitApproval : bool; Stop : bool; StopFailed : bool; RMessage : string; HasRules : bool; RWould : string }.

Definition zeroResult : Result := mkResult None [] "" None false false false "" false "".

Record Preview := mkPreview { Would : string; Problems : list string }.

(** What one step's adapter and its surroundings answer during a turn. *)
Record adapter := mkAdapter {
  aRender : result string (list (string * value));
  aExecute : Result * option error;
  aPreview : Preview * option string;
  aTarget : string;
  aCount : option Z;             (* CountAutomationLedger; None is an error *)
  aTimedOut : option string;     (* the duration's text when the deadline passed *)
  aNow : Z                       (* the clock when the outcome is applied *) }.

Record tick := mkTick {
  tCancelledBy : string; tCtxDone : bool; tNow : Z; tSaveOK : bool;
  tJSON : string -> option (list value);   (* json.Unmarshal into []any *)
  tAdapter : string -> adapter }.

Record outcome := mkOutcome {
  o_id : string; o_res : Result; o_err : option error; o_attempt : Z; o_would : string; o_issues : list string }.

(** What [exec] did besides its answer. *)
Record effects := mkEff { ran : bool; ledger : option string }.

Definition no_effects : effects := mkEff false None.

(** ** Small helpers *)
Definition firstText (a b : string) : string :=
  if decide (TrimSpace a <> ""%string) then TrimSpace a else TrimSpace b.

Definition minute : Z := 60 * 10 ^ 9.

(** [Backoff]: nanoseconds, with the wrap-around of [time.Duration]. *)
Fixpoint backoff_loop (n : nat) (d : Z) : Z :=
  match n with
  | O => d
  | S n' => if decide (d < 24 * 60 * minute) then backoff_loop n' (i64 (d * 2)) else d
  end.

Definition Backoff (r : Retry) (attempt : Z) : Z :=
  let d := i64 (DelayMS r * 1000000) in
  let d := if decide (d <= 0) then 10 ^ 9 else d in
  let d := if decide (rMode r = "exponential"%string) then backoff_loop (Z.to_nat (attempt - 1)) d else d in
  let maxD := i64 (MaxDelayMS r * 1000000) in
  let maxD := if decide (maxD <= 0) then 5 * minute else maxD in
  if decide (d > maxD) then maxD else d.

Definition terminal (s : status) : bool :=
  match s with NodeSucceeded | NodeFailed | NodeSkipped => true | _ => false end.

Definition edgeActive (p : NodeState) (e : Edge) : bool :=
  if decide (Status p = NodeSkipped) then false
  else if decide (ePort e = ""%string) then bool_decide (Port p <> ErrorPort)
  else bool_decide (ePort e = Port p).

Definition scopeFor (parent loop : string) (index : Z) : string :=
  let s := loop +:+ "#" +:+ Itoa index in
  if decide (parent = ""%string) then s else parent +:+ "/" +:+ s.

(** [time.Duration.String] of a whole number of seconds. *)
Definition durationText (sec : Z) : string :=
  let h := sec / 3600 in let m := (sec / 60) mod 60 in
  (if decide (0 < h) then Itoa h +:+ "h" else "") +:+
  (if decide (0 < h \/ 0 < m) then Itoa m +:+ "m" else "") +:+ Itoa (sec mod 60) +:+ "s".

Definition branchWord (port : string) : string :=
  if decide (port = "true"%string) then "Yes"
  else if decide (port = "false"%string) then "No" else port.

(** [fmt.Sscanf(v, "%d", &n)]: blanks, a sign, then the digits there are. *)
Fixpoint scan_digits (l : list ascii) (acc : option Z) : option Z :=
  match l with
  | a :: l' => let z := byteZ a in
               if (48 <=? z) && (z <=? 57) then scan_digits l' (Some (default 0 acc * 10 + (z - 48))) else acc
  | [] => acc
  end.

Fixpoint scan_int (l : list ascii) : option Z :=
  match l with
  | a :: l' =>
      let z := byteZ a in
      if (z =? 32) || (z =? 9) then scan_int l'
      else
        let r := if z =? 45 then Z.opp <$> scan_digits l' None
                 else if z =? 43 then scan_digits l' None else scan_digits (a :: l') None in
        match r with Some n => if decide (- 2 ^ 63 <= n < 2 ^ 63) then Some n else None | None => None end
  | [] => None
  end.

(** [ExecInput.Int]. *)
Definition int_of (v : value) (def : Z) : Z :=
  match v with
  | VNum f => int64_of_float f
  | VInt n => int64_of_float (float_of_Z n)
  | VStr s => default def (scan_int (bytes s))
  | _ => def
  end.

(** ** The stepper *)
Section stepper.
Context `{CT : CaseTables} (redactText : string -> string) (jsonLen : value -> option Z).
Context (registry : string -> option NodeType) (def : Definition_) (owners : gmap string string).

Notation Redact := (Redact redactText jsonLen).

Definition typeOf (n : Node) : NodeType := default zeroType (registry (nType n)).
Definition typeAt (id : string) : NodeType :=
  match findNode def id with Some n => typeOf n | None => zeroType end.
Definition ownerOf (id : string) : string := default ""%string (owners !! id).

(** *** Updating the parts of the stepper *)
Definition setState (x : stepper) (st : State) : stepper := mkX (x_run x) st.
Definition setRun (x : stepper) (r : Run) : stepper := mkX r (x_st x).

Definition setNode (f : Frame) (id : string) (ns : NodeState) : Frame :=
  mkFrame (Loop f) (Scope f) (Items f) (Index f) (<[id := ns]> (FNodes f)) (Results f).

Definition setFrames (st : State) (fs : list Frame) : State :=
  mkState (SLimits st) (Vars st) (Outputs st) fs (Steps st) (Report st).
Definition setOutput (st : State) (id : string) (v : value) : State :=
  mkState (SLimits st) (Vars st) (<[id := v]> (Outputs st)) (Frames st) (Steps st) (Report st).
Definition setSteps (st : State) (n : Z) : State :=
  mkState (SLimits st) (Vars st) (Outputs st) (Frames st) n (Report st).

(** The frame a turn works on ([Frames[len-1]]); writing it back. *)
Definition frame (x : stepper) : Frame := List.hd topFrame (Frames (x_st x)).
Definition setFrame (x : stepper) (f : Frame) : stepper :=
  setState x (setFrames (x_st x) (f :: tail (Frames (x_st x)))).
Definition setNodeX (x : stepper) (id : string) (ns : NodeState) : stepper :=
  setFrame x (setNode (frame x) id ns).

Definition report (x : stepper) (l : ReportLine) : stepper :=
  let st := x_st x in
  setState x (mkState (SLimits st) (Vars st) (Outputs st) (Frames st) (Steps st) (Report st ++ [l])).

(** How a call of [step] ends. *)
Inductive return_ :=
  | Finished (st : run_status)   (* x.finish *)
  | Parked                       (* park saved the run *)
  | LeftForNext                  (* the context ended; the state was saved *)
  | SaveFailed                   (* x.save returned an error *)
  | Crashed.                     (* an index out of range *)

Definition finish (now : Z) (x : stepper) (st : run_status) (msg : string) : stepper * return_ :=
  let r := x_run x in
  let ok := bool_decide (st = RunSucceeded) &&
    forallb (fun l => negb (bool_decide (rlKind l = "problem"%string \/ rlKind l = "limit"%string)))
      (Report (x_st x)) in
  (setRun x (mkRun st msg None (rStartedAt r) (Some now) (rDry r)
               (if rDry r then Some ok else rReportOK r)), Finished st).

(** *** Waking, readiness *)
Definition wakeNode (now : Z) (ns : NodeState) : NodeState :=
  match WakeAt ns with
  | None => ns
  | Some w =>
      if decide (now < w) then ns
      else match Status ns with
           | NodeWaiting => mkNS NodeSucceeded (Port ns) (Attempts ns) None (NError ns) (StartedAt ns)
           | NodeRetrying => mkNS NodeNone (Port ns) (Attempts ns) None (NError ns) (StartedAt ns)
           | _ => ns
           end
  end.

Definition wake (f : Frame) (now : Z) : Frame :=
  mkFrame (Loop f) (Scope f) (Items f) (Index f) (wakeNode now <$> FNodes f) (Results f).

(** The loop over [Incoming]: whether every edge is resolved, and one is active. *)
Fixpoint incoming (f : Frame) (es : list Edge) (active : bool) : bool * bool :=
  match es with
  | [] => (true, active)
  | e :: es' =>
      if decide (eFrom e = TriggerID) then incoming f es' true
      else if decide (Loop f <> ""%string /\ eFrom e = Loop f /\ ePort e = "each"%string)
      then incoming f es' true
      else match FNodes f !! eFrom e with
           | Some p => if terminal (Status p) then incoming f es' (edgeActive p e || active) else (false, active)
           | None => (false, active)
           end
  end.

(** A step of the frame that has not been taken up yet. *)
Definition untouched (f : Frame) (id : string) : bool :=
  bool_decide (ownerOf id = Loop f) &&
  match FNodes f !! id with Some ns => bool_decide (Status ns = NodeNone) | None => true end.

Definition ready (f : Frame) : list string * list string :=
  fold_left (fun '(rd, sk) n =>
    if untouched f (nID n) then
      match incoming f (Incoming def (nID n)) false with
      | (true, true) => (rd ++ [nID n], sk)
      | (true, false) => (rd, sk ++ [nID n])
      | (false, _) => (rd, sk)
      end
    else (rd, sk)) (Nodes def) ([], []).

Definition firstLoop (ids : list string) : option string :=
  List.find (fun id => LoopType (typeAt id)) ids.

(** *** Recovery and cancellation *)
Definition interruptedMsg : string :=
  "interrupted: the server restarted while this step ran, so it is not repeated".

(** One entry of the recovery loop: the new state and the failure it reports. *)
Definition recoverNode (id : string) (ns : NodeState) : NodeState * option string :=
  if decide (Status ns <> NodeRunning) then (ns, None)
  else match findNode def id with
       | None => (ns, None)
       | Some n =>
           let t := typeOf n in
           if LoopType t then (ns, None)
           else if Idempotent t then (mkNS NodeNone (Port ns) (Attempts ns) (WakeAt ns) (NError ns) (StartedAt ns), None)
           else
             let oe := OnErrorFor def (Some n) in
             let port := if decide (oe = OnErrorFailBranch) then ErrorPort else Port ns in
             (mkNS NodeFailed port (Attempts ns) (WakeAt ns) interruptedMsg (StartedAt ns),
              if decide (oe = OnErrorContinue \/ oe = OnErrorFailBranch) then None
              else Some ("step " +:+ id +:+ " failed: " +:+ interruptedMsg))
       end.

(** All frames; the message of the last failing entry, in the order of the maps. *)
Definition recoverInterrupted (fs : list Frame) : list Frame * string :=
  (map (fun f => mkFrame (Loop f) (Scope f) (Items f) (Index f)
                   (map_imap (fun id ns => Some (recoverNode id ns).1) (FNodes f)) (Results f)) fs,
   List.last (omap (fun p : string * NodeState => (recoverNode p.1 p.2).2)
     (concat (map (fun f => map_to_list (FNodes f)) (rev fs)))) ""%string).

Definition cancelNode (ns : NodeState) : NodeState :=
  match Status ns with
  | NodeRunning | NodeWaiting | NodeRetrying | NodeApproval =>
      mkNS NodeCancelled (Port ns) (Attempts ns) None (NError ns) (StartedAt ns)
  | _ => ns
  end.

Definition markCancelled (fs : list Frame) : list Frame :=
  map (fun f => mkFrame (Loop f) (Scope f) (Items f) (Index f) (cancelNode <$> FNodes f) (Results f)) fs.

(** *** Parking *)
Definition earliest (f : Frame) : option Z :=
  fold_right (fun (p : string * NodeState) acc =>
    match Status p.2, WakeAt p.2, acc with
    | (NodeWaiting | NodeRetrying), Some w, Some w' => Some (Z.min w w')
    | (NodeWaiting | NodeRetrying), Some w, None => Some w
    | _, _, _ => acc
    end) None (map_to_list (FNodes f)).

Definition approvalPending (f : Frame) : bool :=
  existsb (fun p : string * NodeState => bool_decide (Status p.2 = NodeApproval)) (map_to_list (FNodes f)).

Definition setStatus (x : stepper) (s : run_status) (w : option Z) : stepper :=
  let r := x_run x in
  setRun x (mkRun s (rError r) w (rStartedAt r) (rFinishedAt r) (rDry r) (rReportOK r)).

Definition park (now deadline : Z) (saveOK : bool) (x : stepper) : option (stepper * return_) :=
  let f := frame x in
  let saved x := (x, if saveOK then Parked else SaveFailed) in
  match earliest f with
  | Some w =>
      if decide (deadline < w) then
        let msg := "limit: the wait ends after the run's time limit"%string in
        Some (finish now (report x (mkLine "" "" "limit" msg None)) RunFailed msg)
      else Some (saved (setStatus x RunWaiting (Some w)))
  | None => if approvalPending f then Some (saved (setStatus x RunWaitingApproval None)) else None
  end.

(** *** Foreach *)
Definition loopFail (x : stepper) (id : string) (now : Z) (msg : string) : stepper :=
  let oe := OnErrorFor def (findNode def id) in
  let port := if decide (oe = OnErrorContinue) then ""%string else ErrorPort in
  report (setNodeX x id (mkNS NodeFailed port 1 None msg (Some now)))
    (mkLine id (Scope (frame x)) "problem" msg None).

Definition startLoop (now : Z) (json : string -> option (list value)) (a : adapter) (x : stepper) (id : string)
  : stepper :=
  let x := setState x (setSteps (x_st x) (Steps (x_st x) + 1)) in
  let x := setNodeX x id (mkNS NodeRunning "" 1 None "" (Some now)) in
  match aRender a with
  | Err e => loopFail x id now e
  | Ok cfg =>
      let items := match Normalize (field "items" cfg) with
                   | VNull => Some []
                   | VList l => Some l
                   | VStr v => if decide (TrimSpace v <> ""%string) then json v else Some []
                   | _ => None
                   end in
      match items with
      | None => loopFail x id now "items must be a list"
      | Some items =>
          let limit := MaxLoopItems (SLimits (x_st x)) in
          let m := int_of (field "max" cfg) 0 in
          let limit := if decide (0 < m /\ m < limit) then m else limit in
          let n := Z.of_nat (length items) in
          let '(x, items) :=
            if decide (limit < n) then
              (report x (mkLine id (Scope (frame x)) "limit"
                 ("limit: " +:+ id +:+ " has " +:+ Itoa n +:+ " items; only the first " +:+ Itoa limit
                   +:+ " are processed") None), take (Z.to_nat limit) items)
            else (x, items) in
          let x := report x (mkLine id (Scope (frame x)) "loop"
                     (id +:+ " repeats " +:+ Itoa (Z.of_nat (length items)) +:+ " time(s)") None) in
          if decide (items = []) then
            let x := setNodeX x id (mkNS NodeSucceeded "done" 1 None "" (Some now)) in
            setState x (setOutput (x_st x) id (VMap [("count"%string, VInt 0); ("results"%string, VList [])]))
          else
            let st := x_st x in
            setState x (setFrames st (mkFrame id (scopeFor (Scope (frame x)) id 0) items 0 ∅ [] :: Frames st))
      end
  end.

(** The outputs of the iteration's steps, as one object. *)
Definition iterationResult (st : State) (f : Frame) : value :=
  VMap (omap (fun p : string * NodeState => (fun v => (p.1, v)) <$> Outputs st !! p.1) (map_to_list (FNodes f))).

Definition nextIteration (x : stepper) : option stepper :=
  let st := x_st x in
  match Frames st with
  | f :: parent :: rest =>
      let results := Results f ++ [iterationResult st f] in
      let index := Index f + 1 in
      if decide (index < Z.of_nat (length (Items f))) then
        let f' := mkFrame (Loop f) (scopeFor (Scope parent) (Loop f) index) (Items f) index ∅ results in
        Some (setState x (setFrames st (f' :: parent :: rest)))
      else
        let ns := default zeroNS (FNodes parent !! Loop f) in
        let ns := mkNS NodeSucceeded "done" (Attempts ns) (WakeAt ns) (NError ns) (StartedAt ns) in
        let out := Redact (VMap [("count"%string, VInt (Z.of_nat (length (Items f)))); ("results"%string, VList results)]) in
        Some (setState x (setOutput (setFrames st (setNode parent (Loop f) ns :: rest)) (Loop f) out))
  | _ => None
  end.

(** *** Executing one step *)
Definition ledgerFull (t : NodeType) (a : adapter) : option Z :=
  if Destructive t && HasTargetOf t then
    match aCount a with
    | Some c => if decide (DestructivePerTarget <= c) then Some c else None
    | None => None
    end
  else None.

Definition limitText (t : NodeType) (target : string) (c : Z) : string :=
  "limit: " +:+ DisplayName t +:+ " already ran on " +:+ target +:+ " " +:+ Itoa c +:+ " times in the last 15 minutes".

Definition plainErr (s : string) : option error := Some (mkErr false s).

Definition exec (dry : bool) (id : string) (attempt : Z) (a : adapter) : outcome * effects :=
  let fail e := (mkOutcome id zeroResult e attempt "" [], no_effects) in
  match registry (match findNode def id with Some n => nType n | None => ""%string end) with
  | None => fail (plainErr ("unknown step type " +:+ match findNode def id with Some n => nType n | None => ""%string end))
  | Some t =>
      match aRender a with
      | Err e => fail (plainErr ("config: " +:+ e))
      | Ok cfg =>
          if dry && Action t then
            let would := ("would run " +:+ DisplayName t)%string in
            let '(would, problems) :=
              if HasPreview t then
                let '(got, err) := aPreview a in
                (if decide (Would got <> ""%string) then Would got else would,
                 Problems got ++ match err with Some e => [e] | None => [] end)
              else (would, []) in
            let problems := problems ++ match ledgerFull t a with
              | Some c => [limitText t (aTarget a) c +:+ ", so it would be refused now"]
              | None => [] end in
            (mkOutcome id
               (mkResult (Some (VMap [("dry_run", VBool true); ("would", VStr would);
                                      ("problems", VStrs problems)]%string)) [] "" None false false false "" false "")
               None attempt would problems, no_effects)
          else if negb (HasExecute t) then fail (plainErr (DisplayName t +:+ " cannot run on its own"))
          else
            match ledgerFull t a with
            | Some c => fail (Some (mkErr true (limitText t (aTarget a) c +:+ " (across all flows)")))
            | None =>
                let '(res, err) := aExecute a in
                let err := match err, aTimedOut a with
                           | Some _, Some d => plainErr ("the step timed out after " +:+ d)
                           | _, _ => err
                           end in
                let target := if Destructive t && HasTargetOf t then aTarget a else ""%string in
                let led := if decide (err = None /\ Destructive t = true /\ target <> ""%string)
                           then Some target else None in
                (mkOutcome id res err attempt "" [], mkEff true led)
            end
      end
  end.

(** [runBatch] before the steps run: they become running and count as steps. *)
Definition startStep (now : Z) (x : stepper) (id : string) : stepper :=
  let ns := default zeroNS (FNodes (frame x) !! id) in
  let started := match StartedAt ns with None => Some now | s => s end in
  let x := setNodeX x id (mkNS NodeRunning (Port ns) (Attempts ns) (WakeAt ns) (NError ns) started) in
  setState x (setSteps (x_st x) (Steps (x_st x) + 1)).

Definition attemptsOf (f : Frame) (id : string) : Z := Attempts (default zeroNS (FNodes f !! id)).

Definition runBatch (t : tick) (x : stepper) (ids : list string) : stepper * list (outcome * effects) :=
  let x := fold_left (startStep (tNow t)) ids x in
  (x, map (fun id => exec (rDry (x_run x)) id (attemptsOf (frame x) id + 1) (tAdapter t id)) ids).

(** *** Recording an outcome *)
Definition setOut (x : stepper) (id : string) (v : value) : stepper := setState x (setOutput (x_st x) id v).

Definition setVars (x : stepper) (vs : list (string * value)) : stepper :=
  let st := x_st x in
  setState x (mkState (SLimits st)
    (fold_left (fun m (kv : string * value) => <[kv.1 := Redact kv.2]> m) vs (Vars st))
    (Outputs st) (Frames st) (Steps st) (Report st)).

Definition canRetry (dry : bool) (n : Node) (e : error) (attempt : Z) : bool :=
  let retry := RetryFor def (Some n) in
  Idempotent (typeOf n) && negb dry && negb (isLimit e) &&
  bool_decide (rMode retry <> "none"%string) && bool_decide (attempt < MaxAttempts retry).

Definition applyError (x : stepper) (now : Z) (n : Node) (o : outcome) (e : error) (ns : NodeState)
  : stepper * option return_ :=
  let msg := errText e in
  let id := o_id o in
  if canRetry (rDry (x_run x)) n e (o_attempt o) then
    let wake := now + Backoff (RetryFor def (Some n)) (o_attempt o) in
    (setNodeX x id (mkNS NodeRetrying (Port ns) (Attempts ns) (Some wake) msg (StartedAt ns)), None)
  else
    let kind := if isLimit e then "limit"%string else "problem"%string in
    let x := report x (mkLine id (Scope (frame x)) kind (id +:+ ": " +:+ msg) None) in
    let x := setOut x id (match ROutput (o_res o) with
                          | Some v => Redact v
                          | None => VMap [("error"%string, VStr (LogLine redactText msg))] end) in
    let oe := OnErrorFor def (Some n) in
    if decide (oe = OnErrorContinue) then
      (setNodeX x id (mkNS NodeFailed "" (Attempts ns) (WakeAt ns) msg (StartedAt ns)), None)
    else if decide (oe = OnErrorFailBranch) then
      (setNodeX x id (mkNS NodeFailed ErrorPort (Attempts ns) (WakeAt ns) msg (StartedAt ns)), None)
    else
      let x := setNodeX x id (mkNS NodeFailed (Port ns) (Attempts ns) (WakeAt ns) msg (StartedAt ns)) in
      let '(x, r) := finish now x RunFailed ("step " +:+ id +:+ " failed: " +:+ msg) in
      (x, Some r).

Definition applyReports (x : stepper) (t : NodeType) (o : outcome) : stepper :=
  let id := o_id o in
  let res := o_res o in
  let scope := Scope (frame x) in
  let x := if HasRules res then
             report x (mkLine id scope "condition" (id +:+ " took the " +:+ branchWord (RPort res) +:+ " branch")
                         (Some (bool_decide (RPort res = "true"%string))))
           else if decide (RPort res <> ""%string /\ CategoryLogic t = true) then
             report x (mkLine id scope "branch" (id +:+ " took the " +:+ RPort res +:+ " branch") None)
           else x in
  if decide (o_would o <> ""%string) then
    fold_left (fun x p => report x (mkLine id scope "problem" (id +:+ ": " +:+ p) None)) (o_issues o)
      (report x (mkLine id scope "would" (o_would o) None))
  else x.

Definition applySuccess (x : stepper) (now : Z) (t : NodeType) (o : outcome) (ns : NodeState)
  : stepper * option return_ :=
  let id := o_id o in
  let res := o_res o in
  let dry := rDry (x_run x) in
  let with_status st port w := mkNS st port (Attempts ns) w "" (StartedAt ns) in
  let x := setOut x id (match ROutput res with Some v => Redact v | None => VMap [] end) in
  let x := setVars x (RVars res) in
  let x := applyReports x t o in
  let scope := Scope (frame x) in
  if Stop res then
    let x := setNodeX x id (with_status NodeSucceeded (RPort res) (WakeAt ns)) in
    let x := report x (mkLine id scope "stop" (firstText (RMessage res) "the run stops here") None) in
    let '(x, r) := finish now x (if StopFailed res then RunFailed else RunSucceeded) (RMessage res) in
    (x, Some r)
  else
    (match WaitUntil res with
     | Some w =>
         if dry then
           report (setNodeX x id (with_status NodeSucceeded (RPort res) (WakeAt ns)))
             (mkLine id scope "wait" (id +:+ ": " +:+ firstText (RWould res) "would wait") None)
         else if decide (now < w) then setNodeX x id (with_status NodeWaiting (RPort res) (Some w))
         else if WaitApproval res then setNodeX x id (with_status NodeApproval (RPort res) (WakeAt ns))
         else setNodeX x id (with_status NodeSucceeded (RPort res) (WakeAt ns))
     | None =>
         if WaitApproval res then
           if dry then
             report (setNodeX x id (with_status NodeSucceeded "approved" (WakeAt ns)))
               (mkLine id scope "wait" (id +:+ ": would wait for an approval; the test continues as approved") None)
           else setNodeX x id (with_status NodeApproval (RPort res) (WakeAt ns))
         else setNodeX x id (with_status NodeSucceeded (RPort res) (WakeAt ns))
     end, None).

Definition apply (t : tick) (x : stepper) (o : outcome) : stepper * option return_ :=
  let id := o_id o in
  let now := aNow (tAdapter t id) in
  let ns := default zeroNS (FNodes (frame x) !! id) in
  let ns := mkNS (Status ns) (Port ns) (o_attempt o) (WakeAt ns) (NError ns) (StartedAt ns) in
  match findNode def id with
  | None => (x, Some Crashed)
  | Some n =>
      match o_err o with
      | Some e => applyError x now n o e ns
      | None => applySuccess x now (typeOf n) o ns
      end
  end.

Fixpoint applyAll (t : tick) (x : stepper) (os : list outcome) : stepper * option return_ :=
  match os with
  | [] => (x, None)
  | o :: os' => match apply t x o with
                | (x, Some r) => (x, Some r)
                | (x, None) => applyAll t x os'
                end
  end.

(** *** One turn of the loop of [step] *)
Definition saving (t : tick) (x : stepper) : stepper * option return_ :=
  (x, if tSaveOK t then None else Some SaveFailed).

Definition skipNode (x : stepper) (id : string) : stepper :=
  setNodeX x id (mkNS NodeSkipped "" 0 None "" None).

Definition runTimeout (x : stepper) : Z := RunTimeoutSec (SLimits (x_st x)) * 10 ^ 9.

Definition turn (t : tick) (x : stepper) : stepper * option return_ :=
  let ret p := let '(x, r) := p in (x, Some r) in
  if decide (tCancelledBy t <> ""%string) then
    ret (finish (tNow t) (setState x (setFrames (x_st x) (markCancelled (Frames (x_st x)))))
           RunCancelled ("cancelled by " +:+ tCancelledBy t))
  else if tCtxDone t then (x, Some (if tSaveOK t then LeftForNext else SaveFailed))
  else
    let now := tNow t in
    let deadline := default 0 (rStartedAt (x_run x)) + runTimeout x in
    if decide (deadline < now) then
      ret (finish now (report x (mkLine "" "" "limit" "the run passed its time limit" None)) RunFailed
             ("limit: the run passed its time limit of " +:+ durationText (RunTimeoutSec (SLimits (x_st x)))))
    else
      match Frames (x_st x) with
      | [] => (x, Some Crashed)
      | f :: _ =>
          let x := setFrame x (wake f now) in
          let '(rd, sk) := ready (frame x) in
          if decide (sk <> []) then (fold_left skipNode sk x, None)
          else if decide (rd = []) then
            match park now deadline (tSaveOK t) x with
            | Some p => ret p
            | None =>
                if decide (Loop f <> ""%string) then
                  match nextIteration x with
                  | None => (x, Some Crashed)
                  | Some x => saving t x
                  end
                else ret (finish now x RunSucceeded "")
            end
          else
            let st := x_st x in
            let maxSteps := MaxSteps (SLimits st) in
            if decide (maxSteps <= Steps st) then
              let msg := ("limit: the run reached its limit of " +:+ Itoa maxSteps +:+ " steps")%string in
              ret (finish now (report x (mkLine "" "" "limit" msg None)) RunFailed msg)
            else
              match firstLoop rd with
              | Some id => saving t (startLoop now (tJSON t) (tAdapter t id) x id)
              | None =>
                  let budget := maxSteps - Steps st in
                  let mx := MaxParallel (SLimits st) in
                  let mx := if decide (budget < mx) then budget else mx in
                  let rd := if decide (mx < Z.of_nat (length rd)) then take (Z.to_nat mx) rd else rd in
                  let '(x, os) := runBatch t x rd in
                  match applyAll t x (map fst os) with
                  | (x, Some r) => (x, Some r)
                  | (x, None) => saving t x
                  end
              end
      end.

(** The loop: [None] when the fuel runs out, which [step_terminates] excludes. *)
Fixpoint step_loop (fuel : nat) (ticks : nat -> tick) (x : stepper) : option (stepper * return_) :=
  match fuel with
  | O => None
  | S fuel' =>
      match turn (ticks O) x with
      | (x, Some r) => Some (x, r)
      | (x, None) => step_loop fuel' (fun i => ticks (S i)) x
      end
  end.

(** [step] after the definition and the state were read: mark the run running,
    recover interrupted steps, then loop.  [now0] is the clock at the start. *)
Definition step (fuel : nat) (now0 : Z) (save0 : bool) (ticks : nat -> tick) (run : Run) (st : State)
  : option (stepper * return_) :=
  let started := match rStartedAt run with None => Some now0 | s => s end in
  let run := mkRun RunRunning (rError run) None started (rFinishedAt run) (rDry run) (rReportOK run) in
  let '(fs, failed) := recoverInterrupted (Frames st) in
  let x := mkX run (setFrames st fs) in
  if negb save0 then Some (x, SaveFailed)
  else if decide (failed <> ""%string) then Some (finish now0 x RunFailed failed)
  else step_loop fuel ticks x.

(** *** [Engine.Approve], once the lease is held and the run is read *)
Inductive approve_error := NotWaiting | StepNotWaiting | NoSuchFrame.

(** The step an approval is for: the one named, or one that waits for it. *)
Definition approvalStep (nodeID : string) (f : Frame) : string :=
  let pending := filter (fun p : string * NodeState => Status p.2 = NodeApproval) (map_to_list (FNodes f)) in
  if decide (nodeID = ""%string) then List.last (map fst pending) ""%string else nodeID.

Definition Approve (nodeID by_ : string) (approved : bool) (note at_ : string) (run : Run) (st : State)
  : result approve_error (Run * State) :=
  if decide (rStatus run <> RunWaitingApproval /\ rStatus run <> RunWaiting) then Err NotWaiting
  else match Frames st with
       | [] => Err NoSuchFrame
       | f :: rest =>
           let id := approvalStep nodeID f in
           match FNodes f !! id with
           | None => Err StepNotWaiting
           | Some ns =>
               if decide (Status ns <> NodeApproval) then Err StepNotWaiting
               else
                 let port := if approved then "approved"%string else "rejected"%string in
                 let ns := mkNS NodeSucceeded port (Attempts ns) (WakeAt ns) (NError ns) (StartedAt ns) in
                 let out := [("approved", VBool approved); ("by", VStr by_); ("at", VStr at_)]%string in
                 let out := if decide (note <> ""%string) then assoc_set "note" (VStr note) out else out in
                 let out := match Outputs st !! id with
                            | Some (VMap prev) => match assoc "message" prev with
                                                  | Some msg => assoc_set "message" msg out
                                                  | None => out end
                            | _ => out end in
                 let st := setOutput (setFrames st (setNode f id ns :: rest)) id (Redact (VMap out)) in
                 Ok (mkRun RunPending (rError run) None (rStartedAt run) (rFinishedAt run) (rDry run) (rReportOK run), st)
           end
       end.

End stepper.
