(* ===== verification/EngineProps.v ===== *)
(** * What the run engine guarantees

    Termination of a call of [step] with an explicit bound, the step budget, the
    readiness rule and the absence of lost steps, retries, dry runs and the
    destructive limit, recovery, and the foreach failure path. *)
From S2P Require Export Engine.

Section props.
Context `{CT : CaseTables} (redactText : string -> string) (jsonLen : value -> option Z).
Context (registry : string -> option NodeType) (def : Definition_) (owners : gmap string string).

Notation turn := (turn redactText jsonLen registry def owners).
Notation apply := (apply redactText jsonLen registry def).
Notation applyAll := (applyAll redactText jsonLen registry def).
Notation step_loop := (step_loop redactText jsonLen registry def owners).
Notation step := (step redactText jsonLen registry def owners).
Notation nextIteration := (nextIteration redactText jsonLen).
Notation startLoop := (startLoop def).
Notation ready := (ready def owners).

(** ** Shape: what most updates leave alone *)
Definition frame_key (f : Frame) : string * string * list value * Z * list value :=
  (Loop f, Scope f, Items f, Index f, Results f).

Definition shape (x y : stepper) : Prop :=
  SLimits (x_st y) = SLimits (x_st x) /\ Steps (x_st y) = Steps (x_st x) /\
  rDry (x_run y) = rDry (x_run x) /\ rStartedAt (x_run y) = rStartedAt (x_run x) /\
  (Frames (x_st x) <> [] -> map frame_key (Frames (x_st y)) = map frame_key (Frames (x_st x))).

#[local] Instance shape_preorder : PreOrder shape.
Proof using Type.
  split; [done|]. intros x y z (?&?&?&?&Hxy) (?&?&?&?&Hyz). split_and!; try congruence.
  intros Hx. rewrite <- (Hxy Hx). apply Hyz. intros Hy. rewrite Hy in Hxy.
  specialize (Hxy Hx). by destruct (Frames (x_st x)).
Qed.

Lemma setNodeX_shape x id ns : shape x (setNodeX x id ns).
Proof using Type. split_and!; try done. cbn. unfold frame. by destruct (Frames (x_st x)). Qed.

Lemma report_shape x l : shape x (report x l).
Proof using Type. done. Qed.

Lemma setOut_shape x id v : shape x (setOut x id v).
Proof using Type. done. Qed.

Lemma setVars_shape x vs : shape x (setVars redactText jsonLen x vs).
Proof using Type. done. Qed.

Lemma wake_shape x now : shape x (setFrame x (wake (frame x) now)).
Proof using Type. split_and!; try done. cbn. unfold frame. by destruct (Frames (x_st x)). Qed.

Lemma finish_shape now x st msg : shape x (finish now x st msg).1.
Proof using Type. done. Qed.

Lemma setRun_shape x r :
  rDry r = rDry (x_run x) -> rStartedAt r = rStartedAt (x_run x) -> shape x (setRun x r).
Proof using Type. done. Qed.

Hint Resolve setNodeX_shape report_shape setOut_shape setVars_shape wake_shape finish_shape : shape.

Lemma fold_shape {A} (f : stepper -> A -> stepper) l x :
  (forall x a, shape x (f x a)) -> shape x (fold_left f l x).
Proof using Type.
  intros Hf. revert x. induction l as [|a l IH]; intros x; cbn; [done|]. trans (f x a); [apply Hf|apply IH].
Qed.

Ltac shapes := repeat first
  [ reflexivity | solve [eauto with shape]
  | match goal with
    | |- shape ?x (setNodeX ?y _ _) => trans y; [|apply setNodeX_shape]
    | |- shape ?x (report ?y _) => trans y; [|apply report_shape]
    | |- shape ?x (setOut ?y _ _) => trans y; [|apply setOut_shape]
    | |- shape ?x (setVars _ _ ?y _) => trans y; [|apply setVars_shape]
    | |- shape ?x (setRun ?y _) => trans y; [|apply setRun_shape; reflexivity]
    | |- shape ?x (fold_left _ _ ?y) => trans y; [|apply fold_shape; intros]
    end ].

(** Case analysis on the conditions at the top of an outcome only. *)
Ltac top_cases := repeat match goal with
  | |- context [fst (if ?b then _ else _)] => destruct b
  | |- context [fst (match ?b with Some _ => _ | None => _ end)] => destruct b
  | |- shape _ (if ?b then _ else _) => destruct b
  | |- shape _ (fst (if ?b then _ else _, _)) => destruct b
  | |- shape _ (fst (match ?b with Some _ => _ | None => _ end, _)) => destruct b
  end.

Lemma applyReports_shape x t o : shape x (applyReports x t o).
Proof using Type.
  unfold applyReports. set (x1 := if HasRules (o_res o) then _ else _).
  assert (shape x x1) by (subst x1; repeat case_match; shapes). case_decide; [|done].
  trans x1; [done|]. etrans; [|apply fold_shape; intros; shapes]. apply report_shape.
Qed.

Lemma apply_shape t x o : shape x (apply t x o).1.
Proof using Type.
  unfold Engine.apply. destruct (findNode def (o_id o)) as [n|]; [|done].
  destruct (o_err o) as [e|].
  - unfold applyError, finish. cbv beta iota zeta. top_cases; cbn [fst]; shapes.
  - unfold applySuccess, finish. cbv beta iota zeta.
    pose proof (applyReports_shape
      (setVars redactText jsonLen (setOut x (o_id o) (match ROutput (o_res o) with
         Some v => Redact redactText jsonLen v | None => VMap [] end)) (RVars (o_res o)))
      (typeOf registry n) o) as Hr.
    set (x1 := applyReports _ _ _) in *.
    assert (shape x x1) by (etrans; [|exact Hr]; shapes). clearbody x1. clear Hr.
    top_cases; cbn [fst]; (trans x1; [done|]); shapes.
Qed.

Lemma applyAll_shape t x os : shape x (applyAll t x os).1.
Proof using Type.
  revert x. induction os as [|o os IH]; intros x; cbn; [done|].
  pose proof (apply_shape t x o). destruct (apply t x o) as [x' [r|]]; [done|]. trans x'; [done|apply IH].
Qed.

(** ** What [ready] answers *)
Lemma ready_fold (f : Frame) ns rd sk :
  let step := fun '(rd, sk) n =>
    if untouched owners f (nID n) then
      match incoming f (Incoming def (nID n)) false with
      | (true, true) => (rd ++ [nID n], sk)
      | (true, false) => (rd, sk ++ [nID n])
      | (false, _) => (rd, sk)
      end
    else (rd, sk) in
  let pick b := map nID (filter (fun n => untouched owners f (nID n) = true /\
                                 incoming f (Incoming def (nID n)) false = (true, b)) ns) in
  fold_left step ns (rd, sk) = (rd ++ pick true, sk ++ pick false).
Proof using Type.
  cbv zeta. revert rd sk. induction ns as [|n ns IH]; intros rd sk; [by rewrite !app_nil_r|].
  cbn [fold_left]. rewrite !filter_cons. destruct (untouched owners f (nID n)) eqn:Hu.
  - destruct (incoming f (Incoming def (nID n)) false) as [[|] [|]] eqn:Hi;
      rewrite IH; cbn; repeat (case_decide; [|]); try (destruct_and?; congruence);
      try (exfalso; tauto); cbn; by rewrite <- ?app_assoc.
  - rewrite IH. rewrite !decide_False by (intros [? _]; congruence). done.
Qed.

(** The steps [ready] picks, in the definition's order: those of the frame's loop not
    yet taken up whose incoming edges are all resolved, split by whether one is active. *)
Definition picked (f : Frame) (b : bool) : list string :=
  map nID (filter (fun n => untouched owners f (nID n) = true /\
                            incoming f (Incoming def (nID n)) false = (true, b)) (Nodes def)).

Lemma ready_spec f : ready f = (picked f true, picked f false).
Proof using Type. unfold Engine.ready. rewrite (ready_fold f (Nodes def) [] []). done. Qed.

Lemma picked_in f b id : id ∈ picked f b ->
  (exists n, n ∈ Nodes def /\ nID n = id) /\ untouched owners f id = true /\
  incoming f (Incoming def id) false = (true, b).
Proof using Type.
  unfold picked. intros (n & -> & [[? ?] Hn]%list_elem_of_filter)%list_elem_of_fmap. eauto.
Qed.

Lemma findNode_in id : (exists n, n ∈ Nodes def /\ nID n = id) <-> exists n, findNode def id = Some n.
Proof using Type.
  unfold findNode. split.
  - intros (n & Hn & <-). destruct (List.find _ _) as [m|] eqn:E; [eauto|].
    pose proof (List.find_none _ _ E n (proj1 (list_elem_of_In _ _) Hn)) as H.
    cbn in H. rewrite bool_decide_true in H; done.
  - intros (n & E). apply List.find_some in E as [Hin Hid]. apply list_elem_of_In in Hin.
    apply bool_decide_eq_true in Hid. eauto.
Qed.

(** ** The stepper's invariant *)
Definition maxAtt (id : string) : Z := MaxAttempts (RetryFor def (findNode def id)).

Lemma maxAtt_range id : 1 <= maxAtt id <= MaxRetries.
Proof using Type. apply RetryFor_attempts. Qed.

(** One entry of a frame: only the steps in [run] are running, a waiting or retrying
    step has its time, a step that may still run has attempts left, and only
    idempotent steps retry. *)
Definition ns_ok (run : string -> Prop) (id : string) (ns : NodeState) : Prop :=
  (Status ns = NodeRunning -> run id) /\
  Status ns <> NodeCancelled /\
  (Status ns = NodeWaiting \/ Status ns = NodeRetrying -> WakeAt ns <> None) /\
  (Status ns = NodeRetrying -> Idempotent (typeAt registry def id) = true) /\
  (LoopType (typeAt registry def id) = false ->
     0 <= Attempts ns <= maxAtt id /\
     (Status ns = NodeNone \/ Status ns = NodeRunning \/ Status ns = NodeRetrying -> Attempts ns < maxAtt id)).

Fixpoint frames_ok (run : string -> Prop) (fs : list Frame) : Prop :=
  match fs with
  | [] => False
  | f :: rest =>
      map_Forall (ns_ok run) (FNodes f) /\
      match rest with
      | [] => Loop f = ""%string
      | _ => Loop f <> ""%string /\ LoopType (typeAt registry def (Loop f)) = true /\
             frames_ok (fun id => id = Loop f) rest
      end
  end.

Definition nobody : string -> Prop := fun _ => False.

Record state_ok (st : State) : Prop := {
  so_limits : limits_ok (SLimits st);
  so_steps : 0 <= Steps st <= MaxSteps (SLimits st);
  so_frames : frames_ok nobody (Frames st) }.

Lemma ns_ok_mono (run run' : string -> Prop) id ns :
  (run id -> run' id) -> ns_ok run id ns -> ns_ok run' id ns.
Proof using Type. clear redactText. unfold ns_ok. tauto. Qed.

Lemma frames_ok_nonempty run fs : frames_ok run fs -> fs <> [].
Proof using Type. by destruct fs. Qed.

Lemma frames_ok_setNode (run run' : string -> Prop) x y id ns :
  Frames (x_st y) = Frames (x_st x) -> frames_ok run (Frames (x_st x)) ->
  (forall j, j <> id -> run j -> run' j) -> ns_ok run' id ns ->
  frames_ok run' (Frames (x_st (setNodeX y id ns))).
Proof using Type.
  intros E H Hrun Hns. cbn. unfold frame. rewrite E. destruct (Frames (x_st x)) as [|f rest]; [destruct H|].
  cbn in *. destruct H as [Hf Hrest]. split; [|done].
  intros j nj Hj. apply lookup_insert_Some in Hj as [[<- <-]|[Hne Hj]]; [done|].
  eapply ns_ok_mono; [|by apply (Hf j nj)]. intros. by apply Hrun.
Qed.

Lemma frames_ok_lookup run x id ns :
  frames_ok run (Frames (x_st x)) -> FNodes (frame x) !! id = Some ns -> ns_ok run id ns.
Proof using Type. unfold frame. destruct (Frames (x_st x)) as [|f rest]; [done|]. intros [Hf _]. apply Hf. Qed.

Lemma zeroNS_ok run id : ns_ok run id zeroNS.
Proof using Type. unfold ns_ok, zeroNS; cbn [Status WakeAt Attempts]. pose proof (maxAtt_range id). split_and!; try done; [by intros [?|?]|intros _; split; [lia|intros _; lia]]. Qed.

Lemma frames_ok_get run x id :
  frames_ok run (Frames (x_st x)) -> ns_ok run id (default zeroNS (FNodes (frame x) !! id)).
Proof using Type.
  intros H. destruct (FNodes (frame x) !! id) as [ns|] eqn:E; cbn; [by eapply frames_ok_lookup|apply zeroNS_ok].
Qed.

Lemma wakeNode_ok run now id ns : ns_ok run id ns -> ns_ok run id (wakeNode now ns).
Proof using Type.
  intros H. unfold wakeNode. destruct (WakeAt ns) as [w|] eqn:Ew; [|exact H].
  case_decide; [exact H|]. destruct (Status ns) eqn:Es; try exact H;
    destruct H as (H1 & H2 & H3 & H4 & H5); rewrite Es in *;
    (split_and!; cbn [Status WakeAt Attempts]; try done; [by intros [?|?]|]);
    intros HL; destruct (H5 HL) as [? H7]; (split; [done|]); intros [?|[?|?]]; first [done|apply H7; auto].
Qed.

Lemma wake_ok run x now :
  frames_ok run (Frames (x_st x)) -> frames_ok run (Frames (x_st (setFrame x (wake (frame x) now)))).
Proof using Type.
  cbn. unfold frame. destruct (Frames (x_st x)) as [|f rest]; [done|]. cbn. intros [Hf Hr]. split; [|done].
  intros id ns. rewrite lookup_fmap. destruct (FNodes f !! id) as [ns0|] eqn:E; [|done].
  intros [= <-]. apply wakeNode_ok. by apply Hf.
Qed.

(** ** Operations keep the invariant *)
Lemma setNodeX_here run x y id ns :
  Frames (x_st y) = Frames (x_st x) -> frames_ok run (Frames (x_st x)) -> ns_ok run id ns ->
  frames_ok run (Frames (x_st (setNodeX y id ns))).
Proof using Type. intros. by eapply frames_ok_setNode. Qed.

(** The step has not run in this frame, or the current batch is running it. *)
Definition startable (x : stepper) (id : string) : Prop :=
  let ns := default zeroNS (FNodes (frame x) !! id) in Status ns = NodeNone \/ Status ns = NodeRunning.

Lemma untouched_startable x id : untouched owners (frame x) id = true -> startable x id.
Proof using Type.
  unfold untouched, startable. intros [_ Hu]%andb_true_iff.
  destruct (FNodes (frame x) !! id); cbn in *; [apply bool_decide_eq_true in Hu|]; auto.
Qed.

Lemma startStep_ok now run x id :
  frames_ok run (Frames (x_st x)) -> startable x id ->
  frames_ok (fun j => run j \/ j = id) (Frames (x_st (startStep now x id))).
Proof using Type.
  intros H Hs. unfold startable in Hs. unfold startStep. cbv zeta in *. set (ns := default zeroNS (FNodes (frame x) !! id)) in *.
  assert (Hn : ns_ok run id ns) by apply (frames_ok_get run x id H).
  apply (frames_ok_setNode run _ x x); [done..|auto|].
  destruct Hn as (H1 & H2 & H3 & H4 & H5). split_and!; cbn [Status WakeAt Attempts]; try done.
  - by right.
  - by intros [?|?].
  - intros HL. destruct (H5 HL) as [? H6]. split; [done|]. intros _. apply H6. destruct Hs; auto.
Qed.

Lemma startStep_lookup now x id j :
  FNodes (frame (startStep now x id)) !! j =
    if decide (j = id) then
      let ns := default zeroNS (FNodes (frame x) !! id) in
      Some (mkNS NodeRunning (Port ns) (Attempts ns) (WakeAt ns) (NError ns)
        (match StartedAt ns with None => Some now | s => s end))
    else FNodes (frame x) !! j.
Proof using Type.
  unfold startStep, setNodeX, setFrame, setState, frame. cbn. case_decide as Hj.
  - subst j. by rewrite lookup_insert_eq.
  - by rewrite lookup_insert_ne.
Qed.

Lemma startStep_startable now x id j : startable x j -> startable (startStep now x id) j.
Proof using Type. unfold startable. rewrite startStep_lookup. case_decide; cbn; auto. Qed.

Lemma startStep_attempts now x id j : attemptsOf (frame (startStep now x id)) j = attemptsOf (frame x) j.
Proof using Type. unfold attemptsOf. rewrite startStep_lookup. case_decide; [by subst j|done]. Qed.

(** The batch as a whole: it counts its steps, keeps the frames' places and the
    attempts recorded so far, and leaves only its own steps running. *)
Lemma start_batch now ids run x :
  frames_ok run (Frames (x_st x)) -> (forall id, id ∈ ids -> startable x id) ->
  let x' := fold_left (startStep now) ids x in
  frames_ok (fun j => run j \/ j ∈ ids) (Frames (x_st x')) /\
  Steps (x_st x') = Steps (x_st x) + Z.of_nat (length ids) /\
  SLimits (x_st x') = SLimits (x_st x) /\ x_run x' = x_run x /\
  map frame_key (Frames (x_st x')) = map frame_key (Frames (x_st x)) /\
  (forall j, attemptsOf (frame x') j = attemptsOf (frame x) j).
Proof using Type.
  clear redactText. cbv zeta. revert run x. induction ids as [|id ids IH]; intros run x H Hs.
  { cbn [fold_left length]. split_and!; try done; [|lia].
    destruct (Frames (x_st x)) as [|f rest]; [done|]. destruct H as [H ?]. split; [|done].
    intros j nj Hj. eapply ns_ok_mono; [|by apply H]. auto. }
  cbn [fold_left]. destruct (IH (fun j => run j \/ j = id) (startStep now x id)) as (E1 & E2 & E3 & E4 & E5 & E6).
  - apply startStep_ok; [done|]. apply Hs. set_solver.
  - intros j Hj. apply startStep_startable, Hs. set_solver.
  - split_and!.
    + destruct (Frames (x_st (fold_left (startStep now) ids (startStep now x id)))) as [|f rest]; [done|].
      destruct E1 as [E1 ?]. split; [|done]. intros j nj Hj. eapply ns_ok_mono; [|by apply E1]. set_solver.
    + rewrite E2. change (Steps (x_st (startStep now x id))) with (Steps (x_st x) + 1). cbn [length]. lia.
    + by rewrite E3.
    + by rewrite E4.
    + rewrite E5. cbn. unfold frame. by destruct (Frames (x_st x)).
    + intros j. rewrite E6. apply startStep_attempts.
Qed.

Lemma report_fold_frames {A} (g : A -> ReportLine) l x :
  Frames (x_st (fold_left (fun x p => report x (g p)) l x)) = Frames (x_st x).
Proof using Type. revert x. induction l as [|a l IH]; intros x; cbn; [done|]. by rewrite IH. Qed.

Lemma applyReports_frames x t o : Frames (x_st (applyReports x t o)) = Frames (x_st x).
Proof using Type.
  unfold applyReports. cbv zeta. case_decide; rewrite ?report_fold_frames; by repeat case_match.
Qed.

(** An outcome recorded: its step no longer runs. *)
Lemma done_ok run x y id ns :
  Frames (x_st y) = Frames (x_st x) -> frames_ok run (Frames (x_st x)) ->
  Status ns <> NodeRunning -> ns_ok run id ns ->
  frames_ok (fun j => run j /\ j <> id) (Frames (x_st (setNodeX y id ns))).
Proof using Type.
  intros E H Hs (H1 & H2 & H3 & H4 & H5). eapply frames_ok_setNode; [done|done|by split|].
  by split_and!.
Qed.

Definition o_ok (o : outcome) : Prop :=
  (exists n, findNode def (o_id o) = Some n) /\
  (LoopType (typeAt registry def (o_id o)) = false -> 0 <= o_attempt o <= maxAtt (o_id o)).

Definition apply_post (run : string -> Prop) (o : outcome) (p : stepper * option return_) : Prop :=
  match p.2 with
  | None => frames_ok (fun j => run j /\ j <> o_id o) (Frames (x_st p.1))
  | Some r => exists s, r = Finished s
  end.

Lemma final_ns_ok run id st port att w e sa :
  terminal st = true \/ st = NodeApproval \/ (st = NodeWaiting /\ w <> None) ->
  (LoopType (typeAt registry def id) = false -> 0 <= att <= maxAtt id) ->
  ns_ok run id (mkNS st port att w e sa).
Proof using Type.
  clear redactText. intros Hst Ha. split_and!; cbn [Status WakeAt Attempts].
  - intros ->. cbn in Hst. naive_solver.
  - intros ->. cbn in Hst. naive_solver.
  - intros [-> | ->]; cbn in Hst; naive_solver.
  - intros ->. cbn in Hst. naive_solver.
  - intros HL. split; [auto|]. intros [-> |[-> | ->]]; cbn in Hst; naive_solver.
Qed.

Lemma applyError_ok run x now n o e ns :
  frames_ok run (Frames (x_st x)) -> o_ok o -> findNode def (o_id o) = Some n -> Attempts ns = o_attempt o ->
  apply_post run o (applyError redactText jsonLen registry def x now n o e ns).
Proof using Type.
  intros H [_ Ha] Hn Hat. unfold applyError. cbv zeta. destruct (canRetry _ _ _ _ _ _) eqn:Hc.
  - unfold canRetry in Hc. rewrite !andb_true_iff, !bool_decide_eq_true in Hc.
    destruct Hc as [[[[Hid _] _] _] Hlt]. unfold apply_post; cbn [fst snd].
    apply (done_ok run x x); [done..|]. split_and!; cbn [Status WakeAt Attempts]; try done.
    + intros _. unfold typeAt. by rewrite Hn.
    + intros HL. specialize (Ha HL). rewrite Hat. split; [done|]. intros _. unfold maxAtt. by rewrite Hn.
  - assert (Hf : forall port w m sa y, Frames (x_st y) = Frames (x_st x) ->
      frames_ok (fun j => run j /\ j <> o_id o) (Frames (x_st (setNodeX y (o_id o) (mkNS NodeFailed port (Attempts ns) w m sa))))).
    { intros. apply (done_ok run x); [done..|]. apply final_ns_ok; [by left|by rewrite Hat]. }
    unfold apply_post, finish. cbv beta iota zeta.
    do 2 (case_decide; [by apply Hf|]). cbn [snd]. eauto.
Qed.

Lemma applySuccess_ok run x now t o ns :
  frames_ok run (Frames (x_st x)) -> o_ok o -> Attempts ns = o_attempt o ->
  apply_post run o (applySuccess redactText jsonLen x now t o ns).
Proof using Type.
  intros H [_ Ha] Hat. unfold applySuccess. cbv zeta.
  set (x1 := applyReports _ _ _).
  assert (E1 : Frames (x_st x1) = Frames (x_st x)) by (subst x1; by rewrite applyReports_frames).
  clearbody x1.
  assert (Hf : forall st port w m sa y, Frames (x_st y) = Frames (x_st x) ->
      terminal st = true \/ st = NodeApproval \/ (st = NodeWaiting /\ w <> None) ->
      frames_ok (fun j => run j /\ j <> o_id o) (Frames (x_st (setNodeX y (o_id o) (mkNS st port (Attempts ns) w m sa))))).
  { intros st port w m sa y E Hst. apply (done_ok run x); [done..| |apply final_ns_ok; [done|by rewrite Hat]].
    cbn. intros ->. cbn in Hst. destruct Hst as [?|[?|[? _]]]; done. }
  unfold apply_post. destruct (Stop (o_res o)); [unfold finish; cbn [fst snd]; eauto|].
  cbn [fst snd]. destruct (WaitUntil (o_res o)) as [w|], (rDry (x_run x)), (WaitApproval (o_res o));
    try case_decide; cbn [x_st report setState Frames]; apply Hf; auto.
Qed.

Lemma apply_ok run t x o :
  frames_ok run (Frames (x_st x)) -> o_ok o -> apply_post run o (apply t x o).
Proof using Type.
  intros H Ho. unfold Engine.apply. destruct Ho as [[n Hn] Ha]. rewrite Hn.
  destruct (o_err o) as [e|]; [apply applyError_ok|apply applySuccess_ok]; rewrite ?Hn; try done; split; eauto.
Qed.

Lemma frames_ok_mono (run run' : string -> Prop) fs :
  (forall id, run id -> run' id) -> frames_ok run fs -> frames_ok run' fs.
Proof using Type.
  intros Hr. destruct fs as [|f rest]; [done|]. intros [H ?]. split; [|done].
  intros j nj Hj. eapply ns_ok_mono; [apply Hr|by apply H].
Qed.

Lemma applyAll_ok run t x os :
  frames_ok run (Frames (x_st x)) -> (forall o, o ∈ os -> o_ok o) ->
  match applyAll t x os with
  | (x', None) => frames_ok (fun j => run j /\ j ∉ map o_id os) (Frames (x_st x'))
  | (x', Some r) => exists s, r = Finished s
  end.
Proof using Type.
  revert run x. induction os as [|o os IH]; intros run x H Ho; cbn [Engine.applyAll].
  - eapply frames_ok_mono; [|done]. cbn. intros id Hid. split; [done|apply not_elem_of_nil].
  - pose proof (apply_ok run t x o H (Ho o ltac:(set_solver))) as Hp. unfold apply_post in Hp.
    destruct (apply t x o) as [x' [r|]]; cbn [fst snd] in Hp; [done|].
    specialize (IH _ x' Hp ltac:(intros; apply Ho; set_solver)).
    destruct (applyAll t x' os) as [x'' [r|]]; [done|].
    eapply frames_ok_mono; [|done]. cbn. intros id [[? ?] ?]. split; [done|].
    rewrite not_elem_of_cons. auto.
Qed.

(** ** The measure of a run *)
Definition rem (f : Frame) : Z := Z.max 1 (Z.of_nat (length (Items f)) - Index f).
Definition rems (fs : list Frame) : Z := foldr (fun f a => rem f + a) 0 fs.

(** The steps of the definition that are not settled in the frame. *)
Definition settled (f : Frame) (id : string) : bool :=
  match FNodes f !! id with Some ns => terminal (Status ns) | None => false end.
Definition work (f : Frame) : nat := length (filter (fun n => settled f (nID n) = false) (Nodes def)).

Definition loopItems (st : State) : Z := MaxLoopItems (SLimits st).

Definition measure (st : State) : Z :=
  ((MaxSteps (SLimits st) - Steps st) * (loopItems st + 2) + rems (Frames st)) * (Z.of_nat (length (Nodes def)) + 1)
  + Z.of_nat (work (List.hd topFrame (Frames st))).

Lemma rems_keys fs fs' : map frame_key fs = map frame_key fs' -> rems fs = rems fs'.
Proof using Type.
  assert (E : forall l, rems l = foldr (fun k a => Z.max 1 (Z.of_nat (length k.1.1.2) - k.1.2) + a) 0 (map frame_key l)).
  { intros l. induction l as [|f l IH]; [done|]. cbn [rems foldr map]. by rewrite <- IH. }
  intros H. by rewrite !E, H.
Qed.

Lemma rems_cons f fs : rems (f :: fs) = rem f + rems fs.
Proof using Type. done. Qed.

Lemma rems_pos fs : 0 <= rems fs.
Proof using Type. induction fs as [|f fs IH]; [done|]. rewrite rems_cons. unfold rem. lia. Qed.

Lemma work_le f : (work f <= length (Nodes def))%nat.
Proof using Type. apply length_filter. Qed.

(** Progress of a turn, in the three ways it can be made. *)
Lemma measure_skip st st' :
  Steps st' = Steps st -> SLimits st' = SLimits st -> rems (Frames st') = rems (Frames st) ->
  (work (List.hd topFrame (Frames st')) < work (List.hd topFrame (Frames st)))%nat -> measure st' < measure st.
Proof using Type. intros E1 E2 E3 H. unfold measure, loopItems. rewrite E1, E2, E3. lia. Qed.

Lemma measure_iter st st' :
  Steps st' = Steps st -> SLimits st' = SLimits st -> rems (Frames st') + 1 <= rems (Frames st) ->
  measure st' < measure st.
Proof using Type.
  intros E1 E2 H. unfold measure, loopItems. rewrite E1, E2.
  pose proof (work_le (List.hd topFrame (Frames st'))). nia.
Qed.

Lemma measure_steps st st' k :
  0 <= loopItems st -> 1 <= k -> Steps st' = Steps st + k -> SLimits st' = SLimits st ->
  rems (Frames st') <= rems (Frames st) + loopItems st -> measure st' < measure st.
Proof using Type.
  intros HL Hk E1 E2 H. unfold measure, loopItems in *. rewrite E1, E2.
  pose proof (work_le (List.hd topFrame (Frames st'))).
  set (L := MaxLoopItems (SLimits st)) in *. set (N := Z.of_nat (length (Nodes def))).
  assert (HA : (MaxSteps (SLimits st) - (Steps st + k)) * (L + 2) + rems (Frames st') + 1
             <= (MaxSteps (SLimits st) - Steps st) * (L + 2) + rems (Frames st)) by nia.
  assert (0 <= N) by lia. nia.
Qed.

(** ** Foreach steps keep the invariant *)
Lemma loop_running_ok x y id now :
  Frames (x_st y) = Frames (x_st x) -> frames_ok nobody (Frames (x_st x)) ->
  LoopType (typeAt registry def id) = true ->
  frames_ok (fun j => j = id) (Frames (x_st (setNodeX y id (mkNS NodeRunning "" 1 None "" now)))).
Proof using Type.
  intros E H HL. eapply frames_ok_setNode; [done|done|by intros j _ []|].
  split_and!; cbn [Status WakeAt]; try done; [by intros [?|?]|]. rewrite HL. done.
Qed.

Lemma loop_done_ok x y id st port m now :
  Frames (x_st y) = Frames (x_st x) -> frames_ok (fun j => j = id) (Frames (x_st x)) ->
  LoopType (typeAt registry def id) = true -> terminal st = true ->
  frames_ok nobody (Frames (x_st (setNodeX y id (mkNS st port 1 None m now)))).
Proof using Type.
  intros E H HL Hst. eapply frames_ok_setNode; [done|done|by intros j Hj ->|].
  apply final_ns_ok; [by left|]. by rewrite HL.
Qed.

Lemma setNodeX_keys y id ns :
  Frames (x_st y) <> [] -> map frame_key (Frames (x_st (setNodeX y id ns))) = map frame_key (Frames (x_st y)).
Proof using Type. cbn. unfold frame. by destruct (Frames (x_st y)). Qed.

Definition loop_post (x x' : stepper) : Prop :=
  SLimits (x_st x') = SLimits (x_st x) /\ Steps (x_st x') = Steps (x_st x) + 1 /\
  rDry (x_run x') = rDry (x_run x) /\
  frames_ok nobody (Frames (x_st x')) /\ rems (Frames (x_st x')) <= rems (Frames (x_st x)) + loopItems (x_st x).

(** A foreach step that ends without a new frame. *)
Lemma loop_end x y id st port m now :
  Frames (x_st y) = Frames (x_st x) -> SLimits (x_st y) = SLimits (x_st x) ->
  Steps (x_st y) = Steps (x_st x) -> rDry (x_run y) = rDry (x_run x) -> 0 <= loopItems (x_st x) ->
  frames_ok (fun j => j = id) (Frames (x_st x)) -> LoopType (typeAt registry def id) = true -> terminal st = true ->
  let x' := setNodeX y id (mkNS st port 1 None m now) in
  SLimits (x_st x') = SLimits (x_st x) /\ Steps (x_st x') = Steps (x_st x) /\ rDry (x_run x') = rDry (x_run x) /\
  frames_ok nobody (Frames (x_st x')) /\ rems (Frames (x_st x')) <= rems (Frames (x_st x)) + loopItems (x_st x).
Proof using Type.
  intros E1 E2 E3 E4 HL H Ht Hst x'. split_and!; try done; [by apply (loop_done_ok x y)|].
  subst x'. rewrite (rems_keys _ (Frames (x_st y))), E1; [lia|]. apply setNodeX_keys. rewrite E1.
  by eapply frames_ok_nonempty.
Qed.

Lemma int_limit (m L : Z) : (if decide (0 < m /\ m < L) then m else L) <= L.
Proof using Type. case_decide; lia. Qed.

Lemma startLoop_ok now json a x id :
  frames_ok nobody (Frames (x_st x)) -> LoopType (typeAt registry def id) = true -> id <> ""%string ->
  1 <= loopItems (x_st x) -> loop_post x (startLoop now json a x id).
Proof using Type.
  intros H HL Hid Hitems. unfold Engine.startLoop. cbv zeta.
  set (x0 := setState x (setSteps (x_st x) (Steps (x_st x) + 1))).
  set (x1 := setNodeX x0 id _).
  assert (K1 : frames_ok (fun j => j = id) (Frames (x_st x1))) by (by apply (loop_running_ok x x0)).
  assert (K2 : rems (Frames (x_st x1)) = rems (Frames (x_st x))).
  { apply rems_keys. apply (setNodeX_keys x0). by eapply frames_ok_nonempty. }
  assert (K3 : SLimits (x_st x1) = SLimits (x_st x) /\ Steps (x_st x1) = Steps (x_st x) + 1 /\
               rDry (x_run x1) = rDry (x_run x)) by done.
  assert (K4 : loopItems (x_st x1) = loopItems (x_st x)) by done.
  clearbody x1. clear x0.
  assert (Hend : forall y st port m w,
      Frames (x_st y) = Frames (x_st x1) -> SLimits (x_st y) = SLimits (x_st x1) ->
      Steps (x_st y) = Steps (x_st x1) -> rDry (x_run y) = rDry (x_run x1) -> terminal st = true ->
      loop_post x (setNodeX y id (mkNS st port 1 None m w))).
  { intros y st port m w E1 E2 E3 E4 Hst.
    destruct (loop_end x1 y id st port m w) as (?&?&?&?&?); try done; [lia|].
    destruct K3 as (?&?&?). unfold loop_post. split_and!; try congruence; lia. }
  assert (Hout : forall y v, loop_post x y -> loop_post x (setOut y id v)) by done.
  assert (Hfail : forall m, loop_post x (loopFail def x1 id now m)).
  { intros m. unfold loopFail. by apply (Hend x1). }
  assert (Hpush : forall y sc l,
      Frames (x_st y) = Frames (x_st x1) -> SLimits (x_st y) = SLimits (x_st x1) ->
      Steps (x_st y) = Steps (x_st x1) -> rDry (x_run y) = rDry (x_run x1) -> Z.of_nat (length l) <= loopItems (x_st x) ->
      loop_post x (setState y (setFrames (x_st y) (mkFrame id sc l 0 ∅ [] :: Frames (x_st y))))).
  { intros y sc l E1 E2 E3 E4 Hl. destruct K3 as (?&?&?). unfold loop_post.
    cbn [x_st x_run setState setFrames SLimits Steps Frames]. rewrite E1.
    split_and!; try congruence.
    - cbn [frames_ok FNodes Loop]. split; [apply map_Forall_empty|].
      destruct (Frames (x_st x1)) as [|f0 rest]; [destruct K1|by split_and!].
    - rewrite !rems_cons. unfold rem. cbn [Items Index]. lia. }
  destruct (aRender a) as [cfg|e]; [|apply Hfail].
  match goal with |- context [match ?i with Some _ => _ | None => loopFail _ _ _ _ "items must be a list" end] => destruct i as [items|] end;
    [|apply Hfail].
  set (lim := if decide (0 < int_of (field "max"%string cfg) 0 /\ _) then _ else _).
  assert (Hlim : lim <= loopItems (x_st x)) by (rewrite <- K4; apply int_limit). clearbody lim.
  destruct (decide (lim < Z.of_nat (length items))) as [Hlt|Hge]; cbv beta iota zeta.
  - case_decide; [by apply Hout, (Hend (report (report x1 _) _))|].
    apply (Hpush (report (report x1 _) _)); try done. rewrite length_take. lia.
  - case_decide; [by apply Hout, (Hend (report x1 _))|]. apply (Hpush (report x1 _)); try done. lia.
Qed.

Lemma nextIteration_ok x f rest :
  Frames (x_st x) = f :: rest -> Loop f <> ""%string -> frames_ok nobody (Frames (x_st x)) ->
  exists x', nextIteration x = Some x' /\
    SLimits (x_st x') = SLimits (x_st x) /\ Steps (x_st x') = Steps (x_st x) /\
    frames_ok nobody (Frames (x_st x')) /\ rems (Frames (x_st x')) + 1 <= rems (Frames (x_st x)).
Proof using Type.
  intros E Hl H. rewrite E in *. destruct rest as [|p rest].
  { destruct H as [_ ?]. done. }
  destruct H as (Hf & Hne & HL & Hp). unfold Engine.nextIteration. rewrite E.
  cbv zeta. case_decide as Hi; (eexists; split; [reflexivity|]).
  - split_and!; try done. cbn [x_st setState setFrames Frames].
    rewrite !rems_cons. unfold rem; cbn [Items Index]. lia.
  - split_and!; try done.
    + cbn [x_st setState setFrames setOutput Frames frames_ok setNode FNodes Loop].
      destruct Hp as [Hp Hrest]. split; [|done].
      intros j nj Hj. apply lookup_insert_Some in Hj as [[<- <-]|[Hj1 Hj2]].
      * apply final_ns_ok; [by left|]. rewrite HL. done.
      * eapply ns_ok_mono; [|by apply Hp]. cbn. congruence.
    + cbn [x_st setState setFrames setOutput Frames]. rewrite !rems_cons.
      pose proof (rems_pos rest). unfold rem; cbn [Items Index setNode]. lia.
Qed.

(** ** One turn *)
Lemma wakeNode_terminal now ns : terminal (Status ns) = true -> terminal (Status (wakeNode now ns)) = true.
Proof using Type. 
  unfold wakeNode. destruct (WakeAt ns); [|done]. case_decide; [done|].
  by destruct (Status ns) eqn:E; rewrite ?E.
Qed.

Lemma wake_settled f now id : settled f id = true -> settled (wake f now) id = true.
Proof using Type.
  unfold settled, wake; cbn [FNodes]. rewrite lookup_fmap. destruct (FNodes f !! id); [|done].
  cbn. apply wakeNode_terminal.
Qed.

Lemma work_mono f f' : (forall id, settled f id = true -> settled f' id = true) -> (work f' <= work f)%nat.
Proof using Type.
  intros H. apply length_filter_mono. intros n Hn. destruct (settled f (nID n)) eqn:E; [|done].
  rewrite H in Hn; done.
Qed.

Lemma work_lt f f' id : (forall id, settled f id = true -> settled f' id = true) ->
  (exists n, n ∈ Nodes def /\ nID n = id) -> settled f id = false -> settled f' id = true -> (work f' < work f)%nat.
Proof using Type.
  intros H (n & Hn & <-) H1 H2. unfold work. eapply (length_filter_lt _ _ _ n); try done; [|by rewrite H2].
  intros m Hm. destruct (settled f (nID m)) eqn:E; [|done]. rewrite H in Hm; done.
Qed.

Lemma setNodeX_settled x id ns j :
  settled (frame (setNodeX x id ns)) j = if decide (j = id) then terminal (Status ns) else settled (frame x) j.
Proof using Type.
  unfold settled, setNodeX, setFrame, setState, frame; cbn. case_decide as Hj.
  - subst j. by rewrite lookup_insert_eq.
  - by rewrite lookup_insert_ne.
Qed.

Lemma skip_fold sk run x :
  frames_ok run (Frames (x_st x)) ->
  let x' := fold_left skipNode sk x in
  frames_ok run (Frames (x_st x')) /\ shape x x' /\
  (forall j, settled (frame x) j = true -> settled (frame x') j = true) /\
  (forall j, j ∈ sk -> settled (frame x') j = true).
Proof using Type.
  cbv zeta. revert x. induction sk as [|id sk IH]; intros x H; cbn [fold_left].
  { split_and!; try done. by intros j ?%not_elem_of_nil. }
  destruct (IH (skipNode x id)) as (H1 & H2 & H3 & H4).
  { apply (setNodeX_here run x x); [done..|]. apply final_ns_ok; [by left|].
    intros _. pose proof (maxAtt_range id). lia. }
  assert (Hs : forall j, settled (frame (skipNode x id)) j = if decide (j = id) then true else settled (frame x) j)
    by (intros j; apply (setNodeX_settled x id)).
  split_and!; [done|..].
  - trans (skipNode x id); [apply setNodeX_shape|done].
  - intros j Hj. apply H3. rewrite Hs. by case_decide.
  - intros j [->|Hj]%elem_of_cons; [|auto]. apply H3. rewrite Hs. by case_decide.
Qed.

Lemma exec_id dry id attempt a :
  o_id (exec registry def dry id attempt a).1 = id /\ o_attempt (exec registry def dry id attempt a).1 = attempt.
Proof using Type.
  unfold exec. repeat first [case_match|progress cbn [fst o_id o_attempt]]; try done.
Qed.

Lemma shape_rems x y : shape x y -> Frames (x_st x) <> [] -> rems (Frames (x_st y)) = rems (Frames (x_st x)).
Proof using Type. intros (_ & _ & _ & _ & H) Hne. by apply rems_keys, H. Qed.

Definition turn_post (x : stepper) (p : stepper * option return_) : Prop :=
  SLimits (x_st p.1) = SLimits (x_st x) /\ rDry (x_run p.1) = rDry (x_run x) /\
  match p.2 with
  | None => state_ok (x_st p.1) /\ measure (x_st p.1) < measure (x_st x)
  | Some r => r <> Crashed /\ 0 <= Steps (x_st p.1) <= MaxSteps (SLimits (x_st x)) /\
              ((forall s, r <> Finished s) -> state_ok (x_st p.1))
  end.

Definition batch_size (st : State) (rd : list string) : list string :=
  let budget := MaxSteps (SLimits st) - Steps st in
  let mx := MaxParallel (SLimits st) in
  let mx := if decide (budget < mx) then budget else mx in
  if decide (mx < Z.of_nat (length rd)) then take (Z.to_nat mx) rd else rd.

Lemma batch_size_spec st rd :
  rd <> [] -> 1 <= MaxParallel (SLimits st) -> Steps st < MaxSteps (SLimits st) ->
  let ids := batch_size st rd in
  1 <= Z.of_nat (length ids) <= MaxSteps (SLimits st) - Steps st /\
  Z.of_nat (length ids) <= MaxParallel (SLimits st) /\ (forall id, id ∈ ids -> id ∈ rd).
Proof using Type.
  intros Hne Hp Hs. unfold batch_size. cbv zeta. set (mx := if decide _ then _ else MaxParallel (SLimits st)).
  assert (1 <= mx /\ mx <= MaxParallel (SLimits st) /\ mx <= MaxSteps (SLimits st) - Steps st)
    by (subst mx; case_decide; lia).
  clearbody mx. assert (1 <= length rd)%nat by (destruct rd; cbn [length]; [done|lia]).
  case_decide; [|split_and!; [lia..|done]].
  rewrite length_take. split_and!; [lia..|]. intros id Hid. rewrite <- (take_drop (Z.to_nat mx) rd).
  apply elem_of_app. by left.
Qed.

(** The batch of a turn. *)
Lemma turn_batch t x ids :
  state_ok (x_st x) -> 1 <= Z.of_nat (length ids) <= MaxSteps (SLimits (x_st x)) - Steps (x_st x) ->
  (forall id, id ∈ ids -> startable x id /\ Status (default zeroNS (FNodes (frame x) !! id)) = NodeNone /\
     exists n, findNode def id = Some n) ->
  turn_post x (let '(x1, os) := runBatch registry def t x ids in
    match applyAll t x1 (map fst os) with (x2, Some r) => (x2, Some r) | (x2, None) => saving t x2 end).
Proof using Type.
  intros Hok Hlen Hids. pose proof (so_frames _ Hok) as Hf. pose proof (frames_ok_nonempty _ _ Hf) as Hne.
  unfold runBatch. destruct (start_batch (tNow t) ids nobody x Hf) as (B1 & B2 & B3 & B4 & B5 & B6);
    [by intros; apply Hids|]. cbv zeta.
  set (x1 := fold_left (startStep (tNow t)) ids x) in *.
  set (os := map fst _).
  assert (Hos : forall o, o ∈ os -> o_id o ∈ ids /\ o_attempt o = attemptsOf (frame x) (o_id o) + 1).
  { intros o Ho. subst os. apply list_elem_of_fmap in Ho as (oe & -> & Ho).
    apply list_elem_of_fmap in Ho as (id & -> & Hid). rewrite B6.
    destruct (exec_id (rDry (x_run x1)) id (attemptsOf (frame x) id + 1) (tAdapter t id)) as [-> ->]. done. }
  assert (Hmap : map o_id os = ids).
  { subst os. rewrite !map_map. etrans; [|apply map_id]. apply map_ext. intros id. apply exec_id. }
  pose proof (applyAll_shape t x1 os) as (S1 & S2 & S3 & _ & S5).
  pose proof (applyAll_ok _ t x1 os B1) as Ha. ospecialize (Ha _).
  { intros o Ho. destruct (Hos o Ho) as [Hid Hat]. destruct (Hids _ Hid) as (_ & Hs & Hn).
    split; [done|]. intros HL. rewrite Hat. unfold attemptsOf.
    destruct (frames_ok_get nobody x (o_id o) Hf) as (_ & _ & _ & _ & Hatt).
    destruct (Hatt HL) as [? Hlt]. specialize (Hlt (or_introl Hs)). lia. }
  assert (Hlim : limits_ok (SLimits (x_st x))) by apply Hok.
  assert (0 <= loopItems (x_st x)).
  { destruct Hlim as [Hl _]. revert Hl. unfold in_bound, loopItems. eval_caps. cbn [b_min b_max]. lia. }
  pose proof (so_steps _ Hok) as Hst.
  destruct (applyAll t x1 os) as [x2 [r|]]; cbn [fst] in *.
  - destruct Ha as [s ->]. unfold turn_post; cbn [fst snd]. split_and!; try congruence; [lia..|]. intros Hs. by destruct (Hs s).
  - assert (Hx2 : state_ok (x_st x2)).
    { constructor; [by rewrite S1, B3|rewrite S1, B3; lia|].
      eapply frames_ok_mono; [|exact Ha]. cbn. rewrite Hmap. clear redactText. unfold nobody. tauto. }
    assert (Hm : measure (x_st x2) < measure (x_st x)).
    { apply (measure_steps _ _ (Z.of_nat (length ids))); [done|lia|by rewrite S2|congruence|].
      rewrite (rems_keys (Frames (x_st x2)) (Frames (x_st x1))), (rems_keys (Frames (x_st x1)) (Frames (x_st x))); [lia|done|].
      apply S5. by eapply frames_ok_nonempty. }
    unfold saving, turn_post; cbn [fst snd]. destruct (tSaveOK t); split_and!; try congruence; try done; lia.
Qed.

Definition ids_ok : Prop := forall n, n ∈ Nodes def -> nID n <> ""%string.

Lemma wake_props x now :
  state_ok (x_st x) ->
  let x' := setFrame x (wake (frame x) now) in
  state_ok (x_st x') /\ shape x x' /\ measure (x_st x') <= measure (x_st x).
Proof using Type.
  intros H x'. pose proof (wake_shape x now) as Hsh. fold x' in Hsh.
  pose proof (frames_ok_nonempty _ _ (so_frames _ H)) as Hne. split_and!; [|done|].
  - constructor; [apply H|apply H|]. apply wake_ok, H.
  - assert (Hw : (work (frame x') <= work (frame x))%nat).
    { apply work_mono. intros id Hid. apply (wake_settled _ now) in Hid. exact Hid. }
    unfold measure, loopItems. rewrite (shape_rems x x') by done. destruct Hsh as (-> & -> & _).
    unfold frame in Hw. lia.
Qed.

Lemma turn_post_finish now x y st msg :
  SLimits (x_st y) = SLimits (x_st x) -> rDry (x_run y) = rDry (x_run x) ->
  0 <= Steps (x_st y) <= MaxSteps (SLimits (x_st x)) ->
  turn_post x (let '(z, r) := finish now y st msg in (z, Some r)).
Proof using Type. intros. unfold turn_post, finish; cbn. split_and!; try done; [lia..|]. intros H2. by destruct (H2 st). Qed.

Lemma turn_post_end x y r :
  state_ok (x_st y) -> SLimits (x_st y) = SLimits (x_st x) -> rDry (x_run y) = rDry (x_run x) -> r <> Crashed ->
  turn_post x (y, Some r).
Proof using Type.
  intros H E1 E2 Hr. unfold turn_post; cbn [fst snd]. pose proof (so_steps _ H) as Hs. rewrite E1 in Hs. split_and!; try done; lia.
Qed.

(** A turn's saved end: the run continues, or the save failed. *)
Lemma turn_post_saving t x y :
  state_ok (x_st y) -> SLimits (x_st y) = SLimits (x_st x) -> rDry (x_run y) = rDry (x_run x) ->
  measure (x_st y) < measure (x_st x) -> turn_post x (saving t y).
Proof using Type.
  intros. unfold saving. destruct (tSaveOK t); [unfold turn_post; cbn [fst snd]; by split_and!|by apply turn_post_end].
Qed.

(** A turn that skips steps. *)
Lemma turn_skip x : state_ok (x_st x) -> picked (frame x) false <> [] ->
  turn_post x (fold_left skipNode (picked (frame x) false) x, None).
Proof using Type redactText.
  intros Hok Hsk. pose proof (frames_ok_nonempty _ _ (so_frames _ Hok)) as Hne. set (sk := picked (frame x) false) in *.
  destruct (skip_fold sk nobody x (so_frames _ Hok)) as (F1 & F2 & F3 & F4). cbv zeta in *.
  pose proof F2 as (G1 & G2 & G3 & _). unfold turn_post; cbn [fst snd]. split_and!; [done..| |].
  - constructor; [rewrite G1; apply Hok|rewrite G1, G2; apply Hok|done].
  - apply measure_skip; [done|done|by apply shape_rems|].
    destruct sk as [|id sk'] eqn:Esk; [done|].
    destruct (picked_in (frame x) false id) as (Hn & Hu & _); [unfold sk in Esk; rewrite Esk; set_solver|].
    apply (work_lt _ _ id); [done|done| |apply F4; set_solver].
    unfold settled. unfold untouched in Hu. apply andb_true_iff in Hu as [_ Hu]. fold (frame x).
    destruct (FNodes (frame x) !! id); [|done]. apply bool_decide_eq_true in Hu. by rewrite Hu.
Qed.

(** A turn in which nothing can run: park, go on with the loop, or finish. *)
Lemma turn_idle t deadline x f rest :
  state_ok (x_st x) -> Frames (x_st x) = f :: rest -> 1 <= MaxLoopItems (SLimits (x_st x)) ->
  turn_post x (match park (tNow t) deadline (tSaveOK t) x with
               | Some p => let '(y, r) := p in (y, Some r)
               | None => if decide (Loop f <> ""%string)
                         then match nextIteration x with None => (x, Some Crashed) | Some y => saving t y end
                         else let '(y, r) := finish (tNow t) x RunSucceeded "" in (y, Some r)
               end).
Proof using Type.
  intros Hok Hl HL. pose proof (so_steps _ Hok) as Hst. unfold park. destruct (earliest (frame x)) as [w|].
  { case_decide; [by apply turn_post_finish|]. apply turn_post_end; [exact Hok|done..|by destruct (tSaveOK t)]. }
  destruct (approvalPending (frame x)).
  { apply turn_post_end; [exact Hok|done..|by destruct (tSaveOK t)]. }
  case_decide as Hloop; [|by apply turn_post_finish].
  destruct (nextIteration_ok x _ _ Hl) as (y & Hy & N1 & N2 & N3 & N4); [done|apply Hok|].
  rewrite Hy.
  assert (rDry (x_run y) = rDry (x_run x)).
  { revert Hy. unfold Engine.nextIteration. rewrite Hl. clear. destruct rest; [done|]. case_decide; by intros [= <-]. }
  assert (state_ok (x_st y)) by (constructor; [rewrite N1; apply Hok|rewrite N1, N2; apply Hok|done]).
  by apply turn_post_saving; [..|apply (measure_iter _ _ N2 N1 N4)].
Qed.

(** Every turn keeps the invariant and either ends the call, never by a crash, or
    makes the measure smaller. *)
Lemma turn_ok t x : ids_ok -> state_ok (x_st x) -> turn_post x (turn t x).
Proof using Type.
  intros Hids Hok. pose proof (so_steps _ Hok) as Hst. pose proof (so_limits _ Hok) as Hlim.
  assert (HL : 1 <= MaxLoopItems (SLimits (x_st x)) /\ 1 <= MaxParallel (SLimits (x_st x))).
  { revert Hlim. unfold limits_ok, in_bound. eval_caps. cbn [b_min b_max]. lia. }
  unfold Engine.turn. case_decide; [by apply turn_post_finish|].
  destruct (tCtxDone t).
  { apply turn_post_end; [done..|by destruct (tSaveOK t)]. }
  case_decide; [by apply turn_post_finish|].
  pose proof (frames_ok_nonempty _ _ (so_frames _ Hok)) as Hne.
  destruct (wake_props x (tNow t) Hok) as (Hok1 & Hsh1 & Hm1). cbv zeta in Hok1, Hsh1, Hm1.
  destruct (Frames (x_st x)) as [|f0 rest0] eqn:Efr; [done|].
  assert (Efx : frame x = f0) by (unfold frame; by rewrite Efr). rewrite Efx in *.
  set (x1 := setFrame x (wake f0 (tNow t))) in *.
  assert (Hl1 : Frames (x_st x1) = wake f0 (tNow t) :: rest0) by (subst x1; cbn; by rewrite Efr).
  pose proof Hsh1 as (S1 & S2 & S3 & S4 & _).
  rewrite ready_spec. cbv beta iota. set (rd := picked _ true). set (sk := picked _ false).
  assert (Hpick : forall b id, id ∈ picked (frame x1) b ->
    (exists n, findNode def id = Some n) /\ id <> ""%string /\ untouched owners (frame x1) id = true).
  { intros b id Hid. apply picked_in in Hid as ((n & Hn & <-) & Hu & _).
    split_and!; [apply findNode_in; eauto|by apply Hids|done]. }
  assert (Hpost : forall p, turn_post x1 p -> turn_post x p).
  { intros [y r] (P1 & P2 & P3). unfold turn_post; cbn [fst snd] in *. split_and!; try congruence.
    rewrite <- S1. destruct r; [done|]. destruct P3; split; [done|lia]. }
  case_decide as Hsk; [by apply Hpost, turn_skip|]. case_decide as Hrd.
  { apply Hpost. apply (turn_idle t _ x1 (wake f0 (tNow t)) rest0); [done|done|rewrite S1; lia]. }
  case_decide as Hmax; [by apply turn_post_finish; rewrite ?S1, ?S2|].
  destruct (firstLoop registry def rd) as [id|] eqn:Efl.
  - apply List.find_some in Efl as [Hin HLT]. apply list_elem_of_In in Hin.
    destruct (Hpick true id Hin) as (_ & Hne' & _). apply Hpost.
    destruct (startLoop_ok (tNow t) (tJSON t) (tAdapter t id) x1 id) as (L1 & L2 & L3 & L4 & L5);
      [apply Hok1|done|done|unfold loopItems; rewrite S1; lia|].
    set (x2 := startLoop _ _ _ _ _) in *.
    assert (state_ok (x_st x2)) by (constructor; [rewrite L1; apply Hok1|rewrite L1, L2, S1, S2; rewrite S1, S2 in Hmax; lia|done]).
    assert (measure (x_st x2) < measure (x_st x1)).
    { apply (measure_steps _ _ 1); try done. unfold loopItems. rewrite S1. lia. }
    by apply turn_post_saving.
  - destruct (batch_size_spec (x_st x1) rd) as (B1 & B2 & B3); [done|rewrite S1; lia|lia|].
    change (if decide (_ < Z.of_nat (length rd)) then _ else rd) with (batch_size (x_st x1) rd).
    apply Hpost, turn_batch; [done|done|].
    intros id Hid. apply B3 in Hid. destruct (Hpick true id Hid) as (Hn & _ & Hu).
    split; [by apply untouched_startable|split; [|done]].
    unfold untouched in Hu. apply andb_true_iff in Hu as [_ Hu].
    destruct (FNodes (frame x1) !! id); [|done]. by apply bool_decide_eq_true in Hu.
Qed.
End props.
