(* ===== verification/EngineRun.v ===== *)
(** * The run engine's theorems

    Over everything the store can hold ([stored]): a call of [step] ends within an
    explicit number of turns and never crashes; a run succeeds only when every step
    is settled; retries, dry runs and the destructive limit; what the recovery of
    interrupted steps does and that it never has anything to do. *)
From S2P Require Export EngineProps.

Section run.
Context `{CT : CaseTables} (redactText : string -> string) (jsonLen : value -> option Z).
Context (registry : string -> option NodeType) (def : Definition_) (owners : gmap string string).

Notation turn := (turn redactText jsonLen registry def owners).
Notation step_loop := (step_loop redactText jsonLen registry def owners).
Notation step := (step redactText jsonLen registry def owners).
Notation state_ok := (state_ok registry def).
Notation frames_ok := (frames_ok registry def).
Notation ns_ok := (ns_ok registry def).
Notation Approve := (Approve redactText jsonLen).
Notation recoverInterrupted := (recoverInterrupted registry def).
Notation ids_ok := (ids_ok def).
Notation measure := (measure def).
Notation ready := (ready def owners).

(** ** What the store can hold *)

(** The states a run can leave behind, at the end of any turn of any call of [step],
    after an approval, and after being read back. *)
Inductive stored : State -> Prop :=
  | stored_new limits vars lines : stored (NewState limits vars lines)
  | stored_turn st run t x : stored st -> turn t (mkX run st) = (x, None) -> stored (x_st x)
  | stored_end st run t x r : stored st -> turn t (mkX run st) = (x, Some r) ->
      (forall s, r <> Finished s) -> stored (x_st x)
  | stored_approve st id by_ ok note at_ run run' st' : stored st ->
      Approve id by_ ok note at_ run st = Ok (run', st') -> stored st'
  | stored_decode st : stored st -> stored (DecodeState st).

Lemma Normalized_MaxSteps l : limits_ok l -> MaxSteps (Normalized l) = MaxSteps l.
Proof using Type.
  intros (_ & H & _). unfold Normalized; cbn [MaxSteps]. apply clamp_id; [|done].
  revert H. unfold in_bound. eval_caps. cbn [b_min b_max]. lia.
Qed.

Lemma Approve_ok id by_ ok note at_ run st run' st' :
  state_ok st -> Approve id by_ ok note at_ run st = Ok (run', st') -> state_ok st'.
Proof using Type.
  intros Hok. unfold Engine.Approve. case_decide; [done|].
  pose proof (so_frames _ _ _ Hok) as Hf. destruct (Frames st) as [|f rest] eqn:E; [done|].
  cbv zeta. generalize (approvalStep id f). intros nid.
  destruct (FNodes f !! nid) as [ns|] eqn:En; [|done]. case_decide as Ha; [done|].
  intros [= <- <-]. constructor; [apply Hok|apply Hok|].
  cbn [Frames setOutput setFrames]. destruct Hf as [Hf Hr]. split; [|exact Hr].
  cbn [setNode FNodes]. apply map_Forall_insert_2; [|done].
  pose proof (Hf _ _ En) as (_ & _ & _ & _ & Hatt).
  apply final_ns_ok; [by left|]. intros HL. by apply Hatt.
Qed.

Lemma stored_ok st : ids_ok -> stored st -> state_ok st.
Proof using Type.
  intros Hids. induction 1 as [limits vars lines|st run t x _ IH Ht|st run t x r _ IH Ht Hr|st ? ? ? ? ? ? ? st' _ IH Ha|st _ IH].
  - constructor; [apply Normalized_in_caps| |].
    + cbn [SLimits NewState Steps]. pose proof (Normalized_in_caps limits) as (_ & H & _).
      revert H. unfold in_bound. eval_caps. cbn [b_min b_max]. lia.
    + cbn. split; [apply map_Forall_empty|done].
  - pose proof (turn_ok redactText jsonLen registry def owners t (mkX run st) Hids IH) as (_ & _ & Hp).
    rewrite Ht in Hp. apply Hp.
  - pose proof (turn_ok redactText jsonLen registry def owners t (mkX run st) Hids IH) as (_ & _ & Hp).
    rewrite Ht in Hp. by apply Hp.
  - by eapply Approve_ok.
  - pose proof (so_limits _ _ _ IH) as Hl. constructor.
    + apply Normalized_in_caps.
    + cbn [DecodeState SLimits Steps]. rewrite Normalized_MaxSteps by done. apply IH.
    + cbn [DecodeState Frames]. pose proof (so_frames _ _ _ IH). by destruct (Frames st).
Qed.

(** ** Recovery *)
Lemma recoverNode_id id ns : (Status ns = NodeRunning -> LoopType (typeAt registry def id) = true) ->
  recoverNode registry def id ns = (ns, None).
Proof using Type.
  intros H. unfold recoverNode. case_decide as Hs; [done|specialize (H Hs)].
  unfold typeAt in H. destruct (findNode def id) as [n|]; [|done]. by rewrite H.
Qed.

Lemma loop_running run fs :
  (forall id, run id -> LoopType (typeAt registry def id) = true) -> frames_ok run fs ->
  Forall (fun f => map_Forall (fun id ns => Status ns = NodeRunning -> LoopType (typeAt registry def id) = true) (FNodes f)) fs.
Proof using Type.
  revert run. induction fs as [|f rest IH]; intros run Hr H; [constructor|]. destruct H as [Hf Hrest]. constructor.
  - intros id ns Hns Hs. apply Hr. by apply (Hf id ns Hns).
  - destruct rest as [|p rest]; [constructor|]. destruct Hrest as (_ & HL & Hp).
    by apply (IH (fun id => id = Loop f)); [intros ? ->|].
Qed.

Lemma recover_id fs : frames_ok nobody fs -> recoverInterrupted fs = (fs, ""%string).
Proof using Type.
  intros H. apply loop_running in H; [|by intros ? []]. unfold Engine.recoverInterrupted. f_equal.
  - induction H as [|f fs Hf _ IH]; [done|]. cbn [map]. rewrite IH. f_equal. destruct f as [l s it ix ns res]; cbn in *. f_equal.
    apply map_eq. intros id. rewrite map_lookup_imap. destruct (ns !! id) as [n|] eqn:E; [|done]. cbn.
    by rewrite recoverNode_id by (by apply (Hf id)).
  - enough (E : omap (fun p : string * NodeState => (recoverNode registry def p.1 p.2).2)
      (concat (map (fun f => map_to_list (FNodes f)) (rev fs))) = []) by (by rewrite E).
    apply Forall_rev in H.
    induction H as [|f l Hf _ IH]; [done|]. cbn [map concat]. rewrite omap_app, IH, app_nil_r.
    assert (Hl : forall p, p ∈ map_to_list (FNodes f) -> (recoverNode registry def p.1 p.2).2 = None).
    { intros [id ns] Hp%elem_of_map_to_list. cbn. by rewrite recoverNode_id by (by apply (Hf id)). }
    induction (map_to_list (FNodes f)) as [|p ps IHp]; [done|]. cbn.
    rewrite (Hl p) by set_solver. apply IHp. intros; apply Hl. set_solver.
Qed.

(** ** Termination *)
Definition step_fuel (st : State) : nat := S (Z.to_nat (measure st)).

Lemma measure_nonneg st : state_ok st -> 0 <= measure st.
Proof using Type.
  intros H. unfold EngineProps.measure, loopItems. pose proof (so_steps _ _ _ H). pose proof (so_limits _ _ _ H) as [Hl _].
  revert Hl. unfold in_bound. eval_caps. cbn [b_min b_max]. intros Hl. pose proof (rems_pos (Frames st)).
  set (A := _ * _). assert (0 <= A) by (apply Z.mul_nonneg_nonneg; [apply Z.add_nonneg_nonneg; [apply Z.mul_nonneg_nonneg|]|]; lia).
  lia.
Qed.

Lemma step_loop_ends fuel ticks x :
  ids_ok -> state_ok (x_st x) -> measure (x_st x) < Z.of_nat fuel ->
  exists x' r, step_loop fuel ticks x = Some (x', r) /\ r <> Crashed /\
    Steps (x_st x') <= MaxSteps (SLimits (x_st x)) /\ rDry (x_run x') = rDry (x_run x) /\
    ((forall s, r <> Finished s) -> state_ok (x_st x')).
Proof using Type.
  intros Hids. revert ticks x. induction fuel as [|fuel IH]; intros ticks x Hok Hfuel.
  { pose proof (measure_nonneg _ Hok). lia. }
  cbn [Engine.step_loop]. pose proof (turn_ok redactText jsonLen registry def owners (ticks O) x Hids Hok) as (H1 & H2 & H3).
  destruct (turn (ticks O) x) as [x' [r|]]; cbn [fst snd] in *.
  - destruct H3 as (? & ? & ?). exists x', r. split_and!; try done. lia.
  - destruct H3 as [Hok' Hm]. destruct (IH (fun i => ticks (S i)) x') as (x'' & r & E & ? & ? & ? & ?); [done|lia|].
    exists x'', r. rewrite H1 in *. split_and!; try done. congruence.
Qed.

(** C6: whatever the adapters, the clock, the store and the operator do, a call of
    [step] on any state a run can have stored ends within [step_fuel] turns: it
    finishes the run, parks it, or leaves it for the next worker, and never indexes
    out of range; the step count never passes [MaxSteps]; and what it leaves behind
    is again a state from which the same holds. *)
Theorem step_terminates now0 save0 ticks run st fuel :
  ids_ok -> stored st -> (step_fuel st <= fuel)%nat ->
  exists x r, step fuel now0 save0 ticks run st = Some (x, r) /\ r <> Crashed /\
    Steps (x_st x) <= MaxSteps (SLimits st) /\ rDry (x_run x) = rDry run /\
    ((forall s, r <> Finished s) -> state_ok (x_st x)).
Proof using Type.
  intros Hids Hst Hfuel. apply stored_ok in Hst as Hok; [|done]. pose proof (so_steps _ _ _ Hok).
  unfold Engine.step. rewrite recover_id by apply Hok. cbv zeta.
  assert (E : setFrames st (Frames st) = st) by (by destruct st). rewrite E. clear E.
  destruct save0; cbn [negb].
  - rewrite decide_False by (intros H'; by apply H').
    match goal with |- context [step_loop fuel ticks ?y] =>
      destruct (step_loop_ends fuel ticks y) as (x & r & H1 & H2 & H3 & H4 & H5) end; [done|done| |].
    + unfold step_fuel in Hfuel. pose proof (measure_nonneg _ Hok). cbn [x_st]. lia.
    + exists x, r. by split_and!.
  - eexists _, _. split; [reflexivity|]. split_and!; try done. cbn [x_st]. lia.
Qed.

(** ** No step is lost *)
Lemma earliest_none f id ns :
  earliest f = None -> FNodes f !! id = Some ns ->
  Status ns = NodeWaiting \/ Status ns = NodeRetrying -> WakeAt ns = None.
Proof using Type.
  unfold earliest. intros H Hns%elem_of_map_to_list Hs.
  induction (map_to_list (FNodes f)) as [|p ps IH]; [by apply not_elem_of_nil in Hns|].
  cbn [fold_right] in H. apply elem_of_cons in Hns as [<-|Hin].
  - cbn [snd] in H. destruct Hs as [E|E]; rewrite E in H; destruct (WakeAt ns); try done;
      by destruct (fold_right _ None ps).
  - apply IH; [|done]. destruct (Status p.2), (WakeAt p.2); try done; by destruct (fold_right _ None ps).
Qed.

Lemma approval_none f id ns :
  approvalPending f = false -> FNodes f !! id = Some ns -> Status ns <> NodeApproval.
Proof using Type.
  unfold approvalPending. intros H Hns%elem_of_map_to_list Hs.
  apply not_true_iff_false in H. apply H, existsb_exists. exists (id, ns).
  split; [by apply list_elem_of_In|]. by rewrite bool_decide_true.
Qed.

Lemma incoming_blocked f es act :
  (incoming f es act).1 = false ->
  exists e, e ∈ es /\ eFrom e <> TriggerID /\ ~ (Loop f <> ""%string /\ eFrom e = Loop f /\ ePort e = "each"%string) /\
            settled f (eFrom e) = false.
Proof using Type.
  revert act. induction es as [|e es IH]; intros act; cbn [incoming]; [done|].
  assert (Hrec : forall b, (incoming f es b).1 = false -> exists e0, e0 ∈ e :: es /\ eFrom e0 <> TriggerID /\
    ~ (Loop f <> ""%string /\ eFrom e0 = Loop f /\ ePort e0 = "each"%string) /\ settled f (eFrom e0) = false).
  { intros b Hb. destruct (IH b Hb) as (e0 & ? & ?). exists e0. split; [by right|done]. }
  repeat (case_decide; [by eauto|]). unfold settled in *.
  destruct (FNodes f !! eFrom e) as [p|] eqn:E; [destruct (terminal (Status p)) eqn:Et; [by eauto|]|];
    intros _; exists e; rewrite E; (split; [by left|by split_and!]).
Qed.

(** Nothing is ready, skipped, waiting or pending: everything in the frame is settled. *)
Definition isLoop (typ : string) : bool := LoopType (default zeroType (registry typ)).

Definition validated : Prop :=
  findCycle def = [] /\ edges_known def /\ validateLoops def isLoop = [] /\ ids_ok /\
  owners = Owners def (LoopBodies def isLoop).

Lemma validated_edge e : validated -> e ∈ Edges def -> eFrom e <> TriggerID ->
  (exists n, n ∈ Nodes def /\ nID n = eTo e) ->
  (exists n, n ∈ Nodes def /\ nID n = eFrom e) /\
  (ownerOf owners (eFrom e) = ownerOf owners (eTo e) \/
   (eFrom e = ownerOf owners (eTo e) /\ eFrom e <> ""%string /\ ePort e = "each"%string)).
Proof using Type.
  intros (Hc & Hk & Hv & Hi & Ho) He Ht Hto.
  apply findCycle_spec in Hc; [|done]. apply validateLoops_nil in Hv.
  assert (Hn : exists n, n ∈ Nodes def /\ nID n = eFrom e).
  { assert (Hin : eFrom e ∈ starts def) by (apply (Hk _ (eTo e)); by exists e).
    unfold starts in Hin. apply elem_of_cons in Hin as [?|(n & -> & ?)%list_elem_of_fmap]; [done|eauto]. }
  split; [done|]. unfold ownerOf. rewrite Ho, !Owners_lookup by done. cbn [default].
  destruct (owner_edge def isLoop Hc Hv e He) as [|[? ?]]; [by left|right]. split_and!; [done| |done].
  destruct Hn as (n & Hn & <-). by apply Hi.
Qed.

Lemma quiescent x :
  validated -> frames_ok nobody (Frames (x_st x)) -> ready (frame x) = ([], []) ->
  earliest (frame x) = None -> approvalPending (frame x) = false ->
  forall n, n ∈ Nodes def -> ownerOf owners (nID n) = Loop (frame x) -> settled (frame x) (nID n) = true.
Proof using Type.
  intros Hv Hf Hr He Ha. pose proof Hv as (Hc & Hk & _ & Hids & _). apply findCycle_spec in Hc; [|done].
  rewrite ready_spec in Hr. injection Hr as Hr1 Hr2.
  intros n. remember (nID n) as id eqn:Eid. revert n Eid.
  induction (edge_wf def Hk Hc id) as [id _ IH]. intros n -> Hn Ho.
  destruct (settled (frame x) (nID n)) eqn:Es; [done|exfalso].
  assert (Hu : untouched owners (frame x) (nID n) = true).
  { unfold untouched. rewrite bool_decide_true by done. cbn. unfold settled in Es.
    destruct (FNodes (frame x) !! nID n) as [ns|] eqn:E; [|done].
    destruct (frames_ok_lookup registry def nobody x _ _ Hf E) as (H1 & H2 & H3 & _).
    pose proof (approval_none _ _ _ Ha E). pose proof (earliest_none _ _ _ He E) as Hw.
    apply bool_decide_eq_true. destruct (Status ns); try done.
    - by destruct H1.
    - by destruct (H3 (or_introl eq_refl)); auto.
    - by destruct (H3 (or_intror eq_refl)); auto. }
  destruct (incoming (frame x) (Incoming def (nID n)) false) as [b1 b2] eqn:Ei. destruct b1.
  - assert (Hin : nID n ∈ picked def owners (frame x) b2).
    { unfold picked. apply list_elem_of_fmap. exists n. split; [done|]. by apply list_elem_of_filter. }
    destruct b2; rewrite ?Hr1, ?Hr2 in Hin; by apply not_elem_of_nil in Hin.
  - destruct (incoming_blocked (frame x) (Incoming def (nID n)) false) as (e & Hin & Ht & Hne & Hs); [by rewrite Ei|].
    apply Incoming_to in Hin as [Hin Hto].
    destruct (validated_edge e Hv Hin Ht) as [(m & Hm & Em) [E|(E1 & E2 & E3)]]; [eauto| |].
    + assert (settled (frame x) (eFrom e) = true); [|congruence].
      apply (IH (eFrom e)) with m; [by exists e|done..|]. congruence.
    + apply Hne. rewrite <- Ho, <- Hto, <- E1. done.
Qed.

Definition stopped (x : stepper) : Prop :=
  exists pre l, Report (x_st x) = pre ++ [l] /\ rlKind l = "stop"%string.

Lemma apply_success_stop t x o x' :
  apply redactText jsonLen registry def t x o = (x', Some (Finished RunSucceeded)) -> stopped x'.
Proof using Type.
  unfold apply. destruct (findNode def (o_id o)) as [n|]; [|done].
  destruct (o_err o) as [e|].
  - unfold applyError, finish. cbv beta iota zeta. destruct (canRetry _ _ _ _ _ _); [done|]. by do 2 (case_decide; [done|]).
  - unfold applySuccess, finish. cbv beta iota zeta. destruct (Stop (o_res o)); [|done].
    intros [= <- _]. eexists _, _. split; [reflexivity|done].
Qed.

Lemma applyAll_success_stop t x os x' :
  applyAll redactText jsonLen registry def t x os = (x', Some (Finished RunSucceeded)) -> stopped x'.
Proof using Type.
  revert x. induction os as [|o os IH]; intros x; cbn [applyAll]; [done|].
  destruct (apply _ _ _ _ t x o) as [x1 [r|]] eqn:E; [|apply IH].
  intros [= -> ->]. by eapply apply_success_stop.
Qed.

(** Every step of the frame's own loop level is settled. *)
Definition complete (f : Frame) : Prop :=
  forall n, n ∈ Nodes def -> ownerOf owners (nID n) = Loop f -> settled f (nID n) = true.

(** C7: a run of a validated flow ends as succeeded only at the outermost level with
    every step of that level settled (succeeded, failed or skipped), or because a
    step said stop: a step the engine forgot, or one that waits, retries or awaits an
    approval, is never passed over. *)
Theorem run_complete t x x' :
  validated -> stored (x_st x) -> turn t x = (x', Some (Finished RunSucceeded)) ->
  stopped x' \/
  (exists f, Frames (x_st x') = [f] /\ Loop f = ""%string /\ complete f).
Proof using Type.
  intros Hv Hst. pose proof (stored_ok _ ltac:(apply Hv) Hst) as Hok. unfold Engine.turn.
  case_decide; [unfold finish; done|]. destruct (tCtxDone t); [by destruct (tSaveOK t)|].
  case_decide; [unfold finish; done|].
  destruct (Frames (x_st x)) as [|f0 rest0] eqn:Efr; [done|]. cbv zeta.
  assert (Efx : frame x = f0) by (unfold frame; by rewrite Efr).
  destruct (wake_props registry def x (tNow t) Hok) as (Hok1 & _). rewrite Efx in *.
  set (x1 := setFrame x (wake f0 (tNow t))) in *.
  destruct (ready (frame x1)) as [rd sk] eqn:Er. case_decide as Hsk; [done|]. subst sk.
  case_decide as Hrd; [subst rd|].
  - unfold park. destruct (earliest (frame x1)) eqn:Ee; [case_decide; unfold finish; [done|by destruct (tSaveOK t)]|].
    destruct (approvalPending (frame x1)) eqn:Ea; [by destruct (tSaveOK t)|].
    case_decide as Hl.
    + destruct (nextIteration redactText jsonLen x1); unfold saving; [by destruct (tSaveOK t)|done].
    + unfold finish. intros [= <-]. right. cbn [setRun x_st].
      assert (Hf1 : Frames (x_st x1) = wake f0 (tNow t) :: rest0) by (subst x1; cbn; by rewrite Efr).
      pose proof (so_frames _ _ _ Hok1) as Hf. rewrite Hf1 in Hf |- *.
      destruct rest0 as [|g rest]; [|destruct Hf as (_ & Hne & _); by destruct Hne].
      exists (wake f0 (tNow t)). split_and!; [done|done|]. intros n Hn Ho.
      assert (Eq : frame x1 = wake f0 (tNow t)) by (unfold frame; by rewrite Hf1). rewrite <- Eq in *.
      by apply (quiescent x1 Hv); [apply Hok1|..].
  - case_decide; [unfold finish; done|]. destruct (firstLoop registry def rd) as [id|].
    + unfold saving. by destruct (tSaveOK t).
    + destruct (runBatch _ _ _ _ _) as [x2 os].
      destruct (applyAll _ _ _ _ t x2 (map fst os)) as [x3 [r|]] eqn:E; [|unfold saving; by destruct (tSaveOK t)].
      intros [= -> ->]. left. by eapply applyAll_success_stop.
Qed.
End run.

(** ** A concrete flow: a foreach over [a], then [b] *)
Definition ex_act : NodeType := mkType "Act" false false true true false true false true.
Definition ex_loop : NodeType := mkType "Repeat" true false false false true false false false.

Definition ex_registry (typ : string) : option NodeType :=
  if decide (typ = "act"%string) then Some ex_act
  else if decide (typ = "logic.foreach"%string) then Some ex_loop else None.

Definition ex_def : Definition_ :=
  mkDefinition 1 (mkTrigger "trigger" "trigger.manual" [])
    [demo_node "each" "logic.foreach"; demo_node "a" "act"; demo_node "b" "act"]
    [mkEdge "trigger" "each" ""; mkEdge "each" "a" "each"; mkEdge "each" "b" "done"] None None ∅.

Definition ex_owners : gmap string string := Owners ex_def (LoopBodies ex_def (isLoop ex_registry)).

Definition ex_state : State := NewState DefaultLimits ∅ [].
Definition ex_run : Run := mkRun RunPending "" None None None false None.

(** The foreach sees two items; every action succeeds. *)
Definition ex_adapter (id : string) : adapter :=
  mkAdapter (Ok [("items"%string, VList [VBool true; VBool false])]) (zeroResult, None) (mkPreview "" [], None)
    "host" (Some 0) None 0.
Definition ex_tick : tick := mkTick "" false 0 true (fun _ => None) ex_adapter.

Definition ex_redact (s : string) : string := s.
Definition ex_jsonLen (v : value) : option Z := None.

#[local] Existing Instance ascii_tables.

Lemma ex_ids_ok : ids_ok ex_def.
Proof. intros n Hn. assert (H : Forall (fun n => nID n <> ""%string) (Nodes ex_def)) by (repeat constructor; discriminate). exact (proj1 (Forall_forall _ _) H n Hn). Qed.

Lemma ex_known : edges_known ex_def.
Proof. apply edges_known_iff. repeat constructor; set_solver. Qed.

Lemma ex_validated : validated ex_registry ex_def ex_owners.
Proof. split; [vm_compute; reflexivity|]. split; [exact ex_known|]. split; [vm_compute; reflexivity|]. split; [exact ex_ids_ok|reflexivity]. Qed.

Lemma step_terminates_witness :
  exists x r, step ex_redact ex_jsonLen ex_registry ex_def ex_owners (step_fuel ex_def ex_state) 0 true
      (fun _ => ex_tick) ex_run ex_state = Some (x, r) /\
    r <> Crashed /\ Steps (x_st x) <= MaxSteps (SLimits ex_state) /\ rDry (x_run x) = false /\
    ((forall s, r <> Finished s) -> state_ok ex_registry ex_def (x_st x)).
Proof.
  exact (step_terminates ex_redact ex_jsonLen ex_registry ex_def ex_owners 0 true (fun _ => ex_tick) ex_run ex_state
    (step_fuel ex_def ex_state) ex_ids_ok (stored_new _ _ _ _ _ _ _ _) (Nat.le_refl _)).
Defined.

(** The whole run: four steps are counted. *)
Example ex_whole_run :
  match step ex_redact ex_jsonLen ex_registry ex_def ex_owners 20 0 true (fun _ => ex_tick) ex_run ex_state with
  | Some (x, r) => r = Finished RunSucceeded /\ Steps (x_st x) = 4
  | None => False
  end.
Proof. vm_compute. split; reflexivity. Qed.

Fixpoint ex_iter (n : nat) : stepper :=
  match n with
  | O => mkX ex_run ex_state
  | S n' => (turn ex_redact ex_jsonLen ex_registry ex_def ex_owners ex_tick (ex_iter n')).1
  end.

Lemma ex_stored : stored ex_redact ex_jsonLen ex_registry ex_def ex_owners (x_st (ex_iter 6)).
Proof.
  do 6 (match goal with |- stored _ _ _ _ _ (x_st (ex_iter (S ?n))) =>
    apply (stored_turn _ _ _ _ _ (x_st (ex_iter n)) (x_run (ex_iter n)) ex_tick (ex_iter (S n)));
      [|vm_compute; reflexivity] end).
  apply stored_new.
Qed.

Lemma run_complete_witness :
  exists x', turn ex_redact ex_jsonLen ex_registry ex_def ex_owners ex_tick (ex_iter 6) = (x', Some (Finished RunSucceeded)) /\
  (stopped x' \/ exists f, Frames (x_st x') = [f] /\ Loop f = ""%string /\ complete ex_def ex_owners f).
Proof.
  exists (ex_iter 7). assert (E : turn ex_redact ex_jsonLen ex_registry ex_def ex_owners ex_tick (ex_iter 6) =
    (ex_iter 7, Some (Finished RunSucceeded))) by (vm_compute; reflexivity).
  split; [exact E|]. exact (run_complete _ _ _ _ _ ex_tick (ex_iter 6) (ex_iter 7) ex_validated ex_stored E).
Defined.
