(* ===== verification/EngineSafety.v ===== *)
(** * Safety of the engine's steps

    Attempts and retries, dry runs, the destructive limit for one step and for a
    batch of concurrent steps, what a crash repeats, and the foreach failure path. *)
From S2P Require Export EngineRun.

Section safety.
Context `{CT : CaseTables} (redactText : string -> string) (jsonLen : value -> option Z).
Context (registry : string -> option NodeType) (def : Definition_) (owners : gmap string string).

Notation typeAt := (typeAt registry def).

(** ** Attempts *)
Lemma frames_each run fs f id ns :
  frames_ok registry def run fs -> f ∈ fs -> FNodes f !! id = Some ns -> exists run', ns_ok registry def run' id ns.
Proof using Type.
  revert run. induction fs as [|g fs IH]; intros run H Hin; [destruct H|].
  destruct H as [Hg Hr]. apply elem_of_cons in Hin as [->|Hin]; [intros E; exists run; by apply Hg|].
  destruct fs as [|h fs]; [by apply not_elem_of_nil in Hin|]. eapply IH; [apply Hr|done].
Qed.

(** C8: in everything a run stores, a step's recorded attempts never pass its retry
    policy's maximum, which is at most 8 whatever the flow says; a step that is
    retrying or still to run has an attempt left; only idempotent steps ever retry;
    and each one that sleeps has its wake-up time. *)
Theorem attempts_bounded st f id ns :
  ids_ok def -> stored redactText jsonLen registry def owners st ->
  f ∈ Frames st -> FNodes f !! id = Some ns -> LoopType (typeAt id) = false ->
  Attempts ns <= maxAtt def id <= MaxRetries /\
  (Status ns = NodeNone \/ Status ns = NodeRetrying -> Attempts ns < maxAtt def id) /\
  (Status ns = NodeRetrying -> Idempotent (typeAt id) = true) /\
  (Status ns = NodeWaiting \/ Status ns = NodeRetrying -> WakeAt ns <> None).
Proof using Type.
  intros Hids Hst Hf Hns HL. apply stored_ok in Hst; [|done].
  destruct (frames_each _ _ f id ns (so_frames _ _ _ Hst) Hf Hns) as (run & _ & _ & H3 & H4 & H5).
  destruct (H5 HL) as [? H6]. pose proof (maxAtt_range def id). split_and!; [lia|lia| |done|done].
  intros [E|E]; apply H6; auto.
Qed.

(** ** One step's guards *)

Definition safe_post (t : NodeType) (dry : bool) (a : adapter) (p : outcome * effects) : Prop :=
  (ran p.2 = true -> HasExecute t = true /\ (dry = true -> Action t = false)) /\
  (ran p.2 = true -> Destructive t = true -> HasTargetOf t = true ->
     forall c, aCount a = Some c -> c < DestructivePerTarget) /\
  (forall target, ledger p.2 = Some target <->
     ran p.2 = true /\ o_err p.1 = None /\ Destructive t = true /\ HasTargetOf t = true /\
     target = aTarget a /\ target <> ""%string).

Lemma safe_ran t dry a id k res err :
  HasExecute t = true -> (dry = true -> Action t = false) -> ledgerFull t a = None ->
  let target := if Destructive t && HasTargetOf t then aTarget a else ""%string in
  let led := if decide (err = None /\ Destructive t = true /\ target <> ""%string) then Some target else None in
  safe_post t dry a (mkOutcome id res err k "" [], mkEff true led).
Proof using Type.
  clear redactText registry jsonLen. intros Hex Hda Hl target led. unfold safe_post; cbn [ran ledger o_err fst snd]. split_and!; [done| |].
  - intros _ HD HT c Hc. unfold ledgerFull in Hl. rewrite HD, HT, Hc in Hl. cbn in Hl. case_decide; [done|lia].
  - intros tg. subst led target. destruct (Destructive t), (HasTargetOf t); cbn; case_decide; naive_solver.
Qed.


(** ** The destructive limit in a batch

    [runBatch] starts its steps at once.  For one destructive type and one target, a
    step of the batch first counts the ledger, then executes and adds its entry. *)
Record goroutine := mkGo { g_id : string; g_adapter : adapter; g_seen : option Z; g_done : bool }.

Definition withCount (a : adapter) (c : Z) : adapter :=
  mkAdapter (aRender a) (aExecute a) (aPreview a) (aTarget a) (Some c) (aTimedOut a) (aNow a).

Definition adds (g : goroutine) (c : Z) : Z :=
  match ledger (exec registry def false (g_id g) 1 (withCount (g_adapter g) c)).2 with Some _ => 1 | None => 0 end.

Inductive event := Counts (i : nat) | Executes (i : nat).

Inductive batch_step : Z * list goroutine -> event -> Z * list goroutine -> Prop :=
  | b_count c gs i g : gs !! i = Some g -> g_seen g = None ->
      batch_step (c, gs) (Counts i) (c, <[i := mkGo (g_id g) (g_adapter g) (Some c) false]> gs)
  | b_exec c gs i g n : gs !! i = Some g -> g_seen g = Some n -> g_done g = false ->
      batch_step (c, gs) (Executes i) (c + adds g n, <[i := mkGo (g_id g) (g_adapter g) (Some n) true]> gs).

Inductive batch_run : Z * list goroutine -> list event -> Z * list goroutine -> Prop :=
  | br_nil s : batch_run s [] s
  | br_cons s e s1 es s2 : batch_step s e s1 -> batch_run s1 es s2 -> batch_run s (e :: es) s2.

(** One step at a time: each execution directly follows its own count. *)
Fixpoint one_by_one (es : list event) : Prop :=
  match es with
  | [] => True
  | Counts i :: Executes j :: es' => i = j /\ one_by_one es'
  | _ => False
  end.

Definition destructive_goroutine (g : goroutine) : Prop :=
  exists nd, findNode def (g_id g) = Some nd /\ Destructive (typeOf registry nd) = true /\
             HasTargetOf (typeOf registry nd) = true.

Lemma adds_range g c : 0 <= adds g c <= 1.
Proof using Type. unfold adds. destruct (ledger _); lia. Qed.

Lemma adds_limited g c : destructive_goroutine g -> DestructivePerTarget <= c -> adds g c = 0.
Proof using Type.
  intros (nd & Hn & HD & HT) Hc. unfold adds, exec. rewrite Hn. unfold typeOf in *.
  destruct (registry (nType nd)) as [t|]; [|done]. cbn in HD, HT.
  destruct (aRender _); [|done]. cbn [andb]. destruct (HasExecute t); [|done]. cbn [negb].
  unfold ledgerFull. rewrite HD, HT. cbn [andb withCount aCount]. by rewrite decide_True.
Qed.

Definition executed (gs : list goroutine) : Z := Z.of_nat (length (filter (fun g => g_done g = true) gs)).

Definition fresh (g : goroutine) : Prop := g_seen g = None /\ g_done g = false.

(** What holds between two events: entries are only added by executions, and by none
    once the count at the start reached the limit. *)
Record batch_ok (c0 : Z) (k : nat) (s : Z * list goroutine) : Prop := {
  bo_len : length s.2 = k;
  bo_count : c0 <= s.1 <= c0 + executed s.2;
  bo_limit : c0 < s.1 -> c0 < DestructivePerTarget;
  bo_each : Forall (fun g => destructive_goroutine g /\
    match g_seen g with None => g_done g = false | Some n => c0 <= n end) s.2 }.

Lemma batch_ok_step c0 k s e s' : batch_ok c0 k s -> batch_step s e s' -> batch_ok c0 k s'.
Proof using Type.
  intros [Hlen Hc Hl He]. destruct 1 as [c gs i g Hi Hs|c gs i g n Hi Hs Hd]; cbn [fst snd] in *;
    pose proof (proj1 (Forall_lookup _ _) He i g Hi) as [HD Hg]; rewrite Hs in Hg.
  - pose proof (length_filter_insert (fun g => g_done g = true) gs i g (mkGo (g_id g) (g_adapter g) (Some c) false) Hi) as Hx.
    cbv beta in Hx. cbn [g_done] in Hx. rewrite Hg in Hx. repeat case_decide; try done.
    constructor; cbn [fst snd]; [by rewrite length_insert|unfold executed in *; lia|done|].
    apply Forall_insert; [done|]. cbn. split; [done|lia].
  - pose proof (length_filter_insert (fun g => g_done g = true) gs i g (mkGo (g_id g) (g_adapter g) (Some n) true) Hi) as Hx.
    cbv beta in Hx. cbn [g_done] in Hx. rewrite Hd in Hx. repeat case_decide; try done. pose proof (adds_range g n).
    constructor; cbn [fst snd]; [by rewrite length_insert|unfold executed in *; lia| |].
    + intros Hlt. destruct (decide (DestructivePerTarget <= n)) as [Hn|Hn]; [|lia].
      rewrite (adds_limited g n HD Hn) in Hlt. apply Hl. lia.
    + apply Forall_insert; [done|]. by cbn.
Qed.

Lemma batch_ok_run c0 k s es s' : batch_ok c0 k s -> batch_run s es s' -> batch_ok c0 k s'.
Proof using Type. intros H. induction 1; [done|]. eauto using batch_ok_step. Qed.

Lemma executed_le gs : executed gs <= Z.of_nat (length gs).
Proof using Type. unfold executed. pose proof (length_filter (fun g => g_done g = true) gs). lia. Qed.

(** Taken one by one, the ledger stays within the limit. *)
Lemma one_by_one_limit c0 gs es c gs' :
  Forall (fun g => destructive_goroutine g) gs -> c0 <= DestructivePerTarget ->
  one_by_one es -> batch_run (c0, gs) es (c, gs') -> c <= DestructivePerTarget.
Proof using Type.
  remember (length es) as k eqn:Ek. revert c0 gs es Ek.
  induction k as [k IH] using lt_wf_ind. intros c0 gs es -> Hd Hc Ho Hr.
  destruct es as [|[i|i] [|[j|j] es]]; cbn in Ho; try done.
  { by inversion Hr; subst. }
  destruct Ho as [<- Ho]. inversion Hr as [|? ? ? ? ? H1 Hr1]; subst. inversion Hr1 as [|? ? ? ? ? H2 Hr2]; subst.
  inversion H1 as [? ? ? g Hi Hs|]; subst. inversion H2 as [|? ? ? g' n Hi' Hs' Hd']; subst.
  assert (Hg : destructive_goroutine g) by exact (proj1 (Forall_lookup _ _) Hd i g Hi).
  rewrite list_lookup_insert_eq in Hi' by (by eapply lookup_lt_Some). injection Hi' as <-. injection Hs' as <-.
  change (adds (mkGo (g_id g) (g_adapter g) (Some c0) false) c0) with (adds g c0) in Hr2.
  eapply (IH (length es)); [cbn; lia|done| | |done|exact Hr2].
  - do 2 (apply Forall_insert; [|done]). done.
  - destruct (decide (DestructivePerTarget <= c0)); [rewrite adds_limited by done; lia|].
    pose proof (adds_range g c0). lia.
Qed.


(** ** Recovery *)

(** A step that a dead worker left running and that must not run again. *)
Definition interrupted (id : string) (ns : NodeState) : Prop :=
  Status ns = NodeRunning /\ exists n, findNode def id = Some n /\
    LoopType (typeOf registry n) = false /\ Idempotent (typeOf registry n) = false.

Definition stops (id : string) : Prop :=
  OnErrorFor def (findNode def id) <> OnErrorContinue /\ OnErrorFor def (findNode def id) <> OnErrorFailBranch.

Lemma recoverNode_fails id ns m :
  (recoverNode registry def id ns).2 = Some m -> interrupted id ns /\ stops id /\ m <> ""%string.
Proof using Type.
  unfold recoverNode. case_decide as Hs; [done|]. destruct (findNode def id) as [n|] eqn:E; [|done].
  destruct (LoopType _) eqn:HL; [done|]. destruct (Idempotent _) eqn:HI; [done|]. cbn [snd].
  case_decide as Ho; [done|]. intros [= <-]. unfold interrupted, stops. rewrite E.
  split; [split; [done|eauto]|split; [split; intros ?; apply Ho; auto|]]. cbn. discriminate.
Qed.

Lemma recoverNode_stops id ns : interrupted id ns -> stops id -> exists m, (recoverNode registry def id ns).2 = Some m.
Proof using Type.
  intros (Hs & n & E & HL & HI) [H1 H2]. unfold recoverNode. rewrite decide_False by (rewrite Hs; auto).
  rewrite E in *. rewrite HL, HI. cbn [snd]. rewrite decide_False by (by intros [?|?]). eauto.
Qed.

Lemma recoverNode_state id ns :
  let ns' := (recoverNode registry def id ns).1 in
  (interrupted id ns -> Status ns' = NodeFailed /\ NError ns' = interruptedMsg /\
     (OnErrorFor def (findNode def id) = OnErrorFailBranch -> Port ns' = ErrorPort)) /\
  (~ interrupted id ns -> ns' = ns \/
     (Status ns' = NodeNone /\ Status ns = NodeRunning /\ Idempotent (typeAt id) = true)) /\
  (Status ns' = NodeRunning -> LoopType (typeAt id) = true \/ findNode def id = None).
Proof using Type.
  cbv zeta. unfold recoverNode, interrupted, Engine.typeAt. case_decide as Hs.
  { cbn [fst]. split_and!; [by intros [? _]|by left|done]. }
  destruct (findNode def id) as [n|] eqn:E; [|cbn [fst]; split_and!; [by intros (_ & ? & ? & _)|by left|by right]].
  destruct (LoopType _) eqn:HL.
  { cbn [fst]. split_and!; [intros (_ & m & [= <-] & ? & _); congruence|by left|by left]. }
  destruct (Idempotent _) eqn:HI; cbn [fst Status Port NError].
  - split_and!; [intros (_ & m & [= <-] & _ & ?); congruence|by right|done].
  - split_and!; [intros _; split_and!; try done; intros Ho; by rewrite decide_True| |done].
    intros H. destruct H. split; [done|eauto].
Qed.

Lemma last_nonempty (l : list string) : (forall m, m ∈ l -> m <> ""%string) -> List.last l ""%string = ""%string <-> l = [].
Proof using Type.
  intros H. split; [|by intros ->]. induction l as [|a l IH]; [done|]. destruct l as [|b l].
  - cbn. intros E. destruct (H a); [by left|done].
  - intros E. change (List.last (a :: b :: l) "")%string with (List.last (b :: l) "")%string in E.
    discriminate IH; [|done]. intros; apply H. by right.
Qed.

(** What the recovery of a stored state does, whatever was stored: afterwards
    only foreach steps are running; an interrupted step that may repeat is to run
    again, one that may not is failed with the reason (on the error branch if that is
    its policy); and the run fails exactly when such a step's policy is stop. *)
Theorem recover_spec fs :
  let '(fs', failed) := recoverInterrupted registry def fs in
  (forall i id, (f' ← fs' !! i; FNodes f' !! id) =
     (fun ns => (recoverNode registry def id ns).1) <$> (f ← fs !! i; FNodes f !! id)) /\
  (forall f' id ns', f' ∈ fs' -> FNodes f' !! id = Some ns' -> Status ns' = NodeRunning ->
     LoopType (typeAt id) = true \/ findNode def id = None) /\
  (failed <> ""%string <-> exists f id ns, f ∈ fs /\ FNodes f !! id = Some ns /\ interrupted id ns /\ stops id).
Proof using Type.
  unfold recoverInterrupted. split_and!.
  - intros i id. rewrite list_lookup_fmap. destruct (fs !! i) as [f|]; [|done]. cbn.
    rewrite map_lookup_imap. by destruct (FNodes f !! id).
  - intros f' id ns' (f & -> & Hf)%list_elem_of_fmap. cbn. rewrite map_lookup_imap.
    destruct (FNodes f !! id) as [ns|]; [|done]. cbn. intros [= <-]. apply recoverNode_state.
  - rewrite last_nonempty.
    + split.
      * intros Hne. destruct (omap _ _) as [|m l] eqn:E; [done|]. assert (Hm : m ∈ m :: l) by (by left).
        rewrite <- E in Hm. apply list_elem_of_omap in Hm as ([id ns] & Hin & Hm).
        apply list_elem_of_In, in_concat in Hin as (ps & (f & <- & Hf)%in_map_iff & Hp).
        apply list_elem_of_In, elem_of_map_to_list in Hp. apply in_rev, list_elem_of_In in Hf.
        apply recoverNode_fails in Hm as (? & ? & _). exists f, id, ns. done.
      * intros (f & id & ns & Hf & Hns & Hi & Ho) E. destruct (recoverNode_stops id ns Hi Ho) as [m Hm].
        assert (Hin : m ∈ @nil string); [|by apply not_elem_of_nil in Hin].
        rewrite <- E. apply list_elem_of_omap. exists (id, ns). split; [|done].
        apply list_elem_of_In, in_concat. exists (map_to_list (FNodes f)). split.
        -- apply in_map_iff. exists f. split; [done|]. apply in_rev. rewrite rev_involutive. by apply list_elem_of_In.
        -- by apply list_elem_of_In, elem_of_map_to_list.
    + intros m ([id ns] & _ & Hm)%list_elem_of_omap. by destruct (recoverNode_fails _ _ _ Hm) as (_ & _ & ?).
Qed.

(** Nothing a run ever stores has an interrupted step: the running mark is not
    saved before a batch executes, so after a crash in the middle of one the recovery
    changes nothing and the next worker starts from before the batch. *)
Theorem recovery_finds_nothing st :
  ids_ok def -> stored redactText jsonLen registry def owners st ->
  recoverInterrupted registry def (Frames st) = (Frames st, ""%string) /\
  forall f id ns, f ∈ Frames st -> FNodes f !! id = Some ns -> ~ interrupted id ns.
Proof using Type.
  intros Hids Hst. apply stored_ok in Hst; [|done]. pose proof (so_frames _ _ _ Hst) as Hf.
  split; [by apply recover_id|]. intros f id ns Hin Hns (Hs & n & E & HL & _).
  apply loop_running in Hf; [|by intros ? []]. rewrite Forall_forall in Hf. pose proof (Hf f Hin id ns Hns Hs) as H.
  cbv beta in H. unfold Engine.typeAt in H. rewrite E in H. congruence.
Qed.
End safety.

(** ** Concrete inputs *)
#[local] Existing Instance ascii_tables.

(** After the first turns the loop's step [a] has run once. *)
Lemma ex_stored_2 : stored ex_redact ex_jsonLen ex_registry ex_def ex_owners (x_st (ex_iter 2)).
Proof.
  do 2 (match goal with |- stored _ _ _ _ _ (x_st (ex_iter (S ?n))) =>
    apply (stored_turn _ _ _ _ _ (x_st (ex_iter n)) (x_run (ex_iter n)) ex_tick (ex_iter (S n)));
      [|vm_compute; reflexivity] end).
  apply stored_new.
Qed.

Definition ex_frame_2 : Frame := List.hd topFrame (Frames (x_st (ex_iter 2))).
Definition ex_ns_2 : NodeState := default zeroNS (FNodes ex_frame_2 !! "a"%string).

Lemma attempts_bounded_witness :
  Attempts ex_ns_2 = 1 /\
  Attempts ex_ns_2 <= maxAtt ex_def "a" <= MaxRetries /\
  (Status ex_ns_2 = NodeNone \/ Status ex_ns_2 = NodeRetrying -> Attempts ex_ns_2 < maxAtt ex_def "a") /\
  (Status ex_ns_2 = NodeRetrying -> Idempotent (typeAt ex_registry ex_def "a") = true) /\
  (Status ex_ns_2 = NodeWaiting \/ Status ex_ns_2 = NodeRetrying -> WakeAt ex_ns_2 <> None).
Proof.
  split; [vm_compute; reflexivity|].
  apply (attempts_bounded ex_redact ex_jsonLen ex_registry ex_def ex_owners (x_st (ex_iter 2)) ex_frame_2);
    [exact ex_ids_ok|exact ex_stored_2| |vm_compute; reflexivity|vm_compute; reflexivity].
  assert (E : Frames (x_st (ex_iter 2)) = ex_frame_2 :: tail (Frames (x_st (ex_iter 2)))) by (vm_compute; reflexivity).
  rewrite E. by left.
Defined.

Definition ex_count (c : Z) : adapter := withCount (ex_adapter "a") c.


(** Four steps of one batch count first and execute afterwards. *)
Definition ex_go : goroutine := mkGo "a" (ex_adapter "a") None false.
Definition ex_seen : goroutine := mkGo "a" (ex_adapter "a") (Some 0) false.
Definition ex_done : goroutine := mkGo "a" (ex_adapter "a") (Some 0) true.
Definition ex_events : list event :=
  [Counts 0; Counts 1; Counts 2; Counts 3; Executes 0; Executes 1; Executes 2; Executes 3].

Lemma ex_go_ok : Forall (fun g => destructive_goroutine ex_registry ex_def g /\ fresh g) (replicate 4 ex_go).
Proof.
  cbn. repeat constructor; (exists (demo_node "a" "act"); split; [vm_compute; reflexivity|split; reflexivity]).
Qed.

(** The interleaving that passes the limit of three. *)
Lemma batch_exceeds_limit :
  batch_run ex_registry ex_def (0, replicate 4 ex_go) ex_events (4, replicate 4 ex_done) /\ DestructivePerTarget < 4.
Proof.
  split; [|reflexivity]. unfold ex_events, replicate.
  do 4 (eapply br_cons; [by eapply b_count|cbn [insert list_insert]]).
  do 4 (eapply br_cons; [by eapply b_exec|cbn [insert list_insert]]).
  exact (br_nil _ _ (4, [ex_done; ex_done; ex_done; ex_done])).
Qed.


(** The flow crashes while [a] executes: what is stored is the state before the batch
    ([ex_iter 1]); the next worker recovers nothing and executes [a] again. *)
Lemma recovery_finds_nothing_witness :
  recoverInterrupted ex_registry ex_def (Frames (x_st (ex_iter 1))) = (Frames (x_st (ex_iter 1)), ""%string) /\
  map (fun p : outcome * effects => (o_id p.1, ran p.2))
    (runBatch ex_registry ex_def ex_tick (ex_iter 1) ["a"%string]).2 = [("a"%string, true)].
Proof.
  assert (Hst : stored ex_redact ex_jsonLen ex_registry ex_def ex_owners (x_st (ex_iter 1))).
  { apply (stored_turn _ _ _ _ _ (x_st (ex_iter 0)) (x_run (ex_iter 0)) ex_tick (ex_iter 1)); [apply stored_new|vm_compute; reflexivity]. }
  split; [|vm_compute; reflexivity].
  exact (proj1 (recovery_finds_nothing ex_redact ex_jsonLen ex_registry ex_def ex_owners _ ex_ids_ok Hst)).
Defined.

(** ** Two results the code does not mean *)

(** A foreach step whose list cannot be read fails with the policy "stop", and the run
    still succeeds: [startLoop] never ends the run. *)
Definition bad_adapter (id : string) : adapter :=
  mkAdapter (Ok [("items"%string, VBool true)]) (zeroResult, None) (mkPreview "" [], None) "host" (Some 0) None 0.

Lemma foreach_failure_is_success :
  OnErrorFor ex_def (findNode ex_def "each") = OnErrorStop /\
  match step ex_redact ex_jsonLen ex_registry ex_def ex_owners 20 0 true
    (fun _ => mkTick "" false 0 true (fun _ => None) bad_adapter) ex_run ex_state with
  | Some (x, r) => r = Finished RunSucceeded /\
      Status <$> (FNodes (frame x) !! "each"%string) = Some NodeFailed
  | None => False
  end.
Proof. vm_compute. repeat split; reflexivity. Qed.

(** Two steps of one batch, the first fails and ends the run: the other one executed,
    but stays "running" in the finished run and its output is dropped. *)
Definition pair_def : Definition_ :=
  mkDefinition 1 (mkTrigger "trigger" "trigger.manual" []) [demo_node "a" "act"; demo_node "b" "act"]
    [mkEdge "trigger" "a" ""; mkEdge "trigger" "b" ""] None None ∅.

Definition pair_adapter (id : string) : adapter :=
  mkAdapter (Ok []) (mkResult (Some (VBool true)) [] "" None false false false "" false "",
    if decide (id = "a"%string) then Some (mkErr false "refused") else None)
    (mkPreview "" [], None) "host" (Some 0) None 0.

Lemma batch_outcome_dropped :
  match step ex_redact ex_jsonLen ex_registry pair_def (Owners pair_def []) 20 0 true
    (fun _ => mkTick "" false 0 true (fun _ => None) pair_adapter) ex_run ex_state with
  | Some (x, r) => r = Finished RunFailed /\
      Status <$> (FNodes (frame x) !! "b"%string) = Some NodeRunning /\ Outputs (x_st x) !! "b"%string = None
  | None => False
  end.
Proof. vm_compute. repeat split; reflexivity. Qed.
