(* ===== verification/Repo.v ===== *)
(** * The backup repository and its garbage collection
      ([src/internal/backup/repo.go], [gc.go])

    The disk as packs, pack indexes, manifests and caches; the in-memory chunk index;
    opening (rebuilding the index), the pack writer, and collection with compaction.
    A run is the list of the writes and removals it performs, one at a time, so that a
    crash or an I/O error after any of them is a prefix of that list.  A pack's name is
    the hash of its content: the hash is a parameter. *)
From stdpp Require Import sorting.
From Stdlib Require Export Strings.Byte.
From S2P Require Export Value.

(** ** Data *)
Definition KeyID : Type := string.

Record packEntry := mkEntry { eID : KeyID; eOff : nat; eLen : nat }.
Record packIndex := mkIndex { iPack : string; iSize : Z; iEntries : list packEntry }.
Record location := mkLoc { lPack : string; lOff : nat; lSize : nat }.

(** A manifest: its identity and the chunk ids of its files, one list per file. *)
Record Manifest := mkManifest {
  mBackupID : string; mNamespace : string; WorkloadID : string; WorkloadName : string; mCreatedAtNS : Z;
  Files : list (list KeyID) }.

Definition chunks (m : Manifest) : list KeyID := concat (Files m).

Inductive RemoteState := RemoteNone | RemoteQueued | RemoteUploading | RemoteVerifying | RemoteProtected | RemoteFailed.
#[export] Instance RemoteState_eq_dec : EqDecision RemoteState. Proof. solve_decision. Defined.

Record PointState := mkPoint {
  BackupID : string; Namespace : string; pWorkloadID : string; pWorkloadName : string; CreatedAtNS : Z;
  LocalComplete : bool; Remote : RemoteState; Packs : list string; UploadStartedNS : Z; UploadEndedNS : Z;
  UploadedBytes : Z; UploadTotalBytes : Z; RemoteError : string; Recovered : bool }.

(** [None] is a file whose content cannot be parsed. *)
Record disk := mkDisk {
  packs : gmap string (list byte);
  idxs : gmap string (option packIndex);
  snaps : gmap (string * string) (option Manifest);       (* by directory (namespace) and file name (id) *)
  states : gmap (string * string) PointState;             (* the state sidecars *)
  caches : gset string }.

Record sys := mkSys { dsk : disk; index : gmap KeyID location }.

(** ** Writes, one at a time *)
Inductive op :=
  | WritePack (id : string) (data : list byte)
  | WriteIdx (id : string) (pi : packIndex)
  | RemovePack (id : string)
  | RemoveIdx (id : string)
  | WriteState (st : PointState)
  | RemoveSnap (p : string * string)
  | RemoveState (p : string * string)
  | RemoveCache (ns : string)
  | Locate (id : string) (ents : list packEntry)          (* setLocation of a flushed pack *)
  | Forget (id : string).                                  (* the index part of deletePack *)

Definition locate (id : string) (ix : gmap KeyID location) (e : packEntry) : gmap KeyID location :=
  <[eID e := mkLoc id (eOff e) (eLen e)]> ix.

Definition apply_op (s : sys) (o : op) : sys :=
  let d := dsk s in
  match o with
  | WritePack id data => mkSys (mkDisk (<[id := data]> (packs d)) (idxs d) (snaps d) (states d) (caches d)) (index s)
  | WriteIdx id pi => mkSys (mkDisk (packs d) (<[id := Some pi]> (idxs d)) (snaps d) (states d) (caches d)) (index s)
  | RemovePack id => mkSys (mkDisk (delete id (packs d)) (idxs d) (snaps d) (states d) (caches d)) (index s)
  | RemoveIdx id => mkSys (mkDisk (packs d) (delete id (idxs d)) (snaps d) (states d) (caches d)) (index s)
  | WriteState st =>
      mkSys (mkDisk (packs d) (idxs d) (snaps d) (<[(Namespace st, BackupID st) := st]> (states d)) (caches d)) (index s)
  | RemoveSnap p => mkSys (mkDisk (packs d) (idxs d) (delete p (snaps d)) (states d) (caches d)) (index s)
  | RemoveState p => mkSys (mkDisk (packs d) (idxs d) (snaps d) (delete p (states d)) (caches d)) (index s)
  | RemoveCache ns => mkSys (mkDisk (packs d) (idxs d) (snaps d) (states d) (caches d ∖ {[ns]})) (index s)
  | Locate id ents => mkSys d (fold_left (locate id) ents (index s))
  | Forget id => mkSys d (filter (fun p : KeyID * location => lPack p.2 <> id) (index s))
  end.

Definition run_ops (s : sys) (os : list op) : sys := fold_left apply_op os s.

(** ** A run: operations and how it ends *)
Inductive repo_error :=
  | ManifestUnreadable (p : string * string)
  | IndexUnreadable (id : string)
  | PackUnreadable (id : string)
  | NotOnDisk (id : string)
  | ChunkNotFound (id : KeyID)
  | GuardStopped.

Definition M (A : Type) : Type := sys -> list op * result repo_error A.

Definition ret {A} (a : A) : M A := fun _ => ([], Ok a).
Definition throw {A} (e : repo_error) : M A := fun _ => ([], Err e).
Definition emit (o : op) : M unit := fun _ => ([o], Ok tt).
Definition current : M sys := fun s => ([], Ok s).
Definition bind {A B} (m : M A) (f : A -> M B) : M B := fun s =>
  let '(o1, r) := m s in
  match r with
  | Err e => (o1, Err e)
  | Ok a => let '(o2, r2) := f a (run_ops s o1) in (o1 ++ o2, r2)
  end.

Declare Scope repo_scope.
Delimit Scope repo_scope with repo.
Notation "x <- m ;; k" := (bind m (fun x => k)) (at level 100, m at next level, right associativity) : repo_scope.
Notation "m ;;; k" := (bind m (fun _ => k)) (at level 100, right associativity) : repo_scope.
#[local] Open Scope repo_scope.

Fixpoint forM {A S} (f : S -> A -> M S) (l : list A) (acc : S) : M S :=
  match l with [] => ret acc | a :: l' => acc <- f acc a ;; forM f l' acc end.

(** ** Opening *)
Definition sortNames (l : list string) : list string := merge_sort String.le l.

(** One entry of the second loop of [rebuildIndex]. *)
Definition rebuild_step (acc : result repo_error sys) (name : string) : result repo_error sys :=
  match acc with
  | Err e => Err e
  | Ok s =>
      match idxs (dsk s) !! name with
      | None => Ok (apply_op s (RemovePack name))
      | Some None => Err (IndexUnreadable name)
      | Some (Some pi) => Ok (mkSys (dsk s) (fold_left (locate name) (iEntries pi) (index s)))
      end
  end.

Definition rebuildIndex (d : disk) : result repo_error sys :=
  fold_left rebuild_step (sortNames (map fst (map_to_list (packs d)))) (Ok (mkSys d ∅)).

(** [rebuildMissingStates]: a readable manifest without its sidecar gets one. *)
Definition recovered_state (m : Manifest) : PointState :=
  mkPoint (mBackupID m) (mNamespace m) (WorkloadID m) (WorkloadName m) (mCreatedAtNS m) true RemoteNone [] 0 0 0 0 ""%string true.

Definition missing_step (s : sys) (p : (string * string) * option Manifest) : sys :=
  match states (dsk s) !! p.1, p.2 with
  | None, Some m => apply_op s (WriteState (recovered_state m))
  | _, _ => s
  end.

Definition rebuildMissingStates (s : sys) : sys := fold_left missing_step (map_to_list (snaps (dsk s))) s.

(** [OpenRepository]; temporary files are not part of the model. *)
Definition OpenRepository (d : disk) : result repo_error sys :=
  match rebuildIndex d with Err e => Err e | Ok s => Ok (rebuildMissingStates s) end.

Definition Has (s : sys) (id : KeyID) : bool := match index s !! id with Some _ => true | None => false end.

(** [ReadAt]: an error when the file ends early. *)
Definition readAt (data : list byte) (off len : nat) : option (list byte) :=
  if decide (off + len <= length data)%nat then Some (take len (drop off data)) else None.

Definition GetSealed (s : sys) (id : KeyID) : result repo_error (list byte) :=
  match index s !! id with
  | None => Err (ChunkNotFound id)
  | Some loc =>
      match packs (dsk s) !! lPack loc with
      | None => Err (NotOnDisk (lPack loc))
      | Some data => match readAt data (lOff loc) (lSize loc) with Some b => Ok b | None => Err (PackUnreadable (lPack loc)) end
      end
  end.

(** ** The pack writer *)
Section writer.
Variable packName : list byte -> string.   (* "pack-" and the hex of the hash's first 16 bytes *)

Definition DefaultPackTarget : Z := Z.shiftl 16 20.

Record packWriter := mkWriter {
  w_target : Z; w_buf : list byte; w_ents : list packEntry; w_staged : gset KeyID; w_packs : list string;
  w_guard : nat -> bool;     (* the answer of the guard's n-th call *)
  w_rewrite : bool }.

Definition newPackWriter (target : Z) : packWriter :=
  mkWriter (if decide (target <= 0) then DefaultPackTarget else target) [] [] ∅ [] (fun _ => true) false.

Definition flush (w : packWriter) : M packWriter :=
  if decide (w_ents w = []) then ret w
  else if negb (w_guard w (length (w_packs w))) then throw GuardStopped
  else
    let id := packName (w_buf w) in
    emit (WritePack id (w_buf w)) ;;;
    emit (WriteIdx id (mkIndex id (Z.of_nat (length (w_buf w))) (w_ents w))) ;;;
    emit (Locate id (w_ents w)) ;;;
    ret (mkWriter (w_target w) [] [] (w_staged w) (w_packs w ++ [id]) (w_guard w) (w_rewrite w)).

Definition stage (w : packWriter) (id : KeyID) (sealed : list byte) : packWriter :=
  mkWriter (w_target w) (w_buf w ++ sealed) (w_ents w ++ [mkEntry id (length (w_buf w)) (length sealed)])
    ({[id]} ∪ w_staged w) (w_packs w) (w_guard w) (w_rewrite w).

(** [add]: the writer and whether the chunk was new. *)
Definition add (w : packWriter) (id : KeyID) (sealed : list byte) : M (packWriter * bool) :=
  s <- current ;;
  if negb (w_rewrite w) && Has s id then ret (w, false)
  else if decide (id ∈ w_staged w) then ret (w, false)
  else
    let w := stage w id sealed in
    if decide (w_target w <= Z.of_nat (length (w_buf w))) then w <- flush w ;; ret (w, true)
    else ret (w, true).

(** ** Garbage collection *)
Record GCOptions := mkOpts { RepackLiveRatio : spec_float; ReserveBytes : Z }.

Record GCStats := mkStats {
  ReferencedChunks : nat; PacksScanned : Z; PacksDeleted : Z; BytesFreed : Z; PacksRepacked : Z; BytesRepacked : Z;
  DeadBytes : Z; CachesRemoved : Z; RepackSkipped : bool }.

Definition DefaultRepackLiveRatio : spec_float := S754_finite false 4503599627370496 (-53).

(** The union of the chunk ids of every manifest; one that cannot be read stops it. *)
Definition ref_step (acc : result repo_error (gset KeyID)) (p : (string * string) * option Manifest)
  : result repo_error (gset KeyID) :=
  match acc, p.2 with
  | Err e, _ => Err e
  | Ok _, None => Err (ManifestUnreadable p.1)
  | Ok ref, Some m => Ok (list_to_set (chunks m) ∪ ref)
  end.

Definition referencedChunks (d : disk) : result repo_error (gset KeyID) :=
  fold_left ref_step (map_to_list (snaps d)) (Ok ∅).

Definition packList (d : disk) : list string := sortNames (map fst (map_to_list (idxs d))).

Definition readPackIndex (id : string) : M packIndex :=
  s <- current ;;
  match idxs (dsk s) !! id with
  | Some (Some pi) => ret pi
  | Some None => throw (IndexUnreadable id)
  | None => throw (NotOnDisk id)
  end.

Definition deletePack (id : string) : M unit :=
  emit (Forget id) ;;; emit (RemovePack id) ;;;
  (s <- current ;;
   match idxs (dsk s) !! id with Some _ => emit (RemoveIdx id) | None => throw (NotOnDisk id) end).

(** The bytes of a pack's referenced chunks, each chunk once. *)
Definition live_step (ref : gset KeyID) (acc : gset KeyID * Z) (e : packEntry) : gset KeyID * Z :=
  if decide (eID e ∈ ref /\ eID e ∉ acc.1) then ({[eID e]} ∪ acc.1, acc.2 + Z.of_nat (eLen e)) else acc.
Definition liveBytes (ref : gset KeyID) (pi : packIndex) : Z := (fold_left (live_step ref) (iEntries pi) (∅, 0)).2.

Definition zeroFloat : spec_float := S754_zero false.

Definition mostlyDead (ratio : spec_float) (live size : Z) : bool :=
  SFltb zeroFloat ratio && bool_decide (0 < size) &&
  SFltb (float_of_Z live) (SFmul 53 1024 ratio (float_of_Z size)).

Record candidate := mkCand { c_pi : packIndex; c_live : Z }.

Definition scan_pack (opts : GCOptions) (ref : gset KeyID) (acc : GCStats * list candidate) (id : string)
  : M (GCStats * list candidate) :=
  let '(st, repack) := acc in
  pi <- readPackIndex id ;;
  let live := liveBytes ref pi in
  let scanned := PacksScanned st + 1 in
  if decide (live = 0) then
    deletePack id ;;;
    ret (mkStats (ReferencedChunks st) scanned (PacksDeleted st + 1) (BytesFreed st + iSize pi) (PacksRepacked st)
           (BytesRepacked st) (DeadBytes st) (CachesRemoved st) (RepackSkipped st), repack)
  else if mostlyDead (RepackLiveRatio opts) live (iSize pi) then
    ret (mkStats (ReferencedChunks st) scanned (PacksDeleted st) (BytesFreed st) (PacksRepacked st)
           (BytesRepacked st) (DeadBytes st) (CachesRemoved st) (RepackSkipped st), repack ++ [mkCand pi live])
  else
    ret (mkStats (ReferencedChunks st) scanned (PacksDeleted st) (BytesFreed st) (PacksRepacked st)
           (BytesRepacked st) (DeadBytes st + (iSize pi - live)) (CachesRemoved st) (RepackSkipped st), repack).

Definition copy_entry (ref : gset KeyID) (name : string) (data : list byte) (w : packWriter) (e : packEntry) : M packWriter :=
  if decide (eID e ∉ ref) then ret w
  else match readAt data (eOff e) (eLen e) with
       | None => throw (PackUnreadable name)
       | Some buf => r <- add w (eID e) buf ;; ret r.1
       end.

Definition copyLive (ref : gset KeyID) (w : packWriter) (c : candidate) : M packWriter :=
  s <- current ;;
  match packs (dsk s) !! iPack (c_pi c) with
  | None => throw (NotOnDisk (iPack (c_pi c)))
  | Some data => forM (copy_entry ref (iPack (c_pi c)) data) (iEntries (c_pi c)) w
  end.

Definition drop_candidate (st : GCStats) (c : candidate) : M GCStats :=
  deletePack (iPack (c_pi c)) ;;;
  ret (mkStats (ReferencedChunks st) (PacksScanned st) (PacksDeleted st) (BytesFreed st + (iSize (c_pi c) - c_live c))
         (PacksRepacked st + 1) (BytesRepacked st + c_live c) (DeadBytes st) (CachesRemoved st) (RepackSkipped st)).

Definition skip_repack (st : GCStats) (repack : list candidate) : GCStats :=
  mkStats (ReferencedChunks st) (PacksScanned st) (PacksDeleted st) (BytesFreed st) (PacksRepacked st) (BytesRepacked st)
    (fold_left (fun d c => d + (iSize (c_pi c) - c_live c)) repack (DeadBytes st)) (CachesRemoved st) true.

Definition repackAll (ref : gset KeyID) (repack : list candidate) (st : GCStats) : M GCStats :=
  let pw := newPackWriter DefaultPackTarget in
  let pw := mkWriter (w_target pw) (w_buf pw) (w_ents pw) (w_staged pw) (w_packs pw) (w_guard pw) true in
  pw <- forM (copyLive ref) repack pw ;;
  flush pw ;;;
  forM drop_candidate repack st.

Definition orphan_caches (d : disk) : list string :=
  filter (fun ns => Forall (fun p : (string * string) * option Manifest => p.1.1 <> ns) (map_to_list (snaps d)))
    (elements (caches d)).

Definition remove_cache (st : GCStats) (ns : string) : M GCStats :=
  emit (RemoveCache ns) ;;;
  ret (mkStats (ReferencedChunks st) (PacksScanned st) (PacksDeleted st) (BytesFreed st) (PacksRepacked st)
         (BytesRepacked st) (DeadBytes st) (CachesRemoved st + 1) (RepackSkipped st)).

Definition removeOrphanCaches (st : GCStats) : M GCStats :=
  s <- current ;; forM remove_cache (orphan_caches (dsk s)) st.

(** [CollectGarbageWith]; [free] is the free space the host reports. *)
Definition CollectGarbageWith (opts : GCOptions) (free : option Z) : M GCStats :=
  s <- current ;;
  match referencedChunks (dsk s) with
  | Err e => throw e
  | Ok ref =>
      r <- forM (scan_pack opts ref) (packList (dsk s)) (mkStats (size ref) 0 0 0 0 0 0 0 false, []) ;;
      st <- (if decide (r.2 = []) then ret r.1
             else match free with
                  | None => ret (skip_repack r.1 r.2)
                  | Some f =>
                      if decide (f - fold_left (fun a c => a + c_live c) r.2 0 < ReserveBytes opts)
                      then ret (skip_repack r.1 r.2) else repackAll ref r.2 r.1
                  end) ;;
      removeOrphanCaches st
  end.

Definition CollectGarbage (free : option Z) : M GCStats := CollectGarbageWith (mkOpts zeroFloat 0) free.

(** [DeleteRestorePoint]. *)
Definition DeleteRestorePoint (ns id : string) : M unit :=
  emit (RemoveSnap (ns, id)) ;;;
  (s <- current ;;
   match states (dsk s) !! (ns, id) with Some _ => emit (RemoveState (ns, id)) | None => throw (NotOnDisk id) end).
End writer.
