(* ===== verification/RepoProps.v ===== *)
(** * Crash safety of the backup repository ([src/internal/backup/repo.go], [gc.go])

    A program logic for runs that may stop after any write, the invariant of the
    repository, and what garbage collection promises. *)
From stdpp Require Import sorting.
From S2P Require Export Repo.
#[local] Open Scope repo_scope.

#[local] Arguments run_ops : simpl never.

(** ** A Hoare triple with a crash condition

    From every state in [P], the state after every prefix of the run's writes is in
    [I], and a run that returns a value ends in [Q]. *)
Definition triple {A} (I P : sys -> Prop) (m : M A) (Q : A -> sys -> Prop) : Prop :=
  forall s, P s ->
    (forall os, os `prefix_of` (m s).1 -> I (run_ops s os)) /\
    (forall a, (m s).2 = Ok a -> Q a (run_ops s (m s).1)).

Lemma run_ops_app s o1 o2 : run_ops s (o1 ++ o2) = run_ops (run_ops s o1) o2.
Proof. apply fold_left_app. Qed.

Lemma prefix_app_case {A} (l l1 l2 : list A) :
  l `prefix_of` l1 ++ l2 -> l `prefix_of` l1 \/ exists k, l = l1 ++ k /\ k `prefix_of` l2.
Proof.
  intros H. destruct (prefix_weak_total l l1 (l1 ++ l2)) as [|[k ->]]; [done|by apply prefix_app_r|by left|].
  right. exists k. split; [done|]. by apply prefix_app_inv in H.
Qed.

Section rules.
Context (I : sys -> Prop).

Lemma triple_ret {A} (a : A) (P : sys -> Prop) Q :
  (forall s, P s -> I s /\ Q a s) -> triple I P (ret a) Q.
Proof.
  intros H s HP. destruct (H s HP) as [HI HQ]. split; cbn.
  - intros os ->%prefix_nil_inv. done.
  - intros b [= <-]. done.
Qed.

Lemma triple_throw {A} e (P : sys -> Prop) (Q : A -> sys -> Prop) : (forall s, P s -> I s) -> triple I P (throw e) Q.
Proof. intros H s HP. split; cbn; [intros os ->%prefix_nil_inv; by apply H|done]. Qed.

Lemma triple_emit o (P : sys -> Prop) Q :
  (forall s, P s -> I s /\ I (apply_op s o) /\ Q tt (apply_op s o)) -> triple I P (emit o) Q.
Proof.
  intros H s HP. destruct (H s HP) as (HI & HI' & HQ). split; cbn.
  - intros [|o' os] Hp; [done|]. pose proof (prefix_cons_inv_1 _ _ _ _ Hp) as ->. by apply prefix_cons_inv_2, prefix_nil_inv in Hp as ->.
  - intros [] _. done.
Qed.

Lemma triple_bind {A B} (m : M A) (f : A -> M B) P Q R :
  triple I P m Q -> (forall a, triple I (Q a) (f a) R) -> triple I P (bind m f) R.
Proof.
  intros Hm Hf s HP. destruct (Hm s HP) as [HI HQ]. unfold bind. destruct (m s) as [o1 [a|e]]; cbn in *.
  - destruct (Hf a _ (HQ a eq_refl)) as [HI2 HR]. destruct (f a (run_ops s o1)) as [o2 r2]. cbn in *. split.
    + intros os [H|(k & -> & H)]%prefix_app_case; [by apply HI|]. rewrite run_ops_app. by apply HI2.
    + intros b E. rewrite run_ops_app. by apply HR.
  - split; [done|intros b [=]].
Qed.

Lemma triple_current {A} (f : sys -> M A) (P : sys -> Prop) R :
  (forall s0, triple I (fun s => s = s0 /\ P s) (f s0) R) -> triple I P (bind current f) R.
Proof.
  intros Hf s HP. specialize (Hf s s (conj eq_refl HP)). unfold bind, current. cbn.
  change (run_ops s []) with s. destruct (f s s) as [o2 r2]. exact Hf.
Qed.

Lemma triple_conseq {A} (m : M A) (P P' : sys -> Prop) (Q Q' : A -> sys -> Prop) :
  triple I P m Q -> (forall s, P' s -> P s) -> (forall a s, Q a s -> Q' a s) -> triple I P' m Q'.
Proof. intros Hm HP HQ s Hs. destruct (Hm s (HP s Hs)) as [H1 H2]. split; [done|]. intros a E. by apply HQ, H2. Qed.

Lemma triple_pure {A} (phi : Prop) (m : M A) P Q :
  (forall s, P s -> phi) -> (phi -> triple I P m Q) -> triple I P m Q.
Proof. intros H1 H2 s HP. exact (H2 (H1 s HP) s HP). Qed.

(** A loop, with an invariant over what is left of the list. *)
Lemma triple_forM {A S} (f : S -> A -> M S) (L : list A -> S -> sys -> Prop) l acc :
  (forall s acc, L [] acc s -> I s) ->
  (forall a l' acc, triple I (L (a :: l') acc) (f acc a) (L l')) ->
  triple I (L l acc) (forM f l acc) (fun acc s => L [] acc s).
Proof.
  intros H0 Hf. revert acc. induction l as [|a l IH]; intros acc; cbn.
  - apply triple_ret. intros s H. split; [by eapply H0|done].
  - eapply triple_bind; [apply Hf|]. intros acc'. apply IH.
Qed.
End rules.

(** ** The invariant of the repository *)
Section safety.
Variable packName : list byte -> string.
Variable sealed_ok : KeyID -> list byte -> Prop.     (* the bytes open as this chunk *)

(** Chunks one after the other, none of them empty. *)
Inductive pack_wf : list packEntry -> list byte -> Prop :=
  | wf_nil : pack_wf [] []
  | wf_snoc ents buf id sealed :
      pack_wf ents buf -> sealed <> [] -> sealed_ok id sealed ->
      pack_wf (ents ++ [mkEntry id (length buf) (length sealed)]) (buf ++ sealed).

(** Packs are named by their content, and the names of different packs differ. *)
Definition content (name : string) (ents : list packEntry) (data : list byte) : Prop :=
  name = packName data /\ pack_wf ents data.
Definition names_unique : Prop :=
  forall name ents ents' data data', content name ents data -> content name ents' data' -> ents = ents' /\ data = data'.

Definition index_wf (name : string) (pi : packIndex) : Prop :=
  iPack pi = name /\ exists data, content name (iEntries pi) data /\ iSize pi = Z.of_nat (length data).

(** A pack may lack its index and an index its pack: crashes leave both. *)
Definition disk_ok (d : disk) : Prop :=
  (forall name data, packs d !! name = Some data -> exists ents, content name ents data) /\
  (forall name o, idxs d !! name = Some o -> exists pi, o = Some pi /\ index_wf name pi).

Definition loc_ok (d : disk) (id : KeyID) (loc : location) : Prop :=
  exists pi, idxs d !! lPack loc = Some (Some pi) /\ is_Some (packs d !! lPack loc) /\
             mkEntry id (lOff loc) (lSize loc) ∈ iEntries pi.

Definition mem_ok (s : sys) : Prop := forall id loc, index s !! id = Some loc -> loc_ok (dsk s) id loc.

Definition repo_ok (s : sys) : Prop := disk_ok (dsk s) /\ mem_ok s.

Context (Hname : names_unique).

Lemma pack_wf_entry ents data e :
  pack_wf ents data -> e ∈ ents ->
  exists b, readAt data (eOff e) (eLen e) = Some b /\ sealed_ok (eID e) b /\ (0 < eLen e)%nat.
Proof.
  induction 1 as [|ents buf id sealed Hwf IH Hne Hok]; [by intros ?%not_elem_of_nil|].
  intros [He| ->%list_elem_of_singleton]%elem_of_app; cbn.
  - destruct (IH He) as (b & Hr & Hb & Hl). exists b. split_and!; try done.
    revert Hr. unfold readAt. rewrite length_app. repeat case_decide; try done; try lia.
    intros [= <-]. f_equal. rewrite drop_app_le, take_app_le by (rewrite ?length_drop; lia). done.
  - exists sealed. unfold readAt. rewrite length_app, decide_True by lia. split_and!; try done.
    + by rewrite drop_app_length, take_ge by lia.
    + destruct sealed; cbn; [done|lia].
Qed.

Lemma pack_wf_size ents data : pack_wf ents data -> length data = foldr (fun e n => eLen e + n)%nat 0%nat ents.
Proof.
  induction 1 as [|ents buf id sealed Hwf IH Hne Hok]; [done|].
  rewrite length_app, foldr_app, IH. cbn. clear. induction ents as [|e ents IH]; cbn; lia.
Qed.

(** Whatever the index knows can be read. *)
Lemma repo_ok_readable s id :
  repo_ok s -> is_Some (index s !! id) -> exists b, GetSealed s id = Ok b /\ sealed_ok id b.
Proof.
  intros [[Hp Hi] Hm] [loc Hl]. destruct (Hm id loc Hl) as (pi & Ei & [data Ed] & He).
  destruct (Hi _ _ Ei) as (pi' & [= <-] & Hn & data' & Hc & _).
  destruct (Hp _ _ Ed) as [ents Hc']. destruct (Hname _ _ _ _ _ Hc Hc') as [_ ->].
  destruct (pack_wf_entry _ _ _ (proj2 Hc) He) as (b & Hr & Hb & _). cbn in Hr, Hb.
  exists b. unfold GetSealed. by rewrite Hl, Ed, Hr.
Qed.

Lemma locate_lookup name ents ix id loc :
  fold_left (locate name) ents ix !! id = Some loc ->
  (ix !! id = Some loc /\ id ∉ map eID ents) \/ (lPack loc = name /\ mkEntry id (lOff loc) (lSize loc) ∈ ents).
Proof.
  revert ix. induction ents as [|e ents IH]; cbn; intros ix Hl; [left; split; [done|apply not_elem_of_nil]|].
  destruct (IH _ Hl) as [[H H']|[H1 H2]]; [|right; split; [done|by right]].
  unfold locate in H. destruct (decide (id = eID e)) as [->|Hne].
  - rewrite lookup_insert_eq in H. injection H as <-. right. split; [done|]. destruct e. left.
  - rewrite lookup_insert_ne in H by done. left. split; [done|]. by apply not_elem_of_cons.
Qed.

Lemma locate_some name ents ix id :
  is_Some (ix !! id) \/ id ∈ map eID ents -> is_Some (fold_left (locate name) ents ix !! id).
Proof.
  revert ix. induction ents as [|e ents IH]; cbn; intros ix [H|H]; [done|by apply not_elem_of_nil in H| |].
  - apply IH. left. unfold locate. destruct (decide (id = eID e)) as [->|Hne].
    + by rewrite lookup_insert_eq.
    + by rewrite lookup_insert_ne.
  - apply IH. apply elem_of_cons in H as [->|H]; [|by right]. left. unfold locate. by rewrite lookup_insert_eq.
Qed.

Lemma locate_mem name pi s :
  mem_ok s -> idxs (dsk s) !! name = Some (Some pi) -> is_Some (packs (dsk s) !! name) ->
  mem_ok (apply_op s (Locate name (iEntries pi))).
Proof.
  intros Hm Hi Hp id loc Hl. cbn in Hl.
  apply locate_lookup in Hl as [[Hl _]|[Hn He]]; [by apply Hm|]. exists pi. by rewrite Hn.
Qed.

Lemma locate_ok name pi s :
  repo_ok s -> idxs (dsk s) !! name = Some (Some pi) -> is_Some (packs (dsk s) !! name) ->
  repo_ok (apply_op s (Locate name (iEntries pi))).
Proof. intros [Hd Hm] Hi Hp. split; [done|]. by apply locate_mem. Qed.

(** Opening: an orphan pack is removed, everything else is indexed again. *)
Definition parsed (d : disk) : Prop := forall n o, idxs d !! n = Some o -> is_Some o.

Lemma disk_ok_parsed d : disk_ok d -> parsed d.
Proof. intros [_ Hi] n o Ho. by destruct (Hi n o Ho) as (pi & -> & _). Qed.

Lemma rebuild_loop l s :
  parsed (dsk s) -> mem_ok s -> (forall n, n ∈ l -> is_Some (idxs (dsk s) !! n) -> is_Some (packs (dsk s) !! n)) ->
  exists s', fold_left rebuild_step l (Ok s) = Ok s' /\ mem_ok s' /\
    idxs (dsk s') = idxs (dsk s) /\ snaps (dsk s') = snaps (dsk s) /\ packs (dsk s') ⊆ packs (dsk s) /\
    (forall n, is_Some (idxs (dsk s) !! n) -> packs (dsk s') !! n = packs (dsk s) !! n) /\
    (forall id, is_Some (index s !! id) \/
       (exists n pi, n ∈ l /\ idxs (dsk s) !! n = Some (Some pi) /\ id ∈ map eID (iEntries pi)) ->
       is_Some (index s' !! id)).
Proof.
  revert s. induction l as [|n l IH]; cbn; intros s Hpar Hm Hp.
  { exists s. split_and!; try done. intros id [H|(n & pi & H & _)]; [done|by apply not_elem_of_nil in H]. }
  destruct (idxs (dsk s) !! n) as [o|] eqn:Ei.
  - destruct (Hpar _ _ Ei) as [pi ->].
    assert (Hpn : is_Some (packs (dsk s) !! n)) by (apply Hp; [left|by rewrite Ei]).
    pose proof (locate_mem n pi s Hm Ei Hpn) as Hm'.
    destruct (IH (apply_op s (Locate n (iEntries pi))) Hpar Hm') as (s' & E & Hs' & E1 & E2 & E3 & E4 & Hin).
    { intros k Hk. apply Hp. by right. }
    exists s'. split_and!; try done. intros id Hid. apply Hin. cbn.
    destruct Hid as [H|(k & pi' & [->|Hk]%elem_of_cons & E' & H)].
    + left. apply locate_some. by left.
    + left. apply locate_some. right. rewrite Ei in E'. by injection E' as <-.
    + right. by exists k, pi'.
  - assert (Hne : forall k, is_Some (idxs (dsk s) !! k) -> n <> k) by (intros k Hk ->; rewrite Ei in Hk; by apply is_Some_None in Hk).
    destruct (IH (apply_op s (RemovePack n)) Hpar) as (s' & E & Hs' & E1 & E2 & E3 & E4 & Hin).
    + intros id loc Hl. destruct (Hm _ _ Hl) as (pi & Ei' & Ep & He). exists pi. split_and!; try done.
      cbn. rewrite lookup_delete_ne; [done|]. apply Hne. by rewrite Ei'.
    + cbn. intros k Hk Hs. rewrite lookup_delete_ne by (by apply Hne). apply Hp; [by right|done].
    + exists s'. split_and!; try done.
      * etrans; [exact E3|]. apply delete_subseteq.
      * intros k Hk. rewrite E4 by done. cbn. by rewrite lookup_delete_ne by (by apply Hne).
      * intros id Hid. apply Hin. cbn.
        destruct Hid as [H|(k & pi' & [->|Hk]%elem_of_cons & E' & H)]; [by left|congruence|].
        right. by exists k, pi'.
Qed.

Lemma missing_states_ok s :
  let s' := rebuildMissingStates s in
  packs (dsk s') = packs (dsk s) /\ idxs (dsk s') = idxs (dsk s) /\ snaps (dsk s') = snaps (dsk s) /\ index s' = index s.
Proof.
  cbn zeta. unfold rebuildMissingStates. generalize (map_to_list (snaps (dsk s))) as l. intros l.
  revert s. induction l as [|p l IH]; intros s; cbn [fold_left]; [done|].
  destruct (IH (missing_step s p)) as (-> & -> & -> & ->). unfold missing_step.
  destruct (states (dsk s) !! p.1); [done|]. by destruct p.2.
Qed.

Definition on_disk (d : disk) (id : KeyID) : Prop :=
  exists n pi, is_Some (packs d !! n) /\ idxs d !! n = Some (Some pi) /\ id ∈ map eID (iEntries pi).

Lemma indexed_on_disk s id : repo_ok s -> is_Some (index s !! id) -> on_disk (dsk s) id.
Proof.
  intros [_ Hm] [loc Hl]. destruct (Hm _ _ Hl) as (pi & Hi & Hp & He). exists (lPack loc), pi. split_and!; try done.
  by apply (list_elem_of_fmap_2 eID) in He.
Qed.

Lemma rebuildIndex_ok d :
  parsed d ->
  exists s, rebuildIndex d = Ok s /\ mem_ok s /\ idxs (dsk s) = idxs d /\ snaps (dsk s) = snaps d /\
    packs (dsk s) ⊆ packs d /\ (forall n, is_Some (idxs d !! n) -> packs (dsk s) !! n = packs d !! n) /\
    forall id, on_disk d id -> is_Some (index s !! id).
Proof.
  intros Hpar. unfold rebuildIndex.
  destruct (rebuild_loop (sortNames (map fst (map_to_list (packs d)))) (mkSys d ∅))
    as (s & -> & Hm & Ei & Es & Ep & Epn & Hin); [done|..].
  - unfold mem_ok. cbn. by intros id loc ?%lookup_empty_Some.
  - cbn. intros n Hn _. unfold sortNames in Hn. rewrite merge_sort_Permutation in Hn.
    apply list_elem_of_fmap in Hn as ([k v] & -> & Hk%elem_of_map_to_list). by exists v.
  - exists s. split_and!; try done.
    intros id (n & pi & [v Hp] & Hi & He). apply Hin. right. exists n, pi. split_and!; try done.
    unfold sortNames. rewrite merge_sort_Permutation. apply list_elem_of_fmap. exists (n, v).
    split; [done|by apply elem_of_map_to_list].
Qed.

Lemma open_ok d :
  disk_ok d ->
  exists s, OpenRepository d = Ok s /\ repo_ok s /\ idxs (dsk s) = idxs d /\ snaps (dsk s) = snaps d /\
            forall id, on_disk d id -> is_Some (index s !! id).
Proof.
  intros Hd. destruct (rebuildIndex_ok d (disk_ok_parsed d Hd)) as (s & E & Hm & Ei & Es & Ep & Epn & Hin).
  unfold OpenRepository. rewrite E. pose proof (missing_states_ok s) as (E1 & E2 & E3 & E4).
  eexists. split; [done|]. unfold repo_ok, disk_ok, mem_ok, loc_ok. rewrite E1, E2, E3, E4, Ei.
  split_and!; try done.
  - intros n data Hn. eapply (proj1 Hd). by eapply lookup_weaken.
  - apply Hd.
  - intros id loc Hl. rewrite <- Ei. by apply Hm.
Qed.

(** ** Garbage collection *)
Section gc.
Context (ref keep : gset KeyID) (sn : gmap (string * string) (option Manifest)) (Hkeep : keep ⊆ ref).

(** Kept chunks stay indexed and the manifests are not touched. *)
Definition gc_inv (s : sys) : Prop :=
  repo_ok s /\ snaps (dsk s) = sn /\ forall id, id ∈ keep -> is_Some (index s !! id).

(** No kept chunk is in one of these packs. *)
Definition avoids (names : list string) (s : sys) : Prop :=
  forall id loc, id ∈ keep -> index s !! id = Some loc -> lPack loc ∉ names.

Definition stable (F : sys -> Prop) (name : string) : Prop :=
  forall s o, o ∈ [Forget name; RemovePack name; RemoveIdx name] -> F s -> F (apply_op s o).

Lemma avoids_stable names name : stable (avoids names) name.
Proof.
  intros s o Ho Hs id loc Hid. repeat (apply elem_of_cons in Ho as [->|Ho]); [| | |by apply not_elem_of_nil in Ho]; cbn.
  - intros [Hl _]%map_lookup_filter_Some. by eapply Hs.
  - by apply Hs.
  - by apply Hs.
Qed.

Lemma forget_inv name s : gc_inv s -> avoids [name] s ->
  gc_inv (apply_op s (Forget name)) /\
  forall id loc, index (apply_op s (Forget name)) !! id = Some loc -> lPack loc <> name.
Proof.
  intros ((Hd & Hm) & Hsn & Hk) Ha. split_and!; [split_and!; [split| |]|]; cbn.
  - done.
  - intros id loc [Hl _]%map_lookup_filter_Some. by apply Hm.
  - done.
  - intros id Hid. destruct (Hk id Hid) as [loc Hl]. exists loc. apply map_lookup_filter_Some. split; [done|].
    pose proof (Ha id loc Hid Hl) as Hn. by apply not_elem_of_cons in Hn as [Hn _].
  - intros id loc [_ Hn]%map_lookup_filter_Some. done.
Qed.

Lemma remove_inv name o s :
  o = RemovePack name \/ o = RemoveIdx name ->
  gc_inv s -> (forall id loc, index s !! id = Some loc -> lPack loc <> name) ->
  gc_inv (apply_op s o).
Proof.
  intros Ho (((Hdp & Hdi) & Hm) & Hsn & Hk) Hf.
  destruct Ho as [-> | ->]; (split_and!; [split; [split|]| |]); cbn; try done.
  - intros n data [_ Hn]%lookup_delete_Some. by eapply Hdp.
  - intros id loc Hl. destruct (Hm id loc Hl) as (pi & Hi & Hp & He). exists pi.
    cbn. rewrite lookup_delete_ne; [done|]. intros Hn. by eapply Hf.
  - intros n data [_ Hn]%lookup_delete_Some. by eapply Hdi.
  - intros id loc Hl. destruct (Hm id loc Hl) as (pi & Hi & Hp & He). exists pi.
    cbn. rewrite lookup_delete_ne; [done|]. intros Hn. by eapply Hf.
Qed.

Lemma deletePack_safe F name :
  stable F name ->
  triple gc_inv (fun s => gc_inv s /\ F s /\ avoids [name] s) (deletePack name) (fun _ s => gc_inv s /\ F s).
Proof.
  intros HF. pose (free s := forall id loc, index s !! id = Some loc -> lPack loc <> name).
  assert (HF1 : forall s, F s -> F (apply_op s (Forget name))) by (intros; apply HF; [left|done]).
  assert (HF2 : forall s, F s -> F (apply_op s (RemovePack name))) by (intros; apply HF; [right; left|done]).
  assert (HF3 : forall s, F s -> F (apply_op s (RemoveIdx name))) by (intros; apply HF; [right; right; left|done]).
  unfold deletePack. eapply (triple_bind _ _ _ _ (fun _ s => gc_inv s /\ F s /\ free s)).
  { apply triple_emit. intros s (Hs & HFs & Ha). destruct (forget_inv name s Hs Ha). split_and!; auto. }
  intros _. eapply (triple_bind _ _ _ _ (fun _ s => gc_inv s /\ F s /\ free s)).
  { apply triple_emit. intros s (Hs & HFs & Ha). split_and!; auto; eapply remove_inv; eauto. }
  intros _. apply triple_current. intros s0. destruct (idxs (dsk s0) !! name).
  - apply triple_emit. intros s (-> & Hs & HFs & Ha). split_and!; auto; eapply remove_inv; eauto.
  - apply triple_throw. intros s (-> & Hs & _). done.
Qed.

(** *** The scan *)
Lemma live_step_mono ents acc : acc.2 <= (fold_left (live_step ref) ents acc).2.
Proof.
  revert acc. induction ents as [|e ents IH]; cbn; intros acc; [lia|]. etrans; [|apply IH].
  unfold live_step. case_decide; cbn; lia.
Qed.

Lemma live_pos_from ents acc e :
  (forall e, e ∈ ents -> 0 < eLen e)%nat -> e ∈ ents -> eID e ∈ ref -> eID e ∉ acc.1 ->
  acc.2 < (fold_left (live_step ref) ents acc).2.
Proof.
  revert acc. induction ents as [|e' ents IH]; cbn; intros acc Hl He Hr Ha; [by apply not_elem_of_nil in He|].
  pose proof (Hl e' ltac:(left)). destruct (decide (eID e' = eID e)) as [E|E].
  - eapply Z.lt_le_trans; [|apply live_step_mono]. unfold live_step. rewrite decide_True by (rewrite E; done). cbn. lia.
  - apply elem_of_cons in He as [->|He]; [done|]. eapply Z.le_lt_trans; [|apply IH; try done].
    + unfold live_step. case_decide; cbn; lia.
    + intros k Hk. apply Hl. by right.
    + unfold live_step. case_decide; cbn; [|done]. apply not_elem_of_union. split; [|done]. by apply not_elem_of_singleton.
Qed.

Lemma live_full_from ents acc :
  NoDup (map eID ents) -> (forall id, id ∈ map eID ents -> id ∈ ref /\ id ∉ acc.1) ->
  (fold_left (live_step ref) ents acc).2 = acc.2 + Z.of_nat (foldr (fun e n => eLen e + n)%nat 0%nat ents).
Proof.
  revert acc. induction ents as [|e ents IH]; cbn; intros acc Hnd Hr; [lia|].
  apply NoDup_cons in Hnd as [Hn Hnd]. unfold live_step at 2.
  rewrite decide_True by (apply Hr; left). rewrite IH; cbn; [lia|done|].
  intros id Hid. destruct (Hr id ltac:(by right)). split; [done|]. rewrite elem_of_union, elem_of_singleton.
  intros [->|]; done.
Qed.

(** A pack to be rewritten holds something that is not copied. *)
Definition cand_ok (c : candidate) : Prop :=
  (exists data, content (iPack (c_pi c)) (iEntries (c_pi c)) data) /\
  ~ (NoDup (map eID (iEntries (c_pi c))) /\ forall id, id ∈ map eID (iEntries (c_pi c)) -> id ∈ ref).

Definition ratio_ok (ratio : spec_float) (s : sys) : Prop :=
  forall name pi, idxs (dsk s) !! name = Some (Some pi) -> mostlyDead ratio (iSize pi) (iSize pi) = false.

Lemma ratio_stable ratio name : stable (ratio_ok ratio) name.
Proof.
  intros s o Ho Hs n pi. repeat (apply elem_of_cons in Ho as [->|Ho]); [| | |by apply not_elem_of_nil in Ho]; cbn.
  - apply Hs.
  - apply Hs.
  - intros [_ Hn]%lookup_delete_Some. by eapply Hs.
Qed.

Lemma cand_ok_intro ratio name pi :
  index_wf name pi -> mostlyDead ratio (iSize pi) (iSize pi) = false ->
  mostlyDead ratio (liveBytes ref pi) (iSize pi) = true -> cand_ok (mkCand pi (liveBytes ref pi)).
Proof.
  intros (Hn & data & Hc & Hsz) Hr Hm. split; cbn; [exists data; by rewrite Hn|]. intros [Hnd Hin].
  enough (liveBytes ref pi = iSize pi) as E by congruence.
  unfold liveBytes. rewrite live_full_from; [|done|by split; [apply Hin|apply not_elem_of_empty]].
  cbn. rewrite Hsz. by erewrite (pack_wf_size _ data) by apply Hc.
Qed.

Lemma dead_avoids name pi s :
  gc_inv s -> idxs (dsk s) !! name = Some (Some pi) -> liveBytes ref pi = 0 -> avoids [name] s.
Proof.
  intros (((Hdp & Hdi) & Hm) & _ & _) Hi Hl id loc Hid Hx Hn%list_elem_of_singleton.
  destruct (Hm id loc Hx) as (pi' & Hi' & _ & He). rewrite Hn, Hi in Hi'. injection Hi' as <-.
  destruct (Hdi _ _ Hi) as (pi' & [= <-] & _ & data & Hc & _).
  assert (0 < liveBytes ref pi) as Hpos; [|lia]. unfold liveBytes.
  eapply (live_pos_from _ (∅, 0)); [|exact He|cbn; by apply Hkeep|cbn; apply not_elem_of_empty].
  intros e Hin. destruct (pack_wf_entry _ _ _ (proj2 Hc) Hin) as (b & _ & _ & H). done.
Qed.

Lemma scan_safe opts acc name :
  triple gc_inv (fun s => gc_inv s /\ ratio_ok (RepackLiveRatio opts) s /\ Forall cand_ok acc.2)
    (scan_pack opts ref acc name)
    (fun acc s => gc_inv s /\ ratio_ok (RepackLiveRatio opts) s /\ Forall cand_ok acc.2).
Proof.
  destruct acc as [st cs]. unfold scan_pack, readPackIndex.
  eapply (triple_bind _ _ _ _ (fun pi s => gc_inv s /\ ratio_ok (RepackLiveRatio opts) s /\ Forall cand_ok cs /\
                                  idxs (dsk s) !! name = Some (Some pi))).
  { apply triple_current. intros s0. destruct (idxs (dsk s0) !! name) as [[pi|]|] eqn:Ei.
    - apply triple_ret. intros s (-> & Hs & Hr & Hc). by split_and!.
    - apply triple_throw. by intros s (-> & Hs & _).
    - apply triple_throw. by intros s (-> & Hs & _). }
  intros pi. cbn. case_decide as Hl; [|destruct (mostlyDead _ _ _) eqn:Hm].
  - eapply triple_bind.
    + eapply triple_conseq; [apply (deletePack_safe (fun s => ratio_ok (RepackLiveRatio opts) s /\ Forall cand_ok cs))| |done].
      * intros s o Ho [H1 H2]. split; [by eapply ratio_stable|done].
      * intros s (Hs & Hr & Hc & Hi). split_and!; try done. by eapply dead_avoids.
    + intros []. apply triple_ret. intros s (Hs & Hr & Hc). by split_and!.
  - apply triple_ret. intros s (Hs & Hr & Hc & Hi). split_and!; try done. cbn.
    apply Forall_app. split; [done|]. apply Forall_singleton.
    destruct Hs as (((_ & Hdi) & _) & _). destruct (Hdi _ _ Hi) as (pi' & [= <-] & Hwf).
    eapply cand_ok_intro; [done| |done]. by eapply Hr.
  - apply triple_ret. intros s (Hs & Hr & Hc & Hi). by split_and!.
Qed.

(** *** Rewriting the mostly dead packs *)
Section copy.
Context (cs : list candidate) (Hcs : Forall cand_ok cs).
Definition cand_names : list string := map (fun c => iPack (c_pi c)) cs.
Definition ids_of (ents : list packEntry) : list KeyID := map eID ents.

(** What the writer holds, and where the chunks are that have left the old packs. *)
Definition w_ok (w : packWriter) : Prop :=
  pack_wf (w_ents w) (w_buf w) /\ NoDup (ids_of (w_ents w)) /\
  (forall id, id ∈ ids_of (w_ents w) -> id ∈ ref /\ id ∈ w_staged w) /\ w_rewrite w = true.

Definition copied (pend : list KeyID) (w : packWriter) (s : sys) : Prop :=
  (forall id loc, id ∈ w_staged w -> index s !! id = Some loc -> id ∈ ids_of (w_ents w) \/ lPack loc ∉ cand_names) /\
  (forall id loc, id ∈ keep -> index s !! id = Some loc -> lPack loc ∈ cand_names -> id ∈ w_staged w \/ id ∈ pend).

Definition copy_inv (pend : list KeyID) (w : packWriter) (s : sys) : Prop :=
  gc_inv s /\ w_ok w /\ copied pend w s.

Lemma new_name_fresh ents data name :
  content name ents data -> NoDup (ids_of ents) -> (forall id, id ∈ ids_of ents -> id ∈ ref) -> name ∉ cand_names.
Proof.
  intros Hc Hnd Hr (c & -> & Hin)%list_elem_of_fmap. rewrite Forall_forall in Hcs.
  destruct (Hcs c Hin) as ((data' & Hc') & Hno). destruct (Hname _ _ _ _ _ Hc Hc') as [-> _]. by apply Hno.
Qed.

Lemma write_pack_inv name ents data s : content name ents data -> gc_inv s -> gc_inv (apply_op s (WritePack name data)).
Proof.
  intros Hc (((Hdp & Hdi) & Hm) & Hsn & Hk). split_and!; [split; [split|]| |]; cbn; try done.
  - intros n d [[-> <-]|[_ H]]%lookup_insert_Some; [by exists ents|by eapply Hdp].
  - intros id loc Hl. destruct (Hm id loc Hl) as (pi & Hi & Hp & He). exists pi. split_and!; try done. cbn.
    apply lookup_insert_is_Some'. by right.
Qed.

Lemma write_idx_inv name pi s :
  index_wf name pi -> gc_inv s ->
  gc_inv (apply_op s (WriteIdx name pi)).
Proof.
  intros Hwf (((Hdp & Hdi) & Hm) & Hsn & Hk). split_and!; [split; [split|]| |]; cbn; try done.
  - intros n o [[<- <-]|[_ H]]%lookup_insert_Some; [by exists pi|by eapply Hdi].
  - intros id loc Hl. destruct (Hm id loc Hl) as (pi' & Hi & Hp & He).
    destruct (decide (name = lPack loc)) as [Hn|Hn].
    + exists pi. cbn. rewrite <- Hn, lookup_insert_eq, Hn. split_and!; try done.
      destruct (Hdi _ _ Hi) as (pi2 & [= <-] & _ & data & Hc & _). destruct Hwf as (_ & data' & Hc' & _).
      rewrite Hn in Hc'. by destruct (Hname _ _ _ _ _ Hc Hc') as [<- _].
    + exists pi'. cbn. by rewrite lookup_insert_ne.
Qed.

Definition flushed (id : string) (w : packWriter) : packWriter :=
  mkWriter (w_target w) [] [] (w_staged w) (w_packs w ++ [id]) (w_guard w) (w_rewrite w).

Lemma locate_copied pend w s name :
  name ∉ cand_names -> copied pend w s -> copied pend (flushed name w) (apply_op s (Locate name (w_ents w))).
Proof.
  intros Hf [H1 H2]. split; cbn; intros id loc Hid Hl; apply locate_lookup in Hl as [[Hl Hn]|[-> _]].
  - right. by destruct (H1 id loc Hid Hl).
  - by right.
  - by apply H2.
  - done.
Qed.

Lemma locate_inv name pi s :
  gc_inv s -> idxs (dsk s) !! name = Some (Some pi) -> is_Some (packs (dsk s) !! name) ->
  gc_inv (apply_op s (Locate name (iEntries pi))).
Proof.
  intros (Hr & Hsn & Hk) Hi Hp. split_and!; [by apply locate_ok|done|].
  intros id Hid. cbn. apply locate_some. left. by apply Hk.
Qed.

Lemma flush_safe pend w :
  triple gc_inv (copy_inv pend w) (flush packName w) (fun w' s => copy_inv pend w' s /\ w_ents w' = []).
Proof.
  unfold flush. case_decide as He; [apply triple_ret; by intros s (? & ? & ?)|].
  destruct (w_guard w _); cbn [negb]; [|apply triple_throw; by intros s (? & _)].
  set (name := packName (w_buf w)). set (pi := mkIndex name (Z.of_nat (length (w_buf w))) (w_ents w)).
  assert (Hwf : w_ok w -> content name (w_ents w) (w_buf w)) by (intros H; split; [done|apply H]).
  eapply (triple_bind _ _ _ _ (fun _ s => copy_inv pend w s /\ is_Some (packs (dsk s) !! name))).
  { apply triple_emit. intros s (Hs & Hw & Hc). pose proof (write_pack_inv name _ _ s (Hwf Hw) Hs). split_and!; try done.
    cbn. by rewrite lookup_insert_eq. }
  intros []. eapply (triple_bind _ _ _ _ (fun _ s => copy_inv pend w s /\ is_Some (packs (dsk s) !! name) /\
                                            idxs (dsk s) !! name = Some (Some pi))).
  { apply triple_emit. intros s ((Hs & Hw & Hc) & Hp).
    assert (index_wf name pi) as Hi by (split; [done|]; exists (w_buf w); split; [by apply Hwf|done]).
    pose proof (write_idx_inv name pi s Hi Hs). split_and!; try done. cbn. by rewrite lookup_insert_eq. }
  intros []. eapply (triple_bind _ _ _ _ (fun _ s => copy_inv pend (flushed name w) s)).
  { apply triple_emit. intros s ((Hs & Hw & Hc) & Hp & Hi). pose proof (locate_inv name pi s Hs Hi Hp) as Hs'.
    split_and!; try done. split_and!; [done| |].
    - split_and!; cbn; [constructor|constructor|by intros ? ?%not_elem_of_nil|apply Hw].
    - apply locate_copied; [|done]. pose proof Hw as (_ & Hnd & Hr & _). eapply new_name_fresh; [by apply Hwf|done|].
      intros id Hid. by apply Hr. }
  intros []. apply triple_ret. intros s Hs. split; [apply Hs|done].
Qed.

Lemma stage_copied pend w s id sealed :
  copy_inv (id :: pend) w s -> id ∈ ref -> id ∉ w_staged w -> sealed <> [] -> sealed_ok id sealed ->
  copy_inv pend (stage w id sealed) s.
Proof.
  intros (Hs & (Hwf & Hnd & Hr & Hrw) & H1 & H2) Hid Hn Hne Hok. unfold copy_inv, w_ok, copied, ids_of in *.
  cbn. rewrite map_app. cbn. split_and!; try done.
  - by constructor.
  - apply NoDup_app. split_and!; [done| |apply NoDup_singleton].
    intros k Hk ->%list_elem_of_singleton. by apply Hn, Hr.
  - intros k [Hk| ->%list_elem_of_singleton]%elem_of_app; [|split; [done|set_solver]].
    destruct (Hr k Hk). split; [done|set_solver].
  - intros k loc [->%elem_of_singleton|Hk]%elem_of_union Hl; [left; apply elem_of_app; right; by left|].
    destruct (H1 k loc Hk Hl); [left; apply elem_of_app; by left|by right].
  - intros k loc Hk Hl Hc. destruct (H2 k loc Hk Hl Hc) as [H|[->|H]%elem_of_cons]; [left; set_solver|left; set_solver|by right].
Qed.

Lemma staged_copied pend w s id : copy_inv (id :: pend) w s -> id ∈ w_staged w \/ id ∉ ref -> copy_inv pend w s.
Proof.
  intros (Hs & Hw & H1 & H2) Hid. split_and!; try done. split; [done|].
  intros k loc Hk Hl Hc. destruct (H2 k loc Hk Hl Hc) as [H|[->|H]%elem_of_cons]; [by left| |by right].
  destruct Hid as [Hid|Hid]; [by left|]. exfalso. by apply Hid, Hkeep.
Qed.

Lemma add_safe pend w id sealed :
  id ∈ ref -> sealed <> [] -> sealed_ok id sealed ->
  triple gc_inv (copy_inv (id :: pend) w) (add packName w id sealed) (fun r s => copy_inv pend r.1 s).
Proof.
  intros Hid Hne Hok. unfold add. apply triple_current. intros s0. destruct (w_rewrite w) eqn:Hrw; cbn [negb andb].
  2:{ intros s [_ (_ & (_ & _ & _ & E) & _)]. congruence. }
  case_decide as Hst.
  { apply triple_ret. intros s [_ Hs]. split; [apply Hs|]. cbn. eapply staged_copied; [done|by left]. }
  case_decide as Ht.
  - eapply triple_bind; [eapply triple_conseq; [apply (flush_safe pend)| |done]|].
    + intros s [_ Hs]. by apply stage_copied.
    + intros w'. apply triple_ret. intros s [Hs _]. split; [apply Hs|done].
  - apply triple_ret. intros s [_ Hs]. split; [apply Hs|]. cbn. by apply stage_copied.
Qed.

Lemma readAt_nonempty data off len b : readAt data off len = Some b -> (0 < len)%nat -> b <> [].
Proof.
  unfold readAt. case_decide; [|done]. intros [= <-] Hl E. apply (f_equal length) in E.
  rewrite length_take, length_drop in E. cbn in E. lia.
Qed.

Lemma copy_entry_safe pend w name data ents e :
  content name ents data -> e ∈ ents ->
  triple gc_inv (copy_inv (eID e :: pend) w) (copy_entry packName ref name data w e) (fun w s => copy_inv pend w s).
Proof.
  intros Hc He. unfold copy_entry. case_decide as Hr.
  { apply triple_ret. intros s Hs. split; [apply Hs|]. eapply staged_copied; [exact Hs|by right]. }
  destruct (pack_wf_entry _ _ e (proj2 Hc) He) as (b & Hb & Hok & Hpos).
  rewrite Hb. eapply triple_bind; [apply add_safe; [done| |done]|].
  - eapply readAt_nonempty; [|exact Hpos].
    by destruct (pack_wf_entry _ _ e (proj2 Hc) He) as (b' & H & _).
  - intros r. apply triple_ret. intros s Hs. split; [apply Hs|done].
Qed.

Lemma copyLive_safe c pend w :
  c ∈ cs ->
  triple gc_inv (copy_inv (ids_of (iEntries (c_pi c)) ++ pend) w) (copyLive packName ref w c) (fun w s => copy_inv pend w s).
Proof.
  intros Hin. unfold copyLive. apply triple_current. intros s0.
  destruct (packs (dsk s0) !! iPack (c_pi c)) as [data|] eqn:Ep; [|apply triple_throw; by intros s (-> & Hs & _)].
  apply (triple_pure _ (content (iPack (c_pi c)) (iEntries (c_pi c)) data)).
  { intros s (-> & (((Hdp & _) & _) & _) & _). destruct (Hdp _ _ Ep) as [ents Hc].
    rewrite Forall_forall in Hcs. destruct (Hcs c Hin) as ((data' & Hc') & _).
    by destruct (Hname _ _ _ _ _ Hc Hc') as [-> ->]. }
  intros Hc. eapply triple_conseq.
  - apply (triple_forM gc_inv _ (fun l w s => copy_inv (ids_of l ++ pend) w s /\ l ⊆ iEntries (c_pi c))).
    + by intros ? ? [(? & _) _].
    + intros e l' w'. apply (triple_pure _ (e :: l' ⊆ iEntries (c_pi c))); [by intros s [_ H]|]. intros Hl.
      eapply triple_conseq; [eapply copy_entry_safe; [exact Hc|apply Hl; left]| |].
      * intros s [Hs _]. exact Hs.
      * intros w2 s Hs. split; [exact Hs|]. intros k Hk. apply Hl. by right.
  - intros s [_ Hs]. by split.
  - cbn. by intros w' s [Hs _].
Qed.

Lemma copyAll_safe w :
  w_ok w -> w_staged w = ∅ ->
  triple gc_inv gc_inv (forM (copyLive packName ref) cs w) (fun w s => copy_inv [] w s).
Proof.
  intros Hw He. eapply triple_conseq.
  - apply (triple_forM gc_inv _ (fun l w s => copy_inv (flat_map (fun c => ids_of (iEntries (c_pi c))) l) w s /\ l ⊆ cs)).
    + by intros ? ? [(? & _) _].
    + intros c l w'. apply (triple_pure _ (c :: l ⊆ cs)); [by intros s [_ H]|]. intros Hl.
      eapply triple_conseq; [apply copyLive_safe; apply Hl; left| |].
      * intros s [Hs _]. exact Hs.
      * intros w2 s Hs. split; [exact Hs|]. intros k Hk. apply Hl. by right.
  - intros s Hs. split; [|done]. split_and!; try done. split; rewrite He; [set_solver|].
    intros id loc Hid Hl (c & Hn & Hc)%list_elem_of_fmap. right. apply list_elem_of_In, in_flat_map. exists c.
    rewrite <- !list_elem_of_In. split; [done|]. destruct Hs as (((_ & Hdi) & Hm) & _).
    destruct (Hm id loc Hl) as (pi & Hi & _ & Hent). destruct (Hdi _ _ Hi) as (pi' & [= <-] & _ & data & Hc1 & _).
    rewrite Forall_forall in Hcs. destruct (Hcs c Hc) as ((data' & Hc2) & _). rewrite <- Hn in Hc2.
    destruct (Hname _ _ _ _ _ Hc1 Hc2) as [<- _]. by apply (list_elem_of_fmap_2 eID) in Hent.
  - by intros w' s [Hs _].
Qed.

Lemma last_flush_safe w :
  triple gc_inv (copy_inv [] w) (flush packName w) (fun _ s => gc_inv s /\ avoids cand_names s).
Proof.
  eapply triple_conseq; [apply (flush_safe [])|done|].
  intros w2 s [(Hs & _ & H1 & H2) E]. split; [done|]. intros id loc Hid Hl Hc. rewrite E in H1. cbn in H1.
  destruct (H2 id loc Hid Hl Hc) as [H|H]; [|by apply not_elem_of_nil in H].
  destruct (H1 id loc H Hl) as [H'|H']; [by apply not_elem_of_nil in H'|done].
Qed.

Lemma drop_safe st :
  triple gc_inv (fun s => gc_inv s /\ avoids cand_names s) (forM drop_candidate cs st) (fun _ s => gc_inv s).
Proof.
  eapply triple_conseq.
  - apply (triple_forM gc_inv _ (fun l _ s => (gc_inv s /\ avoids cand_names s) /\ l ⊆ cs)).
    + by intros ? ? [[? _] _].
    + intros c l st'. apply (triple_pure _ (c :: l ⊆ cs)); [by intros s [_ H]|]. intros Hl. unfold drop_candidate.
      eapply (triple_bind _ _ _ _ (fun _ s => gc_inv s /\ avoids cand_names s)).
      * eapply triple_conseq; [apply (deletePack_safe (avoids cand_names)), avoids_stable| |done].
        intros s [[Hs Ha] _]. split_and!; try done. intros id loc Hid Hx Hn%list_elem_of_singleton.
        apply (Ha id loc Hid Hx). rewrite Hn. apply (list_elem_of_fmap_2 (fun c => iPack (c_pi c))), Hl. left.
      * intros []. apply triple_ret. intros s [Hs Ha]. split_and!; try done. intros k Hk. apply Hl. by right.
  - by intros s Hs.
  - by intros a s [[Hs _] _].
Qed.

Lemma repackAll_safe st : triple gc_inv gc_inv (repackAll packName ref cs st) (fun _ s => gc_inv s).
Proof.
  unfold repackAll. eapply triple_bind; [apply copyAll_safe; [|done]|].
  - split_and!; [constructor|constructor|by intros ? ?%not_elem_of_nil|done].
  - intros w. eapply triple_bind; [apply last_flush_safe|]. intros w'. apply drop_safe.
Qed.
End copy.

Lemma removeOrphanCaches_safe st : triple gc_inv gc_inv (removeOrphanCaches st) (fun _ s => gc_inv s).
Proof.
  unfold removeOrphanCaches. apply triple_current. intros s0. eapply triple_conseq.
  - apply (triple_forM gc_inv _ (fun _ _ s => gc_inv s)); [done|]. intros ns l st'.
    eapply (triple_bind _ _ _ _ (fun _ s => gc_inv s)); [|intros []; by apply triple_ret].
    apply triple_emit. intros s Hs. split_and!; [done|exact Hs|exact Hs].
  - by intros s [_ Hs].
  - done.
Qed.
End gc.

Lemma CollectGarbageWith_safe keep ref opts free s :
  keep ⊆ ref -> referencedChunks (dsk s) = Ok ref ->
  triple (gc_inv keep (snaps (dsk s)))
    (fun s' => s' = s /\ gc_inv keep (snaps (dsk s)) s' /\ ratio_ok (RepackLiveRatio opts) s')
    (CollectGarbageWith packName opts free) (fun _ s' => gc_inv keep (snaps (dsk s)) s').
Proof.
  intros Hk Hr. unfold CollectGarbageWith. apply triple_current. intros s0.
  apply (triple_pure _ (s0 = s)); [by intros s' (-> & -> & _)|]. intros ->. rewrite Hr.
  eapply triple_bind.
  { eapply triple_conseq.
    - apply (triple_forM _ _ (fun _ acc s' => gc_inv keep (snaps (dsk s)) s' /\ ratio_ok (RepackLiveRatio opts) s' /\
                                              Forall (cand_ok ref) acc.2)); [by intros ? ? (? & _)|].
      intros name l acc. by apply scan_safe.
    - intros s' (_ & _ & Hs & Hra). by split_and!.
    - done. }
  intros [st cs]. cbn. apply (triple_pure _ (Forall (cand_ok ref) cs)); [by intros s' (_ & _ & H)|]. intros Hcs.
  eapply (triple_bind _ _ _ _ (fun _ s' => gc_inv keep (snaps (dsk s)) s')); [|intros st'; apply removeOrphanCaches_safe].
  eapply (triple_conseq _ _ (gc_inv keep (snaps (dsk s))) _ (fun _ s' => gc_inv keep (snaps (dsk s)) s')); [|by intros s' (Hs & _)|done].
  case_decide; [by apply triple_ret|]. destruct free as [f|]; [|by apply triple_ret].
  case_decide; [by apply triple_ret|]. by apply repackAll_safe.
Qed.

(** C21: garbage collection is crash safe.  From a consistent repository, after any
    number of the writes and removals of a collection (with or without compaction), the
    repository is consistent, the restore points are untouched, and every chunk a
    restore point needs that was stored is still readable, both through the running
    repository's index and after opening the repository again. *)
Theorem gc_crash_safe s ref opts free os :
  repo_ok s -> referencedChunks (dsk s) = Ok ref -> ratio_ok (RepackLiveRatio opts) s ->
  os `prefix_of` (CollectGarbageWith packName opts free s).1 ->
  let s' := run_ops s os in
  repo_ok s' /\ snaps (dsk s') = snaps (dsk s) /\
  exists s'', OpenRepository (dsk s') = Ok s'' /\ repo_ok s'' /\
    forall id, id ∈ ref -> Has s id = true ->
      (exists b, GetSealed s' id = Ok b /\ sealed_ok id b) /\ (exists b, GetSealed s'' id = Ok b /\ sealed_ok id b).
Proof.
  intros Hs Hr Hra Hos. cbn zeta.
  pose (keep := filter (fun id => Has s id = true) ref).
  assert (Hk : keep ⊆ ref) by (intros id [_ H]%elem_of_filter; done).
  assert (gc_inv keep (snaps (dsk s)) s) as Hi.
  { split_and!; [done|done|]. intros id [H _]%elem_of_filter. revert H. unfold Has. by destruct (index s !! id). }
  destruct (CollectGarbageWith_safe keep ref opts free s Hk Hr s (conj eq_refl (conj Hi Hra))) as [H _].
  destruct (H os Hos) as (Hs' & Hsn & Hkeep). split_and!; [done|done|].
  destruct (open_ok (dsk (run_ops s os))) as (s'' & Ho & Hs'' & _ & _ & Hin); [apply Hs'|].
  exists s''. split_and!; [done|done|]. intros id Hid Hh.
  assert (is_Some (index (run_ops s os) !! id)) as Hx by (apply Hkeep, elem_of_filter; done).
  split; apply repo_ok_readable; try done. by apply Hin, indexed_on_disk.
Qed.
End safety.

(** ** Functional behaviour of a plain collection *)
Definition eval {A} (m : M A) (s : sys) (a : A) (s' : sys) : Prop := (m s).2 = Ok a /\ run_ops s (m s).1 = s'.

Lemma eval_bind {A B} (m : M A) (f : A -> M B) s a s1 b s2 :
  eval m s a s1 -> eval (f a) s1 b s2 -> eval (bind m f) s b s2.
Proof.
  unfold eval, bind. intros [E1 <-]. destruct (m s) as [o1 r]. cbn in *. subst r.
  destruct (f a (run_ops s o1)) as [o2 r2]. cbn. intros [-> <-]. split; [done|]. apply run_ops_app.
Qed.

Definition drop_pack (s : sys) (name : string) : sys := run_ops s [Forget name; RemovePack name; RemoveIdx name].

Lemma deletePack_eval name s : is_Some (idxs (dsk s) !! name) -> eval (deletePack name) s tt (drop_pack s name).
Proof. intros [o E]. unfold eval, deletePack, bind, emit, current, run_ops. cbn. by rewrite E. Qed.

(** The packs with an index of which no byte is referenced. *)
Definition dead_pack (ref : gset KeyID) (d : disk) (name : string) : bool :=
  match idxs d !! name with Some (Some pi) => bool_decide (liveBytes ref pi = 0) | _ => false end.

Definition pack_size (d : disk) (name : string) : Z :=
  match idxs d !! name with Some (Some pi) => iSize pi | _ => 0 end.

Lemma drop_pack_other name n s : n <> name ->
  idxs (dsk (drop_pack s name)) !! n = idxs (dsk s) !! n /\ packs (dsk (drop_pack s name)) !! n = packs (dsk s) !! n.
Proof. intros Hn. unfold drop_pack, run_ops. cbn. by rewrite !lookup_delete_ne. Qed.

Lemma scan_eval ref opts acc name pi s :
  RepackLiveRatio opts = zeroFloat -> idxs (dsk s) !! name = Some (Some pi) ->
  exists st, eval (scan_pack opts ref acc name) s (st, acc.2) (if dead_pack ref (dsk s) name then drop_pack s name else s) /\
    PacksScanned st = PacksScanned acc.1 + 1 /\ CachesRemoved st = CachesRemoved acc.1 /\
    PacksDeleted st = PacksDeleted acc.1 + (if dead_pack ref (dsk s) name then 1 else 0) /\
    BytesFreed st = BytesFreed acc.1 + (if dead_pack ref (dsk s) name then iSize pi else 0).
Proof.
  intros Hz Hi. destruct acc as [st cs]. unfold scan_pack, dead_pack. rewrite Hi.
  assert (eval (readPackIndex name) s pi s) as Hr by (unfold eval, readPackIndex, bind, current, run_ops; cbn; by rewrite Hi).
  destruct (decide (liveBytes ref pi = 0)) as [Hl|Hl].
  - rewrite bool_decide_true by done. eexists. split.
    + eapply eval_bind; [exact Hr|]. cbn. rewrite decide_True by done.
      eapply eval_bind; [apply deletePack_eval; by rewrite Hi|]. by split.
    + cbn. split_and!; lia.
  - rewrite bool_decide_false by done. eexists. split.
    + eapply eval_bind; [exact Hr|]. cbn. rewrite decide_False by done. rewrite Hz. cbn. by split.
    + cbn. split_and!; lia.
Qed.

Lemma scan_loop ref opts l acc s :
  RepackLiveRatio opts = zeroFloat -> NoDup l -> (forall n, n ∈ l -> exists pi, idxs (dsk s) !! n = Some (Some pi)) ->
  let deads := filter (fun n => dead_pack ref (dsk s) n = true) l in
  exists st, eval (forM (scan_pack opts ref) l acc) s (st, acc.2) (fold_left drop_pack deads s) /\
    PacksScanned st = PacksScanned acc.1 + Z.of_nat (length l) /\ CachesRemoved st = CachesRemoved acc.1 /\
    PacksDeleted st = PacksDeleted acc.1 + Z.of_nat (length deads) /\
    BytesFreed st = BytesFreed acc.1 + foldr Z.add 0 (map (pack_size (dsk s)) deads).
Proof.
  intros Hz. revert acc s. induction l as [|n l IH]; intros acc s Hnd Hi; cbn zeta.
  { exists acc.1. destruct acc. cbn. split_and!; [by split|lia..]. }
  apply NoDup_cons in Hnd as [Hn Hnd]. destruct (Hi n ltac:(left)) as [pi Hp].
  destruct (scan_eval ref opts acc n pi s Hz Hp) as (st1 & E1 & S1 & S2 & S3 & S4).
  set (s1 := if dead_pack ref (dsk s) n then drop_pack s n else s) in *.
  assert (Hsame : forall k, k ∈ l -> idxs (dsk s1) !! k = idxs (dsk s) !! k).
  { intros k Hk. unfold s1. destruct (dead_pack ref (dsk s) n); [|done]. apply drop_pack_other. by intros ->. }
  destruct (IH (st1, acc.2) s1) as (st2 & E2 & T1 & T2 & T3 & T4); [done| |].
  { intros k Hk. rewrite Hsame by done. apply Hi. by right. }
  assert (filter (fun n => dead_pack ref (dsk s1) n = true) l = filter (fun n => dead_pack ref (dsk s) n = true) l) as Ef.
  { apply filter_ext_in. intros k Hk. unfold dead_pack. by rewrite Hsame. }
  rewrite Ef in *.
  assert (map (pack_size (dsk s1)) (filter (fun n => dead_pack ref (dsk s) n = true) l) =
          map (pack_size (dsk s)) (filter (fun n => dead_pack ref (dsk s) n = true) l)) as Em.
  { apply map_ext_in. intros k [_ Hk]%list_elem_of_In%list_elem_of_filter. unfold pack_size. by rewrite Hsame. }
  rewrite Em in T4. cbn in T1, T2, T3, T4. exists st2. split.
  - rewrite filter_cons. eapply eval_bind; [exact E1|]. unfold s1 in E2. by destruct (dead_pack ref (dsk s) n).
  - rewrite filter_cons. unfold s1 in *. assert (pack_size (dsk s) n = iSize pi) as Esz by (unfold pack_size; by rewrite Hp).
    destruct (dead_pack ref (dsk s) n); case_decide; try done; cbn [map foldr length]; split_and!; rewrite ?Esz; lia.
Qed.

Lemma drop_packs_lookup deads s n :
  let s' := fold_left drop_pack deads s in
  idxs (dsk s') !! n = (if bool_decide (n ∈ deads) then None else idxs (dsk s) !! n) /\
  packs (dsk s') !! n = (if bool_decide (n ∈ deads) then None else packs (dsk s) !! n) /\
  snaps (dsk s') = snaps (dsk s) /\ caches (dsk s') = caches (dsk s).
Proof.
  revert s. induction deads as [|k deads IH]; cbn zeta; intros s.
  { by rewrite bool_decide_false by apply not_elem_of_nil. }
  cbn [fold_left]. destruct (IH (drop_pack s k)) as (E1 & E2 & E3 & E4). rewrite E1, E2, E3, E4.
  destruct (decide (n = k)) as [->|Hne].
  - rewrite (bool_decide_true (k ∈ k :: deads)) by left.
    unfold drop_pack, run_ops. cbn. rewrite !lookup_delete_eq. by destruct (bool_decide _).
  - rewrite (bool_decide_ext (n ∈ k :: deads) (n ∈ deads)) by (rewrite elem_of_cons; naive_solver).
    destruct (drop_pack_other k n s Hne) as [-> ->]. done.
Qed.

Lemma packList_spec d : NoDup (packList d) /\ (forall n, n ∈ packList d <-> is_Some (idxs d !! n)) /\ length (packList d) = size (idxs d).
Proof.
  unfold packList, sortNames. split_and!.
  - rewrite merge_sort_Permutation. apply NoDup_fst_map_to_list.
  - intros n. rewrite merge_sort_Permutation, list_elem_of_fmap. split.
    + intros ([k v] & -> & Hk%elem_of_map_to_list). by exists v.
    + intros [v Hv]. exists (n, v). split; [done|by apply elem_of_map_to_list].
  - rewrite merge_sort_Permutation, length_fmap. apply length_map_to_list.
Qed.

Lemma orphan_caches_spec d ns :
  ns ∈ caches d /\ ns ∉ orphan_caches d <-> ns ∈ caches d /\ exists id, is_Some (snaps d !! (ns, id)).
Proof.
  unfold orphan_caches. rewrite list_elem_of_filter, elem_of_elements. split; intros [Hc H]; (split; [done|]).
  - destruct (decide (Forall (fun p : (string * string) * option Manifest => p.1.1 <> ns) (map_to_list (snaps d)))) as [|Hn];
      [by exfalso; apply H|].
    apply not_Forall_Exists in Hn; [|apply _]. apply Exists_exists in Hn as ([[ns' id] v] & Hin & Hne). cbn in Hne.
    apply dec_stable in Hne as ->. exists id. by rewrite (proj1 (elem_of_map_to_list _ _ _) Hin).
  - destruct H as (id & v & Hv). rewrite Forall_forall. intros [Hf _].
    by apply (Hf ((ns, id), v)); [apply elem_of_map_to_list|].
Qed.

Lemma remove_caches_loop l st s :
  exists st' s', eval (forM remove_cache l st) s st' s' /\
    packs (dsk s') = packs (dsk s) /\ idxs (dsk s') = idxs (dsk s) /\ snaps (dsk s') = snaps (dsk s) /\ index s' = index s /\
    caches (dsk s') = caches (dsk s) ∖ list_to_set l /\
    PacksScanned st' = PacksScanned st /\ PacksDeleted st' = PacksDeleted st /\ BytesFreed st' = BytesFreed st /\
    CachesRemoved st' = CachesRemoved st + Z.of_nat (length l).
Proof.
  revert st s. induction l as [|ns l IH]; intros st s.
  { exists st, s. split; [by split|]. split_and!; try done; [set_solver|cbn; lia]. }
  destruct (IH (mkStats (ReferencedChunks st) (PacksScanned st) (PacksDeleted st) (BytesFreed st) (PacksRepacked st)
    (BytesRepacked st) (DeadBytes st) (CachesRemoved st + 1) (RepackSkipped st)) (apply_op s (RemoveCache ns))) as (st' & s' & E & E1 & E2 & E3 & E4 & E5 & E6 & E7 & E8 & E9).
  exists st', s'. split_and!; [|exact E1|exact E2|exact E3|exact E4| |exact E6|exact E7|exact E8|].
  - eapply eval_bind; [eapply eval_bind; [by split|by split]|exact E].
  - rewrite E5. cbn. set_solver.
  - rewrite E9. cbn [length CachesRemoved]. lia.
Qed.

(** What a plain collection reclaims.  When every restore point and every pack
    index can be read, it ends without error, exactly the packs of which no byte is
    referenced are gone with their indexes, everything else stays, the caches left are
    those of namespaces with a restore point, and the counts reported are the real ones. *)
Theorem collect_reclaims packName free s ref :
  referencedChunks (dsk s) = Ok ref -> (forall n o, idxs (dsk s) !! n = Some o -> is_Some o) ->
  let d := dsk s in
  let deads := filter (fun n => dead_pack ref d n = true) (packList d) in
  exists st s', eval (CollectGarbage packName free) s st s' /\
    (forall n, idxs (dsk s') !! n = if dead_pack ref d n then None else idxs d !! n) /\
    (forall n, packs (dsk s') !! n = if dead_pack ref d n then None else packs d !! n) /\
    snaps (dsk s') = snaps d /\
    (forall ns, ns ∈ caches (dsk s') <-> ns ∈ caches d /\ exists id, is_Some (snaps d !! (ns, id))) /\
    PacksScanned st = Z.of_nat (size (idxs d)) /\ PacksDeleted st = Z.of_nat (length deads) /\
    BytesFreed st = foldr Z.add 0 (map (pack_size d) deads).
Proof.
  intros Hr Hi. cbn zeta. destruct (packList_spec (dsk s)) as (Hnd & Hin & Hlen).
  destruct (scan_loop ref (mkOpts zeroFloat 0) (packList (dsk s)) (mkStats (size ref) 0 0 0 0 0 0 0 false, []) s)
    as (st1 & E1 & S1 & S2 & S3 & S4); [done|done| |].
  { intros n [o Ho]%Hin. destruct (Hi _ _ Ho) as [pi ->]. by exists pi. }
  set (deads := filter _ _) in *. set (s1 := fold_left drop_pack deads s) in *.
  destruct (remove_caches_loop (orphan_caches (dsk s1)) st1 s1) as (st & s' & E2 & P1 & P2 & P3 & P4 & P5 & T1 & T2 & T3 & _).
  pose proof (drop_packs_lookup deads s) as Hd. cbn zeta in Hd. fold s1 in Hd.
  assert (Hdead : forall n, bool_decide (n ∈ deads) = dead_pack ref (dsk s) n).
  { intros n. unfold deads. apply eq_bool_prop_intro. rewrite bool_decide_spec, list_elem_of_filter, Is_true_true.
    split; [by intros [? _]|]. intros Hdp. split; [done|]. apply Hin. revert Hdp. unfold dead_pack.
    by destruct (idxs (dsk s) !! n). }
  exists st, s'. split_and!.
  - unfold CollectGarbage, CollectGarbageWith. eapply eval_bind; [by split|]. change (run_ops s []) with s. rewrite Hr.
    eapply eval_bind; [exact E1|]. eapply eval_bind; [by split|]. unfold removeOrphanCaches.
    eapply eval_bind; [by split|exact E2].
  - intros n. rewrite P2. destruct (Hd n) as (-> & _). by rewrite Hdead.
  - intros n. rewrite P1. destruct (Hd n) as (_ & -> & _). by rewrite Hdead.
  - rewrite P3. by destruct (Hd "x"%string) as (_ & _ & -> & _).
  - intros ns. destruct (Hd "x"%string) as (_ & _ & <- & <-).
    by rewrite P5, elem_of_difference, elem_of_list_to_set, orphan_caches_spec.
  - rewrite T1, S1. cbn. by rewrite Hlen.
  - rewrite T2, S3. cbn. lia.
  - rewrite T3, S4. cbn. lia.
Qed.

(** ** A concrete repository: a pack with three chunks, of which one is referenced *)
Module Example1.
Definition name (data : list byte) : string := String.string_of_list_byte data.
Definition chunk_id (x : byte) : KeyID := String (Ascii.ascii_of_byte x) EmptyString.
Definition opens (id : KeyID) (b : list byte) : Prop := exists x, b = [x] /\ id = chunk_id x.

Definition data : list byte := ["a"; "b"; "c"]%byte.
Definition entries (l : list byte) : list packEntry := imap (fun i x => mkEntry (chunk_id x) i 1) l.
Definition the_index : packIndex := mkIndex (name data) 3 (entries data).
Definition the_disk : disk :=
  mkDisk {[name data := data]} {[name data := Some the_index]}
         {[("ns", "p1")%string := Some (mkManifest "p1" "ns" "w" "web" 7 [[chunk_id "a"%byte]])]} ∅ {["ns"; "gone"]}%string.
Definition the_sys : sys := match OpenRepository the_disk with Ok s => s | Err _ => mkSys the_disk ∅ end.
Definition opts : GCOptions := mkOpts DefaultRepackLiveRatio 0.

Lemma wf_entries ents l : pack_wf opens ents l -> ents = entries l.
Proof.
  induction 1 as [|ents buf id sealed Hwf IH Hne [x [-> ->]]]; [done|].
  unfold entries. rewrite imap_app. cbn. rewrite Nat.add_0_r. by f_equal.
Qed.

Lemma unique : names_unique name opens.
Proof.
  intros n e1 e2 d1 d2 [H1 W1] [H2 W2]. subst n. apply (f_equal String.list_byte_of_string) in H2.
  unfold name in H2. rewrite !String.list_byte_of_string_of_list_byte in H2. subst d2.
  by rewrite (wf_entries _ _ W1), (wf_entries _ _ W2).
Qed.

Lemma data_wf : pack_wf opens (entries data) data.
Proof.
  assert (forall l x, pack_wf opens (entries l) l -> pack_wf opens (entries (l ++ [x])) (l ++ [x])) as H.
  { intros l x Hl. unfold entries. rewrite imap_app. cbn. rewrite Nat.add_0_r.
    by apply (wf_snoc opens _ _ (chunk_id x) [x]); [|done|exists x]. }
  apply (H ["a"; "b"]%byte), (H ["a"]%byte), (H []). constructor.
Qed.

Lemma disk_fine : disk_ok name opens the_disk.
Proof.
  split.
  - cbn. intros n d [<- <-]%lookup_singleton_Some. exists (entries data). split; [done|apply data_wf].
  - cbn. intros n o [<- <-]%lookup_singleton_Some. exists the_index. split; [done|]. split; [done|].
    exists data. split; [|done]. split; [done|apply data_wf].
Qed.

Lemma sys_fine : repo_ok name opens the_sys /\ idxs (dsk the_sys) = idxs the_disk.
Proof.
  destruct (open_ok name opens the_disk disk_fine) as (s & E & Hs & Hi & _). unfold the_sys. rewrite E. exact (conj Hs Hi).
Qed.

Lemma ratio_fine : ratio_ok (RepackLiveRatio opts) the_sys.
Proof. intros n pi. rewrite (proj2 sys_fine). cbn. intros [_ [= <-]]%lookup_singleton_Some. by vm_compute. Qed.

(** A crash between the removal of a rewritten pack and the removal of its index leaves
    an index that refers to a missing pack.  The repository opens, but every later
    compaction stops there before it has done anything. *)
Lemma gc_stuck_after_crash :
  exists os s2, os `prefix_of` (CollectGarbageWith name opts (Some 1000) the_sys).1 /\
    OpenRepository (dsk (run_ops the_sys os)) = Ok s2 /\
    CollectGarbageWith name opts (Some 1000) s2 = ([], Err (NotOnDisk (name data))).
Proof.
  set (os := take 5 (CollectGarbageWith name opts (Some 1000) the_sys).1).
  exists os, (match OpenRepository (dsk (run_ops the_sys os)) with Ok s => s | Err _ => the_sys end).
  split; [apply prefix_take|]. split.
  - enough (match OpenRepository (dsk (run_ops the_sys os)) with Ok _ => true | Err _ => false end = true) as E; [|by vm_compute].
    by destruct (OpenRepository _).
  - by vm_compute.
Qed.
End Example1.

Lemma gc_crash_safe_witness :
  let s' := run_ops Example1.the_sys (take 4 (CollectGarbageWith Example1.name Example1.opts (Some 1000) Example1.the_sys).1) in
  exists s'' b, OpenRepository (dsk s') = Ok s'' /\ GetSealed s'' (Example1.chunk_id "a"%byte) = Ok b /\
                Example1.opens (Example1.chunk_id "a"%byte) b.
Proof.
  cbn zeta.
  destruct (gc_crash_safe Example1.name Example1.opens Example1.unique Example1.the_sys {[Example1.chunk_id "a"%byte]}
              Example1.opts (Some 1000) (take 4 (CollectGarbageWith Example1.name Example1.opts (Some 1000) Example1.the_sys).1))
    as (_ & _ & s'' & E & _ & H).
  - apply Example1.sys_fine.
  - by vm_compute.
  - apply Example1.ratio_fine.
  - apply prefix_take.
  - destruct (H (Example1.chunk_id "a"%byte)) as [_ (b & Hb & Ho)]; [set_solver|by vm_compute|]. exists s'', b.
    exact (conj E (conj Hb Ho)).
Defined.

Lemma collect_reclaims_witness :
  exists st s', eval (CollectGarbage Example1.name None) Example1.the_sys st s' /\ PacksScanned st = 1 /\ PacksDeleted st = 0.
Proof.
  destruct (collect_reclaims Example1.name None Example1.the_sys {[Example1.chunk_id "a"%byte]})
    as (st & s' & E & _ & _ & _ & _ & S1 & S2 & _).
  - by vm_compute.
  - rewrite (proj2 Example1.sys_fine). cbn. intros n o [_ <-]%lookup_singleton_Some. by eexists.
  - exists st, s'. split; [exact E|]. split; [rewrite S1; by vm_compute|rewrite S2; by vm_compute].
Defined.
