(* ===== verification/Remote.v ===== *)
(** * Off-site copies ([src/internal/backup/remote.go], [queue.go], [remote_gc.go],
      [remote_index.go], [remote_check.go])

    The object store of a backup target, the location maps, the upload queue, fetching a
    restore point back from a target, and expiry with the sweep of unneeded packs.

    A target is a map of objects whose every call may fail, a failed write or deletion
    having happened or not; which calls fail is a schedule in the state.  Sealing is the
    ideal one: what was sealed under another label or key does not open.  The bytes of
    sealed objects are a parameter. *)
From stdpp Require Import sorting.
From S2P Require Export GoText Repo.

(** ** Object keys *)
Definition objectKeyPack (packID : string) : string := ("backups/packs/" +:+ packID +:+ ".pack")%string.
Definition objectKeyManifest (namespace backupID : string) : string :=
  ("backups/" +:+ namespace +:+ "/manifests/" +:+ backupID +:+ ".snap")%string.
Definition objectKeyLocmap (namespace backupID : string) : string :=
  ("backups/" +:+ namespace +:+ "/manifests/" +:+ backupID +:+ ".locmap")%string.

Definition packIDFromKey (key : string) : option string :=
  if negb (HasPrefix key "backups/packs/") || negb (HasSuffix key ".pack") then None
  else
    let id := TrimSuffix (TrimPrefix key "backups/packs/") ".pack" in
    if decide (id = ""%string) then None else if Contains id "/" then None else Some id.

Definition locmapNamespace (key : string) : option string :=
  if negb (HasSuffix key ".locmap") then None
  else match Split key "/"%char with
       | [p0; p1; p2; _] =>
           if decide (p0 <> "backups"%string \/ p2 <> "manifests"%string \/ p1 = "packs"%string) then None else Some p1
       | _ => None
       end.

(** ** Data *)
Record locEntry := mkLocEntry { leID : KeyID; lePack : string; leOff : nat; leLen : nat }.

(** What an object holds: a pack, or data sealed with this repository's keys under a
    label, or something these keys do not open. *)
Inductive blob :=
  | BPack (data : list byte)
  | BManifest (label : string) (m : Manifest)
  | BLocmap (label : string) (entries : list locEntry)
  | BOther (data : list byte).

Inductive fault := Good | Unsized | Lost (done : bool).

Record uploadJob := mkJob { jNamespace : string; jBackupID : string; jPackID : string }.
Record qfile := mkFile { ModTime : Z; job : option uploadJob }.     (* [None]: it cannot be parsed *)

Record host := mkHost {
  hsys : sys;
  uploaded : gmap string (gset string);   (* target key -> the packs confirmed on it *)
  sweeps : gmap string (gset string);     (* target key -> sweep candidates *)
  qdir : gmap string qfile;               (* the job directory of the queue *)
  inflight : gset string; attempts : gmap string nat; notBefore : gmap string Z;
  objs : gmap string blob; faults : list fault }.

Definition set_sys (s : sys) (h : host) : host :=
  mkHost s (uploaded h) (sweeps h) (qdir h) (inflight h) (attempts h) (notBefore h) (objs h) (faults h).
Definition set_uploaded u (h : host) : host :=
  mkHost (hsys h) u (sweeps h) (qdir h) (inflight h) (attempts h) (notBefore h) (objs h) (faults h).
Definition set_sweeps w (h : host) : host :=
  mkHost (hsys h) (uploaded h) w (qdir h) (inflight h) (attempts h) (notBefore h) (objs h) (faults h).
Definition set_queue q i a n (h : host) : host :=
  mkHost (hsys h) (uploaded h) (sweeps h) q i a n (objs h) (faults h).
Definition set_target o f (h : host) : host :=
  mkHost (hsys h) (uploaded h) (sweeps h) (qdir h) (inflight h) (attempts h) (notBefore h) o f.

Inductive remote_error :=
  | TargetError | ObjectNotFound (key : string) | NotAuthentic (key : string)
  | PackMissing (id : string) | ChunkMissing (id : KeyID) | ManifestMissing | SizeMismatch (key : string)
  | SweepIncomplete | LocalError (e : repo_error).

Definition IO (A : Type) : Type := host -> result remote_error A * host.
Definition hret {A} (a : A) : IO A := fun h => (Ok a, h).
Definition hthrow {A} (e : remote_error) : IO A := fun h => (Err e, h).
Definition hbind {A B} (m : IO A) (f : A -> IO B) : IO B := fun h =>
  match m h with (Ok a, h') => f a h' | (Err e, h') => (Err e, h') end.
Definition hcurrent : IO host := fun h => (Ok h, h).
Definition hmodify (f : host -> host) : IO unit := fun h => (Ok tt, f h).

Declare Scope remote_scope.
Delimit Scope remote_scope with remote.
Notation "x <- m ;; k" := (hbind m (fun x => k)) (at level 100, m at next level, right associativity) : remote_scope.
Notation "m ;;; k" := (hbind m (fun _ => k)) (at level 100, right associativity) : remote_scope.
#[local] Open Scope remote_scope.

Fixpoint hforM {A S} (f : S -> A -> IO S) (l : list A) (acc : S) : IO S :=
  match l with [] => hret acc | a :: l' => acc <- f acc a ;; hforM f l' acc end.

Section remote.
Variable sealed : blob -> list byte.       (* the bytes of a sealed object *)

Definition raw (b : blob) : list byte := match b with BPack d | BOther d => d | _ => sealed b end.
Definition blob_size (b : blob) : Z := Z.of_nat (length (raw b)).

(** ** The target *)
Definition next_fault : IO fault := fun h =>
  match faults h with [] => (Ok Good, h) | f :: fs => (Ok f, set_target (objs h) fs h) end.

Definition change (f : gmap string blob -> gmap string blob) : IO unit := hmodify (fun h => set_target (f (objs h)) (faults h) h).

Definition change_object (f : gmap string blob -> gmap string blob) : IO unit :=
  x <- next_fault ;;
  match x with
  | Good | Unsized => change f
  | Lost true => change f ;;; hthrow TargetError
  | Lost false => hthrow TargetError
  end.

Definition Put (key : string) (b : blob) : IO unit := change_object (insert key b).
Definition Delete (key : string) : IO unit := change_object (delete key).

(** [Head]: the size is zero when the target does not tell it. *)
Definition Head (key : string) : IO (bool * Z) :=
  x <- next_fault ;;
  match x with
  | Lost _ => hthrow TargetError
  | _ => h <- hcurrent ;;
         match objs h !! key with
         | None => hret (false, 0)
         | Some b => hret (true, match x with Unsized => 0 | _ => blob_size b end)
         end
  end.

Definition Get (key : string) : IO blob :=
  x <- next_fault ;;
  match x with
  | Lost _ => hthrow TargetError
  | _ => h <- hcurrent ;; match objs h !! key with None => hthrow (ObjectNotFound key) | Some b => hret b end
  end.

Definition List_ (prefix : string) : IO (list (string * Z)) :=
  x <- next_fault ;;
  match x with
  | Lost _ => hthrow TargetError
  | _ => h <- hcurrent ;;
         hret (map (fun p : string * blob => (p.1, blob_size p.2))
                 (filter (fun p : string * blob => HasPrefix p.1 prefix = true) (map_to_list (objs h))))
  end.

(** ** The uploaded-pack index *)
Definition LoadUploaded (h : host) (tk : string) : gset string := default ∅ (uploaded h !! tk).

Definition MarkUploaded (tk : string) (id : string) : IO unit :=
  hmodify (fun h => if decide (tk = ""%string) then h else set_uploaded (<[tk := {[id]} ∪ LoadUploaded h tk]> (uploaded h)) h).

Definition ForgetUploaded (tk : string) (id : string) : IO unit :=
  hmodify (fun h => if decide (tk = ""%string) then h else set_uploaded (<[tk := LoadUploaded h tk ∖ {[id]}]> (uploaded h)) h).

(** ** Restore points and their packs *)
Definition LoadState (h : host) (ns id : string) : option PointState := states (dsk (hsys h)) !! (ns, id).

(** [f] says whether, and what, to write back. *)
Definition updateState (j : uploadJob) (f : PointState -> option PointState) : IO unit :=
  hmodify (fun h =>
    match LoadState h (jNamespace j) (jBackupID j) with
    | None => h
    | Some st => match f st with None => h | Some st' => set_sys (apply_op (hsys h) (WriteState st')) h end
    end).

Definition set_remote (r : RemoteState) (st : PointState) : PointState :=
  mkPoint (BackupID st) (Namespace st) (pWorkloadID st) (pWorkloadName st) (CreatedAtNS st) (LocalComplete st) r (Packs st)
    (UploadStartedNS st) (UploadEndedNS st) (UploadedBytes st) (UploadTotalBytes st) (RemoteError st) (Recovered st).
Definition set_error (e : string) (st : PointState) : PointState :=
  mkPoint (BackupID st) (Namespace st) (pWorkloadID st) (pWorkloadName st) (CreatedAtNS st) (LocalComplete st) (Remote st) (Packs st)
    (UploadStartedNS st) (UploadEndedNS st) (UploadedBytes st) (UploadTotalBytes st) e (Recovered st).
Definition set_upload (started ended bytes total : Z) (st : PointState) : PointState :=
  mkPoint (BackupID st) (Namespace st) (pWorkloadID st) (pWorkloadName st) (CreatedAtNS st) (LocalComplete st) (Remote st) (Packs st)
    started ended bytes total (RemoteError st) (Recovered st).

Definition LoadManifest (ns id : string) : IO Manifest :=
  h <- hcurrent ;;
  match snaps (dsk (hsys h)) !! (ns, id) with Some (Some m) => hret m | _ => hthrow ManifestMissing end.

(** [packsFor]: the packs of a restore point's chunks; [None] when one is not stored. *)
Definition pack_step (ix : gmap KeyID location) (acc : option (gset string)) (id : KeyID) : option (gset string) :=
  match acc, ix !! id with Some s, Some loc => Some ({[lPack loc]} ∪ s) | _, _ => None end.

Definition packsFor (ns id : string) : IO (list string) :=
  m <- LoadManifest ns id ;;
  h <- hcurrent ;;
  match fold_left (pack_step (index (hsys h))) (chunks m) (Some ∅) with
  | None => hthrow (LocalError (ChunkNotFound ""))
  | Some s => hret (sortNames (elements s))
  end.

Definition loc_step (ix : gmap KeyID location) (acc : option (gset KeyID * list locEntry)) (id : KeyID)
  : option (gset KeyID * list locEntry) :=
  match acc with
  | None => None
  | Some (seen, es) =>
      if decide (id ∈ seen) then acc
      else match ix !! id with
           | None => None
           | Some loc => Some ({[id]} ∪ seen, es ++ [mkLocEntry id (lPack loc) (lOff loc) (lSize loc)])
           end
  end.

Definition buildLocmap (ns id : string) : IO blob :=
  m <- LoadManifest ns id ;;
  h <- hcurrent ;;
  match fold_left (loc_step (index (hsys h))) (chunks m) (Some (∅, [])) with
  | None => hthrow (LocalError (ChunkNotFound ""))
  | Some (_, es) => hret (BLocmap ns es)
  end.

(** ** Completing a restore point *)
Definition putPack (tk packID : string) (data : list byte) : IO unit :=
  Put (objectKeyPack packID) (BPack data) ;;; MarkUploaded tk packID.

(** One pack of the first loop of [complete]; [known] is the index read before it. *)
Definition ensure_pack (tk : string) (known : gset string) (_ : unit) (packID : string) : IO unit :=
  if decide (packID ∈ known /\ tk <> ""%string) then hret tt
  else
    h <- hcurrent ;;
    match packs (dsk (hsys h)) !! packID with
    | None => hthrow (PackMissing packID)
    | Some data =>
        r <- Head (objectKeyPack packID) ;;
        if decide (r.1 = true /\ (r.2 <= 0 \/ r.2 = Z.of_nat (length data))) then MarkUploaded tk packID
        else putPack tk packID data
    end.

Definition complete_packs (tk : string) (j : uploadJob) : IO unit :=
  needed <- packsFor (jNamespace j) (jBackupID j) ;;
  h <- hcurrent ;;
  hforM (ensure_pack tk (LoadUploaded h tk)) needed tt.

Definition put_verified (_ : unit) (o : string * blob) : IO unit :=
  Put o.1 o.2 ;;;
  r <- Head o.1 ;;
  if decide (r.1 = false \/ (0 < r.2 /\ r.2 <> blob_size o.2)) then hthrow (SizeMismatch o.1) else hret tt.

Definition protect (now : Z) (st : PointState) : PointState :=
  set_upload (UploadStartedNS st) now
    (if decide (0 < UploadTotalBytes st) then UploadTotalBytes st else UploadedBytes st) (UploadTotalBytes st)
    (set_error "" (set_remote RemoteProtected st)).

Definition complete_publish (now : Z) (j : uploadJob) : IO unit :=
  m <- LoadManifest (jNamespace j) (jBackupID j) ;;
  updateState j (fun st => Some (set_remote RemoteVerifying st)) ;;;
  loc <- buildLocmap (jNamespace j) (jBackupID j) ;;
  hforM put_verified [(objectKeyManifest (jNamespace j) (jBackupID j), BManifest (jNamespace j) m);
                      (objectKeyLocmap (jNamespace j) (jBackupID j), loc)] tt ;;;
  updateState j (fun st => Some (protect now st)).

Definition complete (tk : string) (now : Z) (j : uploadJob) : IO unit :=
  h <- hcurrent ;;
  match LoadState h (jNamespace j) (jBackupID j) with
  | None => hret tt
  | Some _ => complete_packs tk j ;;; complete_publish now j
  end.

(** ** Fetching a restore point back *)
Definition open_manifest (ns : string) (b : blob) : option Manifest :=
  match b with BManifest l m => if decide (l = ns) then Some m else None | _ => None end.
Definition open_locmap (ns : string) (b : blob) : option (list locEntry) :=
  match b with BLocmap l es => if decide (l = ns) then Some es else None | _ => None end.

Definition put_snap (d : disk) (ns id : string) (m : option Manifest) : disk :=
  mkDisk (packs d) (idxs d) (<[(ns, id) := m]> (snaps d)) (states d) (caches d).
Definition put_pack (d : disk) (id : string) (data : list byte) (ents : list packEntry) : disk :=
  mkDisk (<[id := data]> (packs d)) (<[id := Some (mkIndex id (Z.of_nat (length data)) ents)]> (idxs d)) (snaps d) (states d) (caches d).

Definition by_pack_step (acc : gmap string (list packEntry)) (e : locEntry) : gmap string (list packEntry) :=
  <[lePack e := default [] (acc !! lePack e) ++ [mkEntry (leID e) (leOff e) (leLen e)]]> acc.
Definition by_pack (es : list locEntry) : gmap string (list packEntry) := fold_left by_pack_step es ∅.

Definition fetch_pack (d : disk) (p : string * list packEntry) : IO disk :=
  b <- Get (objectKeyPack p.1) ;; hret (put_pack d p.1 (raw b) p.2).

(** [Verify]: every chunk is in the index. *)
Definition Verify (s : sys) (m : Manifest) : bool := forallb (Has s) (chunks m).

Definition lift {A} (r : result repo_error A) : IO A := match r with Ok a => hret a | Err e => hthrow (LocalError e) end.

(** [FetchRemote] into the directory whose content is [dest]. *)
Definition FetchRemote (ns id : string) (dest : disk) : IO (sys * Manifest) :=
  repo <- lift (OpenRepository dest) ;;
  man <- Get (objectKeyManifest ns id) ;;
  let d := put_snap (dsk repo) ns id (open_manifest ns man) in
  match open_manifest ns man with
  | None => hthrow (NotAuthentic (objectKeyManifest ns id))
  | Some m =>
      loc <- Get (objectKeyLocmap ns id) ;;
      match open_locmap ns loc with
      | None => hthrow (NotAuthentic (objectKeyLocmap ns id))
      | Some es =>
          d <- hforM fetch_pack (map_to_list (by_pack es)) d ;;
          s <- lift (rebuildIndex d) ;;
          if Verify s m then hret (s, m) else hthrow (ChunkMissing "")
      end
  end.

(** ** Expiry and the sweep *)
Definition loadSweepCandidates (h : host) (tk : string) : gset string := default ∅ (sweeps h !! tk).
Definition saveSweepCandidates (tk : string) (c : gset string) : IO unit :=
  hmodify (fun h => set_sweeps (if decide (c = ∅) then delete tk (sweeps h) else <[tk := c]> (sweeps h)) h).

Definition locmap_packs (es : list locEntry) : gset string := list_to_set (map lePack es).

(** A call whose error the caller drops. *)
Definition attempt {A} (m : IO A) : IO (option A) := fun h =>
  match m h with (Ok a, h') => (Ok (Some a), h') | (Err _, h') => (Ok None, h') end.

Definition ExpireRemote (tk ns id : string) : IO unit :=
  b <- attempt (Get (objectKeyLocmap ns id)) ;;
  match b ≫= open_locmap ns with
  | Some (e :: es) =>
      h <- hcurrent ;; saveSweepCandidates tk (locmap_packs (e :: es) ∪ loadSweepCandidates h tk)
  | _ => hret tt
  end ;;;
  Delete (objectKeyManifest ns id) ;;;
  Delete (objectKeyLocmap ns id).

(** [remoteReferences]: what the readable location maps refer to, and how many do not open. *)
Definition reference_step (acc : gset string * Z) (o : string * Z) : IO (gset string * Z) :=
  match locmapNamespace o.1 with
  | None => hret acc
  | Some ns =>
      b <- Get o.1 ;;
      match open_locmap ns b with
      | None => hret (acc.1, acc.2 + 1)
      | Some es => hret (locmap_packs es ∪ acc.1, acc.2)
      end
  end.

Definition remoteReferences (os : list (string * Z)) : IO (gset string * Z) := hforM reference_step os (∅, 0).

(** [referencedPacks]: the packs of every local restore point's chunks. *)
Definition referencedPacks (s : sys) : result repo_error (gset string) :=
  match referencedChunks (dsk s) with
  | Err e => Err e
  | Ok ref => Ok (list_to_set (omap (fun id => lPack <$> index s !! id) (elements ref)))
  end.

Record RemoteSweepResult := mkSweep {
  Candidates : Z; SweptPacks : Z; SweptBytes : Z; StillInUse : Z; ForeignPoints : Z }.

Definition pack_sizes (os : list (string * Z)) : gmap string Z :=
  fold_left (fun acc o => match packIDFromKey o.1 with Some id => <[id := o.2]> acc | None => acc end) os ∅.

(** One candidate: the result so far and the candidates that stay. *)
Definition sweep_step (tk : string) (referenced local : gset string) (sizes : gmap string Z)
  (acc : RemoteSweepResult * gset string) (id : string) : IO (RemoteSweepResult * gset string) :=
  let '(res, remaining) := acc in
  if decide (id ∈ referenced \/ id ∈ local) then
    hret (mkSweep (Candidates res) (SweptPacks res) (SweptBytes res) (StillInUse res + 1) (ForeignPoints res), remaining)
  else match sizes !! id with
       | None => hret (res, remaining)
       | Some size =>
           ok <- attempt (Delete (objectKeyPack id)) ;;
           match ok with
           | None => hret (res, {[id]} ∪ remaining)
           | Some _ =>
               ForgetUploaded tk id ;;;
               hret (mkSweep (Candidates res) (SweptPacks res + 1) (SweptBytes res + size) (StillInUse res) (ForeignPoints res), remaining)
           end
       end.

Definition SweepRemote (tk : string) : IO RemoteSweepResult :=
  h <- hcurrent ;;
  let cands := loadSweepCandidates h tk in
  let res := mkSweep (Z.of_nat (size cands)) 0 0 0 0 in
  if decide (cands = ∅) then hret res
  else
    os <- List_ "backups/" ;;
    rf <- remoteReferences os ;;
    h <- hcurrent ;;
    local <- lift (referencedPacks (hsys h)) ;;
    r <- hforM (sweep_step tk rf.1 local (pack_sizes os)) (elements cands) (mkSweep (Candidates res) 0 0 0 rf.2, ∅) ;;
    saveSweepCandidates tk r.2 ;;;
    if decide (r.2 = ∅) then hret r.1 else hthrow SweepIncomplete.
End remote.
