(* ===== verification/RemoteProps.v ===== *)
(** * Off-site copies: what they promise

    A completed restore point can be fetched back chunk for chunk, and expiring and
    sweeping never takes a pack that another restore point needs. *)
From stdpp Require Import sorting.
From S2P Require Export Remote RepoProps.
#[local] Open Scope remote_scope.

(** ** Object keys *)
Definition plain (s : string) : Prop := "/"%char ∉ bytes s.

Lemma objectKeyPack_bytes id : bytes (objectKeyPack id) = bytes "backups/packs/" ++ bytes id ++ bytes ".pack".
Proof. unfold objectKeyPack. by rewrite !bytes_app. Qed.

#[export] Instance objectKeyPack_inj : Inj (=) (=) objectKeyPack.
Proof.
  intros x y E. apply (f_equal bytes) in E. rewrite !objectKeyPack_bytes in E.
  by apply app_inv_head, app_inv_tail, bytes_inj in E.
Qed.

Lemma suffix_eq {A} (a b p q : list A) : a ++ p = b ++ q -> length p = length q -> p = q.
Proof. intros E Hl. by apply app_inj_2 in E as [_ ?]. Qed.

Lemma pack_key_other id ns bid : objectKeyPack id <> objectKeyManifest ns bid /\ objectKeyPack id <> objectKeyLocmap ns bid.
Proof.
  unfold objectKeyManifest, objectKeyLocmap.
  split; intros E; apply (f_equal bytes) in E; rewrite objectKeyPack_bytes, !bytes_app, !(assoc_L (++)) in E.
  - apply suffix_eq in E; [done|done].
  - change (bytes ".locmap") with (["."; "l"]%char ++ ["o"; "c"; "m"; "a"; "p"]%char) in E. rewrite !(assoc_L (++)) in E.
    apply suffix_eq in E; [done|done].
Qed.

Lemma key_kinds ns bid ns2 bid2 : objectKeyManifest ns bid <> objectKeyLocmap ns2 bid2.
Proof.
  unfold objectKeyManifest, objectKeyLocmap. intros E. apply (f_equal bytes) in E. rewrite !bytes_app, !(assoc_L (++)) in E.
  change (bytes ".locmap") with (["."; "l"]%char ++ ["o"; "c"; "m"; "a"; "p"]%char) in E. rewrite !(assoc_L (++)) in E.
  apply suffix_eq in E; [done|done].
Qed.

Lemma locmap_key_namespace ns bid : plain ns -> plain bid -> ns <> "packs"%string -> locmapNamespace (objectKeyLocmap ns bid) = Some ns.
Proof.
  intros Hns Hid Hp. unfold locmapNamespace.
  assert (HasSuffix (objectKeyLocmap ns bid) ".locmap" = true) as ->.
  { apply HasSuffix_spec. unfold objectKeyLocmap. rewrite !bytes_app, !(assoc_L (++)). by eexists. }
  cbn [negb]. unfold Split, objectKeyLocmap. rewrite !bytes_app.
  change (bytes "backups/" ++ bytes ns ++ bytes "/manifests/" ++ bytes bid ++ bytes ".locmap") with
    (bytes "backups" ++ "/"%char :: (bytes ns ++ "/"%char :: (bytes "manifests" ++ "/"%char :: (bytes bid ++ bytes ".locmap")))).
  rewrite splitb_app by (apply (bool_decide_unpack _); by vm_compute). rewrite splitb_app by done.
  rewrite splitb_app by (apply (bool_decide_unpack _); by vm_compute).
  rewrite splitb_last.
  - cbn [map rev app]. rewrite !ofBytes_bytes. rewrite decide_False; [done|]. intros [?|[?|?]]; done.
  - intros [?|?]%elem_of_app; [by apply Hid|]. cbn in *. set_solver.
Qed.

Lemma manifest_key_other ns bid : objectKeyManifest ns bid <> objectKeyLocmap ns bid.
Proof. apply key_kinds. Qed.

(** ** Hoare triples: after a result, and after an error *)
Definition hoare {A} (P : host -> Prop) (m : IO A) (Q : A -> host -> Prop) (E : host -> Prop) : Prop :=
  forall h, P h -> match m h with (Ok a, h') => Q a h' | (Err _, h') => E h' end.

Lemma hoare_ret {A} (a : A) (P : host -> Prop) Q E : (forall h, P h -> Q a h) -> hoare P (hret a) Q E.
Proof. intros H h HP. by apply H. Qed.

Lemma hoare_throw {A} e (P E : host -> Prop) (Q : A -> host -> Prop) : (forall h, P h -> E h) -> hoare P (hthrow e) Q E.
Proof. intros H h HP. by apply H. Qed.

Lemma hoare_bind {A B} (m : IO A) (f : A -> IO B) P Q R E :
  hoare P m Q E -> (forall a, hoare (Q a) (f a) R E) -> hoare P (hbind m f) R E.
Proof.
  intros Hm Hf h HP. specialize (Hm h HP). unfold hbind. destruct (m h) as [[a|e] h']; [|done]. by apply Hf.
Qed.

Lemma hoare_modify f (P : host -> Prop) Q E : (forall h, P h -> Q tt (f h)) -> hoare P (hmodify f) Q E.
Proof. intros H h HP. by apply H. Qed.

Lemma hoare_current {A} (f : host -> IO A) (P : host -> Prop) R E :
  (forall h0, hoare (fun h => h = h0 /\ P h) (f h0) R E) -> hoare P (hbind hcurrent f) R E.
Proof. intros Hf h HP. by apply (Hf h h). Qed.

Lemma hoare_conseq {A} (m : IO A) (P P' : host -> Prop) (Q Q' : A -> host -> Prop) (E E' : host -> Prop) :
  hoare P m Q E -> (forall h, P' h -> P h) -> (forall a h, Q a h -> Q' a h) -> (forall h, E h -> E' h) -> hoare P' m Q' E'.
Proof. intros Hm HP HQ HE h H. specialize (Hm h (HP h H)). destruct (m h) as [[a|e] h']; auto. Qed.

Lemma hoare_pure {A} (phi : Prop) (m : IO A) P Q E :
  (forall h, P h -> phi) -> (phi -> hoare P m Q E) -> hoare P m Q E.
Proof. intros H1 H2 h HP. exact (H2 (H1 h HP) h HP). Qed.

Lemma hoare_forM {A S} (f : S -> A -> IO S) (L : list A -> S -> host -> Prop) E l acc :
  (forall a l' acc, hoare (L (a :: l') acc) (f acc a) (L l') E) ->
  hoare (L l acc) (hforM f l acc) (fun acc h => L [] acc h) E.
Proof.
  intros Hf. revert acc. induction l as [|a l IH]; intros acc; cbn; [by apply hoare_ret|].
  eapply hoare_bind; [apply Hf|]. intros acc'. apply IH.
Qed.

Lemma hoare_attempt {A} (m : IO A) (P : host -> Prop) (Q : option A -> host -> Prop) E :
  hoare P m (fun a => Q (Some a)) (Q None) -> hoare P (attempt m) Q E.
Proof. intros H h HP. specialize (H h HP). unfold attempt. destruct (m h) as [[a|e] h']; done. Qed.

(** A change of the target: it happened, or it failed and may have happened. *)
Lemma hoare_change f (P : host -> Prop) Q E :
  (forall h fs, P h -> Q tt (set_target (f (objs h)) fs h) /\ E (set_target (f (objs h)) fs h) /\ E (set_target (objs h) fs h)) ->
  hoare P (change_object f) Q E.
Proof.
  intros H h HP. unfold change_object, hbind, next_fault, change, hmodify.
  destruct (faults h) as [|[| |[]] fs] eqn:Ef; cbn.
  - rewrite Ef. by destruct (H h [] HP).
  - destruct (H h fs HP) as (H1 & _ & _). exact H1.
  - destruct (H h fs HP) as (H1 & _ & _). exact H1.
  - destruct (H h fs HP) as (_ & H2 & _). exact H2.
  - destruct (H h fs HP) as (_ & _ & H3). exact H3.
Qed.

Lemma set_target_same h : faults h = [] -> set_target (objs h) [] h = h.
Proof. destruct h. cbn. by intros ->. Qed.

Lemma hoare_head sealed key (P : host -> Prop) Q E :
  (forall h fs, P h -> let h' := set_target (objs h) fs h in
     E h' /\ (forall z, Q (match objs h !! key with Some _ => true | None => false end, z) h')) ->
  hoare P (Head sealed key) Q E.
Proof.
  intros H h HP. unfold Head, hbind, next_fault, hcurrent, hret, hthrow.
  destruct (faults h) as [|[| |d] fs] eqn:Ef; cbn.
  - destruct (H h [] HP) as [_ HQ]. rewrite set_target_same in HQ by done.
    destruct (objs h !! key); apply HQ.
  - destruct (H h fs HP) as [_ HQ]. destruct (objs h !! key); apply HQ.
  - destruct (H h fs HP) as [_ HQ]. destruct (objs h !! key); apply HQ.
  - by destruct (H h fs HP) as [HE _].
Qed.

Lemma hoare_get key (P : host -> Prop) Q E :
  (forall h fs, P h -> let h' := set_target (objs h) fs h in E h' /\ (forall b, objs h !! key = Some b -> Q b h')) ->
  hoare P (Get key) Q E.
Proof.
  intros H h HP. unfold Get, hbind, next_fault, hcurrent, hret, hthrow.
  destruct (faults h) as [|[| |d] fs] eqn:Ef; cbn.
  - destruct (H h [] HP) as [HE HQ]. rewrite set_target_same in HE, HQ by done.
    destruct (objs h !! key) eqn:Ek; auto.
  - destruct (H h fs HP) as [HE HQ]. destruct (objs h !! key) eqn:Ek; auto.
  - destruct (H h fs HP) as [HE HQ]. destruct (objs h !! key) eqn:Ek; auto.
  - by destruct (H h fs HP) as [HE _].
Qed.

(** ** What the calls of a target leave alone *)
Definition keeps {A} (m : IO A) : Prop := forall h, hsys (m h).2 = hsys h.

Lemma keeps_bind {A B} (m : IO A) (f : A -> IO B) : keeps m -> (forall a, keeps (f a)) -> keeps (hbind m f).
Proof. intros Hm Hf h. unfold hbind. specialize (Hm h). destruct (m h) as [[a|e] h']; cbn in *; [by rewrite Hf|done]. Qed.

Lemma keeps_forM {A S} (f : S -> A -> IO S) l acc : (forall acc a, keeps (f acc a)) -> keeps (hforM f l acc).
Proof. intros Hf. revert acc. induction l as [|a l IH]; intros acc; [by intros h|]. by apply keeps_bind. Qed.

Lemma keeps_current : keeps hcurrent. Proof. by intros h. Qed.
Lemma keeps_ret {A} (a : A) : keeps (hret a). Proof. by intros h. Qed.
Lemma keeps_throw {A} e : keeps (A := A) (hthrow e). Proof. by intros h. Qed.
Lemma keeps_fault : keeps next_fault. Proof. intros h. unfold next_fault. by destruct (faults h). Qed.
Lemma keeps_change f : keeps (change f). Proof. by intros h. Qed.

Create HintDb keeps.
#[local] Hint Resolve keeps_bind keeps_forM keeps_current keeps_ret keeps_throw keeps_fault keeps_change : keeps.

Lemma keeps_change_object f : keeps (change_object f).
Proof. unfold change_object. apply keeps_bind; [auto with keeps|]. intros [| |[]]; auto with keeps. Qed.

Lemma keeps_Head sealed k : keeps (Head sealed k).
Proof. unfold Head. apply keeps_bind; [auto with keeps|]. intros [| |]; auto with keeps; (apply keeps_bind; [auto with keeps|]; intros h; destruct (objs h !! k); auto with keeps). Qed.

Lemma keeps_MarkUploaded tk n : keeps (MarkUploaded tk n).
Proof. intros h. unfold MarkUploaded, hmodify. cbn. by case_decide. Qed.
#[local] Hint Resolve keeps_change_object keeps_Head keeps_MarkUploaded : keeps.

Lemma keeps_packsFor ns id : keeps (packsFor ns id).
Proof.
  unfold packsFor, LoadManifest. apply keeps_bind.
  - apply keeps_bind; [auto with keeps|]. intros h. destruct (snaps _ !! _) as [[m|]|]; auto with keeps.
  - intros m. apply keeps_bind; [auto with keeps|]. intros h. destruct (fold_left _ _ _); auto with keeps.
Qed.

Lemma keeps_ensure_pack sealed tk known u p : keeps (ensure_pack sealed tk known u p).
Proof.
  unfold ensure_pack. case_decide; [auto with keeps|]. apply keeps_bind; [auto with keeps|]. intros h.
  destruct (packs _ !! _); [|auto with keeps]. apply keeps_bind; [auto with keeps|]. intros r. case_decide; [auto with keeps|].
  unfold putPack, Put. auto with keeps.
Qed.

Lemma keeps_complete_packs sealed tk j : keeps (complete_packs sealed tk j).
Proof.
  unfold complete_packs. apply keeps_bind; [apply keeps_packsFor|]. intros ps. apply keeps_bind; [auto with keeps|]. intros h.
  apply keeps_forM. intros. apply keeps_ensure_pack.
Qed.

(** ** The invariant of a target *)
Section target.
Variable sealed : blob -> list byte.
Variable packName : list byte -> string.
Variable sealed_ok : KeyID -> list byte -> Prop.
Context (Hname : names_unique packName sealed_ok).
Variable tk : string.

(** What is stored under a pack's key is that pack. *)
Definition packs_true (o : gmap string blob) : Prop :=
  forall n b, o !! objectKeyPack n = Some b -> exists ents data, b = BPack data /\ content packName sealed_ok n ents data.

(** The packs noted as uploaded are there. *)
Definition target_ok (h : host) : Prop :=
  packs_true (objs h) /\ forall n, n ∈ LoadUploaded h tk -> is_Some (objs h !! objectKeyPack n).

(** Every chunk of the restore point can be had from the target's objects, by this
    location map; [Q] is what is known of the bytes. *)
Definition restorable_by (es : list locEntry) (Q : KeyID -> list byte -> Prop) (o : gmap string blob) (ns id : string) (m : Manifest) : Prop :=
  o !! objectKeyManifest ns id = Some (BManifest ns m) /\ o !! objectKeyLocmap ns id = Some (BLocmap ns es) /\
  NoDup (map leID es) /\ (forall c, c ∈ chunks m -> c ∈ map leID es) /\
  forall e, e ∈ es -> exists data b, o !! objectKeyPack (lePack e) = Some (BPack data) /\
                                readAt data (leOff e) (leLen e) = Some b /\ Q (leID e) b.
Definition restorable Q o ns id m : Prop := exists es, restorable_by es Q o ns id m.

(** ** Location maps and needed packs *)
Lemma loc_fold ix l seen es seen' es' :
  fold_left (loc_step ix) l (Some (seen, es)) = Some (seen', es') ->
  (forall c, c ∈ seen <-> c ∈ map leID es) -> NoDup (map leID es) ->
  (forall e, e ∈ es -> ix !! leID e = Some (mkLoc (lePack e) (leOff e) (leLen e))) ->
  NoDup (map leID es') /\ (forall c, c ∈ l \/ c ∈ seen <-> c ∈ map leID es') /\
  (forall e, e ∈ es' -> ix !! leID e = Some (mkLoc (lePack e) (leOff e) (leLen e))).
Proof.
  revert seen es. induction l as [|c l IH]; intros seen es Hf Hs Hnd Hix.
  - injection Hf as <- <-. split_and!; try done. intros k. rewrite <- Hs. split; [|by right].
    intros [Hk|Hk]; [by apply not_elem_of_nil in Hk|done].
  - cbn [fold_left loc_step] in Hf. case_decide as Hc.
    + destruct (IH _ _ Hf Hs Hnd Hix) as (H1 & H2 & H3). split_and!; try done.
      intros k. rewrite <- H2, elem_of_cons. set_solver.
    + destruct (ix !! c) as [loc|] eqn:El.
      2:{ exfalso. revert Hf. clear. induction l as [|x l IH]; [done|exact IH]. }
      destruct (IH _ _ Hf) as (H1 & H2 & H3).
      * intros k. rewrite map_app, elem_of_app, <- Hs. cbn. rewrite list_elem_of_singleton. set_solver.
      * rewrite map_app. apply NoDup_app. split_and!; [done| |apply NoDup_singleton].
        intros k Hk ->%list_elem_of_singleton. by apply Hc, Hs.
      * intros e [He| ->%list_elem_of_singleton]%elem_of_app; [by apply Hix|]. cbn. by destruct loc.
      * split_and!; try done. intros k. rewrite <- H2, elem_of_cons, elem_of_union, elem_of_singleton. tauto.
Qed.

Lemma pack_fold ix l s s' :
  fold_left (pack_step ix) l (Some s) = Some s' ->
  s ⊆ s' /\ forall c loc, c ∈ l -> ix !! c = Some loc -> lPack loc ∈ s'.
Proof.
  revert s. induction l as [|c l IH]; intros s Hf.
  - injection Hf as <-. split; [done|]. by intros c loc ?%not_elem_of_nil.
  - cbn [fold_left pack_step] in Hf. destruct (ix !! c) as [loc|] eqn:El.
    2:{ exfalso. revert Hf. clear. induction l as [|x l IH]; [done|exact IH]. }
    destruct (IH _ Hf) as [H1 H2]. split; [set_solver|].
    intros k loc' [->|Hk]%elem_of_cons Hl; [|by eapply H2]. rewrite El in Hl. injection Hl as <-. set_solver.
Qed.

(** ** Completing *)
Section complete.
Context (s0 : sys) (Hs0 : repo_ok packName sealed_ok s0) (o0 : gmap string blob).

Definition same_local (h : host) : Prop :=
  index (hsys h) = index s0 /\ packs (dsk (hsys h)) = packs (dsk s0) /\ idxs (dsk (hsys h)) = idxs (dsk s0) /\
  snaps (dsk (hsys h)) = snaps (dsk s0).

(** Packs stay where they are. *)
Definition packs_kept (h : host) : Prop := forall n b, o0 !! objectKeyPack n = Some b -> objs h !! objectKeyPack n = Some b.

Definition inv (h : host) : Prop := same_local h /\ target_ok h /\ packs_kept h.

Lemma put_pack_inv n data h fs :
  inv h -> packs (dsk s0) !! n = Some data -> inv (set_target (<[objectKeyPack n := BPack data]> (objs h)) fs h).
Proof.
  intros (Hl & [Hp Hu] & Hk) Hd. destruct (proj1 (proj1 Hs0) _ _ Hd) as [ents Hc].
  split_and!; [done|split|]; cbn.
  - intros k b. destruct (decide (k = n)) as [->|Hne].
    + rewrite lookup_insert_eq. intros [= <-]. by exists ents, data.
    + rewrite lookup_insert_ne by (by intros ?%(inj objectKeyPack)). apply Hp.
  - intros k Hin. apply lookup_insert_is_Some'. right. by apply Hu.
  - intros k b Hb. cbn. destruct (decide (k = n)) as [->|Hne].
    + apply Hk in Hb. destruct (Hp _ _ Hb) as (ents' & data' & -> & Hc').
      destruct (Hname _ _ _ _ _ Hc Hc') as [_ ->]. by rewrite lookup_insert_eq.
    + rewrite lookup_insert_ne by (by intros ?%(inj objectKeyPack)). by apply Hk.
Qed.

Lemma put_other_inv key b h fs : inv h -> (forall n, objectKeyPack n <> key) -> inv (set_target (<[key := b]> (objs h)) fs h).
Proof.
  intros (Hl & [Hp Hu] & Hk) Hn. split_and!; [done|split|]; cbn.
  - intros k b'. rewrite lookup_insert_ne by (intros E; by eapply Hn). apply Hp.
  - intros k Hin. apply lookup_insert_is_Some'. right. by apply Hu.
  - intros k b' Hb. cbn. rewrite lookup_insert_ne by (intros E; by eapply Hn). by apply Hk.
Qed.

Lemma mark_inv n h : inv h -> is_Some (objs h !! objectKeyPack n) ->
  inv (if decide (tk = ""%string) then h else set_uploaded (<[tk := {[n]} ∪ LoadUploaded h tk]> (uploaded h)) h).
Proof.
  intros (Hl & [Hp Hu] & Hk) Hn. case_decide; [done|]. split_and!; [done|split; [done|]|done].
  intros k. unfold LoadUploaded at 1. cbn. rewrite lookup_insert_eq. cbn.
  intros [->%elem_of_singleton|Hin]%elem_of_union; [done|by apply Hu].
Qed.

Lemma update_inv j f h : inv h ->
  inv (match LoadState h (jNamespace j) (jBackupID j) with
       | None => h
       | Some st => match f st with None => h | Some st' => set_sys (apply_op (hsys h) (WriteState st')) h end
       end).
Proof. intros Hi. destruct (LoadState _ _ _); [|done]. by destruct (f p). Qed.

Definition present (ps : list string) (h : host) : Prop := forall p, p ∈ ps -> is_Some (objs h !! objectKeyPack p).

Lemma present_insert ps key b fs h : present ps h -> present ps (set_target (<[key := b]> (objs h)) fs h).
Proof. intros Hp p Hin. apply lookup_insert_is_Some'. right. by apply Hp. Qed.

Lemma MarkUploaded_ok ps n known :
  hoare (fun h => inv h /\ known ⊆ LoadUploaded h tk /\ present (n :: ps) h) (MarkUploaded tk n)
        (fun _ h => inv h /\ known ⊆ LoadUploaded h tk /\ present (n :: ps) h) inv.
Proof.
  apply hoare_modify. intros h (Hi & Hkn & Hp). pose proof (mark_inv n h Hi (Hp n ltac:(left))). split_and!; [done| |].
  - case_decide; [done|]. unfold LoadUploaded in *. cbn. rewrite lookup_insert_eq. cbn. set_solver.
  - intros p Hin. case_decide; by apply Hp.
Qed.

Lemma ensure_pack_ok known ps p u :
  hoare (fun h => inv h /\ known ⊆ LoadUploaded h tk /\ present ps h) (ensure_pack sealed tk known u p)
        (fun _ h => inv h /\ known ⊆ LoadUploaded h tk /\ present (p :: ps) h) inv.
Proof.
  unfold ensure_pack. case_decide as Hk.
  { apply hoare_ret. intros h (Hi & Hkn & Hp). split_and!; try done. intros q [->|Hq]%elem_of_cons; [|by apply Hp].
    destruct Hi as (_ & [_ Hu] & _). apply Hu, Hkn, Hk. }
  apply hoare_current. intros h0. destruct (packs (dsk (hsys h0)) !! p) as [data|] eqn:Ed.
  2:{ apply hoare_throw. by intros h (-> & Hi & _). }
  apply (hoare_pure (packs (dsk s0) !! p = Some data)).
  { intros h (-> & ((_ & <- & _) & _) & _). done. }
  intros Hd. eapply hoare_bind.
  - eapply (hoare_head _ _ _ (fun r h => inv h /\ known ⊆ LoadUploaded h tk /\ present ps h /\ (r.1 = true -> present [p] h))).
    intros h fs (-> & Hi & Hkn & Hp). split; [apply Hi|]. intros z. split_and!; [apply Hi|done|apply Hp|].
    cbn. destruct (objs h0 !! objectKeyPack p) eqn:Eo; [|done]. intros _ q ->%list_elem_of_singleton. cbn. by rewrite Eo.
  - intros [ok z]. cbn. case_decide as Hr.
    + eapply hoare_conseq; [apply (MarkUploaded_ok ps p known)| |done|done].
      intros h (Hi & Hkn & Hp & Hp'). split_and!; try done. intros q [->|Hq]%elem_of_cons; [apply Hp'; [apply Hr|left]|by apply Hp].
    + unfold putPack. eapply (hoare_bind _ _ _ (fun _ h => inv h /\ known ⊆ LoadUploaded h tk /\ present (p :: ps) h)); [|intros []; apply (MarkUploaded_ok ps p known)].
      apply hoare_change. intros h fs (Hi & Hkn & Hp & _). pose proof (put_pack_inv p data h fs Hi Hd). split_and!; try done.
      * intros q [->|Hq]%elem_of_cons; [|by apply (present_insert ps)]. cbn. by rewrite lookup_insert_eq.
Qed.

Lemma LoadManifest_eval ns id h :
  same_local h -> LoadManifest ns id h = match snaps (dsk s0) !! (ns, id) with Some (Some m) => (Ok m, h) | _ => (Err ManifestMissing, h) end.
Proof.
  intros (_ & _ & _ & Hs). unfold LoadManifest, hbind, hcurrent. cbn. rewrite Hs. by destruct (snaps (dsk s0) !! (ns, id)) as [[m|]|].
Qed.

(** The packs that a restore point's chunks are in. *)
Definition covers (m : Manifest) (ps : list string) : Prop :=
  forall c loc, c ∈ chunks m -> index s0 !! c = Some loc -> lPack loc ∈ ps.

Lemma packsFor_ok ns id m :
  snaps (dsk s0) !! (ns, id) = Some (Some m) ->
  hoare inv (packsFor ns id) (fun ps h => inv h /\ covers m ps) inv.
Proof.
  intros Hm h Hi. unfold packsFor, hbind. rewrite LoadManifest_eval, Hm by apply Hi. unfold hcurrent.
  destruct Hi as (Hl & Hi). pose proof Hl as (Hix & _). rewrite Hix.
  destruct (fold_left _ _ _) as [s|] eqn:Ef; [|exact (conj Hl Hi)]. split; [exact (conj Hl Hi)|].
  destruct (pack_fold _ _ _ _ Ef) as [_ H]. intros c loc Hc Hloc. unfold sortNames. rewrite merge_sort_Permutation.
  apply elem_of_elements. by eapply H.
Qed.

Lemma complete_packs_ok j m :
  snaps (dsk s0) !! (jNamespace j, jBackupID j) = Some (Some m) ->
  hoare inv (complete_packs sealed tk j) (fun _ h => inv h /\ exists ps, covers m ps /\ present ps h) inv.
Proof.
  intros Hm. unfold complete_packs. eapply hoare_bind; [by apply packsFor_ok|]. intros ps.
  apply hoare_current. intros h0. set (known := LoadUploaded h0 tk).
  eapply hoare_conseq.
  - apply (hoare_forM _ (fun l _ h => (inv h /\ known ⊆ LoadUploaded h tk /\ covers m ps) /\
                              forall p, p ∈ ps -> p ∈ l \/ present [p] h) inv).
    intros p l u. intros h ((Hi & Hkn & Hc) & Hp).
    pose (done := filter (fun q => q ∉ p :: l) ps).
    assert (present done h) as Hd.
    { intros q [Hq1 Hq2]%list_elem_of_filter. destruct (Hp q Hq2) as [|Hpr]; [done|]. apply Hpr. left. }
    pose proof (ensure_pack_ok known done p u h (conj Hi (conj Hkn Hd))) as He.
    destruct (ensure_pack _ _ _ _ _ _) as [[[]|e] h']; [|done]. destruct He as (Hi' & Hkn' & Hp'). split_and!; try done.
    intros q Hq. destruct (decide (q ∈ l)) as [|Hl]; [by left|]. right. intros q' ->%list_elem_of_singleton.
    destruct (decide (q = p)) as [->|Hne]; [apply Hp'; left|]. apply Hp'. right. apply list_elem_of_filter.
    split; [|done]. rewrite not_elem_of_cons. done.
  - intros h (-> & Hi & Hc). split_and!; try done. intros p Hp. by left.
  - cbn. intros u h ((Hi & _ & Hc) & Hp). split; [done|]. exists ps. split; [done|]. intros p Hin.
    destruct (Hp p Hin) as [H|H]; [by apply not_elem_of_nil in H|]. apply H. left.
  - done.
Qed.

Definition local_bytes (c : KeyID) (b : list byte) : Prop := GetSealed s0 c = Ok b /\ sealed_ok c b.

Lemma entry_readable e n ps h :
  inv h -> present ps h -> n ∈ ps -> index s0 !! leID e = Some (mkLoc n (leOff e) (leLen e)) -> lePack e = n ->
  exists data b, objs h !! objectKeyPack (lePack e) = Some (BPack data) /\ readAt data (leOff e) (leLen e) = Some b /\ local_bytes (leID e) b.
Proof.
  intros (_ & [Hp _] & _) Hpr Hn Hix Hen. destruct (Hpr n Hn) as [b0 Hb0].
  destruct (Hp _ _ Hb0) as (ents & data & -> & Hc).
  destruct (proj2 Hs0 _ _ Hix) as (pi & Hi & [data' Hd] & _). cbn in Hi, Hd.
  destruct (proj1 (proj1 Hs0) _ _ Hd) as [ents' Hc']. destruct (Hname _ _ _ _ _ Hc Hc') as [_ ->].
  destruct (repo_ok_readable _ _ Hname s0 (leID e) Hs0) as (b & Hg & Hok); [by eexists|].
  exists data', b. rewrite Hen. split_and!; [done| |by split].
  revert Hg. unfold GetSealed. rewrite Hix. cbn. rewrite Hd. destruct (readAt _ _ _); [|done]. by intros [= ->].
Qed.

Definition sidecar (ns id : string) (h : host) : Prop :=
  exists st, LoadState h ns id = Some st /\ Namespace st = ns /\ BackupID st = id.

Lemma update_sidecar j f h st :
  LoadState h (jNamespace j) (jBackupID j) = Some st -> Namespace st = jNamespace j -> BackupID st = jBackupID j ->
  (forall st, Namespace (f st) = Namespace st /\ BackupID (f st) = BackupID st) ->
  LoadState (updateState j (fun st => Some (f st)) h).2 (jNamespace j) (jBackupID j) = Some (f st).
Proof.
  intros Hl Hns Hid Hf. unfold updateState, hmodify. cbn. rewrite Hl. unfold LoadState. cbn.
  destruct (Hf st) as [-> ->]. by rewrite Hns, Hid, lookup_insert_eq.
Qed.

Lemma updateState_ok j f ps (P : host -> Prop) :
  (forall st, Namespace (f st) = Namespace st /\ BackupID (f st) = BackupID st) ->
  (forall h s, P h -> P (set_sys s h)) ->
  hoare (fun h => inv h /\ present ps h /\ sidecar (jNamespace j) (jBackupID j) h /\ P h) (updateState j (fun st => Some (f st)))
        (fun _ h => inv h /\ present ps h /\ sidecar (jNamespace j) (jBackupID j) h /\ P h /\
                    exists st st', LoadState h (jNamespace j) (jBackupID j) = Some st' /\ st' = f st) inv.
Proof.
  intros Hf HP h (Hi & Hp & (st & Hl & Hns & Hid) & HPh). pose proof (update_sidecar j f h st Hl Hns Hid Hf) as Hu.
  revert Hu. unfold updateState, hmodify. cbn. rewrite Hl. intros Hu.
  split_and!; [exact Hi|exact Hp| |by apply HP|by exists st, (f st)].
  exists (f st). split; [exact Hu|]. by destruct (Hf st) as [-> ->].
Qed.

Definition at_key (k : string) (b : blob) (h : host) : Prop := objs h !! k = Some b.

Lemma put_verified_ok ps ns id k b u (P : host -> Prop) :
  (forall n, objectKeyPack n <> k) -> (forall h fs, P h -> P (set_target (<[k := b]> (objs h)) fs h) /\ P (set_target (objs h) fs h)) ->
  hoare (fun h => inv h /\ present ps h /\ sidecar ns id h /\ P h) (put_verified sealed u (k, b))
        (fun _ h => inv h /\ present ps h /\ sidecar ns id h /\ P h /\ at_key k b h) inv.
Proof.
  intros Hk HP. unfold put_verified. cbn.
  eapply (hoare_bind _ _ _ (fun _ h => inv h /\ present ps h /\ sidecar ns id h /\ P h /\ at_key k b h)).
  - apply hoare_change. intros h fs (Hi & Hp & Hs & HPh).
    pose proof (put_other_inv k b h fs Hi Hk). destruct (HP h fs HPh). split_and!; try done.
    + by apply (present_insert ps).
    + unfold at_key. cbn. by rewrite lookup_insert_eq.
  - intros []. eapply (hoare_bind _ _ _ (fun _ h => inv h /\ present ps h /\ sidecar ns id h /\ P h /\ at_key k b h)).
    + apply hoare_head. intros h fs (Hi & Hp & Hs & HPh & Hat). destruct (HP h fs HPh). split; [exact Hi|]. intros z.
      split_and!; try done.
    + intros [ok z]. cbn. case_decide; [apply hoare_throw; by intros h (? & _)|]. by apply hoare_ret.
Qed.

Lemma buildLocmap_ok ns id m (P : host -> Prop) :
  snaps (dsk s0) !! (ns, id) = Some (Some m) ->
  hoare (fun h => inv h /\ P h) (buildLocmap ns id)
        (fun b h => inv h /\ P h /\ exists es, b = BLocmap ns es /\ NoDup (map leID es) /\
                    (forall c, c ∈ chunks m <-> c ∈ map leID es) /\
                    forall e, e ∈ es -> index s0 !! leID e = Some (mkLoc (lePack e) (leOff e) (leLen e)))
        (fun h => inv h).
Proof.
  intros Hm h (Hi & HP). unfold buildLocmap, hbind. rewrite LoadManifest_eval, Hm by apply Hi. cbn.
  pose proof Hi as ((Hix & _) & _). rewrite Hix.
  destruct (fold_left _ _ _) as [[seen es]|] eqn:Ef; [|done]. split; [done|split; [done|]]. exists es.
  destruct (loc_fold _ _ _ _ _ _ Ef) as (H1 & H2 & H3).
  - intros c. cbn. rewrite elem_of_empty. by rewrite elem_of_nil.
  - constructor.
  - by intros e ?%not_elem_of_nil.
  - split_and!; try done. intros c. rewrite <- H2, elem_of_empty. tauto.
Qed.

Definition protected (ns id : string) (h : host) : Prop :=
  exists st, LoadState h ns id = Some st /\ Remote st = RemoteProtected.

Lemma complete_publish_ok now j m ps :
  snaps (dsk s0) !! (jNamespace j, jBackupID j) = Some (Some m) -> covers m ps ->
  hoare (fun h => inv h /\ present ps h /\ sidecar (jNamespace j) (jBackupID j) h) (complete_publish sealed now j)
        (fun _ h => inv h /\ protected (jNamespace j) (jBackupID j) h /\
                    restorable local_bytes (objs h) (jNamespace j) (jBackupID j) m) inv.
Proof.
  intros Hm Hc. unfold complete_publish. set (ns := jNamespace j) in *. set (id := jBackupID j) in *.
  eapply (hoare_bind _ _ _ (fun m' h => inv h /\ present ps h /\ sidecar ns id h /\ m' = m)).
  { intros h (Hi & Hp & Hs). rewrite LoadManifest_eval, Hm by apply Hi. by split_and!. }
  intros m'. apply (hoare_pure (m' = m)); [by intros h (_ & _ & _ & ->)|]. intros ->.
  eapply (hoare_bind _ _ _ (fun _ h => inv h /\ present ps h /\ sidecar ns id h)).
  { eapply hoare_conseq; [apply (updateState_ok j (set_remote RemoteVerifying) ps (fun _ => True)); [by intros []|done]| | |done].
    - by intros h (Hi & Hp & Hs & _).
    - by intros [] h (Hi & Hp & Hs & _). }
  intros []. eapply hoare_bind; [by apply (buildLocmap_ok ns id m (fun h => present ps h /\ sidecar ns id h))|].
  intros loc. apply (hoare_pure (exists es, loc = BLocmap ns es /\ NoDup (map leID es) /\
                    (forall c, c ∈ chunks m <-> c ∈ map leID es) /\
                    forall e, e ∈ es -> index s0 !! leID e = Some (mkLoc (lePack e) (leOff e) (leLen e)))).
  { by intros h (_ & _ & He). }
  intros (es & -> & Hnd & Hch & Hix). pose proof (manifest_key_other ns id) as Hk.
  pose proof (fun n => proj1 (pack_key_other n ns id)) as Hk1. pose proof (fun n => proj2 (pack_key_other n ns id)) as Hk2.
  set (man := at_key (objectKeyManifest ns id) (BManifest ns m)). set (lmap := at_key (objectKeyLocmap ns id) (BLocmap ns es)).
  eapply (hoare_bind _ _ _ (fun _ h => inv h /\ present ps h /\ sidecar ns id h /\ man h /\ lmap h)).
  { cbn [hforM]. eapply hoare_bind.
    { eapply hoare_conseq; [apply (put_verified_ok ps ns id _ _ tt (fun _ => True)); [apply Hk1|done]| |done|done].
      by intros h (Hi & (Hp & Hs) & _). }
    intros []. eapply (hoare_bind _ _ _ (fun _ h => inv h /\ present ps h /\ sidecar ns id h /\ man h /\ lmap h));
      [|intros []; by apply hoare_ret].
    eapply hoare_conseq; [apply (put_verified_ok ps ns id _ _ tt man); [apply Hk2|]| |done|done].
    - intros h fs Hman. split; [|exact Hman]. unfold man, at_key in *. cbn. by rewrite lookup_insert_ne.
    - by intros h (Hi & Hp & Hs & _ & Hat). }
  intros []. eapply hoare_conseq; [apply (updateState_ok j (protect now) ps (fun h => man h /\ lmap h)); [by intros []|by intros]| | |done].
  - done.
  - intros [] h (Hi & Hp & Hs & (Hman & Hlm) & (st & st' & Hl & ->)). split_and!; [done|by exists (protect now st)|].
    exists es. split_and!; [done|done|done|by intros c Hin; apply Hch|].
    intros e He. eapply (entry_readable e (lePack e) ps h); [done|done| |by apply Hix|done].
    apply (Hc (leID e) (mkLoc (lePack e) (leOff e) (leLen e))); [|by apply Hix]. apply Hch. by apply list_elem_of_fmap_2.
Qed.

Lemma complete_ok now j m :
  snaps (dsk s0) !! (jNamespace j, jBackupID j) = Some (Some m) ->
  hoare (fun h => inv h /\ sidecar (jNamespace j) (jBackupID j) h) (complete sealed tk now j)
        (fun _ h => inv h /\ protected (jNamespace j) (jBackupID j) h /\
                    restorable local_bytes (objs h) (jNamespace j) (jBackupID j) m) inv.
Proof.
  intros Hm h (Hi & Hsc). unfold complete, hbind, hcurrent. pose proof Hsc as (st & Hst & _). rewrite Hst.
  pose proof (complete_packs_ok j m Hm h Hi) as Hp.
  assert (LoadState (complete_packs sealed tk j h).2 (jNamespace j) (jBackupID j) = Some st) as Hst'.
  { rewrite <- Hst. unfold LoadState. by rewrite keeps_complete_packs. }
  unfold hbind. destruct (complete_packs sealed tk j h) as [[[]|e] h1]; [|done]. cbn in Hst'.
  destruct Hp as (Hi1 & ps & Hc & Hpr). apply (complete_publish_ok now j m ps Hm Hc h1). split_and!; [done|done|].
  destruct Hsc as (st2 & Hst2 & Hsc). exists st2. rewrite Hst in Hst2. injection Hst2 as <-. done.
Qed.
End complete.

(** ** Fetching back *)
Lemma by_pack_lookup es acc n :
  fold_left by_pack_step es acc !! n =
  match map (fun e => mkEntry (leID e) (leOff e) (leLen e)) (filter (fun e => lePack e = n) es), acc !! n with
  | [], o => o
  | l, o => Some (default [] o ++ l)
  end.
Proof.
  revert acc. induction es as [|e es IH]; intros acc; [done|]. cbn [fold_left]. rewrite IH, filter_cons. unfold by_pack_step at 1 2.
  case_decide as He; cbn [map].
  - subst n. rewrite lookup_insert_eq. cbn. destruct (map _ _) as [|x l]; [done|]. by rewrite <- app_assoc.
  - by rewrite lookup_insert_ne by done.
Qed.

Definition fetched (l : list (string * list packEntry)) (data : string -> list byte) (d : disk) : disk :=
  fold_left (fun d p => put_pack d p.1 (data p.1) p.2) l d.

Lemma fetch_loop l data d h :
  faults h = [] -> (forall p, p ∈ l -> objs h !! objectKeyPack p.1 = Some (BPack (data p.1))) ->
  hforM (fetch_pack sealed) l d h = (Ok (fetched l data d), h).
Proof.
  intros Hf. revert d. induction l as [|p l IH]; intros d Ho; [done|]. cbn [hforM]. unfold hbind at 1.
  unfold fetch_pack at 1, Get, hbind, next_fault, hcurrent. rewrite Hf. rewrite (Ho p ltac:(left)). cbn.
  apply IH. intros q Hq. apply Ho. by right.
Qed.

Lemma fetched_lookup l data d n :
  NoDup (map fst l) ->
  (forall ents, (n, ents) ∈ l -> packs (fetched l data d) !! n = Some (data n) /\
      idxs (fetched l data d) !! n = Some (Some (mkIndex n (Z.of_nat (length (data n))) ents))) /\
  (n ∉ map fst l -> packs (fetched l data d) !! n = packs d !! n /\ idxs (fetched l data d) !! n = idxs d !! n).
Proof.
  revert d. induction l as [|[k ents] l IH]; intros d Hnd; [split; [by intros ents ?%not_elem_of_nil|done]|].
  apply NoDup_cons in Hnd as [Hk Hnd].
  change (fetched ((k, ents) :: l) data d) with (fetched l data (put_pack d k (data k) ents)).
  destruct (IH (put_pack d k (data k) ents) Hnd) as [H1 H2]. split.
  - intros ents' [[= -> ->]|Hin]%elem_of_cons; [|by apply H1]. destruct (H2 Hk) as [-> ->]. cbn. by rewrite !lookup_insert_eq.
  - cbn. intros [Hne Hn]%not_elem_of_cons. destruct (H2 Hn) as [-> ->]. cbn. by rewrite !lookup_insert_ne.
Qed.

Lemma by_pack_spec es n ents :
  by_pack es !! n = Some ents ->
  (exists e, e ∈ es /\ lePack e = n) /\ ents = map (fun e => mkEntry (leID e) (leOff e) (leLen e)) (filter (fun e => lePack e = n) es).
Proof.
  unfold by_pack. rewrite by_pack_lookup, lookup_empty. destruct (filter _ es) as [|e l] eqn:Ef; [done|]. cbn. intros [= <-].
  split; [|done]. exists e. assert (e ∈ filter (fun e => lePack e = n) es) as He by (rewrite Ef; left).
  apply list_elem_of_filter in He as [? ?]. done.
Qed.

Lemma by_pack_some es e : e ∈ es -> is_Some (by_pack es !! lePack e).
Proof.
  intros He. unfold by_pack. rewrite by_pack_lookup, lookup_empty.
  assert (e ∈ filter (fun k => lePack k = lePack e) es) as Hf by (apply list_elem_of_filter; done).
  destruct (filter _ es); [by apply not_elem_of_nil in Hf|]. cbn. by eexists.
Qed.

Definition empty_disk : disk := mkDisk ∅ ∅ ∅ ∅ ∅.

(** A restorable point is restored: every chunk comes back with its bytes. *)
Lemma fetch_ok Q h ns id m :
  faults h = [] -> restorable Q (objs h) ns id m ->
  exists s, FetchRemote sealed ns id empty_disk h = (Ok (s, m), h) /\
    forall c, c ∈ chunks m -> exists b, GetSealed s c = Ok b /\ Q c b.
Proof.
  intros Hf (es & Hman & Hloc & Hnd & Hcov & Hes).
  pose (data n := match objs h !! objectKeyPack n with Some (BPack d) => d | _ => [] end).
  set (d0 := put_snap empty_disk ns id (Some m)). set (d := fetched (map_to_list (by_pack es)) data d0).
  assert (Hl : forall p, p ∈ map_to_list (by_pack es) -> objs h !! objectKeyPack p.1 = Some (BPack (data p.1))).
  { intros [n ents] Hp%elem_of_map_to_list. destruct (by_pack_spec _ _ _ Hp) as [(e & He & <-) _].
    destruct (Hes e He) as (dt & b & Hd & _). cbn. unfold data. by rewrite Hd. }
  assert (Hlk : forall n ents, by_pack es !! n = Some ents -> packs d !! n = Some (data n) /\
                  idxs d !! n = Some (Some (mkIndex n (Z.of_nat (length (data n))) ents))).
  { intros n ents Hn. destruct (fetched_lookup (map_to_list (by_pack es)) data d0 n) as [H _]; [apply NoDup_fst_map_to_list|].
    apply H. by apply elem_of_map_to_list. }
  assert (Hidx : forall n o, idxs d !! n = Some o -> exists ents, by_pack es !! n = Some ents /\ o = Some (mkIndex n (Z.of_nat (length (data n))) ents)).
  { intros n o Ho. destruct (by_pack es !! n) as [ents|] eqn:En.
    - exists ents. split; [done|]. rewrite (proj2 (Hlk n ents En)) in Ho. by injection Ho as <-.
    - destruct (fetched_lookup (map_to_list (by_pack es)) data d0 n) as [_ H]; [apply NoDup_fst_map_to_list|].
      destruct H as [_ H]; [|unfold d in Ho; rewrite H in Ho; cbn in Ho; by rewrite lookup_empty in Ho]. intros ([k v] & -> & Hk%elem_of_map_to_list)%list_elem_of_fmap. cbn in En. congruence. }
  destruct (rebuildIndex_ok d) as (s & Hr & Hm & Ei & _ & Hps & Hpk & Hin).
  { intros n o Ho. destruct (Hidx n o Ho) as (ents & _ & ->). by eexists. }
  assert (Hhas : forall c, c ∈ chunks m -> exists b, GetSealed s c = Ok b /\ Q c b).
  { intros c Hc. apply Hcov in Hc. pose proof Hc as (e & -> & He)%list_elem_of_fmap.
    destruct (by_pack_some es e He) as [ents Hn]. destruct (by_pack_spec _ _ _ Hn) as [_ Hents].
    destruct (Hlk _ _ Hn) as [Hp Hi].
    assert (on_disk d (leID e)) as Hon.
    { exists (lePack e), (mkIndex (lePack e) (Z.of_nat (length (data (lePack e)))) ents).
      split_and!; [by eexists|done|]. cbn. rewrite Hents. apply list_elem_of_fmap. exists (mkEntry (leID e) (leOff e) (leLen e)).
      split; [done|]. apply list_elem_of_fmap. exists e. split; [done|]. by apply list_elem_of_filter. }
    destruct (Hin _ Hon) as [loc Hl2]. destruct (Hm _ _ Hl2) as (pi & Hi2 & _ & He2).
    rewrite Ei in Hi2. destruct (Hidx _ _ Hi2) as (ents2 & Hn2 & [= ->]). destruct (by_pack_spec _ _ _ Hn2) as [_ Hents2].
    cbn in He2. rewrite Hents2 in He2. apply list_elem_of_fmap in He2 as (e2 & [= Eid Eoff Elen] & [Hpk2 He2]%list_elem_of_filter).
    destruct (Hes e2 He2) as (dt & b & Hd & Hrd & HQ). exists b. rewrite <- Eid in HQ. split; [|done].
    unfold GetSealed. rewrite Hl2, Hpk by (by rewrite Hi2). destruct (Hlk _ _ Hn2) as [-> _].
    rewrite Eoff, Elen. unfold data. rewrite <- Hpk2, Hd. by rewrite Hrd. }
  exists s. split; [|done]. unfold FetchRemote.
  assert (lift (OpenRepository empty_disk) h = (Ok (mkSys empty_disk ∅), h)) as Ho by done.
  unfold hbind at 1. rewrite Ho. unfold hbind at 1, Get at 1, next_fault at 1. unfold hbind at 1. rewrite Hf. unfold hbind at 1, hcurrent at 1. rewrite Hman.
  unfold hret at 1, open_manifest. rewrite !decide_True by done.
  unfold hbind at 1, Get at 1, next_fault at 1. unfold hbind at 1. rewrite Hf. unfold hbind at 1, hcurrent at 1. rewrite Hloc.
  unfold hret at 1, open_locmap. rewrite decide_True by done.
  change (put_snap (dsk (mkSys empty_disk ∅)) ns id (Some m)) with d0.
  unfold hbind at 1. rewrite (fetch_loop _ data d0 h Hf Hl). fold d. unfold hbind. rewrite Hr. cbn [lift hret].
  assert (Verify s m = true) as ->; [|done]. apply forallb_forall. intros c Hc%list_elem_of_In.
  destruct (Hhas c Hc) as (b & Hg & _). revert Hg. unfold GetSealed, Has. by destruct (index s !! c).
Qed.

Lemma restorable_mono es Q o o' ns id m : restorable_by es Q o ns id m ->
  (forall k b, (k = objectKeyManifest ns id \/ k = objectKeyLocmap ns id \/ exists e, e ∈ es /\ k = objectKeyPack (lePack e)) ->
     o !! k = Some b -> o' !! k = Some b) -> restorable_by es Q o' ns id m.
Proof.
  intros (H1 & H2 & H3 & H4 & H5) Hk. split_and!; [apply Hk; auto|apply Hk; auto|done|done|].
  intros e He. destruct (H5 e He) as (data & b & Hd & Hr & HQ). exists data, b. split_and!; try done.
  apply Hk; [|done]. right. right. by exists e.
Qed.


End target.

(** ** The sweep *)
Section expiry.
Variable sealed : blob -> list byte.
Variable tk : string.

Section sweep.
Context (Q : KeyID -> list byte -> Prop) (ns id : string) (m : Manifest) (es : list locEntry).
Context (Hns : plain ns) (Hid : plain id) (Hp : ns <> "packs"%string).
Context (s0 : sys) (o0 : gmap string blob).

Definition local_pack (n : string) : Prop :=
  exists ref c loc, referencedChunks (dsk s0) = Ok ref /\ c ∈ ref /\ index s0 !! c = Some loc /\ lPack loc = n.

Definition sweep_inv (h : host) : Prop :=
  hsys h = s0 /\ restorable_by es Q (objs h) ns id m /\ forall n, local_pack n -> objs h !! objectKeyPack n = o0 !! objectKeyPack n.

Lemma delete_pack_inv n fs h : sweep_inv h -> n ∉ map lePack es -> ~ local_pack n ->
  sweep_inv (set_target (delete (objectKeyPack n) (objs h)) fs h).
Proof.
  intros (Hs & Hr & Hl) Hn Hnl. split_and!; [done| |]; cbn.
  - eapply restorable_mono; [exact Hr|]. intros k b Hk Hb. rewrite lookup_delete_ne; [done|]. intros <-.
    destruct Hk as [E|[E|(e & He & E)]].
    + by apply (proj1 (pack_key_other n ns id)).
    + by apply (proj2 (pack_key_other n ns id)).
    + apply (inj objectKeyPack) in E. apply Hn. rewrite E. by apply list_elem_of_fmap_2.
  - intros k Hk. rewrite lookup_delete_ne; [by apply Hl|]. intros E%(inj objectKeyPack). by subst.
Qed.

Lemma List_ok prefix :
  hoare sweep_inv (List_ sealed prefix)
    (fun os h => sweep_inv h /\ forall k, HasPrefix k prefix = true -> is_Some (objs h !! k) -> k ∈ map fst os) sweep_inv.
Proof.
  intros h Hi. unfold List_, hbind, next_fault, hcurrent, hret, hthrow.
  assert (forall k, HasPrefix k prefix = true -> is_Some (objs h !! k) ->
    k ∈ map fst (map (fun p : string * blob => (p.1, blob_size sealed p.2))
                 (filter (fun p : string * blob => HasPrefix p.1 prefix = true) (map_to_list (objs h))))) as Hk.
  { intros k Hpre [b Hb]. rewrite map_map. apply list_elem_of_fmap. exists (k, b). split; [done|].
    apply list_elem_of_filter. split; [done|]. by apply elem_of_map_to_list. }
  destruct (faults h) as [|[| |d] fs]; cbn; [| | |exact Hi]; (split; [exact Hi|exact Hk]).
Qed.

Lemma remoteReferences_ok os :
  objectKeyLocmap ns id ∈ map fst os ->
  hoare sweep_inv (remoteReferences os) (fun r h => sweep_inv h /\ (forall e, e ∈ es -> lePack e ∈ r.1)) sweep_inv.
Proof.
  intros Hos. unfold remoteReferences. eapply hoare_conseq.
  - apply (hoare_forM _ (fun l (acc : gset string * Z) h => sweep_inv h /\ (objectKeyLocmap ns id ∈ map fst l \/ forall e, e ∈ es -> lePack e ∈ acc.1)) sweep_inv).
    intros [k z] l acc. unfold reference_step. cbn [fst].
    destruct (decide (k = objectKeyLocmap ns id)) as [->|Hne].
    + rewrite locmap_key_namespace by done. eapply hoare_bind.
      * eapply (hoare_get _ _ (fun b h => sweep_inv h /\ b = BLocmap ns es)). intros h fs (Hi & _). split; [exact Hi|].
        intros b Hb. split; [exact Hi|]. destruct Hi as (_ & (_ & E & _) & _). congruence.
      * intros b. apply (hoare_pure (b = BLocmap ns es)); [by intros h [_ ?]|]. intros ->. cbn. rewrite decide_True by done.
        apply hoare_ret. intros h [Hi _]. split; [done|]. right. intros e He. cbn.
        apply elem_of_union. left. unfold locmap_packs. apply elem_of_list_to_set. by apply list_elem_of_fmap_2.
    + assert (forall h (acc' : gset string * Z), sweep_inv h /\ (objectKeyLocmap ns id ∈ map fst ((k, z) :: l) \/ forall e, e ∈ es -> lePack e ∈ acc.1) ->
                (forall p, p ∈ acc.1 -> p ∈ acc'.1) -> sweep_inv h /\ (objectKeyLocmap ns id ∈ map fst l \/ forall e, e ∈ es -> lePack e ∈ acc'.1)) as Hstep.
      { intros h acc' (Hi & [[E|H]%elem_of_cons|H]) Hsub; (split; [done|]); [by cbn in E|by left|right; auto]. }
      destruct (locmapNamespace k) as [ns'|]; [|apply hoare_ret; intros h Hh; by eapply Hstep].
      eapply (hoare_bind _ _ _ (fun _ h => sweep_inv h /\ (objectKeyLocmap ns id ∈ map fst ((k, z) :: l) \/ forall e, e ∈ es -> lePack e ∈ acc.1))).
      * apply hoare_get. intros h fs Hh. split; [apply Hh|]. intros b _. exact Hh.
      * intros b. destruct (open_locmap ns' b); apply hoare_ret; intros h Hh; (eapply Hstep; [exact Hh|]); cbn; [set_solver|done].
  - intros h Hi. split; [done|by left].
  - cbn. intros [r z] h [Hi [H|H]]; [by apply not_elem_of_nil in H|done].
  - done.
Qed.

Lemma sweep_step_ok referenced local sizes acc n :
  (forall e, e ∈ es -> lePack e ∈ referenced) -> (forall k, local_pack k -> k ∈ local) ->
  hoare sweep_inv (sweep_step tk referenced local sizes acc n) (fun _ h => sweep_inv h) sweep_inv.
Proof.
  intros Href Hloc. destruct acc as [res rem]. unfold sweep_step. case_decide as Hin; [by apply hoare_ret|].
  destruct (sizes !! n); [|by apply hoare_ret]. eapply (hoare_bind _ _ _ (fun _ h => sweep_inv h)).
  - apply hoare_attempt. apply hoare_change. intros h fs Hi.
    assert (sweep_inv (set_target (delete (objectKeyPack n) (objs h)) fs h)) as Hd; [|by split_and!].
    apply delete_pack_inv; [done| |].
    + intros (e & -> & He)%list_elem_of_fmap. apply Hin. left. by apply Href.
    + intros Hl. apply Hin. right. by apply Hloc.
  - intros [u|]; [|by apply hoare_ret]. eapply (hoare_bind _ _ _ (fun _ h => sweep_inv h)); [|intros v; by apply hoare_ret].
    apply hoare_modify. intros h Hi. by case_decide.
Qed.

Lemma referencedPacks_ok local k : referencedPacks s0 = Ok local -> local_pack k -> k ∈ local.
Proof.
  intros Hl (ref & c & loc & Hr & Hc & Hi & <-). unfold referencedPacks in Hl. rewrite Hr in Hl. injection Hl as <-.
  apply elem_of_list_to_set, list_elem_of_omap. exists c. split; [by apply elem_of_elements|]. by rewrite Hi.
Qed.

Lemma SweepRemote_ok : hoare sweep_inv (SweepRemote sealed tk) (fun _ h => sweep_inv h) sweep_inv.
Proof.
  unfold SweepRemote. apply hoare_current. intros h0. cbn zeta. case_decide; [apply hoare_ret; by intros h [_ Hi]|].
  eapply hoare_bind; [eapply hoare_conseq; [apply (List_ok "backups/")| |done|done]; by intros h [_ Hi]|].
  intros os. apply (hoare_pure (objectKeyLocmap ns id ∈ map fst os)).
  { intros h [Hi Hos]. apply Hos; [|destruct Hi as (_ & (_ & -> & _) & _); by eexists].
    apply HasPrefix_spec. unfold objectKeyLocmap. rewrite !bytes_app. by eexists. }
  intros Hos. eapply hoare_bind; [eapply hoare_conseq; [by apply (remoteReferences_ok os)| |done|done]; by intros h [Hi _]|].
  intros rf. apply (hoare_pure (forall e, e ∈ es -> lePack e ∈ rf.1)); [by intros h [_ He]|]. intros Href.
  apply hoare_current. intros h1. apply (hoare_pure (hsys h1 = s0)); [by intros h (-> & (Hs & _) & _)|]. intros Hs. rewrite Hs.
  eapply (hoare_bind _ _ _ (fun local h => sweep_inv h /\ forall k, local_pack k -> k ∈ local)).
  { destruct (referencedPacks s0) as [local|e] eqn:El; [|apply hoare_throw; by intros h (_ & Hi & _)].
    apply hoare_ret. intros h (_ & Hi & _). split; [done|]. intros k. by apply referencedPacks_ok. }
  intros local. apply (hoare_pure (forall k, local_pack k -> k ∈ local)); [by intros h [_ Hk]|]. intros Hloc.
  eapply (hoare_bind _ _ _ (fun _ h => sweep_inv h)).
  { eapply hoare_conseq; [apply (hoare_forM _ (fun _ _ h => sweep_inv h) sweep_inv); intros n l acc; by apply sweep_step_ok| | |].
    - by intros h [Hi _].
    - done.
    - done. }
  intros r. eapply (hoare_bind _ _ _ (fun _ h => sweep_inv h)).
  { apply hoare_modify. intros h Hi. exact Hi. }
  intros u. case_decide; [by apply hoare_ret|by apply hoare_throw].
Qed.
End sweep.

(** *** Expiring another restore point *)
Lemma slash_split a b c d : plain a -> plain c ->
  bytes a ++ "/"%char :: b = bytes c ++ "/"%char :: d -> a = c /\ b = d.
Proof.
  unfold plain. intros Ha Hc E. enough (bytes a = bytes c /\ b = d) as [?%bytes_inj ?] by done.
  revert Ha Hc E. generalize (bytes a) as x, (bytes c) as y. intros x. induction x as [|u x IH]; intros [|v y] Hx Hy E; cbn in E.
  - injection E as E. done.
  - injection E as E1 E2. subst v. exfalso. apply Hy. left.
  - injection E as E1 E2. subst u. exfalso. apply Hx. left.
  - injection E as -> E. apply not_elem_of_cons in Hx as [_ Hx], Hy as [_ Hy]. by destruct (IH y Hx Hy E) as [-> ->].
Qed.

Lemma point_keys_inj ns id ns2 id2 : plain ns -> plain ns2 ->
  objectKeyManifest ns id = objectKeyManifest ns2 id2 \/ objectKeyLocmap ns id = objectKeyLocmap ns2 id2 -> ns = ns2 /\ id = id2.
Proof.
  intros H1 H2 [E|E]; apply (f_equal bytes) in E; unfold objectKeyManifest, objectKeyLocmap in E; rewrite !bytes_app in E;
    apply app_inv_head in E; cbn [bytes] in E; apply slash_split in E as [-> E]; try done;
    apply (app_inv_head (bytes "manifests/")), app_inv_tail, bytes_inj in E; done.
Qed.

Lemma delete_point_key es Q ns id m ns2 id2 k fs h :
  plain ns -> plain ns2 -> (ns2, id2) <> (ns, id) -> k = objectKeyManifest ns2 id2 \/ k = objectKeyLocmap ns2 id2 ->
  restorable_by es Q (objs h) ns id m -> restorable_by es Q (objs (set_target (delete k (objs h)) fs h)) ns id m.
Proof.
  intros H1 H2 Hne Hk Hr. eapply restorable_mono; [exact Hr|]. intros k' b Hk' Hb. cbn. rewrite lookup_delete_ne; [done|].
  intros ->. apply Hne. destruct Hk as [-> | ->], Hk' as [E|[E|(e & _ & E)]].
  - destruct (point_keys_inj ns2 id2 ns id) as [-> ->]; auto.
  - by destruct (key_kinds ns2 id2 ns id).
  - by destruct (pack_key_other (lePack e) ns2 id2).
  - by destruct (key_kinds ns id ns2 id2).
  - destruct (point_keys_inj ns2 id2 ns id) as [-> ->]; auto.
  - by destruct (pack_key_other (lePack e) ns2 id2).
Qed.

Lemma ExpireRemote_ok es Q ns id m ns2 id2 :
  plain ns -> plain ns2 -> (ns2, id2) <> (ns, id) ->
  let P h := restorable_by es Q (objs h) ns id m in hoare P (ExpireRemote tk ns2 id2) (fun _ => P) P.
Proof.
  intros H1 H2 Hne P. unfold ExpireRemote.
  assert (forall k, k = objectKeyManifest ns2 id2 \/ k = objectKeyLocmap ns2 id2 -> hoare P (Remote.Delete k) (fun _ => P) P) as Hd.
  { intros k Hk. apply hoare_change. intros h fs Hi. pose proof (delete_point_key es Q ns id m ns2 id2 k fs h H1 H2 Hne Hk Hi). by split_and!. }
  eapply (hoare_bind _ _ _ (fun _ => P)).
  { apply hoare_attempt, hoare_get. by intros h fs Hi. }
  intros b. eapply (hoare_bind _ _ _ (fun _ => P)).
  { destruct (b ≫= open_locmap ns2) as [[|e l]|]; [by apply hoare_ret| |by apply hoare_ret].
    apply hoare_current. intros h0. apply hoare_modify. by intros h [_ Hi]. }
  intros u. eapply (hoare_bind _ _ _ (fun _ => P)); [by apply Hd; left|]. intros v. by apply Hd; right.
Qed.

(** C27: expiry and the sweep take nothing that is needed.  Whatever calls fail, a
    restore point that can be fetched before a sweep, or before another point is
    expired, can be fetched after it, by the same location map, and a sweep leaves every
    pack alone that holds a chunk of a local restore point. *)
Theorem sweep_keeps Q h ns id m :
  plain ns -> plain id -> ns <> "packs"%string -> restorable Q (objs h) ns id m ->
  restorable Q (objs (SweepRemote sealed tk h).2) ns id m /\
  (forall n, local_pack (hsys h) n -> objs (SweepRemote sealed tk h).2 !! objectKeyPack n = objs h !! objectKeyPack n) /\
  forall ns2 id2, plain ns2 -> (ns2, id2) <> (ns, id) -> restorable Q (objs (ExpireRemote tk ns2 id2 h).2) ns id m.
Proof.
  intros Hns Hid Hp [es Hr]. split_and!.
  - pose proof (SweepRemote_ok Q ns id m es Hns Hid Hp (hsys h) (objs h) h) as Hs.
    destruct (SweepRemote _ _ _) as [[a|e] h']; (destruct Hs as (_ & Hs & _); [by split_and!|]); by exists es.
  - pose proof (SweepRemote_ok Q ns id m es Hns Hid Hp (hsys h) (objs h) h) as Hs.
    destruct (SweepRemote _ _ _) as [[a|e] h']; (destruct Hs as (_ & _ & Hs); [by split_and!|]); exact Hs.
  - intros ns2 id2 H2 Hne. pose proof (ExpireRemote_ok es Q ns id m ns2 id2 Hns H2 Hne h Hr) as He.
    destruct (ExpireRemote _ _ _ _) as [[a|e] h']; by exists es.
Qed.
End expiry.

(** ** A concrete host: the repository of [Example1] and an empty target *)
Module Example2.
Import Example1.
Definition seal_none (_ : blob) : list byte := [].
Definition the_host : host := mkHost the_sys ∅ ∅ ∅ ∅ ∅ ∅ ∅ [].
Definition the_job : uploadJob := mkJob "ns" "p1" "".
Definition after_gc (h : host) : host := set_sys (run_ops (hsys h) (CollectGarbageWith name opts (Some 1000) (hsys h)).1) h.
Definition is_protected (h : host) : bool :=
  match LoadState h "ns" "p1" with Some st => bool_decide (Remote st = RemoteProtected) | None => false end.

(** A compaction between the two halves of [complete] moves the chunks into a pack that
    was not uploaded: the location map names it, the restore point is marked protected
    all the same, and it cannot be fetched. *)
Lemma compaction_race :
  let h1 := (complete_packs seal_none "t" the_job the_host).2 in
  let h2 := (complete_publish seal_none 5 the_job (after_gc h1)).2 in
  (complete_packs seal_none "t" the_job the_host).1 = Ok tt /\
  (complete_publish seal_none 5 the_job (after_gc h1)).1 = Ok tt /\ is_protected h2 = true /\
  (FetchRemote seal_none "ns" "p1" empty_disk h2).1 = Err (ObjectNotFound (objectKeyPack (name ["a"%byte]))).
Proof. cbn zeta. split_and!; by vm_compute. Qed.

(** The sweep deletes a pack, but the answer is lost: the pack stays noted as uploaded,
    also after the next sweep, so when it is written again it is not uploaded. *)
Definition swept_host : host :=
  mkHost (mkSys empty_disk ∅) {["t"%string := {[name data]}]} {["t"%string := {[name data]}]} ∅ ∅ ∅ ∅
    {[objectKeyPack (name data) := BPack data]} [Good; Lost true].

Lemma lost_delete :
  let h1 := (SweepRemote seal_none "t" swept_host).2 in
  let h2 := (SweepRemote seal_none "t" h1).2 in
  let h3 := (complete seal_none "t" 5 the_job (set_sys the_sys h2)).2 in
  (SweepRemote seal_none "t" h1).1 = Ok (mkSweep 1 0 0 0 0) /\ LoadUploaded h2 "t" = {[name data]} /\
  is_protected h3 = true /\
  (FetchRemote seal_none "ns" "p1" empty_disk h3).1 = Err (ObjectNotFound (objectKeyPack (name data))).
Proof. cbn zeta. split_and!; by vm_compute. Qed.

(** The location map cannot be read just when its point expires: the point is removed
    all the same and its packs are never swept. *)
Definition stored_host : host :=
  mkHost (mkSys empty_disk ∅) ∅ ∅ ∅ ∅ ∅ ∅
    (<[objectKeyPack (name data) := BPack data]>
       (<[objectKeyLocmap "ns" "p1" := BLocmap "ns" [mkLocEntry (chunk_id "a"%byte) (name data) 0 1]]>
         {[objectKeyManifest "ns" "p1" := BManifest "ns" (mkManifest "p1" "ns" "w" "web" 7 [[chunk_id "a"%byte]])]})) [].

Lemma expire_strands :
  let h1 := (ExpireRemote "t" "ns" "p1" (set_target (objs stored_host) [Lost false] stored_host)).2 in
  (ExpireRemote "t" "ns" "p1" (set_target (objs stored_host) [Lost false] stored_host)).1 = Ok tt /\
  map fst (map_to_list (objs h1)) = [objectKeyPack (name data)] /\ loadSweepCandidates h1 "t" = ∅.
Proof. cbn zeta. split_and!; by vm_compute. Qed.

Lemma host_fine : repo_ok name opens (hsys the_host) /\ target_ok name opens "t" the_host /\ sidecar "ns" "p1" the_host.
Proof.
  split_and!; [exact (proj1 sys_fine)| |].
  - split; [unfold packs_true; cbn; by intros n b ?%lookup_empty_Some|].
    assert (LoadUploaded the_host "t" = ∅) as -> by (by vm_compute). by intros n ?%elem_of_empty.
  - eexists. split; [by vm_compute|]. by vm_compute.
Qed.

Lemma stored_fine : restorable (fun c b => c = chunk_id "a"%byte /\ b = ["a"%byte]) (objs stored_host) "ns" "p1"
  (mkManifest "p1" "ns" "w" "web" 7 [[chunk_id "a"%byte]]).
Proof.
  exists [mkLocEntry (chunk_id "a"%byte) (name data) 0 1]. split_and!; [by vm_compute|by vm_compute|apply NoDup_singleton|done|].
  intros e ->%list_elem_of_singleton. exists data, ["a"%byte]. split_and!; [by vm_compute|done|done|done].
Qed.
End Example2.


Lemma sweep_keeps_witness :
  restorable (fun c b => c = Example1.chunk_id "a"%byte /\ b = ["a"%byte])
    (objs (SweepRemote Example2.seal_none "t" Example2.stored_host).2) "ns" "p1"
    (mkManifest "p1" "ns" "w" "web" 7 [[Example1.chunk_id "a"%byte]]).
Proof.
  apply (sweep_keeps Example2.seal_none "t" _ Example2.stored_host "ns" "p1").
  - apply (bool_decide_unpack _). by vm_compute.
  - apply (bool_decide_unpack _). by vm_compute.
  - done.
  - exact Example2.stored_fine.
Defined.
