(* ===== verification/Queue.v ===== *)
(** * The upload queue ([src/internal/backup/queue.go])

    The job directory, the dispatcher's choice of jobs, and what a worker does with one.
    The two are the transitions of the queue: a dispatcher pass and the end of a job may
    come in any order.  The clock, the random part of a delay and the text of an error
    are arguments. *)
From stdpp Require Import sorting.
From S2P Require Export Remote.
#[local] Open Scope remote_scope.

(** ** Job files *)
Definition firstNonEmpty (a b : string) : string := if decide (a = ""%string) then b else a.

Definition jobName (namespace backupID packID : string) : string :=
  (namespace +:+ "~~" +:+ backupID +:+ "~~" +:+ firstNonEmpty packID "manifest" +:+ ".job")%string.

Definition isManifestJob (name : string) : bool := HasSuffix name "~~manifest.job".

Definition jobGroup (name : string) : string :=
  match LastIndex name "~~" with
  | Some i => if decide (0 < Z.of_nat i) then ofBytes (take i (bytes name)) else name
  | None => name
  end.

Definition is_job (name : string) : bool := HasSuffix name ".job".
Definition is_failed (name : string) : bool := HasSuffix name ".failed".

(** [os.Rename]: the file keeps its time and takes the place of another. *)
Definition rename (old new : string) (q : gmap string qfile) : gmap string qfile :=
  match q !! old with None => q | Some f => <[new := f]> (delete old q) end.

Definition parkedName (name : string) : string := (TrimSuffix name ".job" +:+ ".failed")%string.
Definition rearmedName (name : string) : string := (TrimSuffix name ".failed" +:+ ".job")%string.

Definition set_qdir q (h : host) : host := set_queue q (inflight h) (attempts h) (notBefore h) h.

(** [EnqueueBackup] at the time [now]: a job per pack and one for the manifest. *)
Definition enqueue_jobs (now : Z) (st : PointState) (q : gmap string qfile) : gmap string qfile :=
  fold_left (fun q pk => <[jobName (Namespace st) (BackupID st) pk := mkFile now (Some (mkJob (Namespace st) (BackupID st) pk))]> q)
    (Packs st ++ [""%string]) q.

Definition packs_total (d : disk) (st : PointState) : Z :=
  fold_left (fun n pk => match packs d !! pk with Some data => n + Z.of_nat (length data) | None => n end) (Packs st) 0.

Definition EnqueueBackup (now : Z) (st : PointState) (h : host) : host :=
  let h1 := set_qdir (enqueue_jobs now st (qdir h)) h in
  let st' := set_upload (UploadStartedNS st) (UploadEndedNS st) 0 (packs_total (dsk (hsys h)) st)
               (set_error "" (set_remote RemoteQueued st)) in
  set_sys (apply_op (hsys h1) (WriteState st')) h1.

Definition sorted_names (q : gmap string qfile) : list string := sortNames (map fst (map_to_list q)).

(** [retryFailed] *)
Definition retryFailed (q : gmap string qfile) : gmap string qfile :=
  fold_left (fun q name => if is_failed name then rename name (rearmedName name) q else q) (sorted_names q) q.

(** [RemoveJobs] *)
Definition removeJobs (namespace backupID : string) (q : gmap string qfile) : gmap string qfile :=
  filter (fun p : string * qfile => HasPrefix p.1 (namespace +:+ "~~" +:+ backupID +:+ "~~") = false) q.

(** [countExt]: pack jobs only. *)
Definition countExt (ext : string) (q : gmap string qfile) : nat :=
  length (filter (fun n => HasSuffix n ext = true /\ HasSuffix (TrimSuffix n ext) "~~manifest" = false) (sorted_names q)).
Definition FailedJobs (h : host) : nat := countExt ".failed" (qdir h).
Definition PendingJobs (h : host) : nat := countExt ".job" (qdir h).

(** ** The dispatcher's pass *)
Record group := mkGroup { oldest : Z; gjobs : list string }.

Definition parked (q : gmap string qfile) : gset string :=
  list_to_set (map jobGroup (filter (fun n => is_failed n = true) (sorted_names q))).

Definition group_step (q : gmap string qfile) (pk : gset string) (acc : gmap string group) (name : string) : gmap string group :=
  if negb (is_job name) || bool_decide (jobGroup name ∈ pk) then acc
  else match q !! name with
       | None => acc
       | Some f =>
           let g := default (mkGroup (ModTime f) []) (acc !! jobGroup name) in
           <[jobGroup name := mkGroup (if decide (ModTime f < oldest g) then ModTime f else oldest g) (gjobs g ++ [name])]> acc
       end.

Definition groups (q : gmap string qfile) : gmap string group := fold_left (group_step q (parked q)) (sorted_names q) ∅.

(** The older group first; of the same age, the smaller name. *)
Definition oldest_of (gs : gmap string group) (a : string) : Z := default 0 (oldest <$> gs !! a).
Definition group_before (gs : gmap string group) (a b : string) : Prop :=
  oldest_of gs a < oldest_of gs b \/ (oldest_of gs a = oldest_of gs b /\ String.le a b).
#[export] Instance group_before_dec gs a b : Decision (group_before gs a b) := ltac:(unfold group_before; apply _).

(** One job of the chosen group: the jobs in flight and the jobs handed out. *)
Definition hand_step (packsLeft : nat) (now : Z) (nb : gmap string Z) (acc : gset string * list string) (name : string)
  : gset string * list string :=
  if isManifestJob name && bool_decide (0 < packsLeft)%nat then acc
  else if bool_decide (name ∈ acc.1) || bool_decide (now < default 0 (nb !! name)) then acc
  else ({[name]} ∪ acc.1, acc.2 ++ [name]).

Definition scan (now : Z) (h : host) : host * list string :=
  let gs := groups (qdir h) in
  match merge_sort (group_before gs) (map fst (map_to_list gs)) with
  | [] => (h, [])
  | k :: _ =>
      let js := sortNames (gjobs (default (mkGroup 0 []) (gs !! k))) in
      let packsLeft := length (filter (fun n => isManifestJob n = false) js) in
      let r := fold_left (hand_step packsLeft now (notBefore h)) js (inflight h, []) in
      (set_queue (qdir h) r.1 (attempts h) (notBefore h) h, r.2)
  end.

(** ** A worker *)
Record retryPolicy := mkPolicy { base : Z; maxDelay : Z; maxAttempts : nat }.
Definition Second : Z := 1000000000.
Definition queueRetry : retryPolicy := mkPolicy (2 * Second) (120 * Second) 10.

(** The delay after the [n]-th failure, without its random part. *)
Definition backoff (p : retryPolicy) (n : nat) : Z :=
  let d := i64 (Z.shiftl (base p) (Z.min (Z.of_nat n - 1) 16)) in
  if decide (maxDelay p < d \/ d <= 0) then maxDelay p else d.

Section worker.
Variable sealed : blob -> list byte.
Variable errText : remote_error -> string.     (* [sanitizeRemoteErr] of the error *)

Definition catch {A} (m : IO A) : IO (result remote_error A) := fun h => let '(r, h') := m h in (Ok r, h').

Definition done (name : string) : IO unit :=
  hmodify (fun h => set_queue (delete name (qdir h)) (inflight h) (delete name (attempts h)) (delete name (notBefore h)) h).

(** [fail]; [jitter] is the random part of the delay, [stopping] whether the queue is
    being stopped. *)
Definition fail (p : retryPolicy) (stopping : bool) (now jitter : Z) (name : string) (j : uploadJob) (e : remote_error) : IO unit :=
  if stopping then hret tt
  else
    h <- hcurrent ;;
    let n := S (default 0%nat (attempts h !! name)) in
    hmodify (fun h => set_queue (qdir h) (inflight h) (<[name := n]> (attempts h)) (notBefore h) h) ;;;
    if decide (maxAttempts p <= n)%nat then
      updateState j (fun st => Some (set_error (errText e) (set_remote RemoteFailed st))) ;;;
      hmodify (fun h => set_queue (rename name (parkedName name) (qdir h)) (inflight h)
                          (delete name (attempts h)) (delete name (notBefore h)) h)
    else
      updateState j (fun st => if decide (RemoteError st = errText e) then None else Some (set_error (errText e) st)) ;;;
      hmodify (fun h => set_queue (qdir h) (inflight h) (attempts h) (<[name := now + (backoff p n + jitter)]> (notBefore h)) h).

Definition mark_uploading (now : Z) (st : PointState) : option PointState :=
  if decide (Remote st = RemoteQueued \/ Remote st = RemoteFailed) then
    let st := set_remote RemoteUploading st in
    Some (if decide (UploadStartedNS st = 0) then set_upload now (UploadEndedNS st) (UploadedBytes st) (UploadTotalBytes st) st else st)
  else None.

Definition addProgress (j : uploadJob) (n : Z) : IO unit :=
  updateState j (fun st => Some (set_upload (UploadStartedNS st) (UploadEndedNS st) (UploadedBytes st + n) (UploadTotalBytes st) st)).

Definition run_job (p : retryPolicy) (stopping : bool) (now jitter : Z) (tk name : string) (j : uploadJob) : IO unit :=
  updateState j (mark_uploading now) ;;;
  if decide (jPackID j = ""%string) then
    r <- catch (complete sealed tk now j) ;;
    match r with Ok _ => done name | Err e => fail p stopping now jitter name j e end
  else
    h <- hcurrent ;;
    match packs (dsk (hsys h)) !! jPackID j with
    | None => done name
    | Some data =>
        r <- catch (putPack tk (jPackID j) data) ;;
        match r with
        | Ok _ => done name ;;; addProgress j (Z.of_nat (length data))
        | Err e => fail p stopping now jitter name j e
        end
    end.

Definition process (p : retryPolicy) (stopping : bool) (now jitter : Z) (tk name : string) : IO unit :=
  h <- hcurrent ;;
  match qdir h !! name with
  | None => hret tt
  | Some f =>
      match job f with
      | None => hmodify (fun h => set_qdir (rename name (parkedName name) (qdir h)) h)
      | Some j =>
          match LoadState h (jNamespace j) (jBackupID j) with
          | None => hmodify (fun h => set_qdir (delete name (qdir h)) h)
          | Some _ => run_job p stopping now jitter tk name j
          end
      end
  end ;;;
  hmodify (fun h => set_queue (qdir h) (inflight h ∖ {[name]}) (attempts h) (notBefore h) h).
End worker.
