(* ===== verification/QueueProps.v ===== *)
(** * The upload queue: protection, order, retries *)
From stdpp Require Import sorting.
From S2P Require Export Queue RemoteProps.
#[local] Open Scope remote_scope.

(** ** A job protects its restore point only through [complete] *)
Section protects.
Variable sealed : blob -> list byte.
Variable errText : remote_error -> string.

(** The restore point is not marked protected. *)
Definition unprotected (ns id : string) (h : host) : Prop :=
  forall st, LoadState h ns id = Some st -> Remote st <> RemoteProtected.

(** Every sidecar is stored under its own name. *)
Definition named (h : host) : Prop :=
  forall ns id st, LoadState h ns id = Some st -> Namespace st = ns /\ BackupID st = id.

Definition quiet (ns id : string) (h : host) : Prop := unprotected ns id h /\ named h.

Lemma keeps_hoare {A} (P : host -> Prop) (m : IO A) :
  (forall h h', hsys h' = hsys h -> P h -> P h') -> keeps m -> hoare P m (fun _ => P) P.
Proof. intros HP Hk h Hh. specialize (Hk h). destruct (m h) as [[a|e] h']; by eapply HP. Qed.

Lemma quiet_sys ns id h h' : hsys h' = hsys h -> quiet ns id h -> quiet ns id h'.
Proof. unfold quiet, unprotected, named, LoadState. by intros ->. Qed.

Definition keeps_name (f : PointState -> option PointState) : Prop :=
  forall st st', f st = Some st' -> Namespace st' = Namespace st /\ BackupID st' = BackupID st.

Lemma update_named j f : keeps_name f -> hoare named (updateState j f) (fun _ => named) named.
Proof.
  intros Hn h Hw. unfold updateState, hmodify. cbn. destruct (LoadState h _ _) as [st|] eqn:El; [|done].
  destruct (f st) as [st'|] eqn:Ef; [|done]. destruct (Hn _ _ Ef) as [En Ei]. intros ns id st2. unfold LoadState. cbn.
  destruct (decide ((Namespace st', BackupID st') = (ns, id))) as [[= <- <-]|Hne].
  - rewrite lookup_insert_eq. by intros [= <-].
  - rewrite lookup_insert_ne by done. apply Hw.
Qed.

Lemma update_quiet ns id j f :
  keeps_name f ->
  (forall st st', f st = Some st' -> Remote st <> RemoteProtected -> Remote st' <> RemoteProtected) \/
    (jNamespace j, jBackupID j) <> (ns, id) ->
  hoare (quiet ns id) (updateState j f) (fun _ => quiet ns id) (quiet ns id).
Proof.
  intros Hn Hf h [Hu Hw]. pose proof (update_named j f Hn h Hw) as Hw'. revert Hw'.
  unfold updateState, hmodify. cbn. destruct (LoadState h _ _) as [st|] eqn:El; [|done].
  destruct (f st) as [st'|] eqn:Ef; [|done]. intros Hw'. split; [|done].
  destruct (Hn _ _ Ef) as [En Ei]. destruct (Hw _ _ _ El) as [Wn Wi].
  intros st2. unfold LoadState. cbn. rewrite En, Ei, Wn, Wi.
  destruct (decide ((jNamespace j, jBackupID j) = (ns, id))) as [[= <- <-]|Hne].
  - rewrite lookup_insert_eq. intros [= <-]. destruct Hf as [Hf|Hf]; [|done]. eapply Hf; [done|]. by apply Hu.
  - rewrite lookup_insert_ne by done. apply Hu.
Qed.

Lemma keeps_LoadManifest ns id : keeps (LoadManifest ns id).
Proof. intros h. unfold LoadManifest, hbind, hcurrent. cbn. by destruct (snaps _ !! _) as [[m|]|]. Qed.

Lemma keeps_buildLocmap ns id : keeps (buildLocmap ns id).
Proof.
  unfold buildLocmap. apply keeps_bind; [apply keeps_LoadManifest|]. intros m. apply keeps_bind; [by intros h|].
  intros h. by destruct (fold_left _ _ _) as [[seen es]|].
Qed.

Lemma keeps_put_verified u o : keeps (put_verified sealed u o).
Proof.
  unfold put_verified. apply keeps_bind; [apply keeps_change_object|]. intros [].
  apply keeps_bind; [apply keeps_Head|]. intros r. by case_decide.
Qed.

(** After an error the point is not protected; after a success it is this job's point. *)
Definition settled (ns id : string) (j : uploadJob) (h : host) : Prop :=
  named h /\ ((jNamespace j, jBackupID j) = (ns, id) \/ quiet ns id h).

Lemma quiet_settled ns id j h : quiet ns id h -> settled ns id j h.
Proof. intros Hq. split; [apply Hq|by right]. Qed.

Lemma protect_settled ns id now j :
  hoare (quiet ns id) (updateState j (fun st => Some (protect now st))) (fun _ => settled ns id j) (quiet ns id).
Proof.
  assert (keeps_name (fun st => Some (protect now st))) as Hn by (intros st st' [= <-]; done).
  intros h Hq. destruct (decide ((jNamespace j, jBackupID j) = (ns, id))) as [E|E].
  - pose proof (update_named j _ Hn h (proj2 Hq)) as Hw. unfold updateState, hmodify in *. split; [exact Hw|by left].
  - pose proof (update_quiet ns id j _ Hn (or_intror E) h Hq) as Hw. unfold updateState, hmodify in *. by apply quiet_settled.
Qed.

Lemma complete_quiet ns id tk now j :
  hoare (quiet ns id) (complete sealed tk now j) (fun _ => settled ns id j) (quiet ns id).
Proof.
  pose proof (quiet_sys ns id) as Hs. unfold complete. apply hoare_current. intros h0.
  destruct (LoadState h0 _ _); [|apply hoare_ret; intros h [_ Hq]; by apply quiet_settled].
  eapply (hoare_bind _ _ _ (fun _ => quiet ns id)).
  { eapply hoare_conseq; [apply (keeps_hoare _ _ Hs), keeps_complete_packs|by intros h [_ ?]|done|done]. }
  intros []. unfold complete_publish. eapply hoare_bind; [apply (keeps_hoare _ _ Hs), keeps_LoadManifest|]. intros m.
  eapply (hoare_bind _ _ _ (fun _ => quiet ns id)); [apply update_quiet; [by intros st st' [= <-]|left; by intros st st' [= <-]]|].
  intros []. eapply hoare_bind; [apply (keeps_hoare _ _ Hs), keeps_buildLocmap|]. intros b.
  eapply (hoare_bind _ _ _ (fun _ => quiet ns id)); [apply (keeps_hoare _ _ Hs), keeps_forM; intros; apply keeps_put_verified|].
  intros []. apply protect_settled.
Qed.

Lemma fail_quiet ns id p stopping now jitter name j e :
  hoare (quiet ns id) (fail errText p stopping now jitter name j e) (fun _ => quiet ns id) (quiet ns id).
Proof.
  unfold fail. destruct stopping; [by apply hoare_ret|]. apply hoare_current. intros h0.
  eapply (hoare_bind _ _ _ (fun _ => quiet ns id)); [apply hoare_modify; by intros h [_ Hq]|]. intros u.
  case_decide; (eapply (hoare_bind _ _ _ (fun _ => quiet ns id)); [apply update_quiet|intros v; apply hoare_modify; by intros h Hq]).
  - by intros st st' [= <-].
  - left. by intros st st' [= <-].
  - intros st st'. case_decide; [done|]. by intros [= <-].
  - left. intros st st'. case_decide; [done|]. by intros [= <-].
Qed.
End protects.

(** ** What a job does to the target *)
Section process.
Variable sealed : blob -> list byte.
Variable errText : remote_error -> string.
Variable packName : list byte -> string.
Variable sealed_ok : KeyID -> list byte -> Prop.
Context (Hname : names_unique packName sealed_ok).
Variable tk : string.
Context (s0 : sys) (Hs0 : repo_ok packName sealed_ok s0) (o0 : gmap string blob).
Context (ns id : string) (m : Manifest) (Hm : snaps (dsk s0) !! (ns, id) = Some (Some m)).

#[local] Abbreviation inv := (inv packName sealed_ok tk s0 o0).

Definition sound (h : host) : Prop :=
  inv h /\ named h /\ (unprotected ns id h \/ restorable (local_bytes sealed_ok s0) (objs h) ns id m).

Lemma sound_quiet h : inv h -> quiet ns id h -> sound h.
Proof. intros Hi [Hu Hn]. split_and!; [done|done|by left]. Qed.

Lemma hoare_catch {A} (c : IO A) (P : host -> Prop) Q E E' :
  hoare P c Q E -> hoare P (catch c) (fun r h => match r with Ok a => Q a h | Err _ => E h end) E'.
Proof. intros H h HP. specialize (H h HP). unfold catch. by destruct (c h) as [[a|e] h']. Qed.

Lemma complete_nothing now j h :
  inv h -> sidecar (jNamespace j) (jBackupID j) h ->
  (forall m, snaps (dsk s0) !! (jNamespace j, jBackupID j) <> Some (Some m)) ->
  complete sealed tk now j h = (Err ManifestMissing, h).
Proof.
  intros (Hl & _) (st & Hst & _) Hno. unfold complete, hbind, hcurrent. rewrite Hst.
  unfold complete_packs, packsFor, hbind. rewrite (LoadManifest_eval s0 _ _ h Hl).
  destruct (snaps (dsk s0) !! (jNamespace j, jBackupID j)) as [[m'|]|] eqn:E; [|done|done]. by destruct (Hno m').
Qed.

Lemma complete_sound now j :
  hoare (fun h => inv h /\ quiet ns id h /\ sidecar (jNamespace j) (jBackupID j) h) (complete sealed tk now j)
        (fun _ h => sound h) (fun h => inv h /\ quiet ns id h).
Proof.
  intros h (Hi & Hq & Hsc). pose proof (complete_quiet sealed ns id tk now j h Hq) as Hc.
  destruct (snaps (dsk s0) !! (jNamespace j, jBackupID j)) as [[mj|]|] eqn:E.
  - pose proof (complete_ok sealed packName sealed_ok Hname tk s0 Hs0 o0 now j mj E h (conj Hi Hsc)) as Ho.
    destruct (complete sealed tk now j h) as [[[]|e] h']; [|done]. destruct Ho as (Hi' & _ & Hr).
    destruct Hc as [Hn [[= En Eid]|Hq']]; [|by apply sound_quiet]. split_and!; [done|done|right].
    rewrite En, Eid in *. rewrite Hm in E. by injection E as ->.
  - rewrite (complete_nothing now j h Hi Hsc); [done|]. intros m'. by rewrite E.
  - rewrite (complete_nothing now j h Hi Hsc); [done|]. intros m'. by rewrite E.
Qed.

Lemma update_inv_ok j f : hoare inv (updateState j f) (fun _ => inv) inv.
Proof. intros h Hi. unfold updateState, hmodify. by apply (update_inv packName sealed_ok tk s0 o0 j f h Hi). Qed.

Lemma hoare_and {A} (c : IO A) (P P' : host -> Prop) Q Q' E E' :
  hoare P c Q E -> hoare P' c Q' E' ->
  hoare (fun h => P h /\ P' h) c (fun a h => Q a h /\ Q' a h) (fun h => E h /\ E' h).
Proof. intros H1 H2 h [HP HP']. specialize (H1 h HP). specialize (H2 h HP'). by destruct (c h) as [[a|e] h']. Qed.

(** Anything that changes only the queue. *)
Lemma queue_only (P : host -> Prop) f :
  (forall h, exists q i a n, f h = set_queue q i a n h) ->
  (forall h q i a n, P h -> P (set_queue q i a n h)) -> hoare P (hmodify f) (fun _ => P) P.
Proof. intros Hf HP. apply hoare_modify. intros h Hh. destruct (Hf h) as (q & i & a & n & ->). by apply HP. Qed.

Lemma sound_queue h q i a n : sound h -> sound (set_queue q i a n h).
Proof. done. Qed.

Lemma fail_sound p stopping now jitter name j e :
  hoare (fun h => inv h /\ quiet ns id h) (fail errText p stopping now jitter name j e) (fun _ h => sound h) sound.
Proof.
  eapply hoare_conseq; [eapply (hoare_and _ inv _ (fun _ => inv) _ inv); [|apply (fail_quiet errText ns id p stopping now jitter name j e)]|done| |].
  - unfold fail. destruct stopping; [apply (hoare_ret _ inv (fun _ => inv) inv); by intros h|]. apply hoare_current. intros h0.
    eapply (hoare_bind _ _ _ (fun _ => inv)); [apply hoare_modify; by intros h [_ Hi]|]. intros u.
    case_decide; (eapply (hoare_bind _ _ _ (fun _ => inv)); [apply update_inv_ok|intros v; apply hoare_modify; by intros h Hi]).
  - intros u h [Hi Hq]. by apply sound_quiet.
  - intros h [Hi Hq]. by apply sound_quiet.
Qed.

Lemma putPack_inv n data :
  packs (dsk s0) !! n = Some data -> hoare inv (putPack tk n data) (fun _ => inv) inv.
Proof.
  intros Hd. unfold putPack. eapply (hoare_bind _ _ _ (fun _ h => inv h /\ is_Some (objs h !! objectKeyPack n))).
  - apply hoare_change. intros h fs Hi. pose proof (put_pack_inv packName sealed_ok Hname tk s0 Hs0 o0 n data h fs Hi Hd).
    split_and!; try done. cbn. by rewrite lookup_insert_eq.
  - intros []. apply hoare_modify. intros h [Hi Hn]. by apply (mark_inv packName sealed_ok tk s0 o0 n h).
Qed.

Lemma keeps_putPack n data : keeps (putPack tk n data).
Proof. unfold putPack. apply keeps_bind; [apply keeps_change_object|]. intros []. apply keeps_MarkUploaded. Qed.

Lemma mark_name now : keeps_name (mark_uploading now).
Proof. intros st st'. unfold mark_uploading. case_decide; [|done]. intros [= <-]. by case_decide. Qed.

Lemma mark_unprotected now st st' :
  mark_uploading now st = Some st' -> Remote st <> RemoteProtected -> Remote st' <> RemoteProtected.
Proof. unfold mark_uploading. case_decide; [|done]. intros [= <-] _. by case_decide. Qed.

Lemma mark_sidecar now j h : named h -> is_Some (LoadState h (jNamespace j) (jBackupID j)) ->
  is_Some (LoadState (updateState j (mark_uploading now) h).2 (jNamespace j) (jBackupID j)).
Proof.
  intros Hn [st Hst]. unfold updateState, hmodify. cbn. rewrite Hst. destruct (mark_uploading now st) as [st'|] eqn:E; [|by eexists].
  destruct (mark_name now st st' E) as [En Ei]. destruct (Hn _ _ _ Hst) as [Wn Wi].
  unfold LoadState. cbn. rewrite En, Ei, Wn, Wi, lookup_insert_eq. by eexists.
Qed.

Lemma run_job_sound p stopping now jitter name j :
  hoare (fun h => inv h /\ quiet ns id h /\ is_Some (LoadState h (jNamespace j) (jBackupID j)))
        (run_job sealed errText p stopping now jitter tk name j) (fun _ => sound) sound.
Proof.
  unfold run_job. eapply (hoare_bind _ _ _ (fun _ h => inv h /\ quiet ns id h /\ sidecar (jNamespace j) (jBackupID j) h)).
  { intros h (Hi & Hq & Hl). pose proof (update_inv_ok j (mark_uploading now) h Hi) as Hi'.
    pose proof (update_quiet ns id j _ (mark_name now) (or_introl (mark_unprotected now)) h Hq) as Hq'.
    pose proof (mark_sidecar now j h (proj2 Hq) Hl) as [st Hst]. unfold updateState, hmodify in *. cbn in Hst. split_and!; [done|done|].
    exists st. split; [done|]. by apply (proj2 Hq'). }
  intros []. case_decide as Hj.
  - eapply hoare_bind; [apply hoare_catch, complete_sound|]. intros [[]|e].
    + apply queue_only; [by intros h; eexists _, _, _, _|done].
    + apply fail_sound.
  - apply hoare_current. intros h0. destruct (packs (dsk (hsys h0)) !! jPackID j) as [data|] eqn:Ed.
    2:{ eapply hoare_conseq; [apply (queue_only sound); [by intros h; eexists _, _, _, _|done]| |done|done].
        intros h (-> & Hi & Hq & _). by apply sound_quiet. }
    apply (hoare_pure (packs (dsk s0) !! jPackID j = Some data)); [intros h (-> & ((_ & <- & _) & _) & _); done|]. intros Hd.
    eapply hoare_bind.
    + eapply hoare_conseq; [apply hoare_catch, hoare_and; [by apply (putPack_inv (jPackID j) data)|apply (keeps_hoare (quiet ns id)), keeps_putPack; apply quiet_sys]| | |].
      * intros h (_ & Hi & Hq & _). by split.
      * intros r h H. exact H.
      * intros h H. exact H.
    + intros [[]|e]; [|apply fail_sound]. eapply (hoare_bind _ _ _ (fun _ h => inv h /\ quiet ns id h)).
      * eapply hoare_conseq; [apply (queue_only (fun h => inv h /\ quiet ns id h)); [by intros h; eexists _, _, _, _|done]|done|done|].
        intros h [Hi Hq]. by apply sound_quiet.
      * intros []. eapply hoare_conseq; [apply hoare_and; [apply update_inv_ok|apply (update_quiet ns id j)]|done| |].
        -- by intros st st' [= <-].
        -- left. by intros st st' [= <-].
        -- intros u h [Hi Hq]. by apply sound_quiet.
        -- intros h [Hi Hq]. by apply sound_quiet.
Qed.

Lemma process_sound p stopping now jitter name :
  hoare (fun h => inv h /\ quiet ns id h) (process sealed errText p stopping now jitter tk name) (fun _ => sound) sound.
Proof.
  unfold process. apply hoare_current. intros h0.
  eapply (hoare_bind _ _ _ (fun _ => sound)); [|intros u; apply queue_only; [by intros h; eexists _, _, _, _|done]].
  destruct (qdir h0 !! name) as [f|]; [|apply hoare_ret; intros h (_ & Hi & Hq); by apply sound_quiet].
  destruct (job f) as [j|]; [destruct (LoadState h0 _ _) eqn:El|].
  - eapply hoare_conseq; [apply run_job_sound| |done|done]. intros h (-> & Hi & Hq). split_and!; [done|done|]. by rewrite El.
  - apply hoare_modify. intros h (_ & Hi & Hq). by apply (sound_quiet _).
  - apply hoare_modify. intros h (_ & Hi & Hq). by apply (sound_quiet _).
Qed.
End process.

(** ** Delays *)
Lemma backoff_value n : (1 <= n)%nat -> backoff queueRetry n = Z.min (2 * Second * 2 ^ (Z.of_nat n - 1)) (120 * Second).
Proof.
  intros Hn. unfold backoff. cbn [base maxDelay queueRetry].
  assert (Z.shiftl (2 * Second) (Z.min (Z.of_nat n - 1) 16) = 2 * Second * 2 ^ Z.min (Z.of_nat n - 1) 16) as ->
    by (apply Z.shiftl_mul_pow2; lia).
  destruct (Z.le_gt_cases (Z.of_nat n - 1) 16) as [Hs|Hs].
  - rewrite Z.min_l by lia. assert (1 <= 2 ^ (Z.of_nat n - 1) <= 2 ^ 16) as Hp.
    { split; [apply (Z.pow_le_mono_r 2 0); lia|apply Z.pow_le_mono_r; lia]. }
    unfold Second in *. rewrite i64_id by lia. case_decide; lia.
  - rewrite Z.min_r by lia. assert (2 ^ 17 <= 2 ^ (Z.of_nat n - 1)) by (apply Z.pow_le_mono_r; lia).
    unfold Second in *. rewrite i64_id by lia. case_decide; lia.
Qed.

(** ** The dispatcher *)
Section scan.
Context (q : gmap string qfile).

Definition ready (n : string) : Prop := is_Some (q !! n) /\ is_job n = true /\ jobGroup n ∉ parked q.
#[local] Instance ready_dec n : Decision (ready n) := ltac:(unfold ready; apply _).

Definition mtime (n : string) : Z := default 0 (ModTime <$> q !! n).

Lemma sorted_names_spec : NoDup (sorted_names q) /\ forall n, n ∈ sorted_names q <-> is_Some (q !! n).
Proof.
  unfold sorted_names, sortNames. split.
  - rewrite merge_sort_Permutation. apply NoDup_fst_map_to_list.
  - intros n. rewrite merge_sort_Permutation, list_elem_of_fmap. split.
    + intros ([k v] & -> & Hk%elem_of_map_to_list). by exists v.
    + intros [v Hv]. exists (n, v). split; [done|by apply elem_of_map_to_list].
Qed.

(** A group is the ready jobs of its name, and [oldest] is the least of their times. *)
Definition group_ok (l : list string) (gs : gmap string group) : Prop :=
  forall g, match gs !! g with
       | None => filter (fun n => ready n /\ jobGroup n = g) l = []
       | Some G => gjobs G = filter (fun n => ready n /\ jobGroup n = g) l /\
                   (exists n, n ∈ gjobs G /\ mtime n = oldest G) /\ forall n, n ∈ gjobs G -> oldest G <= mtime n
       end.

Lemma group_step_ok l gs n : is_Some (q !! n) -> group_ok l gs -> group_ok (l ++ [n]) (group_step q (parked q) gs n).
Proof.
  intros [f Hf] Hok g. unfold group_step. rewrite Hf.
  destruct (negb (is_job n) || bool_decide (jobGroup n ∈ parked q)) eqn:Eb.
  { assert (~ ready n) as Hn.
    { intros (_ & Hj & Hp). apply orb_true_iff in Eb as [Eb|Eb]; [by rewrite Hj in Eb|]. by apply bool_decide_eq_true in Eb. }
    specialize (Hok g). destruct (gs !! g) as [G|]; rewrite filter_snoc, decide_False by naive_solver; done. }
  assert (ready n) as Hr.
  { apply orb_false_iff in Eb as [E1 E2]. apply negb_false_iff in E1. apply bool_decide_eq_false in E2. split_and!; [by eexists|done|done]. }
  clear Eb. assert (mtime n = ModTime f) as Em by (unfold mtime; by rewrite Hf).
  specialize (Hok g). destruct (decide (g = jobGroup n)) as [->|Hne].
  - rewrite lookup_insert_eq, filter_snoc, (decide_True (P := ready n /\ jobGroup n = jobGroup n)) by done. cbn [gjobs oldest].
    destruct (gs !! jobGroup n) as [G|]; cbn [default from_option id gjobs oldest].
    + destruct Hok as (-> & (k & Hk & Hk2) & Hmin). split_and!; [done| |].
      * case_decide; [exists n; split; [set_solver|done]|]. exists k. split; [set_solver|done].
      * intros k' [Hk'| ->%list_elem_of_singleton]%elem_of_app; [pose proof (Hmin k' Hk')|]; case_decide; lia.
    + rewrite Hok. split_and!; [done| |].
      * exists n. split; [set_solver|]. case_decide; lia.
      * intros k ->%list_elem_of_singleton. case_decide; lia.
  - rewrite lookup_insert_ne by done. destruct (gs !! g) as [G|]; rewrite filter_snoc, decide_False by naive_solver; done.
Qed.

Lemma groups_ok : group_ok (sorted_names q) (groups q).
Proof.
  unfold groups. assert (forall l l' gs, (forall n, n ∈ l' -> is_Some (q !! n)) -> group_ok l gs ->
    group_ok (l ++ l') (fold_left (group_step q (parked q)) l' gs)) as H.
  { intros l l'. revert l. induction l' as [|n l' IH]; intros l gs Hs Hok; cbn [fold_left]; [by rewrite app_nil_r|].
    rewrite cons_middle, app_assoc. apply IH; [intros k Hk; apply Hs; by right|]. apply group_step_ok; [apply Hs; by left|done]. }
  apply (H []); [intros n Hn; by apply sorted_names_spec|]. intros g. by rewrite lookup_empty.
Qed.

Lemma group_jobs g G : groups q !! g = Some G -> forall n, n ∈ gjobs G <-> ready n /\ jobGroup n = g.
Proof.
  intros Hg n. pose proof (groups_ok g) as H. rewrite Hg in H. destruct H as (-> & _). rewrite list_elem_of_filter.
  split; [by intros [? _]|]. intros Hn. split; [done|]. apply sorted_names_spec, Hn.
Qed.

Lemma group_of n : ready n -> is_Some (groups q !! jobGroup n).
Proof.
  intros Hr. pose proof (groups_ok (jobGroup n)) as H. destruct (groups q !! jobGroup n); [by eexists|].
  exfalso. apply (proj1 (filter_nil _ _) H n); [apply sorted_names_spec, Hr|done].
Qed.

#[local] Instance group_before_trans gs : Transitive (group_before gs).
Proof.
  intros a b c [H1|[H1 L1]] [H2|[H2 L2]]; unfold group_before; [left; lia|left; lia|left; lia|].
  right. split; [lia|]. by etrans.
Qed.
#[local] Instance group_before_total gs : Total (group_before gs).
Proof.
  intros a b. unfold group_before. destruct (Z.lt_total (oldest_of gs a) (oldest_of gs b)) as [H|[H|H]].
  - left. by left.
  - destruct (total String.le a b); [left|right]; right; split; (done || lia).
  - right. left. lia.
Qed.

Lemma head_oldest k l :
  merge_sort (group_before (groups q)) (map fst (map_to_list (groups q))) = k :: l ->
  is_Some (groups q !! k) /\ forall g, is_Some (groups q !! g) -> oldest_of (groups q) k <= oldest_of (groups q) g.
Proof.
  intros E. pose proof (merge_sort_Permutation (group_before (groups q)) (map fst (map_to_list (groups q)))) as Hp.
  pose proof (StronglySorted_merge_sort (group_before (groups q)) (map fst (map_to_list (groups q)))) as Hs.
  rewrite E in Hp, Hs. apply StronglySorted_inv in Hs as [_ Hs]. rewrite Forall_forall in Hs.
  assert (forall g, is_Some (groups q !! g) <-> g ∈ k :: l) as Hin.
  { intros g. rewrite Hp, list_elem_of_fmap. split.
    - intros [v Hv]. exists (g, v). split; [done|by apply elem_of_map_to_list].
    - intros ([g' v] & -> & Hk%elem_of_map_to_list). by exists v. }
  split; [apply Hin; by left|]. intros g Hg%Hin. apply elem_of_cons in Hg as [->|Hg]; [done|].
  destruct (Hs g Hg) as [H|[H _]]; lia.
Qed.

(** The jobs handed out. *)
Lemma hand_loop left now nb js fl out :
  NoDup js ->
  let r := fold_left (hand_step left now nb) js (fl, out) in
  exists new, r.2 = out ++ new /\ NoDup new /\ r.1 = fl ∪ list_to_set new /\
    forall n, n ∈ new <-> n ∈ js /\ n ∉ fl /\ default 0 (nb !! n) <= now /\ (isManifestJob n = true -> left = 0%nat).
Proof.
  revert fl out. induction js as [|n js IH]; intros fl out Hnd; cbn zeta.
  { exists []. rewrite app_nil_r. split_and!; [done|constructor|cbn; set_solver|]. intros n. split; [by intros ?%not_elem_of_nil|].
    by intros [?%not_elem_of_nil _]. }
  apply NoDup_cons in Hnd as [Hn Hnd]. cbn [fold_left].
  assert (hand_step left now nb (fl, out) n =
    if isManifestJob n && bool_decide (0 < left)%nat then (fl, out)
    else if bool_decide (n ∈ fl) || bool_decide (now < default 0 (nb !! n)) then (fl, out)
    else ({[n]} ∪ fl, out ++ [n])) as -> by done.
  assert (forall left', (isManifestJob n && bool_decide (0 < left')%nat = false) <-> (isManifestJob n = true -> left' = 0%nat)) as Hm.
  { intros l'. destruct (isManifestJob n), l' as [|l']; cbn; split; try done. by intros H%(fun H => H eq_refl). }
  destruct (isManifestJob n && bool_decide (0 < left)%nat) eqn:E1; [|destruct (bool_decide (n ∈ fl) || bool_decide (now < default 0 (nb !! n))) eqn:E2].
  - destruct (IH fl out Hnd) as (new & H1 & H2 & H3 & H4). exists new. split_and!; [exact H1|exact H2|exact H3|]. intros k. rewrite H4, elem_of_cons.
    split; [naive_solver|]. intros ([->|Hk] & Hr); [|done]. exfalso. destruct Hr as (_ & _ & Hl). apply Hm in Hl. congruence.
  - destruct (IH fl out Hnd) as (new & H1 & H2 & H3 & H4). exists new. split_and!; [exact H1|exact H2|exact H3|]. intros k. rewrite H4, elem_of_cons.
    split; [naive_solver|]. intros ([->|Hk] & Hr); [|done]. exfalso. destruct Hr as (Hf & Ht & _).
    apply orb_true_iff in E2 as [E2|E2]; apply bool_decide_eq_true in E2; [done|lia].
  - apply orb_false_iff in E2 as [E2 E3]. apply bool_decide_eq_false in E2, E3.
    destruct (IH ({[n]} ∪ fl) (out ++ [n]) Hnd) as (new & H1 & H2 & H3 & H4). exists (n :: new). split_and!.
    + by rewrite H1, <- app_assoc.
    + apply NoDup_cons. split; [|done]. intros Hin. apply H4 in Hin as [Hin _]. done.
    + rewrite H3. cbn. set_solver.
    + intros k. rewrite !elem_of_cons, H4, elem_of_union, elem_of_singleton. destruct (decide (k = n)) as [->|Hne].
      * split; [|by left]. intros _. split_and!; [by left|done|lia|by apply Hm].
      * naive_solver.
Qed.
End scan.

(** The dispatcher works on the oldest restore point.  The jobs it hands out are
    exactly those of one group, the oldest that has jobs and none parked, which are not
    in flight and whose delay is over; the manifest's job only when no pack's job of the
    group is left; each once.  They are then in flight, and the job files are untouched. *)
Theorem scan_oldest now h :
  let q := qdir h in
  let '(h', names) := scan now h in
  ((forall n, ~ ready q n) /\ names = [] /\ h' = h) \/
  exists g, (exists n, ready q n /\ jobGroup n = g) /\
    (forall n, ready q n -> exists n0, ready q n0 /\ jobGroup n0 = g /\ mtime q n0 <= mtime q n) /\
    (forall n, n ∈ names <-> ready q n /\ jobGroup n = g /\ n ∉ inflight h /\ default 0 (notBefore h !! n) <= now /\
       (isManifestJob n = true -> forall n', ready q n' -> jobGroup n' = g -> isManifestJob n' = true)) /\
    NoDup names /\ h' = set_queue q (inflight h ∪ list_to_set names) (attempts h) (notBefore h) h.
Proof.
  cbn zeta. unfold scan. set (q := qdir h).
  destruct (merge_sort (group_before (groups q)) (map fst (map_to_list (groups q)))) as [|k l] eqn:E.
  - left. split_and!; [|done|done]. intros n Hn. destruct (group_of q n Hn) as [G HG].
    assert (jobGroup n ∈ map fst (map_to_list (groups q))) as Hin.
    { apply list_elem_of_fmap. exists (jobGroup n, G). split; [done|by apply elem_of_map_to_list]. }
    rewrite <- (merge_sort_Permutation (group_before (groups q))), E in Hin. by apply not_elem_of_nil in Hin.
  - right. destruct (head_oldest q k l E) as [[G HG] Hold]. rewrite HG. cbn [default from_option id].
    pose proof (groups_ok q k) as Hk. rewrite HG in Hk. destruct Hk as (Hjobs & (n0 & Hn0 & Hm0) & Hmin).
    pose proof (group_jobs q k G HG) as Hg.
    assert (Hsort : forall n, n ∈ sortNames (gjobs G) <-> ready q n /\ jobGroup n = k).
    { intros n. unfold sortNames. rewrite merge_sort_Permutation. apply Hg. }
    assert (Hnd : NoDup (sortNames (gjobs G))).
    { unfold sortNames. rewrite merge_sort_Permutation, Hjobs. apply NoDup_filter, sorted_names_spec. }
    set (left := length (filter _ _)).
    destruct (hand_loop left now (notBefore h) (sortNames (gjobs G)) (inflight h) [] Hnd) as (new & R1 & R2 & R3 & R4).
    exists k. split_and!.
    + exists n0. by apply Hg.
    + intros n Hn. exists n0. destruct (proj1 (Hg n0) Hn0). split_and!; [done|done|].
      destruct (group_of q n Hn) as [G' HG']. pose proof (Hold (jobGroup n)) as Ho. unfold oldest_of in Ho. rewrite HG, HG' in Ho. cbn in Ho.
      pose proof (groups_ok q (jobGroup n)) as Hk'. rewrite HG' in Hk'. destruct Hk' as (_ & _ & Hmin').
      rewrite Hm0. etrans; [apply Ho; by eexists|]. apply Hmin'. by apply (group_jobs q (jobGroup n) G' HG').
    + intros n. rewrite R1. cbn [app]. rewrite R4, Hsort.
      assert (left = 0%nat <-> forall n', ready q n' -> jobGroup n' = k -> isManifestJob n' = true) as ->; [|tauto].
      unfold left. rewrite length_zero_iff_nil, filter_nil. split.
      * intros H n' Hr' Hg'. specialize (H n' (proj2 (Hsort n') (conj Hr' Hg'))). by destruct (isManifestJob n').
      * intros H n' Hn'%Hsort. destruct Hn' as [Hr' Hg']. by rewrite (H n' Hr' Hg').
    + by rewrite R1.
    + by rewrite R3, R1.
Qed.

(** ** Retries *)
Section retries.
Variable errText : remote_error -> string.
Variables (name : string) (j : uploadJob).

(** Failures one after the other: the time, the random part of the delay and the error of each. *)
Definition failures (l : list (Z * Z * remote_error)) : IO unit :=
  hforM (fun _ f => fail errText queueRetry false f.1.1 f.1.2 name j f.2) l tt.

Lemma fail_early now jitter e h k :
  default 0%nat (attempts h !! name) = k -> (k < 9)%nat ->
  exists h', fail errText queueRetry false now jitter name j e h = (Ok tt, h') /\ qdir h' = qdir h /\
    attempts h' !! name = Some (S k) /\
    notBefore h' !! name = Some (now + (Z.min (2 * Second * 2 ^ Z.of_nat k) (120 * Second) + jitter)).
Proof.
  intros Hk Hlt. unfold fail, hbind, hcurrent, hmodify, updateState. cbn -[backoff]. rewrite Hk.
  rewrite decide_False by (cbn; lia). rewrite backoff_value by lia.
  replace (Z.of_nat (S k) - 1) with (Z.of_nat k) by lia.
  eexists. split; [done|]. cbn. unfold LoadState. cbn.
  destruct (states _ !! _) as [st|]; [case_decide|]; cbn; by rewrite !lookup_insert_eq.
Qed.

Lemma failures_early l h k :
  default 0%nat (attempts h !! name) = k -> (k + length l <= 9)%nat ->
  exists h', failures l h = (Ok tt, h') /\ qdir h' = qdir h /\ default 0%nat (attempts h' !! name) = (k + length l)%nat.
Proof.
  revert h k. induction l as [|[[now jitter] e] l IH]; intros h k Hk Hl; cbn in Hl.
  { exists h. cbn. split_and!; [done|done|lia]. }
  destruct (fail_early now jitter e h k Hk ltac:(lia)) as (h1 & E1 & Q1 & A1 & _).
  destruct (IH h1 (S k)) as (h2 & E2 & Q2 & A2); [by rewrite A1|cbn; lia|].
  exists h2. split_and!; [|by rewrite Q2|rewrite A2; cbn; lia].
  unfold failures in *. cbn [hforM]. unfold hbind. cbn [fst snd]. by rewrite E1.
Qed.

Lemma failures_app l l' h : failures (l ++ l') h = hbind (failures l) (fun _ => failures l') h.
Proof.
  unfold failures. revert h. induction l as [|a l IH]; intros h; [done|]. cbn [app hforM]. unfold hbind at 1.
  destruct (fail _ _ _ _ _ _ _ _ h) as [[[]|e] h'] eqn:E; unfold hbind; rewrite E; [|done]. rewrite IH. done.
Qed.
End retries.

(** How a failing job is retried.  Before its tenth failure in a row the job stays
    queued and waits two seconds doubled at each failure, at most two minutes, and the
    random part; at the tenth it is parked, keeping its time, and its counters are
    reset.  Re-arming gives a parked job its name back. *)
Theorem retries errText name j h l now jitter e :
  attempts h !! name = None ->
  ((length l < 9)%nat -> exists h', failures errText name j (l ++ [(now, jitter, e)]) h = (Ok tt, h') /\ qdir h' = qdir h /\
     notBefore h' !! name = Some (now + (Z.min (2 * Second * 2 ^ Z.of_nat (length l)) (120 * Second) + jitter))) /\
  (length l = 9%nat -> exists h', failures errText name j (l ++ [(now, jitter, e)]) h = (Ok tt, h') /\
     qdir h' = rename name (parkedName name) (qdir h) /\ attempts h' !! name = None /\ notBefore h' !! name = None) /\
  (is_job name = true -> rearmedName (parkedName name) = name).
Proof.
  intros Hn. split_and!.
  - intros Hl. destruct (failures_early errText name j l h 0) as (h1 & E1 & Q1 & A1); [by rewrite Hn|cbn; lia|].
    destruct (fail_early errText name j now jitter e h1 (length l) A1 ltac:(lia)) as (h2 & E2 & Q2 & _ & N2).
    exists h2. rewrite failures_app. unfold hbind. rewrite E1. unfold failures. cbn [hforM]. unfold hbind. cbn [fst snd]. rewrite E2.
    split_and!; [done|by rewrite Q2|done].
  - intros Hl. destruct (failures_early errText name j l h 0) as (h1 & E1 & Q1 & A1); [by rewrite Hn|cbn; lia|].
    rewrite failures_app. unfold hbind at 1. rewrite E1. unfold failures. cbn [hforM]. unfold hbind at 1. cbn [fst snd].
    unfold fail, hbind, hcurrent, hmodify, updateState. cbn -[backoff]. rewrite A1. rewrite decide_True by (cbn; lia).
    eexists. split; [done|]. cbn. unfold LoadState. cbn. rewrite <- Q1.
    destruct (states _ !! _) as [st|]; cbn; by rewrite !lookup_delete_eq.
  - intros [r Hr]%HasSuffix_spec. apply bytes_inj. unfold rearmedName, parkedName.
    pose proof (bytes_TrimSuffix name ".job" r Hr) as E1.
    rewrite bytes_app, (bytes_TrimSuffix _ ".failed" r); [done|]. by rewrite bytes_app, E1.
Qed.


(** ** Concrete inputs *)
Lemma retries_witness :
  exists h', failures (fun _ => "x"%string) "a~~b~~p.job" (mkJob "a" "b" "p")
      ([(1, 0, TargetError)] ++ [(5, 7, TargetError)]) Example2.the_host = (Ok tt, h') /\
    notBefore h' !! "a~~b~~p.job"%string = Some (5 + (4 * Second + 7)).
Proof.
  destruct (proj1 (retries (fun _ => "x"%string) "a~~b~~p.job" (mkJob "a" "b" "p") Example2.the_host [(1, 0, TargetError)] 5 7 TargetError
    eq_refl)) as (h' & E & _ & N); [cbn; lia|]. exists h'. split; [exact E|]. rewrite N. done.
Defined.

