(* ===== verification/DiskGuard.v ===== *)
(** * The disk guard ([src/internal/diskguard/guard.go])

    Levels and thresholds of a filesystem, the reserve file that is taken, grown and
    released, and the gate for bulk writes.  What the host answers during a refresh is
    an environment: the [statfs] of a path (of its nearest existing parent), whether the
    removal and the preallocation of the reserve file succeed, and the time.  Used
    percentages and texts are only shown and are not part of the model. *)
From S2P Require Export Value GoText.

(** ** Levels *)
Inductive Level := LevelOK | LevelWarning | LevelCritical | LevelEmergency.
#[export] Instance Level_eq_dec : EqDecision Level. Proof. solve_decision. Defined.

Definition rank (l : Level) : nat := match l with LevelWarning => 1 | LevelCritical => 2 | LevelEmergency => 3 | LevelOK => 0 end.
Definition AtLeast (l other : Level) : bool := bool_decide (rank other <= rank l)%nat.

Definition gib : Z := Z.shiftl 1 30.

Record Policy := mkPolicy {
  WarnPercent : spec_float; CriticalPercent : spec_float; EmergencyPercent : spec_float;
  WarnFreeBytes : Z; CriticalFreeBytes : Z; EmergencyFreeBytes : Z;
  WarnMaxBytes : Z; CriticalMaxBytes : Z; EmergencyMaxBytes : Z;
  ReserveBytes : Z; ReserveMaxPercent : spec_float }.

Definition DefaultPolicy : Policy :=
  mkPolicy (float_of_Z 85) (float_of_Z 92) (float_of_Z 97) (10 * gib) (5 * gib) (2 * gib)
    (200 * gib) (30 * gib) (10 * gib) (50 * gib) (float_of_Z 10).

Definition fmul := SFmul 53 1024.
Definition fsub := SFsub 53 1024.
Definition fdiv := SFdiv 53 1024.
Definition zero : spec_float := S754_zero false.

Definition ReserveTarget (p : Policy) (total : Z) : Z :=
  let target := ReserveBytes p in
  let target :=
    if SFltb zero (ReserveMaxPercent p) && bool_decide (0 < total) then
      let limit := int64_of_float (fdiv (fmul (float_of_Z total) (ReserveMaxPercent p)) (float_of_Z 100)) in
      if decide (limit < target) then limit else target
    else target in
  if decide (target < 0) then 0 else target.

Definition reserveStep : Z := gib.

Definition threshold (total : Z) (percent : spec_float) (floor ceiling : Z) : Z :=
  let t := int64_of_float (fdiv (fmul (float_of_Z total) (fsub (float_of_Z 100) percent)) (float_of_Z 100)) in
  let t := if decide (0 < ceiling /\ ceiling < t) then ceiling else t in
  if decide (t < floor) then floor else t.

Definition warnBelow (p : Policy) (total : Z) : Z := threshold total (WarnPercent p) (WarnFreeBytes p) (WarnMaxBytes p).
Definition criticalBelow (p : Policy) (total : Z) : Z := threshold total (CriticalPercent p) (CriticalFreeBytes p) (CriticalMaxBytes p).
Definition emergencyBelow (p : Policy) (total : Z) : Z := threshold total (EmergencyPercent p) (EmergencyFreeBytes p) (EmergencyMaxBytes p).
Definition Thresholds (p : Policy) (total : Z) : Z * Z * Z := (warnBelow p total, criticalBelow p total, emergencyBelow p total).

Definition Evaluate (p : Policy) (total avail : Z) : Level :=
  if decide (total <= 0) then LevelOK
  else
    let avail := if decide (avail < 0) then 0 else avail in
    let '(warn, critical, emergency) := Thresholds p total in
    if decide (avail < emergency) then LevelEmergency
    else if decide (avail < critical) then LevelCritical
    else if decide (avail < warn) then LevelWarning else LevelOK.

(** ** State *)
Record Watch := mkWatch { Path : string; Role : string }.
Record statInfo := mkStat { device : Z; total : Z; avail : Z }.

Record FS := mkFS {
  Device : Z; Mount : string; Paths : list string; Roles : list string; TotalBytes : Z; FreeBytes : Z; fsLevel : Level;
  WarnBelowBytes : Z; CriticalBelowBytes : Z; EmergencyBelowBytes : Z }.

Inductive note := NoNote | Released | HeldOff | Waiting | Unsupported | GrowFailed | Holding.
#[export] Instance note_eq_dec : EqDecision note. Proof. solve_decision. Defined.

Record Status := mkStatus {
  sLevel : Level; Filesystems : list FS; sReserveBytes : Z; ReserveTargetBytes : Z; ReserveHeld : bool;
  ReserveNote : note; ReserveReleasedAt : option Z; CheckedAt : Z }.

Record Guard := mkGuard {
  Watches : list Watch; policy : Policy; ReservePath : string;
  reserve_file : Z;             (* the size of the reserve file; 0 when there is none *)
  heldOffUntil : option Z; releasedAt : option Z; autoReleased : bool }.

Definition set_reserve (g : Guard) (size : Z) (until : option Z) (at_ : option Z) (auto : bool) : Guard :=
  mkGuard (Watches g) (policy g) (ReservePath g) size until at_ auto.

(** What preallocating the reserve file comes to.  A preallocation that fails may leave
    the file larger than it was, never larger than asked for ([got] is clamped). *)
Inductive allocation := Allocated | AllocUnsupported | AllocFailed (got : Z).
#[export] Instance allocation_eq_dec : EqDecision allocation. Proof. solve_decision. Defined.

Record env := mkEnv { stat : string -> option statInfo; removeOK : bool; alloc : allocation; now : Z }.

(** ** A refresh *)
Definition new_fs (p : Policy) (w : Watch) (i : statInfo) : FS :=
  let '(warn, critical, emergency) := Thresholds p (total i) in
  mkFS (device i) (Path w) [Path w] [Role w] (total i) (avail i) (Evaluate p (total i) (avail i)) warn critical emergency.

Definition add_path (w : Watch) (f : FS) : FS :=
  mkFS (Device f) (Mount f) (Paths f ++ [Path w]) (Roles f ++ [Role w]) (TotalBytes f) (FreeBytes f) (fsLevel f)
    (WarnBelowBytes f) (CriticalBelowBytes f) (EmergencyBelowBytes f).

Definition watch_step (p : Policy) (e : env) (acc : list FS) (w : Watch) : list FS :=
  match stat e (Path w) with
  | None => acc
  | Some i =>
      if existsb (fun f => Device f =? device i) acc
      then map (fun f => if Device f =? device i then add_path w f else f) acc
      else acc ++ [new_fs p w i]
  end.

Definition watched (g : Guard) (e : env) : list FS := fold_left (watch_step (policy g) e) (Watches g) [].

Definition worst (l : list FS) : Level :=
  fold_left (fun acc f => if decide (rank acc < rank (fsLevel f))%nat then fsLevel f else acc) l LevelOK.

(** [sort.SliceStable] by falling severity. *)
Definition by_severity (l : list FS) : list FS :=
  flat_map (fun r => filter (fun f => rank (fsLevel f) = r) l) [3; 2; 1; 0]%nat.

Definition adjustFree (p : Policy) (f : FS) (delta : Z) : FS :=
  mkFS (Device f) (Mount f) (Paths f) (Roles f) (TotalBytes f) (FreeBytes f + delta)
    (Evaluate p (TotalBytes f) (FreeBytes f + delta)) (WarnBelowBytes f) (CriticalBelowBytes f) (EmergencyBelowBytes f).

(** The position of the reserve's filesystem. *)
Fixpoint find_device (d : Z) (l : list FS) (i : nat) : option (nat * FS) :=
  match l with [] => None | f :: l' => if decide (Device f = d) then Some (i, f) else find_device d l' (S i) end.

Definition reserveFS (g : Guard) (e : env) (l : list FS) : option (nat * FS) :=
  if decide (ReservePath g = ""%string) then None
  else match stat e (ReservePath g) with None => None | Some i => find_device (device i) l 0 end.

(** How much the reserve should hold now. *)
Definition reserve_want (p : Policy) (f : FS) (size : Z) : Z :=
  let target := ReserveTarget p (TotalBytes f) in
  let room := FreeBytes f - criticalBelow p (TotalBytes f) - reserveStep in
  if decide (size + room < target) then size + room else target.

(** What [manageReserve] does with the reserve: the guard, the filesystem, the size it
    reports and the note. *)
Definition manage_step (g : Guard) (e : env) (f : FS) : Guard * FS * Z * note :=
  let p := policy g in
  let size := reserve_file g in
  let target := ReserveTarget p (TotalBytes f) in
  if decide (0 < size /\ fsLevel f = LevelEmergency) then
    if removeOK e then (set_reserve g 0 (heldOffUntil g) (Some (now e)) true, adjustFree p f size, 0, Released)
    else (g, f, size, NoNote)
  else if decide (target <= size) then (g, f, size, NoNote)
  else if match heldOffUntil g with Some t => bool_decide (now e < t) | None => false end then (g, f, size, HeldOff)
  else if autoReleased g && bool_decide (fsLevel f <> LevelOK) then (g, f, size, Waiting)
  else
    let want := reserve_want p f size in
    let '(g', f', size', n) :=
      if decide (reserveStep <= want - size \/ (want = target /\ size < want)) then
        match alloc e with
        | Allocated => (set_reserve g want (heldOffUntil g) (releasedAt g) false, adjustFree p f (size - want), want, NoNote)
        | AllocUnsupported => (g, f, size, Unsupported)
        | AllocFailed got =>
            (set_reserve g (Z.min want (Z.max size got)) (heldOffUntil g) (releasedAt g) (autoReleased g), f, size, GrowFailed)
        end
      else (g, f, size, NoNote) in
    (g', f', size', if decide (size' < target /\ n = NoNote) then Holding else n).

Definition manageReserve (g : Guard) (e : env) (l : list FS) : Guard * list FS * (Z * Z * bool * note * option Z) :=
  if decide (ReservePath g = ""%string \/ ReserveBytes (policy g) <= 0)
  then (g, l, (ReserveBytes (policy g), 0, false, NoNote, None))
  else
    match reserveFS g e l with
    | None => (g, l, (reserve_file g, 0, bool_decide (0 < reserve_file g), NoNote, releasedAt g))
    | Some (i, f) =>
        let '(g', f', size, n) := manage_step g e f in
        (g', <[i := f']> l, (size, ReserveTarget (policy g) (TotalBytes f), bool_decide (0 < size), n, releasedAt g'))
    end.

Definition Refresh (g : Guard) (e : env) : Guard * Status :=
  let l := watched g e in
  let level := worst l in
  let '(g', l', (size, target, held, n, at_)) := manageReserve g e (by_severity l) in
  (g', mkStatus level l' size target held n at_ (now e)).

(** ** Operator release: the file is removed, then the hold-off is set, then a refresh *)
Definition ReleaseHoldOff : Z := 6 * 3600 * 1000000000.

Definition release_remove (g : Guard) : Guard := set_reserve g 0 (heldOffUntil g) (releasedAt g) (autoReleased g).
Definition release_mark (g : Guard) (t : Z) : Guard := set_reserve g (reserve_file g) (Some (t + ReleaseHoldOff)) (Some t) false.

(** [None] is an error; the status is refreshed in every case. *)
Definition ReleaseReserve (g : Guard) (e : env) : Guard * option Status :=
  if decide (ReservePath g = ""%string) then ((Refresh g e).1, None)
  else if negb (removeOK e) then ((Refresh g e).1, None)
  else let '(g', st) := Refresh (release_mark (release_remove g) (now e)) e in (g', Some st).

(** ** The gate *)
Definition level_after (p : Policy) (f : FS) (need : Z) : Level :=
  if decide (0 < need) then
    let after := Evaluate p (TotalBytes f) (i64 (FreeBytes f - need)) in
    if decide (rank (fsLevel f) < rank after)%nat then after else fsLevel f
  else fsLevel f.

(** The first filesystem that refuses; [None] lets the write go on. *)
Definition check (p : Policy) (need : Z) (f : FS) : option (FS * Level) :=
  let level := level_after p f need in if AtLeast level LevelCritical then Some (f, level) else None.

Fixpoint first_refusal (p : Policy) (need : Z) (l : list FS) : option (FS * Level) :=
  match l with [] => None | f :: l' => match check p need f with Some r => Some r | None => first_refusal p need l' end end.

Definition Allow (g : Guard) (e : env) (dest : string) (need : Z) : Guard * option (FS * Level) :=
  let '(g', st) := Refresh g e in
  (g', if decide (TrimSpace dest = ""%string) then first_refusal (policy g) need (Filesystems st)
       else match stat e dest with
            | None => None
            | Some i => match find_device (device i) (Filesystems st) 0 with None => None | Some (_, f) => check (policy g) need f end
            end).
