(* ===== verification/DiskGuardProps.v ===== *)
(** * The disk guard keeps room, and keeps its promises about the reserve *)
From S2P Require Export DiskGuard.

(** ** Levels *)
Lemma Evaluate_critical p total a : 0 < total ->
  (rank (Evaluate p total a) < rank LevelCritical)%nat <->
  emergencyBelow p total <= Z.max 0 a /\ criticalBelow p total <= Z.max 0 a.
Proof.
  intros Ht. unfold Evaluate, Thresholds. rewrite decide_False by lia.
  assert ((if decide (a < 0) then 0 else a) = Z.max 0 a) as -> by (case_decide; lia).
  repeat case_decide; cbn; lia.
Qed.

Lemma Evaluate_warning p total a :
  criticalBelow p total <= a -> emergencyBelow p total <= criticalBelow p total ->
  (rank (Evaluate p total a) < rank LevelCritical)%nat.
Proof.
  intros Hc He. destruct (decide (0 < total)) as [Ht|Ht]; [apply Evaluate_critical; lia|].
  unfold Evaluate. rewrite decide_True by lia. cbn. lia.
Qed.

Lemma Evaluate_antitone p total a b : a <= b -> (rank (Evaluate p total b) <= rank (Evaluate p total a))%nat.
Proof. intros Hab. unfold Evaluate, Thresholds. repeat case_decide; cbn; lia. Qed.

(** ** Every filesystem's level is that of its free space *)
Definition judged (p : Policy) (f : FS) : Prop := fsLevel f = Evaluate p (TotalBytes f) (FreeBytes f).

Lemma watched_judged g e : Forall (judged (policy g)) (watched g e).
Proof.
  unfold watched. assert (forall ws acc, Forall (judged (policy g)) acc -> Forall (judged (policy g)) (fold_left (watch_step (policy g) e) ws acc)) as H;
    [|by apply H].
  induction ws as [|w ws IH]; intros acc Ha; [done|]. cbn [fold_left]. apply IH. unfold watch_step.
  destruct (stat e (Path w)) as [i|]; [|done]. destruct (existsb _ acc).
  - rewrite Forall_fmap. eapply Forall_impl; [exact Ha|]. intros f Hf. cbn. by destruct (Device f =? device i).
  - apply Forall_app. split; [done|]. by apply Forall_singleton.
Qed.

Lemma by_severity_elem l f : f ∈ by_severity l -> f ∈ l.
Proof.
  unfold by_severity. intros (r & _ & Hf)%list_elem_of_In%in_flat_map. apply list_elem_of_In in Hf.
  by apply list_elem_of_filter in Hf as [_ Hf].
Qed.

Lemma find_device_spec d l i j f : find_device d l i = Some (j, f) -> exists k, j = (i + k)%nat /\ l !! k = Some f /\ Device f = d.
Proof.
  revert i. induction l as [|x l IH]; intros i; cbn; [done|]. case_decide as Hd.
  - intros [= <- <-]. exists 0%nat. split_and!; [lia|done|done].
  - intros Hfd. destruct (IH _ Hfd) as (k & -> & Hk & He). exists (S k). split_and!; [lia|done|done].
Qed.

Lemma reserveFS_judged g e i f :
  reserveFS g e (by_severity (watched g e)) = Some (i, f) -> by_severity (watched g e) !! i = Some f /\ judged (policy g) f.
Proof.
  unfold reserveFS. case_decide; [done|]. destruct (stat e (ReservePath g)) as [si|]; [|done].
  intros Hfd. destruct (find_device_spec _ _ _ _ _ Hfd) as (k & -> & Hk & _). split; [done|].
  pose proof (watched_judged g e) as Hj. rewrite Forall_forall in Hj. apply Hj, by_severity_elem. by eapply list_elem_of_lookup_2.
Qed.

(** ** One refresh *)
Lemma manage_cases g e f :
  let '(g', f', size', n) := manage_step g e f in
  let p := policy g in let target := ReserveTarget p (TotalBytes f) in
  (reserve_file g' = reserve_file g /\ f' = f /\ autoReleased g' = autoReleased g) \/
  (reserve_file g' = 0 /\ 0 < reserve_file g /\ fsLevel f = LevelEmergency /\ f' = adjustFree p f (reserve_file g) /\
     autoReleased g' = true /\ releasedAt g' = Some (now e)) \/
  (reserve_file g <= reserve_file g' <= target /\
     criticalBelow p (TotalBytes f) + gib <= FreeBytes f + (reserve_file g - reserve_file g') /\
     (alloc e = Allocated -> f' = adjustFree p f (reserve_file g - reserve_file g') /\ autoReleased g' = false) /\
     (alloc e <> Allocated -> f' = f /\ autoReleased g' = autoReleased g) /\
     (forall t, heldOffUntil g = Some t -> t <= now e) /\ (autoReleased g = true -> fsLevel f = LevelOK)).
Proof.
  unfold manage_step. cbn zeta. case_decide as H1.
  { destruct (removeOK e); [right; left|left]; cbn; naive_solver. }
  case_decide as H2; [by left|].
  destruct (match heldOffUntil g with Some t => _ | None => false end) eqn:H3; [by left|].
  destruct (autoReleased g && bool_decide (fsLevel f <> LevelOK)) eqn:H4; [by left|].
  assert (0 < reserveStep) by (by vm_compute).
  assert (forall t, heldOffUntil g = Some t -> t <= now e) as Hh.
  { intros t Ht. rewrite Ht in H3. apply bool_decide_eq_false in H3. lia. }
  assert (autoReleased g = true -> fsLevel f = LevelOK) as Ha.
  { intros Ha. rewrite Ha in H4. cbn in H4. apply bool_decide_eq_false in H4. by apply dec_stable in H4. }
  clear H3 H4. case_decide as H5; [|cbn; by left].
  assert (reserve_want (policy g) f (reserve_file g) <= ReserveTarget (policy g) (TotalBytes f) /\
          reserve_want (policy g) f (reserve_file g) <= reserve_file g + (FreeBytes f - criticalBelow (policy g) (TotalBytes f) - gib)) as [W1 W2].
  { unfold reserve_want, reserveStep. case_decide; lia. }
  destruct (alloc e) as [| |got]; cbn; [|by left|]; right; right; (split_and!; [lia|lia|lia|try done|try done|exact Hh|exact Ha]).
Qed.

(** The filesystem of the reserve as a refresh finds it. *)
Definition reserve_disk (g : Guard) (e : env) : option (nat * FS) := reserveFS g e (by_severity (watched g e)).


(** ** Released stays released *)
Definition refreshes (g : Guard) (es : list env) : Guard := fold_left (fun g e => (Refresh g e).1) es g.

Lemma Refresh_reserve g e :
  (Refresh g e).1 = g \/ exists i f, reserve_disk g e = Some (i, f) /\ (Refresh g e).1 = (manage_step g e f).1.1.1.
Proof.
  unfold Refresh, manageReserve, reserve_disk. case_decide; [by left|].
  destruct (reserveFS g e (by_severity (watched g e))) as [[i f]|]; [right; exists i, f|by left].
  split; [done|]. by destruct (manage_step g e f) as [[[g' f'] size'] n].
Qed.

Lemma manage_frame g e f :
  let g' := (manage_step g e f).1.1.1 in
  Watches g' = Watches g /\ policy g' = policy g /\ ReservePath g' = ReservePath g /\ heldOffUntil g' = heldOffUntil g.
Proof.
  unfold manage_step. cbn zeta. repeat case_decide; try done; destruct (removeOK e); try done;
  destruct (match heldOffUntil g with Some t => _ | None => false end); try done;
  destruct (autoReleased g && _); try done; cbn; destruct (alloc e); done.
Qed.

Definition same_config (g g' : Guard) : Prop :=
  Watches g' = Watches g /\ policy g' = policy g /\ ReservePath g' = ReservePath g.

Lemma reserve_disk_config g g' e : same_config g g' -> reserve_disk g' e = reserve_disk g e.
Proof. intros (H1 & H2 & H3). unfold reserve_disk, reserveFS, watched. by rewrite H1, H2, H3. Qed.

Lemma same_config_trans g1 g2 g3 : same_config g1 g2 -> same_config g2 g3 -> same_config g1 g3.
Proof. unfold same_config. intuition congruence. Qed.

(** One refresh on a reserve that is released. *)
Lemma Refresh_released g e :
  reserve_file g = 0 ->
  let g' := (Refresh g e).1 in
  same_config g g' /\ heldOffUntil g' = heldOffUntil g /\
  ((reserve_file g' = 0 /\ autoReleased g' = autoReleased g) \/
   (forall t, heldOffUntil g = Some t -> t <= now e) /\
   (autoReleased g = true -> exists i f, reserve_disk g e = Some (i, f) /\ fsLevel f = LevelOK)).
Proof.
  intros H0. cbn zeta. destruct (Refresh_reserve g e) as [-> |(i & f & Hd & ->)]; [unfold same_config; naive_solver|].
  pose proof (manage_cases g e f) as Hc. pose proof (manage_frame g e f) as (F1 & F2 & F3 & F4).
  destruct (manage_step g e f) as [[[g' f'] size'] n]. cbn [fst] in *. split_and!; [done|done|].
  destruct Hc as [(E1 & _ & E2)|[(_ & Hpos & _)|(_ & _ & _ & _ & Hh & Hok)]]; [left; split; congruence|lia|right].
  split; [exact Hh|]. intros Ha. exists i, f. split; [done|by apply Hok].
Qed.

Lemma released_until es : forall g t,
  reserve_file g = 0 -> heldOffUntil g = Some t -> (forall e, e ∈ es -> now e < t) -> reserve_file (refreshes g es) = 0.
Proof.
  induction es as [|e es IH]; intros g t H0 Ht Hlt; [done|]. cbn [refreshes fold_left].
  destruct (Refresh_released g e H0) as (_ & Hh & Hr). pose proof (Hlt e ltac:(left)) as He.
  apply (IH _ t); [|congruence|intros e' He'; apply Hlt; by right].
  destruct Hr as [[Hr _]|[Hr _]]; [done|]. specialize (Hr t Ht). lia.
Qed.

Lemma released_unhealthy es : forall g,
  reserve_file g = 0 -> autoReleased g = true ->
  (forall e i f, e ∈ es -> reserve_disk g e = Some (i, f) -> fsLevel f <> LevelOK) ->
  reserve_file (refreshes g es) = 0 /\ autoReleased (refreshes g es) = true.
Proof.
  induction es as [|e es IH]; intros g H0 Ha Hes; [done|]. cbn [refreshes fold_left].
  destruct (Refresh_released g e H0) as (Hc & _ & [[Hr Hr']|[_ Hok]]).
  - apply IH; [done|congruence|]. intros e' i f He'. rewrite (reserve_disk_config _ _ _ Hc). apply Hes. by right.
  - destruct (Hok Ha) as (i & f & Hd & Hl). destruct (Hes e i f ltac:(left) Hd Hl).
Qed.

(** A released reserve stays released.  After the guard released it in an
    emergency, no refresh takes it again as long as the disk is not healthy; after an
    operator released it, none does for six hours; and on a healthy disk with room,
    after the hold-off, a refresh takes all of it again. *)
Theorem release_holds g :
  (reserve_file g = 0 -> autoReleased g = true -> forall es,
   (forall e i f, e ∈ es -> reserve_disk g e = Some (i, f) -> fsLevel f <> LevelOK) ->
   reserve_file (refreshes g es) = 0 /\ autoReleased (refreshes g es) = true) /\
  (forall e g1 st es, ReleaseReserve g e = (g1, Some st) -> (forall e', e' ∈ es -> now e' < now e + ReleaseHoldOff) ->
     reserve_file (refreshes g1 es) = 0) /\
  (forall e i f, ReservePath g <> ""%string -> 0 < ReserveBytes (policy g) -> reserve_disk g e = Some (i, f) ->
     fsLevel f = LevelOK -> alloc e = Allocated -> (forall t, heldOffUntil g = Some t -> t <= now e) ->
     reserve_file g < ReserveTarget (policy g) (TotalBytes f) ->
     ReserveTarget (policy g) (TotalBytes f) - reserve_file g <= FreeBytes f - criticalBelow (policy g) (TotalBytes f) - reserveStep ->
     reserve_file (Refresh g e).1 = ReserveTarget (policy g) (TotalBytes f) /\ autoReleased (Refresh g e).1 = false).
Proof.
  split_and!.
  - intros H0 Ha es. by apply released_unhealthy.
  - intros e g1 st es. unfold ReleaseReserve. case_decide; [done|]. destruct (removeOK e); [|done]. cbn [negb].
    set (gm := release_mark (release_remove g) (now e)). destruct (Refresh gm e) as [g2 st2] eqn:Er. intros [= <- <-] Hes.
    enough (reserve_file (refreshes gm (e :: es)) = 0) as Hn by (cbn [refreshes fold_left] in Hn; by rewrite Er in Hn).
    apply (released_until (e :: es) gm (now e + ReleaseHoldOff)); [done|done|].
    intros e' [-> |He']%elem_of_cons; [|by apply Hes]. assert (0 < ReleaseHoldOff) by (by vm_compute). lia.
  - intros e i f Hpath Hpos Hd Hok Hal Hh Hlt Hroom. unfold Refresh, manageReserve.
    rewrite decide_False by (intros [?|?]; [done|lia]). unfold reserve_disk in Hd. rewrite Hd. unfold manage_step.
    rewrite Hok, Hal. rewrite decide_False by (intros [_ ?]; discriminate). rewrite decide_False by lia.
    assert (match heldOffUntil g with Some t => bool_decide (now e < t) | None => false end = false) as ->.
    { destruct (heldOffUntil g) as [t|]; [|done]. apply bool_decide_eq_false. specialize (Hh t eq_refl). lia. }
    rewrite andb_false_r.
    assert (reserve_want (policy g) f (reserve_file g) = ReserveTarget (policy g) (TotalBytes f)) as Hw.
    { unfold reserve_want. rewrite decide_False by lia. done. }
    rewrite Hw, decide_True by (right; lia). done.
Qed.

(** ** The gate *)
Lemma Refresh_judged g e : Forall (judged (policy g)) (Filesystems (Refresh g e).2).
Proof.
  assert (Forall (judged (policy g)) (by_severity (watched g e))) as Hall.
  { apply Forall_forall. intros f Hf%by_severity_elem. pose proof (watched_judged g e) as Hj. rewrite Forall_forall in Hj. by apply Hj. }
  unfold Refresh, manageReserve. case_decide; [exact Hall|].
  destruct (reserveFS g e (by_severity (watched g e))) as [[i f]|] eqn:Er; [|exact Hall].
  destruct (reserveFS_judged g e i f Er) as [Hi Hj]. pose proof (manage_cases g e f) as Hc.
  destruct (manage_step g e f) as [[[g' f'] size'] n]. cbn [snd Filesystems]. apply Forall_insert; [exact Hall|].
  destruct Hc as [(_ & -> & _)|[(_ & _ & _ & -> & _)|(_ & _ & Hal & Hnal & _)]]; [exact Hj|reflexivity|].
  destruct (decide (alloc e = Allocated)) as [Ha|Ha]; [destruct (Hal Ha) as [-> _]; reflexivity|].
  by destruct (Hnal Ha) as [-> _].
Qed.

(** The filesystem keeps its critical and emergency margins after a write of [need]. *)
Definition room (p : Policy) (f : FS) (need : Z) : Prop :=
  emergencyBelow p (TotalBytes f) <= Z.max 0 (FreeBytes f - need) /\ criticalBelow p (TotalBytes f) <= Z.max 0 (FreeBytes f - need).

Lemma check_room p need f : judged p f -> 0 <= need < 2 ^ 63 -> 0 < TotalBytes f -> 0 <= FreeBytes f < 2 ^ 63 ->
  check p need f = None <-> room p f need.
Proof.
  intros Hj Hn Ht Hf. unfold check, AtLeast, room.
  assert (level_after p f need = Evaluate p (TotalBytes f) (FreeBytes f - need)) as ->.
  { unfold level_after. rewrite i64_id by lia. rewrite Hj. case_decide as Hpos.
    - pose proof (Evaluate_antitone p (TotalBytes f) (FreeBytes f - need) (FreeBytes f) ltac:(lia)) as Ha.
      case_decide as Hr; [done|].
      assert (rank (Evaluate p (TotalBytes f) (FreeBytes f)) = rank (Evaluate p (TotalBytes f) (FreeBytes f - need)))%nat as He
        by (apply Nat.le_antisymm; [exact Ha|by apply Nat.nlt_ge]).
      by destruct (Evaluate p _ (FreeBytes f)), (Evaluate p _ (FreeBytes f - need)).
    - by replace (FreeBytes f - need) with (FreeBytes f) by lia. }
  rewrite <- Evaluate_critical by done. case_bool_decide; split; try done; intros; (lia || (exfalso; lia)).
Qed.

Lemma first_refusal_None p need l : first_refusal p need l = None <-> Forall (fun f => check p need f = None) l.
Proof.
  induction l as [|f l IH]; cbn; [done|]. rewrite Forall_cons. destruct (check p need f) as [r|].
  - split; [done|]. by intros [? _].
  - rewrite IH. naive_solver.
Qed.

(** The filesystems a write to [dest] is judged by: all the watched ones when the
    destination is not said, the one it is on when that one is watched. *)
Definition written_to (st : Status) (e : env) (dest : string) (f : FS) : Prop :=
  if decide (TrimSpace dest = ""%string) then f ∈ Filesystems st
  else exists i k, stat e dest = Some i /\ find_device (device i) (Filesystems st) 0 = Some (k, f).

(** The gate lets a bulk write go on exactly when every filesystem it is judged by
    keeps, after the write, at least its critical and its emergency margin. *)
Theorem allow_spec g e dest need :
  0 <= need < 2 ^ 63 ->
  (forall f, f ∈ Filesystems (Refresh g e).2 -> 0 < TotalBytes f /\ 0 <= FreeBytes f < 2 ^ 63) ->
  (Allow g e dest need).2 = None <-> forall f, written_to (Refresh g e).2 e dest f -> room (policy g) f need.
Proof.
  intros Hn Hfs. unfold Allow, written_to. pose proof (Refresh_judged g e) as Hj. rewrite Forall_forall in Hj.
  destruct (Refresh g e) as [g' st]. cbn [snd] in *.
  assert (forall f, f ∈ Filesystems st -> check (policy g) need f = None <-> room (policy g) f need) as Hc.
  { intros f Hf. destruct (Hfs f Hf). by apply check_room; [apply Hj| | |]. }
  case_decide as Hd.
  - rewrite first_refusal_None, Forall_forall. split; intros H f Hf; by apply Hc, H.
  - destruct (stat e dest) as [i|]; [|naive_solver].
    destruct (find_device (device i) (Filesystems st) 0) as [[k f]|] eqn:Ef; [|naive_solver].
    destruct (find_device_spec _ _ _ _ _ Ef) as (k' & -> & Hk & _). apply list_elem_of_lookup_2 in Hk.
    rewrite (Hc f Hk). split; [|intros H; apply H; eauto]. intros Hr f' (i' & k'' & Ei & E2). injection Ei as <-.
    rewrite Ef in E2. by injection E2 as _ <-.
Qed.

(** ** Examples *)
Definition gi (n : Z) : Z := n * gib.

(** One disk of 1000 GiB with [free] GiB free; the time is [t]. *)
Definition disk_env (free t : Z) : env := mkEnv (fun _ => Some (mkStat 1 (gi 1000) (gi free))) true Allocated t.

Definition guard (size : Z) : Guard := mkGuard [mkWatch "/var" "data"] DefaultPolicy "/var/reserve" size None None false.

Example guard_takes : reserve_file (Refresh (guard 0) (disk_env 400 0)).1 = gi 50.
Proof. vm_compute. reflexivity. Qed.

(** Only part of it fits above the critical threshold of 30 GiB and the margin. *)
Example guard_takes_part : reserve_file (Refresh (guard 0) (disk_env 40 0)).1 = gi 9.
Proof. vm_compute. reflexivity. Qed.

(** After the release in an emergency the filesystem is judged again, the status as a
    whole is not: it keeps the level the disk had before. *)
Example level_after_release :
  let '(g, st) := Refresh (guard (gi 50)) (disk_env 1 0) in
  reserve_file g = 0 /\ sLevel st = LevelEmergency /\ map fsLevel (Filesystems st) = [LevelWarning].
Proof. vm_compute. done. Qed.

(** The operator's release removes the file before it takes the lock under which it sets
    the hold-off, so a refresh that comes between takes the reserve again: the release
    then answers that the reserve is released while all of it is held. *)
Example release_race :
  let g := release_remove (guard (gi 50)) in
  let g := (Refresh g (disk_env 400 0)).1 in
  let '(g, st) := Refresh (release_mark g 0) (disk_env 350 0) in
  reserve_file g = gi 50 /\ ReserveHeld st = true /\ heldOffUntil g = Some ReleaseHoldOff.
Proof. vm_compute. done. Qed.

Lemma release_holds_witness :
  reserve_file (refreshes (set_reserve (guard 0) 0 None (Some 0) true) [disk_env 60 1; disk_env 100 2]) = 0 /\
  (exists g st, ReleaseReserve (guard (gi 50)) (disk_env 400 0) = (g, Some st) /\
     reserve_file (refreshes g [disk_env 400 1; disk_env 400 (ReleaseHoldOff - 1)]) = 0) /\
  reserve_file (Refresh (guard 0) (disk_env 400 0)).1 = gi 50.
Proof.
  split_and!.
  - destruct (release_holds (set_reserve (guard 0) 0 None (Some 0) true)) as (H & _ & _).
    apply H; [reflexivity|reflexivity|]. clear H.
    intros e i f [-> | [-> | []%elem_of_nil]%elem_of_cons]%elem_of_cons Hd Hl;
      vm_compute in Hd; injection Hd as <- <-; discriminate Hl.
  - destruct (release_holds (guard (gi 50))) as (_ & H & _).
    destruct (ReleaseReserve (guard (gi 50)) (disk_env 400 0)) as [g [st|]] eqn:Er; [|vm_compute in Er; discriminate Er].
    exists g, st. split; [reflexivity|]. apply (H _ _ _ _ Er). clear.
    intros e [-> | [-> | []%elem_of_nil]%elem_of_cons]%elem_of_cons; reflexivity.
  - destruct (release_holds (guard 0)) as (_ & _ & H).
    destruct (reserve_disk (guard 0) (disk_env 400 0)) as [[i f]|] eqn:Hd; [|vm_compute in Hd; discriminate Hd].
    destruct (H (disk_env 400 0) i f) as [Hs _]; [discriminate|reflexivity|exact Hd|..]; clear H;
      vm_compute in Hd; injection Hd as <- <-; try (vm_compute; reflexivity); vm_compute; discriminate.
Defined.

(** 60 GiB are free and the reserve is full: a write of 30 leaves the critical 30. *)
Definition var_fs : FS := mkFS 1 "/var" ["/var"%string] ["data"%string] (gi 1000) (gi 60) LevelWarning (gi 150) (gi 30) (gi 10).

Example var_status : Filesystems (Refresh (guard (gi 50)) (disk_env 60 0)).2 = [var_fs].
Proof. vm_compute. reflexivity. Qed.

Lemma var_written f : written_to (Refresh (guard (gi 50)) (disk_env 60 0)).2 (disk_env 60 0) "/var/backups" f <-> f = var_fs.
Proof.
  unfold written_to. rewrite decide_False by (vm_compute; discriminate). rewrite var_status. split.
  - intros (i & k & _ & (k' & _ & Hk & _)%find_device_spec). apply list_lookup_singleton_Some in Hk. naive_solver.
  - intros ->. exists (mkStat 1 (gi 1000) (gi 60)), 0%nat. split; reflexivity.
Qed.

Lemma allow_spec_witness :
  (Allow (guard (gi 50)) (disk_env 60 0) "/var/backups" (gi 30)).2 = None /\
  (Allow (guard (gi 50)) (disk_env 60 0) "/var/backups" (gi 31)).2 <> None.
Proof.
  assert (forall f, f ∈ Filesystems (Refresh (guard (gi 50)) (disk_env 60 0)).2 -> 0 < TotalBytes f /\ 0 <= FreeBytes f < 2 ^ 63) as Hfs.
  { rewrite var_status. intros f ->%list_elem_of_singleton. by vm_compute. }
  split.
  - apply (allow_spec (guard (gi 50)) (disk_env 60 0) "/var/backups" (gi 30)); [by vm_compute|exact Hfs|].
    intros f ->%var_written. vm_compute. split; discriminate.
  - assert (0 <= gi 31 < 2 ^ 63) as Hn by (by vm_compute). intros H.
    destruct (proj1 (allow_spec (guard (gi 50)) (disk_env 60 0) "/var/backups" (gi 31) Hn Hfs) H
                var_fs (proj2 (var_written var_fs) eq_refl)) as [_ Hr].
    vm_compute in Hr. exact (Hr eq_refl).
Defined.
