(* ===== verification/Lockout.v ===== *)
(** * The brute-force gate ([src/internal/auth/lockout.go])

    One bucket per key with the failures counted in it, the time of the first and until
    when the key is locked.  Times are nanoseconds; [None] is Go's zero time.  Every
    operation runs under the table's mutex, so an operation is one step; what callers do
    between two operations is up to them, and the theorems say for which orders of the
    operations they hold. *)
From S2P Require Export GoText.

Definition maxFailures : Z := 8.
Definition window : Z := 15 * 60 * 1000000000.
Definition lockFor : Z := 15 * 60 * 1000000000.

Record bucket := mkBucket { fails : Z; first : option Z; locked : option Z }.
Notation Lockout := (gmap string bucket).

Inductive errLocked := ErrLocked.

(** [!b.first.IsZero() && now.Sub(b.first) > window] *)
Definition stale (b : bucket) (now : Z) : bool :=
  match first b with Some f => bool_decide (window < now - f) | None => false end.

Definition Check (l : Lockout) (key : string) (now : Z) : Lockout * option errLocked :=
  match l !! key with
  | None => (l, None)
  | Some b =>
      if match locked b with Some t => bool_decide (now < t) | None => false end then (l, Some ErrLocked)
      else (if stale b now then delete key l else l, None)
  end.

Definition Fail (l : Lockout) (key : string) (now : Z) : Lockout :=
  let b := match l !! key with
           | Some b => if stale b now then mkBucket 0 (Some now) None else b
           | None => mkBucket 0 (Some now) None
           end in
  let n := fails b + 1 in
  <[key := mkBucket n (first b) (if decide (maxFailures <= n) then Some (now + lockFor) else locked b)]> l.

Definition Success (l : Lockout) (key : string) : Lockout := delete key l.

Definition ClearSuffix (l : Lockout) (suffix : string) : Lockout * nat :=
  (filter (fun kb => HasSuffix kb.1 suffix = false) l, size (filter (fun kb => HasSuffix kb.1 suffix = true) l)).

(** ** Runs

    A request the table lets through and whose credentials are then found wrong: how the
    handlers use the table for a wrong password or code. *)
Definition wrong_try (l : Lockout) (key : string) (now : Z) : Lockout * bool :=
  match Check l key now with
  | (l', None) => (Fail l' key now, true)
  | (l', Some _) => (l', false)
  end.

Inductive op := Wrong (key : string) (now : Z) | Right (key : string) | Clear (suffix : string).

Definition run_op (l : Lockout) (o : op) : Lockout * bool :=
  match o with
  | Wrong k t => wrong_try l k t
  | Right k => (Success l k, false)
  | Clear s => ((ClearSuffix l s).1, false)
  end.

(** The wrong tries for [key] that were let through, with their times, oldest first. *)
Fixpoint let_through (key : string) (l : Lockout) (os : list op) : list Z :=
  match os with
  | [] => []
  | o :: os =>
      let '(l', ok) := run_op l o in
      match o with
      | Wrong k t => if decide (k = key /\ ok = true) then t :: let_through key l' os else let_through key l' os
      | _ => let_through key l' os
      end
  end.

Definition run (l : Lockout) (os : list op) : Lockout := fold_left (fun l o => (run_op l o).1) os l.

Definition time_of (o : op) : option Z := match o with Wrong _ t => Some t | _ => None end.
(** Nothing else clears the key. *)
Definition spares (key : string) (o : op) : bool :=
  match o with Wrong _ _ => true | Right k => negb (bool_decide (k = key)) | Clear s => negb (HasSuffix key s) end.

(** ** The bound on wrong tries *)

(** What a bucket promises: at least one failure, counted since [first]; locked exactly
    when there are too many. *)
Definition bucket_ok (b : bucket) : Prop :=
  1 <= fails b /\ exists f, first b = Some f /\
  if decide (maxFailures <= fails b) then is_Some (locked b) else locked b = None.

Definition lockout_ok (l : Lockout) : Prop := map_Forall (fun _ b => bucket_ok b) l.

(** How many wrong tries a bucket still lets through in the period [a, a + window). *)
Definition budget (a : Z) (b : option bucket) : Z :=
  match b with
  | None => 8
  | Some b =>
      match locked b with
      | Some t => if decide (a + window <= t) then 0 else 8
      | None => if match first b with Some f => bool_decide (a <= f) | None => false end then 8 - fails b else 15 - fails b
      end
  end.

Lemma budget_range a b : (forall x, b = Some x -> bucket_ok x) -> 0 <= budget a b <= 14.
Proof.
  intros Hb. destruct b as [b|]; cbn; [|lia]. destruct (Hb b eq_refl) as (H1 & f & Hf & Hl). unfold maxFailures in Hl.
  rewrite Hf. case_decide; [destruct Hl as [t ->]|rewrite Hl]; (case_bool_decide || case_decide); lia.
Qed.

Lemma wrong_try_other l k key t : k <> key -> (wrong_try l k t).1 !! key = l !! key.
Proof.
  intros Hk. unfold wrong_try, Check, Fail. destruct (l !! k) as [b|] eqn:Eb; cbn.
  - destruct (match locked b with Some _ => _ | None => false end); [done|]. cbn. rewrite lookup_insert_ne by done.
    destruct (stale b t); [by rewrite lookup_delete_ne|done].
  - by rewrite lookup_insert_ne.
Qed.

(** A wrong try that is let through uses up at least one of the budget. *)
Lemma wrong_try_budget l key t a :
  lockout_ok l -> a <= t < a + window ->
  let '(l', ok) := wrong_try l key t in
  lockout_ok l' /\ (if ok then budget a (l' !! key) + 1 <= budget a (l !! key) else l' = l).
Proof.
  intros Hok Ht. assert (window = lockFor) as Hw by reflexivity. unfold wrong_try, Check, Fail.
  destruct (l !! key) as [b|] eqn:Eb.
  2:{ rewrite Eb. cbn [fails]. rewrite lookup_insert_eq. rewrite decide_False by (unfold maxFailures; cbn; lia). split.
      - apply map_Forall_insert_2; [|done]. split; [cbn; lia|]. exists t. split; [done|]. by rewrite decide_False by (unfold maxFailures; cbn; lia).
      - cbn. rewrite bool_decide_true by lia. lia. }
  destruct (Hok key b Eb) as (H1 & f & Hf & Hl). unfold stale. rewrite Hf.
  destruct (match locked b with Some _ => _ | None => false end) eqn:El; [done|].
  assert (locked b = None \/ exists u, locked b = Some u /\ u <= t) as Hlk.
  { destruct (locked b) as [u|]; [right|by left]. apply bool_decide_eq_false in El. exists u. split; [done|]. lia. }
  assert (8 <= budget a (Some b) \/ (locked b = None /\ budget a (Some b) = 8 - fails b /\ fails b < 8 /\ a <= f)) as Hbud.
  { cbn. rewrite Hf. destruct Hlk as [Hn|(u & -> & Hu)]; [rewrite Hn|rewrite decide_False by lia; lia].
    unfold maxFailures in Hl. case_decide; [destruct Hl as [? ?]; congruence|]. case_bool_decide; [right; split_and!; [done|..]|left]; lia. }
  case_bool_decide as Hst.
  - rewrite lookup_delete_eq. cbn [fails]. rewrite lookup_insert_eq. rewrite decide_False by (unfold maxFailures; cbn; lia). split.
    + apply map_Forall_insert_2; [|by apply map_Forall_delete]. split; [cbn; lia|]. exists t. split; [done|]. by rewrite decide_False by (unfold maxFailures; cbn; lia).
    + cbn -[budget]. destruct Hbud as [Hbud|(_ & _ & _ & Haf)]; [|lia]. cbn. rewrite bool_decide_true by lia. cbn in Hbud. lia.
  - rewrite Eb. rewrite Hf. rewrite bool_decide_false by lia. rewrite lookup_insert_eq. split.
    + apply map_Forall_insert_2; [|done]. split; [cbn; lia|]. exists f. split; [done|]. cbn [fails locked].
      destruct (decide (maxFailures <= fails b + 1)) as [Hge|Hlt]; [done|].
      by rewrite decide_False in Hl by lia.
    + remember (budget a (Some b)) as B eqn:HB. cbn [fails locked]. destruct (decide (maxFailures <= fails b + 1)) as [Hge|Hlt].
      * cbn [budget locked]. rewrite decide_True by lia. lia.
      * rewrite decide_False in Hl by lia. subst B. cbn. rewrite ?Hf, Hl. case_bool_decide; lia.
Qed.

Lemma run_op_spares l o key a :
  lockout_ok l -> spares key o = true -> (forall t, time_of o = Some t -> a <= t < a + window) ->
  lockout_ok (run_op l o).1 /\
  budget a ((run_op l o).1 !! key) + (match o with Wrong k t => if decide (k = key /\ (run_op l o).2 = true) then 1 else 0 | _ => 0 end)
    <= budget a (l !! key).
Proof.
  intros Hok Hsp Ht. destruct o as [k t|k|s]; cbn -[budget] in *.
  - pose proof (wrong_try_budget l k t a Hok (Ht t eq_refl)) as Hw.
    destruct (wrong_try l k t) as [l' ok] eqn:Ew. destruct Hw as [Hok' Hb]. split; [done|]. cbn -[budget].
    destruct (decide (k = key)) as [-> |Hk].
    + destruct ok; [rewrite decide_True by done; lia|]. subst. rewrite decide_False by (intros [_ ?]; done). lia.
    + rewrite decide_False by (intros [? _]; done). pose proof (wrong_try_other l k key t Hk) as Ho. rewrite Ew in Ho. cbn in Ho. rewrite Ho. lia.
  - apply negb_true_iff, bool_decide_eq_false in Hsp. unfold Success. rewrite lookup_delete_ne by done. split; [by apply map_Forall_delete|lia].
  - apply negb_true_iff in Hsp. split.
    + intros k b [Hb _]%map_lookup_filter_Some. by apply (Hok k).
    + destruct (l !! key) as [b|] eqn:Eb.
      * rewrite (proj2 (map_lookup_filter_Some _ l key b)) by done. lia.
      * rewrite (proj2 (map_lookup_filter_None _ l key)) by (by left). lia.
Qed.

Lemma let_through_budget key a os : forall l,
  lockout_ok l -> Forall (fun o => spares key o = true) os ->
  Forall (fun o => forall t, time_of o = Some t -> a <= t < a + window) os ->
  Z.of_nat (length (let_through key l os)) <= budget a (l !! key).
Proof.
  induction os as [|o os IH]; intros l Hok Hsp Ht.
  { apply (budget_range a (l !! key)). intros x Hx. by apply (Hok key). }
  inversion Hsp as [|? ? Ho Hos]; inversion Ht as [|? ? Hto Htos]; subst.
  destruct (run_op_spares l o key a Hok Ho Hto) as [Hok' Hb]. specialize (IH _ Hok' Hos Htos).
  cbn [let_through]. destruct (run_op l o) as [l' ok]. cbn [fst snd] in *.
  destruct o as [k t| |]; [case_decide; [rewrite length_cons|]|..]; lia.
Qed.

Lemma run_ok os : forall l, lockout_ok l -> lockout_ok (run l os).
Proof.
  induction os as [|o os IH]; intros l Hok; [done|]. apply IH. destruct o as [k t|k|s]; cbn.
  - pose proof (wrong_try_budget l k t t Hok) as Hw. destruct (wrong_try l k t). apply Hw. unfold window. lia.
  - by apply map_Forall_delete.
  - intros k b [Hb _]%map_lookup_filter_Some. by apply (Hok k).
Qed.

(** In no period of fifteen minutes does the gate let more than fourteen wrong
    tries through for a key, whatever happened before and whatever is done with other
    keys in between, as long as the credentials are not found right and nobody unlocks
    the user; eight when the key had no failures before.  This holds when each try is
    checked and counted before the next one is checked. *)
Theorem tries_bounded key (before during : list op) a :
  Forall (fun o => spares key o = true) during ->
  Forall (fun o => forall t, time_of o = Some t -> a <= t < a + window) during ->
  let l := run ∅ before in
  Z.of_nat (length (let_through key l during)) <= 14 /\
  (l !! key = None -> Z.of_nat (length (let_through key l during)) <= 8).
Proof.
  intros Hsp Ht l. assert (lockout_ok l) as Hok by (apply run_ok, map_Forall_empty).
  pose proof (let_through_budget key a during l Hok Hsp Ht) as Hb. split.
  - etransitivity; [exact Hb|]. apply (budget_range a (l !! key)). intros x Hx. by apply (Hok key).
  - intros Hn. by rewrite Hn in Hb.
Qed.

(** ** Examples *)
Definition minutes (n : Z) : Z := n * 60 * 1000000000.
Definition tries (n : nat) (t : Z) : list op := repeat (Wrong "1.2.3.4|alice" t) n.

(** Both bounds are reached. *)
Lemma tries_bounded_witness :
  length (let_through "1.2.3.4|alice" ∅ (tries 20 (minutes 5))) = 8%nat /\
  length (let_through "1.2.3.4|alice" (run ∅ (tries 1 (minutes 1))) (tries 6 (minutes 15) ++ tries 20 (minutes 17))) = 14%nat /\
  Z.of_nat (length (let_through "1.2.3.4|alice" (run ∅ (tries 1 (minutes 1))) (tries 6 (minutes 15) ++ tries 20 (minutes 17)))) <= 14.
Proof.
  split_and!; [vm_compute; reflexivity|vm_compute; reflexivity|].
  refine (proj1 (tries_bounded "1.2.3.4|alice" (tries 1 (minutes 1)) (tries 6 (minutes 15) ++ tries 20 (minutes 17)) (minutes 15) _ _)).
  - cbn. repeat constructor.
  - cbn. repeat (apply Forall_cons; split; [intros t [= <-]; vm_compute; split; [discriminate|reflexivity]|]). by constructor.
Defined.

(** The handlers check before they verify the password and count after it, with nothing
    held in between: requests that are all checked before the first one is counted are
    all let through, however many they are. *)
Example concurrent_tries :
  forallb (fun i => match (Check (fold_left (fun l _ => (Check l "ip|alice" 0).1) (seq 0 i) ∅) "ip|alice" 0).2 with None => true | Some _ => false end) (seq 0 50) = true /\
  (fold_left (fun l _ => Fail l "ip|alice" 0) (seq 0 50) ∅ : Lockout) !! "ip|alice" = Some (mkBucket 50 (Some 0) (Some lockFor)).
Proof. vm_compute. done. Qed.
