(* ===== verification/Place.v ===== *)
(** * Placement of a workload on a node ([src/internal/placement/place.go])

    The request, the candidates, the filter, and the choice among what is left.  The
    specification below does not follow the code's loops: it says which candidates are
    eligible and which of them is best in an order, and the refinement says that [Place]
    answers what the specification allows and nothing else. *)
From S2P Require Export Value GoText.

Definition ModeAutomatic : string := "automatic".
Definition ModeNode : string := "node".
Definition ModeGroup : string := "group".
Definition RoleControl : string := "control".

(** What placement looks at of a node and of a storage pool ([appdb]). *)
Record Node := mkNode { ID : string; Role : string; RevokedAt : option Z }.
Record StoragePool := mkPool { pNodeID : string; BackendType : string; pName : string }.

Record Request := mkRequest {
  Mode : string; NodeID : string; GroupID : string; CPUs : Z; MemoryBytes : Z; NetworkID : string; rPriority : Z;
  RequireGPU : bool; RequireStorageClass : string; AffinityNodeID : string; AntiAffinityNodeID : string;
  GroupMembers : gmap string (list string); Pools : list StoragePool }.

(** [gpus]: how many GPUs the inventory lists; [None] when there is no inventory. *)
Record Candidate := mkCandidate {
  cNode : Node; gpus : option nat; Maintaining : bool; MemoryFree : Z; CPUFree : Z; HealthOK : bool;
  Networks : list string; Priority : Z }.

Inductive reason := SpecificNode | Affinity | Automatic.
Inductive error := NeedsNodeID | NotEligible | NeedsGroupID | NoEligible | UnknownMode.
#[export] Instance error_eq_dec : EqDecision error. Proof. solve_decision. Defined.
#[export] Instance reason_eq_dec : EqDecision reason. Proof. solve_decision. Defined.

(** ** The filter *)
Section place.
Context {CT : CaseTables}.

Definition nodeRole (n : Node) : string := if decide (Role n = ""%string) then RoleControl else Role n.

Definition hasGPU (c : Candidate) : bool := match gpus c with None => false | Some n => bool_decide (0 < n)%nat end.

Definition classOK (req : Request) (c : Candidate) : bool :=
  let class := TrimSpace (RequireStorageClass req) in
  if decide (class = ""%string) then true
  else existsb (fun p => (bool_decide (pNodeID p = ID (cNode c)) && EqualFold (BackendType p) class)
                         || (bool_decide (pNodeID p = ID (cNode c)) && EqualFold (pName p) class)) (Pools req).

Definition networkOK (req : Request) (c : Candidate) : bool :=
  let want := TrimSpace (NetworkID req) in
  if decide (want = ""%string) then true else existsb (fun id => bool_decide (id = want)) (Networks c).

Definition fitsCPU (req : Request) (c : Candidate) : bool :=
  if decide (CPUs req <= 0) then true else if decide (CPUFree c <= 0) then true else bool_decide (CPUs req <= CPUFree c).

Definition fitsMemory (req : Request) (c : Candidate) : bool :=
  if decide (MemoryBytes req <= 0) then true else if decide (MemoryFree c <= 0) then true else bool_decide (MemoryBytes req <= MemoryFree c).

Definition healthObserved (cands : list Candidate) : bool := existsb HealthOK cands.

Definition keep (req : Request) (healthActive : bool) (c : Candidate) : bool :=
  if bool_decide (is_Some (RevokedAt (cNode c))) then false
  else if healthActive && negb (HealthOK c) then false
  else if Maintaining c then false
  else if negb (classOK req c) then false
  else if RequireGPU req && negb (hasGPU c) then false
  else if bool_decide (AntiAffinityNodeID req <> ""%string) && bool_decide (ID (cNode c) = AntiAffinityNodeID req) then false
  else if negb (networkOK req c) then false
  else if negb (fitsCPU req c) then false
  else if negb (fitsMemory req c) then false
  else true.

Definition eligible (req : Request) (cands : list Candidate) : list Candidate :=
  filter (fun c => keep req (healthObserved cands) c = true) cands.

(** ** The choice *)
Definition score (c : Candidate) : Z :=
  let n := 0 in
  let n := if decide (nodeRole (cNode c) = RoleControl) then n + 1 else n in
  let n := if hasGPU c then n + 10 else n in
  if decide (0 < MemoryFree c) then n + MemoryFree c ÷ 2 ^ 20 else n.

Definition priorityOf (req : Request) (c : Candidate) : Z := if decide (Priority c <> 0) then Priority c else rPriority req.

Definition better (req : Request) (c best : Candidate) : bool :=
  if decide (score c <> score best) then bool_decide (score best < score c)
  else if decide (priorityOf req c = priorityOf req best) then false
  else bool_decide (priorityOf req c < priorityOf req best).

(** The first candidate of that node. *)
Fixpoint find_node (id : string) (l : list Candidate) : option Candidate :=
  match l with [] => None | c :: l => if decide (ID (cNode c) = id) then Some c else find_node id l end.

Definition pick_best (req : Request) (best : Candidate) (l : list Candidate) : Candidate :=
  fold_left (fun best c => if better req c best then c else best) l best.

Definition pick (req : Request) (cands : list Candidate) : result error (string * reason) :=
  match cands with
  | [] => Err NoEligible
  | c0 :: rest =>
      match (if decide (AffinityNodeID req <> ""%string) then find_node (AffinityNodeID req) cands else None) with
      | Some c => Ok (ID (cNode c), Affinity)
      | None => Ok (ID (cNode (pick_best req c0 rest)), Automatic)
      end
  end.

Definition Place (req : Request) (cands : list Candidate) : result error (string * reason) :=
  let mode := TrimSpace (Mode req) in
  let mode := if decide (mode = ""%string) then ModeAutomatic else mode in
  let elig := eligible req cands in
  if decide (mode = ModeNode) then
    let id := TrimSpace (NodeID req) in
    if decide (id = ""%string) then Err NeedsNodeID
    else match find_node id elig with Some c => Ok (ID (cNode c), SpecificNode) | None => Err NotEligible end
  else if decide (mode = ModeGroup) then
    let id := TrimSpace (GroupID req) in
    if decide (id = ""%string) then Err NeedsGroupID
    else pick req (filter (fun c => ID (cNode c) ∈ default [] (GroupMembers req !! id)) elig)
  else if decide (mode = ModeAutomatic) then pick req elig
  else Err UnknownMode.

(** ** The specification *)

(** A node can take the workload. *)
Record fits (req : Request) (cands : list Candidate) (c : Candidate) : Prop := {
  fits_cand : c ∈ cands;
  fits_active : RevokedAt (cNode c) = None /\ Maintaining c = false;
  fits_health : HealthOK c = true \/ forall d, d ∈ cands -> HealthOK d = false;
  fits_gpu : RequireGPU req = true -> hasGPU c = true;
  fits_anti : AntiAffinityNodeID req = ""%string \/ ID (cNode c) <> AntiAffinityNodeID req;
  fits_class : TrimSpace (RequireStorageClass req) = ""%string \/
    exists p, p ∈ Pools req /\ pNodeID p = ID (cNode c) /\
      (EqualFold (BackendType p) (TrimSpace (RequireStorageClass req)) = true \/ EqualFold (pName p) (TrimSpace (RequireStorageClass req)) = true);
  fits_network : TrimSpace (NetworkID req) = ""%string \/ TrimSpace (NetworkID req) ∈ Networks c;
  fits_cpu : CPUs req <= 0 \/ CPUFree c <= 0 \/ CPUs req <= CPUFree c;
  fits_memory : MemoryBytes req <= 0 \/ MemoryFree c <= 0 \/ MemoryBytes req <= MemoryFree c }.

(** The order of preference: more score, then the smaller priority. *)
Definition preferred (req : Request) (c d : Candidate) : Prop :=
  score d < score c \/ (score c = score d /\ priorityOf req c < priorityOf req d).

(** How the mode reads, without the space around it. *)
Inductive kind := AnyNode | OneNode | InGroup | Unknown.
Definition kind_of (req : Request) : kind :=
  let mode := TrimSpace (Mode req) in
  if bool_decide (mode = ModeNode) then OneNode
  else if bool_decide (mode = ModeGroup) then InGroup
  else if bool_decide (mode = ""%string) || bool_decide (mode = ModeAutomatic) then AnyNode else Unknown.

(** What the mode adds to fitting. *)
Definition mode_allows (req : Request) (c : Candidate) : Prop :=
  match kind_of req with
  | AnyNode => True
  | OneNode => TrimSpace (NodeID req) <> ""%string /\ ID (cNode c) = TrimSpace (NodeID req)
  | InGroup => TrimSpace (GroupID req) <> ""%string /\
      exists ms, GroupMembers req !! TrimSpace (GroupID req) = Some ms /\ ID (cNode c) ∈ ms
  | Unknown => False
  end.

Definition option_for (req : Request) (cands : list Candidate) (c : Candidate) : Prop := fits req cands c /\ mode_allows req c.

Definition wants_affinity (req : Request) (c : Candidate) : Prop := AffinityNodeID req <> ""%string /\ ID (cNode c) = AffinityNodeID req.

Inductive placement (req : Request) (cands : list Candidate) : result error (string * reason) -> Prop :=
  | place_node c : kind_of req = OneNode -> option_for req cands c -> placement req cands (Ok (ID (cNode c), SpecificNode))
  | place_affinity c : kind_of req <> OneNode -> option_for req cands c -> wants_affinity req c ->
      placement req cands (Ok (ID (cNode c), Affinity))
  | place_best pre c post : kind_of req <> OneNode -> cands = pre ++ c :: post -> option_for req cands c ->
      (forall d, option_for req cands d -> ~ wants_affinity req d) ->
      (forall d, d ∈ pre -> option_for req cands d -> preferred req c d) ->
      (forall d, d ∈ post -> option_for req cands d -> ~ preferred req d c) ->
      placement req cands (Ok (ID (cNode c), Automatic))
  | place_refused e : (forall c, ~ option_for req cands c) ->
      e = match kind_of req with
          | Unknown => UnknownMode
          | OneNode => if decide (TrimSpace (NodeID req) = ""%string) then NeedsNodeID else NotEligible
          | InGroup => if decide (TrimSpace (GroupID req) = ""%string) then NeedsGroupID else NoEligible
          | AnyNode => NoEligible
          end -> placement req cands (Err e).

(** ** The refinement *)
Lemma if_false (b x : bool) : (if b then false else x) = true <-> b = false /\ x = true.
Proof. destruct b; naive_solver. Qed.

Lemma keep_fits req cands c : c ∈ cands -> keep req (healthObserved cands) c = true <-> fits req cands c.
Proof.
  intros Hc. unfold keep.
  assert (healthObserved cands && negb (HealthOK c) = false <-> HealthOK c = true \/ forall d, d ∈ cands -> HealthOK d = false) as Hh.
  { unfold healthObserved. rewrite andb_false_iff, negb_false_iff, <- not_true_iff_false, existsb_exists. setoid_rewrite <- list_elem_of_In.
    split; [intros [Hn|?]; [right|by left]|intros [?|Hn]; [by right|left]].
    - intros d Hd. apply not_true_iff_false. intros Ht. apply Hn. eauto.
    - intros (d & Hd & Ht). rewrite Hn in Ht by done. done. }
  assert (classOK req c = true <-> TrimSpace (RequireStorageClass req) = ""%string \/ exists p, p ∈ Pools req /\ pNodeID p = ID (cNode c) /\
      (EqualFold (BackendType p) (TrimSpace (RequireStorageClass req)) = true \/ EqualFold (pName p) (TrimSpace (RequireStorageClass req)) = true)) as Hcl.
  { unfold classOK. cbn zeta. case_decide as He; [naive_solver|]. rewrite existsb_exists. setoid_rewrite <- list_elem_of_In.
    setoid_rewrite orb_true_iff. setoid_rewrite andb_true_iff. setoid_rewrite bool_decide_eq_true. naive_solver. }
  assert (networkOK req c = true <-> TrimSpace (NetworkID req) = ""%string \/ TrimSpace (NetworkID req) ∈ Networks c) as Hnet.
  { unfold networkOK. cbn zeta. case_decide as He; [naive_solver|]. rewrite existsb_exists. setoid_rewrite <- list_elem_of_In.
    setoid_rewrite bool_decide_eq_true. naive_solver. }
  assert (fitsCPU req c = true <-> CPUs req <= 0 \/ CPUFree c <= 0 \/ CPUs req <= CPUFree c) as Hcpu.
  { unfold fitsCPU. repeat case_decide; rewrite ?bool_decide_eq_true; naive_solver lia. }
  assert (fitsMemory req c = true <-> MemoryBytes req <= 0 \/ MemoryFree c <= 0 \/ MemoryBytes req <= MemoryFree c) as Hmem.
  { unfold fitsMemory. repeat case_decide; rewrite ?bool_decide_eq_true; naive_solver lia. }
  assert (is_Some (RevokedAt (cNode c)) <-> RevokedAt (cNode c) <> None) as Hrev by (destruct (RevokedAt (cNode c)); split; naive_solver).
  rewrite !if_false, !negb_false_iff, Hh, Hcl, Hnet, Hcpu, Hmem, bool_decide_eq_false, Hrev, !andb_false_iff, negb_false_iff, !bool_decide_eq_false.
  split.
  - intros (H1 & H2 & H3 & H4 & H5 & H6 & H7 & H8 & H9 & _). constructor; try done.
    + split; [by apply dec_stable|done].
    + intros Hr. rewrite Hr in H5. by destruct H5.
    + destruct H6 as [H6|H6]; [left; by apply dec_stable|by right].
  - intros [_ [H1 H2] H3 H4 H5 H6 H7 H8 H9]. split_and!; try done.
    + naive_solver.
    + destruct (RequireGPU req); [right; by apply H4|by left].
    + destruct H5 as [-> |?]; [left; naive_solver|by right].
Qed.

Lemma eligible_fits req cands c : c ∈ eligible req cands <-> fits req cands c.
Proof.
  unfold eligible. rewrite list_elem_of_filter. split; [intros [Hk Hc]; by apply keep_fits|].
  intros Hf. pose proof (fits_cand _ _ _ Hf). split; [by apply keep_fits|done].
Qed.

Lemma find_node_spec id l :
  match find_node id l with Some c => c ∈ l /\ ID (cNode c) = id | None => forall c, c ∈ l -> ID (cNode c) <> id end.
Proof.
  induction l as [|c l IH]; cbn; [intros c []%elem_of_nil|]. case_decide as Hd; [split; [left|done]|].
  destruct (find_node id l) as [d|]; [destruct IH; split; [by right|done]|]. intros d [-> |Hin]%elem_of_cons; [done|by apply IH].
Qed.

Lemma better_spec req c d : better req c d = true <-> preferred req c d.
Proof.
  unfold better, preferred. destruct (decide (score c <> score d)); [rewrite bool_decide_eq_true; lia|].
  case_decide; [split; [done|lia]|]. rewrite bool_decide_eq_true. lia.
Qed.

Lemma pick_best_spec req l : forall b, exists pre post, b :: l = pre ++ pick_best req b l :: post /\
  (forall d, d ∈ pre -> preferred req (pick_best req b l) d) /\ (forall d, d ∈ post -> ~ preferred req d (pick_best req b l)).
Proof.
  intros b. induction l as [|c l IH] using rev_ind.
  { exists [], []. split_and!; [done|intros d []%elem_of_nil..]. }
  destruct IH as (pre & post & Hl & Hpre & Hpost). unfold pick_best in *. rewrite fold_left_app. cbn [fold_left].
  set (m := fold_left _ l b) in *. destruct (better req c m) eqn:Hb.
  - apply better_spec in Hb. exists (b :: l), []. split_and!; [done| |intros d []%elem_of_nil].
    rewrite Hl. intros d [Hd|[-> |Hd]%elem_of_cons]%elem_of_app; [specialize (Hpre d Hd)|done|specialize (Hpost d Hd)]; unfold preferred in *; lia.
  - exists pre, (post ++ [c]). split_and!; [|done|].
    + rewrite app_comm_cons, Hl, <- app_assoc. done.
    + intros d [Hd| ->%list_elem_of_singleton]%elem_of_app; [by apply Hpost|]. intros Hp%better_spec. congruence.
Qed.

Lemma pick_spec req l :
  match pick req l with
  | Err NoEligible => l = []
  | Ok (id, Affinity) => exists c, id = ID (cNode c) /\ c ∈ l /\ wants_affinity req c
  | Ok (id, Automatic) => exists pre c post, id = ID (cNode c) /\ l = pre ++ c :: post /\ (forall d, d ∈ l -> ~ wants_affinity req d) /\
      (forall d, d ∈ pre -> preferred req c d) /\ (forall d, d ∈ post -> ~ preferred req d c)
  | _ => False
  end.
Proof.
  destruct l as [|b l]; [done|]. cbn [pick]. set (l0 := b :: l).
  assert (match (if decide (AffinityNodeID req <> ""%string) then find_node (AffinityNodeID req) l0 else None) with
          | Some c => c ∈ l0 /\ wants_affinity req c | None => forall d, d ∈ l0 -> ~ wants_affinity req d end) as Ha.
  { unfold wants_affinity. case_decide as Hd; [|naive_solver]. pose proof (find_node_spec (AffinityNodeID req) l0) as Hf.
    destruct (find_node _ l0); naive_solver. }
  destruct (if decide (AffinityNodeID req <> ""%string) then _ else None) as [c|]; [exists c; naive_solver|].
  destruct (pick_best_spec req l b) as (pre & post & Hl & Hpre & Hpost). by exists pre, (pick_best req b l), post.
Qed.

Lemma filter_split {A} (P : A -> Prop) `{!forall x, Decision (P x)} l fpre c fpost :
  filter P l = fpre ++ c :: fpost -> exists pre post, l = pre ++ c :: post /\ filter P pre = fpre /\ filter P post = fpost.
Proof.
  revert fpre. induction l as [|x l IH]; intros fpre; [by destruct fpre|]. rewrite filter_cons. case_decide as Hx.
  - destruct fpre as [|y fpre]; cbn; intros [= -> Hf]; [by exists [], l|].
    destruct (IH _ Hf) as (pre & post & -> & <- & <-). exists (y :: pre), post. by rewrite filter_cons_True.
  - intros Hf. destruct (IH _ Hf) as (pre & post & -> & <- & <-). exists (x :: pre), post. by rewrite filter_cons_False.
Qed.

(** What [pick] does on the part of the candidates that are options. *)
Lemma pick_placement req cands (P : Candidate -> Prop) `{!forall c, Decision (P c)} :
  kind_of req = AnyNode \/ kind_of req = InGroup /\ TrimSpace (GroupID req) <> ""%string ->
  (forall c, c ∈ cands -> P c <-> option_for req cands c) ->
  placement req cands (pick req (filter P cands)).
Proof.
  intros Hm HP. assert (forall c, c ∈ filter P cands <-> option_for req cands c) as Hf.
  { intros c. rewrite list_elem_of_filter. split; [intros [? ?]; by apply HP|]. intros Ho.
    pose proof (fits_cand _ _ _ (proj1 Ho)). split; [by apply HP|done]. }
  assert (kind_of req <> OneNode) as Hn by (destruct Hm as [Hm|[Hm _]]; by rewrite Hm).
  pose proof (pick_spec req (filter P cands)) as Hs. destruct (pick req (filter P cands)) as [[id [| |]]|[]]; try done.
  - destruct Hs as (c & -> & Hc & Ha). apply place_affinity; [done|by apply Hf|done].
  - destruct Hs as (fpre & c & fpost & -> & Hl & Hna & Hpre & Hpost).
    destruct (filter_split P cands fpre c fpost Hl) as (pre & post & Hc & <- & <-).
    apply (place_best _ _ pre c post); [done|done| | | |].
    + apply Hf. rewrite Hl. set_solver.
    + intros d Hd. by apply Hna, Hf.
    + intros d Hd Ho. apply Hpre, list_elem_of_filter. split; [|done]. apply HP; [exact (fits_cand _ _ _ (proj1 Ho))|done].
    + intros d Hd Ho. apply Hpost, list_elem_of_filter. split; [|done]. apply HP; [exact (fits_cand _ _ _ (proj1 Ho))|done].
  - apply place_refused; [|destruct Hm as [-> |[-> Hg]]; [done|by rewrite decide_False]].
    intros c Hc%Hf. rewrite Hs in Hc. by apply elem_of_nil in Hc.
Qed.

Lemma placement_functional req cands r1 r2 : placement req cands r1 -> placement req cands r2 -> r1 = r2.
Proof.
  intros H1 H2.
  destruct H1 as [c1 K1 O1|c1 K1 O1 A1|pre1 c1 post1 K1 E1 O1 A1 P1 Q1|e1 N1 E1];
    destruct H2 as [c2 K2 O2|c2 K2 O2 A2|pre2 c2 post2 K2 E2 O2 A2 P2 Q2|e2 N2 E2]; try congruence;
    try (by exfalso; eapply N1; eassumption); try (by exfalso; eapply N2; eassumption);
    try (by exfalso; exact (A1 _ O2 A2)); try (by exfalso; exact (A2 _ O1 A1)).
  - destruct O1 as [_ O1], O2 as [_ O2]. unfold mode_allows in *. rewrite K1 in *. do 2 f_equal. destruct O1, O2. congruence.
  - destruct A1, A2. congruence.
  - rewrite E1 in E2. apply app_eq_inv in E2 as [(k & -> & Ek)|(k & -> & Ek)]; destruct k as [|x k]; try (injection Ek as -> _; done);
      injection Ek as -> ->; exfalso.
    + apply (Q2 c1); [set_solver|done|]. apply P1; [set_solver|done].
    + apply (Q1 c2); [set_solver|done|]. apply P2; [set_solver|done].
Qed.

(** [Place] answers exactly what the specification of a placement says: the node
    asked for when it can take the workload; the affinity node when it is an option;
    otherwise, among the nodes that can take it, the first of the most preferred; and an
    error exactly when there is no such node, or the request does not say which. *)
Theorem place_refines req cands r : Place req cands = r <-> placement req cands r.
Proof.
  assert (placement req cands (Place req cands)) as Hp; [|split; [by intros <-|by apply placement_functional]].
  unfold Place, eligible. cbn zeta.
  assert (forall c, c ∈ cands -> keep req (healthObserved cands) c = true <-> fits req cands c) as Hfit by (intros; by apply keep_fits).
  assert ((if decide (TrimSpace (Mode req) = ""%string) then ModeAutomatic else TrimSpace (Mode req)) =
          match kind_of req with AnyNode => ModeAutomatic | OneNode => ModeNode | InGroup => ModeGroup | Unknown => TrimSpace (Mode req) end) as ->.
  { unfold kind_of. cbn zeta. unfold ModeAutomatic, ModeNode, ModeGroup. repeat case_bool_decide; cbn; case_decide; congruence. }
  destruct (kind_of req) eqn:K; cbn.
  - rewrite decide_False, decide_False, decide_True by done. apply pick_placement; [by left|]. intros c Hc. rewrite Hfit by done.
    unfold option_for, mode_allows. rewrite K. naive_solver.
  - rewrite decide_True by done. case_decide as Hid; [|].
    + apply place_refused; [|by rewrite K, decide_True]. intros c [_ Hm]. unfold mode_allows in Hm. rewrite K in Hm. by destruct Hm.
    + pose proof (find_node_spec (TrimSpace (NodeID req)) (eligible req cands)) as Hf. unfold eligible in Hf.
      destruct (find_node _ _) as [c|].
      * destruct Hf as [Hc Hi]. apply place_node; [done|]. split; [by apply eligible_fits|]. unfold mode_allows. by rewrite K.
      * apply place_refused; [|by rewrite K, decide_False]. intros c [Hc Hm]. unfold mode_allows in Hm. rewrite K in Hm.
        apply eligible_fits in Hc. by apply (Hf c Hc), Hm.
  - rewrite decide_False, decide_True by done. case_decide as Hid.
    + apply place_refused; [|by rewrite K, decide_True]. intros c [_ Hm]. unfold mode_allows in Hm. rewrite K in Hm. by destruct Hm.
    + rewrite list_filter_filter. apply pick_placement; [by right|]. intros c Hc. rewrite Hfit by done.
      unfold option_for, mode_allows. rewrite K. destruct (GroupMembers req !! TrimSpace (GroupID req)) as [ms|]; cbn; [naive_solver|].
      rewrite elem_of_nil. naive_solver.
  - pose proof K as K'. unfold kind_of in K'. cbn zeta in K'. repeat (case_bool_decide; cbn in K'; try done).
    rewrite !decide_False by done. apply place_refused; [|by rewrite K].
    intros c [_ Hm]. unfold mode_allows in Hm. by rewrite K in Hm.
Qed.
End place.

(** ** Examples *)
Definition node (id role : string) (free : Z) : Candidate := mkCandidate (mkNode id role None) None false free 0 false [] 0.
Definition any_node : Request := mkRequest "" "" "" 0 0 "" 0 false "" "" "" ∅ [].

(** The emptier node wins; the busy one loses its place in the second request, which
    needs more memory than any node has free. *)
Example place_most_memory :
  Place (CT := ascii_tables) any_node [node "a" "" (2 ^ 30); node "b" "worker" (2 ^ 33)] = Ok ("b"%string, Automatic).
Proof. vm_compute. reflexivity. Qed.

Example place_no_room :
  Place (CT := ascii_tables) (mkRequest "automatic" "" "" 0 (2 ^ 40) "" 0 false "" "" "" ∅ []) [node "a" "" (2 ^ 30); node "b" "worker" (2 ^ 33)] = Err NoEligible.
Proof. vm_compute. reflexivity. Qed.
