(* ===== verification/Civil.v ===== *)
(** * Civil time: what the code uses of Go's package [time]

    Days are counted from 1970-01-01, seconds and nanoseconds from that midnight UTC, in
    the proleptic Gregorian calendar.  A location is what its [lookup] answers:
    the offset in force at a second and the period it is in force for.  [Date] follows
    the package's own way of choosing the instant of a civil time, the doubtful ones at a
    change of offset included. *)
From S2P Require Export GoText.

(** ** Days *)
Record civil := mkCivil { year : Z; month : Z; day : Z }.

Definition leap (y : Z) : Z := if decide (y mod 4 = 0 /\ (y mod 100 <> 0 \/ y mod 400 = 0)) then 1 else 0.

(** The first day of a year. *)
Definition jan1 (y : Z) : Z := 365 * (y - 1970) + (y - 1) / 4 - (y - 1) / 100 + (y - 1) / 400 - 477.

(** The days of a year before its month [m]; [m = 13] is the whole year. *)
Definition cum (l m : Z) : Z :=
  match m with
  | 2 => 31 | 3 => 59 | 4 => 90 | 5 => 120 | 6 => 151 | 7 => 181 | 8 => 212 | 9 => 243 | 10 => 273 | 11 => 304 | 12 => 334 | 13 => 365
  | _ => 0
  end + (if decide (2 < m) then l else 0).

(** The day of a civil date; months and days out of range run over. *)
Definition date_day (y m d : Z) : Z :=
  let y' := y + (m - 1) / 12 in jan1 y' + cum (leap y') ((m - 1) mod 12 + 1) + d - 1.

Definition year_of_day (z : Z) : Z :=
  let y := z * 400 / 146097 + 1970 in
  if decide (z < jan1 y) then y - 1 else if decide (jan1 (y + 1) <= z) then y + 1 else y.

(** The month of the day [yd] of a year. *)
Fixpoint month_scan (l yd m : Z) (n : nat) : Z :=
  match n with O => m | S n => if decide (yd < cum l (m + 1)) then m else month_scan l yd (m + 1) n end.

Definition civil_of_day (z : Z) : civil :=
  let y := year_of_day z in let yd := z - jan1 y in let m := month_scan (leap y) yd 1 12 in
  mkCivil y m (yd - cum (leap y) m + 1).

(** 0 is Sunday; 1970-01-01 was a Thursday. *)
Definition weekday (z : Z) : Z := (z + 4) mod 7.

(** The ISO 8601 year and week: those of the Thursday of the week. *)
Definition thursday (z : Z) : Z := z + 3 - (weekday z + 6) mod 7.
Definition iso_week (z : Z) : Z * Z :=
  let y := year_of_day (thursday z) in (y, (thursday z - jan1 y) / 7 + 1).

#[global] Arguments civil_of_day : simpl never.
#[global] Arguments date_day : simpl never.

(** ** The days of a month are consecutive *)
Lemma leap_cases y : leap y = 0 \/ leap y = 1.
Proof. unfold leap. case_decide; auto. Qed.

Lemma jan1_next y : jan1 (y + 1) = jan1 y + 365 + leap y.
Proof. unfold jan1, leap. case_decide; Z.to_euclidean_division_equations; lia. Qed.

Lemma jan1_mono y y' : y < y' -> jan1 (y + 1) <= jan1 y'.
Proof. unfold jan1. Z.to_euclidean_division_equations. lia. Qed.

Lemma year_of_day_spec z : jan1 (year_of_day z) <= z < jan1 (year_of_day z + 1).
Proof.
  unfold year_of_day. cbn zeta. set (y := z * 400 / 146097 + 1970).
  assert (jan1 (y - 1) <= z < jan1 (y + 2)) as H.
  { unfold jan1, y. Z.to_euclidean_division_equations. lia. }
  case_decide; [replace (y - 1 + 1) with y by lia; lia|]. case_decide; [replace (y + 1 + 1) with (y + 2) by lia; lia|lia].
Qed.

(** A statement about the tables of [cum], month by month. *)
Ltac each_month i :=
  let Hin := fresh in
  assert (i = 1 \/ i = 2 \/ i = 3 \/ i = 4 \/ i = 5 \/ i = 6 \/ i = 7 \/ i = 8 \/ i = 9 \/ i = 10 \/ i = 11 \/ i = 12) as Hin by lia;
  repeat destruct Hin as [-> |Hin]; subst; unfold cum;
  match goal with |- context [Z.pos ?p + 1] => let r := eval vm_compute in (Z.pos p + 1) in change (Z.pos p + 1) with r end;
  repeat case_decide; lia.

Lemma cum_mono l m m' : 0 <= l <= 1 -> 1 <= m -> m < m' -> m' <= 13 -> cum l m < cum l m'.
Proof.
  intros Hl H1 H2 H3. assert (forall i, 1 <= i <= 12 -> cum l i < cum l (i + 1)) as Hs.
  { intros i Hi. each_month i. }
  revert m' H2 H3. apply (Z.lt_ind (fun m' => m' <= 13 -> cum l m < cum l m')); [intros ? ? ->; done|intros; apply Hs; lia|].
  intros k Hk IH Hk'. etransitivity; [apply IH; lia|apply Hs; lia].
Qed.

Lemma cum_ends l : cum l 1 = 0 /\ cum l 13 = 365 + l.
Proof. unfold cum. repeat case_decide; lia. Qed.

Lemma month_scan_spec l yd n : forall m, cum l m <= yd < cum l (m + Z.of_nat n) ->
  let r := month_scan l yd m n in m <= r < m + Z.of_nat n /\ cum l r <= yd < cum l (r + 1).
Proof.
  induction n as [|n IH]; intros m Hm; cbn [month_scan].
  - replace (m + Z.of_nat 0) with m in Hm by lia. lia.
  - case_decide as Hd; [lia|]. specialize (IH (m + 1)). replace (m + 1 + Z.of_nat n) with (m + Z.of_nat (S n)) in IH by lia.
    cbn zeta in IH. destruct IH; lia.
Qed.

(** The first day of a month, [m = 13] the one of the next year. *)
Definition month_first (y m : Z) : Z := jan1 y + cum (leap y) m.

Lemma month_first_13 y : month_first y 13 = month_first (y + 1) 1.
Proof. unfold month_first. destruct (cum_ends (leap y)) as [_ ->], (cum_ends (leap (y + 1))) as [-> _]. rewrite jan1_next. lia. Qed.

Lemma date_day_month y m d : 1 <= m <= 12 -> date_day y m d = month_first y m + d - 1.
Proof.
  intros Hm. unfold date_day, month_first. rewrite Z.div_small, Z.mod_small by lia. cbn zeta.
  by replace (y + 0) with y by lia; replace (m - 1 + 1) with m by lia.
Qed.

Lemma date_day_next y m d : 1 <= m <= 12 -> date_day y (m + 1) d = month_first y (m + 1) + d - 1.
Proof.
  intros Hm. destruct (decide (m = 12)) as [-> |]; [|apply date_day_month; lia].
  change (12 + 1) with 13. rewrite month_first_13. unfold date_day, month_first.
  change ((13 - 1) / 12) with 1. change ((13 - 1) mod 12 + 1) with 1. cbn zeta. lia.
Qed.

(** A day of the month [m] of the year [y]. *)
Definition in_month (y m z : Z) : Prop := month_first y m <= z < month_first y (m + 1).

Lemma in_month_civil z : let c := civil_of_day z in
  1 <= month c <= 12 /\ in_month (year c) (month c) z /\ day c = z - month_first (year c) (month c) + 1.
Proof.
  unfold civil_of_day, in_month, month_first. cbn zeta. cbn [year month day]. set (y := year_of_day z).
  pose proof (year_of_day_spec z) as Hy. fold y in Hy. rewrite jan1_next in Hy.
  destruct (cum_ends (leap y)) as [E1 E13].
  destruct (month_scan_spec (leap y) (z - jan1 y) 12 1) as [Hm Hr]; [rewrite E1; change (1 + Z.of_nat 12) with 13; rewrite E13; lia|].
  split_and!; lia.
Qed.

Lemma in_month_unique z y m y' m' : 1 <= m <= 12 -> 1 <= m' <= 12 -> in_month y m z -> in_month y' m' z -> y = y' /\ m = m'.
Proof.
  unfold in_month, month_first. intros Hm Hm' H H'.
  assert (forall y m, 1 <= m <= 13 -> jan1 y <= jan1 y + cum (leap y) m <= jan1 (y + 1)) as Hb.
  { intros u k Hk. pose proof (leap_cases u) as Hl. rewrite jan1_next. destruct (cum_ends (leap u)) as [E1 E13].
    destruct (decide (k = 1)) as [-> |]; [lia|]. destruct (decide (k = 13)) as [-> |]; [lia|].
    pose proof (cum_mono (leap u) 1 k). pose proof (cum_mono (leap u) k 13). lia. }
  pose proof (Hb y m ltac:(lia)). pose proof (Hb y (m + 1) ltac:(lia)). pose proof (Hb y' m' ltac:(lia)). pose proof (Hb y' (m' + 1) ltac:(lia)).
  assert (y = y') as ->.
  { destruct (Z.lt_trichotomy y y') as [Hy|[?|Hy]]; [|done|]; pose proof (jan1_mono _ _ Hy); lia. }
  split; [done|]. pose proof (leap_cases y'). destruct (Z.lt_trichotomy m m') as [Hlt|[?|Hlt]]; [|done|]; exfalso.
  - destruct (decide (m + 1 = m')) as [<- |]; [lia|]. pose proof (cum_mono (leap y') (m + 1) m'). lia.
  - destruct (decide (m' + 1 = m)) as [<- |]; [lia|]. pose proof (cum_mono (leap y') (m' + 1) m). lia.
Qed.

(** The two directions of the conversion are inverse. *)
Lemma civil_of_in_month z y m : 1 <= m <= 12 -> in_month y m z -> civil_of_day z = mkCivil y m (z - month_first y m + 1).
Proof.
  intros Hm Hz. pose proof (in_month_civil z) as (Hm' & Hz' & Hd). cbn zeta in *.
  destruct (in_month_unique z y m _ _ Hm Hm' Hz Hz') as [-> ->]. destruct (civil_of_day z). cbn in *. congruence.
Qed.

Lemma date_day_civil z : let c := civil_of_day z in date_day (year c) (month c) (day c) = z.
Proof. cbn zeta. pose proof (in_month_civil z) as (Hm & _ & Hd). rewrite date_day_month by done. cbn zeta in Hd. lia. Qed.

Lemma civil_inj z w : civil_of_day z = civil_of_day w -> z = w.
Proof. intros H. pose proof (date_day_civil z) as Hz. pose proof (date_day_civil w) as Hw. cbn zeta in *. congruence. Qed.

(** Weeks of ISO 8601 are the seven days from a Monday. *)
Definition week_no (z : Z) : Z := (z + 3) / 7.

Lemma thursday_week z : thursday z = 7 * week_no z.
Proof. unfold thursday, week_no, weekday. Z.to_euclidean_division_equations. lia. Qed.

Lemma iso_week_inj z w : iso_week z = iso_week w <-> week_no z = week_no w.
Proof.
  unfold iso_week. cbn zeta. rewrite !thursday_week. split; [|by intros ->]. intros [= Hy Hw]. rewrite <- Hy in Hw.
  pose proof (year_of_day_spec (7 * week_no z)) as H1. pose proof (year_of_day_spec (7 * week_no w)) as H2. rewrite <- Hy in H2.
  Z.to_euclidean_division_equations. lia.
Qed.

(** ** Text of numbers and dates ([time]'s [appendInt]) *)
Fixpoint low_digits (w : nat) (n : Z) (acc : list ascii) : list ascii :=
  match w with O => acc | S w => low_digits w (n / 10) (chr (48 + n mod 10) :: acc) end.

Definition appendInt (n : Z) (w : nat) : string :=
  let t n := if decide (n < 10 ^ Z.of_nat w) then ofBytes (low_digits w n []) else Itoa n in
  if decide (n < 0) then "-" +:+ t (- n) else t n.

Lemma low_digits_app w : forall n acc, low_digits w n acc = low_digits w n [] ++ acc.
Proof.
  induction w as [|w IH]; intros n acc; cbn; [done|]. rewrite (IH _ (_ :: acc)), (IH _ [_]), <- app_assoc. done.
Qed.

Lemma length_low_digits w n : length (low_digits w n []) = w.
Proof.
  revert n. induction w as [|w IH]; intros n; cbn [low_digits]; [done|]. rewrite low_digits_app, length_app, IH. cbn. lia.
Qed.

Lemma chr_digit_inj a b : 0 <= a < 10 -> 0 <= b < 10 -> chr (48 + a) = chr (48 + b) -> a = b.
Proof.
  intros Ha Hb H. apply (f_equal byteZ) in H. unfold byteZ, chr in H. rewrite !N_ascii_embedding in H by lia. lia.
Qed.

Lemma low_digits_inj w : forall n m, 0 <= n < 10 ^ Z.of_nat w -> 0 <= m < 10 ^ Z.of_nat w -> low_digits w n [] = low_digits w m [] -> n = m.
Proof.
  induction w as [|w IH]; intros n m Hn Hm; [cbn in *; lia|]. cbn [low_digits]. rewrite (low_digits_app _ (n / 10)), (low_digits_app _ (m / 10)).
  intros [H Hd]%app_inj_2; [|done]. injection Hd as Hd. rewrite Nat2Z.inj_succ, Z.pow_succ_r in * by lia.
  apply IH in H; [|Z.to_euclidean_division_equations; lia..].
  apply chr_digit_inj in Hd; [|Z.to_euclidean_division_equations; lia..]. Z.to_euclidean_division_equations. lia.
Qed.

Lemma appendInt_digits n w : 0 <= n < 10 ^ Z.of_nat w -> appendInt n w = ofBytes (low_digits w n []).
Proof. intros H. unfold appendInt. rewrite decide_False, decide_True by lia. done. Qed.

(** The layouts the code prints: ["2006-01-02"], ["2006-01"] and ["2006"]. *)
Definition format_year (z : Z) : string := appendInt (year (civil_of_day z)) 4.
Definition format_month (z : Z) : string := format_year z +:+ "-" +:+ appendInt (month (civil_of_day z)) 2.
Definition format_day (z : Z) : string := format_month z +:+ "-" +:+ appendInt (day (civil_of_day z)) 2.

(** Days whose year has four digits. *)
Definition four_digit (z : Z) : Prop := jan1 0 <= z < jan1 10000.

Lemma four_digit_year z : four_digit z -> 0 <= year (civil_of_day z) < 10 ^ Z.of_nat 4.
Proof.
  unfold four_digit, civil_of_day. cbn [year]. intros Hz. pose proof (year_of_day_spec z) as Hy.
  set (y := year_of_day z) in *. change (10 ^ Z.of_nat 4) with 10000. split.
  - apply Z.nlt_ge. intros Hlt. pose proof (jan1_mono y 0 Hlt). lia.
  - apply Z.nle_gt. intros Hge. assert (jan1 10000 <= jan1 y); [|lia].
    destruct (decide (y = 10000)) as [-> |]; [done|]. pose proof (jan1_mono 10000 y ltac:(lia)). pose proof (jan1_next 10000). pose proof (leap_cases 10000). lia.
Qed.

Lemma civil_two z : 0 <= month (civil_of_day z) < 10 ^ Z.of_nat 2 /\ 0 <= day (civil_of_day z) < 10 ^ Z.of_nat 2.
Proof.
  destruct (in_month_civil z) as (Hm & Hz & Hd). cbn zeta in *. change (10 ^ Z.of_nat 2) with 100. split; [lia|]. rewrite Hd.
  unfold in_month, month_first in *. set (y := year (civil_of_day z)) in *. set (m := month (civil_of_day z)) in *.
  assert (cum (leap y) (m + 1) <= cum (leap y) m + 31); [|lia]. pose proof (leap_cases y). clearbody m y. clear Hz Hd.
  each_month m.
Qed.

Lemma appendInt_inj w n m : 0 <= n < 10 ^ Z.of_nat w -> 0 <= m < 10 ^ Z.of_nat w -> appendInt n w = appendInt m w -> n = m.
Proof.
  intros Hn Hm. rewrite !appendInt_digits by done. intros H. apply (f_equal bytes) in H. rewrite !bytes_ofBytes in H. by apply (low_digits_inj w).
Qed.

Lemma length_appendInt w n : 0 <= n < 10 ^ Z.of_nat w -> length (bytes (appendInt n w)) = w.
Proof. intros Hn. by rewrite appendInt_digits, bytes_ofBytes, length_low_digits. Qed.

(** Texts of the same length in front of the same separator. *)
Lemma join_inj a b s x y : length (bytes a) = length (bytes b) -> a +:+ s +:+ x = b +:+ s +:+ y -> a = b /\ x = y.
Proof.
  intros Hl H. apply (f_equal bytes) in H. rewrite !bytes_app in H. apply app_inj_1 in H as [H1 H2]; [|done].
  apply app_inv_head in H2. split; by apply bytes_inj.
Qed.

Lemma format_year_inj z w : four_digit z -> four_digit w -> format_year z = format_year w -> year (civil_of_day z) = year (civil_of_day w).
Proof. intros Hz Hw. apply appendInt_inj; by apply four_digit_year. Qed.

Lemma length_format_year z : four_digit z -> length (bytes (format_year z)) = 4%nat.
Proof. intros Hz. by apply length_appendInt, four_digit_year. Qed.

Definition month_no (z : Z) : Z := 12 * year (civil_of_day z) + month (civil_of_day z).

Lemma format_month_inj z w : four_digit z -> four_digit w -> format_month z = format_month w <-> month_no z = month_no w.
Proof.
  intros Hz Hw. unfold month_no. destruct (in_month_civil z) as [Hm _], (in_month_civil w) as [Hm' _]. cbn zeta in *. split.
  - intros [H1 H2]%join_inj; [|by rewrite !length_format_year]. apply format_year_inj in H1; [|done..].
    apply appendInt_inj in H2; [lia|apply civil_two..].
  - intros H. assert (year (civil_of_day z) = year (civil_of_day w) /\ month (civil_of_day z) = month (civil_of_day w)) as [H1 H2] by lia.
    unfold format_month, format_year. by rewrite H1, H2.
Qed.

Lemma length_format_month z : four_digit z -> length (bytes (format_month z)) = 7%nat.
Proof.
  intros Hz. unfold format_month. rewrite !bytes_app, !length_app, length_format_year by done. rewrite length_appendInt by apply civil_two. done.
Qed.

Lemma format_day_inj z w : four_digit z -> four_digit w -> format_day z = format_day w <-> z = w.
Proof.
  intros Hz Hw. split; [|by intros ->]. intros [H1 H2]%join_inj; [|by rewrite !length_format_month].
  apply format_month_inj in H1; [|done..]. apply appendInt_inj in H2; [|apply civil_two..]. apply civil_inj.
  unfold month_no in H1. destruct (in_month_civil z) as [Hm _], (in_month_civil w) as [Hm' _]. cbn zeta in *.
  destruct (civil_of_day z), (civil_of_day w). cbn in *. f_equal; lia.
Qed.
