(* ===== verification/Retention.v ===== *)
(** * Retention of restore points ([src/internal/backup/gc.go], the first part)

    Daily, weekly and monthly rotation.  [RetainNewest] is modelled as it is written:
    rules in order, a walk over the times for each, buckets named by texts.  The reference
    [retained] names buckets by the day, the week from a Monday and the month, and says
    for each rule which positions it picks; the equivalence holds for every time a
    restore point can have. *)
From stdpp Require Import sorting.
From S2P Require Export Civil.

Record RetentionPolicy := mkRetention { Daily : Z; Weekly : Z; Monthly : Z }.

(** What retention looks at of a restore point. *)
Record PointState := mkPoint { BackupID : string; CreatedAtNS : Z }.

(** ** Bucket texts *)
Fixpoint itoa_loop (fuel : nat) (n : Z) (b : list ascii) : list ascii :=
  match fuel with
  | O => b
  | S fuel => if decide (0 < n) then itoa_loop fuel (n ÷ 10) (chr (48 + Z.rem n 10) :: b) else b
  end.

(** A 64-bit number has at most 19 digits. *)
Definition itoa (n : Z) : string := if decide (n = 0) then "0" else ofBytes (itoa_loop 20 n []).
Definition pad2 (n : Z) : string := if decide (n < 10) then "0" +:+ itoa n else itoa n.
Definition isoWeekKey (y w : Z) : string := format_year (date_day y 1 1) +:+ "-W" +:+ pad2 w.

(** The day of a time in nanoseconds. *)
Definition day_of (ns : Z) : Z := ns / (24 * 3600 * 1000000000).

Definition daily_bucket (t : Z) : string := format_day (day_of t).
Definition weekly_bucket (t : Z) : string := let '(y, w) := iso_week (day_of t) in isoWeekKey y w.
Definition monthly_bucket (t : Z) : string := format_month (day_of t).

(** ** The walk of one rule *)
Fixpoint covered_by (bucket : Z -> string) (keep : gset nat) (i : nat) (times : list Z) : gset string :=
  match times with
  | [] => ∅
  | t :: ts => (if decide (i ∈ keep) then {[bucket t]} else ∅) ∪ covered_by bucket keep (S i) ts
  end.

Fixpoint rule_loop (bucket : Z -> string) (count : Z) (i : nat) (times : list Z) (keep : gset nat) (covered : gset string) (kept : Z) : gset nat :=
  match times with
  | [] => keep
  | t :: ts =>
      if decide (count <= kept) then keep
      else if decide (i ∈ keep) then rule_loop bucket count (S i) ts keep covered kept
      else if decide (bucket t ∈ covered) then rule_loop bucket count (S i) ts keep covered kept
      else rule_loop bucket count (S i) ts ({[i]} ∪ keep) ({[bucket t]} ∪ covered) (kept + 1)
  end.

Definition apply_rule (times : list Z) (keep : gset nat) (rule : Z * (Z -> string)) : gset nat :=
  if decide (rule.1 <= 0) then keep
  else rule_loop rule.2 rule.1 0 times keep (covered_by rule.2 keep 0 times) 0.

Definition RetainNewest (times : list Z) (daily weekly monthly : Z) : gset nat :=
  match times with
  | [] => ∅
  | _ :: _ => {[0%nat]} ∪ fold_left (apply_rule times) [(daily, daily_bucket); (weekly, weekly_bucket); (monthly, monthly_bucket)] ∅
  end.

(** The points at positions that are not in [keep]. *)
Fixpoint dropped {A} (keep : gset nat) (i : nat) (l : list A) : list A :=
  match l with [] => [] | x :: l => if decide (i ∈ keep) then dropped keep (S i) l else x :: dropped keep (S i) l end.

(** [sort.Slice] is not stable: any order by falling time. *)
Definition SelectExpired (sort : list PointState -> list PointState) (p : RetentionPolicy) (states : list PointState) : list PointState :=
  let pts := sort states in
  dropped (RetainNewest (map CreatedAtNS pts) (Daily p) (Weekly p) (Monthly p)) 0 pts.

(** ** The reference *)

Definition same_at (bucket : Z -> Z) (times : list Z) (i j : nat) : bool :=
  match times !! i, times !! j with Some t, Some u => bool_decide (bucket t = bucket u) | _, _ => false end.

(** No point kept so far and no newer point is in the bucket of the point at [i]. *)
Definition fresh_at (bucket : Z -> Z) (times : list Z) (keep : gset nat) (i : nat) : bool :=
  forallb (fun j => negb (same_at bucket times i j) || (bool_decide (j ∉ keep) && bool_decide (i <= j)%nat)) (seq 0 (length times)).

(** A rule keeps the newest point of each of its [count] most recent buckets among those
    no kept point is in. *)
Definition rule_picks (times : list Z) (keep : gset nat) (rule : Z * (Z -> Z)) : gset nat :=
  keep ∪ list_to_set (take (Z.to_nat rule.1) (filter (fun i => fresh_at rule.2 times keep i = true) (seq 0 (length times)))).

Definition week_of (t : Z) : Z := week_no (day_of t).
Definition month_of (t : Z) : Z := month_no (day_of t).

Definition retained (times : list Z) (daily weekly monthly : Z) : gset nat :=
  list_to_set (take 1 (seq 0 (length times))) ∪
  fold_left (rule_picks times) [(daily, day_of); (weekly, week_of); (monthly, month_of)] ∅.

(** ** The walk of a rule is the reference's rule *)
Section rule.
Context (times : list Z) (keep : gset nat) (text : Z -> string) (bucket : Z -> Z) (count : Z).
Context (Hbucket : forall i j t u, times !! i = Some t -> times !! j = Some u -> bucket t = bucket u <-> text t = text u).

Definition fresh (i : nat) : Prop := fresh_at bucket times keep i = true.

Lemma fresh_spec i t : times !! i = Some t ->
  fresh i <-> forall j u, times !! j = Some u -> text t = text u -> j ∉ keep /\ (i <= j)%nat.
Proof.
  intros Ht. unfold fresh, fresh_at. rewrite forallb_forall. split.
  - intros H j u Hu Hb. specialize (H j ltac:(apply in_seq; apply lookup_lt_Some in Hu; lia)).
    unfold same_at in H. rewrite Ht, Hu, bool_decide_true in H by (by eapply Hbucket). cbn in H.
    apply andb_true_iff in H as [H1 H2]. apply bool_decide_eq_true in H1, H2. done.
  - intros H j Hj. apply orb_true_iff. unfold same_at. rewrite Ht. destruct (times !! j) as [u|] eqn:Hu; [|by left].
    case_bool_decide as Hb; [right|by left]. destruct (H j u Hu) as [H1 H2]; [by eapply Hbucket|].
    apply andb_true_iff. by rewrite !bool_decide_eq_true.
Qed.

(** What the walk has seen when it is at position [i]. *)
Definition seen (i : nat) : list nat := filter fresh (seq 0 i).

Definition covered_ok (i : nat) (covered : gset string) : Prop :=
  forall k t, times !! k = Some t -> text t ∈ covered <-> exists j u, times !! j = Some u /\ text u = text t /\ (j ∈ keep \/ j ∈ seen i).

Lemma elem_seen i j : j ∈ seen i <-> (j < i)%nat /\ fresh j.
Proof. unfold seen. rewrite list_elem_of_filter, list_elem_of_In, in_seq. split; intros [? ?]; split; (done || lia). Qed.

Lemma fresh_iff i t covered : times !! i = Some t -> covered_ok i covered -> fresh i <-> i ∉ keep /\ text t ∉ covered.
Proof.
  intros Ht Hc. rewrite (fresh_spec i t Ht), (Hc i t Ht). split.
  - intros H. split; [by apply (H i t)|]. intros (j & u & Hu & Hb & Hj). destruct (H j u Hu) as [H1 H2]; [done|].
    destruct Hj as [Hj|[Hj _]%elem_seen]; [done|lia].
  - intros [Hi Hn]. assert (forall j u, times !! j = Some u -> text t = text u -> j ∉ keep) as Hk by naive_solver.
    intros j u Hu Hb. split; [by eapply Hk|]. apply Nat.nlt_ge. revert u Hu Hb.
    induction (lt_wf j) as [j _ IH]. intros u Hu Hb Hlt. apply Hn. exists j, u. split_and!; [done|done|]. right.
    apply elem_seen. split; [done|]. apply (fresh_spec j u Hu). intros k v Hv Hbv.
    split; [apply (Hk k v); congruence|]. apply Nat.nlt_ge. intros Hkj. apply (IH k Hkj v Hv); [congruence|lia].
Qed.

Lemma seen_next i : seen (S i) = seen i ++ (if decide (fresh i) then [i] else []).
Proof. unfold seen. rewrite seq_S, filter_app, filter_cons. cbn. by case_decide. Qed.

Lemma rule_loop_spec ts : forall i covered,
  drop i times = ts -> (i <= length times)%nat -> covered_ok i covered -> Z.of_nat (length (seen i)) <= count ->
  rule_loop text count i ts (keep ∪ list_to_set (seen i)) covered (Z.of_nat (length (seen i))) =
  keep ∪ list_to_set (take (Z.to_nat count) (seen (length times))).
Proof.
  induction ts as [|t ts IH]; intros i covered Hd Hi Hc Hn; cbn [rule_loop].
  { assert (i = length times) as <- by (apply (f_equal length) in Hd; rewrite length_drop in Hd; cbn in Hd; lia).
    by rewrite take_ge by lia. }
  assert (times !! i = Some t) as Ht by (rewrite <- (Nat.add_0_r i), <- lookup_drop, Hd; done).
  assert (drop (S i) times = ts) as Hd' by (rewrite <- (Nat.add_1_r i), <- drop_drop, Hd; done).
  assert (S i <= length times)%nat as Hi' by (apply lookup_lt_Some in Ht; lia).
  case_decide as Hle.
  { assert (exists l, seen (length times) = seen i ++ l) as [l ->].
    { unfold seen. replace (length times) with (i + (length times - i))%nat by lia. rewrite seq_app, filter_app. by eexists. }
    rewrite take_app_length' by lia. done. }
  pose proof (fresh_iff i t covered Ht Hc) as Hf. specialize (IH (S i)). rewrite seen_next in IH.
  assert (i ∈ keep ∪ list_to_set (seen i) <-> i ∈ keep) as Hk.
  { rewrite elem_of_union, elem_of_list_to_set, elem_seen. split; [intros [?|[? _]]; [done|lia]|by left]. }
  destruct (decide (fresh i)) as [Hfr|Hfr].
  - destruct (proj1 Hf Hfr) as [H1 H2]. rewrite decide_False by (by rewrite Hk). rewrite decide_False by done.
    rewrite length_app, list_to_set_app_L in IH. cbn [length list_to_set] in IH. rewrite <- IH with (covered := {[text t]} ∪ covered); [|done|done| |lia].
    + f_equal; [set_solver|lia].
    + intros k u Hu. rewrite elem_of_union, elem_of_singleton, (Hc k u Hu). split.
      * intros [He|(j & v & Hv & Hb & Hj)]; [exists i, t; split_and!; [done|done|right]|exists j, v; split_and!; [done|done|]];
          rewrite seen_next, elem_of_app, decide_True, list_elem_of_singleton by done; [by right|destruct Hj; auto].
      * intros (j & v & Hv & Hb & Hj). rewrite seen_next, elem_of_app, decide_True, list_elem_of_singleton in Hj by done.
        destruct Hj as [Hj|[Hj| ->]]; [right; eauto 6..|left]. congruence.
  - assert (covered_ok (S i) covered) as Hc'.
    { intros k u Hu. rewrite (Hc k u Hu). rewrite seen_next, decide_False, app_nil_r by done. done. }
    rewrite app_nil_r in IH. case_decide as H1; [by apply IH|]. case_decide as H2; [by apply IH|].
    exfalso. apply Hfr, Hf. split; [by rewrite <- Hk|done].
Qed.

Lemma covered_by_spec ts : forall i, drop i times = ts ->
  forall s, s ∈ covered_by text keep i ts <-> exists j u, (i <= j)%nat /\ times !! j = Some u /\ text u = s /\ j ∈ keep.
Proof.
  induction ts as [|t ts IH]; intros i Hd s; cbn [covered_by].
  { split; [set_solver|]. intros (j & u & Hj & Hu & _). exfalso. apply lookup_lt_Some in Hu.
    apply (f_equal length) in Hd. rewrite length_drop in Hd. cbn in Hd. lia. }
  assert (times !! i = Some t) as Ht by (rewrite <- (Nat.add_0_r i), <- lookup_drop, Hd; done).
  rewrite elem_of_union, (IH (S i)) by (rewrite <- (Nat.add_1_r i), <- drop_drop, Hd; done). split.
  - intros [Hs|(j & u & Hj & H)]; [|exists j, u; split; [lia|done]]. case_decide; [|set_solver].
    apply elem_of_singleton in Hs as ->. exists i, t. split_and!; (done || lia).
  - intros (j & u & Hj & Hu & Hs & Hk). destruct (decide (j = i)) as [-> |].
    + left. rewrite decide_True by done. apply elem_of_singleton. congruence.
    + right. exists j, u. split_and!; (done || lia).
Qed.

Lemma apply_rule_spec : apply_rule times keep (count, text) = rule_picks times keep (count, bucket).
Proof.
  unfold apply_rule, rule_picks. cbn [fst snd]. case_decide as Hc.
  { replace (Z.to_nat count) with 0%nat by lia. cbn. set_solver. }
  change (filter (fun i => fresh_at bucket times keep i = true) (seq 0 (length times))) with (seen (length times)).
  rewrite <- (rule_loop_spec times 0 (covered_by text keep 0 times)); [|done|lia| |cbn; lia].
  - cbn. f_equal. set_solver.
  - intros k t Ht. rewrite (covered_by_spec times 0) by done. unfold seen. cbn. split.
    + intros (j & u & _ & H). exists j, u. naive_solver.
    + intros (j & u & H1 & H2 & [H3|H3]); [|by apply elem_of_nil in H3]. exists j, u. split_and!; (done || lia).
Qed.
End rule.

(** ** The texts name the buckets *)
Definition int64_ns (t : Z) : Prop := - 2 ^ 63 <= t < 2 ^ 63.

Lemma int64_days t k : int64_ns t -> -3 <= k <= 3 -> four_digit (day_of t + k).
Proof.
  unfold int64_ns, four_digit, day_of. intros Ht Hk. assert (jan1 0 = -719528 /\ jan1 10000 = 2932897) as [-> ->] by (split; reflexivity).
  Z.to_euclidean_division_equations. lia.
Qed.

Lemma int64_day t : int64_ns t -> four_digit (day_of t).
Proof. intros Ht. replace (day_of t) with (day_of t + 0) by lia. by apply int64_days. Qed.

Lemma pad2_digits n : 0 <= n < 100 -> pad2 n = appendInt n 2.
Proof.
  intros Hn. assert (all_between (fun n => String.eqb (pad2 n) (appendInt n 2)) 0 100 = true) as H by (vm_compute; reflexivity).
  apply String.eqb_eq, (all_between_spec _ _ _ H n Hn).
Qed.

Lemma iso_week_range z : 1 <= (iso_week z).2 < 10 ^ Z.of_nat 2.
Proof.
  unfold iso_week. cbn [snd]. pose proof (year_of_day_spec (thursday z)) as Hy. rewrite jan1_next in Hy.
  pose proof (leap_cases (year_of_day (thursday z))). change (10 ^ Z.of_nat 2) with 100. Z.to_euclidean_division_equations. lia.
Qed.

Lemma jan1_day y : date_day y 1 1 = month_first y 1 /\ civil_of_day (date_day y 1 1) = mkCivil y 1 1.
Proof.
  assert (date_day y 1 1 = month_first y 1) as Hd by (rewrite date_day_month; lia). split; [done|]. rewrite Hd.
  rewrite (civil_of_in_month _ y 1); [f_equal; lia|lia|]. unfold in_month, month_first. split; [lia|].
  pose proof (cum_mono (leap y) 1 2). pose proof (leap_cases y). change (1 + 1) with 2. lia.
Qed.

Lemma weekly_inj t u : int64_ns t -> int64_ns u -> week_of t = week_of u <-> weekly_bucket t = weekly_bucket u.
Proof.
  intros Ht Hu. unfold week_of. rewrite <- iso_week_inj. unfold weekly_bucket, isoWeekKey.
  assert (forall v, int64_ns v -> 0 <= (iso_week (day_of v)).1 < 10 ^ Z.of_nat 4) as Hy.
  { intros v Hv. unfold iso_week. cbn [fst]. apply (four_digit_year (thursday (day_of v))).
    unfold thursday. replace (day_of v + 3 - (weekday (day_of v) + 6) mod 7) with (day_of v + (3 - (weekday (day_of v) + 6) mod 7)) by lia.
    apply int64_days; [done|]. pose proof (Z.mod_pos_bound (weekday (day_of v) + 6) 7). lia. }
  pose proof (Hy t Ht) as Ht'. pose proof (Hy u Hu) as Hu'. pose proof (iso_week_range (day_of t)) as Wt. pose proof (iso_week_range (day_of u)) as Wu.
  destruct (iso_week (day_of t)) as [y w], (iso_week (day_of u)) as [y' w']. cbn [fst snd] in *.
  split; [by intros [= -> ->]|]. unfold format_year. destruct (jan1_day y) as [_ ->], (jan1_day y') as [_ ->]. cbn [year].
  intros [H1 H2]%join_inj; [|by rewrite !length_appendInt]. apply appendInt_inj in H1; [|done..].
  change (10 ^ Z.of_nat 2) with 100 in *. rewrite !pad2_digits in H2 by lia. apply appendInt_inj in H2; [congruence|..]; change (10 ^ Z.of_nat 2) with 100; lia.
Qed.

Lemma RetainNewest_retained times daily weekly monthly : Forall int64_ns times ->
  RetainNewest times daily weekly monthly = retained times daily weekly monthly.
Proof.
  intros Hr. destruct times as [|t0 ts]; [unfold retained, rule_picks; cbn; rewrite !take_nil; set_solver|].
  unfold RetainNewest, retained. cbn [seq length take list_to_set]. set (times := t0 :: ts) in *.
  assert (forall i t, times !! i = Some t -> int64_ns t) as Hi.
  { intros i t Ht. rewrite Forall_forall in Hr. apply Hr. by eapply list_elem_of_lookup_2. }
  assert ({[0%nat]} ∪ list_to_set (take 0 (seq 1 (length ts))) = {[0%nat]} :> gset nat) as -> by (cbn; set_solver).
  f_equal. cbn [fold_left].
  rewrite (apply_rule_spec times ∅ daily_bucket day_of), (apply_rule_spec times _ weekly_bucket week_of), (apply_rule_spec times _ monthly_bucket month_of); [done|..];
    intros i j t u Ht%Hi Hu%Hi; [|by apply weekly_inj|].
  - symmetry. by apply format_month_inj; apply int64_day.
  - symmetry. by apply format_day_inj; apply int64_day.
Qed.

Lemma length_dropped {A} keep (l : list A) : forall i, (length (dropped keep i l) <= length l)%nat.
Proof. induction l as [|x l IH]; intros i; cbn; [done|]. case_decide; cbn; specialize (IH (S i)); lia. Qed.

Lemma size_union_le (X Y : gset nat) : (size (X ∪ Y) <= size X + size Y)%nat.
Proof. rewrite size_union_alt. apply Nat.add_le_mono_l, subseteq_size. set_solver. Qed.

Lemma size_list_to_set_le (l : list nat) : (size (list_to_set l : gset nat) <= length l)%nat.
Proof. induction l as [|x l IH]; cbn; [done|]. etransitivity; [apply size_union_le|]. rewrite size_singleton. lia. Qed.

Lemma size_rule_picks times keep rule : (size (rule_picks times keep rule) <= size keep + Z.to_nat rule.1)%nat.
Proof.
  unfold rule_picks. etransitivity; [apply size_union_le|]. apply Nat.add_le_mono_l.
  etransitivity; [apply size_list_to_set_le|]. rewrite length_take. lia.
Qed.

(** C36: retention expires exactly the points the rotation does not retain: by the daily,
    then the weekly, then the monthly rule it retains the newest point of each of the
    most recent days, weeks from a Monday and months that no point retained so far is
    in, as many of each as the policy says, and always the newest point.  So it never
    expires all points, and never keeps more than the policy's counts and one. *)
Theorem retention_refines (sort : list PointState -> list PointState) (p : RetentionPolicy) (states : list PointState) :
  sort states ≡ₚ states -> Sorted (fun a b => CreatedAtNS b <= CreatedAtNS a) (sort states) ->
  Forall (fun s => int64_ns (CreatedAtNS s)) states ->
  let keep := retained (map CreatedAtNS (sort states)) (Daily p) (Weekly p) (Monthly p) in
  SelectExpired sort p states = dropped keep 0 (sort states) /\
  (size keep <= 1 + Z.to_nat (Daily p) + Z.to_nat (Weekly p) + Z.to_nat (Monthly p))%nat /\
  forall s, s ∈ states -> exists i newest, i ∈ keep /\ sort states !! i = Some newest /\ CreatedAtNS s <= CreatedAtNS newest.
Proof.
  intros Hp Hs Hr keep. assert (Forall int64_ns (map CreatedAtNS (sort states))) as Hr'.
  { rewrite Forall_fmap. rewrite Forall_forall in Hr. apply Forall_forall. intros s Hin. apply (Hr s). by rewrite <- Hp. }
  split_and!.
  - unfold SelectExpired. by rewrite RetainNewest_retained.
  - unfold keep, retained. cbn [fold_left]. set (times := map CreatedAtNS (sort states)).
    etransitivity; [apply size_union_le|]. etransitivity; [apply Nat.add_le_mono; [apply size_list_to_set_le|apply size_rule_picks]|].
    rewrite length_take. pose proof (size_rule_picks times (rule_picks times ∅ (Daily p, day_of)) (Weekly p, week_of)).
    pose proof (size_rule_picks times ∅ (Daily p, day_of)) as H1. rewrite size_empty in H1. cbn [fst] in *. lia.
  - intros s Hin. destruct (sort states) as [|n l] eqn:El; [by apply Permutation_nil in Hp as ->; apply elem_of_nil in Hin|].
    exists 0%nat, n. split_and!; [unfold keep, retained; cbn; set_solver|done|].
    apply Sorted_StronglySorted in Hs; [|intros a b c; lia]. apply StronglySorted_inv in Hs as [_ Hs]. rewrite Forall_forall in Hs.
    rewrite <- Hp in Hin. apply elem_of_cons in Hin as [-> |Hin]; [lia|by apply Hs].
Qed.

(** ** Examples *)
Definition newer (a b : PointState) : Prop := CreatedAtNS b <= CreatedAtNS a.
#[export] Instance newer_dec a b : Decision (newer a b).
Proof. unfold newer. apply _. Defined.
#[export] Instance newer_trans : Transitive newer.
Proof. intros a b c. unfold newer. lia. Qed.
#[export] Instance newer_total : Total newer.
Proof. intros a b. unfold newer. lia. Qed.

(** A point of the day [n] days before 2024-01-10, at noon. *)
Definition point (id : string) (n : Z) : PointState := mkPoint id ((date_day 2024 1 10 - n) * 86400000000000 + 43200000000000).

Definition some_points : list PointState := [point "w" 7; point "today" 0; point "monday" 2; point "december" 20; point "older" 40].

(** One of each: the newest point, the newest one of an earlier week, and the newest one
    of a month that neither is in. *)
Example retention_one_each :
  map BackupID (SelectExpired (merge_sort newer) (mkRetention 1 1 1) some_points) = ["monday"; "older"]%string.
Proof. vm_compute. reflexivity. Qed.

(** Nothing is asked for: the newest point stays. *)
Example retention_nothing :
  map BackupID (SelectExpired (merge_sort newer) (mkRetention 0 0 0) some_points) = ["monday"; "w"; "december"; "older"]%string.
Proof. vm_compute. reflexivity. Qed.

Lemma retention_refines_witness :
  SelectExpired (merge_sort newer) (mkRetention 1 1 1) some_points =
    dropped (retained (map CreatedAtNS (merge_sort newer some_points)) 1 1 1) 0 (merge_sort newer some_points) /\
  retained (map CreatedAtNS (merge_sort newer some_points)) 1 1 1 = {[0; 2; 3]}%nat.
Proof.
  split; [|vm_compute; reflexivity].
  refine (proj1 (retention_refines (merge_sort newer) (mkRetention 1 1 1) some_points _ _ _)).
  - apply merge_sort_Permutation.
  - apply (Sorted_merge_sort newer).
  - repeat (apply Forall_cons; split; [vm_compute; split; [discriminate|reflexivity]|]). by constructor.
Defined.
