(* ===== verification/Cron.v ===== *)
(** * Schedules ([src/internal/automation/flowdef/cron.go])

    Cron lines, presets, and the search for the next run.  A location is what its lookup
    answers: the offset in force at an instant and the period it is in force for (a
    parameter: the time-zone database is data).  [Date] is the standard library's own
    choice of the instant of a civil time, the doubtful ones at a change of offset
    included, because the search is built on it. *)
From S2P Require Export Civil Value.

(** ** Go's [time] in a location *)
Record Location := mkLocation { lookup_zone : Z -> Z * Z * Z }.   (* offset, start, end, in seconds *)

Definition offset_at (loc : Location) (u : Z) : Z := let '(o, _, _) := lookup_zone loc u in o.

(** A location whose offset never changes; [UTC] is the one of offset 0. *)
Definition fixed_zone (o : Z) : Location := mkLocation (fun _ => (o, - 2 ^ 63, 2 ^ 63 - 1)).
Definition UTC : Location := fixed_zone 0.

Record stamp := mkStamp { sDay : Z; sHour : Z; sMinute : Z; sSecond : Z }.

Definition local (loc : Location) (u : Z) : stamp :=
  let l := u + offset_at loc u in
  mkStamp (l / 86400) (l mod 86400 / 3600) (l mod 3600 / 60) (l mod 60).

Definition Date (loc : Location) (y m d h mi s : Z) : Z :=
  let unix := date_day y m d * 86400 + h * 3600 + mi * 60 + s in
  let '(o, start, end_) := lookup_zone loc unix in
  if decide (o = 0) then unix
  else
    let utc := unix - o in
    unix - (if decide (utc < start \/ end_ <= utc) then offset_at loc utc else o).

Definition AddYears (loc : Location) (u n : Z) : Z :=
  let t := local loc u in let c := civil_of_day (sDay t) in
  Date loc (year c + n) (month c) (day c) (sHour t) (sMinute t) (sSecond t).

(** ** Cron lines *)
Record Cron := mkCron {
  src : string; minute : list bool; hour : list bool; dom : list bool; monthSet : list bool; dw : list bool; domStar : bool; dowStar : bool }.

(** An index into one of the sets; the sets are as long as the code makes them. *)
Definition at_ (l : list bool) (i : Z) : bool := nth (Z.to_nat i) l false.

Definition monthNames : list (string * Z) :=
  [("jan", 1); ("feb", 2); ("mar", 3); ("apr", 4); ("may", 5); ("jun", 6); ("jul", 7); ("aug", 8); ("sep", 9); ("oct", 10); ("nov", 11); ("dec", 12)]%string.
Definition dayNames : list (string * Z) := [("sun", 0); ("mon", 1); ("tue", 2); ("wed", 3); ("thu", 4); ("fri", 5); ("sat", 6)]%string.

Inductive cronError :=
  | NeedsFields (got : nat) | BadStep (part : string) | BadRange (part : string) | BadValue (part : string) | Outside (part : string)
  (* not an error value: an index out of range, which panics *)
  | PanicIndex (v : Z).
Inductive fieldName := FMinute | FHour | FDom | FMonth | FWeekday | FLine.

Fixpoint Join (l : list string) (sep : string) : string :=
  match l with [] => "" | [s] => s | s :: l => s +:+ sep +:+ Join l sep end.

Section cron.
Context {CT : CaseTables}.

Definition cronValue (s : string) (names : list (string * Z)) : option Z :=
  match assoc (ToLower s) names with Some v => Some v | None => Atoi s end.

(** [set[v] = true]. *)
Definition set_at (set : list bool) (v : Z) : result cronError (list bool) :=
  if decide (0 <= v < Z.of_nat (length set)) then Ok (<[Z.to_nat v := true]> set) else Err (PanicIndex v).

(** The loop over the values; [v += step] wraps. *)
Fixpoint set_loop (fuel : nat) (set : list bool) (v to step : Z) : result cronError (list bool) :=
  if decide (v <= to) then
    match fuel with
    | O => Err (PanicIndex v)
    | S fuel => set ← set_at set v; set_loop fuel set (i64 (v + step)) to step
    end
  else Ok set.

(** The step of a part, and the part without it. *)
Definition part_step (part : string) : result cronError (Z * string) :=
  match Index part "/" with
  | None => Ok (1, part)
  | Some i => match Atoi (ofBytes (drop (i + 1) (bytes part))) with
              | Some n => if decide (n < 1) then Err (BadStep part) else Ok (n, ofBytes (take i (bytes part)))
              | None => Err (BadStep part)
              end
  end.

Definition part_range (part : string) (lo hi step : Z) (names : list (string * Z)) : result cronError (Z * Z) :=
  if decide (part = "*"%string \/ part = "?"%string) then Ok (lo, hi)
  else match Index part "-" with
       | Some i =>
           match cronValue (ofBytes (take i (bytes part))) names, cronValue (ofBytes (drop (i + 1) (bytes part))) names with
           | Some a, Some b => Ok (a, b)
           | _, _ => Err (BadRange part)
           end
       | None => match cronValue part names with
                 | Some v => Ok (v, if decide (1 < step) then hi else v)
                 | None => Err (BadValue part)
                 end
       end.

Definition cronPart (part : string) (lo hi : Z) (names : list (string * Z)) (set : list bool) : result cronError (list bool) :=
  '(step, part) ← part_step part;
  '(from, to) ← part_range part lo hi step names;
  if decide (from < lo \/ hi < to \/ to < from) then Err (Outside part)
  else set_loop (S (Z.to_nat (hi - lo))) set from to step.

Definition cronField (s : string) (lo hi : Z) (names : list (string * Z)) : result cronError (list bool) :=
  fold_left (fun r part => set ← r; cronPart part lo hi names set) (Split s "," ) (Ok (repeat false (Z.to_nat (hi + 1)))).

(** The error of a field with its name. *)
Definition named {A} (f : fieldName) (r : result cronError A) : result (fieldName * cronError) A :=
  match r with Ok a => Ok a | Err e => Err (f, e) end.

Definition is_star (s : string) : bool := bool_decide (s = "*"%string) || bool_decide (s = "?"%string).

Definition ParseCron (line : string) : result (fieldName * cronError) Cron :=
  match Fields line with
  | [f0; f1; f2; f3; f4] =>
      mi ← named FMinute (cronField f0 0 59 []);
      h ← named FHour (cronField f1 0 23 []);
      d ← named FDom (cronField f2 1 31 []);
      mo ← named FMonth (cronField f3 1 12 monthNames);
      w ← named FWeekday (cronField f4 0 7 dayNames);
      let w := if at_ w 7 then <[0%nat := true]> w else w in
      Ok (mkCron (Join [f0; f1; f2; f3; f4] " ") mi h d mo w (is_star f2) (is_star f4))
  | fs => Err (FLine, NeedsFields (length fs))
  end.
End cron.

(** ** The next run *)
Definition dayMatches (c : Cron) (z : Z) : bool :=
  let d := at_ (dom c) (day (civil_of_day z)) in
  let w := at_ (dw c) (weekday z) in
  if negb (domStar c) && negb (dowStar c) then d || w else d && w.

(** What one round of the search does: look further, or stop here. *)
Inductive round := Onward (u : Z) | Found.

Definition next_round (c : Cron) (loc : Location) (u : Z) : round :=
  let t := local loc u in let d := civil_of_day (sDay t) in
  if negb (at_ (monthSet c) (month d)) then Onward (Date loc (year d) (month d + 1) 1 0 0 0)
  else if negb (dayMatches c (sDay t)) then Onward (Date loc (year d) (month d) (day d + 1) 0 0 0)
  else if negb (at_ (hour c) (sHour t)) then Onward (Date loc (year d) (month d) (day d) (sHour t + 1) 0 0)
  else if negb (at_ (minute c) (sMinute t)) then Onward (u + 60)
  else Found.

(** [Some None] is the zero time: nothing before the limit.  [None]: out of fuel. *)
Fixpoint next_loop (fuel : nat) (c : Cron) (loc : Location) (limit u : Z) : option (option Z) :=
  if decide (u < limit) then
    match fuel with
    | O => None
    | S fuel => match next_round c loc u with Onward u' => next_loop fuel c loc limit u' | Found => Some (Some u) end
    end
  else Some None.

(** [ns] is the instant in nanoseconds; the result is in seconds. *)
Definition start_of (ns : Z) : Z := ns / 60000000000 * 60 + 60.
Definition Next (fuel : nat) (c : Cron) (loc : Location) (ns : Z) : option (option Z) :=
  next_loop fuel c loc (AddYears loc (start_of ns) 5) (start_of ns).

(** ** Schedule triggers *)
Record ScheduleSpec := mkSpec { Preset : string; cronText : string; Timezone : string; At : string; Weekday : Z }.

(** What [strconv.Atoi] returns beside an error: 0, or the nearest integer when the number
    does not fit. *)
Definition AtoiValue (s : string) : Z :=
  match Atoi s with
  | Some n => n
  | None =>
      let '(neg, l) := match bytes s with
                       | a :: l => if byteZ a =? 45 then (true, l) else if byteZ a =? 43 then (false, l) else (false, a :: l)
                       | [] => (false, [])
                       end in
      match l, parse_digits l 0 with
      | _ :: _, Some _ => if neg : bool then - 2 ^ 63 else 2 ^ 63 - 1
      | _, _ => 0
      end
  end.

Definition asString (v : value) : string := match v with VStr s => s | _ => "" end.

Definition ScheduleFromConfig (cfg : list (string * value)) : ScheduleSpec :=
  let preset := asString (field "preset" cfg) in
  let cron := asString (field "cron" cfg) in
  let wd := match field "weekday" cfg with
            | VNum f => int64_of_float f
            | VInt n => n
            | VStr s => AtoiValue s
            | _ => 1
            end in
  mkSpec (if decide (preset = ""%string /\ cron <> ""%string) then "cron" else preset) cron
    (asString (field "timezone" cfg)) (asString (field "at" cfg)) wd.

Definition is_digit (a : ascii) : bool := (48 <=? byteZ a) && (byteZ a <=? 57).

(** [time.Parse] of the layout "15:04": one or two digits, a colon, two digits. *)
Definition parse_clock (s : string) : option (Z * Z) :=
  let d a := byteZ a - 48 in
  let minutes h l :=
    match l with
    | [c; a; b] => if bool_decide (c = ":"%char) && is_digit a && is_digit b && bool_decide (h < 24) && bool_decide (d a * 10 + d b < 60)
                   then Some (h, d a * 10 + d b) else None
    | _ => None
    end in
  match bytes s with
  | a :: b :: l => if negb (is_digit a) then None
                   else if is_digit b then minutes (d a * 10 + d b) l else minutes (d a) (b :: l)
  | _ => None
  end.

Inductive scheduleError := BadAt | BadWeekday | NeedsCron | BadPreset | BadLine (e : fieldName * cronError) | BadZone | NeverRuns.

Definition CronLine (s : ScheduleSpec) : result scheduleError string :=
  '(hh, mm) ← (if decide (TrimSpace (At s) <> ""%string)
               then match parse_clock (TrimSpace (At s)) with Some t => Ok t | None => Err BadAt end
               else Ok (3, 0));
  if decide (Preset s = "every_5_minutes"%string) then Ok "*/5 * * * *"%string
  else if decide (Preset s = "hourly"%string) then Ok "0 * * * *"%string
  else if decide (Preset s = "daily"%string) then Ok (Itoa mm +:+ " " +:+ Itoa hh +:+ " * * *")
  else if decide (Preset s = "weekly"%string) then
    if decide (Weekday s < 0 \/ 6 < Weekday s) then Err BadWeekday
    else Ok (Itoa mm +:+ " " +:+ Itoa hh +:+ " * * " +:+ Itoa (Weekday s))
  else if decide (Preset s = "cron"%string) then
    if decide (TrimSpace (cronText s) = ""%string) then Err NeedsCron else Ok (cronText s)
  else Err BadPreset.

(** The zones that can be loaded are the time-zone database's. *)
Definition ScheduleLocation (LoadLocation : string -> option Location) (s : ScheduleSpec) : result scheduleError Location :=
  let tz := TrimSpace (Timezone s) in
  if decide (tz = ""%string) then Ok UTC else match LoadLocation tz with Some l => Ok l | None => Err BadZone end.

Definition ScheduleNext `{CaseTables} (LoadLocation : string -> option Location) (fuel : nat) (s : ScheduleSpec) (ns : Z)
  : option (result scheduleError Z) :=
  match CronLine s with
  | Err e => Some (Err e)
  | Ok line =>
      match ParseCron line with
      | Err e => Some (Err (BadLine e))
      | Ok c =>
          match ScheduleLocation LoadLocation s with
          | Err e => Some (Err e)
          | Ok loc =>
              match Next fuel c loc ns with
              | None => None
              | Some None => Some (Err NeverRuns)
              | Some (Some u) => Some (Ok u)
              end
          end
      end
  end.
