(* ===== verification/CronProps.v ===== *)
(** * What a cron line denotes, and that the search finds its next minute *)
From S2P Require Export Cron.

(** ** What a field denotes *)

(** The values a part stands for: from its first value in its steps to its last. *)
Definition part_denotes `{CaseTables} (part : string) (lo hi : Z) (names : list (string * Z)) (v : Z) : Prop :=
  exists step rest from to k, part_step part = Ok (step, rest) /\ part_range rest lo hi step names = Ok (from, to) /\
    0 <= k /\ v = from + k * step /\ v <= to.

Definition denotes `{CaseTables} (s : string) (lo hi : Z) (names : list (string * Z)) (v : Z) : Prop :=
  exists part, part ∈ Split s "," /\ part_denotes part lo hi names v.

Lemma at_insert l i v : 0 <= i -> 0 <= v < Z.of_nat (length l) -> at_ (<[Z.to_nat v := true]> l) i = true <-> i = v \/ at_ l i = true.
Proof.
  intros Hi Hv. unfold at_. rewrite !nth_lookup. destruct (decide (i = v)) as [-> |Hne].
  - rewrite list_lookup_insert_eq by lia. naive_solver.
  - rewrite list_lookup_insert_ne by lia. naive_solver.
Qed.

Lemma set_loop_spec fuel : forall set v to step set', 0 <= v -> 1 <= step < 2 ^ 63 -> to < 2 ^ 62 -> set_loop fuel set v to step = Ok set' ->
  length set' = length set /\
  forall i, 0 <= i -> at_ set' i = true <-> at_ set i = true \/ exists k, 0 <= k /\ i = v + k * step /\ i <= to.
Proof.
  induction fuel as [|fuel IH]; intros set v to step set' Hv Hs Ht; cbn [set_loop]; case_decide as Hle; try done.
  1, 3: intros [= <-]; split; [done|]; intros i Hi; split; [by left|]; intros [?|(k & Hk & -> & H)]; [done|]; exfalso; nia.
  unfold set_at. case_decide as Hin; [|done]. cbn. intros Hl.
  assert (v + step < 2 ^ 63) as Hw.
  { apply Z.nle_gt. intros Hge. assert (i64 (v + step) < 0) as Hneg.
    { unfold i64. replace (v + step + 2 ^ 63) with (v + step - 2 ^ 63 + 1 * 2 ^ 64) by lia. rewrite Z.mod_add, Z.mod_small by lia. lia. }
    destruct fuel; cbn [set_loop] in Hl; rewrite decide_True in Hl by lia; [done|].
    unfold set_at in Hl. rewrite decide_False in Hl by lia. done. }
  rewrite i64_id in Hl by lia. apply IH in Hl as [Hlen Hat]; [|lia..]. split; [by rewrite Hlen, length_insert|].
  intros i Hi. rewrite (Hat i Hi), at_insert by lia. split.
  - intros [[-> |H]|(k & Hk & -> & H)]; [right; exists 0; lia|by left|right; exists (k + 1); lia].
  - intros [H|(k & Hk & -> & H)]; [by left; right|]. destruct (decide (k = 0)) as [-> |]; [left; left; lia|].
    right. exists (k - 1). lia.
Qed.

Section parse.
Context {CT : CaseTables}.

Lemma Atoi_range s n : Atoi s = Some n -> - 2 ^ 63 <= n < 2 ^ 63.
Proof.
  unfold Atoi. destruct (match bytes s with [] => _ | a :: l => _ end) as [neg l]. destruct l; [done|].
  destruct (parse_digits _ 0) as [m|]; [|done]. cbn zeta. destruct ((_ <=? _) && _) eqn:Hb; [|done].
  intros [= <-]. apply andb_true_iff in Hb as [H1 H2]. lia.
Qed.

Lemma part_step_range part step rest : part_step part = Ok (step, rest) -> 1 <= step < 2 ^ 63.
Proof.
  unfold part_step. destruct (Index part "/"); [|intros [= <- <-]; lia].
  destruct (Atoi _) as [n0|] eqn:Ha; [|done]. case_decide; [done|]. intros [= <- <-]. apply Atoi_range in Ha. lia.
Qed.

Lemma cronPart_spec part lo hi names set set' : 0 <= lo -> hi < 2 ^ 62 -> cronPart part lo hi names set = Ok set' ->
  length set' = length set /\ forall i, 0 <= i -> at_ set' i = true <-> at_ set i = true \/ part_denotes part lo hi names i.
Proof.
  intros Hlo Hhi. unfold cronPart. destruct (part_step part) as [[step rest]|e] eqn:Es; [|done]. cbn [mbind result_mbind].
  destruct (part_range rest lo hi step names) as [[from to]|e] eqn:Er; [|done]. cbn [mbind result_mbind]. case_decide as Hd; [done|]. intros Hl.
  pose proof (part_step_range _ _ _ Es) as Hs. apply set_loop_spec in Hl as [Hlen Hat]; [|lia..]. split; [done|].
  intros i Hi. rewrite (Hat i Hi). split; (intros [H|H]; [by left|right]).
  - destruct H as (k & Hk & -> & H). by exists step, rest, from, to, k.
  - destruct H as (step' & rest' & from' & to' & k & Es' & Er' & Hk & -> & H). rewrite Es in Es'. injection Es' as <- <-.
    rewrite Er in Er'. injection Er' as <- <-. by exists k.
Qed.

Lemma fold_err {A E B} (f : A -> B -> result E A) l e : fold_left (fun (r : result E A) x => a ← r; f a x) l (Err e) = Err e.
Proof. induction l as [|x l IH]; [done|exact IH]. Qed.

Lemma cronField_spec s lo hi names set : 0 <= lo -> hi < 2 ^ 62 -> cronField s lo hi names = Ok set ->
  length set = Z.to_nat (hi + 1) /\ forall i, 0 <= i -> at_ set i = true <-> denotes s lo hi names i.
Proof.
  intros Hlo Hhi. unfold cronField, denotes.
  assert (forall ps set0, fold_left (fun r part => set ← r; cronPart part lo hi names set) ps (Ok set0) = Ok set ->
    length set = length set0 /\ forall i, 0 <= i -> at_ set i = true <-> at_ set0 i = true \/ exists part, part ∈ ps /\ part_denotes part lo hi names i) as H.
  { induction ps as [|p ps IH]; intros set0; cbn [fold_left].
    - intros [= <-]. split; [done|]. intros i Hi. split; [by left|]. intros [?|(? & ?%elem_of_nil & _)]; done.
    - cbn [mbind result_mbind]. destruct (cronPart p lo hi names set0) as [set1|e] eqn:Ep; [|by rewrite fold_err].
      intros Hf. destruct (IH _ Hf) as [Hl Ha]. destruct (cronPart_spec _ _ _ _ _ _ Hlo Hhi Ep) as [Hl1 Ha1].
      split; [congruence|]. intros i Hi. rewrite (Ha i Hi), (Ha1 i Hi). setoid_rewrite elem_of_cons. naive_solver. }
  intros Hf. destruct (H _ _ Hf) as [Hl Ha]. split; [by rewrite Hl, repeat_length|].
  intros i Hi. rewrite (Ha i Hi). split; [|by right]. intros [Hr|?]; [|done]. exfalso. unfold at_ in Hr.
  clear -Hr. revert Hr. generalize (Z.to_nat (hi + 1)) (Z.to_nat i). intros n. induction n as [|n IH]; intros [|k]; cbn; naive_solver.
Qed.

Lemma named_ok {A} f (r : result cronError A) a : named f r = Ok a -> r = Ok a.
Proof. destruct r; [by intros [= ->]|done]. Qed.

(** The days a line names: when both day fields are restricted, either of them is enough. *)
Definition weekday_denoted (f4 : string) (z : Z) : Prop :=
  denotes f4 0 7 dayNames (weekday z) \/ (weekday z = 0 /\ denotes f4 0 7 dayNames 7).
Definition day_denoted (f2 f4 : string) (z : Z) : Prop :=
  let d := denotes f2 1 31 [] (day (civil_of_day z)) in
  if is_star f2 || is_star f4 then d /\ weekday_denoted f4 z else d \/ weekday_denoted f4 z.

(** The instants a line names. *)
Definition named_by (line : string) (loc : Location) (u : Z) : Prop :=
  exists f0 f1 f2 f3 f4, Fields line = [f0; f1; f2; f3; f4] /\
  let t := local loc u in
  denotes f0 0 59 [] (sMinute t) /\ denotes f1 0 23 [] (sHour t) /\
  denotes f3 1 12 monthNames (month (civil_of_day (sDay t))) /\ day_denoted f2 f4 (sDay t).

Definition matches (c : Cron) (loc : Location) (u : Z) : Prop := next_round c loc u = Found.

Lemma matches_unfold c loc u : let t := local loc u in
  matches c loc u <-> at_ (monthSet c) (month (civil_of_day (sDay t))) = true /\ dayMatches c (sDay t) = true /\
    at_ (hour c) (sHour t) = true /\ at_ (minute c) (sMinute t) = true.
Proof.
  unfold matches, next_round. cbn zeta. destruct (at_ (monthSet c) _), (dayMatches c _), (at_ (hour c) _), (at_ (minute c) _); cbn [negb];
    (split; [intros; repeat split; congruence|intros (?&?&?&?); congruence]).
Qed.

Lemma local_range loc u : let t := local loc u in 0 <= sHour t /\ 0 <= sMinute t.
Proof. cbn. split; Z.to_euclidean_division_equations; lia. Qed.

Lemma ParseCron_spec line c loc u : ParseCron line = Ok c -> matches c loc u <-> named_by line loc u.
Proof.
  unfold ParseCron. intros Hp.
  destruct (Fields line) as [|f0 [|f1 [|f2 [|f3 [|f4 [|f5 fs]]]]]] eqn:Ef; try done. cbn [mbind result_mbind] in Hp.
  destruct (named FMinute _) as [mi|] eqn:E0; [|done]. destruct (named FHour _) as [h|] eqn:E1; [|done].
  destruct (named FDom _) as [d|] eqn:E2; [|done]. destruct (named FMonth _) as [mo|] eqn:E3; [|done].
  destruct (named FWeekday _) as [w|] eqn:E4; [|done]. injection Hp as <-.
  apply named_ok, cronField_spec in E0 as [_ E0]; [|lia..]. apply named_ok, cronField_spec in E1 as [_ E1]; [|lia..].
  apply named_ok, cronField_spec in E2 as [_ E2]; [|lia..]. apply named_ok, cronField_spec in E3 as [_ E3]; [|lia..].
  apply named_ok, cronField_spec in E4 as [L4 E4]; [|lia..].
  rewrite matches_unfold. cbn zeta. cbn [minute hour dom monthSet dw domStar dowStar].
  destruct (local_range loc u) as [Hh Hm]. set (t := local loc u) in *. pose proof (in_month_civil (sDay t)) as (Hmo & _ & _). cbn zeta in Hmo.
  assert (forall z, dayMatches (mkCron (Join [f0; f1; f2; f3; f4] " ") mi h d mo (if at_ w 7 then <[0%nat := true]> w else w) (is_star f2) (is_star f4)) z = true
    <-> day_denoted f2 f4 z) as Hday.
  { intros z. unfold dayMatches, day_denoted, weekday_denoted. cbn [dom dw domStar dowStar].
    assert (0 <= weekday z) by (unfold weekday; apply Z.mod_pos_bound; lia).
    assert (at_ (if at_ w 7 then <[0%nat := true]> w else w) (weekday z) = true <->
      denotes f4 0 7 dayNames (weekday z) \/ weekday z = 0 /\ denotes f4 0 7 dayNames 7) as Hw.
    { rewrite <- !E4 by lia. destruct (at_ w 7) eqn:E7; [|naive_solver].
      pose proof (at_insert w (weekday z) 0) as Hi. change (Z.to_nat 0) with 0%nat in Hi. rewrite Hi by (rewrite ?L4; lia). naive_solver. }
    assert (0 <= day (civil_of_day z)) by (destruct (civil_two z) as [_ ?]; lia).
    cbn zeta. destruct (is_star f2), (is_star f4); cbn [negb andb orb]; rewrite ?andb_true_iff, ?orb_true_iff, Hw, E2; done. }
  rewrite Hday, E0, E1, E3 by lia. unfold named_by. rewrite Ef. split.
  - intros (H1 & H2 & H3 & H4). by exists f0, f1, f2, f3, f4.
  - intros (? & ? & ? & ? & ? & [= <- <- <- <- <-] & H1 & H2 & H3 & H4). done.
Qed.
End parse.

(** ** The search, at a fixed offset *)
Section search.
Context (c : Cron) (o : Z) (Ho : o mod 60 = 0).
Notation loc := (fixed_zone o).

Lemma Date_fixed y m d h mi s : Date loc y m d h mi s = date_day y m d * 86400 + h * 3600 + mi * 60 + s - o.
Proof. unfold Date. cbn. case_decide; [lia|]. by case_decide. Qed.

Lemma Onward_inj a b : Onward a = Onward b -> a = b.
Proof. congruence. Qed.

(** A round goes on past minutes the line does not name, and at least one. *)
Lemma round_onward u u' : u mod 60 = 0 -> next_round c loc u = Onward u' ->
  u < u' /\ u' mod 60 = 0 /\ forall v, u <= v < u' -> v mod 60 = 0 -> ~ matches c loc v.
Proof.
  intros Hu. set (L := u + o).
  assert (local loc u = mkStamp (L / 86400) (L mod 86400 / 3600) (L mod 3600 / 60) (L mod 60)) as Hloc by done.
  unfold next_round. rewrite Hloc. cbn zeta. cbn [sDay sHour sMinute]. set (z := L / 86400).
  destruct (in_month_civil z) as (Hm & Hin & Hd). cbn zeta in *. set (y := year (civil_of_day z)) in *. set (m := month (civil_of_day z)) in *.
  destruct (at_ (monthSet c) m) eqn:Em; cbn [negb].
  2:{ intros <-%Onward_inj. rewrite Date_fixed, date_day_next by done. unfold in_month in Hin.
      split_and!; [unfold z, L in *; Z.to_euclidean_division_equations; lia|Z.to_euclidean_division_equations; lia|].
      intros v Hv _ Hmat. apply matches_unfold in Hmat as [Hmo _]. change (sDay (local loc v)) with ((v + o) / 86400) in Hmo.
      rewrite (civil_of_in_month _ y m) in Hmo; [cbn [month] in Hmo; congruence|done|]. unfold in_month, z, L in *.
      Z.to_euclidean_division_equations. lia. }
  destruct (dayMatches c z) eqn:Ed; cbn [negb].
  2:{ intros <-%Onward_inj. rewrite Date_fixed, date_day_month, Hd by done.
      split_and!; [unfold z, L in *; Z.to_euclidean_division_equations; lia|Z.to_euclidean_division_equations; lia|].
      intros v Hv _ Hmat. apply matches_unfold in Hmat as (_ & Hday & _). change (sDay (local loc v)) with ((v + o) / 86400) in Hday.
      assert ((v + o) / 86400 = z) as Hz by (unfold z, L in *; Z.to_euclidean_division_equations; lia). by rewrite Hz, Ed in Hday. }
  destruct (at_ (hour c) (L mod 86400 / 3600)) eqn:Eh; cbn [negb].
  2:{ intros <-%Onward_inj. rewrite Date_fixed, date_day_month, Hd by done.
      split_and!; [unfold z, L in *; Z.to_euclidean_division_equations; lia|Z.to_euclidean_division_equations; lia|].
      intros v Hv _ Hmat. apply matches_unfold in Hmat as (_ & _ & Hh & _). change (sHour (local loc v)) with ((v + o) mod 86400 / 3600) in Hh.
      assert ((v + o) mod 86400 / 3600 = L mod 86400 / 3600) as Hz by (unfold z, L in *; Z.to_euclidean_division_equations; lia).
      by rewrite Hz, Eh in Hh. }
  destruct (at_ (minute c) (L mod 3600 / 60)) eqn:Ei; cbn [negb]; [done|]. intros <-%Onward_inj.
  split_and!; [lia|Z.to_euclidean_division_equations; lia|]. intros v Hv Hv60 Hmat.
  assert (v = u) as -> by (Z.to_euclidean_division_equations; lia). unfold matches, next_round in Hmat. rewrite Hloc in Hmat.
  cbn zeta in Hmat. cbn [sDay sHour sMinute] in Hmat. fold z in Hmat. fold m in Hmat. rewrite Em, Ed, Eh, Ei in Hmat. done.
Qed.

Lemma next_loop_spec limit fuel : forall u, u mod 60 = 0 -> (Z.to_nat (limit - u) < fuel)%nat ->
  match next_loop fuel c loc limit u with
  | None => False
  | Some (Some w) => u <= w < limit /\ w mod 60 = 0 /\ matches c loc w /\ forall v, u <= v < w -> v mod 60 = 0 -> ~ matches c loc v
  | Some None => forall v, u <= v < limit -> v mod 60 = 0 -> ~ matches c loc v
  end.
Proof.
  induction fuel as [|fuel IH]; intros u Hu Hf; [lia|]. cbn [next_loop]. case_decide as Hlt; [|intros v Hv; lia].
  destruct (next_round c loc u) as [u'|] eqn:Er; [|split_and!; [lia|lia|done|done|intros v Hv; lia]].
  destruct (round_onward u u' Hu Er) as (Hlt' & Hu' & Hno). specialize (IH u' Hu' ltac:(lia)).
  destruct (next_loop fuel c loc limit u') as [[w|]|]; [|..|done].
  - destruct IH as (Hw & Hw60 & Hm & Hv). split_and!; [lia|lia|done|done|]. intros v Hv1 Hv2.
    destruct (decide (v < u')); [apply Hno; [lia|done]|apply Hv; [lia|done]].
  - intros v Hv1 Hv2. destruct (decide (v < u')); [apply Hno; [lia|done]|apply IH; [lia|done]].
Qed.
End search.

(** C37: in a location whose offset does not change, the search for the next run always
    ends, and finds the first minute strictly after the given instant that the text of
    the line names; it finds nothing exactly when the line names no minute in the five
    years it looks ahead. *)
Theorem schedule_next `{CaseTables} (line : string) (c : Cron) (o ns : Z) :
  ParseCron line = Ok c -> o mod 60 = 0 ->
  let loc := fixed_zone o in
  let limit := AddYears loc (start_of ns) 5 in
  exists fuel0, forall fuel, (fuel0 <= fuel)%nat ->
  match Next fuel c loc ns with
  | None => False
  | Some (Some w) =>
      ns < w * 1000000000 /\ w mod 60 = 0 /\ w < limit /\ named_by line loc w /\
      forall v, ns < v * 1000000000 -> v < w -> v mod 60 = 0 -> ~ named_by line loc v
  | Some None => forall v, ns < v * 1000000000 -> v < limit -> v mod 60 = 0 -> ~ named_by line loc v
  end.
Proof.
  intros Hp Ho loc limit. exists (S (Z.to_nat (limit - start_of ns))). intros fuel Hf.
  assert (start_of ns mod 60 = 0 /\ ns < start_of ns * 1000000000 /\ forall v, ns < v * 1000000000 -> v mod 60 = 0 -> start_of ns <= v) as (Hs & Hn & Hv).
  { unfold start_of. split_and!; [Z.to_euclidean_division_equations; lia..|]. intros v H1 H2. Z.to_euclidean_division_equations. lia. }
  pose proof (next_loop_spec c o Ho limit fuel (start_of ns) Hs ltac:(lia)) as Hl.
  unfold Next. fold loc limit. change (fixed_zone o) with loc in Hl. destruct (next_loop fuel c loc limit (start_of ns)) as [[w|]|]; [| |done].
  - destruct Hl as (Hw & Hw60 & Hm & Hno). rewrite <- (ParseCron_spec line c loc w Hp). split_and!; [lia|done|lia|done|].
    intros v H1 H2 H3. rewrite <- (ParseCron_spec line c loc v Hp). apply Hno; [specialize (Hv v H1 H3); lia|done].
  - intros v H1 H2 H3. rewrite <- (ParseCron_spec line c loc v Hp). apply Hl; [specialize (Hv v H1 H3); lia|done].
Qed.

(** ** Examples *)
Definition parsed (line : string) : Cron :=
  match ParseCron (CT := ascii_tables) line with Ok c => c | Err _ => mkCron "" [] [] [] [] [] false false end.

(** 3 o'clock on Mondays, from 1970-01-01, a Thursday: four days later. *)
Example next_monday : Next 1000 (parsed "0 3 * * mon") UTC 0 = Some (Some (4 * 86400 + 3 * 3600)).
Proof. vm_compute. reflexivity. Qed.

Lemma schedule_next_witness : exists fuel0, forall fuel, (fuel0 <= fuel)%nat ->
  exists w, Next fuel (parsed "0 3 * * mon") UTC 0 = Some w /\
  forall u, w = Some u -> named_by (CT := ascii_tables) "0 3 * * mon" UTC u.
Proof.
  destruct (schedule_next (H := ascii_tables) "0 3 * * mon" (parsed "0 3 * * mon") 0 0) as [fuel0 Hf];
    [vm_compute; reflexivity|reflexivity|].
  exists fuel0. intros fuel Hle. specialize (Hf fuel Hle). change (fixed_zone 0) with UTC in Hf.
  destruct (Next fuel (parsed "0 3 * * mon") UTC 0) as [[u|]|]; [| |destruct Hf].
  - exists (Some u). split; [reflexivity|]. intros u' [= <-]. apply Hf.
  - exists None. split; [reflexivity|]. intros u' [=].
Defined.

(** A step can be so large that the loop of [cronField] wraps to a negative index. *)
Example cron_panics : ParseCron (CT := ascii_tables) "0 0 */9223372036854775807 * *" = Err (FDom, PanicIndex (- 2 ^ 63)).
Proof. vm_compute. reflexivity. Qed.

(** A text that is no number stands for Sunday, not for the default. *)
Example weekday_text : Weekday (ScheduleFromConfig [("preset", VStr "weekly"); ("weekday", VStr "mon")]%string) = 0.
Proof. reflexivity. Qed.

(** Chile in 2024: the clock goes from 2024-09-07 24:00 (offset -4 hours) to 01:00
    (offset -3), so the midnight of that day is not an instant of the zone. *)
Definition change : Z := date_day 2024 9 8 * 86400 + 4 * 3600.
Definition Santiago : Location := mkLocation (fun u =>
  if decide (u < change) then (- 14400, date_day 2024 4 7 * 86400 + 3 * 3600, change)
  else (- 10800, change, date_day 2025 4 6 * 86400 + 3 * 3600)).

(** The instant of the search after [k] rounds. *)
Fixpoint after_rounds (k : nat) (c : Cron) (loc : Location) (limit u : Z) : option Z :=
  match k with
  | O => Some u
  | S k => if decide (u < limit) then match next_round c loc u with Onward u' => after_rounds k c loc limit u' | Found => None end else None
  end.

Lemma after_rounds_stuck k c loc limit : forall u u', after_rounds k c loc limit u = Some u' ->
  (forall n, next_loop n c loc limit u' = None) -> forall n, next_loop n c loc limit u = None.
Proof.
  induction k as [|k IH]; intros u u'; cbn [after_rounds]; [by intros [= ->]|]. case_decide as Hlt; [|done].
  destruct (next_round c loc u) as [v|] eqn:Er; [|done]. intros Hk Hs [|n]; cbn [next_loop]; rewrite decide_True by done; [done|].
  rewrite Er. by apply (IH v u').
Qed.

Lemma fixpoint_stuck c loc limit u : u < limit -> next_round c loc u = Onward u -> forall n, next_loop n c loc limit u = None.
Proof. intros Hlt Er n. induction n as [|n IH]; cbn [next_loop]; rewrite decide_True by done; [done|]. by rewrite Er. Qed.

(** The search for that midnight comes back to the hour before it, and never ends: with a
    daily schedule at 03:00, it is what happens after the run of the day before. *)
Example next_hangs : forall fuel, Next fuel (parsed "0 3 * * *") Santiago ((change - 21 * 3600) * 1000000000) = None.
Proof.
  apply (after_rounds_stuck 78 _ _ _ _ (change - 3600)); [vm_compute; reflexivity|].
  apply fixpoint_stuck; vm_compute; reflexivity.
Qed.
