(* ===== verification/GoNum.v ===== *)
(** * Go's texts of floating-point numbers

    [strconv.ParseFloat] and [strconv.FormatFloat(x, 'f', -1, 64)] on binary64: the syntax
    [ParseFloat] reads (decimal and hexadecimal, underscores, infinities), the correctly
    rounded value of it, and the shortest decimal that reads back as the same number. *)
From S2P Require Export GoText Value.

Definition lowerZ (a : ascii) : Z := let z := byteZ a in if (65 <=? z) && (z <=? 90) then z + 32 else z.
Definition isDigit (a : ascii) : bool := (48 <=? byteZ a) && (byteZ a <=? 57).
Definition isHexLetter (a : ascii) : bool := (97 <=? lowerZ a) && (lowerZ a <=? 102).

(** ** Rounding of a ratio of positive integers to nearest, ties to even *)
Definition round_ratio (neg : bool) (num den : Z) : spec_float :=
  match num, den with
  | Zpos n, Zpos d => let '(q, e, l) := SFdiv_core_binary 53 1024 (Zpos n) 0 (Zpos d) 0 in binary_round_aux 53 1024 neg q e l
  | _, _ => S754_zero neg
  end.

(** [m * base ^ e]. *)
Definition round_scaled (neg : bool) (m base e : Z) : spec_float :=
  if decide (0 <= e) then round_ratio neg (m * base ^ e) 1 else round_ratio neg m (base ^ (- e)).

(** ** Reading *)
Definition fold_prefix (p : string) (l : list ascii) : bool := prefixb (bytes p) (map (fun a => chr (lowerZ a)) l).

(** The infinities and not-a-number, with the length they take. *)
Definition special (l : list ascii) : option (spec_float * nat) :=
  let inf neg n l := if fold_prefix "infinity" l then Some (S754_infinity neg, (n + 8)%nat)
                     else if fold_prefix "inf" l then Some (S754_infinity neg, (n + 3)%nat) else None in
  match l with
  | [] => None
  | a :: l' => let z := lowerZ a in
      if z =? 43 then inf false 1%nat l' else if z =? 45 then inf true 1%nat l'
      else if z =? 105 then inf false 0%nat l
      else if (z =? 110) && fold_prefix "nan" l then Some (S754_nan, 3%nat) else None
  end.

Record mantissa := mkMantissa { mval : Z; fraction : Z; sawdot : bool; sawdigits : bool; underscores : bool }.

Fixpoint read_mantissa (hex : bool) (l : list ascii) (r : mantissa) : mantissa * list ascii :=
  match l with
  | [] => (r, [])
  | a :: l' =>
      let digit d := read_mantissa hex l'
        (mkMantissa (mval r * (if hex then 16 else 10) + d) (if sawdot r then fraction r + 1 else fraction r) (sawdot r) true (underscores r)) in
      if byteZ a =? 95 then read_mantissa hex l' (mkMantissa (mval r) (fraction r) (sawdot r) (sawdigits r) true)
      else if byteZ a =? 46 then
        if sawdot r then (r, l) else read_mantissa hex l' (mkMantissa (mval r) (fraction r) true (sawdigits r) (underscores r))
      else if isDigit a then digit (byteZ a - 48)
      else if hex && isHexLetter a then digit (lowerZ a - 87)
      else (r, l)
  end.

Fixpoint read_exponent (l : list ascii) (e : Z) (us : bool) : Z * bool * list ascii :=
  match l with
  | a :: l' =>
      if byteZ a =? 95 then read_exponent l' e true
      else if isDigit a then read_exponent l' (if e <? 10000 then e * 10 + (byteZ a - 48) else e) us
      else (e, us, l)
  | [] => (e, us, [])
  end.

(** Underscores only between digits, or between the base prefix and a digit. *)
Inductive saw := SawStart | SawDigit | SawUnderscore | SawOther.
Fixpoint underscore_loop (hex : bool) (l : list ascii) (s : saw) : bool :=
  match l with
  | [] => match s with SawUnderscore => false | _ => true end
  | a :: l => if isDigit a || (hex && isHexLetter a) then underscore_loop hex l SawDigit
              else if byteZ a =? 95 then match s with SawDigit => underscore_loop hex l SawUnderscore | _ => false end
              else match s with SawUnderscore => false | _ => underscore_loop hex l SawOther end
  end.
Definition underscoreOK (l : list ascii) : bool :=
  let l := match l with a :: l' => if (byteZ a =? 43) || (byteZ a =? 45) then l' else l | [] => l end in
  match l with
  | a :: b :: l' => if (byteZ a =? 48) && ((lowerZ b =? 98) || (lowerZ b =? 111) || (lowerZ b =? 120))
                    then underscore_loop (lowerZ b =? 120) l' SawDigit else underscore_loop false l SawStart
  | _ => underscore_loop false l SawStart
  end.

(** The number at the head of the text and what follows it. *)
Definition readFloat (s : list ascii) : option (bool * bool * Z * Z * list ascii) :=
  let '(neg, l) := match s with a :: l => if byteZ a =? 43 then (false, l) else if byteZ a =? 45 then (true, l) else (false, s) | [] => (false, s) end in
  let '(hex, l) := match l with
                   | a :: b :: c :: l' => if (byteZ a =? 48) && (lowerZ b =? 120) then (true, c :: l') else (false, l)
                   | _ => (false, l)
                   end in
  let '(r, l) := read_mantissa hex l (mkMantissa 0 0 false false false) in
  if negb (sawdigits r) then None
  else
    let finish e us rest :=
      if us && negb (underscoreOK (take (length s - length rest) s)) then None
      else Some (neg, hex, mval r, (if hex then e - 4 * fraction r else e - fraction r), rest) in
    match l with
    | a :: l' =>
        if lowerZ a =? (if hex then 112 else 101) then
          let '(esign, l') := match l' with b :: l'' => if byteZ b =? 43 then (1, l'') else if byteZ b =? 45 then (-1, l'') else (1, l') | [] => (1, l') end in
          match l' with
          | b :: _ => if isDigit b then let '(e, us, rest) := read_exponent l' 0 (underscores r) in finish (e * esign) us rest else None
          | [] => None
          end
        else if hex then None else finish 0 (underscores r) l
    | [] => if hex then None else finish 0 (underscores r) l
    end.

(** [None] is an error: not a number, or one too large. *)
Definition ParseFloat (s : string) : option spec_float :=
  let l := bytes s in
  match special l with
  | Some (f, n) => if decide (n = length l) then Some f else None
  | None =>
      match readFloat l with
      | Some (neg, hex, m, e, []) =>
          match round_scaled neg m (if hex : bool then 2 else 10) e with S754_infinity _ => None | f => Some f end
      | _ => None
      end
  end.

(** ** Printing *)

(** [x]'s integer and the power of two it is scaled by, as a ratio. *)
Definition ratio (m : positive) (e : Z) : Z * Z := if decide (0 <= e) then (Zpos m * 2 ^ e, 1) else (Zpos m, 2 ^ (- e)).

Definition scale10 (num den t : Z) : Z * Z := if decide (0 <= t) then (num * 10 ^ t, den) else (num, den * 10 ^ (- t)).

(** The largest [k] with [10 ^ k <= num / den], near the estimate from the bits. *)
Definition log10 (num den : Z) : Z :=
  let k := (Z.log2 num - Z.log2 den) * 30103 / 100000 in
  let ok k := let '(a, b) := scale10 num den (- k) in b <=? a in
  if ok (k + 2) then k + 2 else if ok (k + 1) then k + 1 else if ok k then k else if ok (k - 1) then k - 1 else k - 2.

(** The shortest decimal [d * 10 ^ k] that reads as the number, the nearest of them first. *)
Fixpoint shortest_loop (n : nat) (digits : Z) (x : spec_float) (num den k : Z) : Z * Z :=
  let t := digits - 1 - k in
  let '(a, b) := scale10 num den t in
  let lo := a / b in
  let near := match Z.compare (2 * (a mod b)) b with Lt => lo | Gt => lo + 1 | Eq => if Z.even lo then lo else lo + 1 end in
  match find (fun d => bool_decide (0 < d) && SFeqb (round_scaled false d 10 (- t)) x) [near; lo; lo + 1] with
  | Some d => (d, - t)
  | None => match n with O => (near, - t) | S n => shortest_loop n (digits + 1) x num den k end
  end.

Fixpoint strip_zeros (fuel : nat) (d k : Z) : Z * Z :=
  match fuel with O => (d, k) | S f => if decide (d mod 10 = 0) then strip_zeros f (d / 10) (k + 1) else (d, k) end.

Definition shortest (m : positive) (e : Z) : Z * Z :=
  let '(num, den) := ratio m e in
  let '(d, k) := shortest_loop 17 1 (S754_finite false m e) num den (log10 num den) in strip_zeros 20 d k.

(** Positional notation. *)
Definition positional (d k : Z) : string :=
  if decide (0 <= k) then Itoa (d * 10 ^ k)
  else
    let p := 10 ^ (- k) in
    let frac := bytes (Itoa (d mod p)) in
    Itoa (d / p) +:+ "." +:+ ofBytes (repeat "0"%char (Z.to_nat (- k) - length frac) ++ frac).

Definition FormatFloat (x : spec_float) : string :=
  match x with
  | S754_nan => "NaN"
  | S754_infinity false => "+Inf"
  | S754_infinity true => "-Inf"
  | S754_zero false => "0"
  | S754_zero true => "-0"
  | S754_finite s m e => let '(d, k) := shortest m e in if s then "-" +:+ positional d k else positional d k
  end.

Definition num (s : string) : spec_float := default S754_nan (ParseFloat s).

Example ParseFloat_ex : map (fun s => default "-" (FormatFloat <$> ParseFloat s))
  ["0.1"; "1e3"; "85"; "007"; "1_000"; "0x10p0"; "Infinity"; "-.5"; "5."; "1e400"; "0x10"; "1.2.3"; ""; "."; "1__0"; "12a"; "123456789012345680000"; "1e22"; "0.30000000000000004"]%string
  = ["0.1"; "1000"; "85"; "7"; "1000"; "16"; "+Inf"; "-0.5"; "5"; "-"; "-"; "-"; "-"; "-"; "-"; "-"; "123456789012345680000"; "10000000000000000000000"; "0.30000000000000004"]%string.
Proof. vm_compute. reflexivity. Qed.
