(* ===== verification/Expr.v ===== *)
(** * The expression language ([src/internal/automation/expr/expr.go])

    Lexer, recursive-descent parser, syntax trees and evaluation.  The parser keeps the
    tokens that are left; the last of them is the end of the source, which [next] never
    passes.  Recursion is on a fuel that the source's length bounds; running out of it is
    an outcome of its own, which no source reaches. *)
From stdpp Require Import sorting.
From S2P Require Export GoNum.

Definition Roots : list string := ["trigger"; "nodes"; "vars"; "inputs"; "run"; "item"; "index"]%string.
Definition Functions : list (string * nat) :=
  [("contains", 2); ("startsWith", 2); ("endsWith", 2); ("isNull", 1); ("length", 1); ("lower", 1); ("upper", 1)]%string%nat.
Definition MaxLength : nat := 4096.

(** ** Tokens *)
Inductive tokKind := tEOF | tIdent | tNumber | tString | tOp | tLParen | tRParen | tLBrack | tRBrack | tDot | tComma.
#[export] Instance tokKind_eq_dec : EqDecision tokKind. Proof. solve_decision. Defined.
Record token := mkTok { kind : tokKind; text : string; pos : nat }.

Inductive exprError :=
  | TooLong | BadChar (c : ascii) (at_ : nat) | Unterminated (at_ : nat) | EmptyExpr | Unexpected (text : string) (at_ : nat)
  | ExpectedNumber (at_ : nat) | BadNumber (text : string) | MissingParen (at_ : nat) | UnknownFunction (name : string)
  | MissingCallParen (name : string) | ArgCount (name : string) (want got : nat) | UnknownName (name : string)
  | ExpectedName (at_ : nat) | BadIndex (text : string) | ExpectedIndex (at_ : nat) | MissingBracket | EndsEarly
  | OutOfFuel.                          (* not an error of the code *)

Definition isIdentStart (a : ascii) : bool :=
  let c := byteZ a in (c =? 95) || ((97 <=? c) && (c <=? 122)) || ((65 <=? c) && (c <=? 90)).
Definition isIdentPart (a : ascii) : bool := isIdentStart a || isDigit a || (byteZ a =? 45).

(** The longest prefix whose characters satisfy [f]. *)
Fixpoint span (f : ascii -> bool) (l : list ascii) : list ascii * list ascii :=
  match l with
  | [] => ([], [])
  | a :: l' => if f a then let '(x, y) := span f l' in (a :: x, y) else ([], l)
  end.

(** What is left of a string after its quote: its value and the number of characters. *)
Fixpoint lexString (quote : ascii) (l : list ascii) (n : nat) (b : list ascii) : option (string * nat) :=
  match l with
  | [] => None
  | a :: l' =>
      if decide (a = "\"%char) then
        match l' with
        | e :: l'' => lexString quote l'' (n + 2) (b ++ [if decide (e = "n"%char) then chr 10 else if decide (e = "t"%char) then chr 9 else e])
        | [] => if decide (a = quote) then Some (ofBytes b, n + 1)%nat else lexString quote l' (n + 1) (b ++ [a])
        end
      else if decide (a = quote) then Some (ofBytes b, n + 1)%nat
      else lexString quote l' (n + 1) (b ++ [a])
  end.

Definition one_char (a : ascii) : option tokKind :=
  let c := byteZ a in
  if c =? 40 then Some tLParen else if c =? 41 then Some tRParen else if c =? 91 then Some tLBrack else if c =? 93 then Some tRBrack
  else if c =? 46 then Some tDot else if c =? 44 then Some tComma else None.

Definition two_ops : list string := ["=="; "!="; "<="; ">="; "&&"; "||"]%string.
Definition one_ops : list string := ["<"; ">"; "!"; "-"]%string.

Fixpoint lex_loop (fuel : nat) (l : list ascii) (i : nat) : result exprError (list token) :=
  match fuel with
  | O => Err OutOfFuel
  | S fuel =>
      match l with
      | [] => Ok [mkTok tEOF "" i]
      | a :: l' =>
          let emit k t n := rest ← lex_loop fuel (drop n l) (i + n); Ok (mkTok k t i :: rest) in
          if bool_decide (byteZ a ∈ [32; 9; 10; 13]) then lex_loop fuel l' (i + 1)
          else match one_char a with
          | Some k => emit k (ofBytes [a]) 1%nat
          | None =>
              if bool_decide (byteZ a ∈ [34; 39]) then
                match lexString a l' 1 [] with Some (s, n) => emit tString s n | None => Err (Unterminated (i + 1)) end
              else if isDigit a then
                let w := (span (fun c => isDigit c || (byteZ c =? 46)) l).1 in emit tNumber (ofBytes w) (length w)
              else if isIdentStart a then
                let w := (span isIdentPart l).1 in emit tIdent (ofBytes w) (length w)
              else
                let two := match l' with b :: _ => ofBytes [a; b] | [] => ""%string end in
                if bool_decide (two ∈ two_ops) then emit tOp two 2%nat
                else if bool_decide (ofBytes [a] ∈ one_ops) then emit tOp (ofBytes [a]) 1%nat
                else Err (BadChar a (i + 1))
          end
      end
  end.

Definition lex (src : string) : result exprError (list token) := lex_loop (S (String.length src)) (bytes src) 0.

(** ** Syntax trees *)
Inductive part := PName (s : string) | PIndex (n : Z).
Inductive logicOp := OpAnd | OpOr.
#[export] Instance logicOp_eq_dec : EqDecision logicOp. Proof. solve_decision. Defined.

Inductive node :=
  | litNode (v : value)
  | pathNode (parts : list part)
  | logicNode (op : logicOp) (l r : node)
  | notNode (inner : node)
  | cmpNode (op : string) (l r : node)
  | callNode (name : string) (args : list node).

(** ** The parser *)
Definition eof : token := mkTok tEOF "" 0.
Definition peek (ts : list token) : token := hd eof ts.
Definition advance (ts : list token) : list token := match ts with _ :: ((_ :: _) as r) => r | _ => ts end.
Definition is_kind (k : tokKind) (ts : list token) : bool := bool_decide (kind (peek ts) = k).
Definition isWord (w : string) (ts : list token) : bool := is_kind tIdent ts && bool_decide (text (peek ts) = w).
Definition is_op (o : string) (ts : list token) : bool := is_kind tOp ts && bool_decide (text (peek ts) = o).

Definition cmpOps : list string := ["=="; "!="; "<"; ">"; "<="; ">="]%string.
Definition infixCalls : list string := ["contains"; "startsWith"; "endsWith"]%string.

Definition parsed := result exprError (node * list token).

(** The segments of a path after its root. *)
Fixpoint path_loop (fuel : nat) (parts : list part) (ts : list token) : parsed :=
  match fuel with
  | O => Err OutOfFuel
  | S fuel =>
      if is_kind tDot ts then
        let ts := advance ts in let seg := peek ts in
        if bool_decide (kind seg = tIdent) || bool_decide (kind seg = tNumber)
        then path_loop fuel (parts ++ [PName (text seg)]) (advance ts) else Err (ExpectedName (pos seg + 1))
      else if is_kind tLBrack ts then
        let ts := advance ts in let seg := peek ts in
        p ← (if bool_decide (kind seg = tNumber) then match Atoi (text seg) with Some n => Ok (PIndex n) | None => Err (BadIndex (text seg)) end
             else if bool_decide (kind seg = tString) then Ok (PName (text seg)) else Err (ExpectedIndex (pos seg + 1)));
        let ts := advance ts in
        if is_kind tRBrack ts then path_loop fuel (parts ++ [p]) (advance ts) else Err MissingBracket
      else Ok (pathNode parts, ts)
  end.

Definition parse_number (neg : bool) (t : string) : result exprError node :=
  match ParseFloat t with Some f => Ok (litNode (VNum (if neg then SFopp f else f))) | None => Err (BadNumber t) end.

Fixpoint parseOr (n : nat) (ts : list token) : parsed :=
  match n with
  | O => Err OutOfFuel
  | S n => '(l, ts) ← parseAnd n ts; or_loop n l ts
  end
with or_loop (n : nat) (l : node) (ts : list token) : parsed :=
  match n with
  | O => Err OutOfFuel
  | S n => if isWord "or" ts || is_op "||" ts
           then '(r, ts) ← parseAnd n (advance ts); or_loop n (logicNode OpOr l r) ts
           else Ok (l, ts)
  end
with parseAnd (n : nat) (ts : list token) : parsed :=
  match n with
  | O => Err OutOfFuel
  | S n => '(l, ts) ← parseNot n ts; and_loop n l ts
  end
with and_loop (n : nat) (l : node) (ts : list token) : parsed :=
  match n with
  | O => Err OutOfFuel
  | S n => if isWord "and" ts || is_op "&&" ts
           then '(r, ts) ← parseNot n (advance ts); and_loop n (logicNode OpAnd l r) ts
           else Ok (l, ts)
  end
with parseNot (n : nat) (ts : list token) : parsed :=
  match n with
  | O => Err OutOfFuel
  | S n => if isWord "not" ts || is_op "!" ts
           then '(x, ts) ← parseNot n (advance ts); Ok (notNode x, ts)
           else parseCmp n ts
  end
with parseCmp (n : nat) (ts : list token) : parsed :=
  match n with
  | O => Err OutOfFuel
  | S n =>
      '(l, ts) ← parsePrimary n ts;
      let t := peek ts in
      if is_kind tOp ts && bool_decide (text t ∈ cmpOps) then
        '(r, ts) ← parsePrimary n (advance ts); Ok (cmpNode (text t) l r, ts)
      else if is_kind tIdent ts && bool_decide (text t ∈ infixCalls) then
        '(r, ts) ← parsePrimary n (advance ts); Ok (callNode (text t) [l; r], ts)
      else Ok (l, ts)
  end
with parsePrimary (n : nat) (ts : list token) : parsed :=
  match n with
  | O => Err OutOfFuel
  | S n =>
      let t := peek ts in let ts := advance ts in
      match kind t with
      | tNumber => x ← parse_number false (text t); Ok (x, ts)
      | tString => Ok (litNode (VStr (text t)), ts)
      | tOp =>
          if bool_decide (text t = "-"%string) then
            if is_kind tNumber ts then x ← parse_number true (text (peek ts)); Ok (x, advance ts)
            else Err (ExpectedNumber (pos t + 1))
          else Err (Unexpected (text t) (pos t + 1))
      | tLParen =>
          '(x, ts) ← parseOr n ts;
          if is_kind tRParen ts then Ok (x, advance ts) else Err (MissingParen (pos t + 1))
      | tIdent =>
          if bool_decide (text t = "true"%string) then Ok (litNode (VBool true), ts)
          else if bool_decide (text t = "false"%string) then Ok (litNode (VBool false), ts)
          else if bool_decide (text t = "null"%string) then Ok (litNode VNull, ts)
          else if is_kind tLParen ts then
            match assoc (text t) Functions with
            | None => Err (UnknownFunction (text t))
            | Some argc =>
                let ts := advance ts in
                '(args, ts) ← (if is_kind tRParen ts then Ok ([], ts) else parse_args n [] ts);
                if negb (is_kind tRParen ts) then Err (MissingCallParen (text t))
                else if decide (length args <> argc) then Err (ArgCount (text t) argc (length args))
                else Ok (callNode (text t) args, advance ts)
            end
          else if bool_decide (text t ∈ Roots) then path_loop n [PName (text t)] ts
          else Err (UnknownName (text t))
      | tEOF => Err EndsEarly
      | _ => Err (Unexpected (text t) (pos t + 1))
      end
  end
with parse_args (n : nat) (acc : list node) (ts : list token) : result exprError (list node * list token) :=
  match n with
  | O => Err OutOfFuel
  | S n =>
      '(a, ts) ← parseOr n ts;
      if is_kind tComma ts then parse_args n (acc ++ [a]) (advance ts) else Ok (acc ++ [a], ts)
  end.

Definition parse_fuel (ts : list token) : nat := 8 * length ts + 8.

Definition Parse (src : string) : result exprError node :=
  if decide (MaxLength < String.length src)%nat then Err TooLong
  else
    ts ← lex src;
    if decide (length ts = 1%nat) then Err EmptyExpr
    else
      '(n, ts) ← parseOr (parse_fuel ts) ts;
      if is_kind tEOF ts then Ok n else Err (Unexpected (text (peek ts)) (pos (peek ts) + 1)).

(** ** Values as text *)

(** The printable runes of package [strconv] beyond ASCII are an interface, as the case
    tables are. *)
Class PrintTables := {
  IsPrint : Z -> bool;
  IsPrint_ascii r : 0 <= r < 128 -> IsPrint r = (32 <=? r) && (r <? 127) }.

(** The tables cut down to ASCII. *)
Definition ascii_print : PrintTables := {|
  IsPrint r := (32 <=? r) && (r <? 127);
  IsPrint_ascii r _ := eq_refl |}.

Definition hex_digit (d : Z) : ascii := chr (if d <? 10 then 48 + d else 87 + d).
Fixpoint hex_digits (w : nat) (n : Z) : list ascii := match w with O => [] | S w => hex_digits w (n / 16) ++ [hex_digit (n mod 16)] end.

Section text.
Context {CT : CaseTables} {PT : PrintTables}.

Definition quote_rune (r : Z) (width : nat) (first : Z) : list ascii :=
  if decide (width = 1%nat /\ r = RuneError) then bytes "\x" ++ hex_digits 2 first
  else if decide (r = 34 \/ r = 92) then [chr 92; chr r]
  else if IsPrint r then encode_rune r
  else if decide (r = 7) then bytes "\a" else if decide (r = 8) then bytes "\b" else if decide (r = 12) then bytes "\f"
  else if decide (r = 10) then bytes "\n" else if decide (r = 13) then bytes "\r" else if decide (r = 9) then bytes "\t" else if decide (r = 11) then bytes "\v"
  else if decide (r < 32 \/ r = 127) then bytes "\x" ++ hex_digits 2 r
  else if decide (r < 65536) then bytes "\u" ++ hex_digits 4 r else bytes "\U" ++ hex_digits 8 r.

Fixpoint quote_loop (fuel : nat) (l : list ascii) : list ascii :=
  match fuel, l with
  | S fuel, a :: _ => let '(r, w) := decode_rune l in quote_rune r w (byteZ a) ++ quote_loop fuel (drop w l)
  | _, _ => []
  end.

(** [strconv.Quote]. *)
Definition Quote (s : string) : string := ofBytes ([chr 34] ++ quote_loop (String.length s) (bytes s) ++ [chr 34]).

Fixpoint join (sep : string) (l : list string) : string :=
  match l with [] => "" | [s] => s | s :: l => s +:+ sep +:+ join sep l end.

(** The fields of an object in the order of its keys. *)
Definition object_text (fields : list (string * string)) : string :=
  "{" +:+ join "," (map (fun k => Quote k +:+ ":" +:+ default "" (assoc k fields)) (sortStrings (map fst fields))) +:+ "}".
Definition list_text (items : list string) : string := "[" +:+ join "," items +:+ "]".

Definition FormatBool (b : bool) : string := if b then "true" else "false".

(** Whole numbers of less than 15 digits are written as integers. *)
Definition number_text (f : spec_float) : string :=
  let n := int64_of_float f in
  if SFeqb (float_of_Z n) f && bool_decide (Z.abs n < 10 ^ 15) then Itoa n else FormatFloat f.

Fixpoint Stringify (v : value) : string :=
  let jsonish v := match v with VStr s => Quote s | VNull => "null" | _ => Stringify v end in
  let object := (fix go (m : list (string * value)) : list (string * string) := match m with [] => [] | (k, x) :: m => (k, jsonish x) :: go m end) in
  match v with
  | VNull => ""
  | VBool b => FormatBool b
  | VNum f => number_text f
  | VInt n => number_text (float_of_Z n)
  | VStr s => s
  | VList l => list_text ((fix go l := match l with [] => [] | x :: l => jsonish x :: go l end) l)
  | VMap m => object_text (object m)
  | VStrs l => list_text (map Quote l)
  | VStrMap m => object_text (map (fun kv => (kv.1, Quote kv.2)) m)
  | VMaps l => list_text ((fix go l := match l with [] => [] | m :: l => object_text (object m) :: go l end) l)
  end.

Definition jsonish (v : value) : string := match v with VStr s => Quote s | VNull => "null" | _ => Stringify v end.

(** ** Reading data *)
Definition toNumber (v : value) : option spec_float :=
  match v with
  | VNum f => Some f
  | VInt n => Some (float_of_Z n)
  | VStr s =>
      let s := TrimSpace s in
      if decide (s = ""%string) then None else match ParseFloat s with Some S754_nan => None | r => r end
  | _ => None
  end.

Definition Truthy (v : value) : bool :=
  match v with
  | VNull => false
  | VBool b => b
  | VStr s => bool_decide (s <> ""%string)
  | VList l => bool_decide (l <> [])
  | VMap m => bool_decide (m <> [])
  | _ => match toNumber v with Some f => negb (SFeqb f (S754_zero false)) | None => true end
  end.

Definition index_list (l : list value) (k : Z) : value :=
  if decide (k < 0 \/ Z.of_nat (length l) <= k) then VNull else nth (Z.to_nat k) l VNull.

Definition index (v : value) (key : part) : value :=
  match Normalize v with
  | VMap m => field (match key with PName s => s | PIndex k => Itoa k end) m
  | VList l => match key with
               | PIndex k => index_list l k
               | PName s => match Atoi s with Some k => index_list l k | None => VNull end
               end
  | _ => VNull
  end.

(** A dotted path; a segment that reads as a number is an index into a list. *)
Fixpoint lookup_segments (cur : value) (segs : list string) : value :=
  match segs with
  | [] => Normalize cur
  | seg :: segs =>
      match Atoi seg, Normalize cur with
      | Some n, VList _ => lookup_segments (index cur (PIndex n)) segs
      | _, _ => match index cur (PName seg) with VNull => VNull | v => lookup_segments v segs end
      end
  end.
Definition Lookup (v : value) (path : string) : value :=
  if decide (TrimSpace path = ""%string) then v else lookup_segments v (Split path "."%char).

(** ** Comparing *)
Definition Equal (l r : value) : bool :=
  let l := Normalize l in let r := Normalize r in
  match l, r with
  | VNull, VNull => true
  | VNull, _ | _, VNull => false
  | _, _ =>
      match toNumber l, toNumber r with
      | Some a, Some b => SFeqb a b
      | _, _ =>
          match l with
          | VStr a => match r with VStr b => bool_decide (a = b) | _ => false end
          | VBool a => match r with
                       | VBool b => Bool.eqb a b
                       | VStr b => bool_decide (FormatBool a = ToLower b)
                       | _ => false
                       end
          | _ => bool_decide (Stringify l = Stringify r)
          end
      end
  end.

Inductive evalError := CannotCompare (l : value) (op : string) (r : value) | UnknownCall (name : string)
  | PanicArgs.                          (* an argument that is not there, which panics *)

Definition cmp_float (op : string) (a b : spec_float) : bool :=
  if decide (op = "<"%string) then SFltb a b else if decide (op = ">"%string) then SFltb b a
  else if decide (op = "<="%string) then SFleb a b else SFleb b a.
Definition cmp_string (op : string) (a b : string) : bool :=
  if decide (op = "<"%string) then String.ltb a b else if decide (op = ">"%string) then String.ltb b a
  else if decide (op = "<="%string) then String.leb a b else String.leb b a.

Definition ordered_ops : list string := ["<"; ">"; "<="; ">="]%string.

Definition Compare (op : string) (l r : value) : result evalError bool :=
  let l := Normalize l in let r := Normalize r in
  if decide (op = "=="%string) then Ok (Equal l r)
  else if decide (op = "!="%string) then Ok (negb (Equal l r))
  else
    let rest := match l, r with VNull, _ | _, VNull => Ok false | _, _ => Err (CannotCompare l op r) end in
    let texts := match l, r with VStr a, VStr b => if decide (op ∈ ordered_ops) then Ok (cmp_string op a b) else rest | _, _ => rest end in
    match toNumber l, toNumber r with
    | Some a, Some b => if decide (op ∈ ordered_ops) then Ok (cmp_float op a b) else texts
    | _, _ => texts
    end.

(** ** Functions *)
Definition arg (args : list value) (i : nat) : result evalError value := match args !! i with Some v => Ok v | None => Err PanicArgs end.

Definition Call (name : string) (args : list value) : result evalError value :=
  if decide (name = "contains"%string) then
    a ← arg args 0;
    match Normalize a with
    | VNull => Ok (VBool false)
    | VList l => b ← arg args 1; Ok (VBool (existsb (fun item => Equal item b) l))
    | VMap m => b ← arg args 1; Ok (VBool (bool_decide (is_Some (assoc (Stringify b) m))))
    | _ => b ← arg args 1; Ok (VBool (Contains (Stringify a) (Stringify b)))
    end
  else if decide (name = "startsWith"%string) then
    a ← arg args 0; match a with VNull => Ok (VBool false) | _ => b ← arg args 1; Ok (VBool (HasPrefix (Stringify a) (Stringify b))) end
  else if decide (name = "endsWith"%string) then
    a ← arg args 0; match a with VNull => Ok (VBool false) | _ => b ← arg args 1; Ok (VBool (HasSuffix (Stringify a) (Stringify b))) end
  else if decide (name = "isNull"%string) then
    a ← arg args 0; Ok (VBool (match Normalize a with VNull => true | _ => false end))
  else if decide (name = "length"%string) then
    a ← arg args 0;
    Ok (VNum (float_of_Z (Z.of_nat (match Normalize a with
                                    | VNull => 0%nat
                                    | VStr s => length (runes s)
                                    | VList l => length l
                                    | VMap m => length m
                                    | _ => String.length (Stringify a)
                                    end))))
  else if decide (name = "lower"%string) then a ← arg args 0; Ok (VStr (ToLower (Stringify a)))
  else if decide (name = "upper"%string) then a ← arg args 0; Ok (VStr (ToUpper (Stringify a)))
  else Err (UnknownCall name).

(** ** Evaluation *)
Fixpoint eval_path (cur : value) (parts : list part) : value :=
  match parts with
  | [] => Normalize cur
  | p :: parts => match index cur p with VNull => VNull | v => eval_path v parts end
  end.

Fixpoint eval (n : node) (env : list (string * value)) : result evalError value :=
  match n with
  | litNode v => Ok v
  | pathNode parts => Ok (eval_path (VMap env) parts)
  | logicNode op l r =>
      a ← eval l env;
      if decide (op = OpAnd /\ Truthy a = false) then Ok (VBool false)
      else if decide (op = OpOr /\ Truthy a = true) then Ok (VBool true)
      else b ← eval r env; Ok (VBool (Truthy b))
  | notNode x => v ← eval x env; Ok (VBool (negb (Truthy v)))
  | cmpNode op l r => a ← eval l env; b ← eval r env; c ← Compare op a b; Ok (VBool c)
  | callNode name args =>
      vals ← (fix go (l : list node) : result evalError (list value) :=
                match l with [] => Ok [] | x :: l => v ← eval x env; vs ← go l; Ok (v :: vs) end) args;
      Call name vals
  end.

Definition Eval (src : string) (env : list (string * value)) : result exprError (result evalError value) :=
  n ← Parse src; Ok (eval n env).

(** [Paths]: every data reference of the expression. *)
Definition path_text (parts : list part) : string :=
  (fix go (first : bool) (l : list part) : string :=
     match l with
     | [] => ""
     | PIndex n :: l => "[" +:+ Itoa n +:+ "]" +:+ go false l
     | PName s :: l => (if first then s else "." +:+ s) +:+ go false l
     end) true parts.

Fixpoint paths (n : node) : list string :=
  match n with
  | litNode _ => []
  | pathNode parts => [path_text parts]
  | logicNode _ l r | cmpNode _ l r => paths l ++ paths r
  | notNode x => paths x
  | callNode _ args => (fix go l := match l with [] => [] | x :: l => paths x ++ go l end) args
  end.
End text.
