(* ===== verification/ExprProps.v ===== *)
(** * Every source parses or is refused, and what parses evaluates as its type says *)
From S2P Require Export TextProps Expr.

(** ** Well-formed trees *)
Section node_ind.
Context (P : node -> Prop) (HL : forall v, P (litNode v)) (HP : forall parts, P (pathNode parts))
  (HO : forall op l r, P l -> P r -> P (logicNode op l r)) (HN : forall x, P x -> P (notNode x))
  (HC : forall op l r, P l -> P r -> P (cmpNode op l r)) (HF : forall name args, Forall P args -> P (callNode name args)).
Fixpoint node_deep_ind (n : node) : P n :=
  match n with
  | litNode v => HL v
  | pathNode parts => HP parts
  | logicNode op l r => HO op l r (node_deep_ind l) (node_deep_ind r)
  | notNode x => HN x (node_deep_ind x)
  | cmpNode op l r => HC op l r (node_deep_ind l) (node_deep_ind r)
  | callNode name args => HF name args ((fix go l := match l return Forall P l with
      | [] => List.Forall_nil _ | x :: l => List.Forall_cons _ x l (node_deep_ind x) (go l) end) args)
  end.
End node_ind.

Fixpoint wf (n : node) : Prop :=
  match n with
  | litNode v => match v with VNull | VBool _ | VNum _ | VStr _ => True | _ => False end
  | pathNode parts => match parts with PName r :: _ => r ∈ Roots | _ => False end
  | logicNode _ l r => wf l /\ wf r
  | notNode x => wf x
  | cmpNode op l r => op ∈ cmpOps /\ wf l /\ wf r
  | callNode name args => assoc name Functions = Some (length args) /\ (fix go l := match l with [] => True | x :: l => wf x /\ go l end) args
  end.

Definition wf_all (l : list node) : Prop := (fix go l := match l with [] => True | x :: l => wf x /\ go l end) l.

Lemma wf_all_snoc l x : wf_all l -> wf x -> wf_all (l ++ [x]).
Proof. induction l as [|y l IH]; cbn; [done|]. intros [Hy Hl] Hx. split; [done|by apply IH]. Qed.

(** ** Results *)
Definition sat {A} (P : A -> Prop) (r : result exprError A) : Prop :=
  match r with Ok a => P a | Err OutOfFuel => False | Err _ => True end.

Lemma sat_bind {A B} (P : A -> Prop) (Q : B -> Prop) r f : sat P r -> (forall a, P a -> sat Q (f a)) -> sat Q (mbind f r).
Proof. destruct r as [a|[]]; cbn; auto. Qed.

Lemma sat_impl {A} (P Q : A -> Prop) r : sat P r -> (forall a, P a -> Q a) -> sat Q r.
Proof. destruct r as [a|[]]; cbn; auto. Qed.

(** ** Tokens end with the end of the source, and only they *)
Definition wt (ts : list token) : Prop := exists l e, ts = l ++ [e] /\ kind e = tEOF /\ Forall (fun t => kind t <> tEOF) l.

Lemma wt_cons t ts : kind t <> tEOF -> wt ts -> wt (t :: ts).
Proof. intros Ht (l & e & -> & He & Hl). exists (t :: l), e. split_and!; [done|done|by constructor]. Qed.

(** Either there is a token, and one passes it, or the source has ended. *)
Lemma wt_case ts : wt ts ->
  (kind (peek ts) = tEOF /\ length ts = 1%nat) \/
  (kind (peek ts) <> tEOF /\ wt (advance ts) /\ length ts = S (length (advance ts))).
Proof.
  intros (l & e & -> & He & Hl). destruct l as [|t l]; [by left|]. inversion Hl; subst. right.
  assert (advance ((t :: l) ++ [e]) = l ++ [e]) as -> by (by destruct l). split_and!; [done| |done]. by exists l, e.
Qed.

Lemma wt_kind k ts : is_kind k ts = true -> wt ts -> k <> tEOF -> wt (advance ts) /\ length ts = S (length (advance ts)).
Proof.
  unfold is_kind. intros Hi%bool_decide_eq_true Hw Hk. destruct (wt_case ts Hw) as [[He _]|[_ H]]; [congruence|done].
Qed.

Lemma wt_length ts : wt ts -> (1 <= length ts)%nat.
Proof. intros (l & e & -> & _). rewrite length_app. cbn. lia. Qed.

Lemma wt_or w o ts : wt ts -> isWord w ts || is_op o ts = true -> wt (advance ts) /\ length ts = S (length (advance ts)).
Proof.
  intros Hw [H|H]%orb_true_iff; unfold isWord, is_op in H; apply andb_true_iff in H as [H _].
  - by apply (wt_kind tIdent).
  - by apply (wt_kind tOp).
Qed.

(** ** The lexer *)
Lemma lexString_length q l : forall n b s k, lexString q l n b = Some (s, k) -> (n < k)%nat.
Proof.
  induction l as [l IH] using (induction_ltof1 _ (@length ascii)). unfold ltof in IH. intros n b s k. destruct l as [|a l]; cbn; [done|].
  case_decide.
  - destruct l as [|e l]; [case_decide; [intros [= _ <-]; lia|done]|].
    intros H1. apply IH in H1; [lia|cbn; lia].
  - case_decide; [intros [= _ <-]; lia|]. intros H1. apply IH in H1; [lia|cbn; lia].
Qed.

Lemma span_head f a l : f a = true -> (1 <= length (span f (a :: l)).1)%nat.
Proof. intros Hf. cbn. rewrite Hf. destruct (span f l). cbn. lia. Qed.

Lemma lex_loop_wt fuel : forall l i, (length l < fuel)%nat -> sat wt (lex_loop fuel l i).
Proof.
  induction fuel as [|fuel IH]; intros l i Hf; [lia|]. cbn [lex_loop]. destruct l as [|a l].
  { cbn. exists [], (mkTok tEOF "" i). split_and!; [done|done|constructor]. }
  assert (forall k t n, k <> tEOF -> (1 <= n)%nat -> sat wt (rest ← lex_loop fuel (drop n (a :: l)) (i + n); Ok (mkTok k t i :: rest))) as Hemit.
  { intros k t n Hk Hn. apply (sat_bind wt); [apply IH; rewrite length_drop; cbn in *; lia|]. intros ts Hts. by apply wt_cons. }
  cbn zeta. case_bool_decide; [apply IH; cbn in *; lia|].
  destruct (one_char a) as [k|] eqn:Ek; [apply Hemit; [|done]; intros ->; revert Ek; unfold one_char; cbn zeta; repeat case_match; done|].
  case_bool_decide.
  { destruct (lexString a l 1 []) as [[s n]|] eqn:El; [|done]. apply lexString_length in El. apply Hemit; [done|lia]. }
  destruct (isDigit a) eqn:Ed; [apply Hemit; [done|apply span_head; by rewrite Ed]|].
  destruct (isIdentStart a) eqn:Ei; [apply Hemit; [done|apply span_head; unfold isIdentPart; by rewrite Ei]|].
  repeat case_bool_decide; try (apply Hemit; [done|lia]); done.
Qed.

Lemma lex_wt src : sat wt (lex src).
Proof. apply lex_loop_wt. rewrite length_bytes. lia. Qed.

(** ** The parser *)

(** A result with fewer tokens left, or with no more. *)
Definition fewer (ts : list token) (p : node * list token) : Prop := wf p.1 /\ wt p.2 /\ (length p.2 < length ts)%nat.
Definition no_more (ts : list token) (p : node * list token) : Prop := wf p.1 /\ wt p.2 /\ (length p.2 <= length ts)%nat.

Lemma no_more_refl x ts : wf x -> wt ts -> no_more ts (x, ts).
Proof. intros Hx Hw. split_and!; [done|done|apply Nat.le_refl]. Qed.

Lemma path_loop_sat fuel : forall parts ts, wt ts -> (length ts < fuel)%nat -> wf (pathNode parts) -> sat (no_more ts) (path_loop fuel parts ts).
Proof.
  assert (forall parts p, wf (pathNode parts) -> wf (pathNode (parts ++ [p]))) as Happ by (intros [|[]] p; done).
  induction fuel as [|fuel IH]; intros parts ts Hw Hf Hp; [lia|]. cbn [path_loop].
  destruct (is_kind tDot ts) eqn:Ed; [|destruct (is_kind tLBrack ts) eqn:Eb].
  - destruct (wt_kind _ _ Ed Hw ltac:(discriminate)) as [Hw1 H1].
    destruct (wt_case _ Hw1) as [[He _]|(Hn & Hw2 & H2)]; [by rewrite He|].
    destruct (_ || _); [|done]. eapply sat_impl; [apply IH; [done|lia|by apply Happ]|]. unfold no_more. intuition lia.
  - destruct (wt_kind _ _ Eb Hw ltac:(discriminate)) as [Hw1 H1].
    apply (sat_bind (fun _ => kind (peek (advance ts)) <> tEOF)).
    { repeat case_bool_decide; [destruct (Atoi _)|..]; cbn; done || congruence. }
    intros p Hk. destruct (wt_case _ Hw1) as [[He _]|(_ & Hw2 & H2)]; [done|].
    destruct (is_kind tRBrack _) eqn:Er; [|done]. destruct (wt_kind _ _ Er Hw2 ltac:(discriminate)) as [Hw3 H3].
    eapply sat_impl; [apply IH; [done|lia|by apply Happ]|]. unfold no_more. intuition lia.
  - by apply no_more_refl.
Qed.

Lemma parse_number_sat neg t : sat wf (parse_number neg t).
Proof. unfold parse_number. by destruct (ParseFloat t). Qed.

(** Every function of the parser, given enough fuel. *)
Definition parser_ok (n : nat) : Prop :=
  (forall ts, wt ts -> (8 * length ts + 5 <= n)%nat -> sat (fewer ts) (parseOr n ts)) /\
  (forall l ts, wt ts -> wf l -> (8 * length ts + 1 <= n)%nat -> sat (no_more ts) (or_loop n l ts)) /\
  (forall ts, wt ts -> (8 * length ts + 4 <= n)%nat -> sat (fewer ts) (parseAnd n ts)) /\
  (forall l ts, wt ts -> wf l -> (8 * length ts + 1 <= n)%nat -> sat (no_more ts) (and_loop n l ts)) /\
  (forall ts, wt ts -> (8 * length ts + 3 <= n)%nat -> sat (fewer ts) (parseNot n ts)) /\
  (forall ts, wt ts -> (8 * length ts + 2 <= n)%nat -> sat (fewer ts) (parseCmp n ts)) /\
  (forall ts, wt ts -> (8 * length ts + 1 <= n)%nat -> sat (fewer ts) (parsePrimary n ts)) /\
  (forall acc ts, wt ts -> wf_all acc -> (8 * length ts + 6 <= n)%nat ->
     sat (fun p => wf_all p.1 /\ wt p.2 /\ (length p.2 < length ts)%nat) (parse_args n acc ts)).

Section step.
Context (n : nat) (IH : parser_ok n).

Lemma parseOr_step ts : wt ts -> (8 * length ts + 5 <= S n)%nat -> sat (fewer ts) (parseOr (S n) ts).
Proof.
  destruct IH as (_ & Hol & Ha & _). intros Hw Hf. cbn [parseOr]. apply (sat_bind (fewer ts)); [apply Ha; [done|lia]|].
  intros [l ts'] (Hl & Hw' & Hlt). cbn [fst snd] in *. eapply sat_impl; [apply Hol; [done|done|lia]|].
  unfold no_more, fewer. intuition lia.
Qed.

Lemma or_loop_step l ts : wt ts -> wf l -> (8 * length ts + 1 <= S n)%nat -> sat (no_more ts) (or_loop (S n) l ts).
Proof.
  destruct IH as (_ & Hol & Ha & _). intros Hw Hl Hf. cbn [or_loop]. destruct (_ || _) eqn:Eo; [|by apply no_more_refl].
  destruct (wt_or _ _ _ Hw Eo) as [Hw1 H1]. apply (sat_bind (fewer (advance ts))); [apply Ha; [done|lia]|].
  intros [r ts'] (Hr & Hw' & Hlt). cbn [fst snd] in *. eapply sat_impl; [apply Hol; [done|done|lia]|]. unfold no_more. intuition lia.
Qed.

Lemma parseAnd_step ts : wt ts -> (8 * length ts + 4 <= S n)%nat -> sat (fewer ts) (parseAnd (S n) ts).
Proof.
  destruct IH as (_ & _ & _ & Hal & Hn & _). intros Hw Hf. cbn [parseAnd]. apply (sat_bind (fewer ts)); [apply Hn; [done|lia]|].
  intros [l ts'] (Hl & Hw' & Hlt). cbn [fst snd] in *. eapply sat_impl; [apply Hal; [done|done|lia]|].
  unfold no_more, fewer. intuition lia.
Qed.

Lemma and_loop_step l ts : wt ts -> wf l -> (8 * length ts + 1 <= S n)%nat -> sat (no_more ts) (and_loop (S n) l ts).
Proof.
  destruct IH as (_ & _ & _ & Hal & Hn & _). intros Hw Hl Hf. cbn [and_loop]. destruct (_ || _) eqn:Eo; [|by apply no_more_refl].
  destruct (wt_or _ _ _ Hw Eo) as [Hw1 H1]. apply (sat_bind (fewer (advance ts))); [apply Hn; [done|lia]|].
  intros [r ts'] (Hr & Hw' & Hlt). cbn [fst snd] in *. eapply sat_impl; [apply Hal; [done|done|lia]|]. unfold no_more. intuition lia.
Qed.

Lemma parseNot_step ts : wt ts -> (8 * length ts + 3 <= S n)%nat -> sat (fewer ts) (parseNot (S n) ts).
Proof.
  destruct IH as (_ & _ & _ & _ & Hn & Hc & _). intros Hw Hf. cbn [parseNot]. destruct (_ || _) eqn:Eo; [|apply Hc; [done|lia]].
  destruct (wt_or _ _ _ Hw Eo) as [Hw1 H1]. apply (sat_bind (fewer (advance ts))); [apply Hn; [done|lia]|].
  intros [x ts'] (Hx & Hw' & Hlt). cbn in *. unfold fewer. cbn. intuition lia.
Qed.

Lemma parseCmp_step ts : wt ts -> (8 * length ts + 2 <= S n)%nat -> sat (fewer ts) (parseCmp (S n) ts).
Proof.
  destruct IH as (_ & _ & _ & _ & _ & _ & Hp & _). intros Hw Hf. cbn [parseCmp]. apply (sat_bind (fewer ts)); [apply Hp; [done|lia]|].
  intros [l ts'] (Hl & Hw' & Hlt). cbn [fst snd] in *. cbn zeta.
  assert (forall k x, is_kind k ts' = true -> k <> tEOF -> (forall r, wf r -> wf (x r)) ->
    sat (fewer ts) ('(r, ts0) ← parsePrimary n (advance ts'); Ok (x r, ts0))) as Hright.
  { intros k x Hk Hk' Hx. destruct (wt_kind _ _ Hk Hw' Hk') as [Hw1 H1].
    apply (sat_bind (fewer (advance ts'))); [apply Hp; [done|lia]|]. intros [r ts0] (Hr & Hw0 & Hlt0). cbn in *.
    unfold fewer. cbn. split_and!; [by apply Hx|done|lia]. }
  destruct (is_kind tOp ts' && _) eqn:Eo.
  { apply andb_true_iff in Eo as [Ek Eop]. apply bool_decide_eq_true in Eop. by apply (Hright tOp). }
  destruct (is_kind tIdent ts' && _) eqn:Ei; [|by cbn].
  apply andb_true_iff in Ei as [Ek Ein]. apply bool_decide_eq_true in Ein. apply (Hright tIdent); [done|done|].
  intros r Hr. cbn. split; [|done]. unfold infixCalls in Ein. rewrite !elem_of_cons, elem_of_nil in Ein.
  destruct Ein as [-> |[-> |[-> |[]]]]; reflexivity.
Qed.

Lemma parse_args_step acc ts : wt ts -> wf_all acc -> (8 * length ts + 6 <= S n)%nat ->
  sat (fun p => wf_all p.1 /\ wt p.2 /\ (length p.2 < length ts)%nat) (parse_args (S n) acc ts).
Proof.
  destruct IH as (Ho & _ & _ & _ & _ & _ & _ & Hargs). intros Hw Ha Hf. cbn [parse_args]. apply (sat_bind (fewer ts)); [apply Ho; [done|lia]|].
  intros [a ts'] (Hx & Hw' & Hlt). cbn [fst snd] in *. destruct (is_kind tComma ts') eqn:Ec; [|cbn; split_and!; [by apply wf_all_snoc|done|lia]].
  destruct (wt_kind _ _ Ec Hw' ltac:(discriminate)) as [Hw1 H1].
  eapply sat_impl; [apply Hargs; [done|by apply wf_all_snoc|lia]|]. cbn. intuition lia.
Qed.

Lemma parse_call_sat t ts : wt ts -> is_kind tLParen ts = true -> (8 * length ts + 1 <= n)%nat ->
  sat (fewer ts) (match assoc t Functions with
    | None => Err (UnknownFunction t)
    | Some argc =>
        let ts := advance ts in
        '(args, ts) ← (if is_kind tRParen ts then Ok ([], ts) else parse_args n [] ts);
        if negb (is_kind tRParen ts) then Err (MissingCallParen t)
        else if decide (length args <> argc) then Err (ArgCount t argc (length args))
        else Ok (callNode t args, advance ts)
    end).
Proof.
  destruct IH as (_ & _ & _ & _ & _ & _ & _ & Hargs). intros Hw Hk Hf. destruct (assoc t Functions) as [argc|] eqn:Ea; [|done].
  destruct (wt_kind _ _ Hk Hw ltac:(discriminate)) as [Hw1 H1]. cbn zeta.
  apply (sat_bind (fun p => wf_all p.1 /\ wt p.2 /\ (length p.2 <= length (advance ts))%nat)).
  { destruct (is_kind tRParen _); [done|]. eapply sat_impl; [apply Hargs; [done|done|lia]|]. cbn. intuition lia. }
  intros [args ts'] (Hall & Hw' & Hle). cbn [fst snd] in *. destruct (is_kind tRParen ts') eqn:Er; [|done]. cbn [negb].
  destruct (wt_kind _ _ Er Hw' ltac:(discriminate)) as [Hw2 H2]. case_decide as Hd; [done|].
  cbn [sat]. unfold fewer. cbn [fst snd wf]. rewrite Ea, Hd. split_and!; [done|done|done|lia].
Qed.

Lemma parsePrimary_step ts : wt ts -> (8 * length ts + 1 <= S n)%nat -> sat (fewer ts) (parsePrimary (S n) ts).
Proof.
  intros Hw Hf. cbn [parsePrimary]. cbn zeta. destruct (wt_case ts Hw) as [[He _]|(Hne & Hw1 & H1)]; [by rewrite He|].
  assert (forall r, wf r -> fewer ts (r, advance ts)) as Hone by (intros r Hr; unfold fewer; cbn; intuition lia).
  destruct (kind (peek ts)) eqn:Ek; try done.
  - repeat (case_bool_decide; [by apply Hone|]). destruct (is_kind tLParen (advance ts)) eqn:El.
    { eapply sat_impl; [apply parse_call_sat; [done|done|lia]|]. unfold fewer. intuition lia. }
    case_bool_decide; [|done]. eapply sat_impl; [apply path_loop_sat; [done|lia|done]|]. unfold fewer, no_more. intuition lia.
  - apply (sat_bind wf); [apply parse_number_sat|]. intros x Hx. by apply Hone.
  - by apply Hone.
  - case_bool_decide; [|done]. destruct (is_kind tNumber (advance ts)) eqn:En; [|done].
    destruct (wt_kind _ _ En Hw1 ltac:(discriminate)) as [Hw2 H2].
    apply (sat_bind wf); [apply parse_number_sat|]. intros x Hx. cbn. unfold fewer. cbn. intuition lia.
  - destruct IH as (Ho & _). apply (sat_bind (fewer (advance ts))); [apply Ho; [done|lia]|].
    intros [x ts'] (Hx & Hw' & Hlt). cbn [fst snd] in *. destruct (is_kind tRParen ts') eqn:Er; [|done].
    destruct (wt_kind _ _ Er Hw' ltac:(discriminate)) as [Hw2 H2]. cbn. unfold fewer. cbn. intuition lia.
Qed.
End step.

Lemma parser_all n : parser_ok n.
Proof.
  induction n as [|n IH]; [unfold parser_ok; split_and!; intros; lia|]. unfold parser_ok. split_and!; intros.
  - by apply parseOr_step.
  - by apply or_loop_step.
  - by apply parseAnd_step.
  - by apply and_loop_step.
  - by apply parseNot_step.
  - by apply parseCmp_step.
  - by apply parsePrimary_step.
  - by apply parse_args_step.
Qed.

Lemma Parse_sat src : sat wf (Parse src).
Proof.
  unfold Parse. case_decide; [done|]. apply (sat_bind wt); [apply lex_wt|]. intros ts Hw. case_decide; [done|].
  apply (sat_bind (fewer ts)); [apply (parser_all (parse_fuel ts)); [done|unfold parse_fuel; lia]|].
  intros [n ts'] (Hn & _). cbn in Hn. by destruct (is_kind tEOF ts').
Qed.

(** ** Types *)
Inductive ty := TBool | TNumber | TText | TNull | TData.

Definition call_type (name : string) : ty :=
  if bool_decide (name ∈ ["contains"; "startsWith"; "endsWith"; "isNull"]%string) then TBool
  else if bool_decide (name = "length"%string) then TNumber else TText.

Definition typeof (n : node) : ty :=
  match n with
  | litNode (VBool _) => TBool
  | litNode (VNum _) => TNumber
  | litNode (VStr _) => TText
  | litNode _ => TNull
  | pathNode _ => TData
  | logicNode _ _ _ | notNode _ | cmpNode _ _ _ => TBool
  | callNode name _ => call_type name
  end.

(** Data of the event, of earlier steps and of variables can be anything. *)
Definition has_type (v : value) (t : ty) : Prop :=
  match t with
  | TBool => exists b, v = VBool b
  | TNumber => exists f, v = VNum f
  | TText => exists s, v = VStr s
  | TNull => v = VNull
  | TData => True
  end.

(** Whether the expression orders values anywhere: the one operation that can fail. *)
Fixpoint orders (n : node) : bool :=
  match n with
  | litNode _ | pathNode _ => false
  | logicNode _ l r => orders l || orders r
  | notNode x => orders x
  | cmpNode op l r => bool_decide (op ∈ ordered_ops) || orders l || orders r
  | callNode _ args => (fix go l := match l with [] => false | x :: l => orders x || go l end) args
  end.

Section eval.
Context {CT : CaseTables} {PT : PrintTables}.

(** What evaluation may come to: a value of the type, or values that cannot be ordered. *)
Definition evaluates (n : node) (r : result evalError value) : Prop :=
  match r with
  | Ok v => has_type v (typeof n)
  | Err (CannotCompare _ op _) => op ∈ ordered_ops /\ orders n = true
  | Err _ => False
  end.

Lemma Compare_sat op l r : op ∈ cmpOps ->
  match Compare op l r with Ok _ => True | Err (CannotCompare _ o _) => o = op /\ op ∈ ordered_ops | Err _ => False end.
Proof.
  intros Hop. assert (op = "=="%string \/ op = "!="%string \/ op ∈ ordered_ops) as H.
  { unfold cmpOps, ordered_ops in *. rewrite !elem_of_cons in *. naive_solver. }
  unfold Compare. cbn zeta. case_decide; [done|]. case_decide; [done|]. destruct H as [?|[?|Hor]]; [done..|].
  destruct (toNumber (Normalize l)), (toNumber (Normalize r)); [by rewrite decide_True|..];
    destruct (Normalize l), (Normalize r); try done; by rewrite decide_True.
Qed.

Lemma Call_sat name args : assoc name Functions = Some (length args) ->
  match Call name args with Ok v => has_type v (call_type name) | Err _ => False end.
Proof.
  intros H. assert (name ∈ map fst Functions /\ assoc name Functions = Some (length args)) as [Hin Ha].
  { split; [|done]. unfold Functions in *. cbn [assoc map fst] in *. repeat (case_decide; [subst; set_solver|]). done. }
  cbn [map fst Functions] in Hin. rewrite !elem_of_cons, elem_of_nil in Hin.
  repeat destruct Hin as [-> |Hin]; [..|done]; destruct args as [|a [|b [|c args]]]; try (vm_compute in Ha; discriminate Ha); clear;
    match goal with |- context [call_type ?s] => let t := eval vm_compute in (call_type s) in change (call_type s) with t end;
    unfold Call; repeat (rewrite decide_False by discriminate); rewrite ?decide_True by done; cbn.
  - destruct (Normalize a); by eexists.
  - destruct a; by eexists.
  - destruct a; by eexists.
  - by eexists.
  - by eexists.
  - by eexists.
  - by eexists.
Qed.

Lemma eval_sat env n : wf n -> evaluates n (eval n env).
Proof.
  induction n as [v|parts|op l r IHl IHr|x IHx|op l r IHl IHr|name args IHargs] using node_deep_ind; cbn [wf eval].
  - destruct v; cbn; by eauto.
  - done.
  - intros [Hl Hr]. specialize (IHl Hl). specialize (IHr Hr). destruct (eval l env) as [a|[]]; cbn in *; try done;
      [|destruct IHl; split; [done|by apply orb_true_iff; left]].
    case_decide; [by eexists|]. case_decide; [by eexists|]. destruct (eval r env) as [b|[]]; cbn in *; try done; [by eexists|].
    destruct IHr. split; [done|by apply orb_true_iff; right].
  - intros Hx. specialize (IHx Hx). destruct (eval x env) as [v|[]]; cbn in *; try done. by eexists.
  - intros (Hop & Hl & Hr). specialize (IHl Hl). specialize (IHr Hr). destruct (eval l env) as [a|[]]; cbn in *; try done;
      [|destruct IHl as [? Ho]; split; [done|rewrite Ho; by rewrite orb_true_r]].
    destruct (eval r env) as [b|[]]; cbn in *; try done; [|destruct IHr as [? Ho]; split; [done|rewrite Ho; by rewrite orb_true_r]].
    pose proof (Compare_sat op a b Hop) as Hc. destruct (Compare op a b) as [c|[]]; cbn in *; try done; [by eexists|].
    destruct Hc as [-> Ho]. split; [done|]. by rewrite bool_decide_true.
  - intros [Ha Hall].
    assert (match (fix go l := match l with [] => Ok [] | x :: l => v ← eval x env; vs ← go l; Ok (v :: vs) end) args : result evalError (list value) with
            | Ok vs => length vs = length args
            | Err (CannotCompare _ op _) => op ∈ ordered_ops /\ (fix go l := match l with [] => false | x :: l => orders x || go l end) args = true
            | Err _ => False
            end) as Hvals.
    { clear Ha. induction args as [|x args IH]; [done|]. destruct Hall as [Hx Hall]. inversion IHargs as [|? ? Hex Hrest]; subst.
      specialize (Hex Hx). specialize (IH Hrest Hall). destruct (eval x env) as [v|[]]; cbn in *; try done;
        [|destruct Hex as [? Ho]; split; [done|by rewrite Ho]].
      match type of IH with match ?r with Ok _ => _ | Err _ => _ end => destruct r as [vs|[]] end; cbn in *; try done; [by rewrite IH|].
      destruct IH as [? Ho]. split; [done|]. by rewrite Ho, orb_true_r. }
    match type of Hvals with match ?r with Ok _ => _ | Err _ => _ end => destruct r as [vs|[]] end; cbn [mbind result_mbind]; [|exact Hvals|done|done].
    rewrite <- Hvals in Ha. pose proof (Call_sat name vs Ha) as Hc. by destruct (Call name vs).
Qed.

(** C38: parsing ends on every source, and refuses it or gives a tree whose evaluation,
    whatever the data, gives a value of the tree's type; the one error evaluation can
    raise is two values that cannot be ordered, and it raises none when the expression
    orders nothing.  In particular no argument is missing and no function unknown. *)
Theorem expression_types (src : string) :
  match Parse src with
  | Err e => e <> OutOfFuel
  | Ok n => forall env, match eval n env with
                   | Ok v => has_type v (typeof n)
                   | Err (CannotCompare _ op _) => op ∈ ordered_ops /\ orders n = true
                   | Err (UnknownCall _) | Err PanicArgs => False
                   end
  end.
Proof.
  pose proof (Parse_sat src) as H. destruct (Parse src) as [n|e]; [|by destruct e].
  intros env. pose proof (eval_sat env n H) as He. by destruct (eval n env) as [|[]].
Qed.
End eval.

(** ** Examples *)
Definition text_of (v : value) : string := Stringify (PT := ascii_print) v.
Definition run_expr (src : string) (env : list (string * value)) : option value :=
  match Eval (CT := ascii_tables) (PT := ascii_print) src env with Ok (Ok v) => Some v | _ => None end.

Definition sample : list (string * value) :=
  [("trigger", VMap [("name", VStr "web-1"); ("pool", VMap [("used_percent", VNum (num "87.5"))]); ("items", VList [VMap [("name", VStr "a")]]);
                     ("flag", VBool true); ("version", VStr "1.10"); ("text", VStr "TRUE")])]%string.

Example expr_ex : map (fun s => run_expr s sample)
  ["trigger.pool.used_percent >= 85 and not isNull(trigger.name)"; "trigger.name contains 'web' && 1 == 2"; "not trigger.missing == null";
   "trigger.items[0].name"; "length(trigger.name) == '5'"; "trigger.flag < 3"; "contains(1)"]%string
  = [Some (VBool true); Some (VBool false); Some (VBool false); Some (VStr "a"); Some (VBool true); None; None]%string.
Proof. vm_compute. reflexivity. Qed.

Example stringify_ex : text_of (VList [VNum (num "1.5"); VNull; VBool true; VInt 7; VNum (num "1e21")]) = "[1.5,null,true,7,1000000000000000000000]"%string.
Proof. vm_compute. reflexivity. Qed.

(** A truth value equals its text in any case when it stands on the left, and never when
    it stands on the right. *)
Example equal_not_symmetric :
  map (fun s => run_expr s sample) ["trigger.flag == trigger.text"; "trigger.text == trigger.flag"]%string = [Some (VBool true); Some (VBool false)].
Proof. vm_compute. reflexivity. Qed.

(** Two texts that both read as numbers are compared as numbers. *)
Example versions_equal : run_expr "trigger.version == '1.1'" sample = Some (VBool true).
Proof. vm_compute. reflexivity. Qed.

(** A number is allowed after a dot, but takes the dot after it along. *)
Example numeric_segment :
  Parse "trigger.items.0" = Ok (pathNode [PName "trigger"; PName "items"; PName "0"])%string /\
  Parse "trigger.items.0.name" = Err (Unexpected "name" 17)%string.
Proof. vm_compute. done. Qed.
