(* ===== verification/Template.v ===== *)
(** * Templates ([src/internal/automation/expr/template.go])

    References between double braces inside the texts of a step's configuration: finding
    them, checking them when a flow is published, and rendering them when it runs. *)
From S2P Require Export Expr.

Inductive templateError :=
  | NoClosing | EmptyReference | BadExpression (src : string) (e : exprError) | BadValue (e : evalError)
  | AtKey (k : string) (e : templateError) | AtIndex (i : nat) (e : templateError).

Definition HasTemplate (s : string) : bool := Contains s "{{" && Contains s "}}".

Definition brace2 : list ascii := bytes "{{".
Definition unbrace2 : list ascii := bytes "}}".

(** The next reference of a text: what is before it, what is between the braces, and what
    is after it. *)
Inductive scan := NoRef | Unclosed | Ref (before inner after : list ascii).
Definition next_ref (rest : list ascii) : scan :=
  match indexb brace2 rest 0 with
  | None => NoRef
  | Some start =>
      let tail := drop (start + 2) rest in
      match indexb unbrace2 tail 0 with
      | None => Unclosed
      | Some e => Ref (take start rest) (take e tail) (drop (e + 2) tail)
      end
  end.

Definition trimmed (l : list ascii) : string := TrimSpace (ofBytes l).

Fixpoint refs_loop (fuel : nat) (rest : list ascii) (out : list string) : result templateError (list string) :=
  match fuel with
  | O => Ok out
  | S fuel =>
      match next_ref rest with
      | NoRef => Ok out
      | Unclosed => Err NoClosing
      | Ref _ inner after =>
          if decide (trimmed inner = ""%string) then Err EmptyReference else refs_loop fuel after (out ++ [trimmed inner])
      end
  end.
Definition TemplateExprs (s : string) : result templateError (list string) := refs_loop (S (String.length s)) (bytes s) [].

(** [fmt]'s wrapping of an error with the text it is about. *)
Definition parse_ref (src : string) : result templateError node :=
  match Parse src with Ok n => Ok n | Err e => Err (BadExpression src e) end.

Fixpoint parse_refs (srcs : list string) : result templateError (list node) :=
  match srcs with [] => Ok [] | src :: srcs => n ← parse_ref src; ns ← parse_refs srcs; Ok (n :: ns) end.

Definition CheckTemplate (s : string) : result templateError (list node) := srcs ← TemplateExprs s; parse_refs srcs.

(** [strings.Count]: matches that do not overlap. *)
Fixpoint count_loop (fuel : nat) (p l : list ascii) : nat :=
  match fuel with
  | O => O
  | S fuel => match indexb p l 0 with None => O | Some i => S (count_loop fuel p (drop (i + length p) l)) end
  end.
Definition Count (s p : string) : nat := count_loop (S (String.length s)) (bytes p) (bytes s).

Section render.
Context {CT : CaseTables} {PT : PrintTables}.

Definition eval_ref (src : string) (env : list (string * value)) : result templateError value :=
  n ← parse_ref src; match eval n env with Ok v => Ok v | Err e => Err (BadValue e) end.

Fixpoint render_loop (fuel : nat) (rest : list ascii) (env : list (string * value)) (b : list ascii) : result templateError value :=
  match fuel with
  | O => Ok (VStr (ofBytes (b ++ rest)))
  | S fuel =>
      match next_ref rest with
      | NoRef => Ok (VStr (ofBytes (b ++ rest)))
      | Unclosed => Err NoClosing
      | Ref before inner after =>
          v ← eval_ref (trimmed inner) env; render_loop fuel after env (b ++ before ++ bytes (Stringify v))
      end
  end.

(** A text that is one reference, with what is between its outer braces. *)
Definition single_ref (s : string) : option string :=
  let t := TrimSpace s in
  if HasPrefix t "{{" && HasSuffix t "}}" && bool_decide (Count t "{{" = 1%nat)
  then Some (TrimSpace (ofBytes (take (String.length t - 4) (drop 2 (bytes t))))) else None.

Definition RenderString (s : string) (env : list (string * value)) : result templateError value :=
  if negb (HasTemplate s) then Ok (VStr s)
  else match single_ref s with
       | Some src => eval_ref src env
       | None => render_loop (S (String.length s)) (bytes s) env []
       end.

(** [Render] walks maps and lists; the shapes with a fixed type stay as they are. *)
Fixpoint Render (v : value) (env : list (string * value)) : result templateError value :=
  match v with
  | VStr s => RenderString s env
  | VMap m =>
      m' ← (fix go (m : list (string * value)) : result templateError (list (string * value)) :=
              match m with
              | [] => Ok []
              | (k, x) :: m => match Render x env with Ok r => rs ← go m; Ok ((k, r) :: rs) | Err e => Err (AtKey k e) end
              end) m;
      Ok (VMap m')
  | VList l =>
      l' ← (fix go (i : nat) (l : list value) : result templateError (list value) :=
              match l with
              | [] => Ok []
              | x :: l => match Render x env with Ok r => rs ← go (S i) l; Ok (r :: rs) | Err e => Err (AtIndex i e) end
              end) 0%nat l;
      Ok (VList l')
  | _ => Ok v
  end.
End render.
