(* ===== verification/TemplateProps.v ===== *)
(** * Templates that were checked render *)
From S2P Require Export Template ExprProps.

(** ** White space has no braces *)
Lemma space_no_brace c : c ∈ space_bytes -> c <> "{"%char /\ c <> "}"%char.
Proof.
  intros Hc. assert (forallb (fun c => negb (bool_decide (c = "{"%char)) && negb (bool_decide (c = "}"%char))) space_bytes = true) as H
    by (vm_compute; reflexivity).
  rewrite forallb_forall in H. apply list_elem_of_In in Hc. specialize (H c Hc). apply andb_true_iff in H as [H1 H2].
  apply negb_true_iff, bool_decide_eq_false in H1, H2. done.
Qed.

(** ** Checking and rendering find the same references *)
Section props.
Context {CT : CaseTables} {PT : PrintTables}.

(** What evaluating a checked reference may come to. *)
Lemma parse_ref_wf src n : parse_ref src = Ok n -> wf n.
Proof. unfold parse_ref. pose proof (Parse_sat src) as H. destruct (Parse src); [by intros [= <-]|done]. Qed.

Definition rendered (P : value -> Prop) (o : bool) (r : result templateError value) : Prop :=
  match r with
  | Ok v => P v
  | Err (BadValue (CannotCompare _ _ _)) => o = true
  | Err _ => False
  end.

Lemma eval_ref_ok src n env : parse_ref src = Ok n -> rendered (fun v => has_type v (typeof n)) (orders n) (eval_ref src env).
Proof.
  intros Hp. unfold eval_ref. rewrite Hp. cbn [mbind result_mbind]. pose proof (eval_sat env n (parse_ref_wf _ _ Hp)) as He.
  destruct (eval n env) as [v|[]]; cbn in *; try done. by destruct He.
Qed.

Definition any_orders (ns : list node) : bool := existsb orders ns.

Lemma refs_loop_app fuel : forall rest out,
  refs_loop fuel rest out = srcs ← refs_loop fuel rest []; Ok (out ++ srcs).
Proof.
  induction fuel as [|fuel IH]; intros rest out; cbn [refs_loop]; [cbn; by rewrite app_nil_r|].
  destruct (next_ref rest) as [| |before inner after]; [cbn; by rewrite app_nil_r|done|]. case_decide; [done|].
  rewrite (IH after (out ++ _)), (IH after ([] ++ _)). destruct (refs_loop fuel after []); cbn; [|done]. by rewrite <- app_assoc.
Qed.

Lemma render_loop_ok env fuel : forall rest b srcs ns,
  refs_loop fuel rest [] = Ok srcs -> parse_refs srcs = Ok ns ->
  rendered (fun v => exists t, v = VStr t) (any_orders ns) (render_loop fuel rest env b).
Proof.
  induction fuel as [|fuel IH]; intros rest b srcs ns; cbn [refs_loop render_loop]; [by eexists|].
  destruct (next_ref rest) as [| |before inner after]; [by eexists|done|]. case_decide; [done|].
  rewrite refs_loop_app. destruct (refs_loop fuel after []) as [srcs'|] eqn:Er; [|done]. cbn [mbind result_mbind app].
  intros [= <-]. cbn [parse_refs]. destruct (parse_ref (trimmed inner)) as [n|] eqn:Ep; [|done]. cbn [mbind result_mbind].
  destruct (parse_refs srcs') as [ns'|] eqn:Es; [|done]. cbn [mbind result_mbind]. intros [= <-].
  pose proof (eval_ref_ok _ _ env Ep) as He. cbn [any_orders existsb].
  destruct (eval_ref (trimmed inner) env) as [v|[]]; cbn in He |- *; try done; [|by destruct e; try done; rewrite He].
  specialize (IH after (b ++ before ++ bytes (Stringify v)) _ _ Er Es).
  destruct (render_loop fuel after env _) as [w|[]]; cbn in *; try done. destruct e; try done. fold (any_orders ns'). by rewrite IH, orb_true_r.
Qed.

(** The one reference of a text that is one: what is between its outer braces, when no
    closing brace is inside. *)
Lemma single_refs s src : single_ref s = Some src ->
  (forall t, bytes (TrimSpace s) = brace2 ++ t ++ unbrace2 -> "}"%char ∉ t) ->
  forall srcs, TemplateExprs s = Ok srcs -> srcs = [src].
Proof.
  unfold single_ref. intros Hs Hno srcs. cbn zeta in Hs.
  destruct (HasPrefix (TrimSpace s) "{{") eqn:Hp; [|done]. destruct (HasSuffix (TrimSpace s) "}}") eqn:Hq; [|done].
  case_bool_decide as Hc; [|done]. cbn [andb] in Hs. injection Hs as Hsrc.
  apply HasPrefix_spec in Hp as [r Hr]. apply HasSuffix_spec in Hq as [q Hq].
  assert (exists t, bytes (TrimSpace s) = brace2 ++ t ++ unbrace2) as [t Ht].
  { rewrite Hr in Hq |- *. change (bytes "{{") with (["{"; "{"]%char) in *. change (bytes "}}") with (["}"; "}"]%char) in *.
    destruct q as [|x [|y q]]; cbn in Hq; [discriminate|injection Hq; discriminate|]. injection Hq as <- <- ->. by exists q. }
  specialize (Hno t Ht). destruct (TrimSpace_spec s) as (a & b & Hab & Hsp).
  assert ("{"%char ∉ a /\ "{"%char ∉ b) as [Ha Hb].
  { split; intros Hin; destruct (space_no_brace "{"%char) as [Hx _]; try done; apply Hsp, elem_of_app; auto. }
  assert (trimmed t = src) as Hts.
  { rewrite <- Hsrc. unfold trimmed. do 2 f_equal.
    assert (String.length (TrimSpace s) = length (bytes (TrimSpace s))) as -> by (by rewrite length_bytes).
    rewrite Ht, !length_app. cbn [brace2 unbrace2 bytes length]. 
    change (drop 2 (brace2 ++ t ++ unbrace2)) with (t ++ unbrace2). replace (length brace2 + (length t + length unbrace2) - 4)%nat with (length t) by (cbn; lia).
    by rewrite take_app_length. }
  assert (next_ref (bytes s) = Ref a t b) as Hn.
  { rewrite Hab, Ht. unfold next_ref, brace2, unbrace2.
    change (bytes "{{") with (["{"; "{"]%char). change (bytes "}}") with (["}"; "}"]%char).
    replace (a ++ (["{"; "{"]%char ++ t ++ ["}"; "}"]%char) ++ b) with (a ++ "{"%char :: "{"%char :: t ++ "}"%char :: "}"%char :: b)
      by (cbn; by rewrite <- ?app_assoc).
    rewrite indexb_first by done. cbn [Nat.add].
    replace (drop (length a + 2) (a ++ "{"%char :: "{"%char :: t ++ "}"%char :: "}"%char :: b)) with (t ++ "}"%char :: "}"%char :: b)
      by (rewrite drop_app_ge by lia; by replace (length a + 2 - length a)%nat with 2%nat by lia).
    rewrite indexb_first by done. cbn [Nat.add]. rewrite !take_app_length.
    rewrite drop_app_ge by lia. by replace (length t + 2 - length t)%nat with 2%nat by lia. }
  unfold TemplateExprs. cbn [refs_loop]. rewrite Hn, Hts. case_decide; [done|]. cbn [app].
  assert (next_ref b = NoRef) as Hb' by (unfold next_ref, brace2; change (bytes "{{") with (["{"; "{"]%char); by rewrite indexb_none).
  destruct (String.length s) as [|k]; cbn [refs_loop]; [by intros [= <-]|]. rewrite Hb'. by intros [= <-].
Qed.

Lemma RenderString_checked (s : string) (env : list (string * value)) (ns : list node) :
  CheckTemplate s = Ok ns ->
  (forall t, bytes (TrimSpace s) = brace2 ++ t ++ unbrace2 -> "}"%char ∉ t) ->
  match RenderString s env with
  | Ok v => if HasTemplate s
            then match single_ref s with Some _ => exists n, ns = [n] /\ has_type v (typeof n) | None => exists t, v = VStr t end
            else v = VStr s
  | Err (BadValue (CannotCompare _ _ _)) => existsb orders ns = true
  | Err _ => False
  end.
Proof.
  unfold CheckTemplate, RenderString. destruct (TemplateExprs s) as [srcs|] eqn:Et; [|done]. cbn [mbind result_mbind].
  intros Hns Hno. destruct (HasTemplate s); [|done]. cbn [negb]. destruct (single_ref s) as [src|] eqn:Es.
  - rewrite (single_refs s src Es Hno srcs Et) in Hns. cbn [parse_refs] in Hns.
    destruct (parse_ref src) as [n|] eqn:Ep; [|done]. cbn [mbind result_mbind] in Hns. injection Hns as <-.
    pose proof (eval_ref_ok src n env Ep) as He. cbn [existsb]. rewrite orb_false_r.
    destruct (eval_ref src env) as [v|[]]; cbn in *; try done. by exists n.
  - pose proof (render_loop_ok env (S (String.length s)) (bytes s) [] srcs ns Et Hns) as Hr.
    destruct (render_loop _ _ env []) as [v|[]]; done.
Qed.

(** A text that was checked renders.  Without a reference it stays as it is; a text
    that is one reference renders to a value of the reference's type, any other to a
    text; and the only error left is two values that a reference orders and cannot.
    This holds when no closing brace stands inside a text that is one reference. *)
Theorem checked_renders (s : string) (env : list (string * value)) (ns : list node) :
  CheckTemplate s = Ok ns ->
  (forall t, bytes (TrimSpace s) = brace2 ++ t ++ unbrace2 -> "}"%char ∉ t) ->
  match RenderString s env with
  | Ok v => if HasTemplate s
            then match single_ref s with Some _ => exists n, ns = [n] /\ has_type v (typeof n) | None => exists t, v = VStr t end
            else v = VStr s
  | Err (BadValue (CannotCompare _ _ _)) => existsb orders ns = true
  | Err _ => False
  end.
Proof. apply RenderString_checked. Qed.
End props.

(** ** Examples *)
Definition render_ex (s : string) : option value :=
  match RenderString (CT := ascii_tables) (PT := ascii_print) s sample with Ok v => Some v | Err _ => None end.

Lemma inner_text s x : bytes (TrimSpace s) = brace2 ++ x ++ unbrace2 -> bool_decide ("}"%char ∉ x) = true ->
  forall t, bytes (TrimSpace s) = brace2 ++ t ++ unbrace2 -> "}"%char ∉ t.
Proof. intros Hx Hb%bool_decide_eq_true t Ht. rewrite Hx in Ht. by apply app_inv_head, app_inv_tail in Ht as <-. Qed.

Definition list_ref : string := " {{ trigger.items }} ".

Lemma checked_renders_witness :
  render_ex list_ref = Some (VList [VMap [("name", VStr "a")]])%string /\
  render_ex "{{ trigger.name }} at {{trigger.pool.used_percent}}%" = Some (VStr "web-1 at 87.5%") /\
  exists n v, CheckTemplate list_ref = Ok [n] /\ RenderString (CT := ascii_tables) (PT := ascii_print) list_ref sample = Ok v /\ has_type v (typeof n).
Proof.
  split; [vm_compute; reflexivity|]. split; [vm_compute; reflexivity|].
  destruct (CheckTemplate list_ref) as [ns|] eqn:Ec; [|vm_compute in Ec; discriminate Ec].
  assert (forall t, bytes (TrimSpace list_ref) = brace2 ++ t ++ unbrace2 -> "}"%char ∉ t) as Hno
    by (apply (inner_text list_ref (bytes " trigger.items ")); vm_compute; reflexivity).
  pose proof (checked_renders (CT := ascii_tables) (PT := ascii_print) list_ref sample ns Ec Hno) as H.
  destruct (RenderString (CT := ascii_tables) (PT := ascii_print) list_ref sample) as [v|e] eqn:Er; [|vm_compute in Er; discriminate Er].
  destruct H as (n & -> & Hv). exists n, v. split; [reflexivity|]. split; [reflexivity|exact Hv].
Defined.

(** A text that passes the check and cannot be rendered: the check reads up to the first
    closing braces, rendering up to the last. *)
Example checked_fails :
  match CheckTemplate "{{ trigger.name }} }}" with Ok [_] => True | _ => False end /\
  RenderString (CT := ascii_tables) (PT := ascii_print) "{{ trigger.name }} }}" sample = Err (BadExpression "trigger.name }}" (BadChar "}" 14)).
Proof. vm_compute. done. Qed.
