(* ===== verification/When.v ===== *)
(** * Conditions of event triggers ([src/internal/automation/flowdef/when.go])

    A list of conditions is read left to right, "and" binding tighter than "or", with
    nested groups.  The reference reads a list as runs of conditions between its "or"s;
    the code's one pass over the list is shown to agree with it. *)
From S2P Require Export FlowGraph Expr.

Inductive Condition := mkCond (join kind_ field_ op_ : string) (value_ : value) (group : list Condition).

Definition Join (c : Condition) : string := let '(mkCond j _ _ _ _ _) := c in j.
Definition Kind (c : Condition) : string := let '(mkCond _ k _ _ _ _) := c in k.
Definition Field (c : Condition) : string := let '(mkCond _ _ f _ _ _) := c in f.
Definition Op (c : Condition) : string := let '(mkCond _ _ _ o _ _) := c in o.
Definition Value (c : Condition) : value := let '(mkCond _ _ _ _ v _) := c in v.
Definition Group (c : Condition) : list Condition := let '(mkCond _ _ _ _ _ g) := c in g.

Definition ConditionOps : list string := ["eq"; "neq"; "contains"; "exists"]%string.

Record ConditionResult := mkResult { rPath : string; rField : string; rKind : string; rOp : string; Expected : value; Actual : value; Matched : bool }.

Definition at_index (path : string) (i : nat) : string := path +:+ "[" +:+ Itoa (Z.of_nat i) +:+ "]".

(** ** Validation *)
Fixpoint validate_condition (depth : nat) (p : string) (c : Condition) : list Problem :=
  match c with
  | mkCond join kind field op _ group =>
      (if bool_decide (join <> ""%string) && bool_decide (join <> "and"%string) && bool_decide (join <> "or"%string)
       then [mkProblem (p +:+ ".join") "join must be and or or"] else []) ++
      match group with
      | _ :: _ =>
          if decide (Z.of_nat (S depth) > MaxConditionDepth)
          then [mkProblem (p +:+ ".group") ("conditions nest more than " +:+ Itoa MaxConditionDepth +:+ " levels deep")]
          else (fix go (i : nat) (l : list Condition) : list Problem :=
                  match l with [] => [] | c :: l => validate_condition (S depth) (at_index (p +:+ ".group") i) c ++ go (S i) l end) 0%nat group
      | [] =>
          if decide (kind <> ""%string /\ field = ""%string) then []
          else (if decide (TrimSpace field = ""%string) then [mkProblem (p +:+ ".field") "choose the event field to test"] else []) ++
               (if decide (op ∈ ConditionOps) then [] else [mkProblem (p +:+ ".op") "op must be eq, neq, contains or exists"])
      end
  end.

Definition ValidateConditions (conds : list Condition) (path : string) (depth : nat) : list Problem :=
  if decide (Z.of_nat depth > MaxConditionDepth)
  then [mkProblem path ("conditions nest more than " +:+ Itoa MaxConditionDepth +:+ " levels deep")]
  else concat (imap (fun i c => validate_condition depth (at_index path i) c) conds).

(** ** Evaluation *)
Section match_.
Context {CT : CaseTables} {PT : PrintTables} (kind : string) (payload : value).

Definition matchOne (c : Condition) (path : string) : bool * ConditionResult :=
  if decide (Kind c <> ""%string /\ Field c = ""%string) then
    let hit := bool_decide (Kind c = kind) in
    (hit, mkResult path "" (Kind c) "" VNull (VStr kind) hit)
  else
    let actual := Expr.Lookup payload (Field c) in
    let hit :=
      if decide (Op c = "eq"%string) then Equal actual (Value c)
      else if decide (Op c = "neq"%string) then negb (Equal actual (Value c))
      else if decide (Op c = "contains"%string) then match Call "contains" [actual; Value c] with Ok (VBool b) => b | _ => false end
      else if decide (Op c = "exists"%string) then match actual with VNull => false | _ => true end
      else false in
    (hit, mkResult path (Field c) "" (Op c) (Value c) actual hit).

(** The state of the pass: some earlier run held, the current run holds so far. *)
Definition run_step (i : nat) (c : Condition) (hit : bool) (st : bool * bool) : bool * bool :=
  let '(anyRun, runOK) := st in
  let '(anyRun, runOK) := if bool_decide (0 < i)%nat && bool_decide (Join c = "or"%string) then (anyRun || runOK, true) else (anyRun, runOK) in
  (anyRun, runOK && hit).

Fixpoint match_condition (c : Condition) (path : string) : bool * list ConditionResult :=
  match Group c with
  | [] => let '(hit, r) := matchOne c path in (hit, [r])
  | _ :: _ =>
      match c with
      | mkCond _ _ _ _ _ group =>
          let '(st, rs) := (fix go (i : nat) (l : list Condition) (st : bool * bool) : (bool * bool) * list ConditionResult :=
             match l with
             | [] => (st, [])
             | c :: l =>
                 let '(hit, rs) := match_condition c (at_index (path +:+ ".group") i) in
                 let '(st, rs') := go (S i) l (run_step i c hit st) in (st, rs ++ rs')
             end) 0%nat group (false, true) in
          (st.1 || st.2, rs)
      end
  end.

(** [matchList] on a list that is not empty. *)
Fixpoint match_loop (path : string) (i : nat) (l : list Condition) (st : bool * bool) : (bool * bool) * list ConditionResult :=
  match l with
  | [] => (st, [])
  | c :: l =>
      let '(hit, rs) := match_condition c (at_index path i) in
      let '(st, rs') := match_loop path (S i) l (run_step i c hit st) in (st, rs ++ rs')
  end.

Definition matchList (conds : list Condition) (path : string) : bool * list ConditionResult :=
  match conds with
  | [] => (true, [])
  | _ => let '(st, rs) := match_loop path 0 conds (false, true) in (st.1 || st.2, rs)
  end.

Definition MatchConditions (conds : list Condition) : bool * list ConditionResult := matchList conds "conditions".

Lemma match_condition_group c path : Group c <> [] ->
  match_condition c path = matchList (Group c) (path +:+ ".group").
Proof.
  destruct c as [j k f o v [|g0 gs]]; [done|intros _]. cbn -[match_loop at_index run_step]. unfold matchList.
  assert (forall l i st, (fix go (i : nat) (l : list Condition) (st : bool * bool) : (bool * bool) * list ConditionResult :=
             match l with
             | [] => (st, [])
             | c :: l =>
                 let '(hit, rs) := match_condition c (at_index (path +:+ ".group") i) in
                 let '(st, rs') := go (S i) l (run_step i c hit st) in (st, rs ++ rs')
             end) i l st = match_loop (path +:+ ".group") i l st) as H.
  { induction l as [|c l IH]; intros i st; [done|]. cbn [match_loop]. destruct (match_condition c _). by rewrite IH. }
  rewrite <- H. done.
Qed.
End match_.

(** ** The reference reading *)
Section condition_ind.
Context (P : Condition -> Prop) (H : forall j k f o v g, Forall P g -> P (mkCond j k f o v g)).
Fixpoint condition_deep_ind (c : Condition) : P c :=
  match c with
  | mkCond j k f o v g => H j k f o v g
      ((fix go l := match l return Forall P l with [] => List.Forall_nil _ | x :: l => List.Forall_cons _ x l (condition_deep_ind x) (go l) end) g)
  end.
End condition_ind.

(** The runs of a list: the stretches between the conditions that join with "or". *)
Fixpoint runs_from (cur : list Condition) (l : list Condition) : list (list Condition) :=
  match l with
  | [] => [cur]
  | c :: l => if decide (Join c = "or"%string) then cur :: runs_from [c] l else runs_from (cur ++ [c]) l
  end.
Definition runs (l : list Condition) : list (list Condition) := match l with [] => [] | c :: l => runs_from [c] l end.

(** The single conditions, groups opened, in order. *)
Fixpoint leaves (c : Condition) : list Condition :=
  match c with
  | mkCond _ _ _ _ _ [] => [c]
  | mkCond _ _ _ _ _ g => (fix go l := match l with [] => [] | c :: l => leaves c ++ go l end) g
  end.
Definition all_leaves (l : list Condition) : list Condition := concat (map leaves l).

Fixpoint nesting (c : Condition) : nat :=
  match c with
  | mkCond _ _ _ _ _ [] => O
  | mkCond _ _ _ _ _ g => S ((fix go l := match l with [] => O | c :: l => Nat.max (nesting c) (go l) end) g)
  end.

Lemma leaves_group c : Group c <> [] -> leaves c = all_leaves (Group c).
Proof.
  destruct c as [j k f o v [|g0 g]]; [done|intros _]. unfold all_leaves. cbn [Group leaves].
  assert (forall l, (fix go l := match l with [] => [] | c :: l => leaves c ++ go l end) l = concat (map leaves l)) as H by (by induction l as [|x l IH]; cbn; [|rewrite IH]).
  apply (H (g0 :: g)).
Qed.

Section reading.
Context {CT : CaseTables} {PT : PrintTables} (kind : string) (payload : value).

Definition leaf (c : Condition) : bool := (matchOne kind payload c "").1.

(** A condition holds: a single one by its test, a group when one of its runs holds. *)
Inductive holds : Condition -> Prop :=
  | holds_leaf c : Group c = [] -> leaf c = true -> holds c
  | holds_group c run : run ∈ runs (Group c) -> Forall holds run -> holds c.

Definition any_run (l : list Condition) : Prop := l = [] \/ exists run, run ∈ runs l /\ Forall holds run.

Lemma matchOne_leaf c path : (matchOne kind payload c path).1 = leaf c /\ Matched (matchOne kind payload c path).2 = leaf c.
Proof. unfold leaf, matchOne. by case_decide. Qed.

(** What evaluating a condition gives, wherever it is. *)
Definition reads (c : Condition) : Prop := forall path,
  ((match_condition kind payload c path).1 = true <-> holds c) /\
  map Matched (match_condition kind payload c path).2 = map leaf (leaves c).

Lemma match_loop_results path l : forall i st, Forall reads l ->
  map Matched (match_loop kind payload path i l st).2 = map leaf (all_leaves l).
Proof.
  induction l as [|c l IH]; intros i st Hl; [done|]. inversion Hl as [|? ? Hc Hl']; subst. unfold all_leaves in *. cbn [match_loop map concat].
  destruct (Hc (at_index path i)) as [_ Hr]. destruct (match_condition kind payload c _) as [hit rs].
  specialize (IH (S i) (run_step i c hit st) Hl'). destruct (match_loop _ _ _ _ _ _) as [st' rs']. cbn in *. by rewrite !map_app, Hr, IH.
Qed.

Lemma match_loop_runs path l : forall i st cur, (0 < i)%nat -> Forall reads l -> (st.2 = true <-> Forall holds cur) ->
  let st' := (match_loop kind payload path i l st).1 in
  st'.1 || st'.2 = true <-> st.1 = true \/ exists run, run ∈ runs_from cur l /\ Forall holds run.
Proof.
  induction l as [|c l IH]; intros i [anyRun runOK] cur Hi Hl Hcur; cbn [match_loop runs_from].
  - cbn in *. rewrite orb_true_iff, Hcur. split; (intros [?|H]; [by left|right]); [exists cur; split; [left|done]|].
    destruct H as (run & ->%list_elem_of_singleton & H). done.
  - inversion Hl as [|? ? Hc Hl']; subst. destruct (Hc (at_index path i)) as [Hh _].
    destruct (match_condition kind payload c _) as [hit rs]. cbn [fst] in Hh.
    assert (forall st cur, (st.2 = true <-> Forall holds cur) -> let st' := (match_loop kind payload path (S i) l st).1 in
      st'.1 || st'.2 = true <-> st.1 = true \/ exists run, run ∈ runs_from cur l /\ Forall holds run) as IH'.
    { intros st cur' H. apply IH; [lia|done|done]. }
    clear IH. unfold run_step. rewrite bool_decide_true by done. cbn [andb]. cbn [snd] in Hcur.
    case_bool_decide as Hj; [rewrite decide_True by done|rewrite decide_False by done].
    + specialize (IH' (anyRun || runOK, true && hit) [c]). cbn [fst snd] in *.
      destruct (match_loop _ _ _ _ _ _) as [st' rs']. cbn [fst] in *. rewrite IH' by (rewrite Forall_singleton; done).
      rewrite orb_true_iff, Hcur. setoid_rewrite elem_of_cons. naive_solver.
    + specialize (IH' (anyRun, runOK && hit) (cur ++ [c])). cbn [fst snd] in *.
      destruct (match_loop _ _ _ _ _ _) as [st' rs']. cbn [fst] in *. apply IH'.
      rewrite andb_true_iff, Hcur, Hh, Forall_app, Forall_singleton. done.
Qed.

Lemma matchList_reads conds path : Forall reads conds ->
  ((matchList kind payload conds path).1 = true <-> any_run conds) /\
  map Matched (matchList kind payload conds path).2 = map leaf (all_leaves conds).
Proof.
  intros Hl. unfold any_run. destruct conds as [|c l]; [split; [split; [by left|done]|done]|].
  pose proof (match_loop_results path (c :: l) 0 (false, true) Hl) as Hr. unfold matchList. inversion Hl as [|? ? Hc Hl']; subst.
  cbn [match_loop] in *. destruct (Hc (at_index path 0)) as [Hh _].
  destruct (match_condition kind payload c _) as [hit rs]. cbn [fst] in Hh.
  pose proof (match_loop_runs path l 1 (run_step 0 c hit (false, true)) [c] ltac:(lia) Hl') as H.
  destruct (match_loop kind payload path 1 l _) as [st rs']. cbn [fst snd runs] in *. split; [|exact Hr].
  rewrite H by (by rewrite Forall_singleton). cbn. naive_solver.
Qed.

Lemma reads_all c : reads c.
Proof.
  induction c as [j k f o v g IH] using condition_deep_ind. intros path. destruct g as [|g0 g].
  - cbn. destruct (matchOne_leaf (mkCond j k f o v []) path) as [H1 H2].
    destruct (matchOne kind payload _ path) as [hit r]. cbn in *. split; [|by rewrite H2]. rewrite H1. split; [by apply holds_leaf|].
    intros Hh. inversion Hh as [? _ Hl|? run Hr _]; subst; [done|]. by apply elem_of_nil in Hr.
  - set (c := mkCond j k f o v (g0 :: g)). rewrite match_condition_group, leaves_group by done.
    destruct (matchList_reads (Group c) (path +:+ ".group") IH) as [H1 H2]. split; [|exact H2]. rewrite H1. unfold any_run. split.
    + intros [?|(run & Hr & Hf)]; [done|]. by apply (holds_group c run).
    + intros Hh. right. inversion Hh as [? He _|? run Hr Hf]; subst; [done|]. by exists run.
Qed.
End reading.

(** ** What validation promises *)
Definition valid_leaf (c : Condition) : Prop :=
  (Kind c <> ""%string /\ Field c = ""%string) \/ (TrimSpace (Field c) <> ""%string /\ Op c ∈ ConditionOps).

Lemma validate_condition_nil c : forall depth p, validate_condition depth p c = [] -> Z.of_nat depth <= MaxConditionDepth ->
  Z.of_nat (depth + nesting c) <= MaxConditionDepth /\ Forall valid_leaf (leaves c).
Proof.
  induction c as [j k f o v g IH] using condition_deep_ind. intros depth p. cbn [validate_condition].
  intros [_ Hv]%app_eq_nil Hd. destruct g as [|g0 g].
  - cbn. rewrite Nat.add_0_r. split; [done|]. apply Forall_singleton. unfold valid_leaf. cbn. revert Hv.
    case_decide as Hk; [by left|]. intros [H1 H2]%app_eq_nil. right.
    destruct (decide (TrimSpace f = ""%string)); [done|]. by destruct (decide (o ∈ ConditionOps)).
  - revert Hv. case_decide as Hdeep; [done|]. intros Hv. rewrite leaves_group by done. unfold all_leaves. cbn [Group]. cbn [nesting].
    assert (forall l i, Forall (fun c => forall depth p, validate_condition depth p c = [] -> Z.of_nat depth <= MaxConditionDepth ->
        Z.of_nat (depth + nesting c) <= MaxConditionDepth /\ Forall valid_leaf (leaves c)) l ->
      (fix go (i : nat) (l : list Condition) : list Problem :=
         match l with [] => [] | c :: l => validate_condition (S depth) (at_index (p +:+ ".group") i) c ++ go (S i) l end) i l = [] ->
      Z.of_nat (S depth + (fix go l := match l with [] => O | c :: l => Nat.max (nesting c) (go l) end) l) <= MaxConditionDepth /\
      Forall valid_leaf (concat (map leaves l))) as Hgo.
    { induction l as [|c l IHl]; intros i Hl; [intros _; split; [lia|constructor]|]. inversion Hl as [|? ? Hc Hl']; subst.
      intros [H1 H2]%app_eq_nil. destruct (Hc _ _ H1 ltac:(lia)) as [Hc1 Hc2]. destruct (IHl (S i) Hl' H2) as [Hl1 Hl2]. cbn.
      split; [lia|]. by apply Forall_app. }
    destruct (Hgo (g0 :: g) 0%nat IH Hv) as [H1 H2]. split; [|exact H2]. replace (depth + S _)%nat with (S depth + (fix go l := match l with [] => O | c :: l => Nat.max (nesting c) (go l) end) (g0 :: g))%nat by (cbn; lia). exact H1.
Qed.

Lemma ValidateConditions_nil conds path : ValidateConditions conds path 1 = [] ->
  Forall (fun c => Z.of_nat (S (nesting c)) <= MaxConditionDepth) conds /\ Forall valid_leaf (all_leaves conds).
Proof.
  unfold ValidateConditions, all_leaves. rewrite decide_False by done.
  assert (forall l (h : nat -> string), concat (imap (fun i c => validate_condition 1 (h i) c) l) = [] ->
    Forall (fun c => Z.of_nat (S (nesting c)) <= MaxConditionDepth) l /\ Forall valid_leaf (concat (map leaves l))) as H.
  { induction l as [|c l IH]; intros h; [by split|]. cbn [imap]. cbn. intros [H1 H2]%app_eq_nil.
    destruct (validate_condition_nil c 1 _ H1) as [Hc1 Hc2]; [done|]. destruct (IH (fun i => h (S i)) H2) as [Hl1 Hl2].
    split; [by constructor|]. by apply Forall_app. }
  apply (H conds (at_index path)).
Qed.

(** A list of conditions matches an event exactly when it is empty or one of its runs
    between "or"s holds as a whole, where a group holds when one of its runs does; a test
    run reports every single condition once, in order, with its own outcome; and a list
    that passes validation nests at most three levels and tests only with the operators
    there are. *)
Theorem conditions_read `{CaseTables} `{PrintTables} (kind : string) (payload : value) (conds : list Condition) :
  ((MatchConditions kind payload conds).1 = true <-> any_run kind payload conds) /\
  map Matched (MatchConditions kind payload conds).2 = map (leaf kind payload) (all_leaves conds) /\
  forall path, ValidateConditions conds path 1 = [] ->
    Forall (fun c => Z.of_nat (S (nesting c)) <= MaxConditionDepth) conds /\ Forall valid_leaf (all_leaves conds).
Proof.
  destruct (matchList_reads kind payload conds "conditions") as [H1 H2].
  { apply Forall_forall. intros c _. apply reads_all. }
  split; [exact H1|]. split; [exact H2|]. intros path. apply ValidateConditions_nil.
Qed.

(** ** Examples *)
Definition test (join field op : string) (v : value) : Condition := mkCond join "" field op v [].
Definition matches_ex (conds : list Condition) : bool :=
  (MatchConditions (CT := ascii_tables) (PT := ascii_print) "workload.stopped" (VMap [("name", VStr "web"); ("cpu", VStr "91")])%string conds).1.

(** a or b and c reads as a or (b and c). *)
Example precedence : map matches_ex
  [ [test "" "name" "eq" (VStr "web"); test "or" "cpu" "eq" (VInt 5); test "and" "cpu" "eq" (VInt 6)];
    [mkCond "" "" "" "" VNull [test "" "name" "eq" (VStr "web"); test "or" "cpu" "eq" (VInt 5)]; test "and" "cpu" "eq" (VInt 6)];
    []; [test "" "missing" "neq" (VStr "x")]; [mkCond "" "workload.stopped" "" "" VNull []] ]%string
  = [true; false; true; true; true].
Proof. vm_compute. reflexivity. Qed.

(** A condition with a kind and a field passes validation, and the kind is not looked at. *)
Example kind_ignored :
  let c := mkCond "" "workload.deleted" "name" "eq" (VStr "web") [] in
  ValidateConditions [c] "conditions" 1 = [] /\ matches_ex [c] = true.
Proof. vm_compute. done. Qed.
