(* ===== verification/Trigger.v ===== *)
(** * Triggers of a flow ([src/internal/automation/flowdef/def.go], [when.go], [validate.go])

    The kinds of triggers, the conditions of an event trigger as they are read from a
    configuration ([ParseConditions], which goes through encoding/json), and the checks of
    [validateTrigger], with what an empty answer of theirs means. *)
From S2P Require Export Cron When Template.
From S2P Require Import FlowDef.

Definition TriggerManual : string := "trigger.manual".
Definition TriggerSchedule : string := "trigger.schedule".
Definition TriggerWebhook : string := "trigger.webhook".
Definition TriggerEvent : string := "trigger.event".

Definition TriggerKinds : list (string * string) :=
  [(TriggerManual, "manual"); (TriggerSchedule, "schedule"); (TriggerWebhook, "webhook"); (TriggerEvent, "event")]%string.
Definition TriggerKind (d : Definition_) : string := default ""%string (assoc (tType (dTrigger d)) TriggerKinds).
Definition EventKind (d : Definition_) : string :=
  if decide (tType (dTrigger d) = TriggerEvent) then asString (field "kind" (tConfig (dTrigger d))) else ""%string.

Definition EventKinds : list string :=
  ["workload.started"; "workload.stopped"; "workload.restarted"; "workload.deleted";
   "uptime.monitor_down"; "uptime.monitor_recovered"; "docker.container_unhealthy";
   "backup.succeeded"; "backup.failed"; "storage.pool_usage_high"]%string.

(** ** Problems

    [flowdef.Problem], with the errors of other components as they are. *)
Inductive conditionsError := NotAList | NotEncodable.
Inductive message :=
  | Says (text : string) | SaysExpr (e : exprError) | SaysTemplate (e : templateError) | SaysSchedule (e : scheduleError)
  | SaysCron (f : fieldName) (e : cronError) | SaysConditions (e : conditionsError).
Record problem := mkP { pPath : string; pMessage : message }.
Definition says (path text : string) : problem := mkP path (Says text).
Definition from_problem (p : Problem) : problem := says (Path p) (Message p).

(** ** Conditions through JSON

    What marshalling a value and reading it back into [any] gives; [None] is an error of
    [json.Marshal], which only numbers that are not finite raise.  Keys are written in
    order; bytes that are not UTF-8 become the replacement character. *)
Definition json_text (s : string) : string := ofBytes (concat (map encode_rune (runes s))).

Definition sorted_fields {A} (m : list (string * A)) : list (string * A) :=
  omap (fun k => (fun x => (json_text k, x)) <$> assoc k m) (sortStrings (map fst m)).

Definition json_number (f : spec_float) : option value :=
  match f with S754_infinity _ | S754_nan => None | _ => Some (VNum f) end.

Fixpoint all_some {A} (l : list (option A)) : option (list A) :=
  match l with [] => Some [] | x :: l => a ← x; r ← all_some l; Some (a :: r) end.
Definition all_fields {A} (m : list (string * option A)) : option (list (string * A)) :=
  all_some (map (fun kx : string * option A => (fun a => (kx.1, a)) <$> kx.2) m).

Fixpoint to_json (v : value) : option value :=
  let object := (fix go (m : list (string * value)) : list (string * option value) :=
                   match m with [] => [] | (k, x) :: m => (k, to_json x) :: go m end) in
  match v with
  | VNull | VBool _ => Some v
  | VStr s => Some (VStr (json_text s))
  | VNum f => json_number f
  | VInt n => json_number (float_of_Z n)
  | VList l => VList <$> all_some ((fix go (l : list value) : list (option value) := match l with [] => [] | x :: l => to_json x :: go l end) l)
  | VMap m => VMap <$> all_fields (sorted_fields (object m))
  | VStrs l => Some (VList (map (fun s => VStr (json_text s)) l))
  | VStrMap m => Some (VMap (sorted_fields (map (fun kv => (kv.1, VStr (json_text kv.2))) m)))
  | VMaps l => VList <$> all_some ((fix go (l : list (list (string * value))) : list (option value) :=
                                      match l with [] => [] | m :: l => (VMap <$> all_fields (sorted_fields (object m))) :: go l end) l)
  end.

Definition zeroCondition : Condition := mkCond "" "" "" "" VNull [].

Inductive conditionField := FJoin | FKind | FField | FOp | FValue | FGroup.
Definition condition_fields : list (string * conditionField) :=
  [("join", FJoin); ("kind", FKind); ("field", FField); ("op", FOp); ("value", FValue); ("group", FGroup)]%string.

Definition set_text (f : conditionField) (s : string) (c : Condition) : Condition :=
  let '(mkCond j k fd o v g) := c in
  match f with
  | FJoin => mkCond s k fd o v g | FKind => mkCond j s fd o v g | FField => mkCond j k s o v g | FOp => mkCond j k fd s v g
  | _ => c
  end.
Definition set_value (v : value) (c : Condition) : Condition := let '(mkCond j k fd o _ g) := c in mkCond j k fd o v g.
Definition set_group (g : list Condition) (c : Condition) : Condition := let '(mkCond j k fd o v _) := c in mkCond j k fd o v g.

Section read.
Context {CT : CaseTables} {PT : PrintTables}.

(** The field a key names: encoding/json compares without case, and the names differ. *)
Definition condition_field (k : string) : option conditionField :=
  snd <$> List.find (fun nf : string * conditionField => EqualFold k nf.1) condition_fields.

(** [json.Unmarshal] into a condition, over what the condition holds already: a null or an
    unknown key changes nothing, a second list of a group is read over the first. *)
Fixpoint decode_condition (c : Condition) (v : value) : option Condition :=
  match v with
  | VNull => Some c
  | VMap m =>
      (fix go (c : Condition) (m : list (string * value)) : option Condition :=
         match m with
         | [] => Some c
         | (k, x) :: m =>
             match condition_field k with
             | None => go c m
             | Some FValue => go (set_value x c) m
             | Some FGroup =>
                 match x with
                 | VNull => go (set_group [] c) m
                 | VList l =>
                     match (fix items (prev : list Condition) (l : list value) : option (list Condition) :=
                              match l with
                              | [] => Some []
                              | y :: l => a ← decode_condition (hd zeroCondition prev) y; r ← items (tl prev) l; Some (a :: r)
                              end) (Group c) l with
                     | Some g => go (set_group g c) m
                     | None => None
                     end
                 | _ => None
                 end
             | Some f => match x with VStr s => go (set_text f s c) m | VNull => go c m | _ => None end
             end
         end) c m
  | _ => None
  end.

Definition ParseConditions (v : value) : result conditionsError (list Condition) :=
  match v with
  | VNull => Ok []
  | _ => match to_json v with
         | None => Err NotEncodable
         | Some (VList l) => match all_some (map (decode_condition zeroCondition) l) with Some cs => Ok cs | None => Err NotAList end
         | Some _ => Err NotAList
         end
  end.

(** ** [validateTrigger]

    The zones that can be loaded are an argument, as in [Cron].  [None] is the panic of a
    cron line whose step wraps around. *)
Context (LoadLocation : string -> option Location).

Definition schedule_problems (cfg : list (string * value)) : option (list problem) :=
  let spec := ScheduleFromConfig cfg in
  match CronLine spec with
  | Err e => Some [mkP ("trigger.config." +:+ if decide (Preset spec = "cron"%string) then "cron" else "preset") (SaysSchedule e)]
  | Ok line =>
      let zone := match ScheduleLocation LoadLocation spec with Err e => [mkP "trigger.config.timezone" (SaysSchedule e)] | Ok _ => [] end in
      match ParseCron line with
      | Err (_, PanicIndex _) => None
      | Err (f, e) => Some (mkP "trigger.config.cron" (SaysCron f e) :: zone)
      | Ok _ => Some zone
      end
  end.

Definition event_problems (cfg : list (string * value)) : list problem :=
  (if decide (asString (field "kind" cfg) ∈ EventKinds) then [] else [says "trigger.config.kind" "choose an event"]) ++
  match ParseConditions (field "conditions" cfg) with
  | Err e => [mkP "trigger.config.conditions" (SaysConditions e)]
  | Ok conds => map from_problem (ValidateConditions conds "trigger.config.conditions" 1)
  end.

Definition validateTrigger (d : Definition_) : option (list problem) :=
  let t := dTrigger d in
  if decide (tType t = ""%string) then Some [says "trigger.type" "choose how the flow starts"]
  else if negb (HasPrefix (tType t) "trigger.") then Some [says "trigger.type" "the trigger type must start with trigger."]
  else
    let out := if decide (tID t <> TriggerID) then [says "trigger.id" ("the trigger id is " +:+ TriggerID)] else [] in
    app out <$>
      (if decide (tType t = TriggerManual \/ tType t = TriggerWebhook) then Some []
       else if decide (tType t = TriggerSchedule) then schedule_problems (tConfig t)
       else if decide (tType t = TriggerEvent) then Some (event_problems (tConfig t))
       else Some [says "trigger.type" ("unknown trigger " +:+ tType t)]).
End read.

(** ** What validated conditions are *)
Fixpoint all_conditions (c : Condition) : list Condition :=
  match c with
  | mkCond _ _ _ _ _ g => c :: (fix go l := match l with [] => [] | c :: l => all_conditions c ++ go l end) g
  end.
Definition join_ok (c : Condition) : Prop := When.Join c ∈ [""; "and"; "or"]%string.

Definition conditions_ok (conds : list Condition) : Prop :=
  Forall (fun c => Z.of_nat (S (nesting c)) <= MaxConditionDepth) conds /\
  Forall valid_leaf (all_leaves conds) /\ Forall join_ok (concat (map all_conditions conds)).

#[export] Instance valid_leaf_dec c : Decision (valid_leaf c).
Proof. unfold valid_leaf. apply _. Defined.
#[export] Instance join_ok_dec c : Decision (join_ok c).
Proof. unfold join_ok. apply _. Defined.

Definition condition_ok (depth : nat) (c : Condition) : Prop :=
  Z.of_nat (depth + nesting c) <= MaxConditionDepth /\ Forall valid_leaf (leaves c) /\ Forall join_ok (all_conditions c).

Lemma all_conditions_group c : all_conditions c = c :: concat (map all_conditions (Group c)).
Proof. destruct c as [j k f o v g]. cbn [all_conditions Group]. f_equal. induction g as [|c g IH]; [done|]. cbn. by rewrite IH. Qed.

Lemma nesting_group c : Group c <> [] -> nesting c = S (foldr Nat.max 0%nat (map nesting (Group c))).
Proof.
  destruct c as [j k f o v [|g0 g]]; [done|intros _].
  assert (forall l, (fix go l := match l with [] => O | c :: l => Nat.max (nesting c) (go l) end) l = foldr Nat.max 0%nat (map nesting l)) as H
    by (induction l as [|c l IH]; [done|]; cbn; by rewrite IH).
  change (S ((fix go l := match l with [] => O | c :: l => Nat.max (nesting c) (go l) end) (g0 :: g)) = S (foldr Nat.max 0%nat (map nesting (g0 :: g)))).
  by rewrite H.
Qed.

Lemma validate_condition_group depth p c :
  validate_condition depth p c =
  (if decide (join_ok c) then [] else [mkProblem (p +:+ ".join") "join must be and or or"]) ++
  match Group c with
  | [] => if decide (valid_leaf c) then [] else
            (if decide (TrimSpace (Field c) = ""%string) then [mkProblem (p +:+ ".field") "choose the event field to test"] else []) ++
            (if decide (Op c ∈ ConditionOps) then [] else [mkProblem (p +:+ ".op") "op must be eq, neq, contains or exists"])
  | g => ValidateConditions g (p +:+ ".group") (S depth)
  end.
Proof.
  destruct c as [j k f o v g]. cbn [validate_condition Group]. f_equal.
  - destruct (decide (join_ok _)) as [H|H]; unfold join_ok in H; cbn [When.Join] in H;
      rewrite !elem_of_cons, elem_of_nil in H; repeat case_bool_decide; cbn; tauto.
  - destruct g as [|g0 g].
    + destruct (decide (valid_leaf _)) as [H|H]; unfold valid_leaf in H; cbn [Kind Field Op] in *.
      * destruct (decide (k <> ""%string /\ f = ""%string)) as [|Hk]; [done|]. destruct H as [?|[Hf Ho]]; [done|]. by rewrite decide_False, decide_True.
      * by rewrite decide_False by tauto.
    + unfold ValidateConditions. destruct (decide (Z.of_nat (S depth) > MaxConditionDepth)); [done|].
      enough (forall l i (h : nat -> string), (forall j, h j = at_index (p +:+ ".group") (i + j)) ->
        (fix go (i : nat) (l : list Condition) : list Problem :=
           match l with [] => [] | c :: l => validate_condition (S depth) (at_index (p +:+ ".group") i) c ++ go (S i) l end) i l
        = concat (imap (fun i c => validate_condition (S depth) (h i) c) l)) as H by by apply (H (g0 :: g) 0%nat (at_index (p +:+ ".group"))).
      induction l as [|c l IH]; intros i h Hh; [done|]. cbn [imap concat]. rewrite (IH (S i) (fun j => h (S j))); [|intros q; rewrite Hh; f_equal; lia].
      f_equal. rewrite Hh. do 2 f_equal. lia.
Qed.

Lemma validate_group conds path depth : conds <> [] -> Z.of_nat depth <= MaxConditionDepth ->
  (forall c, c ∈ conds -> forall p, validate_condition depth p c = [] <-> condition_ok depth c) ->
  ValidateConditions conds path depth = [] <-> Forall (condition_ok depth) conds.
Proof.
  intros Hne Hd IH. unfold ValidateConditions. rewrite decide_False by lia. rewrite concat_imap_nil, Forall_lookup. split.
  - intros H i c Hc. apply (IH c (list_elem_of_lookup_2 _ _ _ Hc) (at_index path i)), (H i c Hc).
  - intros H i c Hc. apply (IH c (list_elem_of_lookup_2 _ _ _ Hc)), (H i c Hc).
Qed.

Lemma validate_condition_iff c : forall depth p, Z.of_nat depth <= MaxConditionDepth -> (validate_condition depth p c = [] <-> condition_ok depth c).
Proof.
  induction c as [j k f o v g IH] using condition_deep_ind. intros depth p Hd. rewrite validate_condition_group, app_nil.
  unfold condition_ok. rewrite all_conditions_group, Forall_cons, Forall_concat_map.
  set (c := mkCond j k f o v g). change (Group c) with g.
  assert ((if decide (join_ok c) then [] else [mkProblem (p +:+ ".join") "join must be and or or"]) = [] <-> join_ok c) as -> by (by destruct (decide (join_ok c))).
  destruct g as [|g0 g].
  - change (leaves c) with [c]. change (nesting c) with 0%nat. rewrite Nat.add_0_r, Forall_singleton, Forall_nil.
    destruct (decide (valid_leaf c)) as [Hv|Hv]; [tauto|]. split; [|tauto]. intros [_ [H1 H2]%app_nil]. destruct Hv. right. subst c. cbn [Field Op] in *.
    destruct (decide (TrimSpace f = ""%string)); [done|]. by destruct (decide (o ∈ ConditionOps)).
  - rewrite leaves_group, nesting_group by done. change (Group c) with (g0 :: g). set (l := g0 :: g) in *. unfold all_leaves.
    rewrite Forall_concat_map, <- Nat.add_succ_comm, foldr_max_le, Forall_map.
    destruct (decide (Z.of_nat (S depth) <= MaxConditionDepth)) as [Hs|Hs].
    + rewrite validate_group by (first [done|lia|intros c1 Hc1 q; rewrite Forall_forall in IH; by apply IH]). unfold condition_ok. rewrite !Forall_and. tauto.
    + unfold ValidateConditions. rewrite decide_True by lia. split; [by intros [_ ?]|]. intros ([? _] & _). lia.
Qed.

Lemma ValidateConditions_iff conds path : ValidateConditions conds path 1 = [] <-> conditions_ok conds.
Proof.
  destruct conds as [|c conds]; [split; [intros _; split_and!; constructor|done]|]. rewrite validate_group; [|done|done|intros c' _ p; by apply validate_condition_iff].
  unfold condition_ok, conditions_ok, all_leaves. by rewrite !Forall_concat_map, !Forall_and.
Qed.

(** ** What a validated trigger is *)
Section trigger_ok.
Context {CT : CaseTables} (LoadLocation : string -> option Location).

Definition schedule_ok (cfg : list (string * value)) : Prop := exists line c loc,
  CronLine (ScheduleFromConfig cfg) = Ok line /\ ParseCron line = Ok c /\ ScheduleLocation LoadLocation (ScheduleFromConfig cfg) = Ok loc.
Definition schedule_panics (cfg : list (string * value)) : Prop := exists line f v,
  CronLine (ScheduleFromConfig cfg) = Ok line /\ ParseCron line = Err (f, PanicIndex v).
Definition event_ok (cfg : list (string * value)) : Prop :=
  asString (field "kind" cfg) ∈ EventKinds /\ exists conds, ParseConditions (field "conditions" cfg) = Ok conds /\ conditions_ok conds.

(** A trigger of one of the four kinds: a schedule has a line that parses and a zone that
    is known, an event is one of the list's and has conditions that can be tested. *)
Definition trigger_ok (t : Trigger) : Prop :=
  tID t = TriggerID /\
  (tType t = TriggerManual \/ tType t = TriggerWebhook \/
   (tType t = TriggerSchedule /\ schedule_ok (tConfig t)) \/ (tType t = TriggerEvent /\ event_ok (tConfig t))).

Lemma schedule_nil cfg : schedule_problems LoadLocation cfg = Some [] <-> schedule_ok cfg.
Proof.
  unfold schedule_problems, schedule_ok. destruct (CronLine _) as [line|e]; [|split; [done|by intros (?&?&?&?&_)]].
  destruct (ParseCron line) as [c|[f e]] eqn:Ep.
  - destruct (ScheduleLocation _ _) as [loc|e]; (split; [intros [=]|intros (l'&c'&loc'&[= <-]&_&[=])]); [|done]. by exists line, c, loc.
  - split; [by destruct e|]. intros (l'&c'&loc'&[= <-]&Hp&_). by rewrite Ep in Hp.
Qed.

Lemma schedule_none cfg : schedule_problems LoadLocation cfg = None <-> schedule_panics cfg.
Proof.
  unfold schedule_problems, schedule_panics. destruct (CronLine _) as [line|e]; [|split; [done|by intros (?&?&?&?&_)]].
  destruct (ParseCron line) as [c|[f e]] eqn:Ep; (split; [|intros (l'&f'&v&[= <-]&Hp); rewrite Ep in Hp; by inversion Hp]); [done|].
  destruct e; try done. intros _. by eexists _, _, _.
Qed.

Lemma event_nil cfg : event_problems cfg = [] <-> event_ok cfg.
Proof.
  unfold event_problems, event_ok. rewrite app_nil. destruct (ParseConditions _) as [conds|e].
  - assert (map from_problem (ValidateConditions conds "trigger.config.conditions" 1) = [] <-> conditions_ok conds) as ->
      by (rewrite <- (ValidateConditions_iff conds "trigger.config.conditions"); split; [apply map_eq_nil|by intros ->]).
    destruct (decide (_ ∈ EventKinds)); (split; [intros [? ?]|intros [? (?&[= <-]&?)]]); try done; split_and!; eauto.
  - split; [by intros [_ ?]|by intros [_ (?&?&_)]].
Qed.

Lemma validateTrigger_nil d : validateTrigger LoadLocation d = Some [] <-> trigger_ok (dTrigger d).
Proof.
  unfold validateTrigger, trigger_ok. destruct (dTrigger d) as [id ty cfg]. cbn [tID tType tConfig].
  destruct (decide (ty = ""%string)) as [-> |_]; [split; [done|]; intros (_ & [?|[?|[[? _]|[? _]]]]); discriminate|].
  destruct (HasPrefix ty "trigger.") eqn:Hp; cbn [negb]; [|split; [done|]; intros (_ & [-> |[-> |[[-> _]|[-> _]]]]); discriminate Hp].
  destruct (decide (ty = TriggerManual \/ ty = TriggerWebhook)) as [Hm|Hm].
  { case_decide; cbn; (split; [intros [=]|intros [? _]]); try done. split; [by destruct (decide (id = TriggerID))|tauto]. }
  destruct (decide (ty = TriggerSchedule)) as [-> |Hs].
  { destruct (schedule_problems LoadLocation cfg) as [ps|] eqn:Es; cbn.
    - pose proof (schedule_nil cfg) as H. rewrite Es in H. destruct (decide (id <> TriggerID)) as [Hi|Hi]; cbn; (split; [intros [=]|intros [? Ht]]); try done.
      + subst ps. split; [by destruct (decide (id = TriggerID))|]. right. right. left. split; [done|by apply H].
      + do 2 f_equal. destruct Ht as [?|[?|[[_ Ht]|[? _]]]]; [done..| |done]. apply H in Ht. by injection Ht.
    - split; [done|]. intros [_ [?|[?|[[_ Ht]|[? _]]]]]; [done..| |done]. apply schedule_nil in Ht. by rewrite Es in Ht. }
  destruct (decide (ty = TriggerEvent)) as [-> |He].
  { cbn. rewrite (inj_iff Some), app_nil, event_nil. destruct (decide (id <> TriggerID)) as [Hi|Hi]; (split; [intros [? ?]|intros [? Ht]]); try done.
    - split; [by destruct (decide (id = TriggerID))|]. auto.
    - split; [done|]. by destruct Ht as [?|[?|[[? _]|[_ ?]]]]. }
  cbn. rewrite (inj_iff Some), app_nil. split; [by intros [_ ?]|]. intros (_ & [?|[?|[[? _]|[? _]]]]); tauto.
Qed.

Lemma validateTrigger_none d : validateTrigger LoadLocation d = None <-> tType (dTrigger d) = TriggerSchedule /\ schedule_panics (tConfig (dTrigger d)).
Proof.
  unfold validateTrigger. destruct (dTrigger d) as [id ty cfg]. cbn [tID tType tConfig].
  destruct (decide (ty = TriggerSchedule)) as [-> |Hs].
  - cbn. rewrite <- schedule_none. by destruct (schedule_problems _ cfg); cbn; split; try (intros [_ ?]).
  - split; [|by intros [? _]]. repeat (case_decide || case_match); done.
Qed.
End trigger_ok.

(** A schedule whose day step wraps makes the check itself panic; an ordinary one passes. *)
Example trigger_ex :
  let check cfg := validateTrigger (CT := ascii_tables) (fun _ => None) (mkDefinition 1 (mkTrigger TriggerID TriggerSchedule cfg) [] [] None None ∅) in
  (check [("cron", VStr "0 0 */9223372036854775807 * *")], check [("preset", VStr "daily")], check [("preset", VStr "daily"); ("timezone", VStr "Mars/Base")])%string
  = (None, Some [], Some [mkP "trigger.config.timezone" (SaysSchedule BadZone)]).
Proof. vm_compute. reflexivity. Qed.

(** Conditions as an editor sends them, with a key in another case. *)
Example conditions_ex :
  ParseConditions (CT := ascii_tables) (VList [VMap [("Field", VStr "name"); ("op", VStr "eq"); ("value", VInt 5); ("note", VBool true)];
                        VMap [("join", VStr "or"); ("group", VList [VMap [("kind", VStr "backup.failed")]; VNull])]])%string
  = Ok [mkCond "" "" "name" "eq" (VNum (float_of_Z 5)) []; mkCond "or" "" "" "" VNull [mkCond "" "backup.failed" "" "" VNull []; zeroCondition]] /\
  ParseConditions (CT := ascii_tables) (VMap []) = Err NotAList /\
  ParseConditions (CT := ascii_tables) (VList [VMap [("join", VInt 1)]])%string = Err NotAList.
Proof. vm_compute. done. Qed.
