(* ===== verification/Validate.v ===== *)
(** * Validation of a flow ([src/internal/automation/flowdef/validate.go])

    Every check a definition passes before it is published, in the order of the code: the
    fields first, and only when none of them has a problem the shape of the graph. *)
From S2P Require Export Trigger.
From S2P Require Import FlowDef.

Definition SchemaVersion_ : Z := 1.

(** What validation needs of a step type, and the look-up of types: an interface that the
    engine's registry implements. *)
Record NodeSpec := mkSpec_ { Branches : list string; Loop : bool; SetsVariable : string; Required : list string; Expressions : list string }.
Definition zeroSpec : NodeSpec := mkSpec_ [] false "" [] [].
Class Catalog := nodeSpec : string -> option NodeSpec.

(** ** [fmt.Sprint] of dynamic values *)

(** ["%v"] of a float64: the shortest digits, with an exponent when it is below -4 or from 6 on. *)
Definition exponent_text (x : Z) : string :=
  (if decide (x < 0) then "-" else "+") +:+ (if decide (Z.abs x < 10) then "0" else "") +:+ Itoa (Z.abs x).
Definition scientific (d k : Z) : string :=
  let ds := bytes (Itoa d) in
  let x := k + Z.of_nat (length ds) - 1 in
  ofBytes (take 1 ds) +:+ (if decide (length ds = 1%nat) then "" else "." +:+ ofBytes (drop 1 ds)) +:+ "e" +:+ exponent_text x.
Definition FormatGeneral (f : spec_float) : string :=
  match f with
  | S754_finite s m e =>
      let '(d, k) := shortest m e in
      let x := k + Z.of_nat (String.length (Itoa d)) - 1 in
      (if s then "-" else "") +:+ (if decide (x < -4 \/ 6 <= x) then scientific d k else positional d k)
  | _ => FormatFloat f
  end.

Definition map_text (m : list (string * string)) : string :=
  "map[" +:+ Expr.join " " (map (fun k => k +:+ ":" +:+ default ""%string (assoc k m)) (sortStrings (map fst m))) +:+ "]".
Definition slice_text (l : list string) : string := "[" +:+ Expr.join " " l +:+ "]".

Fixpoint Sprint (v : value) : string :=
  let object := (fix go (m : list (string * value)) : list (string * string) := match m with [] => [] | (k, x) :: m => (k, Sprint x) :: go m end) in
  match v with
  | VNull => "<nil>"
  | VBool b => FormatBool b
  | VNum f => FormatGeneral f
  | VInt n => Itoa n
  | VStr s => s
  | VList l => slice_text ((fix go (l : list value) : list string := match l with [] => [] | x :: l => Sprint x :: go l end) l)
  | VMap m => map_text (object m)
  | VStrs l => slice_text l
  | VStrMap m => map_text m
  | VMaps l => slice_text ((fix go (l : list (list (string * value))) : list string := match l with [] => [] | m :: l => map_text (object m) :: go l end) l)
  end.

(** ** Fields *)

(** The pattern [^[A-Za-z][A-Za-z0-9_-]{0,62}$]. *)
Definition isLetter (a : ascii) : bool := let c := byteZ a in ((97 <=? c) && (c <=? 122)) || ((65 <=? c) && (c <=? 90)).
Definition isIDPart (a : ascii) : bool := isLetter a || isDigit a || (byteZ a =? 95) || (byteZ a =? 45).
Definition nodeIDPattern (id : string) : bool :=
  match bytes id with a :: l => isLetter a && forallb isIDPart l && bool_decide (length l <= 62)%nat | [] => false end.

Definition isBlank (v : value) : bool :=
  match v with VNull => true | VStr s => bool_decide (TrimSpace s = ""%string) | VList l => bool_decide (l = []) | _ => false end.

Definition stripBraces (s : string) : string := match single_ref s with Some src => src | None => TrimSpace s end.

Definition case_names (port : string) (c : value) : bool :=
  match c with
  | VStr x => bool_decide (x = port)
  | VMap m => bool_decide (Sprint (field "port" m) = port) || bool_decide (Sprint (field "value" m) = port)
  | _ => false
  end.
Definition switchCase (n : option Node) (port : string) : bool :=
  match n with
  | Some n =>
      if decide (nType n <> "logic.switch"%string) then false
      else match field "cases" (nConfig n) with VList cases => existsb (case_names port) cases | _ => false end
  | None => false
  end.

Definition retry_modes : list string := [""; "none"; "fixed"; "exponential"]%string.
Definition validateRetry (r : Retry) (path : string) : list problem :=
  (if decide (rMode r ∈ retry_modes) then [] else [says (path +:+ ".mode") "retry mode must be none, fixed or exponential"]) ++
  (if decide (MaxAttempts r < 0 \/ MaxRetries < MaxAttempts r) then [says (path +:+ ".max_attempts") ("attempts must be 1 to " +:+ Itoa MaxRetries)] else []) ++
  (if decide (DelayMS r < 0 \/ MaxDelayMS r < 0) then [says (path +:+ ".delay_ms") "delays cannot be negative"] else []).

Definition on_error_modes : list string := [""; OnErrorStop; OnErrorContinue; OnErrorFailBranch]%string.

(** ** Templates in a step's configuration *)
Definition ref_problem (d : Definition_) (path ref : string) : list problem :=
  match Split ref "."%char with
  | root :: id :: _ =>
      if decide (root = "nodes"%string /\ findNode d id = None)
      then [says path (ref +:+ " refers to step " +:+ id +:+ ", which does not exist")] else []
  | _ => []
  end.

Definition text_problems (d : Definition_) (x path : string) : list problem :=
  if negb (HasTemplate x) && negb (Contains x "{{") then []
  else match CheckTemplate x with
       | Err e => [mkP path (SaysTemplate e)]
       | Ok ns => flat_map (ref_problem d path) (flat_map paths ns)
       end.

Fixpoint validateTemplates (d : Definition_) (v : value) (path : string) : list problem :=
  match v with
  | VStr x => text_problems d x path
  | VMap m =>
      let found := (fix go (m : list (string * value)) : list (string * list problem) :=
                      match m with [] => [] | (k, x) :: m => (k, validateTemplates d x (path +:+ "." +:+ k)) :: go m end) m in
      flat_map (fun k => default [] (assoc k found)) (sortStrings (map fst m))
  | VList l =>
      (fix go (i : nat) (l : list value) : list problem :=
         match l with [] => [] | x :: l => validateTemplates d x (at_index path i) ++ go (S i) l end) 0%nat l
  | _ => []
  end.

(** ** Variables set in parallel *)
Definition bar : ascii := "|"%char.
Definition branch_key (id port : string) : string := id +:+ "|" +:+ port.

(** [strings.Cut(k, "|")]. *)
Definition cut_bar (k : string) : string * string :=
  match indexb [bar] (bytes k) 0 with
  | Some i => (ofBytes (take i (bytes k)), ofBytes (drop (i + 1) (bytes k)))
  | None => (k, ""%string)
  end.

Definition under_edge (d : Definition_) (id : string) (under : list (string * gset string)) (e : Edge) : list (string * gset string) :=
  if decide (ePort e = ""%string) then under
  else
    let key := branch_key id (ePort e) in
    assoc_set key ({[eTo e]} ∪ reachable d (eTo e) ∪ default ∅ (assoc key under)) under.
Definition branches_under (d : Definition_) : list (string * gset string) :=
  fold_left (fun under n => fold_left (under_edge d (nID n)) (Outgoing d (nID n)) under) (Nodes d) [].

Definition splits (a b : string) (x y : string * gset string) : bool :=
  let '(na, pa) := cut_bar x.1 in
  let '(nb, pb) := cut_bar y.1 in
  bool_decide (na = nb) && bool_decide (pa <> pb) && bool_decide (a ∈ x.2) && bool_decide (b ∈ y.2)
    && bool_decide (b ∉ x.2) && bool_decide (a ∉ y.2).
Definition exclusive (under : list (string * gset string)) (a b : string) : bool :=
  existsb (fun x => existsb (splits a b x) under) under.

Definition parallel_problem (a b name : string) : problem :=
  says "nodes" ("steps " +:+ a +:+ " and " +:+ b +:+ " run in parallel and both set " +:+ name).

Section validate.
Context {CT : CaseTables} {PT : PrintTables} {cat : Catalog} (LoadLocation : string -> option Location).

Definition spec_of_type (typ : string) : NodeSpec := default zeroSpec (nodeSpec typ).
Definition isLoop (typ : string) : bool := Loop (spec_of_type typ).

Definition writer_of (n : Node) : list (string * string) :=
  let s := spec_of_type (nType n) in
  if decide (SetsVariable s = ""%string) then []
  else let name := asString (field (SetsVariable s) (nConfig n)) in if decide (name <> ""%string) then [(nID n, name)] else [].

Fixpoint pairs_of {A} (l : list A) : list (A * A) := match l with [] => [] | x :: l => map (pair x) l ++ pairs_of l end.

Definition pair_problems (d : Definition_) (under : list (string * gset string)) (ab : (string * string) * (string * string)) : list problem :=
  let '(a, b) := ab in
  if decide (a.2 <> b.2 \/ b.1 ∈ reachable d a.1 \/ a.1 ∈ reachable d b.1 \/ exclusive under a.1 b.1 = true) then []
  else [parallel_problem a.1 b.1 a.2].

Definition validateParallelVars (d : Definition_) : list problem :=
  let writers := flat_map writer_of (Nodes d) in
  if decide (length writers < 2)%nat then []
  else flat_map (pair_problems d (branches_under d)) (pairs_of writers).

(** ** Steps *)
Definition check_id (p : string) (i : nat) (id : string) (ids : gmap string nat) : gmap string nat * list problem :=
  if negb (nodeIDPattern id) then (ids, [says (p +:+ ".id") "step id must start with a letter and use letters, digits, - or _"])
  else if decide (id = TriggerID) then (ids, [says (p +:+ ".id") (Quote TriggerID +:+ " is reserved for the trigger")])
  else match ids !! id with
       | Some _ => (ids, [says (p +:+ ".id") ("step id " +:+ Quote id +:+ " is used twice")])
       | None => (<[id := i]> ids, [])
       end.

Definition required_problem (p : string) (cfg : list (string * value)) (key : string) : list problem :=
  if isBlank (field key cfg) then [says (p +:+ ".config." +:+ key) (key +:+ " is required")] else [].
Definition expression_problem (p : string) (cfg : list (string * value)) (key : string) : list problem :=
  let s := asString (field key cfg) in
  if decide (TrimSpace s = ""%string) then []
  else match Parse (stripBraces s) with Err e => [mkP (p +:+ ".config." +:+ key) (SaysExpr e)] | Ok _ => [] end.

Definition check_step (d : Definition_) (p : string) (n : Node) : list problem :=
  if decide (TrimSpace (nType n) = ""%string) then [says (p +:+ ".type") "choose what this step does"]
  else if HasPrefix (nType n) "trigger." then [says (p +:+ ".type") ("a flow has one trigger; " +:+ nType n +:+ " cannot be a step")]
  else match nodeSpec (nType n) with
       | None => [says (p +:+ ".type") ("unknown step type " +:+ nType n)]
       | Some spec =>
           flat_map (required_problem p (nConfig n)) (Required spec) ++
           flat_map (expression_problem p (nConfig n)) (Expressions spec) ++
           (if decide (nOnError n ∈ on_error_modes) then [] else [says (p +:+ ".on_error") "on_error must be stop, continue or fail_branch"]) ++
           (match nRetry n with Some r => validateRetry r (p +:+ ".retry") | None => [] end) ++
           (if decide (nTimeoutMS n < 0) then [says (p +:+ ".timeout_ms") "timeout cannot be negative"] else []) ++
           validateTemplates d (VMap (nConfig n)) (p +:+ ".config")
       end.

Fixpoint steps_loop (d : Definition_) (i : nat) (ns : list Node) (ids : gmap string nat) : gmap string nat * list problem :=
  match ns with
  | [] => (ids, [])
  | n :: ns =>
      let p := at_index "nodes" i in
      let '(ids, out) := check_id p i (nID n) ids in
      let '(ids, rest) := steps_loop d (S i) ns ids in
      (ids, out ++ check_step d p n ++ rest)
  end.

(** ** Edges *)
Definition specOf (d : Definition_) (id : string) : NodeSpec :=
  match findNode d id with Some n => spec_of_type (nType n) | None => zeroSpec end.

Definition port_problems (d : Definition_) (ids : gmap string nat) (p : string) (e : Edge) : list problem :=
  if decide (eFrom e = TriggerID) then if decide (ePort e <> ""%string) then [says (p +:+ ".port") "the trigger has no branches"] else []
  else if decide (ids !! eFrom e = None \/ ePort e = ""%string \/ ePort e = ErrorPort) then
    if decide (ePort e = ""%string /\ Branches (specOf d (eFrom e)) <> [])
    then [says (p +:+ ".port") ("choose which branch of " +:+ eFrom e +:+ " this edge belongs to")] else []
  else if decide (ePort e ∈ Branches (specOf d (eFrom e)) \/ switchCase (findNode d (eFrom e)) (ePort e) = true) then []
  else [says (p +:+ ".port") (eFrom e +:+ " has no branch " +:+ Quote (ePort e))].

Definition edge_problems (d : Definition_) (ids : gmap string nat) (i : nat) (e : Edge) : list problem :=
  let p := at_index "edges" i in
  if decide (eFrom e = ""%string \/ eTo e = ""%string) then [says p "an edge needs both ends"]
  else
    (if decide (eFrom e <> TriggerID /\ ids !! eFrom e = None) then [says (p +:+ ".from") ("edge starts at unknown step " +:+ Quote (eFrom e))] else []) ++
    (if decide (ids !! eTo e = None) then [says (p +:+ ".to") ("edge ends at unknown step " +:+ Quote (eTo e))] else []) ++
    (if decide (eFrom e = eTo e) then [says p "a step cannot lead to itself"] else []) ++
    port_problems d ids p e.

(** ** The whole check *)
Definition field_problems (d : Definition_) : option (list problem) :=
  trig ← validateTrigger LoadLocation d;
  let '(ids, steps) := steps_loop d 0 (Nodes d) ∅ in
  Some
    ((if decide (SchemaVersion d <> SchemaVersion_) then [says "schema_version" ("schema_version must be " +:+ Itoa SchemaVersion_)] else []) ++
     trig ++
     (if decide (MaxNodes < Z.of_nat (length (Nodes d))) then [says "nodes" ("a flow has at most " +:+ Itoa MaxNodes +:+ " steps")] else []) ++
     steps ++
     (match dRetry d with Some r => validateRetry r "retry" | None => [] end) ++
     (match dError d with
      | Some oe => if decide (oe ∈ on_error_modes) then [] else [says "error.on_error" "on_error must be stop, continue or fail_branch"]
      | None => []
      end) ++
     concat (imap (edge_problems d ids) (Edges d))).

Definition unreached (d : Definition_) : list problem :=
  let reach := reachable d TriggerID in
  concat (imap (fun i n => if decide (nID n ∈ reach) then []
                           else [says (at_index "nodes" i) ("step " +:+ nID n +:+ " is never reached from the trigger")]) (Nodes d)).

Definition graph_problems (d : Definition_) : list problem :=
  match findCycle d with
  | [] => unreached d ++ map from_problem (validateLoops d isLoop) ++ validateParallelVars d
  | cyc => [says "edges" ("the steps loop back on themselves: " +:+ Expr.join " → " cyc)]
  end.

Definition Validate (d : Definition_) : option (list problem) :=
  out ← field_problems d; Some (match out with [] => graph_problems d | _ => out end).
End validate.
