(* ===== verification/ValidateProps.v ===== *)
(** * What a published flow is: the specification of [Validate]

    A flow can be published when its fields are well formed and its graph is sound; the
    graph part is stated with paths of edges, not with the searches of the code. *)
From S2P Require Export TextProps Validate.
From S2P Require Import FlowDef.

(** A text somewhere inside a value that validation walks. *)
Inductive text_in (s : string) : value -> Prop :=
  | text_here : text_in s (VStr s)
  | text_list l v : v ∈ l -> text_in s v -> text_in s (VList l)
  | text_map m k v : assoc k m = Some v -> text_in s v -> text_in s (VMap m).

Definition step (d : Definition_) (id : string) : Prop := exists n, n ∈ Nodes d /\ nID n = id.

Definition text_ok (d : Definition_) (x : string) : Prop :=
  Contains x "{{" = false \/
  exists ns, CheckTemplate x = Ok ns /\
    forall n ref id rest, n ∈ ns -> ref ∈ paths n -> Split ref "."%char = "nodes"%string :: id :: rest -> step d id.

Definition retry_ok (r : Retry) : Prop :=
  rMode r ∈ retry_modes /\ 0 <= MaxAttempts r <= MaxRetries /\ 0 <= DelayMS r /\ 0 <= MaxDelayMS r.

Definition id_ok (id : string) : Prop :=
  exists a l, bytes id = a :: l /\ isLetter a = true /\ Forall (fun c => isIDPart c = true) l /\ (length l <= 62)%nat /\ id <> TriggerID.

Section publishable.
Context {CT : CaseTables} {PT : PrintTables} {cat : Catalog} (LoadLocation : string -> option Location).

Definition step_ok (d : Definition_) (n : Node) : Prop :=
  TrimSpace (nType n) <> ""%string /\ HasPrefix (nType n) "trigger." = false /\
  exists spec, nodeSpec (nType n) = Some spec /\
    Forall (fun key => isBlank (field key (nConfig n)) = false) (Required spec) /\
    Forall (fun key => let s := asString (field key (nConfig n)) in TrimSpace s = ""%string \/ exists e, Parse (stripBraces s) = Ok e) (Expressions spec) /\
    nOnError n ∈ on_error_modes /\ (forall r, nRetry n = Some r -> retry_ok r) /\ 0 <= nTimeoutMS n /\
    (forall x, text_in x (VMap (nConfig n)) -> text_ok d x).

(** The port of an edge: none at the trigger, a branch of its step elsewhere; the error
    branch is every step's, and a switch has a branch per case. *)
Definition port_ok (d : Definition_) (e : Edge) : Prop :=
  if decide (eFrom e = TriggerID) then ePort e = ""%string
  else if decide (ePort e = ""%string) then Branches (specOf d (eFrom e)) = []
  else ePort e = ErrorPort \/ ePort e ∈ Branches (specOf d (eFrom e)) \/ switchCase (findNode d (eFrom e)) (ePort e) = true.

Definition edge_ok (d : Definition_) (e : Edge) : Prop :=
  eFrom e <> ""%string /\ eTo e <> ""%string /\ (eFrom e = TriggerID \/ step d (eFrom e)) /\ step d (eTo e) /\ eFrom e <> eTo e /\ port_ok d e.

Record fields_ok (d : Definition_) : Prop := {
  f_schema : SchemaVersion d = SchemaVersion_;
  f_trigger : trigger_ok LoadLocation (dTrigger d);
  f_size : Z.of_nat (length (Nodes d)) <= MaxNodes;
  f_ids : NoDup (map nID (Nodes d)) /\ Forall (fun n => id_ok (nID n)) (Nodes d);
  f_steps : Forall (step_ok d) (Nodes d);
  f_retry : forall r, dRetry d = Some r -> retry_ok r;
  f_error : forall oe, dError d = Some oe -> oe ∈ on_error_modes;
  f_edges : Forall (edge_ok d) (Edges d) }.

(** Two steps on different branches of a third, each out of the other's branch. *)
Definition branch_reaches (d : Definition_) (x port v : string) : Prop :=
  port <> ""%string /\ exists e, e ∈ Edges d /\ eFrom e = x /\ ePort e = port /\ rtc (edge d) (eTo e) v.
Definition on_branches (d : Definition_) (a b : string) : Prop := exists x p q, p <> q /\
  branch_reaches d x p a /\ branch_reaches d x q b /\ ~ branch_reaches d x p b /\ ~ branch_reaches d x q a.

Definition sets (n : Node) (name : string) : Prop :=
  name <> ""%string /\ exists spec, nodeSpec (nType n) = Some spec /\ SetsVariable spec <> ""%string /\ asString (field (SetsVariable spec) (nConfig n)) = name.

(** No two steps that set a variable can run at the same time: one follows the other, or
    they are on different branches. *)
Definition writers_ordered (d : Definition_) : Prop := forall i j a b name, (i < j)%nat ->
  Nodes d !! i = Some a -> Nodes d !! j = Some b -> sets a name -> sets b name ->
  tc (edge d) (nID a) (nID b) \/ tc (edge d) (nID b) (nID a) \/ on_branches d (nID a) (nID b).

Record publishable (d : Definition_) : Prop := {
  p_fields : fields_ok d;
  p_acyclic : acyclic d;
  p_reached : forall n, n ∈ Nodes d -> tc (edge d) TriggerID (nID n);
  p_loops : loops_closed d isLoop;
  p_writers : writers_ordered d }.
End publishable.

(** ** Fields *)
Lemma findNode_step d id : findNode d id <> None <-> step d id.
Proof.
  unfold findNode, step. split.
  - destruct (List.find _ _) as [n|] eqn:E; [|done]. intros _. apply List.find_some in E as [Hn Hb%bool_decide_eq_true].
    exists n. split; [by apply list_elem_of_In|done].
  - intros (n & Hn & Hid) E. by pose proof (List.find_none _ _ E n (proj1 (list_elem_of_In _ _) Hn)) as Hb%bool_decide_eq_false.
Qed.

Lemma validateRetry_nil r p : validateRetry r p = [] <-> retry_ok r.
Proof.
  unfold validateRetry, retry_ok. rewrite !app_nil. repeat case_decide; split; intros H'; destruct_and?; try done; split_and!; (done || lia).
Qed.

Lemma text_problems_nil d x p : text_problems d x p = [] <-> text_ok d x.
Proof.
  unfold text_problems, text_ok, HasTemplate. destruct (Contains x "{{") eqn:Hc; [|split; [by left|done]].
  assert (negb (true && Contains x "}}") && negb true = false) as -> by (by destruct (Contains x "}}")).
  destruct (CheckTemplate x) as [ns|e]; [|split; [done|by intros [?|(?&?&_)]]]. rewrite flat_map_nil. split.
  - intros H. right. exists ns. split; [done|]. intros n ref id rest Hn Hr Hs. apply findNode_step. intros Hf.
    specialize (H ref). ospecialize (H _). { apply list_elem_of_In, in_flat_map. exists n. by rewrite <- !list_elem_of_In. }
    unfold ref_problem in H. rewrite Hs in H. by rewrite decide_True in H.
  - intros [?|(ns' & [= <-] & H)]; [done|]. intros ref Hr. apply list_elem_of_In, in_flat_map in Hr as (n & Hn & Hr).
    rewrite <- !list_elem_of_In in *. unfold ref_problem. destruct (Split ref _) as [|root [|id rest]] eqn:Es; [done..|].
    case_decide as Hd; [|done]. destruct Hd as [-> Hf]. by destruct (proj2 (findNode_step d id) (H n ref id rest Hn Hr Es)).
Qed.

Lemma text_in_list s l : text_in s (VList l) <-> exists v, v ∈ l /\ text_in s v.
Proof. split; [intros H; inversion H; subst; eauto|intros (v & ? & ?); by apply (text_list _ _ v)]. Qed.

Lemma text_in_map s m : text_in s (VMap m) <-> exists k v, assoc k m = Some v /\ text_in s v.
Proof. split; [intros H; inversion H; subst; eauto|intros (k & v & ? & ?); by apply (text_map _ _ k v)]. Qed.

Lemma validateTemplates_map d m p :
  validateTemplates d (VMap m) p = flat_map (fun k => default [] ((fun x => validateTemplates d x (p +:+ "." +:+ k)) <$> assoc k m)) (sortStrings (map fst m)).
Proof.
  cbn [validateTemplates].
  assert (forall m, (fix go (m : list (string * value)) : list (string * list problem) :=
            match m with [] => [] | (k, x) :: m => (k, validateTemplates d x (p +:+ "." +:+ k)) :: go m end) m
          = map (fun kx => (kx.1, validateTemplates d kx.2 (p +:+ "." +:+ kx.1))) m) as H by (induction m0 as [|[k x] m0 IH]; [done|]; cbn; by rewrite IH).
  rewrite H. apply flat_map_ext. intros k. by rewrite (assoc_map (fun k x => validateTemplates d x (p +:+ "." +:+ k))).
Qed.

Lemma validateTemplates_list d l p : validateTemplates d (VList l) p = concat (imap (fun i x => validateTemplates d x (at_index p i)) l).
Proof.
  cbn [validateTemplates].
  enough (forall l i (h : nat -> string), (forall j, h j = at_index p (i + j)) ->
     (fix go (i : nat) (l : list value) : list problem :=
         match l with [] => [] | x :: l => validateTemplates d x (at_index p i) ++ go (S i) l end) i l
     = concat (imap (fun i x => validateTemplates d x (h i)) l)) as H by by apply (H l 0%nat (at_index p)).
  clear l. induction l as [|x l IH]; intros i h Hh; [done|]. cbn [imap concat].
  rewrite (IH (S i) (fun j => h (S j))); [|intros q; rewrite Hh; f_equal; lia]. f_equal. rewrite Hh. do 2 f_equal. lia.
Qed.

Lemma validateTemplates_nil d v : forall p, validateTemplates d v p = [] <-> forall x, text_in x v -> text_ok d x.
Proof.
  induction v as [|b|f|n|s|l IH|m IH|l|m|l IH] using value_deep_ind; intros p; try (split; [intros _ x Hx; inversion Hx|done]).
  - cbn [validateTemplates]. rewrite text_problems_nil. split; [intros H x Hx; by inversion Hx|intros H; apply H; constructor].
  - rewrite validateTemplates_list, concat_imap_nil. setoid_rewrite text_in_list. rewrite Forall_forall in IH. split.
    + intros H x (v & Hv & Hx). apply list_elem_of_lookup in Hv as [i Hi]. apply (IH v (list_elem_of_lookup_2 _ _ _ Hi) (at_index p i)); [by apply H|done].
    + intros H i v Hi. pose proof (list_elem_of_lookup_2 _ _ _ Hi) as Hv. apply (IH v Hv). eauto.
  - rewrite validateTemplates_map, flat_map_nil. setoid_rewrite text_in_map. setoid_rewrite elem_of_sortStrings. rewrite Forall_forall in IH. split.
    + intros H x (k & v & Hk & Hx). destruct (assoc_Some_in _ _ _ Hk) as [Hf Hin]. specialize (H k Hf). rewrite Hk in H. by apply (proj1 (IH _ Hin _) H).
    + intros H k _. destruct (assoc k m) as [v|] eqn:Hk; [|done]. destruct (assoc_Some_in _ _ _ Hk) as [Hf Hin]. apply (IH _ Hin). eauto.
Qed.

(** ** Branches *)
Lemma cut_branch_key id port : bar ∉ bytes id -> cut_bar (branch_key id port) = (id, port).
Proof.
  intros Hb. unfold cut_bar, branch_key. rewrite !bytes_app. change (bytes "|") with [bar]. cbn [app].
  rewrite indexb_one by done. cbn [Nat.add]. rewrite take_app_length, drop_app_add. cbn [drop]. by rewrite drop_0, !ofBytes_bytes.
Qed.

(** What the branches hold after some edges. *)
Definition under_of (d : Definition_) (L : list (string * Edge)) (key v : string) : Prop :=
  exists id e, (id, e) ∈ L /\ ePort e <> ""%string /\ key = branch_key id (ePort e) /\ rtc (edge d) (eTo e) v.

Lemma under_fold d L : let under := fold_left (fun u ie => under_edge d ie.1 u ie.2) L [] in
  NoDup (map fst under) /\ forall key v, (exists s, assoc key under = Some s /\ v ∈ s) <-> under_of d L key v.
Proof.
  induction L as [|[id e] L IH] using rev_ind.
  { split; [constructor|]. intros key v. split; [by intros (? & ? & _)|]. intros (? & ? & H & _). by apply elem_of_nil in H. }
  rewrite fold_left_app. cbn [fold_left fst snd]. set (under := fold_left _ L []) in *. destruct IH as [Hnd IH].
  assert (forall key v, under_of d (L ++ [(id, e)]) key v <-> under_of d L key v \/ (ePort e <> ""%string /\ key = branch_key id (ePort e) /\ rtc (edge d) (eTo e) v)) as Hsnoc.
  { intros key v. unfold under_of. setoid_rewrite elem_of_app. setoid_rewrite list_elem_of_singleton. split.
    - intros (i & e' & [?|[= -> ->]] & ?); [left; by exists i, e'|by right].
    - intros [(i & e' & ? & ?)|?]; [exists i, e'; auto|exists id, e; auto]. }
  unfold under_edge. case_decide as Hp.
  { split; [done|]. intros key v. rewrite IH, Hsnoc. tauto. }
  set (k0 := branch_key id (ePort e)). split; [by apply assoc_set_NoDup|]. intros key v. rewrite Hsnoc, <- IH.
  destruct (decide (key = k0)) as [-> |Hk].
  - rewrite assoc_set_eq. split.
    + intros (s & [= <-] & Hv). rewrite !elem_of_union, elem_of_singleton, reachable_spec in Hv. destruct Hv as [Hv|Hv].
      * right. split_and!; [done|done|]. apply tc_rtc_step. destruct Hv as [-> |?]; auto.
      * left. destruct (assoc k0 under) as [s|]; [by exists s|by apply elem_of_empty in Hv].
    + intros H. eexists. split; [done|]. rewrite !elem_of_union, elem_of_singleton, reachable_spec. destruct H as [(s & -> & Hv)|(_ & _ & Hv)]; [by right|].
      left. apply tc_rtc_step in Hv as [-> |?]; auto.
  - rewrite assoc_set_ne by done. split; [by left|]. by intros [?|(_ & ? & _)].
Qed.

Lemma branches_under_spec d : NoDup (map fst (branches_under d)) /\
  forall key v, (exists s, assoc key (branches_under d) = Some s /\ v ∈ s) <->
    exists x port, key = branch_key x port /\ step d x /\ branch_reaches d x port v.
Proof.
  set (L := flat_map (fun n => map (pair (nID n)) (Outgoing d (nID n))) (Nodes d)).
  assert (branches_under d = fold_left (fun u ie => under_edge d ie.1 u ie.2) L []) as ->.
  { unfold branches_under, L. generalize (@nil (string * gset string)). induction (Nodes d) as [|n ns IH]; intros u; [done|].
    cbn [fold_left flat_map]. rewrite fold_left_app, IH. f_equal. clear. generalize (Outgoing d (nID n)). intros es. revert u.
    induction es as [|e es IHe]; intros u; [done|]. cbn. apply IHe. }
  destruct (under_fold d L) as [H1 H2]. split; [done|]. intros key v. rewrite H2. unfold under_of, branch_reaches, step.
  assert (forall id e, (id, e) ∈ L <-> (exists n, n ∈ Nodes d /\ nID n = id) /\ e ∈ Edges d /\ eFrom e = id) as HL.
  { intros id e. unfold L. rewrite list_elem_of_In, in_flat_map. split.
    - intros (n & Hn & Hm%list_elem_of_In). apply list_elem_of_fmap in Hm as (e' & [= -> ->] & [He Hf]%Outgoing_from). apply list_elem_of_In in Hn. eauto.
    - intros [(n & Hn & Hid) He]. exists n. subst id. rewrite <- !list_elem_of_In. split; [done|]. apply list_elem_of_fmap. exists e. split; [done|]. by apply Outgoing_from. }
  setoid_rewrite HL. split.
  - intros (id & e & (Hs & He & Hf) & Hp & -> & Hv). exists id, (ePort e). split_and!; [done|done|done|]. by exists e.
  - intros (x & port & -> & Hs & Hp & e & He & Hf & <- & Hv). exists x, e. by split_and!.
Qed.

Lemma exclusive_spec d a b :
  (forall x, step d x -> bar ∉ bytes x) -> (forall e, e ∈ Edges d -> ePort e = ""%string \/ step d (eFrom e)) ->
  exclusive (branches_under d) a b = true <-> on_branches d a b.
Proof.
  intros Hbar Hfrom. destruct (branches_under_spec d) as [Hnd Hspec].
  assert (forall x port v, branch_reaches d x port v -> step d x) as Hstep.
  { intros x port v (Hp & e & He & <- & <- & _). by destruct (Hfrom e He). }
  assert (forall k s, (k, s) ∈ branches_under d -> forall v, v ∈ s <-> exists x port, k = branch_key x port /\ step d x /\ branch_reaches d x port v) as Hmem.
  { intros k s Hks v. rewrite <- Hspec. apply (assoc_NoDup _ _ _ Hnd) in Hks. rewrite Hks. split; [eauto|by intros (? & [= <-] & ?)]. }
  unfold exclusive. rewrite existsb_exists. setoid_rewrite existsb_exists. split.
  - intros ((ka & sa) & Ha%list_elem_of_In & (kb & sb) & Hb%list_elem_of_In & Hs). unfold splits in Hs. cbn [fst snd] in Hs.
    destruct (cut_bar ka) as [na pa] eqn:Eka, (cut_bar kb) as [nb pb] eqn:Ekb.
    rewrite !andb_true_iff, !bool_decide_eq_true in Hs. destruct Hs as (((((<- & Hne) & Haa) & Hbb) & Hab) & Hba).
    apply (Hmem _ _ Ha) in Haa as (x & p & -> & Hx & Hpa). apply (Hmem _ _ Hb) in Hbb as (y & q & -> & Hy & Hqb).
    rewrite cut_branch_key in Eka, Ekb by auto. injection Eka as <- <-. injection Ekb as -> <-.
    exists x, p, q. split_and!; [done|done|done| |].
    + intros H. apply Hab. apply (Hmem _ _ Ha). by exists x, p.
    + intros H. apply Hba. apply (Hmem _ _ Hb). by exists x, q.
  - intros (x & p & q & Hne & Hpa & Hqb & Hpb & Hqa). pose proof (Hstep _ _ _ Hpa) as Hx.
    destruct (proj2 (Hspec (branch_key x p) a)) as (sa & Hsa & Haa); [by exists x, p|].
    destruct (proj2 (Hspec (branch_key x q) b)) as (sb & Hsb & Hbb); [by exists x, q|].
    apply assoc_Some_in in Hsa as [_ Hsa], Hsb as [_ Hsb].
    exists (branch_key x p, sa). split; [by apply list_elem_of_In|]. exists (branch_key x q, sb). split; [by apply list_elem_of_In|].
    assert (forall k1 k2, branch_key x k1 = branch_key x k2 -> k1 = k2) as Hinj.
    { intros k1 k2 E. apply (f_equal cut_bar) in E. rewrite !cut_branch_key in E by auto. by injection E. }
    assert (forall y r k, step d y -> branch_key x k = branch_key y r -> y = x /\ r = k) as Hinj2.
    { intros y r k Hy E. apply (f_equal cut_bar) in E. rewrite !cut_branch_key in E by auto. injection E as -> ->. done. }
    unfold splits. cbn [fst snd]. rewrite !cut_branch_key by auto. rewrite !andb_true_iff, !bool_decide_eq_true.
    split_and!; [done|done|done|done| |].
    + intros Hin. apply (Hmem _ _ Hsa) in Hin as (y & r & E & Hy & Hr). by destruct (Hinj2 _ _ _ Hy E) as [-> ->].
    + intros Hin. apply (Hmem _ _ Hsb) in Hin as (y & r & E & Hy & Hr). by destruct (Hinj2 _ _ _ Hy E) as [-> ->].
Qed.

(** ** Steps and edges *)
Lemma id_ok_spec id : nodeIDPattern id = true /\ id <> TriggerID <-> id_ok id.
Proof.
  unfold nodeIDPattern, id_ok. destruct (bytes id) as [|a l]; [split; [by intros [? _]|by intros (?&?&?&_)]|].
  rewrite !andb_true_iff, bool_decide_eq_true, forallb_forall. setoid_rewrite Forall_forall. setoid_rewrite <- list_elem_of_In. split.
  - intros [[[? ?] ?] ?]. exists a, l. by split_and!.
  - intros (a' & l' & [= <- <-] & ? & ? & ? & ?). by split_and!.
Qed.

Lemma id_ok_bar id : id_ok id -> bar ∉ bytes id.
Proof.
  intros (a & l & -> & Ha & Hl & _) [<-|Hin]%elem_of_cons; [by vm_compute in Ha|].
  rewrite Forall_forall in Hl. specialize (Hl _ Hin). by vm_compute in Hl.
Qed.

Section specification.
Context {CT : CaseTables} {PT : PrintTables} {cat : Catalog} (LoadLocation : string -> option Location).

Lemma check_step_nil d p n : check_step d p n = [] <-> step_ok d n.
Proof.
  unfold check_step, step_ok. destruct (decide (TrimSpace (nType n) = ""%string)); [split; [done|by intros [? _]]|].
  destruct (HasPrefix (nType n) "trigger."); [split; [done|by intros (_ & ? & _)]|].
  destruct (nodeSpec (nType n)) as [spec|]; [|split; [done|by intros (_ & _ & ? & ? & _)]].
  rewrite !app_nil, !flat_map_nil, validateTemplates_nil.
  assert ((forall key, key ∈ Required spec -> required_problem p (nConfig n) key = []) <-> Forall (fun key => isBlank (field key (nConfig n)) = false) (Required spec)) as ->.
  { rewrite Forall_forall. apply forall_proper. intros key. unfold required_problem. destruct (isBlank _); split; intros H Hk; by specialize (H Hk). }
  assert ((forall key, key ∈ Expressions spec -> expression_problem p (nConfig n) key = []) <->
    Forall (fun key => let s := asString (field key (nConfig n)) in TrimSpace s = ""%string \/ exists e, Parse (stripBraces s) = Ok e) (Expressions spec)) as ->.
  { rewrite Forall_forall. apply forall_proper. intros key. unfold expression_problem. cbn zeta. destruct (decide _) as [E|E]; [tauto|].
    destruct (Parse _) as [e|e]; split; intros H Hk; [right; by exists e|done|by specialize (H Hk)|]. by destruct (H Hk) as [?|[? ?]]. }
  assert (match nRetry n with Some r => validateRetry r (p +:+ ".retry") | None => [] end = [] <-> forall r, nRetry n = Some r -> retry_ok r) as ->.
  { destruct (nRetry n) as [r|]; [rewrite validateRetry_nil; split; [by intros ? ? [= <-]|auto]|done]. }
  assert (forall x : list problem, x <> [] -> ((if decide (nOnError n ∈ on_error_modes) then [] else x) = [] <-> nOnError n ∈ on_error_modes)) as H1 by (intros; by case_decide).
  rewrite H1 by done.
  assert ((if decide (nTimeoutMS n < 0) then [says (p +:+ ".timeout_ms") "timeout cannot be negative"] else []) = [] <-> 0 <= nTimeoutMS n) as ->
    by (destruct (decide (nTimeoutMS n < 0)); split; intros; [done|exfalso; lia|lia|done]).
  split; [intros (?&?&?&?&?&?); split_and!; [done|done|]; exists spec; by split_and!|]. intros (_ & _ & s & [= <-] & ?). tauto.
Qed.

Lemma steps_loop_nil d ns : forall i ids,
  ((steps_loop d i ns ids).2 = [] <->
    NoDup (map nID ns) /\ Forall (fun n => id_ok (nID n) /\ ids !! nID n = None) ns /\ Forall (step_ok d) ns) /\
  ((steps_loop d i ns ids).2 = [] -> forall id, is_Some ((steps_loop d i ns ids).1 !! id) <-> is_Some (ids !! id) \/ id ∈ map nID ns).
Proof.
  induction ns as [|n ns IH]; intros i ids; cbn [steps_loop map].
  { split; [split; [intros _; split_and!; constructor|done]|]. intros _ id. cbn. set_solver. }
  unfold check_id.
  destruct (nodeIDPattern (nID n)) eqn:Hp; cbn [negb]; [destruct (decide (nID n = TriggerID)) as [Ht|Ht]; [|destruct (ids !! nID n) eqn:Hd]|];
    [| | |]; specialize (IH (S i)).
  1,2,4: specialize (IH ids); destruct (steps_loop d (S i) ns ids) as [ids' rest]; cbn [snd]; split; [split; [done|]|done];
    intros (_ & [[Hi Hn] _]%Forall_cons & _); apply id_ok_spec in Hi as [? ?]; congruence.
  specialize (IH (<[nID n := i]> ids)). destruct (steps_loop d (S i) ns (<[nID n := i]> ids)) as [ids' rest]. cbn [fst snd app] in *.
  destruct IH as [IH1 IH2]. rewrite app_nil, check_step_nil, IH1, NoDup_cons, !Forall_cons.
  assert (id_ok (nID n)) as Hi by by apply id_ok_spec.
  assert (Forall (fun m => id_ok (nID m) /\ <[nID n:=i]> ids !! nID m = None) ns <-> nID n ∉ map nID ns /\ Forall (fun m => id_ok (nID m) /\ ids !! nID m = None) ns) as Hf.
  { rewrite !Forall_forall. setoid_rewrite lookup_insert_None. rewrite list_elem_of_fmap. naive_solver. }
  split; [rewrite Hf; tauto|]. intros (Hs & H) id. rewrite (IH2 (proj2 IH1 H)), lookup_insert_is_Some, elem_of_cons.
  destruct (decide (id = nID n)); naive_solver.
Qed.

Lemma edge_problems_nil d ids i e : (forall id, ids !! id = None <-> ~ step d id) -> (forall id, step d id -> id <> TriggerID) ->
  edge_problems d ids i e = [] <-> edge_ok d e.
Proof.
  intros Hids Htr. unfold edge_problems, edge_ok. destruct (decide (eFrom e = ""%string \/ eTo e = ""%string)); [split; [done|tauto]|].
  rewrite !app_nil.
  assert ((if decide (eFrom e <> TriggerID /\ ids !! eFrom e = None) then [says (at_index "edges" i +:+ ".from") ("edge starts at unknown step " +:+ Quote (eFrom e))] else []) = []
    <-> eFrom e = TriggerID \/ step d (eFrom e)) as ->.
  { rewrite <- findNode_step. specialize (Hids (eFrom e)). rewrite <- findNode_step in Hids.
    destruct (decide (eFrom e = TriggerID)), (decide (findNode d (eFrom e) = None)); case_decide; split; try done; tauto. }
  assert ((if decide (ids !! eTo e = None) then [says (at_index "edges" i +:+ ".to") ("edge ends at unknown step " +:+ Quote (eTo e))] else []) = [] <-> step d (eTo e)) as ->.
  { rewrite <- findNode_step. specialize (Hids (eTo e)). rewrite <- findNode_step in Hids.
    destruct (decide (findNode d (eTo e) = None)); case_decide; split; try done; tauto. }
  assert ((if decide (eFrom e = eTo e) then [says (at_index "edges" i) "a step cannot lead to itself"] else []) = [] <-> eFrom e <> eTo e) as -> by by case_decide.
  assert (eFrom e = TriggerID \/ step d (eFrom e) -> port_problems d ids (at_index "edges" i) e = [] <-> port_ok d e) as Hport.
  { intros Hf. unfold port_problems, port_ok. destruct (decide (eFrom e = TriggerID)) as [Ht|Ht]; [by case_decide; split; try tauto|].
    destruct Hf as [?|Hf]; [done|]. destruct (decide (ePort e = ""%string)) as [Hp|Hp].
    - rewrite decide_True by auto. destruct (Branches _) eqn:E; [by rewrite decide_False by tauto|by rewrite decide_True by done].
    - destruct (decide (ids !! eFrom e = None)) as [Hn|Hn]; [by apply Hids in Hn|]. destruct (decide (ePort e = ErrorPort)) as [He|He].
      + rewrite decide_True by auto. rewrite decide_False by tauto. split; [by left|done].
      + rewrite decide_False by tauto. case_decide; split; intros; (done || tauto). }
  destruct (decide (eFrom e = ""%string)), (decide (eTo e = ""%string)); tauto.
Qed.

(** ** The graph *)
Lemma writer_of_spec n : (exists name, writer_of n = [(nID n, name)] /\ sets n name) \/ (writer_of n = [] /\ forall name, ~ sets n name).
Proof.
  unfold writer_of, sets, spec_of_type. destruct (nodeSpec (nType n)) as [spec|]; cbn; [|right; split; [done|by intros name (_ & ? & ? & _)]].
  destruct (decide (SetsVariable spec = ""%string)); [right; split; [done|by intros name (_ & ? & [= <-] & ? & _)]|].
  destruct (decide (asString (field (SetsVariable spec) (nConfig n)) <> ""%string)) as [Hn|Hn]; [left; eexists; split; [done|]; eauto 10|].
  right. split; [done|]. intros name (? & ? & [= <-] & ? & <-). done.
Qed.

Lemma sets_fun n a b : sets n a -> sets n b -> a = b.
Proof. intros (_ & s & Hs & _ & <-) (_ & s' & Hs' & _ & <-). by rewrite Hs in Hs'; injection Hs' as ->. Qed.

Lemma writers_in ns w : w ∈ flat_map writer_of ns <-> exists i n, ns !! i = Some n /\ w = (nID n, w.2) /\ sets n w.2.
Proof.
  rewrite list_elem_of_In, in_flat_map. setoid_rewrite <- list_elem_of_In. setoid_rewrite list_elem_of_lookup at 1. split.
  - intros (n & [i Hi] & Hw). exists i, n. split; [done|].
    destruct (writer_of_spec n) as [(name & E & ?)|[E _]]; rewrite E in Hw; [|by apply not_elem_of_nil in Hw]. by apply list_elem_of_singleton in Hw as ->.
  - intros (i & n & Hi & Hw & Hs). exists n. split; [by exists i|].
    destruct (writer_of_spec n) as [(name & -> & Hs')|[_ Hn]]; [|by destruct (Hn w.2)]. rewrite (sets_fun _ _ _ Hs' Hs), <- Hw. by left.
Qed.

(** The pairs that are checked are the pairs of steps, in order, that set something. *)
Lemma pairs_of_writers ns a b : (a, b) ∈ pairs_of (flat_map writer_of ns) <->
  exists i j n m, (i < j)%nat /\ ns !! i = Some n /\ ns !! j = Some m /\ a = (nID n, a.2) /\ b = (nID m, b.2) /\ sets n a.2 /\ sets m b.2.
Proof.
  induction ns as [|n ns IH]; [split; [by intros ?%not_elem_of_nil|by intros (?&?&?&?&_&?&_)]|]. cbn [flat_map].
  assert ((exists i j n0 m, (i < j)%nat /\ (n :: ns) !! i = Some n0 /\ (n :: ns) !! j = Some m /\ a = (nID n0, a.2) /\ b = (nID m, b.2) /\ sets n0 a.2 /\ sets m b.2) <->
    (a = (nID n, a.2) /\ sets n a.2 /\ b ∈ flat_map writer_of ns) \/ (a, b) ∈ pairs_of (flat_map writer_of ns)) as ->.
  { rewrite IH, writers_in. split.
    - intros ([|i] & [|j] & n0 & m & Hij & Hi & Hj & H); [lia| |lia|]; cbn in Hi, Hj.
      + left. injection Hi as <-. destruct H as (Ha & Hb & Hs & Hsb). split; [exact Ha|]. split; [exact Hs|]. exists j, m. exact (conj Hj (conj Hb Hsb)).
      + right. exists i, j, n0, m. split; [lia|]. exact (conj Hi (conj Hj H)).
    - intros [(Ha & Hs & j & m & Hj & Hb & Hsb)|(i & j & n0 & m & Hij & H)].
      + exists 0%nat, (S j), n, m. split; [lia|]. exact (conj eq_refl (conj Hj (conj Ha (conj Hb (conj Hs Hsb))))).
      + exists (S i), (S j), n0, m. split; [lia|]. done. }
  destruct (writer_of_spec n) as [(name & -> & Hs)|[-> Hn]]; cbn [app pairs_of].
  - rewrite elem_of_app, list_elem_of_fmap. split.
    + intros [(x & [= -> ->] & Hx)|?]; [left; by split_and!|by right].
    + intros [(Ha & Hs' & Hb)|?]; [left|by right]. exists b. split; [|done]. by rewrite Ha, (sets_fun _ _ _ Hs Hs').
  - split; [by right|]. intros [(_ & Hs & _)|?]; [by destruct (Hn a.2)|done].
Qed.

Lemma parallel_nil d : (forall x, step d x -> bar ∉ bytes x) -> (forall e, e ∈ Edges d -> ePort e = ""%string \/ step d (eFrom e)) ->
  validateParallelVars d = [] <-> writers_ordered d.
Proof.
  intros Hbar Hfrom.
  assert (validateParallelVars d = flat_map (pair_problems d (branches_under d)) (pairs_of (flat_map writer_of (Nodes d)))) as ->.
  { unfold validateParallelVars. case_decide as Hl; [|done]. destruct (flat_map writer_of (Nodes d)) as [|? [|]]; [done..|cbn in Hl; lia]. }
  rewrite flat_map_nil. unfold writers_ordered. split.
  - intros H i j a b name Hij Hi Hj Ha Hb. specialize (H ((nID a, name), (nID b, name))). ospecialize (H _).
    { apply pairs_of_writers. exists i, j, a, b. split; [done|]. exact (conj Hi (conj Hj (conj eq_refl (conj eq_refl (conj Ha Hb))))). }
    unfold pair_problems in H. cbn [fst snd] in H. case_decide as Hd; [|done]. rewrite !reachable_spec, exclusive_spec in Hd by done. tauto.
  - intros H [a b] (i & j & n & m & Hij & Hi & Hj & Ha & Hb & Hsa & Hsb)%pairs_of_writers. unfold pair_problems.
    case_decide as Hd; [done|]. destruct Hd. destruct (decide (a.2 = b.2)) as [E|]; [right|by left].
    rewrite !reachable_spec, exclusive_spec by done. rewrite <- E in Hsb. specialize (H i j n m a.2 Hij Hi Hj Hsa Hsb).
    by rewrite Ha, Hb.
Qed.

Lemma unreached_nil d : unreached d = [] <-> forall n, n ∈ Nodes d -> tc (edge d) TriggerID (nID n).
Proof.
  unfold unreached. rewrite concat_imap_nil. split.
  - intros H n Hn. apply list_elem_of_lookup in Hn as [i Hi]. specialize (H i n Hi). cbn in H. case_decide as Hr; [by apply reachable_spec|done].
  - intros H i n Hi. cbn. rewrite decide_True; [done|]. apply reachable_spec, H. by eapply list_elem_of_lookup_2.
Qed.

(** ** Both stages *)
Lemma fields_known d : fields_ok LoadLocation d -> edges_known d /\ (forall x, step d x -> bar ∉ bytes x) /\ (forall e, e ∈ Edges d -> ePort e = ""%string \/ step d (eFrom e)).
Proof.
  intros H. destruct (f_ids _ _ H) as [_ Hids]. pose proof (f_edges _ _ H) as He. rewrite Forall_forall in Hids. rewrite Forall_forall in He. split_and!.
  - intros u v (e & Hin & <- & _). destruct (He e Hin) as (_ & _ & [->|(n & Hn & <-)] & _); [by left|]. right. apply list_elem_of_fmap. by exists n.
  - intros x (n & Hn & <-). by apply id_ok_bar, Hids.
  - intros e Hin. destruct (He e Hin) as (_ & _ & [Ht|?] & _ & _ & Hp); [|by right]. left. unfold port_ok in Hp. by rewrite decide_True in Hp.
Qed.

Lemma field_problems_nil d : field_problems LoadLocation d = Some [] <-> fields_ok LoadLocation d.
Proof.
  unfold field_problems. destruct (steps_loop_nil d (Nodes d) 0 ∅) as [Hs1 Hs2]. destruct (steps_loop d 0 (Nodes d) ∅) as [ids steps]. cbn [fst snd] in *.
  assert (steps = [] -> (forall id, ids !! id = None <-> ~ step d id) /\ (forall id, step d id -> id <> TriggerID)) as Hids.
  { intros Hs. destruct (proj1 Hs1 Hs) as (_ & Hok & _). rewrite Forall_forall in Hok. specialize (Hs2 Hs). split.
    - intros id. rewrite eq_None_not_Some, Hs2, lookup_empty, list_elem_of_fmap. unfold step. split; [naive_solver|]. intros Hn [[? [=]]|(n & -> & ?)]. eauto.
    - intros id (n & Hn & <-). destruct (Hok n Hn) as [Hi _]. by apply id_ok_spec in Hi as [_ ?]. }
  assert ((exists t, validateTrigger LoadLocation d = Some t /\ t = []) <-> trigger_ok LoadLocation (dTrigger d)) as Ht
    by (rewrite <- validateTrigger_nil; split; [by intros (? & -> & ->)|eauto]).
  assert (forall x : list problem, x <> [] -> ((if decide (SchemaVersion d <> SchemaVersion_) then x else []) = [] <-> SchemaVersion d = SchemaVersion_)) as H1
    by (intros x Hx; case_decide as Hd; [done|]; destruct (decide (SchemaVersion d = SchemaVersion_)); tauto).
  assert (forall x : list problem, x <> [] -> ((if decide (MaxNodes < Z.of_nat (length (Nodes d))) then x else []) = [] <-> Z.of_nat (length (Nodes d)) <= MaxNodes)) as H2
    by (intros x Hx; destruct (decide (MaxNodes < Z.of_nat (length (Nodes d)))); split; intros; (done || lia)).
  assert ((match dRetry d with Some r => validateRetry r "retry" | None => [] end) = [] <-> forall r, dRetry d = Some r -> retry_ok r) as H3
    by (destruct (dRetry d) as [r|]; [rewrite validateRetry_nil; split; [by intros ? ? [= <-]|auto]|done]).
  assert ((match dError d with
           | Some oe => if decide (oe ∈ on_error_modes) then [] else [says "error.on_error" "on_error must be stop, continue or fail_branch"]
           | None => []
           end) = [] <-> forall oe, dError d = Some oe -> oe ∈ on_error_modes) as H4
    by (destruct (dError d) as [oe|]; [|done]; destruct (decide (oe ∈ on_error_modes)) as [Hin|Hin]; split; [intros _ oe' [= <-]; exact Hin|done|done|intros Hoe; by specialize (Hoe oe eq_refl)]).
  assert (steps = [] -> concat (imap (edge_problems d ids) (Edges d)) = [] <-> Forall (edge_ok d) (Edges d)) as H5.
  { intros Hs. destruct (Hids Hs) as [Hi Ht']. rewrite concat_imap_nil, Forall_lookup. apply forall_proper; intros i. apply forall_proper; intros e.
    by rewrite edge_problems_nil. }
  assert (steps = [] <-> (NoDup (map nID (Nodes d)) /\ Forall (fun n => id_ok (nID n)) (Nodes d)) /\ Forall (step_ok d) (Nodes d)) as H6.
  { rewrite Hs1. setoid_rewrite lookup_empty. rewrite Forall_and. assert (Forall (fun _ : Node => @None nat = None) (Nodes d)) by by apply Forall_true. tauto. }
  destruct (validateTrigger LoadLocation d) as [trig|] eqn:Etr; cbn [mbind option_bind].
  - rewrite (inj_iff Some), !app_nil, H1, H2, H3, H4 by done. split.
    + intros (? & -> & ? & Hs & ? & ? & He). apply H5 in He; [|done]. apply H6 in Hs as [? ?]. split; try done. apply Ht. eauto.
    + intros [? Htr ? Hi Hst ? ? He]. apply Ht in Htr as (t & [= <-] & Htr). assert (steps = []) as Hs by by apply H6. split_and!; try done. by apply H5.
  - split; [done|]. intros [? Htr ? ? ? ? ? ?]. by apply Ht in Htr as (? & ? & _).
Qed.

Lemma graph_problems_nil d : fields_ok LoadLocation d ->
  graph_problems d = [] <-> acyclic d /\ (forall n, n ∈ Nodes d -> tc (edge d) TriggerID (nID n)) /\ loops_closed d isLoop /\ writers_ordered d.
Proof.
  intros Hf. destruct (fields_known d Hf) as (Hk & Hbar & Hfrom). destruct (findCycle_spec d) as (_ & _ & Hc). specialize (Hc Hk).
  unfold graph_problems. destruct (findCycle d) as [|x cyc]; [|split; [done|]; intros [Ha _]; by apply Hc in Ha].
  assert (acyclic d) by by apply Hc. rewrite !app_nil, unreached_nil, parallel_nil, <- validateLoops_nil by done.
  assert (forall ps, map from_problem ps = [] <-> ps = []) as -> by (intros ps; split; [apply map_eq_nil|by intros ->]). tauto.
Qed.
Lemma Validate_nil d : Validate LoadLocation d = Some [] <-> publishable LoadLocation d.
Proof.
  unfold Validate. split.
  - destruct (field_problems LoadLocation d) as [[|p ps]|] eqn:Ef; cbn; [|done|done]. intros [=Hg].
      apply field_problems_nil in Ef. apply (graph_problems_nil d Ef) in Hg as (? & ? & ? & ?); by constructor.
  - intros [Hf Ha Hr Hl Hw]. rewrite (proj2 (field_problems_nil d) Hf). cbn. f_equal. apply (graph_problems_nil d Hf). auto.
Qed.
End specification.

(** C39: [Validate] finds nothing exactly in the flows that can be published: those with
    well-formed fields whose graph has no cycle, is reached from the trigger everywhere,
    keeps its loops closed and orders the steps that set the same variable.  It gives an
    answer for every flow but one with a schedule line whose step wraps around, where it
    panics.  A flow with good fields and a cycle gets one problem, which names a cycle. *)
Theorem Validate_publishable `{CaseTables} `{PrintTables} `{Catalog} (LoadLocation : string -> option Location) (d : Definition_) :
  (Validate LoadLocation d = Some [] <-> publishable LoadLocation d) /\
  (Validate LoadLocation d = None <-> tType (dTrigger d) = TriggerSchedule /\ schedule_panics (tConfig (dTrigger d))) /\
  (fields_ok LoadLocation d -> ~ acyclic d -> exists cyc, is_cycle d cyc /\
     Validate LoadLocation d = Some [says "edges" ("the steps loop back on themselves: " +:+ Expr.join " → " cyc)]).
Proof.
  split_and!.
  - apply Validate_nil.
  - rewrite <- (validateTrigger_none LoadLocation). unfold Validate, field_problems. destruct (validateTrigger LoadLocation d) as [t|]; cbn; [|done].
    by destruct (steps_loop d 0 (Nodes d) ∅); split.
  - intros Hf Hc. destruct (fields_known _ d Hf) as (Hk & _ & _). destruct (findCycle_spec d) as (_ & Hcyc & Hn). specialize (Hn Hk).
    unfold Validate, graph_problems. rewrite (proj2 (field_problems_nil _ d) Hf).
    destruct (findCycle d) as [|x cyc]; [by destruct Hc; apply Hn|]. exists (x :: cyc). split; [by apply Hcyc|done].
Qed.

(** ** Examples *)
Definition demo_catalog : Catalog := fun typ => assoc typ
  [("logic.condition", mkSpec_ ["true"; "false"] false "" [] ["expression"]); ("logic.foreach", mkSpec_ ["each"; "done"] true "" ["items"] []);
   ("logic.set_variable", mkSpec_ [] false "name" ["name"] []); ("logic.switch", mkSpec_ ["default"] false "" ["value"; "cases"] [])]%string.

Definition demo_step (id typ : string) (cfg : list (string * value)) : Node := mkNode id typ cfg None "" 0.
Definition demo_flow (ns : list Node) (es : list Edge) : Definition_ := mkDefinition 1 (mkTrigger TriggerID TriggerManual []) ns es None None ∅.
Definition demo_validate (d : Definition_) : option (list problem) :=
  Validate (CT := ascii_tables) (PT := ascii_print) (cat := demo_catalog) (fun _ => None) d.

Definition set_step (id name : string) : Node := demo_step id "logic.set_variable" [("name", VStr name); ("value", VStr "{{ nodes.check.output }}")]%string.
Definition branching : Definition_ := demo_flow
  [demo_step "check" "logic.condition" [("expression", VStr "trigger.percent >= 85")]; set_step "a" "x"; set_step "b" "x"]%string
  [mkEdge TriggerID "check" ""; mkEdge "check" "a" "true"; mkEdge "check" "b" "false"]%string.
Definition looping : Definition_ := demo_flow
  [demo_step "check" "logic.condition" [("expression", VStr "true")]; set_step "a" "x"]%string
  [mkEdge TriggerID "check" ""; mkEdge "check" "a" "true"; mkEdge "a" "check" ""]%string.

Lemma Validate_publishable_witness :
  publishable (CT := ascii_tables) (cat := demo_catalog) (fun _ => None) branching /\ ~ publishable (CT := ascii_tables) (cat := demo_catalog) (fun _ => None) looping.
Proof.
  split.
  - assert (demo_validate branching = Some []) as H by (vm_compute; reflexivity).
    exact (proj1 (proj1 (Validate_publishable (H := ascii_tables) (H0 := ascii_print) (H1 := demo_catalog) (fun _ => None) branching)) H).
  - intros Hp.
    pose proof (proj2 (proj1 (Validate_publishable (H := ascii_tables) (H0 := ascii_print) (H1 := demo_catalog) (fun _ => None) looping)) Hp) as H.
    vm_compute in H. discriminate H.
Defined.

Example problems_ex : map (fun d => map pPath <$> demo_validate d)
  [looping;
   demo_flow [set_step "a" "x"; set_step "check" "x"] [mkEdge TriggerID "a" ""; mkEdge TriggerID "check" ""];
   demo_flow [set_step "check" "x"; set_step "a" "y"] [mkEdge TriggerID "check" ""];
   demo_flow [set_step "a" "x"; set_step "1" ""; set_step "a" "z"] [mkEdge "a" "gone" ""; mkEdge "a" "a" "up"]]%string
  = [Some ["edges"]; Some ["nodes"]; Some ["nodes[1]"];
     Some ["nodes[0].config.value"; "nodes[1].id"; "nodes[1].config.name"; "nodes[1].config.value"; "nodes[2].id"; "nodes[2].config.value"; "edges[0].to"; "edges[1]"; "edges[1].port"]]%string.
Proof. vm_compute. reflexivity. Qed.

(** A variable's name is compared as it is written; the step trims it when it runs. *)
Example spaced_names :
  demo_validate (demo_flow [demo_step "a" "logic.set_variable" [("name", VStr "x")]; demo_step "b" "logic.set_variable" [("name", VStr "x ")]]
                           [mkEdge TriggerID "a" ""; mkEdge TriggerID "b" ""])%string = Some [].
Proof. vm_compute. reflexivity. Qed.

(** The main and the error branch of a step are never both taken, and are not told apart. *)
Example error_branch_refused :
  map pPath <$> demo_validate (demo_flow
    [mkNode "s" "logic.set_variable" [("name", VStr "y")] None OnErrorFailBranch 0;
     demo_step "a" "logic.set_variable" [("name", VStr "x")]; demo_step "b" "logic.set_variable" [("name", VStr "x")]]
    [mkEdge TriggerID "s" ""; mkEdge "s" "a" ""; mkEdge "s" "b" ErrorPort])%string = Some ["nodes"]%string.
Proof. vm_compute. reflexivity. Qed.

(** The branch of a switch's case is checked with another text form than the one it is taken by. *)
Definition switching (port : string) : Definition_ := demo_flow
  [demo_step "s" "logic.switch" [("value", VStr "{{ trigger.n }}"); ("cases", VList [VMap [("value", VNum (num "1000000"))]])]; demo_step "a" "logic.set_variable" [("name", VStr "x")]]%string
  [mkEdge TriggerID "s" ""; mkEdge "s" "a" port]%string.
Example case_ports :
  demo_validate (switching "1e+06") = Some [] /\ demo_validate (switching "<nil>") = Some [] /\
  map pPath <$> demo_validate (switching "1000000") = Some ["edges[1].port"]%string /\
  Stringify (PT := ascii_print) (VNum (num "1000000")) = "1000000"%string.
Proof. vm_compute. done. Qed.
