(* ===== verification/Steps.v ===== *)
(** * Step types and the logic steps ([src/internal/automation/engine/registry.go], [builtin.go])

    The registry of step types, which is validation's catalogue; the declarations of the
    built-in types; the rendering of a step's configuration ([stepper.render]) and what
    the condition, switch, variable, stop and approval steps do with it. *)
From S2P Require Export Validate.
From S2P Require Export Engine.
From S2P Require Import FlowDef.

(** ** The registry

    A declaration keeps of a type what the registry and validation read; what a type does
    is below.  A field is its key and whether it is required. *)
Record decl := mkDecl {
  dType : string; dBranches : list string; dFields : list (string * bool); dDestructive : bool; dLoop : bool;
  dExpressions : list string; dSetsVariable : string }.

Definition Registry := gmap string decl.
Definition Register (t : decl) (r : Registry) : Registry := <[dType t := t]> r.
Definition Get (r : Registry) (typ : string) : option decl := r !! typ.

Definition spec_of_decl (t : decl) : NodeSpec :=
  mkSpec_ (dBranches t) (dLoop t) (dSetsVariable t) (map fst (filter (fun f => f.2 = true) (dFields t))) (dExpressions t).
Definition NodeSpecOf (r : Registry) (typ : string) : option NodeSpec := spec_of_decl <$> Get r typ.
Definition registry_catalog (r : Registry) : Catalog := NodeSpecOf r.

Definition HasDestructive (r : Registry) (d : Definition_) : list string :=
  flat_map (fun n => match Get r (nType n) with Some t => if dDestructive t then [nID n] else [] | None => [] end) (Nodes d).

Definition httpFields : list (string * bool) :=
  [("method", false); ("url", true); ("headers", false); ("query", false); ("body", false); ("connection", false);
   ("timeout_ms", false); ("fail_on_status", false); ("allow_private_network", false)]%string.

Definition builtin_decls : list decl :=
  [mkDecl "logic.condition" ["true"; "false"] [("match", false); ("rules", false); ("expression", false)] false false ["expression"] "";
   mkDecl "logic.switch" ["default"] [("value", true); ("cases", true)] false false [] "";
   mkDecl "logic.foreach" ["each"; "done"] [("items", true); ("max", false)] false true [] "";
   mkDecl "logic.delay" [] [("duration", false); ("until", false)] false false [] "";
   mkDecl "logic.set_variable" [] [("name", true); ("value", false)] false false [] "name";
   mkDecl "logic.compose" [] [("mode", false); ("value", false); ("path", false)] false false [] "";
   mkDecl "logic.stop" [] [("status", false); ("message", false)] false false [] "";
   mkDecl "logic.approval" ["approved"; "rejected"] [("message", true)] false false [] "";
   mkDecl "action.http" [] httpFields false false [] "";
   mkDecl "action.webhook" [] [("url", true); ("body", false); ("connection", false); ("allow_private_network", false)] false false [] ""]%string.
Definition NewRegistry : Registry := fold_left (fun r t => Register t r) builtin_decls ∅.

(** ** A step's configuration when it runs *)
Section steps.
Context {CT : CaseTables} {PT : PrintTables}.

(** [stepper.render]: the keys that hold expressions are kept, the rest is rendered. *)
Definition is_expr (t : decl) (kv : string * value) : Prop := kv.1 ∈ dExpressions t.
#[export] Instance is_expr_dec t kv : Decision (is_expr t kv).
Proof. unfold is_expr. apply _. Defined.
Definition render (t : decl) (cfg env : list (string * value)) : result templateError (list (string * value)) :=
  let raw := filter (fun kv => ~ is_expr t kv) cfg in
  let keep := filter (is_expr t) cfg in
  out ← Render (VMap raw) env;
  Ok (fold_left (fun m kv => assoc_set kv.1 kv.2 m) keep (match out with VMap m => m | _ => [] end)).

(** The readers of [ExecInput]. *)
Definition in_String (cfg : list (string * value)) (key : string) : string :=
  match field key cfg with VNull => "" | v => Stringify v end.

Inductive stepError :=
  | RuleOrder (i : nat) (e : evalError) | RuleOperator (i : nat) (op : string) | NoRules
  | SExpr (e : exprError) | SEval (e : evalError) | NoVariable | NotHere.

Definition in_Eval (env : list (string * value)) (src : string) : result stepError value :=
  match Eval (stripBraces src) env with Err e => Err (SExpr e) | Ok (Err e) => Err (SEval e) | Ok (Ok v) => Ok v end.

Definition compare_ops : list string := ["=="; "!="; ">"; ">="; "<"; "<="]%string.
Definition call_hit (name : string) (args : list value) : bool := match Call name args with Ok (VBool b) => b | _ => false end.

(** [None] is an operator that is not known. *)
Definition EvalRule (left_ : value) (op : string) (right_ : value) : option (result evalError bool) :=
  if decide (op ∈ compare_ops) then Some (Compare op left_ right_)
  else if decide (op = "eq"%string) then Some (Ok (Equal left_ right_))
  else if decide (op = "neq"%string) then Some (Ok (negb (Equal left_ right_)))
  else if decide (op = "contains"%string) then Some (Ok (call_hit "contains" [left_; right_]))
  else if decide (op = "not_contains"%string) then Some (Ok (negb (call_hit "contains" [left_; right_])))
  else if decide (op = "starts_with"%string) then Some (Ok (call_hit "startsWith" [left_; right_]))
  else if decide (op = "is_empty"%string \/ op = "not_empty"%string) then
    let empty := match left_ with
                 | VNull => true
                 | _ => match Call "length" [left_] with Ok (VNum f) => SFeqb f (S754_zero false) | _ => false end
                 end in
    Some (Ok (if decide (op = "not_empty"%string) then negb empty else empty))
  else None.

Record RuleResult := mkRule { rrLeft : value; rrOp : string; rrRight : value; rrMatched : bool }.

Definition rule_fields (raw : value) : list (string * value) := match raw with VMap m => m | _ => [] end.

Fixpoint rules_loop (all : bool) (i : nat) (matched : bool) (rules : list value) : result stepError (bool * list RuleResult) :=
  match rules with
  | [] => Ok (matched, [])
  | raw :: rules =>
      let rule := rule_fields raw in
      let op := Stringify (field "op" rule) in
      match EvalRule (field "left" rule) op (field "right" rule) with
      | None => Err (RuleOperator (S i) op)
      | Some (Err e) => Err (RuleOrder (S i) e)
      | Some (Ok hit) =>
          '(m, rs) ← rules_loop all (S i) (if all then matched && hit else matched || hit) rules;
          Ok (m, mkRule (field "left" rule) op (field "right" rule) hit :: rs)
      end
  end.

Definition rulesAny (rs : list RuleResult) : value :=
  VList (imap (fun i r => VMap [("rule", VStr ("rule " +:+ Itoa (Z.of_nat (S i)))); ("left", rrLeft r); ("op", VStr (rrOp r)); ("right", rrRight r); ("matched", VBool (rrMatched r))])%string rs).

Definition port_result (port : string) (output : value) (rules : bool) : Result :=
  Engine.mkResult (Some output) [] port None false false false "" rules "".
Definition truth_port (b : bool) : string := if b then "true" else "false".

Definition execCondition (cfg env : list (string * value)) : result stepError Result :=
  match field "rules" cfg with
  | VList (r :: rules) =>
      let all := bool_decide (in_String cfg "match" <> "any"%string) in
      '(matched, rs) ← rules_loop all 0 all (r :: rules);
      Ok (port_result (truth_port matched) (VMap [("result", VBool matched); ("rules", rulesAny rs)])%string true)
  | _ =>
      let src := TrimSpace (in_String cfg "expression") in
      if decide (src = ""%string) then Err NoRules
      else
        v ← in_Eval env src;
        Ok (port_result (truth_port (Truthy v)) (VMap [("result", VBool (Truthy v)); ("value", v)])%string true)
  end.

(** [SwitchCases]: values with their ports. *)
Definition switch_case (c : value) : list (string * string) :=
  match c with
  | VStr x => [(x, x)]
  | VMap m =>
      let val := Stringify (field "value" m) in
      let port := Stringify (field "port" m) in
      [(val, if decide (port = ""%string) then val else port)]
  | _ => []
  end.
Definition SwitchCases (v : value) : list (string * string) := match v with VList l => flat_map switch_case l | _ => [] end.

Definition execSwitch (cfg : list (string * value)) : Result :=
  let v := field "value" cfg in
  match List.find (fun c : string * string => Equal v (VStr c.1)) (SwitchCases (field "cases" cfg)) with
  | Some c => port_result c.2 (VMap [("value", v); ("case", VStr c.1)])%string false
  | None => port_result "default" (VMap [("value", v); ("case", VStr "default")])%string false
  end.

Definition execSetVariable (cfg : list (string * value)) : result stepError Result :=
  let name := TrimSpace (in_String cfg "name") in
  if decide (name = ""%string) then Err NoVariable
  else Ok (Engine.mkResult (Some (VMap [("name", VStr name); ("value", field "value" cfg)])%string) [(name, field "value" cfg)] "" None false false false "" false "").

Definition execStop (cfg : list (string * value)) : Result :=
  let msg := in_String cfg "message" in
  Engine.mkResult (Some (VMap [("message", VStr msg)])%string) [] "" None false true (bool_decide (in_String cfg "status" = "failed"%string)) msg false "".

Definition execApproval (cfg : list (string * value)) : Result :=
  Engine.mkResult (Some (VMap [("message", VStr (in_String cfg "message"))])%string) [] "" None true false false "" false "".

(** The built-in steps modelled here; the others are [NotHere]. *)
Definition Execute (typ : string) (cfg env : list (string * value)) : result stepError Result :=
  if decide (typ = "logic.condition"%string) then execCondition cfg env
  else if decide (typ = "logic.switch"%string) then Ok (execSwitch cfg)
  else if decide (typ = "logic.set_variable"%string) then execSetVariable cfg
  else if decide (typ = "logic.stop"%string) then Ok (execStop cfg)
  else if decide (typ = "logic.approval"%string) then Ok (execApproval cfg)
  else Err NotHere.
End steps.
