(* ===== verification/StepsProps.v ===== *)
(** * What publishing promises to the steps that run

    Validation and the engine meet here: a step of a published flow renders and executes
    without any of the errors validation is there to find. *)
From S2P Require Export Steps ValidateProps TemplateProps.
From S2P Require Import FlowDef.

Lemma stripBraces_trim s : stripBraces (TrimSpace s) = stripBraces s.
Proof. unfold stripBraces, single_ref. by rewrite !TrimSpace_idem. Qed.

(** ** Values as the code has them: the keys of a map are distinct *)
Inductive well_keyed : value -> Prop :=
  | wk_list l : Forall well_keyed l -> well_keyed (VList l)
  | wk_map m : NoDup (map fst m) -> Forall (fun kv => well_keyed kv.2) m -> well_keyed (VMap m)
  | wk_other v : match v with VList _ | VMap _ => False | _ => True end -> well_keyed v.

Lemma wk_list_inv l : well_keyed (VList l) -> Forall well_keyed l.
Proof. intros H. by inversion H. Qed.
Lemma wk_map_inv m : well_keyed (VMap m) -> NoDup (map fst m) /\ Forall (fun kv => well_keyed kv.2) m.
Proof. intros H. by inversion H. Qed.

(** The one error left in rendering and evaluating: two values without an order. *)
Fixpoint cannot_order (e : templateError) : Prop :=
  match e with
  | BadValue (CannotCompare _ _ _) => True
  | AtKey _ e | AtIndex _ e => cannot_order e
  | _ => False
  end.

(** No closing brace inside a text that is one reference, as in [TemplateProps]. *)
Definition braces_plain (x : string) : Prop := forall y, bytes (TrimSpace x) = brace2 ++ y ++ unbrace2 -> "}"%char ∉ y.
Definition renders (x : string) : Prop := (Contains x "{{" = false \/ exists ns, CheckTemplate x = Ok ns) /\ braces_plain x.

Section run.
Context {CT : CaseTables} {PT : PrintTables}.

Lemma RenderString_renders x env : renders x -> match RenderString x env with Ok _ => True | Err e => cannot_order e end.
Proof.
  intros [[Hc|[ns Hns]] Hp].
  - unfold RenderString, HasTemplate. by rewrite Hc.
  - pose proof (RenderString_checked x env ns Hns Hp) as H. destruct (RenderString x env) as [v|[]]; try done. by destruct e.
Qed.

(** What [Render] does with the items of a list and the entries of a map. *)
Fixpoint render_items (env : list (string * value)) (i : nat) (l : list value) : result templateError (list value) :=
  match l with
  | [] => Ok []
  | x :: l => match Render x env with Ok r => rs ← render_items env (S i) l; Ok (r :: rs) | Err e => Err (AtIndex i e) end
  end.
Fixpoint render_entries (env : list (string * value)) (m : list (string * value)) : result templateError (list (string * value)) :=
  match m with
  | [] => Ok []
  | (k, x) :: m => match Render x env with Ok r => rs ← render_entries env m; Ok ((k, r) :: rs) | Err e => Err (AtKey k e) end
  end.

Lemma Render_list l env : Render (VList l) env = l' ← render_items env 0 l; Ok (VList l').
Proof.
  cbn [Render]. f_equal. generalize 0%nat. induction l as [|x l IH]; intros i; [done|]. cbn. destruct (Render x env); [by rewrite IH|done].
Qed.
Lemma Render_map m env : Render (VMap m) env = m' ← render_entries env m; Ok (VMap m').
Proof. cbn [Render]. f_equal. induction m as [|[k x] m IH]; [done|]. cbn. destruct (Render x env); [by rewrite IH|done]. Qed.

(** [r] is a result, or the one error that is left. *)
Definition fine {A} (r : result templateError A) : Prop := match r with Ok _ => True | Err e => cannot_order e end.

Lemma render_items_fine env l : forall i, Forall (fun v => fine (Render v env)) l -> fine (render_items env i l).
Proof.
  induction l as [|v l IH]; intros i Hr; [done|]. apply Forall_cons in Hr as [Hv Hr]. cbn. destruct (Render v env); [|exact Hv].
  specialize (IH (S i) Hr). by destruct (render_items env (S i) l).
Qed.

Lemma render_entries_fine env m : Forall (fun kv => fine (Render kv.2 env)) m ->
  match render_entries env m with
  | Ok m' => map fst m' = map fst m /\ forall k x r, assoc k m = Some x -> assoc k m' = Some r -> Render x env = Ok r
  | Err e => cannot_order e
  end.
Proof.
  induction m as [|[k v] m IH]; intros Hr; [by split|]. apply Forall_cons in Hr as [Hv Hr]. cbn in Hv |- *. destruct (Render v env) as [r|] eqn:Ev; [|exact Hv].
  specialize (IH Hr). destruct (render_entries env m) as [m'|]; [|done]. destruct IH as [IH1 IH2]. cbn. split; [by rewrite IH1|]. intros k' x r'.
  case_decide; [by intros [= <-] [= <-]|apply IH2].
Qed.

Lemma Render_fine v env : well_keyed v -> (forall x, text_in x v -> renders x) -> fine (Render v env).
Proof.
  induction v as [|b|f|n|s|l IH|m IH|l|m|l IH] using value_deep_ind; intros Hw Hx; try done.
  - apply RenderString_renders, Hx, text_here.
  - pose proof (wk_list_inv _ Hw) as Hl. rewrite Render_list. enough (fine (render_items env 0 l)) by by destruct (render_items env 0 l).
    apply render_items_fine. rewrite Forall_forall in IH, Hl |- *. intros v Hv. apply IH; [done|by apply Hl|]. intros x Hxv. by apply Hx, (text_list _ _ v).
  - destruct (wk_map_inv _ Hw) as [Hnd Hl]. rewrite Render_map. pose proof (render_entries_fine env m) as H.
    enough (Forall (fun kv => fine (Render kv.2 env)) m) as He by (specialize (H He); by destruct (render_entries env m)).
    rewrite Forall_forall in IH, Hl |- *. intros [k v] Hkv. apply (IH (k, v)); [done|by apply (Hl (k, v))|]. intros x Hxv.
    apply Hx, (text_map _ _ k v); [by apply assoc_NoDup|done].
Qed.

(** A step's configuration: the expressions stay, everything else is rendered. *)
Lemma render_spec t cfg env : well_keyed (VMap cfg) -> (forall x, text_in x (VMap cfg) -> renders x) ->
  match render t cfg env with
  | Ok cfg' => forall k, if decide (k ∈ dExpressions t) then assoc k cfg' = assoc k cfg
                         else match assoc k cfg with Some x => exists r, assoc k cfg' = Some r /\ Render x env = Ok r | None => assoc k cfg' = None end
  | Err e => cannot_order e
  end.
Proof.
  intros Hw Hx. destruct (wk_map_inv _ Hw) as [Hnd Hl].
  assert (NoDup (map fst (filter (is_expr t) cfg))) as Hk by (apply (sublist_NoDup _ (map fst cfg)); [done|]; apply fmap_sublist, sublist_filter).
  pose proof (render_entries_fine env (filter (fun kv => ~ is_expr t kv) cfg)) as He. ospecialize (He _).
  { rewrite Forall_forall in Hl |- *. intros [k v] [_ Hkv]%list_elem_of_filter. apply Render_fine; [by apply (Hl (k, v))|].
    intros x Hxv. apply Hx, (text_map _ _ k v); [by apply assoc_NoDup|done]. }
  unfold render. rewrite Render_map. destruct (render_entries env _) as [m'|e]; [|exact He]. cbn [mbind result_mbind]. destruct He as [Hm' Hr].
  intros k. rewrite assoc_fold by done.
  assert (assoc k (filter (is_expr t) cfg) = if decide (k ∈ dExpressions t) then assoc k cfg else None) as H1
    by exact (assoc_filter (fun k => k ∈ dExpressions t) k cfg).
  assert (assoc k (filter (fun kv => ~ is_expr t kv) cfg) = if decide (k ∉ dExpressions t) then assoc k cfg else None) as H2
    by exact (assoc_filter (fun k => k ∉ dExpressions t) k cfg).
  assert (is_Some (assoc k m') <-> is_Some (assoc k (filter (fun kv => ~ is_expr t kv) cfg))) as Hs by (by rewrite !assoc_is_Some, Hm').
  specialize (Hr k). rewrite H1. rewrite H2 in Hr, Hs. destruct (decide (k ∈ dExpressions t)) as [Hin|Hin].
  - rewrite decide_False in Hs by tauto. destruct (assoc k cfg); [done|]. destruct (assoc k m') eqn:E; [|done]. by destruct (proj1 Hs ltac:(eauto)) as [? ?].
  - rewrite decide_True in Hr, Hs by done. destruct (assoc k cfg) as [x|].
    + destruct (proj2 Hs ltac:(eauto)) as [r E]. exists r. split; [done|]. by apply (Hr x r).
    + destruct (assoc k m') eqn:E; [|done]. by destruct (proj1 Hs ltac:(eauto)) as [? ?].
Qed.

(** ** What is left to go wrong *)
Definition logic_steps : list string := ["logic.condition"; "logic.switch"; "logic.set_variable"; "logic.stop"; "logic.approval"]%string.

(** The errors of a published step: an ordering, a rule's operator (rules are read when
    the step runs), a condition that was left empty or whose expression is no text, and a
    variable's name that a reference leaves blank. *)
Definition step_error (n : Node) (e : stepError) : Prop :=
  match e with
  | RuleOrder _ (CannotCompare _ op _) | SEval (CannotCompare _ op _) => op ∈ ordered_ops
  | RuleOperator _ _ => nType n = "logic.condition"%string
  | NoRules => nType n = "logic.condition"%string /\ forall s, field "expression" (nConfig n) = VStr s -> TrimSpace s = ""%string
  | SExpr _ => forall s, field "expression" (nConfig n) <> VStr s
  | NoVariable => forall s, field "name" (nConfig n) = VStr s -> HasTemplate s = true
  | NotHere => nType n ∉ logic_steps
  | _ => False
  end.

Definition port_known (t : decl) (cfg : list (string * value)) (r : Result) : Prop :=
  RPort r = ""%string \/ RPort r ∈ dBranches t \/ (dType t = "logic.switch"%string /\ RPort r ∈ map snd (SwitchCases (field "cases" cfg))).

Lemma EvalRule_sat l op r : match EvalRule l op r with Some (Err (CannotCompare _ o _)) => o ∈ ordered_ops | Some (Err _) => False | _ => True end.
Proof.
  unfold EvalRule. destruct (decide (op ∈ compare_ops)) as [Hop|]; [|repeat case_decide; done].
  pose proof (Compare_sat op l r) as H. ospecialize (H _); [revert Hop; unfold compare_ops, cmpOps; set_solver|].
  destruct (Compare op l r) as [|[]]; try done. by destruct H as [-> ?].
Qed.

Lemma rules_loop_sat n all rules : nType n = "logic.condition"%string -> forall i m,
  match rules_loop all i m rules with Ok _ => True | Err e => step_error n e end.
Proof.
  intros Hn. induction rules as [|raw rules IH]; intros i m; [done|]. cbn [rules_loop].
  pose proof (EvalRule_sat (field "left" (rule_fields raw)) (Stringify (field "op" (rule_fields raw))) (field "right" (rule_fields raw))) as H.
  destruct (EvalRule _ _ _) as [[hit|e]|]; [|by destruct e|done].
  specialize (IH (S i) (if all then m && hit else m || hit)). by destruct (rules_loop all (S i) _ rules) as [[]|].
Qed.

Lemma execCondition_sat n cfg env :
  nType n = "logic.condition"%string -> field "expression" cfg = field "expression" (nConfig n) ->
  (let s := asString (field "expression" (nConfig n)) in TrimSpace s = ""%string \/ exists e, Parse (stripBraces s) = Ok e) ->
  match execCondition cfg env with Ok r => RPort r ∈ ["true"; "false"]%string | Err e => step_error n e end.
Proof.
  intros Hn Hf Hs.
  assert (forall b, truth_port b ∈ ["true"; "false"]%string) as Hb by (intros []; [left|right; left]).
  assert (match (let src := TrimSpace (in_String cfg "expression") in
      if decide (src = ""%string) then Err NoRules
      else v ← in_Eval env src; Ok (port_result (truth_port (Truthy v)) (VMap [("result", VBool (Truthy v)); ("value", v)])%string true))
    with Ok r => RPort r ∈ ["true"; "false"]%string | Err e => step_error n e end) as He.
  { cbn zeta. unfold in_String. rewrite Hf. case_decide as Hb0.
    { split; [done|]. intros s E. by rewrite E in Hb0. }
    unfold in_Eval. rewrite stripBraces_trim. unfold Eval.
    destruct (Parse _) as [e|e] eqn:Ep; cbn [mbind result_mbind].
    - pose proof (Parse_sat (stripBraces (match field "expression" (nConfig n) with VNull => "" | v => Stringify v end))) as Hw. rewrite Ep in Hw.
      pose proof (eval_sat env e Hw) as Hv. destruct (eval e env) as [v|[]]; cbn in Hv |- *; first [done|apply Hb|apply Hv].
    - intros s E. rewrite E in Hs, Ep, Hb0. cbn in Hs, Ep, Hb0. destruct Hs as [?|[e' He']]; [done|]. by rewrite He' in Ep. }
  unfold execCondition. destruct (field "rules" cfg) as [| | | | |[|r rules]| | | |]; try exact He.
  pose proof (rules_loop_sat n (bool_decide (in_String cfg "match" <> "any"%string)) (r :: rules) Hn 0 (bool_decide (in_String cfg "match" <> "any"%string))) as H.
  cbn zeta. destruct (rules_loop _ _ _ _) as [[m rs]|e]; [apply Hb|exact H].
Qed.

Lemma execSwitch_port cfg : RPort (execSwitch cfg) = "default"%string \/ RPort (execSwitch cfg) ∈ map snd (SwitchCases (field "cases" cfg)).
Proof.
  unfold execSwitch. destruct (List.find _ _) as [c|] eqn:E; [right|by left]. apply List.find_some in E as [E _].
  apply list_elem_of_fmap. exists c. split; [done|]. by apply list_elem_of_In.
Qed.

Lemma Get_builtin typ t : Get NewRegistry typ = Some t -> t ∈ builtin_decls /\ dType t = typ.
Proof.
  intros H. unfold Get in H. assert (forall r, fold_left (fun r t => Register t r) builtin_decls r !! typ = Some t -> (t ∈ builtin_decls /\ dType t = typ) \/ r !! typ = Some t) as Hf.
  { generalize builtin_decls. induction l as [|u l IH]; intros r; [by right|]. cbn. intros [[? ?]|Hr]%IH; [left; split; [by right|done]|].
    change ((<[dType u := u]> (r : gmap string decl)) !! typ = Some t) in Hr. destruct (decide (dType u = typ)) as [<-|]; [rewrite lookup_insert_eq in Hr; injection Hr as ->; left; split; [left|done]|].
    rewrite lookup_insert_ne in Hr by done. by right. }
  destruct (Hf ∅ H) as [?|?]; done.
Qed.

Lemma execSetVariable_sat t n cfg env : nType n = "logic.set_variable"%string -> dExpressions t = [] ->
  isBlank (field "name" (nConfig n)) = false ->
  (match assoc "name" (nConfig n) with Some x => exists r, assoc "name" cfg = Some r /\ Render x env = Ok r | None => assoc "name" cfg = None end)%string ->
  match execSetVariable cfg with Ok r => port_known t cfg r | Err e => step_error n e end.
Proof.
  intros Hn Ht Hb Hr. unfold execSetVariable. case_decide as Hd; [|by left]. intros s E. destruct (HasTemplate s) eqn:Et; [done|].
  unfold field in E, Hb. destruct (assoc "name"%string (nConfig n)) as [x|]; [|done]. cbn in E. subst x.
  destruct Hr as (r & Hr & Hx). cbn in Hx. unfold RenderString in Hx. rewrite Et in Hx. cbn in Hx. injection Hx as <-.
  unfold in_String, field in Hd. rewrite Hr in Hd. cbn in Hd. cbn [default isBlank] in Hb. apply bool_decide_eq_false in Hb. done.
Qed.

(** A step's required fields are filled and its expressions parse. *)
Definition config_ok (t : decl) (cfg : list (string * value)) : Prop :=
  Forall (fun key => isBlank (field key cfg) = false) (Required (spec_of_decl t)) /\
  Forall (fun key => let s := asString (field key cfg) in TrimSpace s = ""%string \/ exists e, Parse (stripBraces s) = Ok e) (dExpressions t).

Lemma Execute_sat t n cfg env : Get NewRegistry (nType n) = Some t -> config_ok t (nConfig n) ->
  (forall k, if decide (k ∈ dExpressions t) then assoc k cfg = assoc k (nConfig n)
             else match assoc k (nConfig n) with Some x => exists r, assoc k cfg = Some r /\ Render x env = Ok r | None => assoc k cfg = None end) ->
  match Execute (nType n) cfg env with Ok r => port_known t cfg r | Err e => step_error n e end.
Proof.
  intros Hg [Hreq Hexp] Hcfg. destruct (Get_builtin _ _ Hg) as [Hin Hty]. unfold Execute.
  assert (nType n ∉ logic_steps -> match @Err stepError Result NotHere with Ok r => port_known t cfg r | Err e => step_error n e end) as Hnot by done.
  unfold logic_steps in Hnot. rewrite !elem_of_cons, elem_of_nil in Hnot.
  destruct (decide (nType n = "logic.condition"%string)) as [Hn|H1].
  { assert (t = mkDecl "logic.condition" ["true"; "false"] [("match", false); ("rules", false); ("expression", false)] false false ["expression"] "")%string as ->
      by (rewrite Hn in Hg; vm_compute in Hg; by injection Hg).
    pose proof (execCondition_sat n cfg env Hn) as H. ospecialize (H _ _).
    - specialize (Hcfg "expression"%string). rewrite decide_True in Hcfg by left. unfold field. by rewrite Hcfg.
    - by apply Forall_cons in Hexp as [? _].
    - destruct (execCondition cfg env); [right; left; exact H|exact H]. }
  destruct (decide (nType n = "logic.switch"%string)) as [Hn|H2].
  { rewrite Hn in Hty, Hg. destruct (execSwitch_port cfg) as [Hp|Hp]; [right; left|right; right; by split].
    rewrite Hp. vm_compute in Hg. injection Hg as <-. left. }
  destruct (decide (nType n = "logic.set_variable"%string)) as [Hn|H3].
  { rewrite Hn in Hg. vm_compute in Hg. injection Hg as <-. apply (execSetVariable_sat _ n cfg env Hn); [done| |].
    - by apply Forall_cons in Hreq as [? _].
    - specialize (Hcfg "name"%string). by rewrite decide_False in Hcfg by (cbn; set_solver). }
  destruct (decide (nType n = "logic.stop"%string)); [by left|]. destruct (decide (nType n = "logic.approval"%string)); [by left|].
  apply Hnot. tauto.
Qed.

End run.

(** ** Examples *)
Definition run_flow : Definition_ := demo_flow
  [demo_step "check" "logic.condition" [("expression", VStr "{{ trigger.percent >= 85 }}")]; demo_step "a" "logic.set_variable" [("name", VStr "{{ trigger.name }}"); ("value", VList [VStr "at {{ trigger.percent }}%"])]]%string
  [mkEdge TriggerID "check" ""; mkEdge "check" "a" "true"]%string.
Definition run_env : list (string * value) := [("trigger", VMap [("name", VStr "web"); ("percent", VStr "91")])]%string.
Definition run_step_ex (n : Node) : option (result stepError Result) :=
  match Get NewRegistry (nType n) with
  | Some t => match render (CT := ascii_tables) (PT := ascii_print) t (nConfig n) run_env with
              | Ok cfg => Some (Execute (CT := ascii_tables) (PT := ascii_print) (nType n) cfg run_env)
              | Err _ => None
              end
  | None => None
  end.

Example run_ex : map (fun n => match run_step_ex n with Some (Ok r) => Some (RPort r, RVars r) | _ => None end) (Nodes run_flow)
  = [Some ("true", []); Some ("", [("web", VList [VStr "at 91%"])])]%string.
Proof. vm_compute. reflexivity. Qed.

