(* ===== verification/EngineStatus.v ===== *)
(** * The status a call of [step] leaves

    A run that is parked or left for the next call still holds its slot; only [finish]
    gives it a status of the end. *)
From S2P Require Export Engine.
From S2P Require Import Value FlowDef.

Section status.
Context `{CT : CaseTables} (redactText : string -> string) (jsonLen : value -> option Z).
Context (registry : string -> option NodeType) (def : Definition_) (owners : gmap string string).

Definition holds_slot (s : run_status) : bool :=
  match s with RunPending | RunRunning | RunWaiting | RunWaitingApproval => true | _ => false end.

(** How a turn or a call may end: the row holds its slot, or was finished. *)
Definition lands (p : stepper * option return_) : Prop :=
  match p.2 with
  | None | Some Parked | Some LeftForNext => holds_slot (rStatus (x_run p.1)) = true
  | _ => True
  end.

Lemma run_fold {A} (f : stepper -> A -> stepper) l x : (forall x a, x_run (f x a) = x_run x) -> x_run (fold_left f l x) = x_run x.
Proof using Type. intros Hf. revert x. induction l as [|a l IH]; intros x; cbn; [done|]. by rewrite IH. Qed.

Lemma run_applyReports x t o : x_run (applyReports x t o) = x_run x.
Proof using Type.
  unfold applyReports. set (y := if HasRules _ then _ else _). assert (x_run y = x_run x) as E by (subst y; destruct (HasRules _); [done|by case_decide]).
  clearbody y. case_decide; [|done]. by rewrite run_fold.
Qed.

Lemma run_startLoop now json a x id : x_run (startLoop def now json a x id) = x_run x.
Proof using Type.
  unfold startLoop. destruct (aRender a) as [cfg|e]; [|done]. cbv zeta. match goal with |- x_run (match ?m with Some _ => _ | None => _ end) = _ => destruct m end; [|done]. repeat (case_decide; cbv iota beta); done.
Qed.

Lemma run_nextIteration x y : nextIteration redactText jsonLen x = Some y -> x_run y = x_run x.
Proof using Type. unfold nextIteration. destruct (Frames (x_st x)) as [|f [|p fs]]; [done..|]. case_decide; by intros [= <-]. Qed.

Lemma run_runBatch t x ids : x_run (runBatch registry def t x ids).1 = x_run x.
Proof using Type. unfold runBatch. cbn [fst]. by rewrite run_fold. Qed.

Lemma lands_applyError x now n o e ns : holds_slot (rStatus (x_run x)) = true -> lands (applyError redactText jsonLen registry def x now n o e ns).
Proof using Type. intros H. unfold applyError. destruct (canRetry _ _ _ _ _ _); [done|]. cbv zeta. case_decide; [done|]. by case_decide. Qed.

Lemma lands_applySuccess x now t o ns : holds_slot (rStatus (x_run x)) = true -> lands (applySuccess redactText jsonLen x now t o ns).
Proof using Type.
  intros H. unfold applySuccess. cbv zeta. set (y := applyReports _ _ _). assert (x_run y = x_run x) as E by (subst y; by rewrite run_applyReports).
  clearbody y. rewrite <- E in H. destruct (Stop (o_res o)); [done|]. unfold lands. cbn [fst snd].
  destruct (WaitUntil (o_res o)), (rDry (x_run x)), (WaitApproval (o_res o)); try done; by case_decide.
Qed.

Lemma lands_applyAll t x os : holds_slot (rStatus (x_run x)) = true -> lands (applyAll redactText jsonLen registry def t x os).
Proof using Type.
  revert x. induction os as [|o os IH]; intros x H; cbn [applyAll]; [done|].
  assert (lands (Engine.apply redactText jsonLen registry def t x o)) as Ho.
  { unfold Engine.apply. destruct (findNode def (o_id o)); [|done]. destruct (o_err o); [by apply lands_applyError|by apply lands_applySuccess]. }
  destruct (Engine.apply _ _ _ _ t x o) as [y [r|]]; [done|]. by apply IH.
Qed.

Lemma lands_park now deadline ok x p : park now deadline ok x = Some p -> lands (p.1, Some p.2).
Proof using Type.
  unfold park. destruct (earliest (frame x)); [case_decide|destruct (approvalPending _); [|done]]; intros [= <-]; cbn; try done; by destruct ok.
Qed.

Lemma lands_turn t x : holds_slot (rStatus (x_run x)) = true -> lands (turn redactText jsonLen registry def owners t x).
Proof using Type.
  intros H. unfold turn. case_decide; [done|]. destruct (tCtxDone t); [unfold lands; cbn; by destruct (tSaveOK t)|]. cbv zeta.
  case_decide; [done|]. destruct (Frames (x_st x)) as [|f fs]; [done|]. set (y := setFrame x _). assert (x_run y = x_run x) as E by done. clearbody y.
  rewrite <- E in H. destruct (ready def owners (frame y)) as [rd sk]. case_decide; [unfold lands; cbn; by rewrite run_fold|].
  case_decide.
  - destruct (park _ _ _ y) as [[z r]|] eqn:Ep; [by apply lands_park in Ep|]. case_decide; [|done].
    destruct (nextIteration _ _ y) as [z|] eqn:En; [|done]. apply run_nextIteration in En. unfold saving, lands. cbn. rewrite En. by destruct (tSaveOK t).
  - case_decide; [done|]. destruct (firstLoop registry def rd).
    + unfold saving, lands. cbn [fst snd]. rewrite run_startLoop. by destruct (tSaveOK t).
    + set (ids := if decide _ then _ else rd). pose proof (run_runBatch t y ids) as Eb. destruct (runBatch registry def t y ids) as [z os]. cbn in Eb. rewrite <- Eb in H.
      pose proof (lands_applyAll t z (map fst os) H) as Ha. destruct (applyAll _ _ _ _ t z _) as [z' [r|]]; [done|]. unfold saving, lands in *. cbn in *. by destruct (tSaveOK t).
Qed.

Lemma step_lands fuel now save0 ticks run st x r :
  step redactText jsonLen registry def owners fuel now save0 ticks run st = Some (x, r) -> lands (x, Some r).
Proof using Type.
  unfold step. destruct (recoverInterrupted registry def (Frames st)) as [fs failed]. cbv zeta. destruct (negb save0); [intros [= <- <-]; done|].
  case_decide; [intros [= <- <-]; done|]. set (y := mkX _ _). assert (holds_slot (rStatus (x_run y)) = true) as Hy by done. clearbody y.
  revert ticks y Hy. induction fuel as [|fuel IH]; intros ticks y Hy; cbn [step_loop]; [done|].
  pose proof (lands_turn (ticks 0%nat) y Hy) as Ht. destruct (turn _ _ _ _ _ _ y) as [z [s|]]; [intros [= <- <-]; done|]. by apply IH.
Qed.
End status.
