(* ===== verification/AutoStore.v ===== *)
(** * The store of the automations ([src/internal/appdb/automation.go], [automation_memory.go])

    The rows of flows, versions, schedules and runs, and the in-memory store's operations
    on them, in a state-and-error monad.  A step of the monad may consult the outside
    world: the clock, the random identifiers, the order in which Go walks a map, and
    whether a call of the store fails, which it then does without any effect (the
    PostgreSQL store's failures).  Columns of JSON are held decoded. *)
From stdpp Require Import sorting.
From S2P Require Export Engine.
From S2P Require Import GoNum Civil Value FlowDef.

(** ** Rows *)
Inductive auto_status := AutoRunQueued | AutoRunDropped | AutoRun (s : run_status).
#[export] Instance auto_status_eq_dec : EqDecision auto_status.
Proof. solve_decision. Defined.

Definition status_text (s : auto_status) : string :=
  match s with
  | AutoRunQueued => "queued" | AutoRunDropped => "dropped"
  | AutoRun RunPending => "pending" | AutoRun RunRunning => "running" | AutoRun RunWaiting => "waiting"
  | AutoRun RunWaitingApproval => "waiting_approval" | AutoRun RunSucceeded => "succeeded"
  | AutoRun RunFailed => "failed" | AutoRun RunCancelled => "cancelled"
  end.

Definition AutoRunActive (s : auto_status) : bool :=
  match s with AutoRun (RunPending | RunRunning | RunWaiting | RunWaitingApproval) => true | _ => false end.
Definition AutoRunFinished (s : auto_status) : bool :=
  match s with AutoRun (RunSucceeded | RunFailed | RunCancelled) | AutoRunDropped => true | _ => false end.

(** A draft or definition is [None] when its text is not a definition.  The cluster's name
    of a flow is [fName]; descriptions and authors are left out. *)
Record AutomationFlow := mkFlow {
  fID : string; fCluster : string; fName : string; Draft : option Definition_; PublishedVersion : Z; Enabled : bool;
  fTriggerKind : string; fEventKind : string; fLimits : Limits; DryRunHash : string; ConsecutiveFailures : Z;
  DisabledReason : string; fCreatedAt : Z; PendingVersion : Z; DraftTainted : bool; LegacyPolicyID : string }.

Inductive version_status := FlowVersionApproved | FlowVersionPending | FlowVersionDenied | FlowVersionSuperseded.
#[export] Instance version_status_eq_dec : EqDecision version_status.
Proof. solve_decision. Defined.

(** A step that needs approval; its name and the reason's text are left out. *)
Inductive protected_kind := protectedHarmful | protectedOwnAPI.
#[export] Instance protected_kind_eq_dec : EqDecision protected_kind.
Proof. solve_decision. Defined.
Record protectedStep := mkProtected { psNode : string; psType : string; psKind : protected_kind }.

Record AutomationFlowVersion := mkVersion {
  vFlow : string; vCluster : string; vVersion : Z; vDefinition : option Definition_; vStatus : version_status; vHash : string;
  NeedsApproval : bool; vProtected : list protectedStep; Exempt : bool; RequestedByID : string; DecidedBy : string }.

Record AutomationSchedule := mkSchedule {
  sFlow : string; sCluster : string; sPreset : string; sCron : string; sTimezone : string; NextRunAt : option Z; LastKey : string }.

(** [aDry] is the mode: a test run or a live one. *)
Record AutomationRun := mkARun {
  aID : string; aCluster : string; aFlow : string; aVersion : Z; aDry : bool; aStatus : auto_status;
  aTriggerKind : string; aPayload : value; aInputs : value; aDefinition : option Definition_; aState : State;
  aReport : option (bool * list ReportLine); IdempotencyKey : string; CorrelationID : string; CausedByRun : string;
  ChainDepth : Z; RetryOf : string; ActorID : string; StartedBy : string; aError : string; aWakeAt : option Z;
  LeaseOwner : string; LeaseUntil : option Z; aStartedAt : option Z; aFinishedAt : option Z; aCreatedAt : Z }.

(** The assignments the code makes to a run. *)
Definition set_progress (s : auto_status) (err : string) (wake finished : option Z) (r : AutomationRun) : AutomationRun :=
  mkARun (aID r) (aCluster r) (aFlow r) (aVersion r) (aDry r) s (aTriggerKind r) (aPayload r) (aInputs r) (aDefinition r) (aState r)
    (aReport r) (IdempotencyKey r) (CorrelationID r) (CausedByRun r) (ChainDepth r) (RetryOf r) (ActorID r) (StartedBy r) err wake
    (LeaseOwner r) (LeaseUntil r) (aStartedAt r) finished (aCreatedAt r).
Definition set_status (s : auto_status) (r : AutomationRun) : AutomationRun :=
  set_progress s (aError r) (aWakeAt r) (aFinishedAt r) r.
Definition set_state (st : State) (r : AutomationRun) : AutomationRun :=
  mkARun (aID r) (aCluster r) (aFlow r) (aVersion r) (aDry r) (aStatus r) (aTriggerKind r) (aPayload r) (aInputs r) (aDefinition r) st
    (aReport r) (IdempotencyKey r) (CorrelationID r) (CausedByRun r) (ChainDepth r) (RetryOf r) (ActorID r) (StartedBy r) (aError r) (aWakeAt r)
    (LeaseOwner r) (LeaseUntil r) (aStartedAt r) (aFinishedAt r) (aCreatedAt r).
Definition set_lease (owner : string) (until : option Z) (created : Z) (r : AutomationRun) : AutomationRun :=
  mkARun (aID r) (aCluster r) (aFlow r) (aVersion r) (aDry r) (aStatus r) (aTriggerKind r) (aPayload r) (aInputs r) (aDefinition r) (aState r)
    (aReport r) (IdempotencyKey r) (CorrelationID r) (CausedByRun r) (ChainDepth r) (RetryOf r) (ActorID r) (StartedBy r) (aError r) (aWakeAt r)
    owner until (aStartedAt r) (aFinishedAt r) created.
(** What a step of the engine changes of the row: its [Run] and state. *)
Definition set_engine (x : stepper) (r : AutomationRun) : AutomationRun :=
  mkARun (aID r) (aCluster r) (aFlow r) (aVersion r) (aDry r) (AutoRun (rStatus (x_run x))) (aTriggerKind r) (aPayload r) (aInputs r) (aDefinition r)
    (x_st x) (match rReportOK (x_run x) with Some ok => Some (ok, Report (x_st x)) | None => aReport r end)
    (IdempotencyKey r) (CorrelationID r) (CausedByRun r) (ChainDepth r) (RetryOf r) (ActorID r) (StartedBy r)
    (rError (x_run x)) (rWakeAt (x_run x)) (LeaseOwner r) (LeaseUntil r) (rStartedAt (x_run x)) (rFinishedAt (x_run x)) (aCreatedAt r).

(** The zero [time.Time]. *)
Definition zero_time : Z := - 62135596800 * 10 ^ 9.

Record RunLog := mkRunLog { lRun : string; lLevel : string; lMessage : string; lAt : Z }.

Record store := mkStore {
  flows : gmap string AutomationFlow; versions : gmap string AutomationFlowVersion;
  schedules : gmap string AutomationSchedule; runs : gmap string AutomationRun;
  nodeRuns : gmap string NodeState; logs : list RunLog }.

(** ** The monad *)
Inductive emitted :=
  | EAudit (cluster actor action result detail : string)
  | ENotify (cluster kind : string) (payload : list (string * string))
  | EWake
  | ELog (text : string).

Inductive svcError :=
  | StoreDown | FlowMissing | FlowExists | NameTaken | VersionExists | ErrNotPending | RunExists | RunMissing
  | ErrNotFound | ErrNotPublished | ErrDisabled | ErrNotApproved | BadDefinition
  | RunNotFound | AlreadyFinished | NotFinished | NotWaiting_ | ErrBusy | BadSchedule.
#[export] Instance svcError_eq_dec : EqDecision svcError.
Proof. solve_decision. Defined.

(** The process: the store, the service's own maps ([debounce], [defs]), the runs the
    engine is stepping with who cancelled them, what was emitted, and how often the
    outside world was consulted. *)
Record world := mkW {
  tick : nat; db : store; debounce : gmap string Z; defs : gmap string Definition_;
  running : gmap string string; trace : list emitted }.

Record outside := mkOutside {
  clock : nat -> Z;
  uuid : nat -> string;
  walk : forall A : Type, nat -> list A -> list A;
  fails : nat -> bool }.

Definition M (A : Type) : Type := world -> result svcError A * world.
#[export] Instance M_ret : MRet M := fun A a w => (Ok a, w).
#[export] Instance M_bind : MBind M := fun A B f m w =>
  match m w with (Ok a, w') => f a w' | (Err e, w') => (Err e, w') end.
#[export] Instance M_fmap : FMap M := fun A B f m => m ≫= fun a => mret (f a).
Definition throw {A} (e : svcError) : M A := fun w => (Err e, w).
(** An error that the code drops. *)
Definition attempt {A} (m : M A) : M (option A) := fun w =>
  match m w with (Ok a, w') => (Ok (Some a), w') | (Err _, w') => (Ok None, w') end.
Definition quiet {A} (m : M A) : M () := attempt m ≫= fun _ => mret ().

Definition catch {A} (m : M A) (h : svcError -> M A) : M A := fun w =>
  match m w with (Ok a, w') => (Ok a, w') | (Err e, w') => h e w' end.

Definition set_tick (k : nat) (w : world) : world := mkW k (db w) (debounce w) (defs w) (running w) (trace w).
Definition set_db (s : store) (w : world) : world := mkW (tick w) s (debounce w) (defs w) (running w) (trace w).
Definition set_flows (fs : gmap string AutomationFlow) (s : store) : store := mkStore fs (versions s) (schedules s) (runs s) (nodeRuns s) (logs s).
Definition set_versions (vs : gmap string AutomationFlowVersion) (s : store) : store := mkStore (flows s) vs (schedules s) (runs s) (nodeRuns s) (logs s).
Definition set_schedules (ss : gmap string AutomationSchedule) (s : store) : store := mkStore (flows s) (versions s) ss (runs s) (nodeRuns s) (logs s).
Definition set_runs (rs : gmap string AutomationRun) (s : store) : store := mkStore (flows s) (versions s) (schedules s) rs (nodeRuns s) (logs s).
Definition set_nodeRuns (ns : gmap string NodeState) (s : store) : store := mkStore (flows s) (versions s) (schedules s) (runs s) ns (logs s).
Definition set_logs (ls : list RunLog) (s : store) : store := mkStore (flows s) (versions s) (schedules s) (runs s) (nodeRuns s) ls.

Definition modify (f : world -> world) : M () := fun w => (Ok (), f w).
Definition get : M world := fun w => (Ok w, w).
Definition put_db (f : store -> store) : M () := modify (fun w => set_db (f (db w)) w).
Definition emit (e : emitted) : M () :=
  modify (fun w => mkW (tick w) (db w) (debounce w) (defs w) (running w) (trace w ++ [e])).

Section store.
Context (O : outside).

Definition consult {A} (f : nat -> A) : M A := fun w => (Ok (f (tick w)), set_tick (S (tick w)) w).
Definition time : M Z := consult (clock O).
Definition NewString : M string := consult (uuid O).
Definition ranged {A} (m : gmap string A) : M (list A) := consult (fun k => walk O A k (map_to_list m).*2).
(** A call of the store, which may fail. *)
Definition io {A} (body : store -> M A) : M A :=
  down ← consult (fails O);
  if down : bool then throw StoreDown else get ≫= fun w => body (db w).

(** ** Flows *)
Definition GetAutomationFlow (clusterID id : string) : M (option AutomationFlow) :=
  io (fun s => mret (f ← flows s !! id; if decide (fCluster f = clusterID) then Some f else None)).

Definition created_before (a b : AutomationFlow) : Prop := fCreatedAt a <= fCreatedAt b.
#[export] Instance created_before_dec a b : Decision (created_before a b).
Proof. unfold created_before. apply _. Defined.

Definition listens (clusterID kind eventKind : string) (f : AutomationFlow) : bool :=
  bool_decide (fCluster f = clusterID) && Enabled f && bool_decide (PublishedVersion f <> 0) && bool_decide (fTriggerKind f = kind) &&
  (bool_decide (eventKind = ""%string) || bool_decide (fEventKind f = eventKind)).
Definition ListAutomationFlowsByTrigger (clusterID kind eventKind : string) : M (list AutomationFlow) :=
  io (fun s => fs ← ranged (flows s); mret (merge_sort created_before (List.filter (listens clusterID kind eventKind) fs))).

Definition name_taken (f : AutomationFlow) (s : store) : bool :=
  existsb (fun g => bool_decide (fID g <> fID f) && bool_decide (fCluster g = fCluster f) && bool_decide (fName g = fName f)) (map_to_list (flows s)).*2.
Definition set_created (c : Z) (f : AutomationFlow) : AutomationFlow :=
  mkFlow (fID f) (fCluster f) (fName f) (Draft f) (PublishedVersion f) (Enabled f) (fTriggerKind f) (fEventKind f) (fLimits f) (DryRunHash f)
    (ConsecutiveFailures f) (DisabledReason f) c (PendingVersion f) (DraftTainted f) (LegacyPolicyID f).
Definition UpdateAutomationFlow (f : AutomationFlow) : M () :=
  io (fun s => match flows s !! fID f with
               | Some old => if decide (fCluster old <> fCluster f) then throw FlowMissing
                             else if name_taken f s then throw NameTaken
                             else put_db (fun s => set_flows (<[fID f := set_created (fCreatedAt old) f]> (flows s)) s)
               | None => throw FlowMissing
               end).

Definition versionKey (flowID : string) (v : Z) : string := flowID +:+ "#" +:+ Itoa v.
Definition GetAutomationFlowVersion (clusterID flowID : string) (version : Z) : M (option AutomationFlowVersion) :=
  io (fun s => mret (v ← versions s !! versionKey flowID version; if decide (vCluster v = clusterID) then Some v else None)).

(** ** Flows and versions, as the API changes them *)
Definition new_name_taken (f : AutomationFlow) (s : store) : bool :=
  existsb (fun g => bool_decide (fCluster g = fCluster f) && bool_decide (fName g = fName f)) (map_to_list (flows s)).*2.
Definition CreateAutomationFlow (f : AutomationFlow) : M () :=
  io (fun s => match flows s !! fID f with
               | Some _ => throw FlowExists
               | None => if new_name_taken f s then throw NameTaken
                         else now ← time;
                              let f := if decide (fCreatedAt f = zero_time) then set_created now f else f in
                              put_db (fun s => set_flows (<[fID f := f]> (flows s)) s)
               end).
Definition DeleteAutomationFlow (clusterID id : string) : M () :=
  io (fun s => match flows s !! id with
               | Some f => if decide (fCluster f <> clusterID) then mret ()
                           else put_db (fun s => set_versions (filter (fun p => vFlow p.2 <> id) (versions s))
                                                   (set_schedules (delete id (schedules s)) (set_flows (delete id (flows s)) s)))
               | None => mret ()
               end).
Definition CreateAutomationFlowVersion (v : AutomationFlowVersion) : M () :=
  io (fun s => match versions s !! versionKey (vFlow v) (vVersion v) with
               | Some _ => throw VersionExists
               | None => put_db (fun s => set_versions (<[versionKey (vFlow v) (vVersion v) := v]> (versions s)) s)
               end).
Definition set_decision (st : version_status) (by_ : string) (v : AutomationFlowVersion) : AutomationFlowVersion :=
  mkVersion (vFlow v) (vCluster v) (vVersion v) (vDefinition v) st (vHash v) (NeedsApproval v) (vProtected v) (Exempt v) (RequestedByID v) by_.
Definition DecideAutomationFlowVersion (clusterID flowID : string) (version : Z) (st : version_status) (by_ : string) : M () :=
  io (fun s => match versions s !! versionKey flowID version with
               | Some v => if decide (vCluster v <> clusterID \/ vStatus v <> FlowVersionPending) then throw ErrNotPending
                           else put_db (fun s => set_versions (<[versionKey flowID version := set_decision st by_ v]> (versions s)) s)
               | None => throw ErrNotPending
               end).
Definition newer_version (a b : AutomationFlowVersion) : Prop := vVersion b <= vVersion a.
#[export] Instance newer_version_dec a b : Decision (newer_version a b).
Proof. unfold newer_version. apply _. Defined.
Definition ListAutomationFlowVersions (clusterID flowID : string) : M (list AutomationFlowVersion) :=
  io (fun s => l ← ranged (versions s);
               mret (merge_sort newer_version (List.filter (fun v => bool_decide (vCluster v = clusterID) && bool_decide (vFlow v = flowID)) l))).
Definition ListAutomationFlows (clusterID : string) : M (list AutomationFlow) :=
  io (fun s => fs ← ranged (flows s); mret (merge_sort created_before (List.filter (fun f => bool_decide (clusterID = ""%string \/ fCluster f = clusterID)) fs))).

(** ** Schedules *)
Definition PutAutomationSchedule (sc : AutomationSchedule) : M () :=
  io (fun _ => put_db (fun s => set_schedules (<[sFlow sc := sc]> (schedules s)) s)).
Definition DeleteAutomationSchedule (clusterID flowID : string) : M () :=
  io (fun _ => put_db (fun s => match schedules s !! flowID with
                                | Some sc => if decide (sCluster sc = clusterID) then set_schedules (delete flowID (schedules s)) s else s
                                | None => s
                                end)).
Definition due (now : Z) (sc : AutomationSchedule) : bool := match NextRunAt sc with Some t => t <=? now | None => false end.
Definition sooner (a b : AutomationSchedule) : Prop := default 0 (NextRunAt a) <= default 0 (NextRunAt b).
#[export] Instance sooner_dec a b : Decision (sooner a b).
Proof. unfold sooner. apply _. Defined.
Definition limited {A} (limit : Z) (l : list A) : list A :=
  if decide (0 < limit /\ limit < Z.of_nat (length l)) then take (Z.to_nat limit) l else l.
Definition ListDueAutomationSchedules (now limit : Z) : M (list AutomationSchedule) :=
  io (fun s => l ← ranged (schedules s); mret (limited limit (merge_sort sooner (List.filter (due now) l)))).

(** ** Runs *)
Definition set_created_run (c : Z) (r : AutomationRun) : AutomationRun := set_lease (LeaseOwner r) (LeaseUntil r) c r.
Definition CreateAutomationRun (r : AutomationRun) : M () :=
  io (fun s => match runs s !! aID r with
               | Some _ => throw RunExists
               | None => now ← time;
                         let r := if decide (aCreatedAt r = zero_time) then set_created_run now r else r in
                         put_db (fun s => set_runs (<[aID r := r]> (runs s)) s)
               end).
Definition GetAutomationRun (clusterID id : string) : M (option AutomationRun) :=
  io (fun s => mret (r ← runs s !! id; if decide (clusterID <> ""%string /\ aCluster r <> clusterID) then None else Some r)).
(** The lease is only changed by [Claim] and [Release]. *)
Definition UpdateAutomationRun (r : AutomationRun) : M () :=
  io (fun s => match runs s !! aID r with
               | Some old => if decide (aCluster old <> aCluster r) then throw RunMissing
                             else put_db (fun s => set_runs (<[aID r := set_lease (LeaseOwner old) (LeaseUntil old) (aCreatedAt old) r]> (runs s)) s)
               | None => throw RunMissing
               end).

(** The filter with a flow and the live mode, as the service asks for it. *)
Definition live_of (clusterID flowID : string) (r : AutomationRun) : bool :=
  bool_decide (aCluster r = clusterID) && bool_decide (aFlow r = flowID) && negb (aDry r).
Definition newer_run (a b : AutomationRun) : Prop := aCreatedAt b <= aCreatedAt a.
#[export] Instance newer_run_dec a b : Decision (newer_run a b).
Proof. unfold newer_run. apply _. Defined.
Definition ListAutomationRuns (clusterID flowID : string) (limit : Z) : M (list AutomationRun) :=
  io (fun s => l ← ranged (runs s); mret (limited limit (merge_sort newer_run (List.filter (live_of clusterID flowID) l)))).

(** The same with a flow only. *)
Definition ListFlowRuns (clusterID flowID : string) (limit : Z) : M (list AutomationRun) :=
  io (fun s => l ← ranged (runs s);
               mret (limited limit (merge_sort newer_run (List.filter (fun r => bool_decide (aCluster r = clusterID) && bool_decide (flowID = ""%string \/ aFlow r = flowID)) l)))).

Definition has_key (clusterID flowID key : string) (since : Z) (r : AutomationRun) : bool :=
  live_of clusterID flowID r && bool_decide (IdempotencyKey r = key) && bool_decide (key <> ""%string) && (since <=? aCreatedAt r).
Definition FindAutomationRunByKey (clusterID flowID key : string) (since : Z) : M (option AutomationRun) :=
  io (fun s => l ← ranged (runs s); mret (List.find (has_key clusterID flowID key since) l)).

Definition counted (clusterID flowID : string) (since : Z) (r : AutomationRun) : bool :=
  live_of clusterID flowID r && (since <=? aCreatedAt r) && bool_decide (aTriggerKind r <> "manual"%string) && bool_decide (aStatus r <> AutoRunDropped).
Definition CountAutomationRunsSince (clusterID flowID : string) (since : Z) : M Z :=
  io (fun s => mret (Z.of_nat (length (List.filter (counted clusterID flowID since) (map_to_list (runs s)).*2)))).

Definition leased (now : Z) (r : AutomationRun) : bool := match LeaseUntil r with Some u => now <? u | None => false end.
Definition autoRunDue (now : Z) (r : AutomationRun) : bool :=
  match aStatus r with
  | AutoRun (RunPending | RunRunning) => negb (leased now r)
  | AutoRun RunWaiting => negb (leased now r) && match aWakeAt r with Some t => t <=? now | None => false end
  | _ => false
  end.
Definition older_run (a b : AutomationRun) : Prop := aCreatedAt a <= aCreatedAt b.
#[export] Instance older_run_dec a b : Decision (older_run a b).
Proof. unfold older_run. apply _. Defined.
Definition ListDueAutomationRuns (now limit : Z) : M (list AutomationRun) :=
  io (fun s => l ← ranged (runs s); mret (limited limit (merge_sort older_run (List.filter (autoRunDue now) l)))).

Definition claimable (owner : string) (now : Z) (r : AutomationRun) : bool :=
  negb (bool_decide (LeaseOwner r <> ""%string) && bool_decide (LeaseOwner r <> owner) && leased now r).
Definition ClaimAutomationRun (clusterID id owner : string) (now until : Z) : M bool :=
  io (fun s => match runs s !! id with
               | Some r => if decide (aCluster r <> clusterID) then mret false
                           else if claimable owner now r
                                then put_db (fun s => set_runs (<[id := set_lease owner (Some until) (aCreatedAt r) r]> (runs s)) s) ≫= fun _ => mret true
                                else mret false
               | None => mret false
               end).
Definition ReleaseAutomationRun (clusterID id owner : string) : M () :=
  io (fun s => match runs s !! id with
               | Some r => if decide (aCluster r <> clusterID \/ LeaseOwner r <> owner) then mret ()
                           else put_db (fun s => set_runs (<[id := set_lease "" None (aCreatedAt r) r]> (runs s)) s)
               | None => mret ()
               end).

Definition AddAutomationRunLog (l : RunLog) : M () := io (fun _ => put_db (fun s => set_logs (logs s ++ [l]) s)).
(** Of a step's row, its state. *)
Definition UpsertAutomationNodeRun (runID scope nodeID : string) (n : NodeState) : M () :=
  io (fun _ => put_db (fun s => set_nodeRuns (<[runID +:+ "/" +:+ scope +:+ "/" +:+ nodeID := n]> (nodeRuns s)) s)).
End store.
