(* ===== verification/Service.v ===== *)
(** * The automation service ([src/internal/automation/engine/service.go])

    Starting a run under idempotency, rate limits and the concurrency queue; what follows
    the end of a run (the circuit breaker, the next queued run); events, schedules,
    cancelling, retrying and test runs.  The operations are computations of the monad of
    [AutoStore]; a step of a run is the engine's ([Engine.step]). *)
From stdpp Require Import sorting.
From S2P Require Export AutoStore Validate.
From S2P Require Import FlowDef GoNum Civil Cron When Trigger Value Engine AutoStore.

(** ** Times as text, in UTC *)
Definition second_ns : Z := 10 ^ 9.
Definition minute_ns : Z := 60 * second_ns.
Definition hour_ns : Z := 60 * minute_ns.
Definition IdempotencyWindow : Z := 24 * hour_ns.
Definition MaxChainDepth : Z := 3.

(** The layouts ["2006-01-02T15:04"] and [time.RFC3339]. *)
Definition format_minute (ns : Z) : string :=
  let u := ns / second_ns in
  format_day (u / 86400) +:+ "T" +:+ appendInt (u mod 86400 / 3600) 2 +:+ ":" +:+ appendInt (u mod 3600 / 60) 2.
Definition RFC3339 (ns : Z) : string := format_minute ns +:+ ":" +:+ appendInt (ns / second_ns mod 60) 2 +:+ "Z".
Definition scheduleKey (ns : Z) : string := "schedule:" +:+ format_minute (ns / minute_ns * minute_ns).

(** ** Requests *)
Record StartRequest := mkStart {
  qCluster : string; qFlow : string; qTriggerKind : string; qPayload : list (string * value); qInputs : list (string * value);
  qKey : string; qActor : string; qStartedBy : string; qCausedByRun : string; qChainDepth : Z; qRetryOf : string;
  UserStarted : bool; qDryRun : bool; qDraft : bool; qDefinition : option Definition_; qVersion : Z; qReport : list ReportLine }.
Record StartResult := mkStarted { sRun : AutomationRun; Existing : bool; Dropped : bool }.

Record Event := mkEvent {
  evCluster : string; evKind : string; evTarget : string; evNode : string; evActor : string; evCausedBy : string;
  evPayload : list (string * value); evAt : Z }.

Definition FlowLimits (f : AutomationFlow) : Limits := Normalized (fLimits f).

Definition set_health (enabled : bool) (failures : Z) (reason : string) (f : AutomationFlow) : AutomationFlow :=
  mkFlow (fID f) (fCluster f) (fName f) (Draft f) (PublishedVersion f) enabled (fTriggerKind f) (fEventKind f) (fLimits f) (DryRunHash f)
    failures reason (fCreatedAt f) (PendingVersion f) (DraftTainted f) (LegacyPolicyID f).
Definition set_dry_hash (h : string) (f : AutomationFlow) : AutomationFlow :=
  mkFlow (fID f) (fCluster f) (fName f) (Draft f) (PublishedVersion f) (Enabled f) (fTriggerKind f) (fEventKind f) (fLimits f) h
    (ConsecutiveFailures f) (DisabledReason f) (fCreatedAt f) (PendingVersion f) (DraftTainted f) (LegacyPolicyID f).

(** ** WHEN results as lines, and the data of an event *)
Definition WhenLines (matched : bool) (results : list ConditionResult) : list ReportLine :=
  let text := match results with
              | [] => "no WHEN conditions: every event of this kind starts the flow"
              | _ => if matched then "the WHEN conditions match" else "the WHEN conditions do not match, so the flow would not start"
              end%string in
  [mkLine TriggerID "" "when" text (Some matched)].

Definition EventPayload (ev : Event) : list (string * value) :=
  assoc_set "event" (VMap [("kind", VStr (evKind ev)); ("target", VStr (evTarget ev)); ("node_id", VStr (evNode ev));
                           ("actor_id", VStr (evActor ev)); ("at", VStr (RFC3339 (evAt ev)))]%string) (evPayload ev).

Section service.
Context {CT : CaseTables} {PT : PrintTables} {cat : Catalog}.
Context (O : outside) (LoadLocation : string -> option Location) (cronFuel : nat).
Context (redactText : string -> string) (jsonLen : value -> option Z).
(** The hash of a definition's JSON text: hex of SHA-256. *)
Context (digest : Definition_ -> string).
(** The texts of problems and errors, and this worker's name on leases. *)
Context (message_text : message -> string) (error_text : svcError -> string) (Owner : string).

Notation Redact := (Redact redactText jsonLen).

(** Positions and names, which the hash leaves out, are not part of [Definition_]. *)
Definition DefinitionHash (d : option Definition_) : string := match d with Some d => digest d | None => "" end.

Definition parse (d : option Definition_) : M Definition_ := match d with Some d => mret d | None => throw BadDefinition end.

Definition set_defs (k : string) (d : Definition_) (w : world) : world :=
  mkW (tick w) (db w) (debounce w) (<[k := d]> (defs w)) (running w) (trace w).
Definition set_debounce (k : string) (t : Z) (w : world) : world :=
  mkW (tick w) (db w) (<[k := t]> (debounce w)) (defs w) (running w) (trace w).
Definition set_running (m : gmap string string) (w : world) : world :=
  mkW (tick w) (db w) (debounce w) (defs w) m (trace w).

Definition PublishedDefinition (f : AutomationFlow) : M Definition_ :=
  if decide (PublishedVersion f = 0) then throw ErrNotPublished
  else
    let key := versionKey (fID f) (PublishedVersion f) in
    w ← get;
    match defs w !! key with
    | Some d => mret d
    | None =>
        v ← GetAutomationFlowVersion O (fCluster f) (fID f) (PublishedVersion f);
        match v with
        | None => throw ErrNotPublished
        | Some v =>
            if decide (vStatus v <> FlowVersionApproved \/ (vHash v <> ""%string /\ DefinitionHash (vDefinition v) <> vHash v))
            then throw ErrNotApproved
            else d ← parse (vDefinition v); modify (set_defs key d) ≫= fun _ => mret d
        end
    end.

Definition addLog (run level msg : string) (at_ : Z) : M () := quiet (AddAutomationRunLog O (mkRunLog run level msg at_)).

(** ** The circuit breaker *)
Definition breakerReason (n : Z) (reason : string) : string :=
  "turned off after " +:+ Itoa n +:+ " failures or limit hits in a row; last: " +:+ reason.

Definition trips (flow : AutomationFlow) : bool :=
  Enabled flow && bool_decide (BreakerThreshold (FlowLimits flow) <= ConsecutiveFailures flow + 1).
Definition after_hit (reason : string) (flow : AutomationFlow) : AutomationFlow :=
  let n := ConsecutiveFailures flow + 1 in
  if trips flow then set_health false n (breakerReason n reason) flow else set_health (Enabled flow) n (DisabledReason flow) flow.

(** What follows when a flow was turned off. *)
Definition turned_off (clusterID flowID : string) (flow : AutomationFlow) : M () :=
  quiet (DeleteAutomationSchedule O clusterID flowID) ≫= fun _ =>
  emit (ELog ("automation: flow " +:+ fName flow +:+ " " +:+ DisabledReason flow)) ≫= fun _ =>
  emit (ENotify clusterID "automation.flow_disabled" [("flow_id", fID flow); ("name", fName flow); ("reason", DisabledReason flow)]%string) ≫= fun _ =>
  emit (EAudit clusterID "" "automation.flow.disable" "circuit_breaker" (fID flow)).

Definition breakerHit (clusterID flowID reason : string) : M () :=
  flow ← attempt (GetAutomationFlow O clusterID flowID);
  match flow with
  | None | Some None => mret ()
  | Some (Some flow) =>
      saved ← attempt (UpdateAutomationFlow O (after_hit reason flow));
      match saved with
      | None => mret ()
      | Some _ => if trips flow then turned_off clusterID flowID (after_hit reason flow) else mret ()
      end
  end.

(** ** The queue of a flow *)
Definition active_run (r : AutomationRun) : bool := AutoRunActive (aStatus r).
Definition queued_run (r : AutomationRun) : bool := bool_decide (aStatus r = AutoRunQueued).
Definition tally (p : AutomationRun -> bool) (l : list AutomationRun) : Z := Z.of_nat (length (List.filter p l)).

Definition counts (clusterID flowID : string) : M (Z * Z) :=
  rs ← ListAutomationRuns O clusterID flowID 500;
  mret (tally active_run rs, tally queued_run rs).

(** The loop over the queued runs, oldest first: whether one was started. *)
Fixpoint promote_loop (limit active : Z) (promoted : bool) (queued : list AutomationRun) : M bool :=
  match queued with
  | [] => mret promoted
  | r :: queued =>
      if decide (limit <= active) then mret promoted
      else saved ← attempt (UpdateAutomationRun O (set_status (AutoRun RunPending) r));
           match saved with
           | Some _ => promote_loop limit (active + 1) true queued
           | None => promote_loop limit active promoted queued
           end
  end.

Definition promote (clusterID flowID : string) : M () :=
  flow ← attempt (GetAutomationFlow O clusterID flowID);
  match flow with
  | None | Some None => mret ()
  | Some (Some flow) =>
      rs ← attempt (ListAutomationRuns O clusterID flowID 500);
      match rs with
      | None => mret ()
      | Some rs =>
          promoted ← promote_loop (Concurrency (FlowLimits flow)) (tally active_run rs) false
                       (merge_sort older_run (List.filter queued_run rs));
          if promoted : bool then emit EWake else mret ()
      end
  end.

(** ** After a run *)
Definition test_passed (run : AutomationRun) (flow : AutomationFlow) : bool :=
  let hash := DefinitionHash (aDefinition run) in
  match aReport run with Some (ok, _) => ok | None => false end && bool_decide (aStatus run = AutoRun RunSucceeded) &&
  bool_decide (hash <> ""%string /\ hash = DefinitionHash (Draft flow)).
Definition remember_test (run : AutomationRun) : M () :=
  flow ← attempt (GetAutomationFlow O (aCluster run) (aFlow run));
  match flow with
  | Some (Some flow) => if test_passed run flow then quiet (UpdateAutomationFlow O (set_dry_hash (DefinitionHash (aDefinition run)) flow)) else mret ()
  | _ => mret ()
  end.
Definition reset_failures (clusterID flowID : string) : M () :=
  flow ← attempt (GetAutomationFlow O clusterID flowID);
  match flow with
  | Some (Some flow) => if decide (ConsecutiveFailures flow <> 0)
                        then quiet (UpdateAutomationFlow O (set_health (Enabled flow) 0 (DisabledReason flow) flow)) else mret ()
  | _ => mret ()
  end.
Definition RunFinished (run : AutomationRun) : M () :=
  if aDry run then remember_test run
  else
    (match aStatus run with
     | AutoRun RunSucceeded => reset_failures (aCluster run) (aFlow run)
     | AutoRun RunFailed => breakerHit (aCluster run) (aFlow run) (aError run)
     | _ => mret ()
     end) ≫= fun _ =>
    promote (aCluster run) (aFlow run).

(** ** Starting a run *)
Definition rateDrop (perMin perHour : Z) (l : Limits) : string :=
  "limit: the flow already started " +:+ Itoa perMin +:+ " times this minute and " +:+ Itoa perHour +:+ " this hour (limits " +:+
  Itoa (PerMinute l) +:+ " and " +:+ Itoa (PerHour l) +:+ "); this trigger was dropped".
Definition queueDrop (queued : Z) : string :=
  "limit: " +:+ Itoa queued +:+ " run(s) are already waiting in the queue; this trigger was dropped".
Definition queuedMsg : string := "queued: another run of this flow is still going".

(** The definition and the version a request runs. *)
Definition definitionFor (req : StartRequest) (flow : AutomationFlow) : M (Definition_ * Z) :=
  match qDefinition req with
  | Some d => mret (d, qVersion req)
  | None => if qDryRun req && qDraft req then d ← parse (Draft flow); mret (d, 0)
            else d ← PublishedDefinition flow; mret (d, PublishedVersion flow)
  end.

Definition newRun (req : StartRequest) (flow : AutomationFlow) (d : Definition_) (version : Z) (id corr : string) (now : Z) : AutomationRun :=
  mkARun id (qCluster req) (fID flow) version (qDryRun req) (AutoRun RunPending) (firstText (qTriggerKind req) "manual")
    (Redact (VMap (qPayload req))) (Redact (VMap (qInputs req))) (Some d) (NewState (FlowLimits flow) (Variables d) (qReport req)) None
    (qKey req) corr (qCausedByRun req) (qChainDepth req) (qRetryOf req) (qActor req) (qStartedBy req) "" None "" None None None now.

Definition rateCheck (req : StartRequest) (flow : AutomationFlow) (now : Z) : M string :=
  let l := FlowLimits flow in
  perMin ← CountAutomationRunsSince O (qCluster req) (fID flow) (now - minute_ns);
  perHour ← CountAutomationRunsSince O (qCluster req) (fID flow) (now - hour_ns);
  mret (if decide (PerMinute l <= perMin \/ PerHour l <= perHour) then rateDrop perMin perHour l else "").

(** The text of a drop, and the status the run gets. *)
Definition queueCheck (req : StartRequest) (flow : AutomationFlow) : M (string * auto_status) :=
  let l := FlowLimits flow in
  '(active, queued) ← counts (qCluster req) (fID flow);
  mret (if decide (Concurrency l <= active)
        then if decide (QueueDepth l <= queued) then (queueDrop queued, AutoRun RunPending) else (""%string, AutoRunQueued)
        else (""%string, AutoRun RunPending)).

Definition drop_run (req : StartRequest) (flow : AutomationFlow) (run : AutomationRun) (drop : string) (now : Z) : M StartResult :=
  let run := set_progress AutoRunDropped drop (aWakeAt run) (Some now) run in
  CreateAutomationRun O run ≫= fun _ =>
  addLog (aID run) "warn" drop now ≫= fun _ =>
  emit (ELog ("automation: flow " +:+ fName flow +:+ ": " +:+ drop)) ≫= fun _ =>
  breakerHit (fCluster flow) (fID flow) drop ≫= fun _ =>
  emit (EAudit (aCluster run) (qActor req) "automation.flow.execute" "dropped" (fID flow +:+ " " +:+ aID run)) ≫= fun _ =>
  mret (mkStarted run false true).

Definition accept_run (req : StartRequest) (flow : AutomationFlow) (run : AutomationRun) (now : Z) : M StartResult :=
  CreateAutomationRun O run ≫= fun _ =>
  (if decide (aStatus run = AutoRunQueued) then addLog (aID run) "info" queuedMsg now else mret ()) ≫= fun _ =>
  emit (EAudit (aCluster run) (qActor req) (if qDryRun req then "automation.flow.dry_run" else "automation.flow.execute")
          (status_text (aStatus run)) (fID flow +:+ " " +:+ aID run)) ≫= fun _ =>
  emit EWake ≫= fun _ =>
  mret (mkStarted run false false).

Definition admit_run (req : StartRequest) (flow : AutomationFlow) (d : Definition_) (version now : Z) : M StartResult :=
  let live := negb (qDryRun req) in
  id ← NewString O; corr ← NewString O;
  let run := newRun req flow d version id corr now in
  drop ← (if live && negb (UserStarted req) then rateCheck req flow now else mret ""%string);
  '(drop, status) ← (if live && bool_decide (drop = ""%string) then queueCheck req flow else mret (drop, AutoRun RunPending));
  if decide (drop <> ""%string) then drop_run req flow run drop now else accept_run req flow (set_status status run) now.

Definition Start (req : StartRequest) : M StartResult :=
  now ← time O;
  flow ← GetAutomationFlow O (qCluster req) (qFlow req);
  match flow with
  | None => throw ErrNotFound
  | Some flow =>
      '(d, version) ← definitionFor req flow;
      let live := negb (qDryRun req) in
      if live && negb (UserStarted req) && negb (Enabled flow) then throw ErrDisabled
      else
        existing ← (if live && bool_decide (qKey req <> ""%string)
                    then FindAutomationRunByKey O (qCluster req) (fID flow) (qKey req) (now - IdempotencyWindow) else mret None);
        match existing with
        | Some r => mret (mkStarted r true false)
        | None => admit_run req flow d version now
        end
  end.

(** ** Events *)
Definition InScope (d : Definition_) (nodeID : string) : bool :=
  match field "scope_nodes" (tConfig (dTrigger d)) with
  | VList (n :: l) => existsb (fun n => bool_decide (Sprint n = nodeID)) (n :: l)
  | _ => true
  end.

(** Whether the event comes too soon after the last; the time is kept when not. *)
Definition debounced (flow : AutomationFlow) (ev : Event) (now : Z) : M bool :=
  let l := FlowLimits flow in
  if decide (0 < DebounceSec l) then
    let key := fID flow +:+ "|" +:+ evKind ev +:+ "|" +:+ evTarget ev in
    w ← get;
    match debounce w !! key with
    | Some last => if decide (now - last < DebounceSec l * second_ns) then mret true
                   else modify (set_debounce key now) ≫= fun _ => mret false
    | None => modify (set_debounce key now) ≫= fun _ => mret false
    end
  else mret false.

Definition eventRequest (ev : Event) (depth : Z) (payload : list (string * value)) (flow : AutomationFlow) (lines : list ReportLine) : StartRequest :=
  mkStart (evCluster ev) (fID flow) "event" payload [] "" (evActor ev) ("event " +:+ evKind ev) (evCausedBy ev) depth ""
    false false false None 0 lines.

Definition handle_flow (ev : Event) (cause : option AutomationRun) (depth now : Z) (payload : list (string * value)) (flow : AutomationFlow) : M () :=
  if decide (aFlow <$> cause = Some (fID flow)) then
    emit (ELog ("automation: flow " +:+ fName flow +:+ " ignored " +:+ evKind ev +:+ ": its own run " +:+ default "" (aID <$> cause) +:+ " caused it"))
  else if decide (MaxChainDepth < depth) then
    emit (ELog ("automation: flow " +:+ fName flow +:+ " ignored " +:+ evKind ev +:+ ": automations already triggered each other " +:+ Itoa depth +:+ " times in a row"))
  else
    d ← attempt (PublishedDefinition flow);
    match d with
    | None => mret ()
    | Some d =>
        match ParseConditions (field "conditions" (tConfig (dTrigger d))) with
        | Err _ => mret ()
        | Ok conds =>
            let '(ok, results) := MatchConditions (evKind ev) (VMap payload) conds in
            if negb ok || negb (InScope d (evNode ev)) then mret ()
            else
              soon ← debounced flow ev now;
              if soon : bool then mret ()
              else catch (Start (eventRequest ev depth payload flow (WhenLines true results)) ≫= fun _ => mret ())
                     (fun e => if decide (e = ErrDisabled) then mret ()
                               else emit (ELog ("automation: flow " +:+ fName flow +:+ " could not start for " +:+ evKind ev +:+ ": " +:+ error_text e)))
        end
    end.

Fixpoint each {A} (f : A -> M ()) (l : list A) : M () :=
  match l with [] => mret () | a :: l => f a ≫= fun _ => each f l end.

Definition causeOf (ev : Event) : M (option AutomationRun) :=
  if decide (evCausedBy ev <> ""%string) then c ← attempt (GetAutomationRun O (evCluster ev) (evCausedBy ev)); mret (mjoin c)
  else mret None.

Definition HandleEvent (ev : Event) : M () :=
  flows ← attempt (ListAutomationFlowsByTrigger O (evCluster ev) "event" (evKind ev));
  match flows with
  | None | Some [] => mret ()
  | Some flows =>
      cause ← causeOf ev;
      let depth := match cause with Some r => ChainDepth r + 1 | None => 0 end in
      now ← time O;
      each (handle_flow ev cause depth now (EventPayload ev)) flows
  end.

(** ** Schedules *)
Definition scheduled (flow : AutomationFlow) : bool :=
  Enabled flow && bool_decide (PublishedVersion flow <> 0) && bool_decide (fTriggerKind flow = "schedule"%string).
Definition set_next (next : option Z) (key : string) (sc : AutomationSchedule) : AutomationSchedule :=
  mkSchedule (sFlow sc) (sCluster sc) (sPreset sc) (sCron sc) (sTimezone sc) next key.

(** [spec.Next] in nanoseconds; the search has fuel enough when it answers. *)
Definition nextRun (s : ScheduleSpec) (now : Z) : option Z :=
  match ScheduleNext LoadLocation cronFuel s now with Some (Ok u) => Some (u * second_ns) | _ => None end.

Definition scheduleRequest (sc : AutomationSchedule) (at_ : Z) : StartRequest :=
  mkStart (sCluster sc) (sFlow sc) "schedule"
    [("scheduled_at", VStr (RFC3339 at_)); ("preset", VStr (sPreset sc)); ("cron", VStr (sCron sc)); ("timezone", VStr (sTimezone sc))]%string
    [] (scheduleKey at_) "" "schedule" "" 0 "" false false false None 0 [].

(** One due schedule: whether it started a run. *)
Definition process_schedule (now : Z) (sc : AutomationSchedule) : M bool :=
  flow ← attempt (GetAutomationFlow O (sCluster sc) (sFlow sc));
  match mjoin flow with
  | Some flow =>
      if negb (scheduled flow) then quiet (DeleteAutomationSchedule O (sCluster sc) (sFlow sc)) ≫= fun _ => mret false
      else
        let at_ := default 0 (NextRunAt sc) in
        let key := scheduleKey at_ in
        res ← (if decide (key <> LastKey sc) then attempt (Start (scheduleRequest sc at_)) else mret None);
        d ← attempt (PublishedDefinition flow);
        let spec := match d with
                    | Some d => ScheduleFromConfig (tConfig (dTrigger d))
                    | None => mkSpec (sPreset sc) (sCron sc) (sTimezone sc) "" 0
                    end in
        quiet (PutAutomationSchedule O (set_next (nextRun spec now) key sc)) ≫= fun _ =>
        mret (match res with Some r => negb (Existing r) | None => false end)
  | None => quiet (DeleteAutomationSchedule O (sCluster sc) (sFlow sc)) ≫= fun _ => mret false
  end.

Fixpoint process_all (now : Z) (l : list AutomationSchedule) : M Z :=
  match l with
  | [] => mret 0
  | sc :: l => b ← process_schedule now sc; n ← process_all now l; mret (if b : bool then n + 1 else n)
  end.

Definition ProcessDueSchedules (limit : Z) : M Z :=
  now ← time O;
  due ← attempt (ListDueAutomationSchedules O now limit);
  match due with None => mret 0 | Some due => process_all now due end.

Definition SyncTrigger (flow : AutomationFlow) : M () :=
  if negb (scheduled flow) then DeleteAutomationSchedule O (fCluster flow) (fID flow)
  else
    d ← PublishedDefinition flow;
    let spec := ScheduleFromConfig (tConfig (dTrigger d)) in
    now ← time O;
    match nextRun spec now with
    | None => throw BadSchedule
    | Some next =>
        let line := match CronLine spec with Ok l => l | Err _ => ""%string end in
        PutAutomationSchedule O (mkSchedule (fID flow) (fCluster flow) (Preset spec) line (Timezone spec) (Some next) "")
    end.

(** ** Stepping a run: [Engine.Step] around [Engine.step] *)
Definition finally {A B} (m : M A) (cleanup : M B) : M A := fun w =>
  let '(r, w) := m w in let '(_, w) := quiet cleanup w in (r, w).

(** The engine's view of a row. *)
Definition engine_run (r : AutomationRun) (s : run_status) : Run :=
  mkRun s (aError r) (aWakeAt r) (aStartedAt r) (aFinishedAt r) (aDry r) (fst <$> aReport r).

(** The row of the first save, and the row after the last with how the call ended.  The
    saves between turns leave the status running and are folded into the last; [None] is
    no fuel. *)
Definition starting (types : string -> option NodeType) (now : Z) (d : Definition_) (r : AutomationRun) : AutomationRun :=
  let st := DecodeState (aState r) in
  let run := mkRun RunRunning (aError r) None (Some (default now (aStartedAt r))) (aFinishedAt r) (aDry r) (fst <$> aReport r) in
  set_engine (mkX run (setFrames st (recoverInterrupted types d (Frames st)).1)) r.

Definition loops (types : string -> option NodeType) (typ : string) : bool :=
  match types typ with Some t => LoopType t | None => false end.
Definition advance (types : string -> option NodeType) (fuel : nat) (now : Z) (save0 : bool) (ticks : nat -> Engine.tick) (d : Definition_)
  (s : run_status) (r : AutomationRun) : option (AutomationRun * return_) :=
  res ← step redactText jsonLen types d (Owners d (LoopBodies d (loops types))) fuel now save0 ticks (engine_run r s) (DecodeState (aState r));
  Some (set_engine res.1 r, res.2).

(** A row whose definition cannot be read: the state was not read and is saved as null. *)
Definition zeroState : State := mkState (mkLimits 0 0 0 0 0 0 0 0 0 0 0) ∅ ∅ [] 0 [].
Definition unreadable (now : Z) (r : AutomationRun) : AutomationRun :=
  set_progress (AutoRun RunFailed) (error_text BadDefinition) None (Some now) (set_state zeroState r).

(** [x.finish]: the row is saved, and the hook runs whether it was or not. *)
Definition finish_run (r : AutomationRun) : M () := quiet (UpdateAutomationRun O r) ≫= fun _ => RunFinished r.

Definition step_run (types : string -> option NodeType) (fuel : nat) (ticks : nat -> Engine.tick) (s : run_status) (r : AutomationRun) : M () :=
  now ← time O;
  match aDefinition r with
  | None => finish_run (unreadable now r)
  | Some d =>
      saved ← attempt (UpdateAutomationRun O (starting types now d r));
      match advance types fuel now (bool_decide (saved <> None)) ticks d s r with
      | Some (r', Finished _) => finish_run r'
      | Some (r', (Parked | LeftForNext)) => UpdateAutomationRun O r'
      | _ => mret ()
      end
  end.

Definition step_taken (types : string -> option NodeType) (fuel : nat) (ticks : nat -> Engine.tick) (clusterID runID : string) : M () :=
  run ← GetAutomationRun O clusterID runID;
  match run with
  | None => mret ()
  | Some r =>
      match aStatus r with
      | AutoRun ((RunPending | RunRunning | RunWaiting) as s) =>
          modify (fun w => set_running (<[runID := ""%string]> (running w)) w) ≫= fun _ =>
          finally (step_run types fuel ticks s r) (modify (fun w => set_running (delete runID (running w)) w))
      | _ => mret ()
      end
  end.
Definition Step (types : string -> option NodeType) (fuel : nat) (ticks : nat -> Engine.tick) (lease : Z) (clusterID runID : string) : M () :=
  now ← time O;
  ok ← ClaimAutomationRun O clusterID runID Owner now (now + lease);
  if negb ok then throw ErrBusy
  else finally (step_taken types fuel ticks clusterID runID) (ReleaseAutomationRun O clusterID runID Owner).

(** ** Cancel and retry *)
Definition RequestCancel (runID by_ : string) : M bool :=
  w ← get;
  match running w !! runID with
  | None => mret false
  | Some c => modify (set_running (<[runID := if decide (c = ""%string) then firstText by_ "someone" else c]> (running w))) ≫= fun _ => mret true
  end.

Definition cancellable (ns : NodeState) : bool :=
  match Engine.Status ns with NodeWaiting | NodeRetrying | NodeApproval | NodeRunning => true | _ => false end.

Definition cancelRows (runID : string) (st : State) : M () :=
  each (fun f => each (fun p : string * NodeState =>
                         if cancellable p.2 then quiet (UpsertAutomationNodeRun O runID (Scope f) p.1 (cancelNode p.2)) else mret ())
                      (map_to_list (FNodes f))) (Frames st).

(** What is done under the lease. *)
Definition cancel_taken (clusterID runID by_ : string) (now : Z) : M () :=
  run ← attempt (GetAutomationRun O clusterID runID);
  match mjoin run with
  | None => throw RunNotFound
  | Some run =>
      let st := DecodeState (aState run) in
      cancelRows runID st ≫= fun _ =>
      let run := set_state (setFrames st (markCancelled (Frames st))) run in
      let run := set_progress (AutoRun RunCancelled) ("cancelled by " +:+ by_) None (Some now) run in
      UpdateAutomationRun O run ≫= fun _ =>
      addLog runID "info" ("run cancelled by " +:+ by_) now ≫= fun _ =>
      RunFinished run
  end.

Definition Cancel (clusterID runID by_ : string) : M () :=
  run ← GetAutomationRun O clusterID runID;
  match run with
  | None => throw RunNotFound
  | Some run =>
      if AutoRunFinished (aStatus run) then throw AlreadyFinished
      else
        asked ← RequestCancel runID by_;
        if asked : bool then mret ()
        else
          now ← time O;
          ok ← ClaimAutomationRun O clusterID runID Owner now (now + minute_ns);
          if negb ok then throw ErrBusy
          else finally (cancel_taken clusterID runID by_ now) (ReleaseAutomationRun O clusterID runID Owner)
  end.

(** The step's row and the log line after an approval; their failures are dropped. *)
Definition approved_step (nodeID : string) (st : State) : string :=
  match Frames st with f :: _ => approvalStep nodeID f | [] => nodeID end.
Definition approve_notes (runID id : string) (st : State) (line : string -> string) (now : Z) : M () :=
  (match Frames st with
   | f :: _ => match FNodes f !! id with Some ns => quiet (UpsertAutomationNodeRun O runID (Scope f) id ns) | None => mret () end
   | [] => mret ()
   end) ≫= fun _ => addLog runID "info" (line id) now.

(** [Engine.Approve] around the decision itself. *)
Definition approve_taken (nodeID by_ : string) (approved : bool) (note : string) (clusterID runID : string) (now : Z) : M () :=
  run ← attempt (GetAutomationRun O clusterID runID);
  match mjoin run with
  | None => throw RunNotFound
  | Some r =>
      match aStatus r with
      | AutoRun s =>
          match Engine.Approve redactText jsonLen nodeID by_ approved note (RFC3339 now) (engine_run r s) (DecodeState (aState r)) with
          | Err _ => throw NotWaiting_
          | Ok (run', st) =>
              UpdateAutomationRun O (set_engine (mkX run' st) r) ≫= fun _ =>
              approve_notes runID (approved_step nodeID (DecodeState (aState r))) st
                (fun id => LogLine redactText (id +:+ (if approved then " approved by " else " rejected by ") +:+ by_)) now
          end
      | _ => throw NotWaiting_
      end
  end.
Definition Approve (lease : Z) (clusterID runID nodeID by_ : string) (approved : bool) (note : string) : M () :=
  now ← time O;
  ok ← ClaimAutomationRun O clusterID runID Owner now (now + lease);
  if negb ok then throw ErrBusy
  else finally (approve_taken nodeID by_ approved note clusterID runID now) (ReleaseAutomationRun O clusterID runID Owner).

Definition fields_of (v : value) : list (string * value) := match v with VMap m => m | _ => [] end.

Definition retryRequest (clusterID actorID by_ : string) (run : AutomationRun) (d : Definition_) : StartRequest :=
  mkStart clusterID (aFlow run) (aTriggerKind run) (fields_of (aPayload run)) (fields_of (aInputs run)) "" actorID
    ("retry by " +:+ by_) "" 0 (aID run) true (aDry run) false (Some d) (aVersion run) [].
Definition Retry (clusterID runID actorID by_ : string) : M StartResult :=
  run ← GetAutomationRun O clusterID runID;
  match run with
  | None => throw RunNotFound
  | Some run =>
      if negb (AutoRunFinished (aStatus run)) then throw NotFinished
      else
        d ← parse (aDefinition run);
        Start (retryRequest clusterID actorID by_ run d)
  end.

(** ** Test runs *)
Definition problem_line (p : problem) : ReportLine := mkLine "" "" "problem" (pPath p +:+ ": " +:+ message_text (pMessage p)) None.
Definition trigger_line (text : string) : list ReportLine := [mkLine TriggerID "" "trigger" text None].

(** What the trigger says: the lines, whether the flow would start, and the payload. *)
Definition dry_trigger (d : Definition_) (payload : list (string * value)) : M (list ReportLine * bool * list (string * value)) :=
  let typ := tType (dTrigger d) in
  if decide (typ = TriggerEvent) then
    let conds := match ParseConditions (field "conditions" (tConfig (dTrigger d))) with Ok c => c | Err _ => [] end in
    let kind := EventKind d in
    payload ← (match assoc "event" payload with
               | Some _ => mret payload
               | None => now ← time O; mret (EventPayload (mkEvent "" kind "" "" "" "" payload now))
               end);
    let '(ok, results) := MatchConditions kind (VMap payload) conds in
    mret (WhenLines ok results, ok, payload)
  else if decide (typ = TriggerSchedule) then
    now ← time O;
    mret (match nextRun (ScheduleFromConfig (tConfig (dTrigger d))) now with
          | Some next => trigger_line ("the schedule next runs at " +:+ RFC3339 next)
          | None => []
          end, true, payload)
  else mret (trigger_line ("starts from " +:+ firstText (TriggerKind d) "a manual run"), true, payload).

Definition would_not_start (clusterID actorID by_ : string) (draft : bool) (flow : AutomationFlow) (d : Definition_) (lines : list ReportLine)
  (problems : list problem) (payload : list (string * value)) : M StartResult :=
  now ← time O;
  id ← NewString O;
  let ok := match problems with [] => true | _ => false end in
  let run := mkARun id clusterID (fID flow) (if draft then 0 else PublishedVersion flow) true (AutoRun (if ok then RunSucceeded else RunFailed)) (TriggerKind d)
      (Redact (VMap payload)) VNull (Some d) (NewState (FlowLimits flow) ∅ lines) (Some (ok, lines)) "" "" "" 0 "" actorID by_
      (if ok then "the flow would not start" else "the flow has " +:+ Itoa (Z.of_nat (length problems)) +:+ " problem(s)")
      None "" None (Some now) (Some now) now in
  CreateAutomationRun O run ≫= fun _ =>
  emit (EAudit clusterID actorID "automation.flow.dry_run" (status_text (aStatus run)) (fID flow +:+ " " +:+ aID run)) ≫= fun _ =>
  mret (mkStarted run false false).

Definition testRequest (clusterID flowID : string) (draft : bool) (actorID by_ : string) (d : Definition_) (payload inputs : list (string * value))
  (lines : list ReportLine) : StartRequest :=
  mkStart clusterID flowID (TriggerKind d) payload inputs "" actorID by_ "" 0 "" true true draft None 0 lines.
(** [None] of [Validate] is a panic. *)
Definition DryRun (clusterID flowID : string) (draft : bool) (payload inputs : list (string * value)) (actorID by_ : string) : M (option StartResult) :=
  flow ← GetAutomationFlow O clusterID flowID;
  match flow with
  | None => throw ErrNotFound
  | Some flow =>
      d ← (if draft then parse (Draft flow) else PublishedDefinition flow);
      match Validate LoadLocation d with
      | None => mret None
      | Some problems =>
          '(lines, ok, payload) ← dry_trigger d payload;
          let lines := map problem_line problems ++ lines in
          let start := match problems with [] => ok | _ => false end in
          res ← (if start : bool
                 then Start (testRequest clusterID flowID draft actorID by_ d payload inputs lines)
                 else would_not_start clusterID actorID by_ draft flow d lines problems payload);
          mret (Some res)
      end
  end.
(** ** The operations, as a caller sees them *)
Inductive op :=
  | OpStart (req : StartRequest)
  | OpEvent (ev : Event)
  | OpSchedules (limit : Z)
  | OpSync (flow : AutomationFlow)
  | OpStep (types : string -> option NodeType) (fuel : nat) (ticks : nat -> Engine.tick) (lease : Z) (clusterID runID : string)
  | OpApprove (lease : Z) (clusterID runID nodeID by_ : string) (approved : bool) (note : string)
  | OpCancel (clusterID runID by_ : string)
  | OpRetry (clusterID runID actorID by_ : string)
  | OpDryRun (clusterID flowID : string) (draft : bool) (payload inputs : list (string * value)) (actorID by_ : string).

Definition ignored {A} (m : M A) : M () := m ≫= fun _ => mret ().
Definition perform (o : op) : M () :=
  match o with
  | OpStart req => ignored (Start req)
  | OpEvent ev => HandleEvent ev
  | OpSchedules limit => ignored (ProcessDueSchedules limit)
  | OpSync flow => SyncTrigger flow
  | OpStep types fuel ticks lease c r => Step types fuel ticks lease c r
  | OpApprove lease c r n b a t => Approve lease c r n b a t
  | OpCancel c r b => Cancel c r b
  | OpRetry c r a b => ignored (Retry c r a b)
  | OpDryRun c f d p i a b => ignored (DryRun c f d p i a b)
  end.

(** Operations one after the other, whatever each returns. *)
Fixpoint performs (os : list op) (w : world) : world :=
  match os with [] => w | o :: os => performs os (perform o w).2 end.
End service.
