(* ===== verification/AutoStoreProps.v ===== *)
(** * Reasoning about the automations' store

    Weakest preconditions for the monad of [AutoStore], the effect of the store's
    operations under any failures of it, and the relation [keeps]: what a computation that
    does not touch the runs leaves as it was. *)
From stdpp Require Import sorting.
From S2P Require Export AutoStore.
From S2P Require Import Value FlowDef AutoStore.

(** ** Weakest preconditions *)
Definition wp {A} (m : M A) (w : world) (Q : result svcError A -> world -> Prop) : Prop := Q (m w).1 (m w).2.

Lemma wp_mono {A} (m : M A) w (Q Q' : result svcError A -> world -> Prop) :
  wp m w Q -> (forall r w', Q r w' -> Q' r w') -> wp m w Q'.
Proof. unfold wp. auto. Qed.

Lemma wp_bind {A B} (m : M A) (f : A -> M B) w Q :
  wp m w (fun r w' => match r with Ok a => wp (f a) w' Q | Err e => Q (Err e) w' end) -> wp (m ≫= f) w Q.
Proof. unfold wp, mbind, M_bind. destruct (m w) as [[a|e] w']; auto. Qed.

Lemma wp_ret {A} (a : A) w (Q : result svcError A -> world -> Prop) : Q (Ok a) w -> wp (mret a) w Q.
Proof. auto. Qed.
Lemma wp_throw {A} e w (Q : result svcError A -> world -> Prop) : Q (Err e) w -> wp (throw e) w Q.
Proof. auto. Qed.

Lemma wp_attempt {A} (m : M A) w Q :
  wp m w (fun r w' => Q (Ok (match r with Ok a => Some a | Err _ => None end)) w') -> wp (attempt m) w Q.
Proof. unfold wp, attempt. destruct (m w) as [[a|e] w']; auto. Qed.
Lemma wp_quiet {A} (m : M A) w Q : wp m w (fun _ w' => Q (Ok ()) w') -> wp (quiet m) w Q.
Proof. intros H. apply wp_bind, wp_attempt. eapply wp_mono; [apply H|]. intros r w' Hq. by apply wp_ret. Qed.
Lemma wp_catch {A} (m : M A) h w (Q : result svcError A -> world -> Prop) :
  wp m w (fun r w' => match r with Ok a => Q (Ok a) w' | Err e => wp (h e) w' Q end) -> wp (catch m h) w Q.
Proof. unfold wp, catch. destruct (m w) as [[a|e] w']; auto. Qed.
Lemma wp_modify f w (Q : result svcError () -> world -> Prop) : Q (Ok ()) (f w) -> wp (modify f) w Q.
Proof. auto. Qed.
Lemma wp_get w (Q : result svcError world -> world -> Prop) : Q (Ok w) w -> wp get w Q.
Proof. auto. Qed.
Lemma wp_consult {A} (f : nat -> A) w Q : Q (Ok (f (tick w))) (set_tick (S (tick w)) w) -> wp (consult f) w Q.
Proof. auto. Qed.

(** ** What is left as it was *)

(** The limits and the cluster of a flow, which no operation of the service changes. *)
Definition terms (f : AutomationFlow) : string * string * Limits := (fID f, fCluster f, fLimits f).

Record keeps (w w' : world) : Prop := {
  k_tick : (tick w <= tick w')%nat;
  k_terms : forall id, terms <$> flows (db w') !! id = terms <$> flows (db w) !! id;
  k_versions : versions (db w') = versions (db w);
  k_runs : runs (db w') = runs (db w) }.

#[export] Instance keeps_preorder : PreOrder keeps.
Proof. split; [by intros w; split|]. intros w1 w2 w3 [] []. split; [lia|etransitivity; eauto|congruence..]. Qed.

(** Flows are kept under their identifiers. *)
Definition keyed (w : world) : Prop := forall id f, flows (db w) !! id = Some f -> fID f = id.

Lemma keeps_flow w w' id f : keeps w w' -> flows (db w) !! id = Some f -> exists f', flows (db w') !! id = Some f' /\ terms f' = terms f.
Proof.
  intros Hk Hf. pose proof (k_terms w w' Hk id) as H. rewrite Hf in H. destruct (flows (db w') !! id) as [f'|]; [|done].
  apply (inj Some) in H. by exists f'.
Qed.
Lemma keeps_flow_back w w' id f : keeps w w' -> flows (db w') !! id = Some f -> exists f', flows (db w) !! id = Some f' /\ terms f' = terms f.
Proof.
  intros Hk Hf. pose proof (k_terms w w' Hk id) as H. rewrite Hf in H. destruct (flows (db w) !! id) as [f'|]; [|done].
  apply (inj Some) in H. by exists f'.
Qed.
Lemma keeps_keyed w w' : keeps w w' -> keyed w -> keyed w'.
Proof. intros Hk Hw id f Hf. destruct (keeps_flow_back _ _ _ _ Hk Hf) as (f' & Hf' & [= E _ _]). rewrite <- E. by apply Hw. Qed.

(** A computation that leaves the runs alone, however it ends. *)
Definition quiescent {A} (m : M A) : Prop := forall w, keyed w -> keeps w (m w).2.

Lemma wp_quiescent {A} (m : M A) w Q : quiescent m -> keyed w -> (forall r w', keeps w w' -> keyed w' -> Q r w') -> wp m w Q.
Proof. unfold wp, quiescent. intros Hm Hw HQ. specialize (Hm w Hw). eauto using keeps_keyed. Qed.
Lemma quiescent_wp {A} (m : M A) : (forall w, keyed w -> wp m w (fun _ w' => keeps w w')) -> quiescent m.
Proof. intros H w Hw. by apply H. Qed.

Lemma quiescent_ret {A} (a : A) : quiescent (mret a).
Proof. intros w _. reflexivity. Qed.
Lemma quiescent_throw {A} e : quiescent (@throw A e).
Proof. intros w _. reflexivity. Qed.
Lemma quiescent_bind {A B} (m : M A) (f : A -> M B) : quiescent m -> (forall a, quiescent (f a)) -> quiescent (m ≫= f).
Proof.
  intros Hm Hf w Hw. specialize (Hm w Hw). unfold mbind, M_bind. destruct (m w) as [[a|e] w']; [|done].
  etransitivity; [apply Hm|]. apply Hf. by eapply keeps_keyed.
Qed.
Lemma quiescent_attempt {A} (m : M A) : quiescent m -> quiescent (attempt m).
Proof. intros Hm w Hw. specialize (Hm w Hw). unfold attempt. by destruct (m w) as [[a|e] w']. Qed.
Lemma quiescent_quiet {A} (m : M A) : quiescent m -> quiescent (quiet m).
Proof. intros Hm. apply quiescent_bind; [by apply quiescent_attempt|intros; apply quiescent_ret]. Qed.
Lemma quiescent_get : quiescent get.
Proof. intros w _. reflexivity. Qed.
Lemma quiescent_emit e : quiescent (emit e).
Proof. intros w _. by split. Qed.
Lemma quiescent_consult {A} (f : nat -> A) : quiescent (consult f).
Proof. intros w _. split; [cbn; lia|done..]. Qed.

Create HintDb quiescent.
#[export] Hint Resolve quiescent_ret quiescent_throw quiescent_bind quiescent_attempt quiescent_quiet quiescent_get quiescent_emit quiescent_consult : quiescent.

(** Case analysis on what a computation tests, then the lemmas. *)
Ltac quiescent :=
  repeat first
    [ progress intros
    | solve [auto with quiescent nocore]
    | apply quiescent_bind | apply quiescent_attempt | apply quiescent_quiet
    | match goal with
      | |- quiescent (match ?x with _ => _ end) => destruct x
      | |- quiescent (let '(_, _) := ?x in _) => destruct x
      end ].

Section store.
Context (O : outside).

(** *** A call of the store either fails without effect or does its work. *)
Lemma wp_io {A} (body : store -> M A) w Q :
  (fails O (tick w) = true -> Q (Err StoreDown) (set_tick (S (tick w)) w)) ->
  (fails O (tick w) = false -> wp (body (db w)) (set_tick (S (tick w)) w) Q) ->
  wp (io O body) w Q.
Proof.
  intros Hd Hb. unfold io. apply wp_bind, wp_consult. destruct (fails O (tick w)); [by apply wp_throw, Hd|].
  apply wp_bind, wp_get. by apply Hb.
Qed.

Lemma quiescent_io {A} (body : store -> M A) : (forall s, quiescent (body s)) -> quiescent (io O body).
Proof. intros H. unfold io. quiescent. Qed.

Lemma quiescent_put f : (forall s, runs (f s) = runs s) -> (forall s, versions (f s) = versions s) -> (forall s, flows (f s) = flows s) -> quiescent (put_db f).
Proof. intros H1 H2 H3 w _. split; cbn; [done|intros; by rewrite H3|done..]. Qed.

Lemma quiescent_NewString : quiescent (NewString O).
Proof. apply quiescent_consult. Qed.
Lemma quiescent_time : quiescent (time O).
Proof. apply quiescent_consult. Qed.
Lemma quiescent_ranged {A} (m : gmap string A) : quiescent (ranged O m).
Proof. apply quiescent_consult. Qed.
Hint Resolve quiescent_NewString quiescent_time quiescent_ranged : quiescent.

Lemma quiescent_reads c f i k v l n t :
  quiescent (GetAutomationFlow O c f) /\ quiescent (ListAutomationFlowsByTrigger O c f i) /\ quiescent (GetAutomationFlowVersion O c f v) /\
  quiescent (ListDueAutomationSchedules O n l) /\ quiescent (GetAutomationRun O c f) /\ quiescent (ListAutomationRuns O c f l) /\
  quiescent (FindAutomationRunByKey O c f k t) /\ quiescent (CountAutomationRunsSince O c f t) /\ quiescent (ListDueAutomationRuns O n l).
Proof. split_and!; apply quiescent_io; quiescent. Qed.

Lemma quiescent_schedules sc c f : quiescent (PutAutomationSchedule O sc) /\ quiescent (DeleteAutomationSchedule O c f).
Proof.
  split; apply quiescent_io; intros _; apply quiescent_put; intros s; repeat case_match; done.
Qed.

Lemma quiescent_logs l : quiescent (AddAutomationRunLog O l).
Proof. apply quiescent_io. intros _. by apply quiescent_put. Qed.
Lemma quiescent_node r sc i n : quiescent (UpsertAutomationNodeRun O r sc i n).
Proof. apply quiescent_io. intros _. by apply quiescent_put. Qed.

(** An update of a flow keeps its terms when the row it writes has those that were read. *)
Lemma wp_UpdateAutomationFlow f w Q :
  (forall old, flows (db w) !! fID f = Some old -> terms old = terms f) ->
  (forall r w', keeps w w' -> Q r w') -> wp (UpdateAutomationFlow O f) w Q.
Proof.
  intros Ht HQ. apply wp_io; [intros _; apply HQ; split; cbn; [lia|done..]|]. intros _.
  destruct (flows (db w) !! fID f) as [old|] eqn:E; [|apply wp_throw, HQ; split; cbn; [lia|done..]].
  case_decide; [apply wp_throw, HQ; split; cbn; [lia|done..]|]. destruct (name_taken f (db w)); [apply wp_throw, HQ; split; cbn; [lia|done..]|].
  apply wp_modify, HQ. split; cbn; [lia| |done..]. intros id. destruct (decide (id = fID f)) as [-> |]; [|by rewrite lookup_insert_ne].
  rewrite lookup_insert_eq, E. cbn. f_equal. by rewrite (Ht old).
Qed.

(** *** Reading a flow *)
Lemma wp_GetAutomationFlow c id w Q :
  (forall r w', keeps w w' -> db w' = db w -> (forall f, r = Ok (Some f) -> flows (db w) !! id = Some f /\ fCluster f = c) ->
     (fails O (tick w) = false -> r = Ok (f ← flows (db w) !! id; if decide (fCluster f = c) then Some f else None)) -> Q r w') ->
  wp (GetAutomationFlow O c id) w Q.
Proof.
  intros HQ. apply wp_io; intros Hf.
  - apply HQ; [split; cbn; [lia|done..]|done|done|by rewrite Hf].
  - apply wp_ret, HQ; [split; cbn; [lia|done..]|done| |done]. intros f [= H].
    destruct (flows (db w) !! id) as [g|]; [|done]. cbn in H. case_decide; by simplify_eq.
Qed.
(** *** Runs *)

(** The runs became [m]; the rest is kept. *)
Definition moved (w : world) (m : gmap string AutomationRun) (w' : world) : Prop := keeps (set_db (set_runs m (db w)) w) w'.

Lemma moved_same w w' : keeps w w' <-> moved w (runs (db w)) w'.
Proof. split; intros []; by split. Qed.

Lemma wp_CreateAutomationRun r w Q :
  aCreatedAt r <> zero_time ->
  (forall e w', keeps w w' -> fails O (tick w) = true \/ runs (db w) !! aID r <> None -> Q (Err e) w') ->
  (forall w', fails O (tick w) = false -> runs (db w) !! aID r = None -> moved w (<[aID r := r]> (runs (db w))) w' -> (tick w < tick w')%nat -> Q (Ok ()) w') ->
  wp (CreateAutomationRun O r) w Q.
Proof.
  intros Hz He Hok. apply wp_io; intros Hf; [apply He; [split; cbn; [lia|done..]|by left]|].
  destruct (runs (db w) !! aID r) as [old|] eqn:E; [apply wp_throw, He; [split; cbn; [lia|done..]|by right]|].
  apply wp_bind, wp_consult. cbn zeta. rewrite decide_False by done. apply wp_modify, Hok; [done..| |cbn; lia]. split; cbn; [lia|done..].
Qed.

Lemma wp_UpdateAutomationRun r w Q :
  (forall e w', keeps w w' -> (fails O (tick w) = true \/ forall old, runs (db w) !! aID r = Some old -> aCluster old <> aCluster r) -> Q (Err e) w') ->
  (forall old w', fails O (tick w) = false -> runs (db w) !! aID r = Some old -> aCluster old = aCluster r ->
     moved w (<[aID r := set_lease (LeaseOwner old) (LeaseUntil old) (aCreatedAt old) r]> (runs (db w))) w' -> Q (Ok ()) w') ->
  wp (UpdateAutomationRun O r) w Q.
Proof.
  intros He Hok. apply wp_io; intros Hf; [apply He; [split; cbn; [lia|done..]|by left]|].
  destruct (runs (db w) !! aID r) as [old|] eqn:E; [|apply wp_throw, He; [split; cbn; [lia|done..]|right; intros old [=]]].
  case_decide; [apply wp_throw, He; [split; cbn; [lia|done..]|right; by intros old' [= <-]]|].
  apply wp_modify, (Hok old); [done..|]. split; cbn; [lia|done..].
Qed.

Lemma wp_ClaimAutomationRun c id owner now until w Q :
  (forall r w', keeps w w' -> r <> Ok true -> Q r w') ->
  (forall old w', runs (db w) !! id = Some old -> moved w (<[id := set_lease owner (Some until) (aCreatedAt old) old]> (runs (db w))) w' -> Q (Ok true) w') ->
  wp (ClaimAutomationRun O c id owner now until) w Q.
Proof.
  intros He Hok. apply wp_io; intros Hf; [apply He; [split; cbn; [lia|done..]|done]|].
  destruct (runs (db w) !! id) as [old|] eqn:E; [|apply wp_ret, He; [split; cbn; [lia|done..]|done]].
  case_decide; [apply wp_ret, He; [split; cbn; [lia|done..]|done]|]. destruct (claimable owner now old); [|apply wp_ret, He; [split; cbn; [lia|done..]|done]].
  apply wp_bind, wp_modify, wp_ret, (Hok old); [done|]. split; cbn; [lia|done..].
Qed.

Lemma wp_ReleaseAutomationRun c id owner w Q :
  (forall r w', keeps w w' -> Q r w') ->
  (forall old w', runs (db w) !! id = Some old -> moved w (<[id := set_lease "" None (aCreatedAt old) old]> (runs (db w))) w' -> Q (Ok ()) w') ->
  wp (ReleaseAutomationRun O c id owner) w Q.
Proof.
  intros He Hok. apply wp_io; intros Hf; [apply He; split; cbn; [lia|done..]|].
  destruct (runs (db w) !! id) as [old|] eqn:E; [|apply wp_ret, He; split; cbn; [lia|done..]].
  case_decide; [apply wp_ret, He; split; cbn; [lia|done..]|].
  apply wp_modify, (Hok old); [done|]. split; cbn; [lia|done..].
Qed.

Lemma wp_GetAutomationRun c id w Q :
  (forall r w', keeps w w' -> (forall x, r = Ok (Some x) -> runs (db w) !! id = Some x) ->
     (forall e, r = Err e -> fails O (tick w) = true) ->
     (r = Ok None -> forall x, runs (db w) !! id = Some x -> c <> ""%string /\ aCluster x <> c) -> Q r w') ->
  wp (GetAutomationRun O c id) w Q.
Proof.
  intros HQ. apply wp_io; intros Hf.
  - apply HQ; [split; cbn; [lia|done..]|done|done|done].
  - apply wp_ret, HQ; [split; cbn; [lia|done..]| |done|].
    + intros x [= H]. destruct (runs (db w) !! id) as [y|]; [|done]. cbn in H. case_decide; by simplify_eq.
    + intros [= H] x Hx. rewrite Hx in H. cbn in H. by case_decide.
Qed.

Context (walk_perm : forall A n l, walk O A n l ≡ₚ l).

Lemma filter_perm {A} (p : A -> bool) l l' : l ≡ₚ l' -> List.filter p l ≡ₚ List.filter p l'.
Proof using Type.
  intros H. induction H as [|x l l' _ IH|x y l|l1 l2 l3 _ IH1 _ IH2]; cbn; [done|destruct (p x); by rewrite ?IH| |by transitivity (List.filter p l2)].
  destruct (p x), (p y); try done. apply perm_swap.
Qed.

(** Of a list sorted by [newer_run], what is cut off has more newer rows than the limit. *)
Lemma cut_off_older n (l : list AutomationRun) x : StronglySorted newer_run l -> (n < length l)%nat -> x ∈ drop n l ->
  (n < length (List.filter (fun y => Z.leb (aCreatedAt x) (aCreatedAt y)) l))%nat.
Proof using Type.
  revert l. induction n as [|n IH]; intros l Hs Hl Hx.
  - destruct (List.filter _ l) as [|y k] eqn:E; [|cbn; lia]. exfalso. rewrite drop_0 in Hx. apply list_elem_of_In in Hx.
    assert (In x (List.filter (fun y => aCreatedAt x <=? aCreatedAt y) l)) as H by (apply filter_In; split; [done|apply Z.leb_refl]). by rewrite E in H.
  - destruct l as [|y l]; [done|]. cbn [drop length List.filter] in *. apply StronglySorted_inv in Hs as [Hs Hy]. rewrite Forall_forall in Hy.
    assert (newer_run y x) as Hyx by (apply Hy; apply list_elem_of_lookup in Hx as [i Hi]; rewrite lookup_drop in Hi; by eapply list_elem_of_lookup_2).
    unfold newer_run in Hyx. rewrite (proj2 (Z.leb_le _ _)) by done. cbn. specialize (IH l Hs ltac:(lia) Hx). lia.
Qed.

(** A list of the newest rows of a flow, and what was cut off. *)
Lemma wp_ListAutomationRuns c f limit w Q : 0 < limit ->
  (forall r w', keeps w w' -> (forall e, r = Err e -> fails O (tick w) = true) ->
     (forall l, r = Ok l -> exists rest, let all := List.filter (live_of c f) (map_to_list (runs (db w))).*2 in
        l ++ rest ≡ₚ all /\
        forall x, x ∈ rest -> limit < Z.of_nat (length (List.filter (fun y => aCreatedAt x <=? aCreatedAt y) all))) -> Q r w') ->
  wp (ListAutomationRuns O c f limit) w Q.
Proof using walk_perm.
  intros Hlim HQ. apply wp_io; intros Hf; [apply HQ; [split; cbn; [lia|done..]|done..]|].
  apply wp_bind, wp_consult, wp_ret. set (l := walk O _ _ _). set (sorted := merge_sort newer_run (List.filter (live_of c f) l)).
  assert (sorted ≡ₚ List.filter (live_of c f) (map_to_list (runs (db w))).*2) as Hp.
  { unfold sorted. rewrite merge_sort_Permutation. apply filter_perm, walk_perm. }
  assert (StronglySorted newer_run sorted) as Hs.
  { apply Sorted_StronglySorted; [intros x y z; unfold newer_run; lia|]. apply Sorted_merge_sort. intros x y. unfold newer_run. lia. }
  apply HQ; [split; cbn; [lia|done..]|done|]. intros l' [= <-]. unfold limited. case_decide as Hc; [|exists []; rewrite app_nil_r; split; [done|intros x []%elem_of_nil]].
  exists (drop (Z.to_nat limit) sorted). rewrite take_drop. split; [done|]. intros x Hx. rewrite <- (Permutation_length (filter_perm _ _ _ Hp)).
  pose proof (cut_off_older (Z.to_nat limit) sorted x Hs ltac:(lia) Hx). lia.
Qed.

Lemma wp_FindAutomationRunByKey c f key since w Q :
  (forall r w', keeps w w' ->
     (forall x, r = Ok (Some x) -> exists id, runs (db w) !! id = Some x) ->
     (r = Ok None -> forall id x, runs (db w) !! id = Some x -> has_key c f key since x = false) -> Q r w') ->
  wp (FindAutomationRunByKey O c f key since) w Q.
Proof using walk_perm.
  intros HQ. apply wp_io; intros Hf; [apply HQ; [split; cbn; [lia|done..]|done..]|].
  apply wp_bind, wp_consult, wp_ret. set (l := walk O _ _ _). assert (l ≡ₚ (map_to_list (runs (db w))).*2) as Hp by apply walk_perm.
  apply HQ; [split; cbn; [lia|done..]| |].
  - intros x [= H]. apply find_some in H as [Hin _]. apply list_elem_of_In in Hin. rewrite Hp in Hin.
    apply list_elem_of_fmap in Hin as ([id y] & -> & Hy). exists id. by apply elem_of_map_to_list in Hy.
  - intros [= H] id x Hx. apply (find_none _ _ H). apply list_elem_of_In. rewrite Hp. apply list_elem_of_fmap. exists (id, x).
    split; [done|by apply elem_of_map_to_list].
Qed.

Lemma wp_CountAutomationRunsSince c f since w Q :
  (forall r w', keeps w w' ->
     (forall n, r = Ok n -> n = Z.of_nat (length (List.filter (counted c f since) (map_to_list (runs (db w))).*2))) -> Q r w') ->
  wp (CountAutomationRunsSince O c f since) w Q.
Proof using Type.
  intros HQ. apply wp_io; intros Hf; [apply HQ; [split; cbn; [lia|done..]|done..]|].
  apply wp_ret, HQ; [split; cbn; [lia|done..]|]. by intros n [= <-].
Qed.
End store.

#[export] Hint Resolve quiescent_NewString quiescent_time quiescent_ranged quiescent_logs quiescent_node : quiescent.
#[export] Hint Extern 1 (quiescent (GetAutomationFlow ?O ?a ?b)) => exact (proj1 (quiescent_reads O a b ""%string ""%string 0 0 0 0)) : quiescent.
