(* ===== verification/ServiceSpec.v ===== *)
(** * What the automation service promises

    An abstract machine over the table of runs: time passes, a run is admitted, a run
    moves, a queued run is started.  The guards are the limits of a flow.  The invariants
    of the machine are proved here; [ServiceProps] proves that every operation of the
    service is a sequence of its steps. *)
From S2P Require Export Service AutoStoreProps.
From S2P Require Import FlowDef Value Engine AutoStore AutoStoreProps.

(** ** Counting rows *)
Definition rows (p : AutomationRun -> bool) (m : gmap string AutomationRun) : Z := tally p (map_to_list m).*2.

Lemma tally_nil p : tally p [] = 0.
Proof. done. Qed.
Lemma tally_cons p r l : tally p (r :: l) = Z.b2z (p r) + tally p l.
Proof. unfold tally. cbn [List.filter]. destruct (p r); cbn [length Z.b2z]; lia. Qed.
Lemma tally_nonneg p l : 0 <= tally p l.
Proof. unfold tally. lia. Qed.
#[export] Instance tally_perm p : Proper ((≡ₚ) ==> (=)) (tally p).
Proof. intros l l' H. induction H; rewrite ?tally_cons in *; lia. Qed.
Lemma tally_filter p q l : tally p (List.filter q l) = tally (fun r => q r && p r) l.
Proof.
  induction l as [|r l IH]; [done|]. cbn [List.filter]. rewrite (tally_cons (fun r => q r && p r)). destruct (q r); cbn [andb Z.b2z]; rewrite ?tally_cons; lia.
Qed.
Lemma tally_le p q l : (forall r, p r = true -> q r = true) -> tally p l <= tally q l.
Proof.
  intros H. induction l as [|r l IH]; [done|]. rewrite !tally_cons. specialize (H r). destruct (p r); [rewrite H by done|destruct (q r)]; cbn [Z.b2z] in *; lia.
Qed.
Lemma tally_none p l : (forall r, r ∈ l -> p r = false) -> tally p l = 0.
Proof.
  induction l as [|r l IH]; [done|]. intros H. rewrite tally_cons, (H r) by apply list_elem_of_here. rewrite IH; [done|].
  intros r' Hr. apply H. by apply list_elem_of_further.
Qed.
Lemma tally_pos p l r : r ∈ l -> p r = true -> 0 < tally p l.
Proof.
  induction l as [|r' l IH]; intros Hr Hp; [by apply elem_of_nil in Hr|]. rewrite tally_cons. apply elem_of_cons in Hr as [<- |Hr].
  - rewrite Hp. pose proof (tally_nonneg p l). cbn. lia.
  - specialize (IH Hr Hp). destruct (p r'); cbn; lia.
Qed.

Lemma rows_new p m id r : m !! id = None -> rows p (<[id := r]> m) = rows p m + Z.b2z (p r).
Proof.
  intros H. unfold rows. rewrite (map_to_list_insert m id r H). rewrite fmap_cons, tally_cons. cbn [snd]. lia.
Qed.
Lemma rows_old p m id r r' : m !! id = Some r -> rows p (<[id := r']> m) = rows p m - Z.b2z (p r) + Z.b2z (p r').
Proof.
  intros H. rewrite <- insert_delete_eq. rewrite rows_new by apply lookup_delete_eq.
  rewrite <- (insert_delete_id m id r H) at 2. rewrite rows_new by apply lookup_delete_eq. lia.
Qed.
Lemma rows_nonneg p m : 0 <= rows p m.
Proof. apply tally_nonneg. Qed.
Lemma rows_le p q m : (forall r, p r = true -> q r = true) -> rows p m <= rows q m.
Proof. apply tally_le. Qed.
Lemma rows_none p m : (forall id r, m !! id = Some r -> p r = false) -> rows p m = 0.
Proof.
  intros H. apply tally_none. intros r ([id r'] & -> & Hr)%list_elem_of_fmap. apply elem_of_map_to_list in Hr. by apply (H id).
Qed.
Lemma rows_pos p m id r : m !! id = Some r -> p r = true -> 0 < rows p m.
Proof.
  intros H Hp. apply (tally_pos p _ r); [|done]. apply list_elem_of_fmap. exists (id, r). split; [done|]. by apply elem_of_map_to_list.
Qed.

Definition active (c f : string) : gmap string AutomationRun -> Z := rows (fun r => live_of c f r && active_run r).
Definition queued (c f : string) : gmap string AutomationRun -> Z := rows (fun r => live_of c f r && queued_run r).

(** The service looks at the 500 newest rows of a flow, of which rows are never deleted: its
    active and queued runs are to be among them. *)
Definition pending_run (r : AutomationRun) : bool := active_run r || queued_run r.
Definition newer_than (c f : string) (t : Z) (r : AutomationRun) : bool := live_of c f r && (t <=? aCreatedAt r).
Definition visible (c f : string) (m : gmap string AutomationRun) : Prop := forall id r,
  m !! id = Some r -> live_of c f r = true -> pending_run r = true -> rows (newer_than c f (aCreatedAt r)) m <= 500.

(** The same for every table between [m] and [m']. *)
Definition room (c f : string) (m m' : gmap string AutomationRun) : Prop := forall id r',
  m' !! id = Some r' -> live_of c f r' = true -> (forall r, m !! id = Some r -> pending_run r = true) ->
  rows (newer_than c f (aCreatedAt r')) m' <= 500.

(** ** The machine *)

(** What of a run never changes. *)
Definition birth (r : AutomationRun) :=
  (aID r, aCluster r, aFlow r, aDry r, aTriggerKind r, IdempotencyKey r, CausedByRun r, ChainDepth r, aCreatedAt r).

Record admitted (req : StartRequest) (flow : AutomationFlow) (m : gmap string AutomationRun) (r : AutomationRun) : Prop := {
  ad_flow : aCluster r = qCluster req /\ aFlow r = qFlow req /\ aDry r = qDryRun req;
  ad_request : aTriggerKind r = firstText (qTriggerKind req) "manual" /\ IdempotencyKey r = qKey req /\
    CausedByRun r = qCausedByRun req /\ ChainDepth r = qChainDepth req;
  ad_enabled : qDryRun req = false -> UserStarted req = false -> Enabled flow = true;
  ad_key : qDryRun req = false -> qKey req <> ""%string -> forall id r', m !! id = Some r' ->
    has_key (qCluster req) (qFlow req) (qKey req) (aCreatedAt r - IdempotencyWindow) r' = false;
  ad_rate : qDryRun req = false -> UserStarted req = false -> aStatus r <> AutoRunDropped ->
    rows (counted (qCluster req) (qFlow req) (aCreatedAt r - minute_ns)) m < PerMinute (FlowLimits flow) /\
    rows (counted (qCluster req) (qFlow req) (aCreatedAt r - hour_ns)) m < PerHour (FlowLimits flow);
  ad_status : aStatus r = AutoRun RunPending \/ qDryRun req = false /\ (aStatus r = AutoRunQueued \/ aStatus r = AutoRunDropped);
  ad_slot : qDryRun req = false -> visible (qCluster req) (qFlow req) m ->
    match aStatus r with
    | AutoRunDropped => True
    | AutoRunQueued => Concurrency (FlowLimits flow) <= active (qCluster req) (qFlow req) m /\
                       queued (qCluster req) (qFlow req) m < QueueDepth (FlowLimits flow)
    | _ => active (qCluster req) (qFlow req) m < Concurrency (FlowLimits flow)
    end }.

(** Where a run's status may go without a new slot; [free] says whether it may give up its
    slot or its place in the queue. *)
Definition moves (free : bool) (s s' : auto_status) : Prop :=
  s' = s \/ (AutoRunActive s = true /\ exists e, s' = AutoRun e /\ (free = true \/ AutoRunActive s' = true)) \/
  (s = AutoRunQueued /\ s' = AutoRun RunCancelled /\ free = true).

Lemma birth_eq r r' : birth r' = birth r ->
  (aID r' = aID r /\ aCluster r' = aCluster r /\ aFlow r' = aFlow r /\ aDry r' = aDry r) /\ (aTriggerKind r' = aTriggerKind r /\
  IdempotencyKey r' = IdempotencyKey r /\ CausedByRun r' = CausedByRun r) /\ ChainDepth r' = ChainDepth r /\ aCreatedAt r' = aCreatedAt r.
Proof. unfold birth. intros H. injection H as -> -> -> -> -> -> -> -> ->. done. Qed.
Lemma live_birth c f (r r' : AutomationRun) : birth r' = birth r -> live_of c f r' = live_of c f r.
Proof. intros H. apply birth_eq in H as ((_ & E1 & E2 & E3) & _). unfold live_of. by rewrite E1, E2, E3. Qed.

Section machine.
Context (clk : nat -> Z) (terms_of : string -> option (string * string * Limits)).
(** The runs that may give up their slot. *)
Context (free : AutomationRun -> bool).
(** The requests that are made, with the runs there are then. *)
Context (asks : gmap string AutomationRun -> StartRequest -> Prop).

Definition abstract : Type := nat * gmap string AutomationRun.

Inductive srv : abstract -> abstract -> Prop :=
  | srv_time n n' m : (n <= n')%nat -> srv (n, m) (n', m)
  | srv_admit n n' k m req flow r :
      (n <= k < n')%nat -> aCreatedAt r = clk k -> m !! aID r = None ->
      terms_of (qFlow req) = Some (terms flow) -> asks m req -> admitted req flow m r ->
      srv (n, m) (n', <[aID r := r]> m)
  | srv_report n n' k m r :
      (n <= k < n')%nat -> aCreatedAt r = clk k -> m !! aID r = None ->
      aDry r = true -> CausedByRun r = ""%string -> ChainDepth r = 0 ->
      srv (n, m) (n', <[aID r := r]> m)
  | srv_move n n' m r r' :
      (n <= n')%nat -> m !! aID r = Some r -> birth r' = birth r -> moves (free r) (aStatus r) (aStatus r') ->
      srv (n, m) (n', <[aID r := r']> m)
  | srv_promote n n' m r r' t :
      (n <= n')%nat -> m !! aID r = Some r -> birth r' = birth r -> aDry r = false -> aStatus r = AutoRunQueued ->
      aStatus r' = AutoRun RunPending -> terms_of (aFlow r) = Some t ->
      (visible (aCluster r) (aFlow r) m -> active (aCluster r) (aFlow r) m < Concurrency (Normalized t.2)) ->
      srv (n, m) (n', <[aID r := r']> m).

(** *** Facts of every step *)
Definition keyed_runs (m : gmap string AutomationRun) : Prop := forall id r, m !! id = Some r -> aID r = id.

Lemma srv_tick a a' : srv a a' -> (a.1 <= a'.1)%nat.
Proof. intros []; cbn; lia. Qed.

Lemma srv_keyed a a' : srv a a' -> keyed_runs a.2 -> keyed_runs a'.2.
Proof.
  intros H Hk. destruct H; cbn in *; [done|..]; intros id x Hx; destruct (decide (id = aID r)) as [-> |]; rewrite ?lookup_insert_eq, ?lookup_insert_ne in Hx by done;
    simplify_eq; auto; by match goal with H : birth _ = birth _ |- _ => destruct (birth_eq _ _ H) as ((-> & _) & _) end.
Qed.

(** The rows only become more, and what a row was born with stays. *)
Lemma srv_grows a a' : srv a a' -> keyed_runs a.2 -> forall id r, a.2 !! id = Some r -> exists r', a'.2 !! id = Some r' /\ birth r' = birth r.
Proof.
  intros H Hk id x Hx. destruct H; cbn in *; [by exists x|..]; destruct (decide (id = aID r)) as [-> |Hne];
    try (exists x; by rewrite lookup_insert_ne by done); try congruence; exists r'; rewrite lookup_insert_eq; assert (x = r) as -> by congruence; done.
Qed.

(** A count by what rows were born with does not fall. *)
Lemma srv_rows a a' (p : AutomationRun -> bool) : (forall r r', birth r' = birth r -> p r' = p r) -> srv a a' -> rows p a.2 <= rows p a'.2.
Proof.
  intros Hp H. destruct H; cbn [snd]; [done|..].
  1, 2: rewrite rows_new by done; destruct (p r); cbn [Z.b2z]; lia.
  all: erewrite rows_old by done; erewrite (Hp r r') by done; lia.
Qed.
Lemma srvs_rows a a' (p : AutomationRun -> bool) : (forall r r', birth r' = birth r -> p r' = p r) -> rtc srv a a' -> rows p a.2 <= rows p a'.2.
Proof. intros Hp H. induction H as [|a b d Hab _ IH]; [done|]. pose proof (srv_rows a b p Hp Hab). lia. Qed.
Lemma srvs_keyed a a' : rtc srv a a' -> keyed_runs a.2 -> keyed_runs a'.2.
Proof. intros H. induction H; eauto using srv_keyed. Qed.
Lemma srvs_grow a a' : rtc srv a a' -> keyed_runs a.2 -> forall id r, a.2 !! id = Some r -> exists r', a'.2 !! id = Some r' /\ birth r' = birth r.
Proof.
  intros H. induction H as [|a b d Hab _ IH]; intros Hk id r Hr; [by exists r|].
  destruct (srv_grows a b Hab Hk id r Hr) as (r1 & H1 & E1). destruct (IH (srv_keyed a b Hab Hk) id r1 H1) as (r2 & H2 & E2).
  exists r2. split; [done|congruence].
Qed.

(** A run that ended does not come back. *)
Lemma moves_pending b s s' : moves b s s' -> AutoRunActive s' || bool_decide (s' = AutoRunQueued) = true -> AutoRunActive s || bool_decide (s = AutoRunQueued) = true.
Proof. intros [-> |[[-> _]|(-> & _)]]; [done|by intros _|intros _; by rewrite bool_decide_true]. Qed.

Lemma srv_pending a a' id r r' : srv a a' -> a.2 !! id = Some r -> a'.2 !! id = Some r' -> pending_run r' = true -> pending_run r = true.
Proof.
  intros H Hr Hr' Hp. destruct H; cbn [snd] in *; [congruence|..]; apply lookup_insert_Some in Hr' as [[<- <-]|[_ Hr']]; try congruence;
    match goal with H : _ !! aID ?x = Some ?x |- _ => rewrite H in Hr; injection Hr as <- end.
  - unfold pending_run, active_run, queued_run in *. by eapply moves_pending.
  - unfold pending_run, queued_run. match goal with H : aStatus _ = AutoRunQueued |- _ => rewrite H end. by rewrite bool_decide_true, orb_true_r.
Qed.

Lemma newer_birth c f t (r r' : AutomationRun) : birth r' = birth r -> newer_than c f t r' = newer_than c f t r.
Proof. intros H. unfold newer_than. rewrite (live_birth c f r r' H). by apply birth_eq in H as (_ & _ & _ & ->). Qed.

Lemma srvs_pending a a' id r r' : rtc srv a a' -> keyed_runs a.2 -> a.2 !! id = Some r -> a'.2 !! id = Some r' -> pending_run r' = true -> pending_run r = true.
Proof.
  intros H. revert r. induction H as [|a b d Hab _ IH]; intros r Hk Hr Hr' Hp; [congruence|].
  destruct (srv_grows a b Hab Hk id r Hr) as (r1 & H1 & _). eapply srv_pending; [done..|]. apply (IH r1); [by eapply srv_keyed|done..].
Qed.

(** Every table between two with room is visible. *)
Lemma room_visible a b d c f : keyed_runs a.2 -> rtc srv a b -> rtc srv b d -> room c f a.2 d.2 -> visible c f b.2.
Proof.
  intros Hk Hab Hbd Hroom id r Hr Hl Hp. destruct (srvs_grow b d Hbd (srvs_keyed a b Hab Hk) id r Hr) as (r' & Hr' & Hb).
  etransitivity; [apply (srvs_rows b d); [intros; by apply newer_birth|done]|]. pose proof (birth_eq _ _ Hb) as (_ & _ & _ & <-).
  apply (Hroom id); [done|by rewrite (live_birth c f r r')|]. intros r0 Hr0. by eapply (srvs_pending a b).
Qed.

(** ** Slots: the active runs of a flow, and its queue, stay in their limits *)
Section slots.
Context (c f : string) (name : string * string) (l : Limits) (Hterms : terms_of f = Some (name, l)).
Definition slots (m : gmap string AutomationRun) : Prop :=
  active c f m <= Concurrency (Normalized l) /\ queued c f m <= QueueDepth (Normalized l).

Lemma live_here (r : AutomationRun) : live_of c f r = true <-> aCluster r = c /\ aFlow r = f /\ aDry r = false.
Proof. unfold live_of. rewrite !andb_true_iff, !bool_decide_eq_true, negb_true_iff. naive_solver. Qed.

Lemma srv_slots a a' : srv a a' -> visible c f a.2 -> slots a.2 -> slots a'.2.
Proof.
  intros H Hv0 Hs.
  unfold slots, active, queued in *. destruct H as [n n' m H|n n' k m req flow r Hk Hc Hn Ht Ha Had|n n' k m r Hk Hc Hn Hd _ _|n n' m r r' Hn Hr Hb Hm|n n' m r r' t Hn Hr Hb Hd Hs1 Hs2 Ht Hslot];
    cbn [fst snd] in *; [done|..].
  - rewrite !rows_new by done. destruct (live_of c f r) eqn:El; cbn [andb Z.b2z]; [|lia]. apply live_here in El as (E1 & E2 & E3).
    destruct Had as [(F1 & F2 & F3) _ _ _ _ Hst Hslot]. rewrite E3 in F3. rewrite <- F2, E2, Hterms in Ht. injection Ht as Hname Hlim.
    specialize (Hslot ltac:(done)). rewrite <- F1, <- F2, E1, E2 in Hslot. specialize (Hslot Hv0). unfold active, queued, active_run, queued_run, FlowLimits in *.
    rewrite <- Hlim in Hslot. destruct Hst as [Hst|[_ [Hst|Hst]]]; rewrite Hst in *; cbn [AutoRunActive Z.b2z] in *; rewrite ?bool_decide_true, ?bool_decide_false by done; cbn [Z.b2z]; lia.
  - rewrite !rows_new by done. assert (live_of c f r = false) as -> by (unfold live_of; rewrite Hd; by rewrite andb_false_r). cbn [andb Z.b2z]; lia.
  - rewrite !(rows_old _ m _ r r') by done. rewrite (live_birth c f r r' Hb). destruct (live_of c f r); cbn [andb Z.b2z]; [|lia]. unfold active_run, queued_run in *.
    destruct Hm as [-> |[[Ha (e & -> & _)]|(-> & -> & _)]]; [lia| |rewrite (bool_decide_true (AutoRunQueued = _)), bool_decide_false by done; cbn [AutoRunActive Z.b2z]; lia]. rewrite Ha, (bool_decide_false (AutoRun e = _)) by done.
    rewrite bool_decide_false; [|by intros E; rewrite E in Ha]. cbn [Z.b2z]. destruct e; cbn [AutoRunActive Z.b2z]; lia.
  - rewrite !(rows_old _ m _ r r') by done. rewrite (live_birth c f r r' Hb). destruct (live_of c f r) eqn:El; cbn [andb Z.b2z]; [|lia].
    apply live_here in El as (E1 & E2 & _). rewrite E1, E2 in Hslot. rewrite E2, Hterms in Ht. injection Ht as <-. specialize (Hslot Hv0). cbn [snd] in Hslot.
    unfold active, active_run, queued_run in *. rewrite Hs1, Hs2, (bool_decide_true (AutoRunQueued = _)), bool_decide_false by done. cbn [AutoRunActive Z.b2z]. lia.
Qed.

(** The same along a sequence of steps with room. *)
Lemma along (P : gmap string AutomationRun -> Prop) a a' :
  (forall x y, srv x y -> visible c f x.2 -> P x.2 -> P y.2) -> rtc srv a a' -> keyed_runs a.2 -> room c f a.2 a'.2 -> P a.2 -> P a'.2.
Proof.
  intros Hstep H Hk Hroom. assert (forall b, rtc srv a b -> rtc srv b a' -> P b.2 -> P a'.2) as Hall; [|by apply Hall].
  intros b Hab Hb. revert Hab. induction Hb as [b|b d a' Hbd Hda IH]; intros Hab Hp; [done|].
  apply IH; try done; [by eapply rtc_r|]. eapply Hstep; [done| |done]. eapply (room_visible a b); [done|done|by eapply rtc_l|done].
Qed.
Lemma srvs_slots a a' : rtc srv a a' -> keyed_runs a.2 -> room c f a.2 a'.2 -> slots a.2 -> slots a'.2.
Proof. apply along. apply srv_slots. Qed.

(** *** No queued run waits beside a free slot *)
Definition calm (m : gmap string AutomationRun) : Prop :=
  queued c f m = 0 \/ Concurrency (Normalized l) <= active c f m.

Lemma srv_calm a a' : (forall r, live_of c f r = true -> free r = false) -> srv a a' -> visible c f a.2 -> calm a.2 -> calm a'.2.
Proof.
  intros Hfree H Hv Hc. unfold calm, active, queued in *.
  destruct H as [n n' m H|n n' k m req flow r Hk Hcr Hn Ht Ha Had|n n' k m r Hk Hcr Hn Hd _ _|n n' m r r' Hn Hr Hb Hm|n n' m r r' t Hn Hr Hb Hd Hs1 Hs2 Ht Hslot]; cbn [fst snd] in *; [done|..].
  - rewrite !rows_new by done. destruct (live_of c f r) eqn:El; cbn [andb Z.b2z]; [|lia]. apply live_here in El as (E1 & E2 & E3).
    destruct Had as [(F1 & F2 & F3) _ _ _ _ Hst Hslot]. rewrite E3 in F3. rewrite <- F2, E2, Hterms in Ht. injection Ht as Hname Hlim.
    specialize (Hslot ltac:(done)). rewrite <- F1, <- F2, E1, E2 in Hslot. specialize (Hslot Hv). unfold active, queued, active_run, queued_run, FlowLimits in *.
    rewrite <- Hlim in Hslot. destruct Hst as [Hst|[_ [Hst|Hst]]]; rewrite Hst in *; cbn [AutoRunActive Z.b2z] in *; rewrite ?bool_decide_true, ?bool_decide_false by done; cbn [Z.b2z]; lia.
  - rewrite !rows_new by done. assert (live_of c f r = false) as -> by (unfold live_of; rewrite Hd; by rewrite andb_false_r). cbn [andb Z.b2z]; lia.
  - rewrite !(rows_old _ m _ r r') by done. rewrite (live_birth c f r r' Hb). destruct (live_of c f r) eqn:El; cbn [andb Z.b2z]; [|lia]. unfold active_run, queued_run in *.
    specialize (Hfree r El). destruct Hm as [-> |[(Ha & e & He & [Hf|Ha'])|(_ & _ & Hf)]]; [lia|congruence| |congruence]. rewrite Ha, Ha'.
    rewrite !bool_decide_false; [lia|by rewrite He|by intros E; rewrite E in Ha].
  - destruct (live_of c f r) eqn:El; [|rewrite !(rows_old _ m _ r r') by done; rewrite (live_birth c f r r' Hb), El; cbn [andb Z.b2z]; lia].
    pose proof (proj1 (live_here r) El) as (E1 & E2 & _). rewrite E1, E2 in Hslot. rewrite E2, Hterms in Ht. injection Ht as <-. specialize (Hslot Hv). cbn [snd] in Hslot.
    exfalso. assert (0 < rows (fun r => live_of c f r && queued_run r) m); [|unfold active in Hslot; lia].
    eapply rows_pos; [done|]. unfold queued_run. by rewrite El, Hs1.
Qed.

Lemma srvs_calm a a' : (forall r, live_of c f r = true -> free r = false) -> rtc srv a a' -> keyed_runs a.2 -> room c f a.2 a'.2 -> calm a.2 -> calm a'.2.
Proof. intros Hfree. apply along. intros x y. by apply srv_calm. Qed.
End slots.

(** ** One live run per key and day *)
Definition key_once (m : gmap string AutomationRun) : Prop := forall i j r r',
  m !! i = Some r -> m !! j = Some r' -> i <> j -> aDry r = false -> aDry r' = false ->
  aCluster r = aCluster r' -> aFlow r = aFlow r' -> IdempotencyKey r = IdempotencyKey r' -> IdempotencyKey r <> ""%string ->
  IdempotencyWindow < Z.abs (aCreatedAt r - aCreatedAt r').

(** It is enough to look at what runs were born with. *)
Lemma key_once_births m m' : (forall i r', m' !! i = Some r' -> exists r, m !! i = Some r /\ birth r' = birth r) -> key_once m -> key_once m'.
Proof.
  intros H Hm i j r r' Hi Hj Hne. destruct (H i r Hi) as (x & Hx & Ex), (H j r' Hj) as (y & Hy & Ey).
  apply birth_eq in Ex as ((_ & -> & -> & ->) & (_ & -> & _) & _ & ->). apply birth_eq in Ey as ((_ & -> & -> & ->) & (_ & -> & _) & _ & ->).
  by apply (Hm i j x y).
Qed.

Lemma changed_births (m : gmap string AutomationRun) r r' : m !! aID r = Some r -> birth r' = birth r ->
  forall i x, <[aID r := r']> m !! i = Some x -> exists y, m !! i = Some y /\ birth x = birth y.
Proof.
  intros Hr Hb i x Hx. destruct (decide (i = aID r)) as [-> |Hne]; rewrite ?lookup_insert_eq, ?lookup_insert_ne in Hx by done; [|by exists x].
  exists r. split; [done|congruence].
Qed.

Lemma key_once_new (m : gmap string AutomationRun) r :
  key_once m -> (aDry r = false -> IdempotencyKey r <> ""%string -> forall id r', m !! id = Some r' ->
    has_key (aCluster r) (aFlow r) (IdempotencyKey r) (aCreatedAt r - IdempotencyWindow) r' = false) ->
  key_once (<[aID r := r]> m).
Proof.
  assert (forall i x, m !! i = Some x -> aDry r = false -> aDry x = false -> aCluster r = aCluster x -> aFlow r = aFlow x ->
    IdempotencyKey r = IdempotencyKey x -> IdempotencyKey r <> ""%string ->
    (forall id r', m !! id = Some r' -> has_key (aCluster r) (aFlow r) (IdempotencyKey r) (aCreatedAt r - IdempotencyWindow) r' = false) ->
    IdempotencyWindow < aCreatedAt r - aCreatedAt x) as Hfar.
  { intros i x Hx Dr Dx Ec Ef Ek Hk Hno. specialize (Hno i x Hx). unfold has_key, live_of in Hno.
    rewrite Dx, <- Ec, <- Ef, <- Ek, !bool_decide_true in Hno by done. cbn [andb negb] in Hno. apply Z.leb_gt in Hno. lia. }
  intros Hm Hno i j x y [[<- <-]|[Hi Hx]]%lookup_insert_Some [[<- <-]|[Hj Hy]]%lookup_insert_Some Hne Dx Dy Ec Ef Ek Hk; [done|..|by apply (Hm i j)].
  - specialize (Hfar j y Hy Dx Dy Ec Ef Ek Hk (Hno Dx Hk)). lia.
  - rewrite Ek in Hk. specialize (Hfar i x Hx Dy Dx ltac:(done) ltac:(done) ltac:(done) Hk (Hno Dy Hk)). lia.
Qed.

Lemma srv_key a a' : srv a a' -> key_once a.2 -> key_once a'.2.
Proof.
  intros H Hm. destruct H as [n n' m H|n n' k m req flow r Hk Hc Hn Ht Ha Had|n n' k m r Hk Hc Hn Hd _ _|n n' m r r' Hn Hr Hb Hmv|n n' m r r' t Hn Hr Hb Hd Hs1 Hs2 Ht Hslot]; cbn [snd] in *; [done|..].
  - apply key_once_new; [done|]. destruct Had as [(F1 & F2 & F3) (_ & F4 & _) _ Hkey _ _ _]. rewrite F1, F2, F3, F4. done.
  - apply key_once_new; [done|]. by rewrite Hd.
  - eapply key_once_births; [|done]. by apply changed_births.
  - eapply key_once_births; [|done]. by apply changed_births.
Qed.

(** ** Rates: how many triggered runs a window of time holds *)
Section rate.
Context (c f : string) (name : string * string) (l : Limits) (Hterms : terms_of f = Some (name, l)).
Context (clk_mono : forall i j, (i <= j)%nat -> clk i <= clk j).
Context (asks_triggered : forall m req, asks m req -> UserStarted req = true -> qDryRun req = false -> firstText (qTriggerKind req) "manual" = "manual"%string).

Definition within (span from : Z) (r : AutomationRun) : bool := counted c f from r && (aCreatedAt r <=? from + span).
Definition rate_ok (a : abstract) : Prop :=
  (forall id r, a.2 !! id = Some r -> aCreatedAt r <= clk a.1) /\
  forall from, rows (within minute_ns from) a.2 <= PerMinute (Normalized l) /\ rows (within hour_ns from) a.2 <= PerHour (Normalized l).

Lemma within_moved r r' span from : birth r' = birth r -> (aStatus r' = AutoRunDropped <-> aStatus r = AutoRunDropped) -> within span from r' = within span from r.
Proof.
  intros Hb Hs. unfold within, counted. rewrite (live_birth c f r r' Hb). apply birth_eq in Hb as (_ & (-> & _) & _ & ->).
  by rewrite (bool_decide_ext (aStatus r' <> AutoRunDropped) (aStatus r <> AutoRunDropped)) by tauto.
Qed.

Lemma moves_dropped b s s' : moves b s s' -> s' = AutoRunDropped <-> s = AutoRunDropped.
Proof.
  intros [-> |[[Ha (e & -> & _)]|(-> & -> & _)]]; [done| |done]. split; [done|]. by intros ->.
Qed.

(** A window that holds a new run holds no more old ones than the window that ends with it. *)
Lemma within_new span limit (m : gmap string AutomationRun) r from t :
  (forall id x, m !! id = Some x -> aCreatedAt x <= t) -> t <= aCreatedAt r -> 0 <= span ->
  rows (within span from) m <= limit ->
  (within span from r = true -> rows (counted c f (aCreatedAt r - span)) m < limit) ->
  rows (within span from) m + Z.b2z (within span from r) <= limit.
Proof.
  intros Ht Hr Hsp Hold Hnew. destruct (within span from r) eqn:E; cbn [Z.b2z]; [|lia]. specialize (Hnew eq_refl).
  assert (rows (within span from) m <= rows (counted c f (aCreatedAt r - span)) m); [|lia]. apply rows_le. intros x Hx.
  unfold within in *. apply andb_true_iff in E as [E1 E2]. apply andb_true_iff in Hx as [Hx _]. unfold counted in *. rewrite !andb_true_iff, !Z.leb_le in *. destruct_and!. split_and!; [done|lia|done..].
Qed.

Lemma rate_ok_insert (n n' k : nat) (m : gmap string AutomationRun) (r : AutomationRun) :
  (n <= k < n')%nat -> aCreatedAt r = clk k -> m !! aID r = None -> rate_ok (n, m) ->
  (forall from, within minute_ns from r = true -> rows (counted c f (aCreatedAt r - minute_ns)) m < PerMinute (Normalized l)) ->
  (forall from, within hour_ns from r = true -> rows (counted c f (aCreatedAt r - hour_ns)) m < PerHour (Normalized l)) ->
  rate_ok (n', <[aID r := r]> m).
Proof.
  intros Hk Hc Hn [Ht Hw] H1 H2. cbn [fst snd] in *. assert (clk n <= clk k /\ clk k <= clk n') as [C1 C2] by (split; apply clk_mono; lia).
  split; cbn [fst snd].
  - intros id x Hx. destruct (decide (id = aID r)) as [-> |]; rewrite ?lookup_insert_eq, ?lookup_insert_ne in Hx by done; simplify_eq; [lia|].
    specialize (Ht id x Hx). lia.
  - intros from. rewrite !rows_new by done. specialize (Hw from). split; eapply within_new; try done; try lia; unfold minute_ns, hour_ns, second_ns; try lia; intros; naive_solver.
Qed.

Lemma rate_ok_change (n n' : nat) (m : gmap string AutomationRun) (r r' : AutomationRun) :
  (n <= n')%nat -> m !! aID r = Some r -> birth r' = birth r -> (aStatus r' = AutoRunDropped <-> aStatus r = AutoRunDropped) ->
  rate_ok (n, m) -> rate_ok (n', <[aID r := r']> m).
Proof.
  intros Hn Hr Hb Hs [Ht Hw]. cbn [fst snd] in *. pose proof (clk_mono n n' Hn). split; cbn [fst snd].
  - intros id x Hx. destruct (changed_births m r r' Hr Hb id x Hx) as (y & Hy & E). apply birth_eq in E as (_ & _ & _ & ->). specialize (Ht id y Hy). lia.
  - intros from. rewrite !(rows_old _ m _ r r') by done. rewrite !(within_moved r r') by done. specialize (Hw from). lia.
Qed.

Lemma srv_rate a a' : srv a a' -> rate_ok a -> rate_ok a'.
Proof.
  intros H Hr. destruct H as [n n' m H|n n' k m req flow r Hk Hc Hn Ht Ha Had|n n' k m r Hk Hc Hn Hd _ _|n n' m r r' Hn Hr0 Hb Hmv|n n' m r r' t Hn Hr0 Hb Hd Hs1 Hs2 Ht Hslot].
  - destruct Hr as [H1 H2]. split; [|done]. intros id r Hr. specialize (H1 id r Hr). cbn in *. pose proof (clk_mono n n' H). lia.
  - destruct Had as [(F1 & F2 & F3) (F4 & _) _ _ Hrate _ _].
    assert (forall span from, within span from r = true -> qCluster req = c /\ qFlow req = f /\ qDryRun req = false /\ UserStarted req = false /\ aStatus r <> AutoRunDropped) as Hin.
    { intros span from E. unfold within, counted, live_of in E. rewrite !andb_true_iff, !bool_decide_eq_true, negb_true_iff in E.
      destruct E as [[[[[[E1 E2] E3] _] E4] E5] _]. rewrite <- F1, <- F2, <- F3. split_and!; [done..| |done].
      destruct (UserStarted req) eqn:Eu; [|done]. exfalso. apply E4. rewrite F4. eapply asks_triggered; [done..|]. by rewrite <- F3. }
    assert (forall span from, within span from r = true -> rows (counted c f (aCreatedAt r - minute_ns)) m < PerMinute (Normalized l) /\
        rows (counted c f (aCreatedAt r - hour_ns)) m < PerHour (Normalized l)) as Hlt.
    { intros span from E. destruct (Hin span from E) as (G1 & G2 & G3 & G4 & G5). rewrite G2, Hterms in Ht. injection Ht as Hname Hlim.
      specialize (Hrate G3 G4 G5). unfold FlowLimits in Hrate. by rewrite G1, G2, <- Hlim in Hrate. }
    apply (rate_ok_insert n n' k m r); [done..| |]; intros from E; apply (Hlt _ _ E).
  - apply (rate_ok_insert n n' k m r); [done..| |]; intros from E; unfold within, counted, live_of in E; rewrite Hd in E; cbn [negb] in E; by rewrite andb_false_r in E.
  - eapply rate_ok_change; try done. by eapply moves_dropped.
  - eapply rate_ok_change; try done. by rewrite Hs1, Hs2.
Qed.
End rate.

(** ** Chains of runs that start each other *)
Section chain.
(** A request names a run that there is as its cause, of another flow and one shallower,
    or none. *)
Context (asks_cause : forall m req, asks m req ->
  (qCausedByRun req = ""%string /\ qChainDepth req = 0) \/
  (exists cause, m !! qCausedByRun req = Some cause /\ aFlow cause <> qFlow req /\ qChainDepth req = ChainDepth cause + 1 /\ qChainDepth req <= MaxChainDepth)).

Definition caused (m : gmap string AutomationRun) (r : AutomationRun) : Prop :=
  (CausedByRun r = ""%string /\ ChainDepth r = 0) \/
  (exists cause, m !! CausedByRun r = Some cause /\ aFlow cause <> aFlow r /\ ChainDepth r = ChainDepth cause + 1 /\ ChainDepth r <= MaxChainDepth).
Definition chained (m : gmap string AutomationRun) : Prop := forall id r, m !! id = Some r -> 0 <= ChainDepth r /\ caused m r.

Lemma chained_new (m : gmap string AutomationRun) r : m !! aID r = None -> chained m -> caused m r -> chained (<[aID r := r]> m).
Proof.
  intros Hn Hm Hr id x Hx.
  assert (0 <= ChainDepth x /\ caused m x) as [H0 [H1|(y & Hy & H1)]].
  { destruct (decide (id = aID r)) as [-> |]; rewrite ?lookup_insert_eq, ?lookup_insert_ne in Hx by done; simplify_eq; [|by apply (Hm id)].
    split; [|done]. destruct Hr as [[_ ->]|(z & Hz & _ & -> & _)]; [done|]. destruct (Hm _ z Hz). lia. }
  - split; [done|by left].
  - split; [done|right]. exists y. split; [|done]. rewrite lookup_insert_ne; [done|congruence].
Qed.

Lemma chained_change (m : gmap string AutomationRun) r r' : m !! aID r = Some r -> birth r' = birth r -> chained m -> chained (<[aID r := r']> m).
Proof.
  intros Hr Hb Hm id x Hx. destruct (changed_births m r r' Hr Hb id x Hx) as (y & Hy & E). unfold caused.
  apply birth_eq in E as ((_ & _ & E1 & _) & (_ & _ & E2) & E3 & _). rewrite E1, E2, E3. destruct (Hm id y Hy) as [H0 [?|(z & Hz & ?)]]; (split; [done|]); [by left|right].
  destruct (decide (CausedByRun y = aID r)) as [E|Hne].
  - exists r'. rewrite E, lookup_insert_eq. split; [done|]. rewrite E, Hr in Hz. injection Hz as <-. by apply birth_eq in Hb as ((_ & _ & -> & _) & _ & -> & _).
  - exists z. by rewrite lookup_insert_ne.
Qed.

Lemma srv_chained a a' : srv a a' -> chained a.2 -> chained a'.2.
Proof.
  intros H Hm. destruct H as [n n' m H|n n' k m req flow r Hkk Hc Hn Ht Ha Had|n n' k m r Hkk Hc Hn Hd H1 H2|n n' m r r' Hn Hr Hb Hmv|n n' m r r' t Hn Hr Hb Hd Hs1 Hs2 Ht Hslot]; cbn [snd] in *; [done|..].
  - apply chained_new; [done..|]. destruct Had as [(_ & F2 & _) (_ & _ & F3 & F4) _ _ _ _ _]. unfold caused. rewrite F2, F3, F4. by apply asks_cause.
  - apply chained_new; [done..|by left].
  - by apply chained_change.
  - by apply chained_change.
Qed.

(** Runs each of which was caused by the next. *)
Inductive chain (m : gmap string AutomationRun) : list AutomationRun -> Prop :=
  | chain_one id r : m !! id = Some r -> chain m [r]
  | chain_cons id r r' l : m !! id = Some r -> CausedByRun r <> ""%string -> m !! CausedByRun r = Some r' -> chain m (r' :: l) -> chain m (r :: r' :: l).

Lemma chain_depth m r l : chained m -> chain m (r :: l) ->
  Z.of_nat (length l) <= ChainDepth r <= MaxChainDepth /\
  forall i x y, (r :: l) !! i = Some x -> (r :: l) !! S i = Some y -> aFlow x <> aFlow y.
Proof.
  intros Hm H. remember (r :: l) as rl eqn:E. revert r l E. induction H as [id r Hr|id r r' l Hr Hne Hc _ IH]; intros r0 l0 [= <- <-].
  - destruct (Hm id r Hr) as [H0 H1]. split; [|by intros [|[|]]]. cbn [length]. split; [done|]. destruct H1 as [[_ ->]|(c0 & _ & _ & _ & Hle)]; [by cbn|done].
  - destruct (IH r' l eq_refl) as [[H1 H2] H3]. destruct (Hm id r Hr) as [H0 [[? _]|(c0 & Hc0 & Hf & Hd & Hle)]]; [done|].
    rewrite Hc in Hc0. injection Hc0 as <-. cbn [length]. split; [lia|]. intros [|i] x y Hx Hy; [|by apply (H3 i)].
    cbn in Hx, Hy. simplify_eq. congruence.
Qed.
End chain.

End machine.
