(* ===== verification/ServiceProps.v ===== *)
(** * The automation service implements its abstract machine

    Every operation of [Service] is a sequence of steps of [ServiceSpec]'s machine,
    whatever calls of the store fail and in whatever order maps are walked. *)
From stdpp Require Import sorting.
From S2P Require Export ServiceSpec EngineStatus.
From S2P Require Import FlowDef Value Engine AutoStore AutoStoreProps ServiceSpec.

Section refine.
Context {CT : CaseTables} {PT : PrintTables} {cat : Catalog}.
Context (O : outside) (LoadLocation : string -> option Location) (cronFuel : nat).
Context (redactText : string -> string) (jsonLen : value -> option Z) (digest : Definition_ -> string).
Context (message_text : message -> string) (error_text : svcError -> string) (Owner : string).
Context (walk_perm : forall A n l, walk O A n l ≡ₚ l) (clock_real : forall k, clock O k <> zero_time).

(** ** Reading a published definition, logs and the breaker leave the runs alone *)
Lemma quiescent_modify f : (forall w, tick (f w) = tick w /\ db (f w) = db w) -> quiescent (modify f).
Proof using Type. intros H w _. destruct (H w) as [H1 H2]. split; cbn; rewrite ?H1, ?H2; done. Qed.

Lemma quiescent_parse d : quiescent (parse d).
Proof using Type. unfold parse. quiescent. Qed.

Lemma quiescent_PublishedDefinition f : quiescent (PublishedDefinition O digest f).
Proof using Type.
  unfold PublishedDefinition. case_decide; [quiescent|]. apply quiescent_bind; [quiescent|]. intros w.
  destruct (defs w !! _); [quiescent|]. apply quiescent_bind; [apply (quiescent_reads O (fCluster f) (fID f) ""%string ""%string (PublishedVersion f) 0 0 0)|].
  intros [v|]; [|quiescent]. case_decide; [quiescent|]. apply quiescent_bind; [apply quiescent_parse|]. intros d.
  apply quiescent_bind; [by apply quiescent_modify|quiescent].
Qed.

(** A computation that leaves the runs alone and does not fail. *)
Definition sure (m : M ()) : Prop := forall w, keyed w -> keeps w (m w).2 /\ (m w).1 = Ok ().

Lemma sure_quiescent m : sure m -> quiescent m.
Proof using Type. intros H w Hw. by apply H. Qed.
Lemma sure_wp m : (forall w, keyed w -> wp m w (fun r w' => keeps w w' /\ r = Ok ())) -> sure m.
Proof using Type. intros H w Hw. by apply H. Qed.
Lemma sure_ret : sure (mret ()).
Proof using Type. by intros w _. Qed.
Lemma sure_emit e : sure (emit e).
Proof using Type. intros w Hw. split; [by apply quiescent_emit|done]. Qed.
Lemma sure_quiet {A} (m : M A) : quiescent m -> sure (quiet m).
Proof using Type.
  intros H w Hw. split; [by apply quiescent_quiet|]. unfold quiet, attempt, mbind, M_bind. by destruct (m w) as [[a|e] w'].
Qed.
Lemma sure_then m k : sure m -> sure k -> sure (m ≫= fun _ => k).
Proof using Type.
  intros Hm Hk w Hw. destruct (Hm w Hw) as [H1 H2]. unfold mbind, M_bind. destruct (m w) as [r w']; cbn in *. subst r.
  destruct (Hk w' (keeps_keyed _ _ H1 Hw)) as [H3 H4]. split; [by etransitivity|done].
Qed.
Lemma wp_sure {A} m (k : M A) w Q : sure m -> keyed w -> (forall w', keeps w w' -> keyed w' -> wp k w' Q) -> wp (m ≫= fun _ => k) w Q.
Proof using Type.
  intros Hm Hw HQ. destruct (Hm w Hw) as [H1 H2]. apply wp_bind. unfold wp at 1. rewrite H2. apply HQ; [done|by eapply keeps_keyed].
Qed.

Lemma sure_addLog r l m t : sure (addLog O r l m t).
Proof using Type. apply sure_quiet, quiescent_logs. Qed.

(** The rest of an operation on a flow that was read, and nothing when it was not. *)
Lemma sure_with_flow c id (k : AutomationFlow -> M ()) :
  (forall w f, keyed w -> flows (db w) !! fID f = Some f -> fCluster f = c -> wp (k f) w (fun r w' => keeps w w' /\ r = Ok ())) ->
  sure (attempt (GetAutomationFlow O c id) ≫= fun flow => match flow with Some (Some f) => k f | _ => mret () end).
Proof using Type.
  intros Hs. apply sure_wp. intros w Hw. apply wp_bind, wp_attempt, wp_GetAutomationFlow. intros r w1 Hk1 Hdb Hread _.
  assert (keyed w1) as Hw1 by by eapply keeps_keyed. destruct r as [[f|]|e]; [|done..].
  destruct (Hread f eq_refl) as [Hf Hc]. eapply wp_mono; [apply Hs; [done|rewrite Hdb|done]|].
  - by rewrite (Hw id f Hf).
  - intros r w' [? ->]. split; [by etransitivity|done].
Qed.

Lemma quiescent_update (w : world) f f' : keyed w -> flows (db w) !! fID f = Some f -> terms f' = terms f ->
  forall Q, (forall r w', keeps w w' -> Q r w') -> wp (UpdateAutomationFlow O f') w Q.
Proof using Type.
  intros Hw Hf Ht Q HQ. apply wp_UpdateAutomationFlow; [|done]. intros old Hold. pose proof Ht as Ht'. injection Ht' as E _ _. rewrite E, Hf in Hold. injection Hold as <-.
  by rewrite Ht.
Qed.

Lemma terms_health b n r f : terms (set_health b n r f) = terms f.
Proof using Type. done. Qed.

Lemma terms_hit reason f : terms (after_hit reason f) = terms f.
Proof using Type. unfold after_hit. by destruct (trips f). Qed.

Lemma sure_turned_off c id f : sure (turned_off O c id f).
Proof using Type.
  unfold turned_off. repeat apply sure_then; try apply sure_emit. apply sure_quiet, (quiescent_schedules O (mkSchedule "" "" "" "" "" None "")).
Qed.

Lemma sure_breakerHit c id reason : sure (breakerHit O c id reason).
Proof using Type.
  apply sure_with_flow. intros w f Hw Hf _. apply wp_bind, wp_attempt, (quiescent_update w f _ Hw Hf (terms_hit reason f)).
  intros r w1 Hk1. assert (keyed w1) as Hw1 by by eapply keeps_keyed. destruct r; [|done]. destruct (trips f); [|done].
  destruct (sure_turned_off c id (after_hit reason f) w1 Hw1). split; [by etransitivity|done].
Qed.

(** ** Sequences of steps of the machine *)
Section served.
Context (T : string -> option (string * string * Limits)) (free : AutomationRun -> bool) (asks : gmap string AutomationRun -> StartRequest -> Prop).

Definition abs (w : world) : abstract := (tick w, runs (db w)).
Record good (w : world) : Prop := {
  g_flows : keyed w; g_runs : keyed_runs (runs (db w)); g_terms : forall id, terms <$> flows (db w) !! id = T id }.
Context (free_birth : forall r r', birth r' = birth r -> free r' = free r).
Notation steps := (rtc (srv (clock O) T free asks)).
Definition served (w w' : world) : Prop := good w' /\ steps (abs w) (abs w').
Definition serves {A} (m : M A) : Prop := forall w, good w -> served w (m w).2.

Lemma served_trans w1 w2 w3 : served w1 w2 -> served w2 w3 -> served w1 w3.
Proof. intros [_ H1] [H H2]. split; [done|by etransitivity]. Qed.

(** A step on the table that goes with the rest of the computation's effects. *)
Lemma moved_served w m w' : good w -> moved w m w' -> srv (clock O) T free asks (abs w) (tick w', m) -> served w w'.
Proof.
  intros Hg Hmv Hs. pose proof (k_runs _ _ Hmv) as Hr. cbn in Hr. split; [split|].
  - by apply (keeps_keyed _ _ Hmv), (g_flows w Hg).
  - rewrite Hr. apply (srv_keyed _ _ _ _ _ _ Hs). apply Hg.
  - intros id. rewrite (k_terms _ _ Hmv). apply Hg.
  - apply rtc_once. unfold abs at 2. by rewrite Hr.
Qed.
Lemma keeps_served w w' : good w -> keeps w w' -> served w w'.
Proof.
  intros Hg Hk. eapply moved_served; [done|exact (proj1 (moved_same w w') Hk)|]. apply srv_time, Hk.
Qed.
Lemma keeps_good w w' : good w -> keeps w w' -> good w'.
Proof. intros Hg Hk. by apply (keeps_served w w' Hg Hk). Qed.

Lemma serves_quiescent {A} (m : M A) : quiescent m -> serves m.
Proof. intros Hm w Hg. apply keeps_served; [done|]. apply Hm, Hg. Qed.
Lemma serves_bind {A B} (m : M A) (f : A -> M B) : serves m -> (forall a, serves (f a)) -> serves (m ≫= f).
Proof.
  intros Hm Hf w Hg. specialize (Hm w Hg). unfold mbind, M_bind. destruct (m w) as [[a|e] w'] eqn:E; [|done]. cbn in Hm.
  eapply served_trans; [done|]. apply Hf, Hm.
Qed.
Lemma serves_attempt {A} (m : M A) : serves m -> serves (attempt m).
Proof. intros Hm w Hg. specialize (Hm w Hg). unfold attempt. by destruct (m w) as [[a|e] w']. Qed.
Lemma serves_quiet {A} (m : M A) : serves m -> serves (quiet m).
Proof. intros Hm. apply serves_bind; [by apply serves_attempt|]. intros _. apply serves_quiescent. quiescent. Qed.
Lemma serves_catch {A} (m : M A) h : serves m -> (forall e, serves (h e)) -> serves (catch m h).
Proof.
  intros Hm Hh w Hg. specialize (Hm w Hg). unfold catch. destruct (m w) as [[a|e] w'] eqn:E; [done|]. cbn in Hm. eapply served_trans; [done|]. apply Hh, Hm.
Qed.
Lemma serves_finally {A B} (m : M A) (k : M B) : serves m -> serves k -> serves (finally m k).
Proof.
  intros Hm Hk w Hg. specialize (Hm w Hg). unfold finally. destruct (m w) as [r w1]. cbn in Hm.
  pose proof (serves_quiet k Hk w1 ltac:(apply Hm)) as H. destruct (quiet k w1) as [r' w2]. cbn in *. by eapply served_trans.
Qed.
Lemma serves_wp {A} (m : M A) : (forall w, good w -> wp m w (fun _ w' => served w w')) -> serves m.
Proof. intros H w Hg. by apply H. Qed.

(** ** Starting a run *)
Definition created (w : world) (req : StartRequest) (flow : AutomationFlow) (res : StartResult) (w' : world) : Prop :=
  runs (db w) !! aID (sRun res) = None /\ moved w (<[aID (sRun res) := sRun res]> (runs (db w))) w' /\
  admitted req flow (runs (db w)) (sRun res) /\ Existing res = false /\ (Dropped res = true <-> aStatus (sRun res) = AutoRunDropped).

Lemma keeps_moved w w1 m w' : keeps w w1 -> moved w1 m w' -> moved w m w'.
Proof. intros [] []. cbn in *. split; cbn; [lia|intros; etransitivity; eauto|congruence|done]. Qed.
Lemma moved_keeps w m w1 w' : moved w m w1 -> keeps w1 w' -> moved w m w'.
Proof. intros [] []. cbn in *. split; cbn; [lia|intros; etransitivity; eauto|congruence..]. Qed.

Lemma Ok_inj {E A} (a b : A) : @Ok E A a = Ok b -> a = b.
Proof. congruence. Qed.
Lemma rateDrop_text m h l : rateDrop m h l <> ""%string.
Proof. unfold rateDrop. by cbn. Qed.
Lemma queueDrop_text q : queueDrop q <> ""%string.
Proof. unfold queueDrop. by cbn. Qed.

Lemma wp_rateCheck req flow now w Q :
  (forall r w', keeps w w' -> (r = Ok ""%string ->
     rows (counted (qCluster req) (fID flow) (now - minute_ns)) (runs (db w)) < PerMinute (FlowLimits flow) /\
     rows (counted (qCluster req) (fID flow) (now - hour_ns)) (runs (db w)) < PerHour (FlowLimits flow)) -> Q r w') ->
  wp (rateCheck O req flow now) w Q.
Proof.
  intros HQ. apply wp_bind, wp_CountAutomationRunsSince. intros r1 w1 Hk1 H1. destruct r1 as [perMin|e]; [|by apply HQ].
  apply wp_bind, wp_CountAutomationRunsSince. intros r2 w2 Hk2 H2. destruct r2 as [perHour|e]; [|apply HQ; [by etransitivity|done]].
  specialize (H1 _ eq_refl). specialize (H2 _ eq_refl). rewrite (k_runs _ _ Hk1) in H2.
  apply wp_ret, HQ; [by etransitivity|]. intros Hd%Ok_inj. case_decide as Hc; [by apply rateDrop_text in Hd|]. unfold rows, tally. lia.
Qed.

Definition slot_free (c f : string) (l : Limits) (m : gmap string AutomationRun) (s : auto_status) : Prop :=
  match s with
  | AutoRunDropped => True
  | AutoRunQueued => Concurrency l <= active c f m /\ queued c f m < QueueDepth l
  | _ => active c f m < Concurrency l
  end.

(** What is cut off a list of the newest rows has neither active nor queued runs, when they
    are visible. *)
Definition newest (c f : string) (l : list AutomationRun) (m : gmap string AutomationRun) : Prop :=
  exists rest, l ++ rest ≡ₚ List.filter (live_of c f) (map_to_list m).*2 /\
  forall x, x ∈ rest -> 500 < Z.of_nat (length (List.filter (fun y => Z.leb (aCreatedAt x) (aCreatedAt y)) (List.filter (live_of c f) (map_to_list m).*2))).

Lemma counted_rows p c f l m : newest c f l m -> visible c f m -> (forall r, p r = true -> pending_run r = true) ->
  tally p l = rows (fun r => live_of c f r && p r) m.
Proof.
  intros (rest & Hp & Hold) Hv Hpend. unfold rows. rewrite <- tally_filter, <- Hp. unfold tally. rewrite List.filter_app, length_app.
  enough (List.filter p rest = []) as -> by (cbn; lia). destruct (List.filter p rest) as [|x k] eqn:E; [done|]. exfalso.
  assert (In x (List.filter p rest)) as [Hx Hpx]%filter_In by (rewrite E; by left). apply list_elem_of_In in Hx. specialize (Hold x Hx).
  assert (x ∈ List.filter (live_of c f) (map_to_list m).*2) as Hin by (rewrite <- Hp; set_solver). apply list_elem_of_In, filter_In in Hin as [Hin Hl].
  apply list_elem_of_In, list_elem_of_fmap in Hin as ([id y] & -> & Hy). apply elem_of_map_to_list in Hy. cbn in *. specialize (Hv id y Hy Hl (Hpend y Hpx)).
  unfold rows, newer_than in Hv. rewrite <- tally_filter in Hv. unfold tally in Hv. lia.
Qed.

Lemma active_pending r : active_run r = true -> pending_run r = true.
Proof. unfold pending_run. by intros ->. Qed.
Lemma queued_pending r : queued_run r = true -> pending_run r = true.
Proof. unfold pending_run. intros ->. by rewrite orb_true_r. Qed.

Lemma wp_queueCheck req flow w Q :
  (forall r w', keeps w w' -> (forall drop s, r = Ok (drop, s) ->
     (s = AutoRun RunPending \/ s = AutoRunQueued) /\
     (drop = ""%string -> visible (qCluster req) (fID flow) (runs (db w)) -> slot_free (qCluster req) (fID flow) (FlowLimits flow) (runs (db w)) s)) -> Q r w') ->
  wp (queueCheck O req flow) w Q.
Proof.
  intros HQ. apply wp_bind. unfold counts. apply wp_bind, wp_ListAutomationRuns; [done|done|]. intros r w1 Hk _ Hp. destruct r as [l|e]; [|by apply HQ].
  apply wp_ret, wp_ret, HQ; [done|]. intros drop s Hs%Ok_inj. split.
  { repeat case_decide; simplify_eq; auto. }
  intros -> Hv. specialize (Hp l eq_refl). unfold slot_free, active, queued.
  rewrite <- (counted_rows active_run _ _ l), <- (counted_rows queued_run _ _ l) by (done || apply active_pending || apply queued_pending).
  case_decide; [case_decide|]; simplify_eq; cbv iota; lia.
Qed.

(** After the row was made nothing fails. *)
Lemma wp_made (res : StartResult) (run : AutomationRun) (k : M StartResult) w Q :
  keyed w -> aCreatedAt run <> zero_time -> res.(sRun) = run ->
  (forall w', keyed w' -> wp k w' (fun r w'' => keeps w' w'' /\ r = Ok res)) ->
  (forall e w', keeps w w' -> Q (Err e) w') ->
  (forall w', runs (db w) !! aID run = None -> moved w (<[aID run := run]> (runs (db w))) w' -> Q (Ok res) w') ->
  wp (CreateAutomationRun O run ≫= fun _ => k) w Q.
Proof.
  intros Hw Hz Hres Hk He HQ. apply wp_bind, wp_CreateAutomationRun; [done|by intros e w' H _; apply He|]. intros w1 _ Hn Hm _.
  assert (keyed w1) as Hw1 by (eapply keeps_keyed; [exact Hm|done]). eapply wp_mono; [by apply Hk|]. cbn. intros r w2 [Hk2 ->]. apply HQ; [done|].
  by eapply moved_keeps.
Qed.

Lemma wp_drop_run req flow run drop now w Q :
  keyed w -> aCreatedAt run <> zero_time ->
  (forall e w', keeps w w' -> Q (Err e) w') ->
  (let run' := set_progress AutoRunDropped drop (aWakeAt run) (Some now) run in
   forall w', runs (db w) !! aID run = None -> moved w (<[aID run := run']> (runs (db w))) w' -> Q (Ok (mkStarted run' false true)) w') ->
  wp (drop_run O req flow run drop now) w Q.
Proof.
  intros Hw Hz He HQ. unfold drop_run. cbv zeta. set (run' := set_progress _ _ _ _ _) in *.
  apply (wp_made (mkStarted run' false true) run'); [done..| |done|by apply HQ]. intros w1 Hw1.
  apply wp_sure; [apply sure_addLog|done|]. intros w2 Hk2 Hw2. apply wp_sure; [apply sure_emit|done|]. intros w3 Hk3 Hw3.
  apply wp_sure; [apply sure_breakerHit|done|]. intros w4 Hk4 Hw4. apply wp_sure; [apply sure_emit|done|]. intros w5 Hk5 Hw5. apply wp_ret.
  split; [|done]. etransitivity; [exact Hk2|]. etransitivity; [exact Hk3|]. by etransitivity.
Qed.

Lemma wp_accept_run req flow run now w Q :
  keyed w -> aCreatedAt run <> zero_time ->
  (forall e w', keeps w w' -> Q (Err e) w') ->
  (forall w', runs (db w) !! aID run = None -> moved w (<[aID run := run]> (runs (db w))) w' -> Q (Ok (mkStarted run false false)) w') ->
  wp (accept_run O req flow run now) w Q.
Proof.
  intros Hw Hz He HQ. unfold accept_run. apply (wp_made (mkStarted run false false) run); [done..| |done|by apply HQ]. intros w1 Hw1.
  apply wp_sure; [case_decide; [apply sure_addLog|apply sure_ret]|done|]. intros w2 Hk2 Hw2. apply wp_sure; [apply sure_emit|done|]. intros w3 Hk3 Hw3.
  apply wp_sure; [apply sure_emit|done|]. intros w4 Hk4 Hw4. apply wp_ret. split; [|done]. etransitivity; [exact Hk2|]. by etransitivity.
Qed.

Lemma keeps_tick w : keeps w (set_tick (S (tick w)) w).
Proof. split; cbn; [lia|done..]. Qed.

(** The two checks of [Start], in order. *)
Definition limit_checks (req : StartRequest) (flow : AutomationFlow) (now : Z) : M (string * auto_status) :=
  let live := negb (qDryRun req) in
  drop ← (if live && negb (UserStarted req) then rateCheck O req flow now else mret ""%string);
  if live && bool_decide (drop = ""%string) then queueCheck O req flow else mret (drop, AutoRun RunPending).

Lemma wp_limit_checks req flow now w Q : fID flow = qFlow req ->
  (forall r w', keeps w w' -> (forall drop s, r = Ok (drop, s) ->
     (s = AutoRun RunPending \/ s = AutoRunQueued) /\ (qDryRun req = true -> drop = ""%string /\ s = AutoRun RunPending) /\
     (drop = ""%string -> qDryRun req = false ->
       (UserStarted req = false -> rows (counted (qCluster req) (qFlow req) (now - minute_ns)) (runs (db w)) < PerMinute (FlowLimits flow) /\
          rows (counted (qCluster req) (qFlow req) (now - hour_ns)) (runs (db w)) < PerHour (FlowLimits flow)) /\
       (visible (qCluster req) (qFlow req) (runs (db w)) -> slot_free (qCluster req) (qFlow req) (FlowLimits flow) (runs (db w)) s))) -> Q r w') ->
  wp (limit_checks req flow now) w Q.
Proof.
  intros Ef HQ. unfold limit_checks. cbv zeta. destruct (qDryRun req) eqn:Ed; cbn [negb andb].
  { apply wp_bind, wp_ret, wp_ret, HQ; [done|]. intros drop s [= <- <-]. split_and!; [by left|done|done]. }
  apply wp_bind. destruct (UserStarted req) eqn:Eu; cbn [negb].
  - apply wp_ret. rewrite bool_decide_true by done. apply wp_queueCheck. intros r w1 Hk Hr. apply HQ; [done|]. intros drop s ->.
    destruct (Hr drop s eq_refl) as [H1 H2]. split_and!; [done|done|]. intros Hd _. rewrite <- Ef. split; [done|by apply H2].
  - apply wp_rateCheck. intros r w1 Hk1 H1. destruct r as [drop|e]; [|by apply HQ]. destruct (decide (drop = ""%string)) as [-> |Hne].
    + rewrite bool_decide_true by done. apply wp_queueCheck. intros r w2 Hk2 Hr. apply HQ; [by etransitivity|]. intros drop s ->.
      destruct (Hr drop s eq_refl) as [H2 H3]. rewrite (k_runs _ _ Hk1) in H3. split_and!; [done|done|]. intros Hd _. rewrite <- Ef. split; [by intros _; apply H1|by apply H3].
    + rewrite bool_decide_false by done. apply wp_ret, HQ; [done|]. intros drop' s [= <- <-]. split_and!; [by left|done|done].
Qed.

Lemma wp_admit_run req flow d version now w Q :
  keyed w -> now <> zero_time -> fID flow = qFlow req ->
  (qDryRun req = false -> UserStarted req = false -> Enabled flow = true) ->
  (qDryRun req = false -> qKey req <> ""%string -> forall id r', runs (db w) !! id = Some r' ->
     has_key (qCluster req) (qFlow req) (qKey req) (now - IdempotencyWindow) r' = false) ->
  (forall e w', keeps w w' -> Q (Err e) w') ->
  (forall res w', created w req flow res w' -> aCreatedAt (sRun res) = now -> Q (Ok res) w') ->
  wp (admit_run O redactText jsonLen req flow d version now) w Q.
Proof.
  intros Hw Hz Ef Hen Hkey He Hok. unfold admit_run. cbv zeta. apply wp_bind, wp_consult, wp_bind, wp_consult.
  set (run := newRun _ _ _ _ _ _ _ _ _). set (w2 := set_tick _ _). assert (keeps w w2) as Hk2 by (subst w2; split; cbn; [lia|done..]).
  enough (wp (limit_checks req flow now) w2 (fun r w3 => match r with
    | Ok (drop, status) => wp (if decide (drop <> ""%string) then drop_run O req flow run drop now else accept_run O req flow (set_status status run) now) w3 Q
    | Err e => Q (Err e) w3 end)) as Hwp.
  { unfold limit_checks in Hwp. cbv zeta in Hwp. unfold wp in *. unfold mbind, M_bind in *. destruct ((if _ : bool then rateCheck O req flow now else _) w2) as [[drop|e] w3]; [|done].
    destruct ((if _ : bool then queueCheck O req flow else _) w3) as [[[drop' s]|e] w4]; done. }
  apply wp_limit_checks; [done|]. intros r w3 Hk3 Hr. assert (keeps w w3) as Hk by by etransitivity.
  assert (keyed w3) as Hw3 by by eapply keeps_keyed. destruct r as [[drop s]|e]; [|by apply He].
  destruct (Hr drop s eq_refl) as (Hs & Hdry & Hlim). rewrite (k_runs _ _ Hk2) in Hlim. clear Hr.
  assert (forall (r : AutomationRun), birth r = birth run -> runs (db w3) !! aID r = None -> (aStatus r = AutoRunDropped -> qDryRun req = false) ->
     (aStatus r <> AutoRunDropped -> drop = ""%string /\ aStatus r = s) -> admitted req flow (runs (db w)) r) as Had.
  { intros r Hb _ Hdd Hss. apply birth_eq in Hb as ((_ & B1 & B2 & B3) & (B4 & B5 & B6) & B7 & B8). subst run. cbn in B1, B2, B3, B4, B5, B6, B7, B8.
    split; rewrite ?B8; try done; [split_and!; congruence|..].
    - intros H1 H2 H3. destruct (Hss H3) as [-> _]. by apply Hlim.
    - destruct (decide (aStatus r = AutoRunDropped)) as [E|E]; [right; auto|]. destruct (Hss E) as [-> Es]. rewrite Es. destruct Hs as [-> | ->]; [by left|right].
      split; [|by left]. destruct (qDryRun req); [|done]. by destruct (Hdry eq_refl).
    - intros H1 H2. destruct (decide (aStatus r = AutoRunDropped)) as [E|E]; [by rewrite E|]. destruct (Hss E) as [-> Es]. specialize (proj2 (Hlim eq_refl H1) H2). by rewrite Es. }
  case_decide as Hd.
  - assert (qDryRun req = false) as Ed by (destruct (qDryRun req); [by destruct (Hdry eq_refl)|done]).
    apply wp_drop_run; [done|done|intros e w' H; apply He; by etransitivity|]. cbv zeta. intros w' Hn Hm. apply Hok; [|done].
    rewrite (k_runs _ _ Hk) in Hn. split_and!; [done|eapply keeps_moved; [done|by rewrite <- (k_runs _ _ Hk)]| |done|done].
    apply Had; [done|by rewrite (k_runs _ _ Hk)|done|done].
  - assert (aStatus (set_status s run) <> AutoRunDropped) as Hnd by (cbn; by destruct Hs as [-> | ->]).
    apply wp_accept_run; [done|done|intros e w' H; apply He; by etransitivity|]. intros w' Hn Hm. apply Hok; [|done].
    rewrite (k_runs _ _ Hk) in Hn. split_and!; [done|eapply keeps_moved; [done|by rewrite <- (k_runs _ _ Hk)]| |done|done].
    apply Had; [done|by rewrite (k_runs _ _ Hk)|done|]. intros _. split; [done|done].
Qed.

Notation Start := (Start O redactText jsonLen digest).

Lemma quiescent_definitionFor req flow : quiescent (definitionFor O digest req flow).
Proof.
  unfold definitionFor. destruct (qDefinition req); [quiescent|]. destruct (_ && _); apply quiescent_bind; try apply quiescent_parse; try apply quiescent_PublishedDefinition; quiescent.
Qed.

Lemma created_before_time w w1 req flow res w' : keeps w w1 -> created w1 req flow res w' -> created w req flow res w'.
Proof.
  intros Hk (H1 & H2 & H3 & H4). unfold created. rewrite <- (k_runs _ _ Hk). split_and!; [done|by eapply keeps_moved|done|apply H4|apply H4].
Qed.

(** Everything that can happen when a run is asked for. *)
Lemma wp_Start req w (Q : result svcError StartResult -> world -> Prop) :
  keyed w ->
  (forall e w', keeps w w' -> Q (Err e) w') ->
  (forall res w', keeps w w' -> Existing res = true -> Dropped res = false -> (exists id, runs (db w) !! id = Some (sRun res)) -> Q (Ok res) w') ->
  (forall res flow w', flows (db w) !! qFlow req = Some flow -> fCluster flow = qCluster req -> created w req flow res w' ->
     aCreatedAt (sRun res) = clock O (tick w) -> (tick w < tick w')%nat -> Q (Ok res) w') ->
  wp (Start req) w Q.
Proof.
  intros Hw He Hex Hok. apply wp_bind, wp_consult. set (w1 := set_tick _ _). assert (keeps w w1) as Hk1 by apply keeps_tick.
  apply wp_bind, wp_GetAutomationFlow. intros r w2 Hk2 _ Hread _. assert (keeps w w2) as Hk by by etransitivity.
  destruct r as [[flow|]|e]; [|by apply wp_throw, He|by apply He]. destruct (Hread flow eq_refl) as [Hf Hc].
  assert (fID flow = qFlow req) as Ef by (by apply (keeps_keyed _ _ Hk1 Hw)).
  apply wp_bind, wp_quiescent; [apply quiescent_definitionFor|by eapply keeps_keyed|]. intros r w3 Hk3 Hw3.
  assert (keeps w w3) as Hk' by by etransitivity. destruct r as [[d version]|e]; [|by apply He]. cbv zeta.
  destruct (negb (qDryRun req) && negb (UserStarted req) && negb (Enabled flow)) eqn:Een; [by apply wp_throw, He|].
  apply wp_bind. eassert (wp _ w3 (fun r w4 => keeps w3 w4 /\ match r with
      | Ok (Some x) => exists id, runs (db w3) !! id = Some x
      | Ok None => qDryRun req = false -> qKey req <> ""%string -> forall id x, runs (db w3) !! id = Some x ->
          has_key (qCluster req) (fID flow) (qKey req) (clock O (tick w) - IdempotencyWindow) x = false
      | Err _ => True end)) as Hfind; [|eapply wp_mono; [exact Hfind|]].
  { destruct (qDryRun req); cbn [negb andb]; [by apply wp_ret|]. case_bool_decide; [|by apply wp_ret].
    apply wp_FindAutomationRunByKey; [done|]. intros r w4 Hk4 H1 H2. split; [done|]. destruct r as [[x|]|e]; [by apply H1| |done]. intros _ _. by apply H2. }
  cbn beta. intros r w4 [Hk4 Hr]. assert (keeps w w4) as Hk'' by by etransitivity. destruct r as [[x|]|e]; [|..|by apply He].
  { apply wp_ret, Hex; try done. by rewrite <- (k_runs _ _ Hk'). }
  rewrite Ef in Hr. apply wp_admit_run; [by eapply keeps_keyed|apply clock_real|done| | |intros e w' H; apply He; by etransitivity|].
  - intros H1 H2. rewrite H1, H2 in Een. by destruct (Enabled flow).
  - by rewrite (k_runs _ _ Hk4).
  - intros res w' Hcr Ht. apply (Hok res flow); [done|done|by eapply created_before_time|done|]. destruct Hcr as (_ & Hm & _). pose proof (k_tick _ _ Hm).
    pose proof (k_tick _ _ Hk2). pose proof (k_tick _ _ Hk3). pose proof (k_tick _ _ Hk4). cbn in *. lia.
Qed.

Lemma served_Start req w : good w -> asks (runs (db w)) req -> wp (Start req) w (fun _ w' => served w w').
Proof.
  intros Hg Ha. apply wp_Start; [apply Hg|intros; by apply keeps_served|intros; by apply keeps_served|].
  intros res flow w' Hf Hc (Hn & Hm & Had & _) Ht Htick. eapply moved_served; [done..|]. eapply (srv_admit _ _ _ _ _ _ (tick w)); try done.
  rewrite <- (g_terms w Hg), Hf. done.
Qed.

(** *** The loop that starts queued runs *)
Lemma moved_run_birth r old s : birth (set_lease (LeaseOwner old) (LeaseUntil old) (aCreatedAt r) (set_status s r)) = birth r.
Proof. done. Qed.

Lemma rows_listed p (m : gmap string AutomationRun) l rest : keyed_runs m -> l ++ rest ≡ₚ List.filter p (map_to_list m).*2 ->
  (forall x, x ∈ l -> p x = true /\ m !! aID x = Some x) /\ NoDup (map aID l).
Proof.
  intros Hk Hp. assert (forall x, x ∈ List.filter p (map_to_list m).*2 -> p x = true /\ m !! aID x = Some x) as Hin.
  { intros x Hx. apply list_elem_of_In, filter_In in Hx as [Hx Hpx]. split; [done|]. apply list_elem_of_In, list_elem_of_fmap in Hx as ([id y] & -> & Hy).
    apply elem_of_map_to_list in Hy. cbn. by rewrite (Hk id y Hy). }
  split; [intros x Hx; apply Hin; rewrite <- Hp; set_solver|].
  assert (NoDup (map aID (List.filter p (map_to_list m).*2))) as Hnd.
  { assert (map aID (map_to_list m).*2 = (map_to_list m).*1) as E.
    { rewrite <- list_fmap_compose. apply list_fmap_ext. intros i [id y] Hy. apply list_elem_of_lookup_2, elem_of_map_to_list in Hy. by apply Hk. }
    pose proof (NoDup_fst_map_to_list m) as Hnd. rewrite <- E in Hnd. clear -Hnd. induction (map_to_list m).*2 as [|x l IH]; [constructor|].
    cbn in Hnd |- *. apply NoDup_cons in Hnd as [H1 H2]. destruct (p x); [|by apply IH]. cbn. apply NoDup_cons. split; [|by apply IH].
    intros (y & E & Hy)%list_elem_of_fmap. apply H1. apply list_elem_of_fmap. exists y. split; [done|]. apply list_elem_of_In, filter_In in Hy as [Hy _]. by apply list_elem_of_In. }
  apply (Permutation_map aID) in Hp. rewrite <- Hp, map_app in Hnd. by apply NoDup_app in Hnd as [? _].
Qed.

Definition startable (c f : string) (m : gmap string AutomationRun) (r : AutomationRun) : Prop :=
  m !! aID r = Some r /\ live_of c f r = true /\ aStatus r = AutoRunQueued.

Lemma live_of_spec c f r : live_of c f r = true -> aCluster r = c /\ aFlow r = f /\ aDry r = false.
Proof using Type. unfold live_of. rewrite !andb_true_iff, !bool_decide_eq_true, negb_true_iff. by intros [[-> ->] ->]. Qed.

(** Rows that go on pending change nothing of what is visible. *)
Lemma visible_row (m : gmap string AutomationRun) r r' c f : m !! aID r = Some r -> birth r' = birth r -> pending_run r = true ->
  visible c f m -> visible c f (<[aID r := r']> m).
Proof.
  intros Hr Hb Hp Hv id x Hx Hl Hpx. rewrite (rows_old _ m _ r r') by done. rewrite (newer_birth c f _ r r' Hb).
  destruct (changed_births m r r' Hr Hb id x Hx) as (y & Hy & Eb). pose proof (birth_eq _ _ Eb) as (_ & _ & _ & Et). rewrite (live_birth c f y x) in Hl by done.
  assert (pending_run y = true) as Hpy. { apply lookup_insert_Some in Hx as [[<- <-]|[_ Hx]]; [by simplify_eq|congruence]. }
  specialize (Hv id y Hy Hl Hpy). rewrite Et. lia.
Qed.

Lemma wp_promote_loop c f t : T f = Some t -> forall q w a promoted Q,
  good w -> (visible c f (runs (db w)) -> a = active c f (runs (db w))) ->
  NoDup (map aID q) -> (forall r, r ∈ q -> startable c f (runs (db w)) r) ->
  (forall r w', served w w' ->
     (visible c f (runs (db w)) -> (forall k, fails O k = false) ->
        Concurrency (Normalized t.2) <= active c f (runs (db w')) \/
        queued c f (runs (db w')) = queued c f (runs (db w)) - Z.of_nat (length q)) -> Q r w') ->
  wp (promote_loop O (Concurrency (Normalized t.2)) a promoted q) w Q.
Proof.
  intros HT q. induction q as [|r q IH]; intros w a promoted Q Hg Ha Hnd Hq HQ; cbn [promote_loop].
  { apply wp_ret, HQ; [by apply keeps_served|]. intros _ _. right. cbn. lia. }
  case_decide as Hlim; [apply wp_ret, HQ; [by apply keeps_served|]; intros Hv _; left; specialize (Ha Hv); lia|].
  cbn [map] in Hnd. apply NoDup_cons in Hnd as [Hr Hnd]. destruct (Hq r ltac:(set_solver)) as (Hrow & Hlive & Hst).
  pose proof (live_of_spec c f r Hlive) as (E1 & E2 & E3).
  apply wp_bind, wp_attempt, wp_UpdateAutomationRun.
  - intros e w1 Hk1 Hwhy. apply (IH w1 a); [by eapply keeps_good|by rewrite (k_runs _ _ Hk1)|done| |].
    + intros r' Hr'. rewrite (k_runs _ _ Hk1). apply Hq. set_solver.
    + intros res w' Hs _. apply HQ; [eapply served_trans; [by apply keeps_served|done]|]. intros _ Hno. exfalso. destruct Hwhy as [H|H]; [by rewrite Hno in H|].
      by apply (H r).
  - intros old w1 _ Hold _ Hm. cbn in Hold. rewrite Hrow in Hold. injection Hold as <-. set (r1 := set_lease _ _ _ _) in Hm.
    assert (birth r1 = birth r /\ aStatus r1 = AutoRun RunPending) as [Hb Hs1] by done.
    assert (srv (clock O) T free asks (abs w) (tick w1, <[aID r := r1]> (runs (db w)))) as Hstep.
    { eapply srv_promote; try done; [apply Hm|by rewrite E2|]. rewrite E1, E2. intros Hv. specialize (Ha Hv). lia. }
    pose proof (moved_served w _ w1 Hg Hm Hstep) as Hs. pose proof (k_runs _ _ Hm) as Hruns. cbn in Hruns.
    assert (active c f (runs (db w1)) = active c f (runs (db w)) + 1 /\ queued c f (runs (db w1)) = queued c f (runs (db w)) - 1) as [Hact Hque].
    { rewrite Hruns. unfold active, queued. rewrite !(rows_old _ _ _ r) by done. rewrite (live_birth c f r r1 Hb), Hlive. unfold active_run, queued_run.
      rewrite Hst, Hs1, (bool_decide_true (AutoRunQueued = _)), bool_decide_false by done. cbn [AutoRunActive Z.b2z andb]. lia. }
    assert (pending_run r = true /\ pending_run r1 = true) as [Hp Hp1] by (unfold pending_run, queued_run, active_run; split; [by rewrite Hst, bool_decide_true|by rewrite Hs1]).
    assert (visible c f (runs (db w1)) <-> visible c f (runs (db w))) as Hvis.
    { rewrite Hruns. split; [|by apply visible_row]. intros Hv. pose proof (birth_eq _ _ Hb) as ((Eid & _) & _).
      rewrite <- (insert_id (runs (db w)) (aID r) r Hrow), <- (insert_insert_eq (runs (db w)) (aID r) r r1). rewrite <- Eid at 1.
      apply visible_row; [by rewrite Eid, lookup_insert_eq|done|done|done]. }
    apply (IH w1 (a + 1)); [apply Hs|intros Hv; rewrite Hact, <- Ha by (by apply Hvis); done|done| |].
    + intros r' Hr'. destruct (Hq r' ltac:(set_solver)) as (? & ? & ?). split_and!; [|done..]. rewrite Hruns, lookup_insert_ne; [done|].
      intros E. apply Hr. rewrite E. by apply list_elem_of_fmap_2.
    + intros res w' Hs' Hpost. apply HQ; [by eapply served_trans|]. intros Hv Hno. assert (visible c f (runs (db w1))) as Hv1 by by apply Hvis.
      destruct (Hpost Hv1 Hno) as [?|?]; [by left|right]. cbn [length]. lia.
Qed.

(** What [promote] leaves: no queued run beside a free slot, if the store answers. *)
Definition settled (c f : string) (w w' : world) : Prop :=
  forall t, T f = Some t -> t.1.2 = c -> (forall k, fails O k = false) -> visible c f (runs (db w)) ->
  Concurrency (Normalized t.2) <= active c f (runs (db w')) \/ queued c f (runs (db w')) = 0.

Lemma wp_promote c f w (Q : result svcError () -> world -> Prop) :
  good w -> (forall r w', served w w' -> settled c f w w' -> Q r w') -> wp (promote O c f) w Q.
Proof.
  intros Hg HQ. apply wp_bind, wp_attempt, wp_GetAutomationFlow. intros r w1 Hk1 Hdb Hread Hno. assert (good w1) as Hg1 by by eapply keeps_good.
  assert (forall w', keeps w1 w' -> (forall t, T f = Some t -> t.1.2 = c -> (forall k, fails O k = false) -> False) -> Q (Ok ()) w') as Hidle.
  { intros w' Hk' Himp. apply HQ; [apply keeps_served; [done|by etransitivity]|]. intros t H1 H2 H3 _. by destruct (Himp t H1 H2 H3). }
  assert (forall t, T f = Some t -> t.1.2 = c -> (forall k, fails O k = false) -> exists flow, r = Ok (Some flow)) as Hfound.
  { intros t Ht Hc Hnf. pose proof (g_terms w Hg f) as Hf. rewrite Ht in Hf. rewrite (Hno (Hnf _)). destruct (flows (db w) !! f) as [flow|]; [|done].
    apply (inj Some) in Hf. subst t. exists flow. cbn in *. by rewrite decide_True. }
  destruct r as [[flow|]|e]; [|apply wp_ret, Hidle; [done|]; intros t H1 H2 H3; by destruct (Hfound t H1 H2 H3) as [? [=]]..].
  destruct (Hread flow eq_refl) as [Hf Hc]. pose proof (g_terms w Hg f) as HT. rewrite Hf in HT. cbn in HT.
  apply wp_bind, wp_attempt, wp_ListAutomationRuns; [done|done|]. intros r w2 Hk2 Herr Hsub. destruct r as [l|e]; [|].
  2: { apply wp_ret, Hidle; [done|]. intros t _ _ Hnf. by rewrite Hnf in Herr; discriminate (Herr e eq_refl). }
  pose proof (Hsub l eq_refl) as Hnew. destruct Hnew as (rest & Hrest & Hold). destruct (rows_listed _ _ _ _ (g_runs w1 Hg1) Hrest) as [Hin Hnd].
  assert (newest c f l (runs (db w1))) as Hnew by (by exists rest).
  rewrite (k_runs _ _ Hk1) in *. assert (keeps w w2) as Hk by by etransitivity. set (q := merge_sort older_run (List.filter queued_run l)).
  assert (q ≡ₚ List.filter queued_run l) as Hq by apply merge_sort_Permutation.
  apply wp_bind. eapply (wp_promote_loop c f (terms flow)); [done|by eapply keeps_good|..].
  - rewrite (k_runs _ _ Hk). intros Hv. apply counted_rows; [done|done|apply active_pending].
  - rewrite Hq. clear -Hnd. induction l as [|x l IH]; [constructor|]. cbn in *. apply NoDup_cons in Hnd as [H1 H2]. destruct (queued_run x); [|by apply IH].
    cbn. apply NoDup_cons. split; [|by apply IH]. intros (y & E & Hy)%list_elem_of_fmap. apply H1. apply list_elem_of_fmap. exists y. split; [done|].
    by apply list_elem_of_In, filter_In in Hy as [Hy%list_elem_of_In _].
  - intros x Hx. rewrite Hq in Hx. apply list_elem_of_In, filter_In in Hx as [Hx%list_elem_of_In Hs]. destruct (Hin x Hx) as [H1 H2].
    rewrite (k_runs _ _ Hk). split_and!; [done|done|by apply bool_decide_eq_true in Hs].
  - intros r w3 Hs Hpost. assert (served w w3) as Hs3 by (eapply served_trans; [by apply keeps_served|done]).
    assert (settled c f w w3) as Hset.
    { intros t Ht _ Hnf Hv. rewrite (k_runs _ _ Hk) in Hpost. rewrite <- HT in Ht. injection Ht as <-. destruct (Hpost Hv Hnf) as [?|H]; [by left|right].
      assert (queued c f (runs (db w)) = tally queued_run l) as Hq0 by (symmetry; apply counted_rows; [done|done|apply queued_pending]). rewrite H, Hq, Hq0. unfold tally. lia. }
    destruct r as [[|]|e]; [|by apply wp_ret, HQ|by apply HQ].
    apply wp_modify, HQ; [|done]. eapply served_trans; [done|]. apply keeps_served; [apply Hs|by split].
Qed.

Lemma serves_promote c f : serves (promote O c f).
Proof. apply serves_wp. intros w Hg. by apply wp_promote. Qed.

(** *** The end of a run *)
Lemma sure_reset_failures c id : sure (reset_failures O c id).
Proof.
  apply sure_with_flow. intros w f Hw Hf _. case_decide; [|by apply wp_ret]. by apply wp_quiet, (quiescent_update w f _ Hw Hf).
Qed.
Lemma sure_remember_test run : sure (remember_test O digest run).
Proof.
  apply sure_with_flow. intros w f Hw Hf _. destruct (test_passed digest run f); [|by apply wp_ret]. by apply wp_quiet, (quiescent_update w f _ Hw Hf).
Qed.

Lemma served_settled c f w w1 w' : served w w1 -> runs (db w1) = runs (db w) -> settled c f w1 w' -> settled c f w w'.
Proof. intros _ E H t. rewrite <- E. apply H. Qed.

Lemma wp_RunFinished run w (Q : result svcError () -> world -> Prop) :
  good w -> (forall r w', served w w' -> (aDry run = false -> settled (aCluster run) (aFlow run) w w') -> Q r w') -> wp (RunFinished O digest run) w Q.
Proof.
  intros Hg HQ. unfold RunFinished. destruct (aDry run).
  - apply wp_quiescent; [apply sure_quiescent, sure_remember_test|apply Hg|]. intros r w' Hk _. apply HQ; [by apply keeps_served|done].
  - apply wp_sure; [destruct (aStatus run) as [| |[]]; try apply sure_ret; [apply sure_reset_failures|apply sure_breakerHit]|apply Hg|].
    intros w1 Hk _. assert (served w w1) as Hs1 by by apply keeps_served. apply wp_promote; [apply Hs1|]. intros r w' Hs Hset.
    apply HQ; [by eapply served_trans|]. intros _. eapply served_settled; [done|apply Hk|done].
Qed.

Lemma serves_RunFinished run : serves (RunFinished O digest run).
Proof. apply serves_wp. intros w Hg. by apply wp_RunFinished. Qed.

(** ** Rows that move *)

(** A run whose row was read, and has moved no further than its status says. *)
Definition row_at (w : world) (r : AutomationRun) (s : auto_status) : Prop :=
  exists r0, runs (db w) !! aID r = Some r0 /\ birth r0 = birth r /\ aStatus r0 = s.

Lemma row_at_keeps w w' r s : keeps w w' -> row_at w r s -> row_at w' r s.
Proof. intros Hk (r0 & H). exists r0. by rewrite (k_runs _ _ Hk). Qed.
Lemma row_at_birth w r r' s : birth r' = birth r -> row_at w r s -> row_at w r' s.
Proof. intros Hb (r0 & H1 & H2 & H3). pose proof (birth_eq _ _ Hb) as ((E & _) & _). exists r0. rewrite E. split_and!; [done|congruence|done]. Qed.

(** Writing another version of a row. *)
Lemma served_row w m r0 r' w' : good w -> runs (db w) !! aID r0 = Some r0 -> birth r' = birth r0 -> moves (free r0) (aStatus r0) (aStatus r') ->
  m = <[aID r0 := r']> (runs (db w)) -> moved w m w' -> served w w' /\ row_at w' r0 (aStatus r').
Proof.
  intros Hg Hr Hb Hm -> Hmv. split; [eapply moved_served; [done..|]; eapply srv_move; [apply Hmv|done..]|].
  exists r'. rewrite (k_runs _ _ Hmv). cbn. by rewrite lookup_insert_eq.
Qed.

(** Nothing changed in the slots and queues. *)
Definition same_slots (w w' : world) : Prop := forall c f,
  active c f (runs (db w')) = active c f (runs (db w)) /\ queued c f (runs (db w')) = queued c f (runs (db w)).

Lemma same_slots_runs w w' : runs (db w') = runs (db w) -> same_slots w w'.
Proof. intros E c f. by rewrite E. Qed.
Lemma same_slots_trans w1 w2 w3 : same_slots w1 w2 -> same_slots w2 w3 -> same_slots w1 w3.
Proof. intros H1 H2 c f. destruct (H1 c f), (H2 c f). split; congruence. Qed.
Lemma same_slots_row m r0 r' w w' : runs (db w') = m -> runs (db w) !! aID r0 = Some r0 -> m = <[aID r0 := r']> (runs (db w)) -> birth r' = birth r0 ->
  active_run r' = active_run r0 -> queued_run r' = queued_run r0 -> same_slots w w'.
Proof.
  intros E1 Hr -> Hb Ha Hq c f. rewrite E1. unfold active, queued. rewrite !(rows_old _ _ _ r0) by done. rewrite (live_birth c f r0 r' Hb), Ha, Hq. lia.
Qed.

Lemma wp_UpdateRow r s w (Q : result svcError () -> world -> Prop) :
  good w -> row_at w r s -> moves (free r) s (aStatus r) ->
  (forall res w', served w w' -> (row_at w' r s \/ row_at w' r (aStatus r)) -> (res = Ok () -> row_at w' r (aStatus r)) ->
     (forall e, res = Err e -> same_slots w w') ->
     (AutoRunActive s = true -> AutoRunActive (aStatus r) = true -> same_slots w w') -> Q res w') -> wp (UpdateAutomationRun O r) w Q.
Proof.
  intros Hg (r0 & Hr & Hb & Hs) Hm HQ. pose proof (birth_eq _ _ Hb) as ((Eid & Ec & _) & _ & _ & Et). apply wp_UpdateAutomationRun.
  - intros e w' Hk _. apply HQ; [by apply keeps_served|left; eapply row_at_keeps; [done|by exists r0]|done|intros ? _|intros _ _];
      by apply same_slots_runs, Hk.
  - intros old w' _ Hold _ Hmv. rewrite Hr in Hold. injection Hold as <-. set (r1 := set_lease _ _ _ r) in Hmv. assert (birth r1 = birth r0) as Hb1.
    { unfold r1, birth. cbn. unfold birth in Hb. by rewrite Hb, Et. }
    rewrite <- Eid in Hr, Hmv. destruct (served_row w (<[aID r0 := r1]> (runs (db w))) r0 r1 w' Hg) as [H1 H2]; try done; [by rewrite Hs, (free_birth r r0 Hb)|].
    assert (row_at w' r (aStatus r)) as H3 by (eapply row_at_birth; [symmetry; exact Hb|done]). apply HQ; [done|by right|done|done|].
    intros A1 A2. eapply same_slots_row; [apply Hmv|exact Hr|done|exact Hb1|..]; unfold active_run, queued_run; rewrite Hs.
    + change (aStatus r1) with (aStatus r). by rewrite A1, A2.
    + change (aStatus r1) with (aStatus r). rewrite !bool_decide_false; [done|by intros ->|by intros E; rewrite E in A2].
Qed.

Lemma wp_GetRow c id w (Q : result svcError (option AutomationRun) -> world -> Prop) :
  good w -> (forall r w', keeps w w' -> good w' -> (forall x, r = Ok (Some x) -> runs (db w') !! id = Some x /\ aID x = id /\ row_at w' x (aStatus x)) ->
     (r = Ok None -> forall x, runs (db w) !! id = Some x -> c <> ""%string /\ aCluster x <> c) -> (forall e, r = Err e -> exists k, fails O k = true) -> Q r w') ->
  wp (GetAutomationRun O c id) w Q.
Proof.
  intros Hg HQ. apply wp_GetAutomationRun. intros r w' Hk Hx He Hn. apply HQ; [done|by eapply keeps_good| |done|].
  - intros x ->. specialize (Hx x eq_refl). pose proof (g_runs w Hg _ _ Hx) as E. rewrite (k_runs _ _ Hk). split_and!; [done..|]. exists x.
    rewrite (k_runs _ _ Hk), E. done.
  - intros e ->. eauto.
Qed.

(** Taking and giving back a lease leaves every row where it is. *)
Definition same_rows (w w' : world) : Prop := (served w w' /\ same_slots w w') /\ forall r s, row_at w r s -> row_at w' r s.

Lemma same_rows_keeps w w' : good w -> keeps w w' -> same_rows w w'.
Proof. intros Hg Hk. split; [split; [by apply keeps_served|by apply same_slots_runs, Hk]|]. intros r s. by apply row_at_keeps. Qed.

Lemma leased_rows w id owner until w' old : good w -> runs (db w) !! id = Some old ->
  moved w (<[id := set_lease owner until (aCreatedAt old) old]> (runs (db w))) w' -> same_rows w w'.
Proof.
  intros Hg Hold Hmv. pose proof (g_runs w Hg id old Hold) as <-. set (r1 := set_lease _ _ _ old) in Hmv.
  assert (birth r1 = birth old /\ aStatus r1 = aStatus old) as [Hb Hs] by done.
  destruct (served_row w (<[aID old := r1]> (runs (db w))) old r1 w' Hg Hold Hb) as [H1 _]; [left; done|done|done|]. split; [split; [done|]|].
  { eapply same_slots_row; [apply Hmv|exact Hold|done|done|done|done]. }
  intros r s (r0 & Hr & Hb0 & Hs0).
  unfold row_at. rewrite (k_runs _ _ Hmv). cbn. destruct (decide (aID r = aID old)) as [E|E]; [|rewrite lookup_insert_ne by done; by exists r0].
  rewrite E, lookup_insert_eq. rewrite E, Hold in Hr. injection Hr as <-. exists r1. split_and!; [done|congruence|congruence].
Qed.

Lemma wp_Claim c id owner now until w Q : good w -> (forall r w', same_rows w w' -> Q r w') -> wp (ClaimAutomationRun O c id owner now until) w Q.
Proof.
  intros Hg HQ. apply wp_ClaimAutomationRun; [intros r w' Hk _; by apply HQ, same_rows_keeps|]. intros old w' Hold Hmv. by eapply HQ, leased_rows.
Qed.
Lemma wp_Release c id owner w Q : good w -> (forall r w', same_rows w w' -> Q r w') -> wp (ReleaseAutomationRun O c id owner) w Q.
Proof.
  intros Hg HQ. apply wp_ReleaseAutomationRun; [intros r w' Hk; by apply HQ, same_rows_keeps|]. intros old w' Hold Hmv. by eapply HQ, leased_rows.
Qed.
Lemma serves_Release c id owner : serves (ReleaseAutomationRun O c id owner).
Proof. apply serves_wp. intros w Hg. apply wp_Release; [done|]. intros r w' H. apply H. Qed.

Lemma wp_finally {A B} (m : M A) (k : M B) w (Q : result svcError A -> world -> Prop) :
  wp m w (fun r w' => wp (quiet k) w' (fun _ w'' => Q r w'')) -> wp (finally m k) w Q.
Proof. unfold wp, finally. destruct (m w) as [r w1]. cbn. by destruct (quiet k w1). Qed.
Lemma serves_modify f : (forall w, tick (f w) = tick w /\ db (f w) = db w) -> serves (modify f).
Proof. intros H. by apply serves_quiescent, quiescent_modify. Qed.
Lemma serves_ret {A} (a : A) : serves (mret a).
Proof. apply serves_quiescent. quiescent. Qed.
Lemma serves_throw {A} e : serves (@throw A e).
Proof. apply serves_quiescent. quiescent. Qed.
Lemma serves_time : serves (time O).
Proof. apply serves_quiescent. quiescent. Qed.

(** An operation under a lease. *)
Lemma serves_leased {B} c id owner lease (k : Z -> M B) : (forall now, serves (k now)) ->
  serves (now ← time O; ok ← ClaimAutomationRun O c id owner now (now + lease);
          if negb ok then throw ErrBusy else finally (k now) (ReleaseAutomationRun O c id owner)).
Proof.
  intros Hk. apply serves_bind; [apply serves_time|]. intros now. apply serves_bind; [apply serves_wp; intros w Hg; apply wp_Claim; [done|]; intros r w' H; apply H|].
  intros ok. destruct (negb ok); [apply serves_throw|]. apply serves_finally; [done|apply serves_Release].
Qed.

(** ** Steps, cancelling, approving *)

(** How an operation on one run ends: nothing changed in the slots, or queued runs of its
    flow were started as long as there were free slots. *)
Definition rested (c f : string) (w w' : world) : Prop :=
  exists w1 w2, served w w1 /\ settled c f w1 w2 /\ served w1 w2 /\ served w2 w' /\ same_slots w2 w'.
Definition ends (r : AutomationRun) (w w' : world) : Prop :=
  served w w' /\ (same_slots w w' \/ (aDry r = false -> rested (aCluster r) (aFlow r) w w')).

Lemma settled_rested c f w w' : good w -> served w w' -> settled c f w w' -> rested c f w w'.
Proof. intros Hg Hs H. exists w, w'. split_and!; [by apply keeps_served|done|done|apply keeps_served; [apply Hs|done]|by apply same_slots_runs]. Qed.
Lemma rested_after c f w w1 w' : served w w1 -> rested c f w1 w' -> rested c f w w'.
Proof. intros Hs (a & b & H1 & H). exists a, b. split; [by eapply served_trans|done]. Qed.
Lemma rested_then c f w w1 w' : rested c f w w1 -> served w1 w' -> same_slots w1 w' -> rested c f w w'.
Proof. intros (a & b & H1 & H2 & H3 & H4 & H5) Hs Hss. exists a, b. split_and!; [done..|by eapply served_trans|by eapply same_slots_trans]. Qed.

Lemma ends_after r w w1 w' : served w w1 -> same_slots w w1 -> ends r w1 w' -> ends r w w'.
Proof.
  intros Hs Hss [H1 H2]. split; [by eapply served_trans|]. destruct H2 as [H2|H2]; [left; by eapply same_slots_trans|right].
  intros Hd. eapply rested_after; [done|by apply H2].
Qed.
Lemma ends_then r w w1 w' : ends r w w1 -> served w1 w' -> same_slots w1 w' -> ends r w w'.
Proof.
  intros [H1 H2] Hs Hss. split; [by eapply served_trans|]. destruct H2 as [H2|H2]; [left; by eapply same_slots_trans|right].
  intros Hd. eapply rested_then; [by apply H2|done..].
Qed.
Lemma ends_quiet r w : good w -> ends r w w.
Proof. intros Hg. split; [by apply keeps_served|]. left. by apply same_slots_runs. Qed.
Lemma ends_keeps r w w' : good w -> keeps w w' -> ends r w w'.
Proof. intros Hg Hk. split; [by apply keeps_served|]. left. by apply same_slots_runs, Hk. Qed.
Lemma ends_birth r r' w w' : birth r' = birth r -> ends r w w' -> ends r' w w'.
Proof. intros Hb [H1 H2]. split; [done|]. by destruct (birth_eq _ _ Hb) as ((_ & -> & -> & ->) & _). Qed.

Lemma wp_finish_run r s w : good w -> row_at w r s -> moves (free r) s (aStatus r) ->
  wp (finish_run O digest r) w (fun _ w' => ends r w w').
Proof.
  intros Hg Hrow Hm. unfold finish_run. apply wp_bind, wp_quiet. eapply wp_UpdateRow; [done..|]. intros _ w1 Hs1 _ _ _ _.
  apply wp_RunFinished; [apply Hs1|]. intros r' w2 Hs2 Hset. split; [by eapply served_trans|]. right. intros Hd.
  eapply rested_after; [done|]. apply settled_rested; [apply Hs1|done|by apply Hset].
Qed.

Lemma active_moves b e e' : AutoRunActive e = true -> (b = true \/ AutoRunActive (AutoRun e') = true) -> moves b e (AutoRun e').
Proof. intros Ha Hb. right. left. eauto. Qed.

Lemma holds_active e : AutoRunActive (AutoRun e) = holds_slot e.
Proof. by destruct e. Qed.

Lemma wp_step_run types fuel ticks s r w : good w -> row_at w r (AutoRun s) -> holds_slot s = true -> free r = true ->
  wp (step_run O redactText jsonLen digest error_text types fuel ticks s r) w (fun _ w' => ends r w w').
Proof.
  intros Hg Hrow Ha Hf. apply wp_bind, wp_consult. set (w1 := set_tick _ _). assert (keeps w w1) as Hk by apply keeps_tick.
  assert (good w1) as Hg1 by by eapply keeps_good. assert (row_at w1 r (AutoRun s)) as Hrow1 by by eapply row_at_keeps.
  rewrite <- holds_active in Ha. enough (forall (m : M ()), wp m w1 (fun _ w' => ends r w1 w') -> wp m w1 (fun _ w' => ends r w w')) as Hstart.
  2: { intros m Hm. eapply wp_mono; [exact Hm|]. cbn. intros _ w' He. eapply ends_after; [by apply keeps_served|by apply same_slots_runs, Hk|done]. }
  destruct (aDefinition r) as [d|]; apply Hstart.
  2: { set (r' := unreadable _ _ _). apply (wp_mono _ _ (fun _ w' => ends r' w1 w')); [|intros _ w' He; by apply (ends_birth r' r)].
       apply (wp_finish_run r' (AutoRun s)); [done|by apply (row_at_birth _ r)|]. apply active_moves; [done|left; by rewrite (free_birth r r')]. }
  apply wp_bind, wp_attempt. set (r1 := starting _ _ _ _). assert (birth r1 = birth r) as Hb1 by done.
  apply (wp_UpdateRow r1 (AutoRun s)); [done|by apply (row_at_birth _ r)|by apply active_moves; [|right]|]. intros res w2 Hs2 Hrow2 _ _ Hss. specialize (Hss Ha eq_refl).
  assert (exists e, row_at w2 r (AutoRun e) /\ AutoRunActive (AutoRun e) = true) as (e & Hrow' & Hae).
  { destruct Hrow2 as [H|H]; [exists s|exists RunRunning]; (split; [by apply (row_at_birth _ r1 r)|done]). }
  clear Hrow2. assert (forall w', ends r w2 w' -> ends r w1 w') as Hnext by (intros w' H; eapply ends_after; done).
  destruct (advance _ _ _ _ _ _ _ _ _ _) as [[r2 ret]|] eqn:Eadv; [|apply wp_ret, Hnext, ends_quiet, Hs2].
  assert (birth r2 = birth r /\ (match ret with Parked | LeftForNext => AutoRunActive (aStatus r2) = true | _ => True end) /\ exists e2, aStatus r2 = AutoRun e2) as (Hb2 & Hland & e2 & He2).
  { unfold advance in Eadv. destruct (step _ _ _ _ _ _ _ _ _ _ _) as [[x r0]|] eqn:Est; [|done]. cbn in Eadv. injection Eadv as <- <-.
    apply step_lands in Est. split_and!; [done| |by eexists]. unfold lands in Est. cbn [fst snd] in Est. destruct r0; try done; cbn [aStatus set_engine]; by rewrite holds_active. }
  assert (row_at w2 r2 (AutoRun e)) as Hrow3 by by apply (row_at_birth _ r).
  destruct ret; try (apply wp_ret, Hnext, ends_quiet, Hs2).
  - apply (wp_mono _ _ (fun _ w' => ends r2 w2 w')); [|intros _ w' He; by apply Hnext, (ends_birth r2 r)].
    apply (wp_finish_run r2 (AutoRun e)); [apply Hs2|done|]. rewrite He2. apply active_moves; [done|left; by rewrite (free_birth r r2)].
  - apply (wp_UpdateRow r2 (AutoRun e)); [apply Hs2|done|rewrite He2 in Hland |- *; by apply active_moves; [|right]|]. intros r3 w3 Hs3 _ _ _ Hss3. apply Hnext. split; [done|].
    left. by apply Hss3.
  - apply (wp_UpdateRow r2 (AutoRun e)); [apply Hs2|done|rewrite He2 in Hland |- *; by apply active_moves; [|right]|]. intros r3 w3 Hs3 _ _ _ Hss3. apply Hnext. split; [done|].
    left. by apply Hss3.
Qed.

(** The same, of whatever row there is under an identifier. *)
Definition ends_id (id : string) (w w' : world) : Prop :=
  served w w' /\ (forall r, runs (db w) !! id = Some r -> ends r w w') /\ (runs (db w) !! id = None -> same_slots w w').
Definition freeing (id : string) (w : world) : Prop := forall r, runs (db w) !! id = Some r -> free r = true.

Lemma ends_id_keeps id w w' : good w -> keeps w w' -> ends_id id w w'.
Proof. intros Hg Hk. split_and!; [by apply keeps_served|intros r _; by apply ends_keeps|intros _; by apply same_slots_runs, Hk]. Qed.
Lemma ends_id_after id w w1 w' : served w w1 -> same_slots w w1 -> (runs (db w) !! id = None -> runs (db w1) !! id = None) -> good w ->
  ends_id id w1 w' -> ends_id id w w'.
Proof.
  intros Hs Hss Hn Hg (H1 & H2 & H3). split_and!; [by eapply served_trans| |intros H; eapply same_slots_trans; [done|by apply H3, Hn]].
  intros r Hr. destruct (srvs_grow _ _ _ _ _ _ (proj2 Hs) (g_runs w Hg) id r Hr) as (r' & Hr' & Hb). eapply ends_after; [done..|].
  apply (ends_birth r' r); [done|]. by apply H2.
Qed.
Lemma ends_id_then id w w1 w' : ends_id id w w1 -> served w1 w' -> same_slots w1 w' -> ends_id id w w'.
Proof.
  intros (H1 & H2 & H3) Hs Hss. split_and!; [by eapply served_trans|intros r Hr; eapply ends_then; [by apply H2|done..]|intros H; eapply same_slots_trans; [by apply H3|done]].
Qed.
Lemma ends_id_of id w w' r : runs (db w) !! id = Some r -> ends r w w' -> ends_id id w w'.
Proof. intros Hr He. split_and!; [apply He|intros r' Hr'; by simplify_eq|by rewrite Hr]. Qed.

Lemma wp_leased {B} c id lease (P : AutomationRun -> Prop) (k : Z -> M B) w :
  (forall r r', birth r' = birth r -> aStatus r' = aStatus r -> P r -> P r') -> good w -> (forall r, runs (db w) !! id = Some r -> P r) ->
  (forall now w1, good w1 -> (forall r, runs (db w1) !! id = Some r -> P r) -> wp (k now) w1 (fun _ w' => ends_id id w1 w')) ->
  wp (now ← time O; ok ← ClaimAutomationRun O c id Owner now (now + lease);
      if negb ok then throw ErrBusy else finally (k now) (ReleaseAutomationRun O c id Owner)) w (fun _ w' => ends_id id w w').
Proof.
  intros HP Hg Hf Hk. apply wp_bind, wp_consult. set (w1 := set_tick _ _). assert (keeps w w1) as Hk1 by apply keeps_tick. set (now := clock O (tick w)).
  assert (good w1) as Hg1 by by eapply keeps_good. apply wp_bind, wp_ClaimAutomationRun.
  - intros r w2 Hk2 Hr. assert (ends_id id w w2) as He by (apply ends_id_keeps; [done|by etransitivity]).
    destruct r as [[]|e]; [done|by apply wp_throw|done].
  - intros old w2 Hold Hmv. destruct (leased_rows w1 id _ _ w2 old Hg1 Hold Hmv) as [[Hs2 Hss2] _]. cbn [negb]. apply wp_finally. eapply wp_mono; [apply Hk; [apply Hs2|]|].
    + intros r Hr. rewrite (k_runs _ _ Hmv) in Hr. cbn in Hr. rewrite lookup_insert_eq in Hr. injection Hr as <-. apply (HP old); [done..|]. by apply Hf.
    + intros r w3 He. apply wp_quiet, wp_Release; [apply He|]. intros _ w4 [[Hs4 Hss4] _]. eapply ends_id_then; [|done..].
      eapply ends_id_after; [eapply served_trans; [by apply keeps_served|done]|by eapply same_slots_trans; [apply same_slots_runs, Hk1|]| |done|done].
      intros Hn. cbn in Hold. by rewrite Hn in Hold.
Qed.

Lemma wp_step_taken types fuel ticks c id w : good w -> freeing id w ->
  wp (step_taken O redactText jsonLen digest error_text types fuel ticks c id) w (fun _ w' => ends_id id w w').
Proof.
  intros Hg Hf. apply wp_bind, wp_GetRow; [done|]. intros r w1 Hk1 Hg1 Hread _ _. assert (ends_id id w w1) as He by by apply ends_id_keeps.
  destruct r as [[r|]|e]; [|by apply wp_ret|done]. destruct (Hread r eq_refl) as (Hr & _ & Hrow). rewrite (k_runs _ _ Hk1) in Hr.
  destruct (aStatus r) as [| |s] eqn:Es; [by apply wp_ret..|]. enough (holds_slot s = true -> wp (modify (fun w0 => set_running (<[id:=""%string]> (running w0)) w0) ≫= fun _ =>
    finally (step_run O redactText jsonLen digest error_text types fuel ticks s r) (modify (fun w0 => set_running (delete id (running w0)) w0))) w1 (fun _ w' => ends_id id w w')) as H.
  { destruct s; try (by apply wp_ret); by apply H. }
  intros Ha. apply wp_bind, wp_modify, wp_finally. set (w2 := set_running _ _). assert (keeps w1 w2) as Hk2 by by split.
  eapply wp_mono; [apply wp_step_run; [by eapply keeps_good|by eapply row_at_keeps|done|by apply Hf]|]. intros ? w3 He3. cbn beta in He3. apply wp_quiet, wp_modify.
  eapply ends_id_of; [done|]. eapply ends_after; [apply keeps_served; [done|by etransitivity]|apply same_slots_runs; by rewrite (k_runs _ _ Hk2), (k_runs _ _ Hk1)|].
  eapply ends_then; [done|apply keeps_served; [apply He3|by split]|by apply same_slots_runs].
Qed.

Lemma wp_Step types fuel ticks lease c id w : good w -> freeing id w ->
  wp (Step O redactText jsonLen digest error_text Owner types fuel ticks lease c id) w (fun _ w' => ends_id id w w').
Proof.
  intros Hg Hf. apply (wp_leased c id lease (fun r => free r = true) (fun _ => step_taken _ _ _ _ _ _ _ _ c id)); [|done..|intros _ w1; apply wp_step_taken].
  intros r r' Hb _ <-. by apply free_birth.
Qed.

(** *** Cancelling *)
Lemma quiescent_each {A} (f : A -> M ()) l : (forall a, quiescent (f a)) -> quiescent (each f l).
Proof. intros H. induction l as [|a l IH]; cbn [each]; [quiescent|by apply quiescent_bind]. Qed.
Lemma quiescent_cancelRows id st : quiescent (cancelRows O id st).
Proof.
  apply quiescent_each. intros f. apply quiescent_each. intros p. destruct (cancellable p.2); [apply quiescent_quiet, quiescent_node|quiescent].
Qed.
Lemma quiescent_RequestCancel id by_ : quiescent (RequestCancel id by_).
Proof. apply quiescent_bind; [quiescent|]. intros w. destruct (running w !! id); [|quiescent]. apply quiescent_bind; [by apply quiescent_modify|quiescent]. Qed.

Definition waiting_or_active (s : auto_status) : bool := negb (AutoRunFinished s).
Lemma cancel_moves b s : waiting_or_active s = true -> b = true -> moves b s (AutoRun RunCancelled).
Proof.
  intros Hs Hb. destruct s as [| |s]; [right; by right|done|]. right. left. split; [by destruct s|]. eexists. split; [done|by left].
Qed.

Lemma wp_cancel_taken c id by_ now w : good w -> freeing id w -> (forall r, runs (db w) !! id = Some r -> waiting_or_active (aStatus r) = true) ->
  wp (cancel_taken O digest c id by_ now) w (fun _ w' => ends_id id w w').
Proof.
  intros Hg Hf Hact. apply wp_bind, wp_attempt, wp_GetRow; [done|]. intros r w1 Hk1 Hg1 Hread _ _. assert (ends_id id w w1) as He by by apply ends_id_keeps.
  destruct r as [[r|]|e]; [|by apply wp_throw..]. destruct (Hread r eq_refl) as (Hr & Eid & Hrow). rewrite (k_runs _ _ Hk1) in Hr. change (mjoin (Some (Some r))) with (Some r). cbv iota zeta. specialize (Hact r Hr).
  apply wp_bind, wp_quiescent; [apply quiescent_cancelRows|apply Hg1|]. intros r2 w2 Hk2 Hw2. assert (good w2) as Hg2 by by eapply keeps_good.
  assert (forall w', ends r w2 w' -> ends_id id w w') as Hnext.
  { intros w' H. eapply ends_id_of; [done|]. eapply ends_after; [apply keeps_served; [done|by etransitivity]|apply same_slots_runs; by rewrite (k_runs _ _ Hk2), (k_runs _ _ Hk1)|done]. }
  destruct r2; [|by apply Hnext, ends_quiet]. set (r3 := set_progress _ _ _ _ _). assert (birth r3 = birth r) as Hb by done.
  apply wp_bind. apply (wp_UpdateRow r3 (aStatus r)); [done|apply (row_at_birth _ r); [done|by eapply row_at_keeps]|apply cancel_moves; [done|rewrite (free_birth r r3) by done; by apply Hf]|].
  intros res w3 Hs3 _ _ Herr _.
  destruct res as [[]|e]; [|apply Hnext; split; [done|left; by eapply Herr]].
  apply wp_sure; [apply sure_addLog|apply Hs3|]. intros w4 Hk4 _. assert (good w4) as Hg4 by (eapply keeps_good; [apply Hs3|done]).
  apply wp_RunFinished; [done|]. intros r5 w5 Hs5 Hset.
  apply Hnext. split; [eapply served_trans; [done|]; eapply served_trans; [apply keeps_served; [apply Hs3|done]|done]|]. right. intros Hd.
  eapply rested_after; [|apply (settled_rested _ _ w4 w5 Hg4 Hs5 (Hset Hd))]. eapply served_trans; [done|]. apply keeps_served; [apply Hs3|done].
Qed.

Lemma wp_Cancel c id by_ w : good w -> freeing id w -> wp (Service.Cancel O digest Owner c id by_) w (fun _ w' => ends_id id w w').
Proof.
  intros Hg Hf. apply wp_bind, wp_GetRow; [done|]. intros r w1 Hk1 Hg1 Hread _ _. assert (ends_id id w w1) as He by by apply ends_id_keeps.
  destruct r as [[r|]|e]; [|by apply wp_throw|done]. destruct (Hread r eq_refl) as (Hr & _ & Hrow). rewrite (k_runs _ _ Hk1) in Hr.
  destruct (AutoRunFinished (aStatus r)) eqn:Ef; [by apply wp_throw|]. apply wp_bind, wp_quiescent; [apply quiescent_RequestCancel|apply Hg1|]. intros a w2 Hk2 Hw2.
  assert (keeps w w2) as Hk by by etransitivity. assert (good w2) as Hg2 by by eapply keeps_good. assert (ends_id id w w2) as He2 by by apply ends_id_keeps.
  destruct a as [[]|e]; [by apply wp_ret| |done].
  eapply wp_mono; [apply (wp_leased c id minute_ns (fun r => free r = true /\ waiting_or_active (aStatus r) = true) (fun now => cancel_taken O digest c id by_ now) w2)|].
  - intros r1 r2 Hb Hs [H1 H2]. split; [by rewrite (free_birth r1 r2)|by rewrite Hs].
  - done.
  - intros r1 Hr1. rewrite (k_runs _ _ Hk) in Hr1. assert (r1 = r) as -> by congruence. split; [by apply Hf|]. unfold waiting_or_active. by rewrite Ef.
  - intros now w3 Hg3 H3. apply wp_cancel_taken; [done|intros r1 Hr1; by apply H3|intros r1 Hr1; by apply H3].
  - intros ? w' Hend. cbn beta in Hend. eapply ends_id_after; [by apply keeps_served|by apply same_slots_runs, Hk|by rewrite (k_runs _ _ Hk)|done|done].
Qed.

(** *** Approving *)
Lemma approve_status nodeID by_ a note at_ run st run' st' : Engine.Approve redactText jsonLen nodeID by_ a note at_ run st = Ok (run', st') ->
  holds_slot (rStatus run) = true /\ rStatus run' = RunPending.
Proof.
  unfold Engine.Approve. case_decide as H; [done|]. destruct (Frames st) as [|f fs]; [done|]. cbv zeta. destruct (FNodes f !! _); [|done].
  case_decide; [done|]. intros [= <- _]. split; [|done]. by destruct (rStatus run); try done; exfalso; apply H.
Qed.

Lemma sure_approve_notes run id st line now : sure (approve_notes O run id st line now).
Proof using Type.
  unfold approve_notes. apply sure_then; [|apply sure_addLog]. destruct (Frames st) as [|f fs]; [apply sure_ret|].
  destruct (FNodes f !! id); [apply sure_quiet, quiescent_node|apply sure_ret].
Qed.

Lemma wp_approve_taken nodeID by_ a note c id now w : good w ->
  wp (approve_taken O redactText jsonLen nodeID by_ a note c id now) w (fun _ w' => ends_id id w w').
Proof.
  intros Hg. apply wp_bind, wp_attempt, wp_GetRow; [done|]. intros r w1 Hk1 Hg1 Hread _ _. assert (ends_id id w w1) as He by by apply ends_id_keeps.
  destruct r as [[r|]|e]; [|by apply wp_throw..]. destruct (Hread r eq_refl) as (Hr & Eid & Hrow). rewrite (k_runs _ _ Hk1) in Hr. change (mjoin (Some (Some r))) with (Some r). cbv iota zeta.
  destruct (aStatus r) as [| |s] eqn:Es; [by apply wp_throw..|]. destruct (Engine.Approve _ _ _ _ _ _ _ _ _) as [[run' st']|e] eqn:Ea; [|by apply wp_throw].
  apply approve_status in Ea as [Hs1 Hs2]. cbn in Hs1. set (r3 := set_engine _ r). assert (birth r3 = birth r /\ aStatus r3 = AutoRun RunPending) as [Hb Hs3] by (split; [done|cbn; by rewrite Hs2]).
  apply wp_bind. apply (wp_UpdateRow r3 (AutoRun s)); [done|by apply (row_at_birth _ r)|rewrite Hs3; apply active_moves; [by rewrite holds_active|by right]|].
  intros res w3 Hsv _ _ _ Hss. rewrite Hs3, holds_active in Hss. specialize (Hss Hs1 eq_refl).
  assert (ends_id id w w3) as He3 by (eapply ends_id_then; done). destruct res; [|done].
  eapply wp_mono; [apply (wp_quiescent _ _ (fun _ w' => ends_id id w w')); [apply sure_quiescent, sure_approve_notes|apply Hsv|]|done]. intros _ w4 Hk4 _.
  eapply ends_id_then; [done|apply keeps_served; [apply Hsv|done]|by apply same_slots_runs, Hk4].
Qed.

Lemma wp_Approve lease c id nodeID by_ a note w : good w ->
  wp (Service.Approve O redactText jsonLen Owner lease c id nodeID by_ a note) w (fun _ w' => ends_id id w w').
Proof. intros Hg. apply (wp_leased c id lease (fun _ => True) (fun now => approve_taken O redactText jsonLen nodeID by_ a note c id now)); try done. intros now w1 Hg1 _. by apply wp_approve_taken. Qed.

(** ** Events *)

(** The depth of a run that an event starts, from the table before the event. *)
Definition event_depth (m : gmap string AutomationRun) (ev : Event) (flowID : string) (depth : Z) : Prop :=
  depth <= MaxChainDepth /\
  ((depth = 0 /\ (evCausedBy ev = ""%string \/ (exists k, fails O k = true) \/
      forall c, m !! evCausedBy ev = Some c -> evCluster ev <> ""%string /\ aCluster c <> evCluster ev)) \/
   (exists c, m !! evCausedBy ev = Some c /\ depth = ChainDepth c + 1 /\ aFlow c <> flowID)).

Definition asked (w : world) (P : StartRequest -> Prop) : Prop := forall w' req, served w w' -> P req -> asks (runs (db w')) req.
Lemma asked_served w w1 P : served w w1 -> asked w P -> asked w1 P.
Proof. intros Hs Ha w' req Hs'. apply Ha. by eapply served_trans. Qed.

Lemma quiescent_debounced flow ev now : quiescent (debounced flow ev now).
Proof.
  unfold debounced. cbv zeta. case_decide; [|quiescent]. apply quiescent_bind; [quiescent|]. intros w.
  destruct (debounce w !! _); [case_decide; [quiescent|]|]; (apply quiescent_bind; [by apply quiescent_modify|quiescent]).
Qed.

Lemma wp_handle_flow ev cause depth now payload flow w : good w ->
  asked w (fun req => aFlow <$> cause <> Some (fID flow) /\ depth <= MaxChainDepth /\ exists lines, req = eventRequest ev depth payload flow lines) ->
  wp (handle_flow O redactText jsonLen digest error_text ev cause depth now payload flow) w (fun _ w' => served w w').
Proof.
  intros Hg Ha. assert (forall w', keeps w w' -> served w w') as Hk by (intros w'; by apply keeps_served). unfold handle_flow.
  case_decide as H1; [by apply Hk, quiescent_emit, Hg|]. case_decide as H2; [by apply Hk, quiescent_emit, Hg|].
  apply wp_bind, wp_attempt, wp_quiescent; [apply quiescent_PublishedDefinition|apply Hg|]. intros r w1 Hk1 Hw1. destruct r as [d|e]; [|by apply wp_ret, Hk].
  destruct (ParseConditions _) as [conds|e]; [|by apply wp_ret, Hk]. destruct (MatchConditions _ _ _) as [ok results]. destruct (negb ok || _); [by apply wp_ret, Hk|].
  apply wp_bind, wp_quiescent; [apply quiescent_debounced|done|]. intros soon w2 Hk2 Hw2. assert (keeps w w2) as Hk' by by etransitivity.
  destruct soon as [[]|e]; [by apply wp_ret, Hk| |by apply Hk]. assert (good w2) as Hg2 by by eapply keeps_good.
  apply wp_catch, wp_bind. eapply wp_mono; [apply served_Start; [done|]|].
  { apply (Ha w2); [by apply Hk|]. split_and!; [done|lia|by eexists]. }
  intros r w3 Hs3. cbn beta in Hs3. assert (served w w3) as Hs by (eapply served_trans; [by apply Hk|done]). destruct r as [res|e]; [by apply wp_ret|]. cbn.
  case_decide; [by apply wp_ret|]. eapply served_trans; [done|]. apply keeps_served; [apply Hs|]. apply quiescent_emit, Hs.
Qed.

Lemma wp_each {A} (P : StartRequest -> Prop) (f : A -> M ()) l w : good w -> asked w P -> (forall a w', good w' -> a ∈ l -> asked w' P -> wp (f a) w' (fun _ w'' => served w' w'')) ->
  wp (each f l) w (fun _ w' => served w w').
Proof.
  intros Hg Ha Hf. revert w Hg Ha. induction l as [|a l IH]; intros w Hg Ha; cbn [each]; [by apply wp_ret, keeps_served|].
  apply wp_bind. eapply wp_mono; [apply Hf; [done|set_solver|done]|]. intros r w1 Hs. cbn beta in Hs. destruct r; [|done].
  eapply wp_mono; [apply IH; [intros; apply Hf; set_solver|apply Hs|by eapply asked_served]|]. intros ? w2 Hs2. by eapply served_trans.
Qed.

Lemma wp_causeOf ev w (Q : result svcError (option AutomationRun) -> world -> Prop) : good w ->
  (forall r w', keeps w w' -> (forall c, r = Some c -> runs (db w) !! evCausedBy ev = Some c) ->
     (r = None -> evCausedBy ev = ""%string \/ (exists k, fails O k = true) \/
        forall c, runs (db w) !! evCausedBy ev = Some c -> evCluster ev <> ""%string /\ aCluster c <> evCluster ev) -> Q (Ok r) w') ->
  wp (causeOf O ev) w Q.
Proof.
  intros Hg HQ. unfold causeOf. case_decide as H; [|apply wp_ret, HQ; [done|done|left; done]].
  apply wp_bind, wp_attempt, wp_GetRow; [done|]. intros r w1 Hk1 Hg1 Hread Hnone Herr. apply wp_ret, HQ; [done| |].
  - intros c Hc. destruct r as [[x|]|e]; cbn in Hc; [|done|done]. injection Hc as ->. rewrite <- (k_runs _ _ Hk1). by apply Hread.
  - intros Hc. destruct r as [[x|]|e]; cbn in Hc; [done|right; right; by apply Hnone|right; left; by eapply Herr].
Qed.

Lemma wp_HandleEvent ev w : good w ->
  asked w (fun req => exists depth flow lines, event_depth (runs (db w)) ev (fID flow) depth /\ req = eventRequest ev depth (EventPayload ev) flow lines) ->
  wp (HandleEvent O redactText jsonLen digest error_text ev) w (fun _ w' => served w w').
Proof.
  intros Hg Ha. apply wp_bind, wp_attempt, wp_quiescent; [apply (quiescent_reads O (evCluster ev) "event"%string (evKind ev) ""%string 0 0 0 0)|apply Hg|].
  intros r w1 Hk1 Hw1. assert (served w w1) as Hs1 by by apply keeps_served. destruct r as [[|fl fls]|e]; [by apply wp_ret| |by apply wp_ret].
  apply wp_bind, wp_causeOf; [apply Hs1|]. intros cause w2 Hk2 Hc Hn. rewrite (k_runs _ _ Hk1) in Hc, Hn. apply wp_bind, wp_consult. set (w3 := set_tick _ _).
  assert (served w w3) as Hs3 by (apply keeps_served; [done|]; etransitivity; [done|]; etransitivity; [done|apply keeps_tick]). set (depth := match cause with Some r => _ | None => 0 end).
  eapply wp_mono; [apply (wp_each (fun req => exists depth flow lines, event_depth (runs (db w)) ev (fID flow) depth /\ req = eventRequest ev depth (EventPayload ev) flow lines));
    [apply Hs3|by eapply asked_served|]|intros ? w' Hs; by eapply served_trans].
  intros flow w' Hg' _ Ha'. apply wp_handle_flow; [done|]. intros w'' req Hs'' (Hne & Hd & lines & ->). apply Ha'; [done|]. exists depth, flow, lines. split; [|done].
  split; [done|]. subst depth. destruct cause as [c|]; [right; exists c; split_and!; [by apply Hc|done|]; intros E; by apply Hne; cbn; rewrite E|left; split; [done|by apply Hn]].
Qed.

(** ** Schedules, retries and test runs *)
Lemma serves_catch_all {A} (m : M A) w : good w -> wp m w (fun _ w' => served w w') -> wp (attempt m) w (fun _ w' => served w w').
Proof. intros Hg H. by apply wp_attempt. Qed.

Lemma wp_process_schedule now sc w : good w -> asked w (fun req => exists sc at_, req = scheduleRequest sc at_) ->
  wp (process_schedule O LoadLocation cronFuel redactText jsonLen digest now sc) w (fun _ w' => served w w').
Proof.
  intros Hg Ha. assert (quiescent (quiet (DeleteAutomationSchedule O (sCluster sc) (sFlow sc)) ≫= fun _ => mret false)) as Hdel.
  { apply quiescent_bind; [apply quiescent_quiet, (quiescent_schedules O sc)|quiescent]. }
  apply wp_bind, wp_attempt, wp_quiescent; [apply (quiescent_reads O (sCluster sc) (sFlow sc) ""%string ""%string 0 0 0 0)|apply Hg|]. intros r w1 Hk1 Hw1.
  assert (served w w1) as Hs1 by by apply keeps_served. assert (forall w', keeps w1 w' -> served w w') as Hk.
  { intros w' H. eapply served_trans; [done|]. apply keeps_served; [apply Hs1|done]. }
  destruct r as [[flow|]|e]; [|by apply Hk, Hdel..]. change (mjoin (Some (Some flow))) with (Some flow). cbv iota zeta. destruct (negb (scheduled flow)); [by apply Hk, Hdel|].
  apply wp_bind. eapply (wp_mono _ _ (fun _ w' => served w1 w')).
  { case_decide; [|apply wp_ret, keeps_served; [apply Hs1|done]]. apply wp_attempt, served_Start; [apply Hs1|]. apply (Ha w1); [done|]. by eexists _, _. }
  intros r w2 Hs2. cbn beta in Hs2. assert (served w w2) as Hs by by eapply served_trans. destruct r as [res|e]; [|done].
  apply (wp_quiescent _ _ (fun _ w' => served w w')); [|apply Hs|]; [|intros r' w3 Hk3 _; eapply served_trans; [done|]; apply keeps_served; [apply Hs|done]].
  apply quiescent_bind; [apply quiescent_attempt, quiescent_PublishedDefinition|]. intros d. apply quiescent_bind; [apply quiescent_quiet, (quiescent_schedules O _ ""%string ""%string)|quiescent].
Qed.

Lemma wp_process_all now l w : good w -> asked w (fun req => exists sc at_, req = scheduleRequest sc at_) ->
  wp (process_all O LoadLocation cronFuel redactText jsonLen digest now l) w (fun _ w' => served w w').
Proof.
  revert w. induction l as [|sc l IH]; intros w Hg Ha; cbn [process_all]; [by apply wp_ret, keeps_served|].
  apply wp_bind. eapply wp_mono; [by apply wp_process_schedule|]. intros r w1 Hs. cbn beta in Hs. destruct r as [b|e]; [|done].
  apply wp_bind. eapply wp_mono; [apply IH; [apply Hs|by eapply asked_served]|]. intros r w2 Hs2. cbn beta in Hs2. destruct r as [n|e]; [apply wp_ret|]; by eapply served_trans.
Qed.

Lemma wp_ProcessDueSchedules limit w : good w -> asked w (fun req => exists sc at_, req = scheduleRequest sc at_) ->
  wp (ProcessDueSchedules O LoadLocation cronFuel redactText jsonLen digest limit) w (fun _ w' => served w w').
Proof.
  intros Hg Ha. apply wp_bind, wp_consult, wp_bind, wp_attempt. assert (keeps w (set_tick (S (tick w)) w)) as Hk by apply keeps_tick.
  apply wp_quiescent; [apply (quiescent_reads O ""%string ""%string ""%string ""%string 0 limit (clock O (tick w)) 0)|by apply (keeps_keyed w), Hg|]. intros r w1 Hk1 _.
  assert (served w w1) as Hs1 by (apply keeps_served; [done|by etransitivity]). destruct r as [l|e]; [|by apply wp_ret].
  eapply wp_mono; [apply wp_process_all; [apply Hs1|by eapply asked_served]|]. intros ? w2 Hs2. by eapply served_trans.
Qed.

Lemma quiescent_SyncTrigger flow : quiescent (SyncTrigger O LoadLocation cronFuel digest flow).
Proof.
  unfold SyncTrigger. destruct (negb _); [apply (quiescent_schedules O (mkSchedule "" "" "" "" "" None ""))|]. apply quiescent_bind; [apply quiescent_PublishedDefinition|].
  intros d. cbv zeta. apply quiescent_bind; [quiescent|]. intros now. destruct (nextRun _ _ _ _); [apply (quiescent_schedules O _ ""%string ""%string)|quiescent].
Qed.

Lemma wp_Retry c id actor by_ w : good w -> asked w (fun req => exists run d, req = retryRequest c actor by_ run d) ->
  wp (Service.Retry O redactText jsonLen digest c id actor by_) w (fun _ w' => served w w').
Proof.
  intros Hg Ha. apply wp_bind, wp_GetRow; [done|]. intros r w1 Hk1 Hg1 _ _ _. assert (served w w1) as Hs1 by by apply keeps_served.
  destruct r as [[r|]|e]; [|by apply wp_throw|done]. destruct (negb _); [by apply wp_throw|]. apply wp_bind, wp_quiescent; [apply quiescent_parse|apply Hg1|].
  intros d w2 Hk2 _. assert (served w w2) as Hs2 by (apply keeps_served; [done|by etransitivity]). destruct d as [d|e]; [|done].
  eapply wp_mono; [apply served_Start; [apply Hs2|]|intros ? w3 Hs3; by eapply served_trans]. apply (Ha w2); [done|by eexists _, _].
Qed.

Lemma quiescent_dry_trigger d payload : quiescent (dry_trigger O LoadLocation cronFuel d payload).
Proof.
  unfold dry_trigger. cbv zeta. case_decide; [|case_decide; quiescent]. apply quiescent_bind; [destruct (assoc _ payload); quiescent|]. intros p.
  destruct (MatchConditions _ _ _). quiescent.
Qed.

Lemma wp_would_not_start c actor by_ draft flow d lines problems payload w : good w ->
  wp (would_not_start O redactText jsonLen c actor by_ draft flow d lines problems payload) w (fun _ w' => served w w').
Proof.
  intros Hg. apply wp_bind, wp_consult, wp_bind, wp_consult. set (w2 := set_tick _ (set_tick _ _)). assert (keeps w w2) as Hk2 by (subst w2; split; cbn; [lia|done..]).
  cbv zeta. set (run := mkARun _ _ _ _ _ _ _ _ _ _ _ _ _ _ _ _ _ _ _ _ _ _ _ _ _ _). apply wp_bind, wp_CreateAutomationRun; [apply clock_real| |].
  - intros e w3 Hk3 _. apply keeps_served; [done|by etransitivity].
  - intros w3 _ Hn Hm _. rewrite (k_runs _ _ Hk2) in Hn, Hm. assert (served w w3) as Hs3.
    { eapply moved_served; [done|exact (keeps_moved _ _ _ _ Hk2 Hm)|]. eapply (srv_report _ _ _ _ _ _ (tick w)); try done. pose proof (k_tick _ _ Hm). cbn in *. lia. }
    apply wp_sure; [apply sure_emit|apply Hs3|]. intros w4 Hk4 _. apply wp_ret. eapply served_trans; [done|]. apply keeps_served; [apply Hs3|done].
Qed.

Lemma wp_DryRun c flowID draft payload inputs actor by_ w : good w ->
  asked w (fun req => exists d payload lines, req = testRequest c flowID draft actor by_ d payload inputs lines) ->
  wp (DryRun O LoadLocation cronFuel redactText jsonLen digest message_text c flowID draft payload inputs actor by_) w (fun _ w' => served w w').
Proof.
  intros Hg Ha. apply wp_bind, wp_quiescent; [apply (quiescent_reads O c flowID ""%string ""%string 0 0 0 0)|apply Hg|]. intros r w1 Hk1 Hw1.
  assert (served w w1) as Hs1 by by apply keeps_served. destruct r as [[flow|]|e]; [|by apply wp_throw|done].
  apply wp_bind, wp_quiescent; [destruct draft; [apply quiescent_parse|apply quiescent_PublishedDefinition]|done|]. intros d w2 Hk2 Hw2.
  assert (keeps w w2) as Hk by by etransitivity. destruct d as [d|e]; [|by apply keeps_served]. destruct (Validate LoadLocation d) as [problems|]; [|by apply wp_ret, keeps_served].
  apply wp_bind, wp_quiescent; [apply quiescent_dry_trigger|done|]. intros r w3 Hk3 _. assert (served w w3) as Hs3 by (apply keeps_served; [done|by etransitivity]).
  destruct r as [[[lines ok] payload']|e]; [|done]. cbv zeta. apply wp_bind. eapply (wp_mono _ _ (fun _ w' => served w3 w')).
  { destruct (match problems with [] => ok | _ => false end); [|apply wp_would_not_start, Hs3]. apply served_Start; [apply Hs3|]. apply (Ha w3); [done|by eexists _, _, _]. }
  intros r w4 Hs4. cbn beta in Hs4. destruct r; [apply wp_ret|]; by eapply served_trans.
Qed.

(** ** Every operation *)

(** The requests an operation may make, from the table before it. *)
Definition poses (m : gmap string AutomationRun) (o : op) (req : StartRequest) : Prop :=
  match o with
  | OpStart r => req = r
  | OpEvent ev => exists depth flow lines, event_depth m ev (fID flow) depth /\ req = eventRequest ev depth (EventPayload ev) flow lines
  | OpSchedules _ => exists sc at_, req = scheduleRequest sc at_
  | OpRetry c _ a b => exists run d, req = retryRequest c a b run d
  | OpDryRun c f draft _ inputs a b => exists d payload lines, req = testRequest c f draft a b d payload inputs lines
  | _ => False
  end.
(** The run whose slot an operation may free. *)
Definition target (o : op) : option string :=
  match o with
  | OpStep _ _ _ _ _ id | OpApprove _ _ id _ _ _ _ | OpCancel _ id _ => Some id
  | _ => None
  end.

Notation perform := (perform O LoadLocation cronFuel redactText jsonLen digest message_text error_text Owner).

Lemma perform_ends o id w : good w -> target o = Some id -> freeing id w -> ends_id id w (perform o w).2.
Proof.
  intros Hg Ho Hf. destruct o; try done; injection Ho as ->; [by apply wp_Step|by apply wp_Approve|by apply wp_Cancel].
Qed.

Lemma served_ignored {A} (m : M A) w : wp m w (fun _ w' => served w w') -> served w (ignored m w).2.
Proof. intros H. apply (wp_bind m _ w (fun _ w' => served w w')). eapply wp_mono; [exact H|]. intros [a|e] w' Hs; [by apply wp_ret|done]. Qed.

Lemma perform_served o w : good w -> asked w (poses (runs (db w)) o) -> (forall id, target o = Some id -> freeing id w) -> served w (perform o w).2.
Proof.
  intros Hg Ha Hf. destruct (target o) as [id|] eqn:Ht; [by apply (perform_ends o id), Hf|].
  destruct o; try done; cbn [perform poses] in *.
  - apply served_ignored, served_Start; [done|]. apply (Ha w); [by apply keeps_served|done].
  - by apply wp_HandleEvent.
  - by apply served_ignored, wp_ProcessDueSchedules.
  - apply keeps_served; [done|]. apply quiescent_SyncTrigger, Hg.
  - by apply served_ignored, wp_Retry.
  - by apply served_ignored, wp_DryRun.
Qed.
End served.
End refine.
