(* ===== verification/Approvals.v ===== *)
(** * Editing, publishing and approving flows

    The handlers of [src/internal/httpapi/automation_api.go] and [automation_approvals.go]
    that change flows, with the guard of [automation_guard.go]: a version that holds a
    protected step runs only once it is approved, unless a SuperAdmin built it.  A handler
    is a computation of [AutoStore]'s monad that answers with a status; bodies of answers
    are left out. *)
From S2P Require Export Service Steps Access.
From S2P Require Import FlowDef Trigger Value GoText GoNum Rbac Engine AutoStore Service Access.

(** ** Bodies of requests *)

(** [bDefinition]: no definition, or its parse.  [bTemplate]: the template that was named,
    if it is found. *)
Record flowBody := mkBody {
  bName : option string; bDefinition : option (option Definition_); bLimits : option Limits; bTemplate : option (option (string * Definition_ * Limits)) }.

Definition emptyDefinition : Definition_ := mkDefinition SchemaVersion_ (mkTrigger TriggerID TriggerManual []) [] [] None None ∅.

Definition firstNonEmpty (a b : string) : string :=
  if decide (TrimSpace a <> ""%string) then a else if decide (TrimSpace b <> ""%string) then b else "".

(** ** The steps of the instance ([src/internal/httpapi/automation_nodes.go]) *)
Definition workload_decl (action : string) : decl :=
  mkDecl ("ndl.workload." +:+ action) [] [("workload", true)]%string (bool_decide (action <> "start"%string)) false [] "".
Definition snapshot_decl : decl := mkDecl "ndl.snapshot.create" [] [("workload", true); ("name", true)]%string false false [] "".
Definition backup_decl : decl := mkDecl "ndl.backup.run" [] [("policy", false); ("workload", false); ("target", false)]%string false false [] "".
Definition migrate_decl : decl := mkDecl "ndl.workload.migrate" [] [("workload", true); ("dest_node", false); ("mode", false)]%string true false [] "".
Definition clone_decl : decl := mkDecl "ndl.workload.clone" [] [("workload", true); ("name", false)]%string false false [] "".
Definition container_decl : decl := mkDecl "ndl.docker.container" [] [("container", true); ("action", true)]%string true false [] "".
Definition fix_decl : decl := mkDecl "ndl.docker.fix" [] [("machine", false)]%string true false [] "".
Definition redeploy_decl : decl := mkDecl "ndl.docker.redeploy" [] [("project", true)]%string true false [] "".
Definition prune_decl : decl := mkDecl "ndl.docker.prune" [] [] true false [] "".
Definition script_decl : decl := mkDecl "ndl.script.run" [] [("script", true)]%string true false [] "".
Definition recover_decl : decl := mkDecl "ndl.uptime.recover" [] [("monitor", false)]%string true false [] "".
Definition pressure_decl : decl := mkDecl "ndl.storage.pressure" [] [("threshold_percent", true)]%string true false [] "".
Definition notify_decl : decl := mkDecl "action.notify" [] [("title", false); ("message", true); ("level", false); ("channels", false)]%string false false [] "".
Definition workloads_decl : decl := mkDecl "ndl.workloads.list" [] [("kind", false); ("name_contains", false); ("status", false)]%string false false [] "".
Definition containers_decl : decl := mkDecl "ndl.docker.containers.list" [] [("health", false); ("machine", false)]%string false false [] "".
Definition registerAutomationNodes (r : Registry) : Registry :=
  fold_left (fun r t => Register t r)
    (map workload_decl ["start"; "stop"; "restart"]%string ++
     [snapshot_decl; backup_decl; migrate_decl; clone_decl; container_decl; fix_decl; redeploy_decl; prune_decl; script_decl; recover_decl; pressure_decl;
      notify_decl; workloads_decl; containers_decl]) r.

(** ** The guard *)
Definition harmfulSteps : list string :=
  ["ndl.workload.migrate"; "ndl.docker.prune"; "ndl.script.run"; "ndl.docker.redeploy"; "ndl.storage.pressure"]%string.
Definition dockerFreeActions : list string := ["restart"; "start"; "stop"; "pull"]%string.
Definition stepURLs : list string := ["action.http"; "action.webhook"]%string.

Definition hasTemplate (v : string) : bool := Contains v "{{".

Fixpoint before_any (stop : list ascii) (l : list ascii) : list ascii :=
  match l with [] => [] | a :: l => if bool_decide (a ∈ stop) then [] else a :: before_any stop l end.
Definition hostPart (raw : string) : string :=
  let rest := match Index raw "://" with Some i => drop (i + 3) (bytes raw) | None => bytes raw end in
  ofBytes (before_any ["/"; "?"; "#"]%char rest).

(** Whether a URL that is known when the flow is saved reaches this instance is the
    world's answer: names, routes, addresses. *)
Definition selfTarget (reaches : string -> bool) (raw : string) : bool :=
  if decide (raw = ""%string) then false else if hasTemplate (hostPart raw) then false else reaches raw.

Definition cfg_text (n : Node) (k : string) : string := match field k (nConfig n) with VStr v => TrimSpace v | _ => "" end.

Definition protectedKind (reaches : string -> bool) (n : Node) : option protected_kind :=
  if bool_decide (nType n ∈ harmfulSteps) then Some protectedHarmful
  else if decide (nType n = "ndl.docker.container"%string) then
    if bool_decide (firstNonEmpty (cfg_text n "action") "restart" ∈ dockerFreeActions) then None else Some protectedHarmful
  else if bool_decide (nType n ∈ stepURLs) then
    if selfTarget reaches (cfg_text n "url") then Some protectedOwnAPI else None
  else None.

(** [reaches] takes the step's number too: names may change between two look-ups. *)
Definition protectedSteps (reaches : nat -> string -> bool) (d : Definition_) : list protectedStep :=
  concat (imap (fun i n => match protectedKind (reaches i) n with Some k => [mkProtected (nID n) (nType n) k] | None => [] end) (Nodes d)).

Definition ownAPISteps (steps : list protectedStep) : list string :=
  map psNode (filter (fun s => psKind s = protectedOwnAPI) steps).

Definition taintDraft (p : principal) (f : AutomationFlow) : bool := if isOwner p then DraftTainted f else true.

(** The assignments of the handlers. *)
Definition set_draft (d : option Definition_) (tainted : bool) (f : AutomationFlow) : AutomationFlow :=
  mkFlow (fID f) (fCluster f) (fName f) d (PublishedVersion f) (Enabled f) (fTriggerKind f) (fEventKind f) (fLimits f) (DryRunHash f)
    (ConsecutiveFailures f) (DisabledReason f) (fCreatedAt f) (PendingVersion f) tainted (LegacyPolicyID f).
Definition set_name (name : string) (f : AutomationFlow) : AutomationFlow :=
  mkFlow (fID f) (fCluster f) name (Draft f) (PublishedVersion f) (Enabled f) (fTriggerKind f) (fEventKind f) (fLimits f) (DryRunHash f)
    (ConsecutiveFailures f) (DisabledReason f) (fCreatedAt f) (PendingVersion f) (DraftTainted f) (LegacyPolicyID f).
Definition set_limits (l : Limits) (f : AutomationFlow) : AutomationFlow :=
  mkFlow (fID f) (fCluster f) (fName f) (Draft f) (PublishedVersion f) (Enabled f) (fTriggerKind f) (fEventKind f) l (DryRunHash f)
    (ConsecutiveFailures f) (DisabledReason f) (fCreatedAt f) (PendingVersion f) (DraftTainted f) (LegacyPolicyID f).
Definition set_pending (v : Z) (f : AutomationFlow) : AutomationFlow :=
  mkFlow (fID f) (fCluster f) (fName f) (Draft f) (PublishedVersion f) (Enabled f) (fTriggerKind f) (fEventKind f) (fLimits f) (DryRunHash f)
    (ConsecutiveFailures f) (DisabledReason f) (fCreatedAt f) v (DraftTainted f) (LegacyPolicyID f).
Definition set_published (v : Z) (d : Definition_) (f : AutomationFlow) : AutomationFlow :=
  mkFlow (fID f) (fCluster f) (fName f) (Draft f) v (Enabled f) (TriggerKind d) (EventKind d) (fLimits f) (DryRunHash f)
    (ConsecutiveFailures f) (DisabledReason f) (fCreatedAt f) (PendingVersion f) (DraftTainted f) (LegacyPolicyID f).
Definition set_enabled (enabled : bool) (f : AutomationFlow) : AutomationFlow :=
  if enabled then set_health true 0 "" f else set_health false (ConsecutiveFailures f) (DisabledReason f) f.

(** The reason a migration gives flows it turned off. *)
Definition flowDisabledByUpdate : string := "Turned off by the update that added flow approvals. Review it, then turn it back on.".

(** ** Who may edit *)
Record creators := mkCreators { cRoles : list string; cMinRole : string }.

Definition mayCreateAutomations (A : Store) (c : creators) (p : principal) : bool :=
  if isOwner p || bool_decide (pID p = LocalRootUserID) then true
  else match cRoles c with
       | [] => bool_decide (rankOf (ListRoleDefs A) (pRoles p) <= rankOf (ListRoleDefs A) [firstNonEmpty (cMinRole c) Admin])
       | rs => existsb (containsString (pRoles p)) rs
       end.

(** ** Policies and their flows ([src/internal/automation/policy.go]) *)
Definition KindStoragePressure : string := "storage_pressure".
Definition KindUptimeCheck : string := "uptime_check".
Definition KindDockerFix : string := "docker_fix".
Definition KindDockerScript : string := "docker_script".
Record Spec := mkPolicySpec { spKind : string; spThreshold : Z; spAction : string; spRequireApproval : bool; spTarget : string }.

Definition kindActions (kind : string) : option string :=
  Value.assoc kind [(KindStoragePressure, "enqueue_migrate_low_priority"); (KindUptimeCheck, "check_and_recover"); (KindDockerFix, "fix_unhealthy");
              (KindDockerScript, "run_saved_script")]%string.

Definition Normalize (spec : Spec) : option Spec :=
  let kind := TrimSpace (spKind spec) in
  let action := TrimSpace (spAction spec) in
  let target := TrimSpace (spTarget spec) in
  let kind := if decide (kind = ""%string) then KindStoragePressure else kind in
  match kindActions kind with
  | None => None
  | Some want =>
      let action := if decide (action = ""%string) then want else action in
      if decide (action <> want) then None
      else if decide (kind <> KindStoragePressure) then
        if decide (kind = KindDockerScript /\ target = ""%string) then None
        else Some (mkPolicySpec kind 0 action (spRequireApproval spec) target)
      else
        let t := if decide (spThreshold spec = 0) then 85 else spThreshold spec in
        if decide (t < 1 \/ 100 < t) then None else Some (mkPolicySpec kind t action (spRequireApproval spec) target)
  end.

Record policy := mkPolicy { polID : string; polName : string; polSpec : Spec }.

(** The step as it is stored: numbers are floats. *)
Definition policy_node (pol : policy) : Node :=
  let step typ cfg := mkNode "policy" typ cfg None "" 0 in
  let spec := polSpec pol in
  if decide (spKind spec = KindUptimeCheck) then step "ndl.uptime.recover" [("monitor", VStr (spTarget spec))]
  else if decide (spKind spec = KindDockerFix) then step "ndl.docker.fix" [("machine", VStr (spTarget spec))]
  else if decide (spKind spec = KindDockerScript) then step "ndl.script.run" [("script", VStr (spTarget spec))]
  else step "ndl.storage.pressure" [("threshold_percent", VNum (float_of_Z (spThreshold spec)))]%string.
Definition policyFlowDefinition (pol : policy) : Definition_ :=
  let nodes_edges :=
    if spRequireApproval (polSpec pol) then
      ([mkNode "approve" "logic.approval" [("message", VStr ("Apply policy " +:+ polName pol +:+ "?"))] None "" 0; policy_node pol],
       [mkEdge TriggerID "approve" ""; mkEdge "approve" "policy" "approved"])
    else ([policy_node pol], [mkEdge TriggerID "policy" ""]) in
  mkDefinition SchemaVersion_ (mkTrigger TriggerID TriggerManual []) nodes_edges.1 nodes_edges.2 None None ∅.

Section api.
Context {CT : CaseTables} {PT : PrintTables} (reg : Registry).
Context (O : outside) (LoadLocation : string -> option Location) (cronFuel : nat) (digest : Definition_ -> string) (Owner : string).
(** The world at a consultation: whether the Automation feature is on, and which URLs reach
    this instance, by the number of the step that asks. *)
Context (feature : nat -> bool) (reaches : nat -> nat -> string -> bool).
(** The roles, and the "Automation creators" setting. *)
Context (A : Store) (may : creators).

Notation hash d := (DefinitionHash digest d).
Notation SyncTrigger := (SyncTrigger O LoadLocation cronFuel digest).
Notation Validate := (Validate (cat := registry_catalog reg) LoadLocation).

(** [requireAutomation] and [requireAutomationEdit] before a handler goes on. *)
Definition requireAutomation (p : principal) (perm : string) (k : principal -> M Z) : M Z :=
  match require A p "" "" false perm with
  | None => mret 403
  | Some p => on ← consult feature; if on : bool then k p else mret 409
  end.
Definition requireAutomationEdit (p : principal) (k : principal -> M Z) : M Z :=
  requireAutomation p PolicyApply (fun p => if mayCreateAutomations A may p then k p else mret 403).

Definition loadFlow (c id : string) (k : AutomationFlow -> M Z) : M Z :=
  f ← attempt (GetAutomationFlow O c id);
  match f with None => mret 500 | Some None => mret 404 | Some (Some f) => k f end.

Definition asked_steps (d : Definition_) : M (list protectedStep) := consult (fun k => protectedSteps (reaches k) d).
Definition allowOwnAPI (p : principal) (d : Definition_) (k : M Z) : M Z :=
  if isOwner p || bool_decide (pID p = LocalRootUserID) then k
  else steps ← asked_steps d; if decide (ownAPISteps steps <> []) then mret 403 else k.

Definition bad_name (name : string) : bool := bool_decide (name = ""%string) || (120 <? Z.of_nat (String.length name)).

(** ** Creating and cloning *)
Definition newFlow (id c name : string) (d : option Definition_) (l : Limits) (tainted : bool) : AutomationFlow :=
  mkFlow id c name d 0 false "" "" l "" 0 "" zero_time 0 tainted "".

(** What the body and its template ask for. *)
Definition create_name (b : flowBody) : string :=
  match bName b, bTemplate b with Some n, _ => TrimSpace n | None, Some (Some (n, _, _)) => TrimSpace n | None, _ => "" end.
Definition create_definition (b : flowBody) : option Definition_ :=
  match bDefinition b, bTemplate b with Some d, _ => d | None, Some (Some (_, d, _)) => Some d | None, _ => Some emptyDefinition end.
Definition create_limits (b : flowBody) : Limits :=
  match bLimits b, bTemplate b with Some l, _ => l | None, Some (Some (_, _, l)) => l | None, _ => mkLimits 0 0 0 0 0 0 0 0 0 0 0 end.

Definition createAutomationFlow (c : string) (p : principal) (b : flowBody) : M Z :=
  requireAutomationEdit p (fun p =>
    match bTemplate b, create_definition b with
    | Some None, _ => mret 404
    | _, None => mret 400
    | _, Some d =>
             if bad_name (create_name b) then mret 400
             else allowOwnAPI p d (
                    id ← NewString O;
                    made ← attempt (CreateAutomationFlow O (newFlow id c (create_name b) (Some d) (Normalized (create_limits b)) (negb (isOwner p))));
                    match made with
                    | None => mret 409
                    | Some _ => emit (EAudit c (pID p) "automation.flow.create" "ok" (id +:+ " " +:+ create_name b)) ≫= fun _ => mret 201
                    end)
    end).

Definition clone_name (name : option string) (f : AutomationFlow) : string :=
  match name with Some n => if decide (TrimSpace n <> ""%string) then TrimSpace n else fName f +:+ " (copy)" | None => fName f +:+ " (copy)" end.
Definition cloneAutomationFlow (c : string) (p : principal) (id : string) (name : option string) : M Z :=
  requireAutomationEdit p (fun p => loadFlow c id (fun f =>
    let k := (new ← NewString O;
              made ← attempt (CreateAutomationFlow O (newFlow new (fCluster f) (clone_name name f) (Draft f) (fLimits f) (negb (isOwner p) || DraftTainted f)));
              match made with
              | None => mret 409
              | Some _ => emit (EAudit c (pID p) "automation.flow.create" "ok" (new +:+ " clone of " +:+ fID f)) ≫= fun _ => mret 201
              end) in
    match Draft f with Some d => allowOwnAPI p d k | None => k end)).

(** ** Editing the draft *)
Definition save_patch (c : string) (p : principal) (b : flowBody) (f : AutomationFlow) : M Z :=
  let f := match bLimits b with Some l => set_limits (Normalized l) f | None => f end in
  saved ← attempt (UpdateAutomationFlow O f);
  match saved with
  | None => mret 409
  | Some _ => emit (EAudit c (pID p) "automation.flow.update" "ok" (fID f)) ≫= fun _ => mret 200
  end.
Definition patched_draft (p : principal) (d : Definition_) (f : AutomationFlow) : AutomationFlow :=
  set_draft (Some d) (if decide (hash (Some d) <> hash (Draft f)) then taintDraft p f else DraftTainted f) f.

Definition patchAutomationFlow (c : string) (p : principal) (id : string) (b : flowBody) : M Z :=
  requireAutomationEdit p (fun p => loadFlow c id (fun f =>
    let name := default (fName f) (TrimSpace <$> bName b) in
    if match bName b with Some n => bad_name (TrimSpace n) | None => false end then mret 400
    else
      let f := set_name name f in
      match bDefinition b with
      | None => save_patch c p b f
      | Some None => mret 400
      | Some (Some d) =>
          if decide (MaxNodes < Z.of_nat (length (Nodes d))) then mret 422
          else allowOwnAPI p d (save_patch c p b (patched_draft p d f))
      end)).

Definition deleteAutomationFlow (c : string) (p : principal) (id username : string) : M Z :=
  requireAutomationEdit p (fun p => loadFlow c id (fun f =>
    rs ← attempt (ListFlowRuns O c (fID f) 500);
    each (fun r => if AutoRunFinished (aStatus r) then mret () else quiet (Service.Cancel O digest Owner c (aID r) username)) (default [] rs) ≫= fun _ =>
    quiet (DeleteAutomationSchedule O c (fID f)) ≫= fun _ =>
    gone ← attempt (DeleteAutomationFlow O c (fID f));
    match gone with
    | None => mret 500
    | Some _ => emit (EAudit c (pID p) "automation.flow.delete" "ok" (fID f +:+ " " +:+ fName f)) ≫= fun _ => mret 204
    end)).

(** ** A run's step that calls this API *)

(** [selfTargetAtRun]: whether the step is refused. *)
Definition selfTargetAtRun (clusterID flowID raw : string) : M bool :=
  self ← consult (fun k => selfTarget (reaches k 0%nat) raw);
  if negb self then mret false
  else f ← attempt (GetAutomationFlow O clusterID flowID);
       match mjoin f with
       | Some f => if decide (0 < PublishedVersion f)
                   then v ← attempt (GetAutomationFlowVersion O clusterID (fID f) (PublishedVersion f));
                        mret (match mjoin v with Some v => negb (Exempt v) | None => true end)
                   else mret true
       | None => mret true
       end.

(** ** Publishing *)
Definition nextFlowVersion (f : AutomationFlow) : M Z :=
  vs ← attempt (ListAutomationFlowVersions O (fCluster f) (fID f));
  mret (fold_left (fun next v => if decide (next <= vVersion v) then vVersion v + 1 else next) (default [] vs)
                  (Z.max (PublishedVersion f) (PendingVersion f) + 1)).

(** A version that waits, and the flow that waits for it. *)
Definition request_approval (c : string) (p : principal) (f : AutomationFlow) (version : Z) (d : Definition_) : M Z :=
  saved ← attempt (UpdateAutomationFlow O (set_pending version f));
  match saved with
  | None => mret 500
  | Some _ => emit (EAudit c (pID p) "automation.flow.approval.request" "ok" (fID f +:+ " v" +:+ Itoa version +:+ " hash=" +:+ hash (Some d))) ≫= fun _ =>
              emit (ENotify c "approval_waiting" [("flow", fID f); ("version", Itoa version)]%string) ≫= fun _ => mret 202
  end.
Definition run_version (c : string) (p : principal) (f : AutomationFlow) (version : Z) (d : Definition_) : M Z :=
  let f := set_published version d f in
  saved ← attempt (UpdateAutomationFlow O f);
  match saved with
  | None => mret 500
  | Some _ => synced ← attempt (SyncTrigger f);
              match synced with
              | None => mret 422
              | Some _ => emit (EAudit c (pID p) "automation.flow.publish" "ok" (fID f +:+ " v" +:+ Itoa version)) ≫= fun _ => mret 200
              end
  end.

Definition newVersion (p : principal) (f : AutomationFlow) (version : Z) (d : Definition_) (steps : list protectedStep) : AutomationFlowVersion :=
  let exempt := isOwner p && negb (DraftTainted f) in
  let needs := bool_decide (steps <> []) && negb exempt in
  mkVersion (fID f) (fCluster f) version (Some d) (if needs then FlowVersionPending else FlowVersionApproved) (hash (Some d))
    needs steps (exempt && bool_decide (steps <> [])) (pID p) "".

Definition publishVersion (c : string) (p : principal) (username : string) (f : AutomationFlow) (d : Definition_) : M Z :=
  steps ← asked_steps d;
  version ← nextFlowVersion f;
  let v := newVersion p f version d steps in
  made ← attempt (CreateAutomationFlowVersion O v);
  match made with
  | None => mret 409
  | Some _ =>
      (if decide (0 < PendingVersion f)
       then quiet (DecideAutomationFlowVersion O (fCluster f) (fID f) (PendingVersion f) FlowVersionSuperseded username) else mret ()) ≫= fun _ =>
      let f := if decide (0 < PendingVersion f) then set_pending 0 f else f in
      if NeedsApproval v then request_approval c p f version d else run_version c p f version d
  end.

(** [problems]: [None] of [Validate] is a panic, which ends the request without a status. *)
Definition publishAutomationFlow (c : string) (p : principal) (username id skipReason : string) : M Z :=
  requireAutomationEdit p (fun p => loadFlow c id (fun f =>
    match Draft f with
    | None => mret 422
    | Some d =>
        match Validate d with
        | None => mret 0
        | Some (_ :: _) => mret 422
        | Some [] =>
            allowOwnAPI p d (
              if bool_decide (HasDestructive reg d <> []) && bool_decide (DryRunHash f <> hash (Draft f)) then
                let reason := TrimSpace skipReason in
                if bool_decide (reason = ""%string) || negb (Authorize (pGrants p) AutomationSkipTest) then mret 409
                else emit (EAudit c (pID p) "automation.flow.publish.skip_dry_run" "ok" (fID f +:+ ": " +:+ reason)) ≫= fun _ => publishVersion c p username f d
              else publishVersion c p username f d)
        end
    end)).

(** ** Deciding *)
Definition loadApproval (c id : string) (version : Z) (k : AutomationFlow -> AutomationFlowVersion -> M Z) : M Z :=
  if decide (version <= 0) then mret 400
  else f ← attempt (GetAutomationFlow O c id);
       match mjoin f with
       | None => mret 404
       | Some f => v ← attempt (GetAutomationFlowVersion O c (fID f) version);
                   match mjoin v with
                   | Some v => if NeedsApproval v then k f v else mret 404
                   | None => mret 404
                   end
       end.

(** The flow after the decision; a denied draft goes back to the version that runs. *)
Definition decided_flow (approve : bool) (v : AutomationFlowVersion) (d : option Definition_) (base : option AutomationFlowVersion) (f : AutomationFlow) : AutomationFlow :=
  let f := if decide (PendingVersion f = vVersion v) then set_pending 0 f else f in
  let draftIsVersion := bool_decide (hash (Draft f) = vHash v) in
  if approve then
    let f := match d with Some d => set_published (vVersion v) d f | None => f end in
    if draftIsVersion then set_draft (Draft f) false f else f
  else match base with
       | Some b => if draftIsVersion && (0 <? PublishedVersion f) then set_draft (vDefinition b) false f else f
       | None => f
       end.

Definition save_decision (c : string) (p : principal) (username note : string) (approve : bool) (v : AutomationFlowVersion) (f : AutomationFlow) : M Z :=
  saved ← attempt (UpdateAutomationFlow O f);
  match saved with
  | None => mret 500
  | Some _ =>
      synced ← (if approve then attempt (SyncTrigger f) else mret (Some ()));
      match synced with
      | None => mret 422
      | Some _ =>
          let detail := fID f +:+ " v" +:+ Itoa (vVersion v) +:+ " hash=" +:+ vHash v +:+ (if decide (note <> ""%string) then ": " +:+ note else "") in
          emit (EAudit c (pID p) (if approve then "automation.flow.approval.approve" else "automation.flow.approval.deny") "ok" detail) ≫= fun _ =>
          emit (ENotify c "approval_decided" [("user", RequestedByID v); ("flow", fID f)]%string) ≫= fun _ =>
          mret 200
      end
  end.

Definition decideApproval (approve : bool) (c : string) (p : principal) (username id : string) (version : Z) (note : string) : M Z :=
  match require A p "" "" false ApprovalsDecide with
  | None => mret 403
  | Some p =>
      loadApproval c id version (fun f v =>
        if bool_decide (RequestedByID v = pID p) && negb (isOwner p) then mret 403
        else if decide (vStatus v <> FlowVersionPending) then mret 409
        else if decide (hash (vDefinition v) <> vHash v) then mret 409
        else if approve && match vDefinition v with Some _ => false | None => true end then mret 422
        else
          done ← attempt (catch (DecideAutomationFlowVersion O (fCluster f) (fID f) (vVersion v) (if approve then FlowVersionApproved else FlowVersionDenied) username
                                   ≫= fun _ => mret true)
                            (fun e => if decide (e = ErrNotPending) then mret false else throw e));
          match done with
          | None => mret 500
          | Some false => mret 409
          | Some true =>
              base ← (if negb approve && bool_decide (hash (Draft f) = vHash v) && (0 <? PublishedVersion f)
                      then b ← attempt (GetAutomationFlowVersion O (fCluster f) (fID f) (PublishedVersion f)); mret (mjoin b) else mret None);
              save_decision c p username (TrimSpace note) approve v (decided_flow approve v (vDefinition v) base f)
          end)
  end.

(** ** Turning on and off *)
Definition setAutomationFlowEnabled (enabled : bool) (c : string) (p : principal) (id : string) : M Z :=
  requireAutomation p PolicyApply (fun p => loadFlow c id (fun f =>
    if enabled && bool_decide (PublishedVersion f = 0) then mret 409
    else
      held ← (if enabled && bool_decide (DisabledReason f = flowDisabledByUpdate) && negb (isOwner p)
              then d ← attempt (PublishedDefinition O digest f);
                   match d with Some d => steps ← asked_steps d; mret (bool_decide (steps <> [])) | None => mret false end
              else mret false);
      if held : bool then mret 409
      else
        let f := set_enabled enabled f in
        saved ← attempt (UpdateAutomationFlow O f);
        match saved with
        | None => mret 500
        | Some _ => synced ← attempt (SyncTrigger f);
                    match synced with
                    | None => mret 422
                    | Some _ => emit (EAudit c (pID p) (if enabled then "automation.flow.enable" else "automation.flow.disable") "ok" (fID f)) ≫= fun _ => mret 200
                    end
        end)).

(** ** Policies make flows *)
Fixpoint free_name (fuel : nat) (names : list string) (base : string) (i : Z) (name : string) : string :=
  match fuel with
  | 0%nat => name
  | S fuel => if bool_decide (name ∈ names) then free_name fuel names base (i + 1) (base +:+ " (" +:+ Itoa i +:+ ")") else name
  end.

(** Each name tried is another one, so one more round than names is enough. *)
Definition policy_flow_name (names : list string) (pol : policy) : string :=
  let base := ("Policy: " +:+ polName pol)%string in free_name (S (length names)) names base 2 base.
Definition policyFlow (id c name : string) (pol : policy) : AutomationFlow :=
  let d := policyFlowDefinition pol in
  mkFlow id c name (Some d) 1 false (TriggerKind d) "" DefaultLimits "" 0 "made from a policy; turn it on to run it here" zero_time 0 false (polID pol).

Definition flowFromPolicy (c : string) (pol : policy) : M () :=
  fs ← ListAutomationFlows O c;
  if existsb (fun f => bool_decide (LegacyPolicyID f = polID pol)) fs then mret ()
  else
    id ← NewString O;
    let f := policyFlow id c (policy_flow_name (map fName fs) pol) pol in
    CreateAutomationFlow O f ≫= fun _ =>
    CreateAutomationFlowVersion O (mkVersion (fID f) c 1 (Draft f) FlowVersionApproved "" false [] false "" "").

(** The row of the policy goes to another table. *)
Definition createAutomationPolicy (c : string) (p : principal) (name : string) (spec : Spec) : M Z :=
  requireAutomation p PolicyApply (fun p =>
    match Normalize spec with
    | None => mret 422
    | Some spec =>
        if decide (TrimSpace name = ""%string) then mret 400
        else
          id ← NewString O;
          let pol := mkPolicy id (TrimSpace name) spec in
          made ← attempt (io O (fun _ => mret ()));
          match made with
          | None => mret 409
          | Some _ => emit (EAudit c (pID p) "policy.create" "ok" (polID pol)) ≫= fun _ =>
                      quiet (flowFromPolicy c pol) ≫= fun _ => mret 201
          end
    end).

(** ** A request *)
Inductive edit :=
  | ECreate (c : string) (p : principal) (b : flowBody)
  | EClone (c : string) (p : principal) (id : string) (name : option string)
  | EPatch (c : string) (p : principal) (id : string) (b : flowBody)
  | EDelete (c : string) (p : principal) (id username : string)
  | EPublish (c : string) (p : principal) (username id skipReason : string)
  | EDecide (approve : bool) (c : string) (p : principal) (username id : string) (version : Z) (note : string)
  | EEnable (enabled : bool) (c : string) (p : principal) (id : string)
  | EPolicy (c : string) (p : principal) (name : string) (spec : Spec).

Definition handle (e : edit) : M Z :=
  match e with
  | ECreate c p b => createAutomationFlow c p b
  | EClone c p id name => cloneAutomationFlow c p id name
  | EPatch c p id b => patchAutomationFlow c p id b
  | EDelete c p id u => deleteAutomationFlow c p id u
  | EPublish c p u id r => publishAutomationFlow c p u id r
  | EDecide a c p u id v n => decideApproval a c p u id v n
  | EEnable b c p id => setAutomationFlowEnabled b c p id
  | EPolicy c p n spec => createAutomationPolicy c p n spec
  end.
End api.
