(* ===== verification/ApprovalsProps.v ===== *)
(** * What runs was vetted

    First what the service leaves of an invariant of definitions: whatever it starts, caches
    or keeps comes from an approved version.  Then the histories of edits: which of them
    vet a definition, and that nothing else runs. *)
From stdpp Require Import sorting.
From S2P Require Export Approvals ServiceProps.
From S2P Require Import FlowDef Trigger Value GoText GoNum Cron Rbac Steps Validate Access Engine ServiceSpec ServiceProps Approvals Service AutoStore AutoStoreProps.

(** ** Computations that keep an invariant *)
Section keep.
(** What the rows of versions, by their keys, have in common; what may run for a flow. *)
Context (row : string -> AutomationFlowVersion -> Prop) (V : string -> Definition_ -> Prop).

(** A live run has a definition that may run. *)
Definition fit (r : AutomationRun) : Prop := aDry r = false -> forall d, aDefinition r = Some d -> V (aFlow r) d.

Record sound (w : world) : Prop := {
  so_rows : forall k v, versions (db w) !! k = Some v -> row k v;
  so_cache : forall f n d, defs w !! versionKey f n = Some d -> V f d;
  so_flows : forall id g, flows (db w) !! id = Some g -> fID g = id;
  so_runs : forall id r, runs (db w) !! id = Some r -> fit r }.

(** [m] keeps the invariant, and what it answers with is [post]. *)
Definition safe {A} (m : M A) (post : A -> Prop) : Prop := forall w, sound w -> sound (m w).2 /\ forall a, (m w).1 = Ok a -> post a.

Lemma safe_ret {A} (a : A) (post : A -> Prop) : post a -> safe (mret a) post.
Proof. intros H w Hw. split; [done|]. by intros b [= <-]. Qed.
Lemma safe_throw {A} e (post : A -> Prop) : safe (throw e) post.
Proof. by intros w Hw. Qed.
Lemma safe_mono {A} (m : M A) (P Q : A -> Prop) : safe m P -> (forall a, P a -> Q a) -> safe m Q.
Proof. intros H HPQ w Hw. destruct (H w Hw). auto. Qed.
Lemma safe_bind {A B} (m : M A) (k : A -> M B) (P : A -> Prop) (Q : B -> Prop) : safe m P -> (forall a, P a -> safe (k a) Q) -> safe (m ≫= k) Q.
Proof.
  intros Hm Hk w Hw. destruct (Hm w Hw) as [H1 H2]. unfold mbind, M_bind. destruct (m w) as [[a|e] w']; cbn in *; [|done]. by apply (Hk a (H2 a eq_refl)).
Qed.
Lemma safe_attempt {A} (m : M A) (P : A -> Prop) : safe m P -> safe (attempt m) (fun a => forall x, a = Some x -> P x).
Proof.
  intros Hm w Hw. destruct (Hm w Hw) as [H1 H2]. unfold attempt. destruct (m w) as [[a|e] w']; cbn in *; (split; [done|]); intros b [= <-] x; [|done].
  intros [= <-]. auto.
Qed.
Lemma safe_quiet {A} (m : M A) (P : A -> Prop) Q : safe m P -> Q () -> safe (quiet m) Q.
Proof. intros H HQ. eapply safe_bind; [by apply safe_attempt|]. intros _ _. by apply safe_ret. Qed.
Lemma safe_catch {A} (m : M A) h (P : A -> Prop) : safe m P -> (forall e, safe (h e) P) -> safe (catch m h) P.
Proof.
  intros Hm Hh w Hw. destruct (Hm w Hw) as [H1 H2]. unfold catch. destruct (m w) as [[a|e] w']; cbn in *; [done|by apply Hh].
Qed.
Lemma safe_finally {A B} (m : M A) (k : M B) (P : A -> Prop) (Q : B -> Prop) : safe m P -> safe k Q -> safe (finally m k) P.
Proof.
  intros Hm Hk w Hw. destruct (Hm w Hw) as [H1 H2]. unfold finally. destruct (m w) as [r w1]. cbn in *.
  pose proof (safe_quiet k Q (fun _ => True) Hk I w1 H1) as [H3 _]. by destruct (quiet k w1).
Qed.
(** What leaves the store and the cache alone. *)
Lemma safe_modify f : (forall w, db (f w) = db w /\ defs (f w) = defs w) -> safe (modify f) (fun _ => True).
Proof. intros H w [H1 H2 H3 H4]. destruct (H w) as [E1 E2]. split; [|done]. split; cbn; by rewrite ?E1, ?E2. Qed.
Lemma safe_emit e : safe (emit e) (fun _ => True).
Proof. by apply safe_modify. Qed.
Lemma safe_consult {A} (f : nat -> A) : safe (consult f) (fun _ => True).
Proof. intros w [H1 H2 H3 H4]. split; [|done]. by split. Qed.
Lemma safe_get : safe get sound.
Proof. intros w Hw. split; [done|]. by intros a [= <-]. Qed.
Lemma safe_any {A} (m : M A) P : safe m P -> safe m (fun _ => True).
Proof. intros H. by eapply safe_mono. Qed.
Lemma safe_each {A} (f : A -> M ()) l : (forall a, a ∈ l -> safe (f a) (fun _ => True)) -> safe (each f l) (fun _ => True).
Proof.
  induction l as [|a l IH]; intros H; cbn [each]; [by apply safe_ret|]. eapply safe_bind; [apply H; left|]. intros _ _. apply IH. intros b Hb. apply H. by right.
Qed.
Lemma safe_wp {A} (m : M A) P w (Q : result svcError A -> world -> Prop) : safe m P -> sound w ->
  (forall r w', sound w' -> (forall a, r = Ok a -> P a) -> Q r w') -> wp m w Q.
Proof. intros Hm Hw HQ. destruct (Hm w Hw). by apply HQ. Qed.
Lemma wp_safe {A} (m : M A) (P : A -> Prop) : (forall w, sound w -> wp m w (fun r w' => sound w' /\ forall a, r = Ok a -> P a)) -> safe m P.
Proof. intros H w Hw. by apply H. Qed.
End keep.

(** ** Keys of versions tell their flow *)
Definition plain_char (a : ascii) : Prop := a <> "#"%char.

Lemma digits_plain fuel n acc : 0 <= n -> Forall plain_char acc -> Forall plain_char (digits_loop fuel n acc).
Proof.
  revert n acc. induction fuel as [|fuel IH]; intros n acc Hn Ha; cbn [digits_loop]; [done|].
  assert (Forall plain_char (chr (48 + n mod 10) :: acc)) as Hc.
  { constructor; [|done]. pose proof (Z.mod_pos_bound n 10 ltac:(lia)) as Hm. unfold plain_char. set (r := n mod 10) in *. clearbody r.
    assert (r ∈ [0; 1; 2; 3; 4; 5; 6; 7; 8; 9]) as Hr by (assert (r = 0 \/ r = 1 \/ r = 2 \/ r = 3 \/ r = 4 \/ r = 5 \/ r = 6 \/ r = 7 \/ r = 8 \/ r = 9) by lia; set_solver).
    clear -Hr. repeat (apply elem_of_cons in Hr as [-> |Hr]; [vm_compute; discriminate|]). by apply elem_of_nil in Hr. }
  destruct (n <? 10); [done|]. apply IH; [|done]. apply Z.div_pos; lia.
Qed.

Lemma Itoa_plain n : exists l, Itoa n = ofBytes l /\ Forall plain_char l.
Proof.
  unfold Itoa. cbv zeta. eexists. split; [reflexivity|]. destruct (n <? 0) eqn:E; [|apply digits_plain; [apply Z.ltb_ge in E; lia|constructor]].
  constructor; [discriminate|]. apply digits_plain; [apply Z.ltb_lt in E; lia|constructor].
Qed.

Lemma split_hash (a b x y : list ascii) : Forall plain_char x -> Forall plain_char y -> a ++ "#"%char :: x = b ++ "#"%char :: y -> a = b.
Proof.
  intros Hx Hy. revert b. induction a as [|c a IH]; intros [|d b] H; cbn in H; [done|..].
  - injection H as <- ->. exfalso. rewrite Forall_app, Forall_cons in Hx. destruct Hx as (_ & H & _). by apply H.
  - injection H as -> <-. exfalso. rewrite Forall_app, Forall_cons in Hy. destruct Hy as (_ & H & _). by apply H.
  - injection H as -> H. f_equal. by apply IH.
Qed.

Lemma versionKey_flow f n g m : versionKey f n = versionKey g m -> f = g.
Proof.
  unfold versionKey. destruct (Itoa_plain n) as (x & -> & Hx), (Itoa_plain m) as (y & -> & Hy). intros H.
  assert (bytes (f +:+ "#" +:+ ofBytes x) = bytes (g +:+ "#" +:+ ofBytes y)) as E by by rewrite H. rewrite !bytes_app, !bytes_ofBytes in E. cbn in E.
  apply split_hash in E; [|done..]. rewrite <- (ofBytes_bytes f), <- (ofBytes_bytes g). by rewrite E.
Qed.

(** Whether [p] may save a definition that calls this API, and if not, whether it does. *)
Definition may_ask_itself (reaches : nat -> nat -> string -> bool) (p : principal) (d : Definition_) : Prop :=
  isOwner p = true \/ pID p = LocalRootUserID \/ exists k, ownAPISteps (protectedSteps (reaches k) d) = [].

(** ** The store and the service keep the invariant *)
Section safe_service.
Context {CT : CaseTables} {PT : PrintTables} {cat : Catalog}.
Context (O : outside) (LoadLocation : string -> option Location) (cronFuel : nat).
Context (redactText : string -> string) (jsonLen : value -> option Z) (digest : Definition_ -> string).
Context (message_text : message -> string) (error_text : svcError -> string) (Owner : string).
Context (walk_perm : forall A n l, walk O A n l ≡ₚ l).
Context (row : string -> AutomationFlowVersion -> Prop) (V : string -> Definition_ -> Prop).
Context (row_V : forall f n v d, row (versionKey f n) v -> vStatus v = FlowVersionApproved -> vDefinition v = Some d -> V f d).
Notation sound := (sound row V).
Notation safe := (safe row V).
Notation fit := (fit V).
Notation any := (fun _ => True).

Lemma safe_seq {A B} (m : M A) (k : A -> M B) (Q : B -> Prop) : safe m any -> (forall a, safe (k a) Q) -> safe (m ≫= k) Q.
Proof using Type. intros Hm Hk. by eapply safe_bind. Qed.
Lemma safe_raise {A B} e (k : A -> M B) (Q : B -> Prop) : safe (throw e ≫= k) Q.
Proof using Type. by intros w Hw. Qed.
Lemma safe_try {A} (m : M A) : safe m any -> safe (attempt m) any.
Proof using Type. intros H. eapply safe_any, safe_attempt, H. Qed.
Lemma safe_hush {A} (m : M A) : safe m any -> safe (quiet m) any.
Proof using Type. intros H. by eapply safe_quiet. Qed.

Lemma safe_io {A} (body : store -> M A) (post : A -> Prop) :
  (forall w, sound w -> sound (body (db w) w).2 /\ forall a, (body (db w) w).1 = Ok a -> post a) -> safe (io O body) post.
Proof using Type.
  intros H. unfold io. eapply safe_seq; [apply safe_consult|]. intros []; [apply safe_throw|]. intros w Hw. by apply H.
Qed.
Lemma safe_read {A} (f : store -> A) (post : A -> Prop) : (forall w, sound w -> post (f (db w))) -> safe (io O (fun s => mret (f s))) post.
Proof using Type. intros H. apply safe_io. intros w Hw. split; [done|]. intros a [= <-]. by apply H. Qed.
(** A read of a table in the order of a walk. *)
Lemma safe_walk {A B} (g : store -> gmap string A) (f : list A -> B) (post : B -> Prop) :
  (forall w l, sound w -> l ≡ₚ (map_to_list (g (db w))).*2 -> post (f l)) -> safe (io O (fun s => l ← ranged O (g s); mret (f l))) post.
Proof using walk_perm.
  intros H. apply safe_io. intros w Hw. split; [destruct Hw; by split|]. intros a [= <-]. eapply H; [done|apply walk_perm].
Qed.
Lemma safe_put f : (forall w, sound w -> sound (set_db (f (db w)) w)) -> safe (put_db f) any.
Proof using Type. intros H w Hw. split; [by apply H|done]. Qed.
(** A change of the tables the invariant does not look at. *)
Lemma safe_aside (f : store -> store) : (forall s, flows (f s) = flows s /\ versions (f s) = versions s /\ runs (f s) = runs s) -> safe (put_db f) any.
Proof using Type. intros H. apply safe_put. intros w [H1 H2 H3 H4]. destruct (H (db w)) as (E1 & E2 & E3). split; cbn; rewrite ?E1, ?E2, ?E3; done. Qed.

(** *** Reads *)
Lemma safe_GetAutomationFlow c id : safe (GetAutomationFlow O c id) (fun a => forall f, a = Some f -> fID f = id).
Proof using Type.
  apply safe_read. intros w Hw f E. destruct (flows (db w) !! id) as [g|] eqn:Eg; [|done]. cbn in E. case_decide; [|done]. injection E as <-. by apply (so_flows _ _ w Hw).
Qed.
Lemma safe_GetAutomationFlowVersion c f n : safe (GetAutomationFlowVersion O c f n) (fun a => forall v, a = Some v -> row (versionKey f n) v).
Proof using Type.
  apply safe_read. intros w Hw v E. destruct (versions (db w) !! versionKey f n) as [v'|] eqn:Ev; [|done]. cbn in E. case_decide; [|done]. injection E as <-.
  by apply (so_rows _ _ w Hw).
Qed.
Lemma safe_GetAutomationRun c id : safe (GetAutomationRun O c id) (fun a => forall r, a = Some r -> fit r).
Proof using Type.
  apply safe_read. intros w Hw r E. destruct (runs (db w) !! id) as [r'|] eqn:Er; [|done]. cbn in E. case_decide; [done|]. injection E as <-.
  by apply (so_runs _ _ w Hw id).
Qed.
Lemma limited_sub {A} limit (l : list A) a : a ∈ limited limit l -> a ∈ l.
Proof using Type.
  unfold limited. case_decide; [|done]. intros Ha. apply elem_of_take in Ha as (i & Ha & _). by apply list_elem_of_lookup_2 in Ha.
Qed.
Lemma walked_fit w l p r : sound w -> l ≡ₚ (map_to_list (runs (db w))).*2 -> r ∈ List.filter p l -> fit r.
Proof using Type.
  intros Hw Hl Hr. apply list_elem_of_In, filter_In in Hr as [Hr _]. apply list_elem_of_In in Hr. rewrite Hl in Hr.
  apply list_elem_of_fmap in Hr as ([id r'] & -> & Hr). apply elem_of_map_to_list in Hr. by apply (so_runs _ _ w Hw id).
Qed.
Lemma safe_ListAutomationRuns c f n : safe (ListAutomationRuns O c f n) (fun l => forall r, r ∈ l -> fit r).
Proof using walk_perm.
  apply (safe_walk runs (fun l => limited n (merge_sort newer_run (List.filter (live_of c f) l)))). intros w l Hw Hl r Hr%limited_sub.
  rewrite merge_sort_Permutation in Hr. by eapply walked_fit.
Qed.

(** Reads whose answer carries no promise. *)
Lemma safe_reads c f k e v n t l :
  safe (ListAutomationFlowsByTrigger O c k e) any /\ safe (ListAutomationFlowVersions O c f) any /\ safe (ListAutomationFlows O c) any /\
  safe (ListDueAutomationSchedules O n l) any /\ safe (ListFlowRuns O c f l) any /\ safe (FindAutomationRunByKey O c f v t) any /\
  safe (CountAutomationRunsSince O c f t) any.
Proof using walk_perm.
  split_and!; [by apply safe_walk|by apply safe_walk|by apply safe_walk|by apply safe_walk|by apply safe_walk|by apply safe_walk|by apply safe_read].
Qed.

(** *** Writes *)
Lemma sound_flow w f : sound w -> sound (set_db (set_flows (<[fID f := f]> (flows (db w))) (db w)) w).
Proof using Type.
  intros [H1 H2 H3 H4]. split; cbn; [done|done| |done]. intros id g [[<- <-]|[_ H]]%lookup_insert_Some; [done|by apply H3].
Qed.
Lemma sound_run w r : sound w -> fit r -> sound (set_db (set_runs (<[aID r := r]> (runs (db w))) (db w)) w).
Proof using Type.
  intros [H1 H2 H3 H4] Hr. split; cbn; [done..|]. intros id g [[<- <-]|[_ H]]%lookup_insert_Some; [done|by apply (H4 id)].
Qed.
Lemma safe_UpdateAutomationFlow f : safe (UpdateAutomationFlow O f) any.
Proof using Type.
  apply safe_io. intros w Hw. destruct (flows (db w) !! fID f) as [old|]; [|done]. case_decide; [done|]. destruct (name_taken f (db w)); [done|].
  split; [|done]. by apply (sound_flow w (set_created (fCreatedAt old) f)).
Qed.
Lemma safe_CreateAutomationFlow f : safe (CreateAutomationFlow O f) any.
Proof using Type.
  apply safe_io. intros w Hw. destruct (flows (db w) !! fID f) as [old|]; [done|]. destruct (new_name_taken f (db w)); [done|].
  apply (safe_seq (time O)); [apply safe_consult| |done]. intros now w' Hw'. split; [|done].
  apply (sound_flow w' (if decide (fCreatedAt f = zero_time) then set_created now f else f)) in Hw'. by case_decide.
Qed.
Lemma safe_DeleteAutomationFlow c id : safe (DeleteAutomationFlow O c id) any.
Proof using Type.
  apply safe_io. intros w Hw. destruct (flows (db w) !! id) as [f|]; [|done]. case_decide; [done|]. split; [|done].
  destruct Hw as [H1 H2 H3 H4]. split; cbn; [|done| |done].
  - intros k v [Hv _]%map_lookup_filter_Some. by apply H1.
  - intros k g [_ Hg]%lookup_delete_Some. by apply H3.
Qed.
Lemma safe_schedules sc c f : safe (PutAutomationSchedule O sc) any /\ safe (DeleteAutomationSchedule O c f) any.
Proof using Type. split; apply safe_io; intros w Hw; apply (safe_aside (fun s => _)); try done; intros s; repeat case_match; done. Qed.
Lemma safe_rows run l s i n : safe (AddAutomationRunLog O l) any /\ safe (UpsertAutomationNodeRun O run s i n) any.
Proof using Type. split; apply safe_io; intros w Hw; by apply (safe_aside (fun s => _)). Qed.

(** Runs: what is written is fit; leases do not count. *)
Lemma fit_as r r' : aFlow r' = aFlow r -> aDry r' = aDry r -> aDefinition r' = aDefinition r -> fit r -> fit r'.
Proof using Type. intros E1 E2 E3. unfold fit. by rewrite E1, E2, E3. Qed.
Lemma safe_CreateAutomationRun r : fit r -> safe (CreateAutomationRun O r) any.
Proof using Type.
  intros Hr. apply safe_io. intros w Hw. destruct (runs (db w) !! aID r); [done|]. apply (safe_seq (time O)); [apply safe_consult| |done].
  intros now w' Hw'. split; [|done]. case_decide; [|by apply sound_run]. by apply (sound_run w' (set_created_run now r)).
Qed.
Lemma safe_UpdateAutomationRun r : fit r -> safe (UpdateAutomationRun O r) any.
Proof using Type.
  intros Hr. apply safe_io. intros w Hw. destruct (runs (db w) !! aID r) as [old|]; [|done]. case_decide; [done|]. split; [|done].
  by apply (sound_run w (set_lease (LeaseOwner old) (LeaseUntil old) (aCreatedAt old) r)).
Qed.
Lemma sound_leased w id r owner until : sound w -> runs (db w) !! id = Some r ->
  sound (set_db (set_runs (<[id := set_lease owner until (aCreatedAt r) r]> (runs (db w))) (db w)) w).
Proof using Type.
  intros [H1 H2 H3 H4] Hr. split; cbn; [done..|]. intros i g [[<- <-]|[_ H]]%lookup_insert_Some; [by apply (H4 _ _ Hr)|by apply (H4 i)].
Qed.
Lemma safe_leases c id owner now until : safe (ClaimAutomationRun O c id owner now until) any /\ safe (ReleaseAutomationRun O c id owner) any.
Proof using Type.
  split; apply safe_io; intros w Hw; destruct (runs (db w) !! id) as [r|] eqn:E; try done; case_decide; try done.
  - destruct (claimable owner now r); [|done]. split; [|done]. by apply sound_leased.
  - split; [|done]. by apply sound_leased.
Qed.

(** *** The service *)
Create HintDb safe.
Hint Resolve safe_consult safe_emit safe_throw safe_raise safe_UpdateAutomationFlow safe_CreateAutomationFlow safe_DeleteAutomationFlow : safe.
Hint Extern 1 (safe (time _) _) => apply safe_consult : safe.
Hint Extern 1 (safe (NewString _) _) => apply safe_consult : safe.
Hint Extern 1 (safe (mret _) _) => apply safe_ret; exact I : safe.
Hint Extern 1 (safe get _) => eapply safe_any, safe_get : safe.
Hint Extern 1 (safe (modify _) _) => apply safe_modify; done : safe.
Hint Extern 1 (safe (GetAutomationFlow _ _ _) _) => eapply safe_any, safe_GetAutomationFlow : safe.
Hint Extern 1 (safe (ListAutomationFlowsByTrigger _ ?c ?k ?e) _) => apply (safe_reads c "" k e "" 0 0 0) : safe.
Hint Extern 1 (safe (ListAutomationFlowVersions _ ?c ?f) _) => apply (safe_reads c f "" "" "" 0 0 0) : safe.
Hint Extern 1 (safe (ListAutomationFlows _ ?c) _) => apply (safe_reads c "" "" "" "" 0 0 0) : safe.
Hint Extern 1 (safe (ListDueAutomationSchedules _ ?n ?l) _) => apply (safe_reads "" "" "" "" "" n 0 l) : safe.
Hint Extern 1 (safe (ListFlowRuns _ ?c ?f ?l) _) => apply (safe_reads c f "" "" "" 0 0 l) : safe.
Hint Extern 1 (safe (FindAutomationRunByKey _ ?c ?f ?v ?t) _) => apply (safe_reads c f "" "" v 0 t 0) : safe.
Hint Extern 1 (safe (CountAutomationRunsSince _ ?c ?f ?t) _) => apply (safe_reads c f "" "" "" 0 t 0) : safe.
Hint Extern 1 (safe (PutAutomationSchedule _ ?sc) _) => apply (safe_schedules sc "" "") : safe.
Hint Extern 1 (safe (DeleteAutomationSchedule _ ?c ?f) _) => apply (safe_schedules (mkSchedule "" "" "" "" "" None "") c f) : safe.
Hint Extern 1 (safe (AddAutomationRunLog _ ?l) _) => apply (safe_rows "" l "" "" zeroNS) : safe.
Hint Extern 1 (safe (UpsertAutomationNodeRun _ ?r ?s ?i ?n) _) => apply (safe_rows r (mkRunLog "" "" "" 0) s i n) : safe.
Hint Extern 1 (safe (ClaimAutomationRun _ ?c ?i ?o ?n ?u) _) => apply (safe_leases c i o n u) : safe.
Hint Extern 1 (safe (ReleaseAutomationRun _ ?c ?i ?o) _) => apply (safe_leases c i o 0 0) : safe.
Hint Extern 1 (safe (ListAutomationRuns _ _ _ _) _) => eapply safe_any, safe_ListAutomationRuns : safe.

(** Case analysis on what a computation tests, then the lemmas. *)
Ltac safe :=
  repeat first
    [ match goal with |- forall _, _ => intro end
    | solve [auto with safe nocore]
    | progress cbn [negb]
    | match goal with
      | |- safe (_ ≫= _) _ => apply safe_seq
      | |- safe (attempt _) _ => apply safe_try
      | |- safe (quiet _) _ => apply safe_hush
      | |- safe (catch _ _) _ => apply safe_catch
      | |- safe (match ?x with _ => _ end) _ => destruct x
      | |- safe (let '(_, _) := ?x in _) _ => destruct x
      end ].

Lemma safe_PublishedDefinition f : safe (PublishedDefinition O digest f) (V (fID f)).
Proof using row_V.
  unfold PublishedDefinition. case_decide; [apply safe_throw|]. eapply safe_bind; [apply safe_get|]. intros w Hw. cbn zeta.
  destruct (defs w !! _) as [d|] eqn:E; [by eapply safe_ret, so_cache|].
  eapply safe_bind; [apply safe_GetAutomationFlowVersion|]. intros [v|] Hv; [|apply safe_throw]. specialize (Hv v eq_refl).
  case_decide as Hs; [apply safe_throw|]. unfold parse. destruct (vDefinition v) as [d|] eqn:Ed; [|apply safe_throw].
  assert (V (fID f) d) as Hd. { eapply row_V; [exact Hv| |done]. destruct (decide (vStatus v = FlowVersionApproved)); [done|]. exfalso. apply Hs. by left. }
  apply (safe_bind _ _ (mret d) _ (fun x => x = d)); [by apply safe_ret|]. intros ? ->.
  eapply safe_bind; [|intros _ _; by apply safe_ret].
  instantiate (1 := any). intros w' [H1 H2 H3 H4]. split; [|done]. split; cbn; [done| |done..].
  intros g n d' [[E1 <-]|[_ Hg]]%lookup_insert_Some; [|by eapply H2]. by rewrite <- (versionKey_flow _ _ _ _ E1).
Qed.
Hint Extern 1 (safe (PublishedDefinition _ _ _) _) => eapply safe_any, safe_PublishedDefinition : safe.

Lemma safe_breakerHit c id reason : safe (breakerHit O c id reason) any.
Proof using Type. unfold breakerHit, turned_off. safe. Qed.
Hint Resolve safe_breakerHit : safe.

Lemma safe_promote_loop limit active promoted l : (forall r, r ∈ l -> fit r) -> safe (promote_loop O limit active promoted l) any.
Proof using Type.
  revert active promoted. induction l as [|r l IH]; intros active promoted Hl; cbn [promote_loop]; [safe|]. case_decide; [safe|].
  assert (fit (set_status (AutoRun RunPending) r)) as Hr by (apply (fit_as r); [done..|apply Hl; left]).
  apply safe_seq; [by apply safe_try, safe_UpdateAutomationRun|]. intros [?|]; apply IH; intros r' Hr'; apply Hl; by right.
Qed.
Lemma safe_promote c id : safe (promote O c id) any.
Proof using walk_perm.
  unfold promote. apply safe_seq; [safe|]. intros [[f|]|]; [|safe..]. eapply safe_bind; [apply safe_attempt, safe_ListAutomationRuns|].
  intros [rs|] Hrs; [|safe]. apply safe_seq; [|safe]. apply safe_promote_loop. intros r Hr.
  rewrite merge_sort_Permutation in Hr. apply list_elem_of_In, filter_In in Hr as [Hr _]. apply list_elem_of_In in Hr. by eapply Hrs.
Qed.
Hint Resolve safe_promote : safe.
Lemma safe_RunFinished r : safe (RunFinished O digest r) any.
Proof using walk_perm. unfold RunFinished, remember_test, reset_failures. safe. Qed.
Hint Resolve safe_RunFinished : safe.

(** A request whose own definition, if it has one, may run. *)
Definition proper (req : StartRequest) : Prop := qDryRun req = false -> forall d, qDefinition req = Some d -> V (qFlow req) d.

Lemma safe_definitionFor req flow : proper req -> fID flow = qFlow req ->
  safe (definitionFor O digest req flow) (fun p => qDryRun req = false -> V (fID flow) p.1).
Proof using row_V.
  intros Hp E. unfold definitionFor. destruct (qDefinition req) as [d|] eqn:Ed; [apply safe_ret; intros Hd; rewrite E; by apply Hp|].
  destruct (qDryRun req && qDraft req) eqn:Eb.
  - apply andb_prop in Eb as [-> _]. apply safe_seq; [unfold parse; safe|]. intros d. by apply safe_ret.
  - eapply safe_bind; [apply safe_PublishedDefinition|]. intros d Hd. by apply safe_ret.
Qed.
Lemma safe_rateCheck req flow now : safe (rateCheck O req flow now) any.
Proof using walk_perm. unfold rateCheck. safe. Qed.
Lemma safe_queueCheck req flow : safe (queueCheck O req flow) any.
Proof using walk_perm. unfold queueCheck, counts. safe. Qed.
Lemma safe_addLog r l m t : safe (addLog O r l m t) any.
Proof using Type. unfold addLog. safe. Qed.
Hint Resolve safe_rateCheck safe_queueCheck safe_addLog : safe.

Lemma safe_admit_run req flow d version now : (qDryRun req = false -> V (fID flow) d) ->
  safe (admit_run O redactText jsonLen req flow d version now) any.
Proof using walk_perm.
  intros Hd. unfold admit_run, NewString. cbv zeta. apply safe_seq; [safe|]. intros id. apply safe_seq; [safe|]. intros corr.
  set (run := newRun redactText jsonLen req flow d version id corr now).
  assert (fit run) as Hr by (intros Hdry d' [= <-]; by apply Hd). clearbody run.
  apply safe_seq; [safe|]. intros drop. apply safe_seq; [safe|]. intros [drop' st]. case_decide.
  - unfold drop_run. apply safe_seq; [|safe]. apply safe_CreateAutomationRun. by apply (fit_as run).
  - unfold accept_run. apply safe_seq; [|safe]. apply safe_CreateAutomationRun. by apply (fit_as run).
Qed.
Lemma safe_Start req : proper req -> safe (Start O redactText jsonLen digest req) any.
Proof using walk_perm row_V.
  intros Hp. unfold Start, time. apply safe_seq; [safe|]. intros now. eapply safe_bind; [apply safe_GetAutomationFlow|].
  intros [flow|] Hf; [|safe]. specialize (Hf flow eq_refl). eapply safe_bind; [by apply safe_definitionFor|]. intros [d version] Hd.
  cbv zeta. destruct (_ && _); [safe|]. apply safe_seq; [safe|]. intros [r|]; [safe|]. by apply safe_admit_run.
Qed.

Lemma safe_each_any {A} (f : A -> M ()) l : (forall a, safe (f a) any) -> safe (each f l) any.
Proof using Type. intros H. by apply safe_each. Qed.
Lemma safe_HandleEvent ev : safe (HandleEvent O redactText jsonLen digest error_text ev) any.
Proof using walk_perm row_V.
  unfold HandleEvent, causeOf, time. apply safe_seq; [safe|]. intros [[|f fs]|]; [safe| |safe].
  apply safe_seq; [|intros cause; cbv zeta; apply safe_seq; [safe|]; intros now; apply safe_each_any; intros flow].
  - case_decide; [|safe]. apply safe_seq; [|safe]. eapply safe_try, safe_any, safe_GetAutomationRun.
  - unfold handle_flow, debounced. safe; by apply safe_Start.
Qed.
Lemma safe_ProcessDueSchedules limit : safe (ProcessDueSchedules O LoadLocation cronFuel redactText jsonLen digest limit) any.
Proof using walk_perm row_V.
  unfold ProcessDueSchedules, time. apply safe_seq; [safe|]. intros now. apply safe_seq; [safe|]. intros [l|]; [|safe].
  induction l as [|sc l IH]; cbn [process_all]; [safe|]. apply safe_seq; [|intros b; apply safe_seq; [exact IH|safe]].
  unfold process_schedule. safe; by apply safe_Start.
Qed.
Lemma safe_SyncTrigger f : safe (SyncTrigger O LoadLocation cronFuel digest f) any.
Proof using row_V. unfold SyncTrigger, time. safe. Qed.
Hint Resolve safe_SyncTrigger : safe.

(** Steps, cancelling and approvals write the row they read. *)
Lemma safe_finally_any {A B} (m : M A) (k : M B) : safe m any -> safe k any -> safe (finally m k) any.
Proof using Type. intros Hm Hk. by eapply safe_finally. Qed.
Lemma safe_finish_run r : fit r -> safe (finish_run O digest r) any.
Proof using walk_perm. intros Hr. unfold finish_run. apply safe_seq; [|safe]. by apply safe_hush, safe_UpdateAutomationRun. Qed.
Lemma safe_step_run types fuel ticks s r : fit r -> safe (step_run O redactText jsonLen digest error_text types fuel ticks s r) any.
Proof using walk_perm.
  intros Hr. unfold step_run, time. apply safe_seq; [safe|]. intros now. destruct (aDefinition r) as [d|] eqn:Ed.
  - apply safe_seq; [by apply safe_try, safe_UpdateAutomationRun, (fit_as r)|]. intros saved.
    unfold advance. destruct (step _ _ _ _ _ _ _ _ _ _ _) as [[x ret]|]; cbn [mbind option_bind]; [|safe]. cbn [fst snd].
    assert (fit (set_engine x r)) as Hx by by apply (fit_as r). destruct ret; first [by apply safe_finish_run|by apply safe_UpdateAutomationRun|safe].
  - by apply safe_finish_run, (fit_as r).
Qed.
Lemma safe_Step types fuel ticks lease c id : safe (Step O redactText jsonLen digest error_text Owner types fuel ticks lease c id) any.
Proof using walk_perm.
  unfold Step, time. apply safe_seq; [safe|]. intros now. apply safe_seq; [safe|]. intros [|]; [|safe]. apply safe_finally_any; [|safe].
  unfold step_taken. eapply safe_bind; [apply safe_GetAutomationRun|]. intros [r|] Hr; [|safe]. specialize (Hr r eq_refl).
  destruct (aStatus r) as [| |[]]; try (by safe); (apply safe_seq; [safe|]; intros _; apply safe_finally_any; [by apply safe_step_run|safe]).
Qed.
Lemma safe_cancelRows id st : safe (cancelRows O id st) any.
Proof using Type. unfold cancelRows. apply safe_each_any. intros f. apply safe_each_any. safe. Qed.
Hint Resolve safe_cancelRows : safe.
Lemma safe_Cancel c id by_ : safe (Service.Cancel O digest Owner c id by_) any.
Proof using walk_perm.
  unfold Service.Cancel, RequestCancel, time. apply safe_seq; [eapply safe_any, safe_GetAutomationRun|]. intros [r|]; [|safe].
  destruct (AutoRunFinished _); [safe|]. apply safe_seq; [safe|]. intros [|]; [safe|]. apply safe_seq; [safe|]. intros now.
  apply safe_seq; [safe|]. intros [|]; [|safe]. apply safe_finally_any; [|safe]. unfold cancel_taken.
  eapply safe_bind; [apply safe_attempt, safe_GetAutomationRun|]. intros [[run|]|] Hr; cbn [mjoin option_join]; [|safe..].
  cbv zeta. apply safe_seq; [safe|]. intros _. apply safe_seq; [|safe]. apply safe_UpdateAutomationRun, (fit_as run); [done..|]. by apply (Hr (Some run)).
Qed.
Lemma safe_Approve lease c id node by_ a note : safe (Service.Approve O redactText jsonLen Owner lease c id node by_ a note) any.
Proof using walk_perm.
  unfold Service.Approve, time. apply safe_seq; [safe|]. intros now. apply safe_seq; [safe|]. intros [|]; [|safe]. apply safe_finally_any; [|safe].
  unfold approve_taken. eapply safe_bind; [apply safe_attempt, safe_GetAutomationRun|]. intros [[run|]|] Hr; cbn [mjoin option_join]; [|safe..].
  destruct (aStatus run); try (by safe). destruct (Engine.Approve _ _ _ _ _ _ _ _ _) as [[run' st]|]; [|safe].
  apply safe_seq; [apply safe_UpdateAutomationRun, (fit_as run); [done..|]; by apply (Hr (Some run))|]. intros _. unfold approve_notes. safe.
Qed.
Lemma safe_Retry c id actor by_ : safe (Service.Retry O redactText jsonLen digest c id actor by_) any.
Proof using walk_perm row_V.
  unfold Service.Retry. eapply safe_bind; [apply safe_GetAutomationRun|]. intros [run|] Hr; [|safe]. specialize (Hr run eq_refl). destruct (negb _); [safe|].
  unfold parse. destruct (aDefinition run) as [d|] eqn:Ed; [|safe]. apply (safe_bind _ _ (mret d) _ (fun x => x = d)); [by apply safe_ret|]. intros ? ->.
  apply safe_Start. intros Hdry d' [= <-]. by apply Hr.
Qed.
Lemma safe_DryRun c id draft payload inputs actor by_ :
  safe (DryRun O LoadLocation cronFuel redactText jsonLen digest message_text c id draft payload inputs actor by_) any.
Proof using walk_perm row_V.
  unfold DryRun, dry_trigger, would_not_start, parse, time, NewString. safe; by (apply safe_CreateAutomationRun || apply safe_Start).
Qed.

(** An operation as the code's callers ask for it: no definition of their own. *)
Definition usual (o : op) : Prop := match o with OpStart req => qDefinition req = None | _ => True end.
Lemma safe_perform o : usual o -> safe (perform O LoadLocation cronFuel redactText jsonLen digest message_text error_text Owner o) any.
Proof using walk_perm row_V.
  destruct o; cbn [usual perform]; unfold ignored; intros Hu.
  1: apply safe_seq; [|safe]; apply safe_Start; intros _ d; by rewrite Hu.
  1: by apply safe_HandleEvent.
  1: apply safe_seq; [by apply safe_ProcessDueSchedules|safe].
  1: by apply safe_SyncTrigger.
  1: by apply safe_Step. 1: by apply safe_Approve. 1: by apply safe_Cancel.
  1: apply safe_seq; [by apply safe_Retry|safe].
  apply safe_seq; [by apply safe_DryRun|safe].
Qed.

(** *** The handlers *)
Context (feature : nat -> bool) (reaches : nat -> nat -> string -> bool) (A : Store) (may : creators).
Notation may_ask_itself := (may_ask_itself reaches).

Lemma safe_requireAutomation p perm k : (forall p', require A p "" "" false perm = Some p' -> safe (k p') any) -> safe (requireAutomation feature A p perm k) any.
Proof using Type.
  intros Hk. unfold requireAutomation. destruct (require _ _ _ _ _ _) as [p'|]; [|safe].
  apply safe_seq; [safe|]. intros [|]; [by apply Hk|safe].
Qed.
Lemma safe_requireAutomationEdit p k : (forall p', safe (k p') any) -> safe (requireAutomationEdit feature A may p k) any.
Proof using Type. intros Hk. apply safe_requireAutomation. intros p' _. destruct (mayCreateAutomations _ _ _); [apply Hk|safe]. Qed.
Lemma safe_loadFlow c id k : (forall f, safe (k f) any) -> safe (loadFlow O c id k) any.
Proof using Type. intros Hk. unfold loadFlow. apply safe_seq; [safe|]. intros [[f|]|]; [apply Hk|safe..]. Qed.
Lemma safe_asked d : safe (asked_steps reaches d) (fun steps => exists k, steps = protectedSteps (reaches k) d).
Proof using Type. intros w Hw. split; [by apply (safe_consult row V (fun k => protectedSteps (reaches k) d))|]. intros a [= <-]. by eexists. Qed.
Lemma safe_allowOwnAPI p d k : (may_ask_itself p d -> safe k any) -> safe (allowOwnAPI reaches p d k) any.
Proof using Type.
  intros Hk. unfold allowOwnAPI. destruct (isOwner p) eqn:Eo; [by apply Hk; left|]. cbn [orb].
  case_bool_decide; [by apply Hk; right; left|]. eapply safe_bind; [apply safe_asked|]. intros steps [i Hi]. case_decide as Hs; [safe|].
  apply Hk. right. right. exists i. rewrite <- Hi. destruct (ownAPISteps steps); [done|]. by destruct Hs.
Qed.

Lemma safe_createAutomationFlow c p b : safe (createAutomationFlow O feature reaches A may c p b) any.
Proof using Type.
  apply safe_requireAutomationEdit. intros p'. destruct (bTemplate b) as [[?|]|], (create_definition b); try (by safe);
    (destruct (bad_name _); [safe|]; apply safe_allowOwnAPI; intros _; safe).
Qed.
Lemma safe_cloneAutomationFlow c p id name : safe (cloneAutomationFlow O feature reaches A may c p id name) any.
Proof using Type.
  apply safe_requireAutomationEdit. intros p'. apply safe_loadFlow. intros f. cbv zeta. destruct (Draft f); [apply safe_allowOwnAPI; intros _|]; safe.
Qed.
Lemma safe_patchAutomationFlow c p id b : safe (patchAutomationFlow O digest feature reaches A may c p id b) any.
Proof using Type.
  apply safe_requireAutomationEdit. intros p'. apply safe_loadFlow. intros f. cbv zeta. destruct (match bName b with Some _ => _ | None => _ end); [safe|].
  assert (forall g, safe (save_patch O c p' b g) any) as Hs by (intros g; unfold save_patch; cbv zeta; safe).
  destruct (bDefinition b) as [[d|]|]; [|safe|apply Hs]. case_decide; [safe|]. apply safe_allowOwnAPI. intros _. apply Hs.
Qed.
Lemma safe_deleteAutomationFlow c p id username : safe (deleteAutomationFlow O digest Owner feature A may c p id username) any.
Proof using walk_perm.
  apply safe_requireAutomationEdit. intros p'. apply safe_loadFlow. intros f. apply safe_seq; [safe|]. intros rs.
  apply safe_seq; [|safe]. apply safe_each_any. intros r. destruct (AutoRunFinished _); [safe|]. by apply safe_hush, safe_Cancel.
Qed.
Lemma safe_setAutomationFlowEnabled enabled c p id : safe (setAutomationFlowEnabled O LoadLocation cronFuel digest feature reaches A enabled c p id) any.
Proof using row_V.
  apply safe_requireAutomation. intros p' _. apply safe_loadFlow. intros f. destruct (enabled && _); [safe|].
  apply safe_seq; [|intros [|]; safe]. destruct (_ && _); [|safe]. apply safe_seq; [safe|]. intros [d|]; [|safe]. apply safe_seq; [|safe]. eapply safe_any, safe_asked.
Qed.

(** Versions: what is written has what rows have in common. *)
Lemma sound_version w k v : sound w -> row k v -> sound (set_db (set_versions (<[k := v]> (versions (db w))) (db w)) w).
Proof using Type.
  intros [H1 H2 H3 H4] Hv. split; cbn; [|done..]. intros k' v' [[<- <-]|[_ H]]%lookup_insert_Some; [done|by apply H1].
Qed.
Lemma safe_CreateAutomationFlowVersion v : row (versionKey (vFlow v) (vVersion v)) v -> safe (CreateAutomationFlowVersion O v) any.
Proof using Type. intros Hv. apply safe_io. intros w Hw. destruct (versions (db w) !! _); [done|]. split; [|done]. by apply sound_version. Qed.
Lemma safe_Decide c f n st by_ : (forall v, row (versionKey f n) v -> row (versionKey f n) (set_decision st by_ v)) -> safe (DecideAutomationFlowVersion O c f n st by_) any.
Proof using Type.
  intros Hr. apply safe_io. intros w Hw. destruct (versions (db w) !! _) as [v|] eqn:Ev; [|done]. case_decide; [done|]. split; [|done].
  apply sound_version; [done|]. apply Hr. by apply (so_rows _ _ w Hw).
Qed.
Lemma safe_nextFlowVersion f : safe (nextFlowVersion O f) any.
Proof using walk_perm. unfold nextFlowVersion. safe. Qed.
Lemma safe_publishVersion c p username f d :
  (forall k v by_, row k v -> row k (set_decision FlowVersionSuperseded by_ v)) ->
  (forall n i, row (versionKey (fID f) n) (newVersion digest p f n d (protectedSteps (reaches i) d))) ->
  safe (publishVersion O LoadLocation cronFuel digest reaches c p username f d) any.
Proof using walk_perm row_V.
  intros Hs Hv. unfold publishVersion. eapply safe_bind; [apply safe_asked|]. intros steps [i ->]. apply safe_seq; [apply safe_nextFlowVersion|]. intros n. cbv zeta.
  apply safe_seq; [by apply safe_try, safe_CreateAutomationFlowVersion, Hv|]. intros [?|]; [|safe].
  apply safe_seq; [case_decide; [|safe]; apply safe_hush, safe_Decide; intros; by apply Hs|]. intros _. unfold request_approval, run_version. cbv zeta. safe.
Qed.
Lemma safe_save_decision c p username note approve v f : safe (save_decision O LoadLocation cronFuel digest c p username note approve v f) any.
Proof using row_V. unfold save_decision. cbv zeta. safe. Qed.
Lemma safe_createAutomationPolicy c p name spec :
  (forall p' pol id, require A p "" "" false PolicyApply = Some p' -> Approvals.Normalize spec = Some (polSpec pol) ->
    row (versionKey id 1) (mkVersion id c 1 (Some (policyFlowDefinition pol)) FlowVersionApproved "" false [] false "" "")) ->
  safe (createAutomationPolicy O feature A c p name spec) any.
Proof using walk_perm.
  intros Hv. apply safe_requireAutomation. intros p' Hp. destruct (Approvals.Normalize spec) as [sp|] eqn:E; [|safe]. case_decide; [safe|].
  apply safe_seq; [safe|]. intros id. cbv zeta. apply safe_seq; [apply safe_try, safe_io; intros w Hw; by split|]. intros [?|]; [|safe].
  apply safe_seq; [safe|]. intros _. apply safe_seq; [|safe]. apply safe_hush. unfold flowFromPolicy. apply safe_seq; [safe|]. intros fs.
  destruct (existsb _ _); [safe|]. apply safe_seq; [safe|]. intros i. cbv zeta. apply safe_seq; [safe|]. intros _.
  apply safe_CreateAutomationFlowVersion. cbn. apply (Hv p' (mkPolicy id (TrimSpace name) sp)); done.
Qed.
End safe_service.

(** ** Histories *)
Inductive act := Edit (e : edit) | Serve (o : op).
Definition ordinary (a : act) : Prop := match a with Serve o => usual o | Edit _ => True end.

Section history.
Context {CT : CaseTables} {PT : PrintTables} (reg : Registry).
Context (O : outside) (LoadLocation : string -> option Location) (cronFuel : nat).
Context (redactText : string -> string) (jsonLen : value -> option Z) (digest : Definition_ -> string).
Context (message_text : message -> string) (error_text : svcError -> string) (Owner : string).
Context (feature : nat -> bool) (reaches : nat -> nat -> string -> bool) (A : Store) (may : creators).
Context (w0 : world).

Notation handle := (handle reg O LoadLocation cronFuel digest Owner feature reaches A may).
Notation perform := (perform (cat := registry_catalog reg) O LoadLocation cronFuel redactText jsonLen digest message_text error_text Owner).
Notation any := (fun _ => True).

Definition does (w : world) (a : act) : world := match a with Edit e => (handle e w).2 | Serve o => (perform o w).2 end.
(** The requests and operations of the list, one after the other. *)
Definition acts (os : list act) : world := fold_left does os w0.

(** [p], who may create automations, published the draft [d] that flow [g] had, and the
    draft had no problems and no call of this API by someone who may not make one. *)
Definition published (os : list act) (f : string) (g : AutomationFlow) (d : Definition_) (p : principal) : Prop :=
  exists pre post c q u r, os = pre ++ Edit (EPublish c q u f r) :: post /\
    require A q "" "" false PolicyApply = Some p /\ mayCreateAutomations A may p = true /\
    flows (db (acts pre)) !! f = Some g /\ Draft g = Some d /\
    Validate (cat := registry_catalog reg) LoadLocation d = Some [] /\ may_ask_itself reaches p d.

(** Why a definition may run. *)
Inductive vetted (os : list act) (f : string) (d : Definition_) : Prop :=
  | vetted_harmless g p k : published os f g d p -> protectedSteps (reaches k) d = [] -> vetted os f d
  | vetted_owner g p : published os f g d p -> isOwner p = true -> DraftTainted g = false -> vetted os f d
  | vetted_decided g p pre post c q u n note p' : published pre f g d p -> os = pre ++ Edit (EDecide true c q u f n note) :: post ->
      require A q "" "" false ApprovalsDecide = Some p' -> isOwner p' = true \/ pID p' <> pID p -> vetted os f d
  | vetted_policy pre post c q p name spec pol : os = pre ++ Edit (EPolicy c q name spec) :: post ->
      require A q "" "" false PolicyApply = Some p -> Approvals.Normalize spec = Some (polSpec pol) -> d = policyFlowDefinition pol -> vetted os f d.

(** What the rows of versions have in common. *)
Record row (os : list act) (k : string) (v : AutomationFlowVersion) : Prop := {
  row_key : k = versionKey (vFlow v) (vVersion v);
  row_approved : vStatus v = FlowVersionApproved -> forall d, vDefinition v = Some d -> vetted os (vFlow v) d;
  row_pending : vStatus v = FlowVersionPending -> exists g d p, published os (vFlow v) g d p /\ vDefinition v = Some d /\ RequestedByID v = pID p }.

Lemma published_more os a f g d p : published os f g d p -> published (os ++ [a]) f g d p.
Proof. intros (pre & post & c & q & u & r & -> & H). exists pre, (post ++ [a]), c, q, u, r. split; [|exact H]. by rewrite <- app_assoc. Qed.
Lemma vetted_more os a f d : vetted os f d -> vetted (os ++ [a]) f d.
Proof.
  intros [g p k H1 H2|g p H1 H2 H3|g p pre post c q u n note p' H1 -> H2 H3|pre post c q p name spec pol -> H1 H2 H3].
  - by eapply vetted_harmless; [apply published_more|].
  - by eapply vetted_owner; [apply published_more|..].
  - eapply (vetted_decided _ _ _ g p pre (post ++ [a])); [done| |done..]. by rewrite <- app_assoc.
  - eapply (vetted_policy _ _ _ pre (post ++ [a])); [|done..]. by rewrite <- app_assoc.
Qed.
Lemma row_more os a k v : row os k v -> row (os ++ [a]) k v.
Proof.
  intros [H1 H2 H3]. split; [done|intros; apply vetted_more; auto|]. intros H. destruct (H3 H) as (g & d & p & ? & ?). exists g, d, p. split; [by apply published_more|done].
Qed.
Lemma row_V os f n v d : row os (versionKey f n) v -> vStatus v = FlowVersionApproved -> vDefinition v = Some d -> vetted os f d.
Proof. intros [H1 H2 _] Hs Hd. rewrite (versionKey_flow _ _ _ _ H1). by apply H2. Qed.

Notation sound os := (sound (row os) (vetted os)).
Notation safe os := (safe (row os) (vetted os)).

Lemma sound_more os a w : sound os w -> sound (os ++ [a]) w.
Proof.
  intros [H1 H2 H3 H4]. split; [intros; apply row_more; auto|intros; eapply vetted_more; eauto|done|]. intros id r Hr Hd d Ed. apply vetted_more. by apply (H4 id r Hr).
Qed.

Context (walk_perm : forall A n l, walk O A n l ≡ₚ l).

(** *** Publishing and deciding *)
Lemma row_decided os k v st by_ : row os k v -> st <> FlowVersionPending -> (st = FlowVersionApproved -> forall d, vDefinition v = Some d -> vetted os (vFlow v) d) ->
  row os k (set_decision st by_ v).
Proof using Type. intros [H1 _ _] Hp Ha. by split. Qed.

Lemma new_version_row os f n d p i g : published os (fID f) g d p -> DraftTainted g = DraftTainted f ->
  row os (versionKey (fID f) n) (newVersion digest p f n d (protectedSteps (reaches i) d)).
Proof using Type.
  intros Hp Hg. unfold newVersion. cbv zeta. set (steps := protectedSteps (reaches i) d).
  destruct (isOwner p && negb (DraftTainted f)) eqn:Ex.
  - apply andb_prop in Ex as [Ho Ht%negb_true_iff]. split; cbn; [done| |]; rewrite andb_false_r; [|done].
    intros _ d' [= <-]. eapply vetted_owner; [done..|]. by rewrite Hg.
  - split; cbn; [done| |]; rewrite andb_true_r; case_bool_decide as Hs; try done.
    + intros _ d' [= <-]. eapply (vetted_harmless _ _ _ g p i); [done|]. fold steps. destruct steps; [done|]. by destruct Hs.
    + intros _. by exists g, d, p.
Qed.

(** After what the start of a handler reads, the tables are as they were. *)
Lemma wp_loadFlow os c id k w (Q : result svcError Z -> world -> Prop) : sound os w -> (forall r w', sound os w' -> Q r w') ->
  (forall f w', sound os w' -> db w' = db w -> flows (db w) !! id = Some f -> fID f = id -> wp (k f) w' Q) -> wp (loadFlow O c id k) w Q.
Proof using Type.
  intros Hw HQ Hk. unfold loadFlow. apply wp_bind, wp_attempt.
  assert (forall r w', (GetAutomationFlow O c id w) = (r, w') -> sound os w') as Hs.
  { intros r w' E. pose proof (safe_GetAutomationFlow O (row os) (vetted os) c id w Hw) as [H _]. by rewrite E in H. }
  destruct (GetAutomationFlow O c id w) as [r w1] eqn:E. specialize (Hs _ _ eq_refl). revert E.
  assert (wp (GetAutomationFlow O c id) w (fun r w' => db w' = db w /\ forall f, r = Ok (Some f) -> flows (db w) !! id = Some f)) as H.
  { apply wp_GetAutomationFlow. intros r' w' _ E1 E2 _. split; [done|]. intros f Hf. by apply E2. }
  unfold wp in *. intros E. rewrite E in *. cbn in *. destruct H as [Hdb Hf]. destruct r as [[f|]|]; [|by apply HQ..].
  apply Hk; [done|done|by apply Hf|]. apply (so_flows _ _ w Hw). by apply Hf.
Qed.
Lemma sound_consult {B} os (f : nat -> B) w : sound os w -> sound os (consult f w).2.
Proof using Type. intros Hw. apply (safe_consult (row os) (vetted os) f w Hw). Qed.

(** A request to publish, as the history has it. *)
Lemma sound_publish pre c p u id r : sound (pre ++ [Edit (EPublish c p u id r)]) (acts pre) ->
  sound (pre ++ [Edit (EPublish c p u id r)]) (handle (EPublish c p u id r) (acts pre)).2.
Proof using walk_perm.
  set (os := pre ++ _). intros Hw. cbn [Approvals.handle]. unfold publishAutomationFlow, requireAutomationEdit, requireAutomation.
  destruct (require _ _ _ _ _ _) as [p'|] eqn:Ep; [|done].
  enough (wp (on ← consult feature; if on : bool then if mayCreateAutomations A may p' then loadFlow O c id (fun f => _) else mret 403 else mret 409) (acts pre) (fun _ w' => sound os w')) as H by exact H.
  apply wp_bind, wp_consult. destruct (feature _); [|by apply (sound_consult os feature)]. destruct (mayCreateAutomations A may p') eqn:Em; [|by apply (sound_consult os feature)].
  apply (wp_loadFlow os); [by apply (sound_consult os feature)|done|]. cbn [set_tick db]. intros f w Hw' Hdb Hf Hid.
  destruct (Draft f) as [d|] eqn:Ed; [|done]. destruct (Validate.Validate LoadLocation d) as [[|]|] eqn:Ev; [|done..].
  eapply safe_wp; [|exact Hw'|by intros]. apply safe_allowOwnAPI. intros Hi.
  assert (published os (fID f) f d p') as Hp. { exists pre, [], c, p, u, r. subst id. by split_and!. }
  assert (safe os (publishVersion O LoadLocation cronFuel digest reaches c p' u f d) any) as Hs.
  { apply safe_publishVersion; [done|apply row_V| |].
    - intros k v by_ Hv. by apply row_decided.
    - intros n i. by eapply new_version_row. }
  destruct (_ && _); [|exact Hs]. cbv zeta. destruct (_ || _); [by apply safe_ret|]. eapply safe_bind; [apply safe_emit|]. intros _ _. exact Hs.
Qed.

(** The pending version a decision is about, and the world it is read in. *)
Lemma wp_loadApproval os c id n k w (Q : result svcError Z -> world -> Prop) : sound os w -> (forall r w', sound os w' -> Q r w') ->
  (forall f v w', sound os w' -> fID f = id -> versions (db w) !! versionKey id n = Some v -> versions (db w') = versions (db w) -> wp (k f v) w' Q) ->
  wp (loadApproval O c id n k) w Q.
Proof using Type.
  intros Hw HQ Hk. unfold loadApproval. case_decide; [by apply HQ|]. apply wp_bind, wp_attempt.
  assert (wp (GetAutomationFlow O c id) w (fun r w' => sound os w' /\ db w' = db w /\ forall f, r = Ok (Some f) -> fID f = id)) as H1.
  { destruct (safe_GetAutomationFlow O (row os) (vetted os) c id w Hw) as [Hs Hf].
    assert (wp (GetAutomationFlow O c id) w (fun _ w' => db w' = db w)) as E by (apply wp_GetAutomationFlow; intros ? ? _ E _ _; exact E). split; [done|]. split; [exact E|]. intros f Hr. by eapply Hf. }
  eapply wp_mono; [exact H1|]. clear H1. intros rf w1 (Hw1 & Hdb & Hf). cbn beta.
  destruct rf as [[f|]|]; cbn [mjoin option_join]; [|by apply HQ..]. assert (fID f = id) as Hid by by apply Hf.
  assert (sound os (set_tick (S (tick w1)) w1)) as Hw2 by (destruct Hw1; by split).
  apply wp_bind, wp_attempt, wp_io; intros _; cbn [mjoin option_join]; [by apply HQ|]. apply wp_ret.
  rewrite Hid, Hdb. destruct (versions (db w) !! versionKey id n) as [v|] eqn:Ev; cbn [mbind option_bind mjoin option_join]; [|by apply HQ].
  case_decide; cbn [mjoin option_join]; [|by apply HQ]. destruct (NeedsApproval v); [|by apply HQ].
  apply Hk; [done|done|done|]. cbn. by rewrite Hdb.
Qed.

(** What a decision writes: an approved version was published by someone else, or an
    owner decides. *)
Lemma decided_row pre (a : bool) c p u id n note p' v k st by_ : row pre k v -> vFlow v = id -> vStatus v = FlowVersionPending ->
  require A p "" "" false ApprovalsDecide = Some p' -> bool_decide (RequestedByID v = pID p') && negb (isOwner p') = false ->
  st = (if a then FlowVersionApproved else FlowVersionDenied) ->
  row (pre ++ [Edit (EDecide a c p u id n note)]) k (set_decision st by_ v).
Proof using Type.
  intros Hr Hid Hst Hq Hown ->. apply row_decided; [by apply row_more|by destruct a|]. destruct a; [|done]. intros _ d Hd.
  destruct (row_pending _ _ _ Hr Hst) as (g & d' & q & Hp & Hd' & Hby). rewrite Hd in Hd'. injection Hd' as <-. rewrite Hid in *.
  eapply vetted_decided; [exact Hp|done|exact Hq|]. rewrite Hby in Hown. apply andb_false_iff in Hown as [H|H].
  - right. by apply bool_decide_eq_false in H.
  - left. by apply negb_false_iff.
Qed.

Lemma sound_decide pre a c p u id n note : sound (pre ++ [Edit (EDecide a c p u id n note)]) (acts pre) -> sound pre (acts pre) ->
  sound (pre ++ [Edit (EDecide a c p u id n note)]) (handle (EDecide a c p u id n note) (acts pre)).2.
Proof using walk_perm.
  set (os := pre ++ _). intros Hw Hpre. cbn [Approvals.handle]. unfold decideApproval. destruct (require _ _ _ _ _ _) as [p'|] eqn:Ep; [|done].
  enough (wp (loadApproval O c id n (fun f v => _)) (acts pre) (fun _ w' => sound os w')) as H by exact H.
  apply (wp_loadApproval os); [done..|]. intros f v w Hw1 Hid Hv Hvs.
  destruct (bool_decide (RequestedByID v = pID p') && negb (isOwner p')) eqn:Eown; [done|].
  destruct (decide (vStatus v <> FlowVersionPending)) as [|Hst%dec_stable]; [done|].
  destruct (decide (DefinitionHash digest (vDefinition v) <> vHash v)); [done|]. destruct (a && _); [done|].
  pose proof (so_rows _ _ _ Hpre _ _ Hv) as Hr. pose proof (row_key _ _ _ Hr) as Hkey.
  assert (vFlow v = id) as Hfl by by rewrite (versionKey_flow _ _ _ _ Hkey).
  apply wp_bind, wp_attempt, wp_catch, wp_bind, wp_io; intros _.
  { cbn. destruct Hw1; by split. }
  assert (sound os (set_tick (S (tick w)) w)) as Hw2 by (destruct Hw1; by split). clear Hw1.
  rewrite Hid, <- Hfl, <- Hkey, Hvs, Hv.
  destruct (decide (vCluster v <> fCluster f \/ vStatus v <> FlowVersionPending)); [apply wp_throw; case_decide; done|].
  apply wp_modify, wp_ret. eapply safe_wp; [| |by intros].
  - apply (safe_seq (row os) (vetted os)); [|intros base; by apply safe_save_decision, row_V].
    match goal with |- ApprovalsProps.safe _ _ (if ?b then _ else _) _ => destruct b end; [|by apply safe_ret]. apply safe_seq; [|intros; by apply safe_ret]. eapply safe_try, safe_any, safe_GetAutomationFlowVersion.
  - apply (sound_version (row os) (vetted os) (set_tick (S (tick w)) w)); [exact Hw2|]. by eapply decided_row.
Qed.

(** *** The whole history *)
Lemma safe_sound {B} os (m : M B) (P : B -> Prop) w : safe os m P -> sound os w -> sound os (m w).2.
Proof using Type. intros Hm Hw. by apply Hm. Qed.
Lemma sound_does pre a : ordinary a -> sound pre (acts pre) -> sound (pre ++ [a]) (does (acts pre) a).
Proof using walk_perm.
  intros Ha Hpre. pose proof (sound_more pre a _ Hpre) as Hw. destruct a as [e|o]; cbn [does].
  - destruct e; cbn [Approvals.handle].
    + eapply safe_sound; [by apply safe_createAutomationFlow|exact Hw].
    + eapply safe_sound; [by apply safe_cloneAutomationFlow|exact Hw].
    + eapply safe_sound; [by apply safe_patchAutomationFlow|exact Hw].
    + eapply safe_sound; [by apply safe_deleteAutomationFlow|exact Hw].
    + by apply sound_publish.
    + by apply sound_decide.
    + eapply safe_sound; [by apply safe_setAutomationFlowEnabled, row_V|exact Hw].
    + eapply safe_sound; [apply safe_createAutomationPolicy; [done|]|exact Hw].
      intros p' pol id Hp Hn. split; cbn; [done| |done]. intros _ d [= <-]. by eapply (vetted_policy _ _ _ pre []).
  - eapply safe_sound; [by apply safe_perform; [|apply row_V|]|exact Hw].
Qed.

Lemma sound_acts os : Forall ordinary os -> sound [] w0 -> sound os (acts os).
Proof using walk_perm.
  intros Hos H0. induction os as [|a os IH] using rev_ind; [done|]. apply Forall_app in Hos as [Hos Ha]. rewrite Forall_singleton in Ha.
  unfold acts. rewrite fold_left_app. by apply sound_does; [|apply IH].
Qed.
End history.

(** Before anything happened. *)
Record blank (w : world) : Prop := {
  blank_flows : flows (db w) = ∅; blank_versions : versions (db w) = ∅; blank_runs : runs (db w) = ∅; blank_defs : defs w = ∅ }.
Lemma blank_sound row V w : blank w -> sound row V w.
Proof. intros [H1 H2 H3 H4]. split; rewrite ?H1, ?H2, ?H3, ?H4; set_solver. Qed.

(** A handler that names no resource goes on with the principal as it came. *)
Lemma require_here {CT : CaseTables} A p perm p' : require A p "" "" false perm = Some p' -> p' = p.
Proof. unfold require, scopedAllow. destruct (Authorize _ _); [congruence|]. by rewrite decide_True. Qed.
