(* ===== verification/ServiceDemo.v ===== *)
(** * A small cluster to run the automation service on

    Two flows that listen to the same event, a clock that ticks by the second, and what
    the service does with them; the witnesses and the counterexamples of [Breaker] and
    [ServiceSafety] are computed here. *)
From S2P Require Export ServiceProps.
From S2P Require Import GoNum FlowDef Value Engine Steps Validate ValidateProps AutoStore AutoStoreProps ServiceSpec ServiceProps.

#[local] Existing Instance ascii_tables.
#[local] Existing Instance ascii_print.
#[local] Existing Instance demo_catalog.

(** 2026-01-01 and [k] seconds. *)
Definition demo_start : Z := 1767225600 * second_ns.
Definition demo_outside (down : nat -> bool) : outside :=
  mkOutside (fun k => demo_start + Z.of_nat k * second_ns) (fun k => "u" +:+ Itoa (Z.of_nat k)) (fun _ _ l => l) down.
Definition never (k : nat) : bool := false.

Lemma demo_walk down : forall A n l, AutoStore.walk (demo_outside down) A n l ≡ₚ l.
Proof. done. Qed.
Lemma demo_clock down : forall k, clock (demo_outside down) k <> zero_time.
Proof. intros k. unfold demo_outside, clock, zero_time, demo_start, second_ns. lia. Qed.
Lemma demo_clock_mono down : forall i j, (i <= j)%nat -> clock (demo_outside down) i <= clock (demo_outside down) j.
Proof. intros i j H. unfold demo_outside, clock, demo_start, second_ns. lia. Qed.

Definition demo_limits : Limits := mkLimits 0 0 0 0 1 1 2 10 (-1) 0 2.
Definition demo_def : Definition_ :=
  mkDefinition 1 (mkTrigger TriggerID TriggerEvent [("event", VStr "disk.full")]) [set_step "s" "x"] [mkEdge TriggerID "s" ""] None None ∅%string.
Definition demo_row (id : string) : AutomationFlow :=
  mkFlow id "c" ("flow " +:+ id) (Some demo_def) 1 true "event" "disk.full" demo_limits "" 0 "" demo_start 0 false "".
Definition demo_version (id : string) : AutomationFlowVersion := mkVersion id "c" 1 (Some demo_def) FlowVersionApproved "" false [] false "" "".
Definition demo_store : store :=
  mkStore (<["a" := demo_row "a"]> (<["b" := demo_row "b"]> ∅)) (<["a#1" := demo_version "a"]> (<["b#1" := demo_version "b"]> ∅))
    (<["a" := mkSchedule "a" "c" "" "" "" None ""]> ∅) ∅ ∅ []%string.
Definition demo_world : world := mkW 0 demo_store ∅ ∅ ∅ [].

Definition demo_performs (down : nat -> bool) (os : list op) : world :=
  performs (demo_outside down) (fun _ => None) 100 (fun x => x) (fun _ => None) (fun _ => ""%string) (fun _ => ""%string) (fun _ => ""%string) "w" os demo_world.

Definition demo_request (f key : string) : StartRequest := mkStart "c" f "event" [] [] key "" "" "" 0 "" false false false None 0 [].
Definition trigger (f key : string) : op := OpStart (demo_request f key).
Definition demo_event (cause : string) : op := OpEvent (mkEvent "c" "disk.full" "pool" "n1" "" cause [] demo_start).

Definition seen (w : world) : list (string * string * string * Z) :=
  map (fun p : string * AutomationRun => (aID p.2, aFlow p.2, status_text (aStatus p.2), ChainDepth p.2)) (map_to_list (runs (db w))).


(** The second trigger waits and the third is dropped. *)
Definition demo_triggers : list op := [demo_event ""; trigger "a" "k"; trigger "a" ""; trigger "a" "k"]%string.
Example demo_triggers_ex : seen (demo_performs never demo_triggers)
  = [("u17", "b", "pending", 0); ("u6", "a", "pending", 0); ("u29", "a", "queued", 0); ("u40", "a", "dropped", 0)]%string.
Proof. vm_compute. reflexivity. Qed.

(** The event that run u6 of flow a causes starts flow b only, one deeper. *)
Definition demo_chain : list op := [demo_event ""; demo_event "u6"]%string.
Example demo_chain_ex : seen (demo_performs never demo_chain)
  = [("u31", "b", "queued", 1); ("u17", "b", "pending", 0); ("u6", "a", "pending", 0)]%string.
Proof. vm_compute. reflexivity. Qed.

(** ** Facts for witnesses *)
Lemma demo_keyed : keyed demo_world.
Proof.
  intros id f H. unfold demo_world, demo_store in H. cbn [db flows] in H.
  repeat (apply lookup_insert_Some in H as [[<- <-]|[_ H]]; [done|]). by rewrite lookup_empty in H.
Qed.

Lemma rows_size p (m : gmap string AutomationRun) : rows p m <= Z.of_nat (size m).
Proof.
  unfold rows, tally. pose proof (filter_length_le p (map_to_list m).*2) as H.
  rewrite length_fmap, length_map_to_list in H. lia.
Qed.

Lemma room_small c f (m m' : gmap string AutomationRun) : Z.of_nat (size m') <= 500 -> room c f m m'.
Proof. intros H id r _ _ _. pose proof (rows_size (newer_than c f (aCreatedAt r)) m'). lia. Qed.
