(* ===== verification/Breaker.v ===== *)
(** * The circuit breaker of a flow

    What the ends of runs and dropped triggers do to a flow's row: the failures in a row,
    the threshold at which the flow is turned off, and that a flow that is off starts
    nothing by itself. *)
From S2P Require Export ServiceProps.
From S2P Require Import FlowDef Value Engine Validate ValidateProps AutoStore AutoStoreProps ServiceSpec ServiceProps ServiceDemo.

(** ** Computations that touch neither flows nor schedules *)
Definition spares {A} (m : M A) : Prop := forall w, flows (db (m w).2) = flows (db w) /\ schedules (db (m w).2) = schedules (db w).

Lemma spares_ret {A} (a : A) : spares (mret a).
Proof. by intros w. Qed.
Lemma spares_throw {A} e : spares (@throw A e).
Proof. by intros w. Qed.
Lemma spares_bind {A B} (m : M A) (f : A -> M B) : spares m -> (forall a, spares (f a)) -> spares (m ≫= f).
Proof.
  intros Hm Hf w. specialize (Hm w). unfold mbind, M_bind. destruct (m w) as [[a|e] w']; [|done]. cbn in Hm. destruct (Hf a w') as [-> ->]. done.
Qed.
Lemma spares_attempt {A} (m : M A) : spares m -> spares (attempt m).
Proof. intros Hm w. specialize (Hm w). unfold attempt. by destruct (m w) as [[a|e] w']. Qed.
Lemma spares_consult {A} (f : nat -> A) : spares (consult f).
Proof. by intros w. Qed.
Lemma spares_get : spares get.
Proof. by intros w. Qed.
Lemma spares_emit e : spares (emit e).
Proof. by intros w. Qed.
Lemma spares_put f : (forall s, flows (f s) = flows s /\ schedules (f s) = schedules s) -> spares (put_db f).
Proof. intros H w. apply H. Qed.

Create HintDb spares.
#[export] Hint Resolve spares_ret spares_throw spares_attempt spares_consult spares_get spares_emit : spares.
Ltac spares :=
  repeat first
    [ progress intros
    | solve [auto with spares nocore]
    | apply spares_bind | apply spares_attempt | by apply spares_put
    | match goal with
      | |- spares (match ?x with _ => _ end) => destruct x
      | |- spares (let '(_, _) := ?x in _) => destruct x
      end ].

Section breaker.
Context {CT : CaseTables} {PT : PrintTables} {cat : Catalog}.
Context (O : outside) (redactText : string -> string) (jsonLen : value -> option Z) (digest : Definition_ -> string).

Lemma spares_io {A} (body : store -> M A) : (forall s, spares (body s)) -> spares (io O body).
Proof. intros H. unfold io. spares. Qed.

Lemma spares_update r : spares (UpdateAutomationRun O r).
Proof. apply spares_io. spares. Qed.
Lemma spares_reads c f : spares (GetAutomationFlow O c f) /\ spares (ListAutomationRuns O c f 500).
Proof. split; apply spares_io; spares. Qed.

Lemma spares_promote_loop limit q : forall active promoted, spares (promote_loop O limit active promoted q).
Proof.
  induction q as [|r q IH]; intros active promoted; cbn [promote_loop]; [spares|]. case_decide; [spares|].
  apply spares_bind; [apply spares_attempt, spares_update|]. intros [u|]; apply IH.
Qed.
Lemma spares_promote c f : spares (promote O c f).
Proof.
  apply spares_bind; [apply spares_attempt, spares_reads|]. intros [[flow|]|]; [|spares..].
  apply spares_bind; [apply spares_attempt, spares_reads|]. intros [rs|]; [|spares].
  apply spares_bind; [apply spares_promote_loop|]. spares.
Qed.

(** ** The exact effect on the row, when the store answers *)
Context (answers : forall k, fails O k = false).

(** The database's unique index on a cluster's names. *)
Definition unique_names (w : world) : Prop := forall i j f g,
  flows (db w) !! i = Some f -> flows (db w) !! j = Some g -> fCluster f = fCluster g -> fName f = fName g -> i = j.

(** The row of flow [f] became [flow'], and nothing else of flows. *)
Definition rewritten (f : string) (flow' : AutomationFlow) (w w' : world) : Prop := flows (db w') = <[f := flow']> (flows (db w)).

Lemma rewritten_same f flow w : flows (db w) !! f = Some flow -> rewritten f flow w w.
Proof using Type. intros H. unfold rewritten. by rewrite insert_id. Qed.

Lemma name_free w f flow flow' : keyed w -> unique_names w -> flows (db w) !! f = Some flow ->
  fID flow' = f -> fCluster flow' = fCluster flow -> fName flow' = fName flow -> name_taken flow' (db w) = false.
Proof using Type.
  intros Hk Hu Hf E1 E2 E3. unfold name_taken. destruct (existsb _ _) eqn:E; [|done]. exfalso. apply existsb_exists in E as (g & Hin & Hg).
  apply list_elem_of_In, list_elem_of_fmap in Hin as ([id g'] & -> & Hin). apply elem_of_map_to_list in Hin. cbn [snd] in Hg.
  rewrite !andb_true_iff, !bool_decide_eq_true in Hg. destruct Hg as [[H1 H2] H3]. apply H1. rewrite (Hk id g' Hin), E1. apply (Hu id f g' flow); [done|done|congruence|congruence].
Qed.

Lemma wp_rewrite w f flow flow' (Q : result svcError () -> world -> Prop) : keyed w -> unique_names w -> flows (db w) !! f = Some flow ->
  terms flow' = terms flow -> fName flow' = fName flow -> fCreatedAt flow' = fCreatedAt flow ->
  (forall w', rewritten f flow' w w' -> schedules (db w') = schedules (db w) -> Q (Ok ()) w') -> wp (UpdateAutomationFlow O flow') w Q.
Proof.
  intros Hk Hu Hf Ht Hn Hc HQ. pose proof (Hk f flow Hf) as Hid. injection Ht as E1 E2 E3. apply wp_io; [by rewrite answers|]. intros _.
  rewrite E1, Hid, Hf. rewrite decide_False by (intros H; by apply H). rewrite (name_free w f flow flow' Hk Hu Hf) by congruence. apply wp_modify, HQ; [|done].
  unfold rewritten. cbn. f_equal. unfold set_created. rewrite <- Hc. by destruct flow'.
Qed.

Lemma wp_found {B} w c f flow (k : option (option AutomationFlow) -> M B) Q : flows (db w) !! f = Some flow -> fCluster flow = c ->
  (forall w', db w' = db w -> wp (k (Some (Some flow))) w' Q) -> wp (attempt (GetAutomationFlow O c f) ≫= k) w Q.
Proof.
  intros Hf Hc HQ. apply wp_bind, wp_attempt, wp_GetAutomationFlow. intros r w1 _ Hdb _ Hr. rewrite (Hr (answers _)), Hf. cbn. rewrite decide_True by done. by apply HQ.
Qed.

(** The schedule of a flow that was turned off is gone. *)
Definition unscheduled (c f : string) (w : world) : Prop := forall sc, schedules (db w) !! f = Some sc -> sCluster sc <> c.

Lemma wp_breakerHit w c f flow reason (Q : result svcError () -> world -> Prop) : keyed w -> unique_names w -> flows (db w) !! f = Some flow -> fCluster flow = c ->
  (forall w', rewritten f (after_hit reason flow) w w' ->
     (if trips flow then unscheduled c f w' else schedules (db w') = schedules (db w)) -> Q (Ok ()) w') ->
  wp (breakerHit O c f reason) w Q.
Proof.
  intros Hk Hu Hf Hc HQ. unfold breakerHit. apply (wp_found w c f flow); [done..|]. intros w1 Hdb. apply wp_bind, wp_attempt.
  apply (wp_rewrite w1 f flow); rewrite ?Hdb; try done; [by intros ? ?; rewrite Hdb; apply Hk|by intros i j ? ?; rewrite Hdb; apply Hu|
    apply terms_hit|unfold after_hit; by destruct (trips flow)|unfold after_hit; by destruct (trips flow)|].
  intros w2 Hrw Hs. unfold rewritten in Hrw. rewrite Hdb in Hrw. destruct (trips flow); [|by apply wp_ret, HQ].
  apply wp_bind, wp_quiet, wp_io; [by rewrite answers|]. intros _. apply wp_modify. cbn beta.
  apply wp_bind, wp_modify. apply wp_bind, wp_modify. apply wp_modify, HQ.
  - unfold rewritten. cbn. rewrite <- Hrw. repeat case_match; done.
  - intros sc. cbn. destruct (schedules (db w2) !! f) as [sc0|] eqn:E; [|by rewrite E]. case_decide; cbn; [by rewrite lookup_delete_eq|]. rewrite E. by intros [= <-].
Qed.

(** What an end does to a row. *)
Definition ended_row (r : AutomationRun) (flow : AutomationFlow) : AutomationFlow :=
  match aStatus r with
  | AutoRun RunSucceeded => set_health (Enabled flow) 0 (DisabledReason flow) flow
  | AutoRun RunFailed => after_hit (aError r) flow
  | _ => flow
  end.
Definition ended_trips (r : AutomationRun) (flow : AutomationFlow) : bool := bool_decide (aStatus r = AutoRun RunFailed) && trips flow.

Lemma wp_spared {A} (m : M A) w Q : spares m -> (forall r w', flows (db w') = flows (db w) -> schedules (db w') = schedules (db w) -> Q r w') -> wp m w Q.
Proof using Type. intros Hm HQ. destruct (Hm w) as [H1 H2]. by apply HQ. Qed.

Lemma wp_RunEnded w r flow (Q : result svcError () -> world -> Prop) : keyed w -> unique_names w ->
  aDry r = false -> flows (db w) !! aFlow r = Some flow -> fCluster flow = aCluster r ->
  (forall e w', rewritten (aFlow r) (ended_row r flow) w w' ->
     (if ended_trips r flow then unscheduled (aCluster r) (aFlow r) w' else schedules (db w') = schedules (db w)) -> Q e w') ->
  wp (RunFinished O digest r) w Q.
Proof.
  intros Hk Hu Hd Hf Hc HQ. unfold RunFinished. rewrite Hd.
  set (P := fun w1 => rewritten (aFlow r) (ended_row r flow) w w1 /\
    (if ended_trips r flow then unscheduled (aCluster r) (aFlow r) w1 else schedules (db w1) = schedules (db w))).
  eassert (wp _ w (fun e w1 => P w1 /\ e = Ok ())) as Hend; [|apply wp_bind; eapply wp_mono; [exact Hend|]].
  - unfold P, ended_row, ended_trips. destruct (aStatus r) as [| |[]]; try (rewrite bool_decide_false by done); try (apply wp_ret; by split; [split; [by apply rewritten_same|]|]).
    + unfold reset_failures. apply (wp_found w _ _ flow); [done..|]. intros w1 Hdb. case_decide as Hn.
      * apply wp_quiet, (wp_rewrite w1 (aFlow r) flow); rewrite ?Hdb; try done; [by intros ? ?; rewrite Hdb; apply Hk|by intros i j ? ?; rewrite Hdb; apply Hu|].
        intros w2 Hrw Hs. unfold rewritten in *. rewrite Hdb in *. done.
      * apply wp_ret. unfold rewritten. rewrite Hdb. split; [|done]. split; [|done]. rewrite insert_id; [done|]. rewrite Hf. f_equal.
        destruct flow; unfold set_health; cbn in *. f_equal. lia.
    + rewrite bool_decide_true by done. cbn [andb]. apply (wp_breakerHit w _ _ flow); [done..|]. intros w1 H1 H2. done.
  - cbn beta. intros e w1 [[H1 H2] ->]. apply wp_spared; [apply spares_promote|]. intros e w2 E1 E2. apply HQ.
    + unfold rewritten. by rewrite E1.
    + unfold unscheduled. destruct (ended_trips r flow); by rewrite E2.
Qed.

(** ** A sequence of ends of live runs and of dropped triggers *)
Inductive occurrence := RunEnded (r : AutomationRun) | TriggerDropped (reason : string).
Definition happen (c f : string) (o : occurrence) : M () :=
  match o with RunEnded r => RunFinished O digest r | TriggerDropped reason => breakerHit O c f reason end.
Fixpoint happened (c f : string) (os : list occurrence) (w : world) : world :=
  match os with [] => w | o :: os => happened c f os (happen c f o w).2 end.

Definition of_flow (c f : string) (o : occurrence) : bool := match o with RunEnded r => live_of c f r | TriggerDropped _ => true end.
Definition is_hit (o : occurrence) : bool := match o with RunEnded r => bool_decide (aStatus r = AutoRun RunFailed) | TriggerDropped _ => true end.
Definition is_success (o : occurrence) : bool := match o with RunEnded r => bool_decide (aStatus r = AutoRun RunSucceeded) | TriggerDropped _ => false end.

(** Hits since the last success, over [n] from before. *)
Fixpoint streak (n : Z) (os : list occurrence) : Z :=
  match os with
  | [] => n
  | o :: os => streak (if is_success o then 0 else if is_hit o then n + 1 else n) os
  end.

(** The row and the schedule after one occurrence. *)
Record stepped (c f : string) (flow : AutomationFlow) (o : occurrence) (w w' : world) : Prop := {
  st_row : exists flow', rewritten f flow' w w' /\ terms flow' = terms flow /\ fName flow' = fName flow /\
    ConsecutiveFailures flow' = streak (ConsecutiveFailures flow) [o] /\
    Enabled flow' = Enabled flow && negb (is_hit o && bool_decide (BreakerThreshold (FlowLimits flow) <= streak (ConsecutiveFailures flow) [o])) /\
    (Enabled flow = true -> Enabled flow' = false -> unscheduled c f w');
  st_schedule : unscheduled c f w -> unscheduled c f w' }.

Lemma hit_stepped c f flow o reason w w' : is_hit o = true -> is_success o = false -> rewritten f (after_hit reason flow) w w' ->
  (if trips flow then unscheduled c f w' else schedules (db w') = schedules (db w)) -> stepped c f flow o w w'.
Proof using Type.
  intros Hh Hs Hrw Hsch. split; [|unfold unscheduled; destruct (trips flow); [done|by rewrite Hsch]]. exists (after_hit reason flow).
  cbn [streak]. rewrite Hs, Hh. unfold after_hit, trips in *. destruct (Enabled flow) eqn:E; cbn [andb] in *; [|by rewrite ?E].
  case_bool_decide; cbn in *; [done|]. by rewrite ?E.
Qed.

Lemma happen_stepped c f flow o w : keyed w -> unique_names w -> flows (db w) !! f = Some flow -> fCluster flow = c -> of_flow c f o = true ->
  stepped c f flow o w (happen c f o w).2.
Proof.
  intros Hk Hu Hf Hc Ho. destruct o as [r|reason]; cbn [happen of_flow] in *; cycle 1.
  { refine (wp_breakerHit w c f flow reason (fun _ w' => stepped c f flow (TriggerDropped reason) w w') Hk Hu Hf Hc _). intros w' H1 H2. by eapply hit_stepped. }
  apply live_of_spec in Ho as (E1 & E2 & Ed). refine (wp_RunEnded w r flow (fun _ w' => stepped c f flow (RunEnded r) w w') Hk Hu Ed _ _ _); [by rewrite E2|congruence|].
  intros _ w'. rewrite E1, E2. unfold ended_row, ended_trips. intros H1 H2. destruct (decide (aStatus r = AutoRun RunFailed)) as [E|E].
  - rewrite E in *. rewrite bool_decide_true in H2 by done. cbn [andb] in H2. eapply hit_stepped; [by cbn; rewrite E|by cbn; rewrite E|done..].
  - rewrite bool_decide_false in H2 by done. cbn [andb] in H2. split; [|unfold unscheduled; by rewrite H2].
    cbn [streak is_hit is_success]. rewrite (bool_decide_false (_ = AutoRun RunFailed)) by done. cbn [andb negb]. rewrite andb_true_r.
    destruct (decide (aStatus r = AutoRun RunSucceeded)) as [Es|Es].
    + rewrite Es in *. eexists. split; [exact H1|]. rewrite bool_decide_true by done. by repeat split; cbn; try congruence.
    + exists flow. rewrite (bool_decide_false (_ = AutoRun RunSucceeded)) by done. split; [|by split_and!; try congruence].
      by destruct (aStatus r) as [| |[]].
Qed.

(** What the next occurrence finds. *)
Lemma rewritten_invariant f flow flow' w w' : keyed w -> unique_names w -> flows (db w) !! f = Some flow ->
  rewritten f flow' w w' -> terms flow' = terms flow -> fName flow' = fName flow -> keyed w' /\ unique_names w' /\ flows (db w') !! f = Some flow'.
Proof using Type.
  intros Hk Hu Hf Hrw Ht Hn. injection Ht as E1 E2 _. unfold rewritten in Hrw.
  assert (forall i x, flows (db w') !! i = Some x -> exists y, flows (db w) !! i = Some y /\ fID x = fID y /\ fCluster x = fCluster y /\ fName x = fName y) as Hback.
  { intros i x Hx. rewrite Hrw in Hx. apply lookup_insert_Some in Hx as [[<- <-]|[_ Hx]]; [exists flow|exists x]; done. }
  split_and!.
  - intros i x Hx. destruct (Hback i x Hx) as (y & Hy & -> & _). by apply Hk.
  - intros i j x y Hx Hy Ec En. destruct (Hback i x Hx) as (x0 & Hx0 & _ & Ex1 & Ex2), (Hback j y Hy) as (y0 & Hy0 & _ & Ey1 & Ey2).
    apply (Hu i j x0 y0); [done..|congruence|congruence].
  - by rewrite Hrw, lookup_insert_eq.
Qed.

Definition reached (threshold n : Z) (os : list occurrence) : Prop :=
  exists k o, os !! k = Some o /\ is_hit o = true /\ threshold <= streak n (take (S k) os).

Lemma reached_cons t n o os : reached t n (o :: os) <-> (is_hit o = true /\ t <= streak n [o]) \/ reached t (streak n [o]) os.
Proof using Type.
  split.
  - intros ([|k] & x & Hx & Hh & Ht); [left|right]; cbn in *; [by simplify_eq|]. by exists k, x.
  - intros [[Hh Ht]|(k & x & Hx & Hh & Ht)]; [by exists 0%nat, o|by exists (S k), x].
Qed.

Record breaker_state (c f : string) (flow : AutomationFlow) (os : list occurrence) (w w' : world) : Prop := {
  bs_row : exists flow', flows (db w') !! f = Some flow' /\ terms flow' = terms flow /\
    ConsecutiveFailures flow' = streak (ConsecutiveFailures flow) os /\
    (Enabled flow' = true <-> Enabled flow = true /\ ~ reached (BreakerThreshold (FlowLimits flow)) (ConsecutiveFailures flow) os) /\
    (Enabled flow = true -> Enabled flow' = false -> unscheduled c f w');
  bs_schedule : unscheduled c f w -> unscheduled c f w';
  bs_keyed : keyed w' }.

Lemma happened_state c f os : forall w flow, keyed w -> unique_names w -> flows (db w) !! f = Some flow -> fCluster flow = c ->
  forallb (of_flow c f) os = true -> breaker_state c f flow os w (happened c f os w).
Proof.
  induction os as [|o os IH]; intros w flow Hk Hu Hf Hc Hos; cbn [happened].
  { split; [|done..]. exists flow. split_and!; try done; [|congruence]. split; [intros H; split; [done|]|by intros []]. by intros ([|] & ? & ? & _). }
  cbn [forallb] in Hos. apply andb_true_iff in Hos as [Ho Hos]. destruct (happen_stepped c f flow o w Hk Hu Hf Hc Ho) as [(flow1 & Hrw & Ht & Hn & Hcf & Hen & Hun) Hsch].
  destruct (rewritten_invariant f flow flow1 w _ Hk Hu Hf Hrw Ht Hn) as (Hk1 & Hu1 & Hf1). pose proof Ht as Ht'. injection Ht' as _ E2 E3.
  destruct (IH _ flow1 Hk1 Hu1 Hf1 ltac:(congruence) Hos) as [(flow' & Hf' & Ht2 & Hcf' & Hen' & Hun') Hsch' Hk'].
  assert (FlowLimits flow1 = FlowLimits flow) as El by (unfold FlowLimits; by rewrite E3). rewrite El, Hcf in *. split; [|by auto|done].
  exists flow'. split_and!; [done|congruence|by rewrite Hcf'| |].
  - rewrite Hen', reached_cons, Hen, andb_true_iff, negb_true_iff, andb_false_iff, bool_decide_eq_false.
    destruct (is_hit o); naive_solver.
  - intros E E'. destruct (Enabled flow1) eqn:E1; [by apply Hun'|]. by apply Hsch', Hun.
Qed.

End breaker.

(** ** The demo cluster: two hits in a row turn flow a off *)
#[local] Existing Instance ascii_tables.
#[local] Existing Instance ascii_print.
#[local] Existing Instance demo_catalog.

Lemma demo_names : unique_names demo_world.
Proof.
  intros i j f g Hi Hj _. unfold demo_world, demo_store in Hi, Hj. cbn [db flows] in Hi, Hj.
  repeat (apply lookup_insert_Some in Hi as [[<- <-]|[_ Hi]]; [|]); try (by rewrite lookup_empty in Hi);
    repeat (apply lookup_insert_Some in Hj as [[<- <-]|[_ Hj]]; [done|]); by rewrite lookup_empty in Hj.
Qed.

(** A run of flow a that ended so. *)
Definition demo_ended (s : run_status) : AutomationRun :=
  mkARun "r" "c" "a" 1 false (AutoRun s) "event" VNull VNull (Some demo_def) zeroState None "" "" "" 0 "" "" "" "disk gone" None "" None None None demo_start.
Definition demo_happened (os : list occurrence) : world :=
  happened (demo_outside never) (fun _ => ""%string) "c" "a" os demo_world.

Example demo_health : map (fun os => (fun f => (Enabled f, ConsecutiveFailures f)) <$> flows (db (demo_happened os)) !! "a"%string)
  [[RunEnded (demo_ended RunFailed)]; [RunEnded (demo_ended RunFailed); RunEnded (demo_ended RunSucceeded); TriggerDropped "full"];
   [RunEnded (demo_ended RunFailed); RunEnded (demo_ended RunCancelled); TriggerDropped "full"]]%string
  = [Some (true, 1); Some (true, 1); Some (false, 2)].
Proof. vm_compute. reflexivity. Qed.

