(* ===== verification/ServiceSafety.v ===== *)
(** * What holds however the automation service is used

    The invariants of the machine carried over to the service: after any operations, one at
    a time, whatever calls of the store failed.  The circuit breaker, and the cases in
    which the limits do not hold. *)
From stdpp Require Import sorting.
From S2P Require Export Breaker.
From S2P Require Import GoNum FlowDef Value Cron Engine Validate ValidateProps AutoStore AutoStoreProps ServiceSpec ServiceProps ServiceDemo.

Section safety.
Context {CT : CaseTables} {PT : PrintTables} {cat : Catalog}.
Context (O : outside) (LoadLocation : string -> option Location) (cronFuel : nat).
Context (redactText : string -> string) (jsonLen : value -> option Z) (digest : Definition_ -> string).
Context (message_text : message -> string) (error_text : svcError -> string) (Owner : string).
Context (walk_perm : forall A n l, AutoStore.walk O A n l ≡ₚ l) (clock_real : forall k, clock O k <> zero_time).
Notation perform := (perform O LoadLocation cronFuel redactText jsonLen digest message_text error_text Owner).
Notation performs := (performs O LoadLocation cronFuel redactText jsonLen digest message_text error_text Owner).

(** A store whose rows are under their identifiers. *)
Definition tidy (w : world) : Prop := keyed w /\ keyed_runs (runs (db w)).

(** What every operation of a sequence finds. *)
Fixpoint throughout (P : world -> op -> Prop) (os : list op) (w : world) : Prop :=
  match os with [] => True | o :: os => P w o /\ throughout P os (perform o w).2 end.

Lemma throughout_mono (P P' : world -> op -> Prop) os w : (forall w o, P w o -> P' w o) -> throughout P os w -> throughout P' os w.
Proof. intros H. revert w. induction os as [|o os IH]; intros w; [done|]. intros [H1 H2]. split; auto. Qed.

Definition terms_at (w : world) (id : string) : option (string * string * Limits) := terms <$> flows (db w) !! id.
(** The same as a test, of each operation with the state it leaves. *)
Fixpoint found (p : world -> op -> world -> bool) (os : list op) (w : world) : bool :=
  match os with [] => true | o :: os => p w o (perform o w).2 && found p os (perform o w).2 end.
Lemma found_throughout p (P : world -> op -> Prop) os w : (forall w o, p w o (perform o w).2 = true -> P w o) -> found p os w = true -> throughout P os w.
Proof using Type. intros H. revert w. induction os as [|o os IH]; intros w; [done|]. intros [H1 H2]%andb_true_iff. split; auto. Qed.

Lemma tidy_good w : tidy w -> good (terms_at w) w.
Proof. intros [H1 H2]. by split. Qed.
Lemma good_tidy T w : good T w -> tidy w.
Proof. intros [H1 H2 _]. by split. Qed.
Lemma freeing_all id w : freeing (fun _ => true) id w.
Proof. by intros r _. Qed.

Lemma performs_served T asks os w : good T w ->
  throughout (fun w o => asked O T (fun _ => true) asks w (poses O (runs (db w)) o)) os w ->
  served O T (fun _ => true) asks w (performs os w).
Proof.
  revert w. induction os as [|o os IH]; intros w Hg Ha; [by apply keeps_served|]. destruct Ha as [Ha Hos]. cbn [Service.performs].
  assert (served O T (fun _ => true) asks w (perform o w).2) as Hs by (apply perform_served; try done; intros; apply freeing_all).
  eapply served_trans; [done|]. apply IH; [apply Hs|done].
Qed.

Definition anything (m : gmap string AutomationRun) (req : StartRequest) : Prop := True.
Lemma asked_anything T free w P : asked O T free anything w P.
Proof. by intros w' req _ _. Qed.
Lemma throughout_true os w : throughout (fun _ _ => True) os w.
Proof. revert w. by induction os as [|o os IH]; intros w. Qed.

Lemma performs_anything os w : tidy w -> served O (terms_at w) (fun _ => true) anything w (performs os w).
Proof.
  intros Hw. apply performs_served; [by apply tidy_good|]. eapply throughout_mono; [|apply throughout_true]. intros; apply asked_anything.
Qed.

(** ** Refinement *)

(** The requests that operations pose, and the runs that they are about. *)
Definition posed (os : list op) (m : gmap string AutomationRun) (req : StartRequest) : Prop := exists o m0, o ∈ os /\ poses O m0 o req.
Definition targeted (os : list op) (r : AutomationRun) : bool := existsb (fun o => bool_decide (target o = Some (aID r))) os.

Lemma targeted_birth os r r' : birth r' = birth r -> targeted os r' = targeted os r.
Proof using Type. intros H. apply birth_eq in H as ((E & _) & _). unfold targeted. by rewrite E. Qed.

Lemma performs_refine T all os w : good T w -> (forall o, o ∈ os -> o ∈ all) -> served O T (targeted all) (posed all) w (performs os w).
Proof.
  revert w. induction os as [|o os IH]; intros w Hg Hall; [by apply keeps_served|]. cbn [Service.performs].
  assert (served O T (targeted all) (posed all) w (perform o w).2) as Hs.
  { apply perform_served; [done|done|intros; by apply targeted_birth|done| |].
    - intros w' req _ Hp. exists o, (runs (db w)). split; [apply Hall; left|done].
    - intros id Ht r Hr. apply existsb_exists. exists o. split; [apply list_elem_of_In, Hall; left|]. apply bool_decide_eq_true. by rewrite (g_runs _ _ Hg id r Hr). }
  eapply served_trans; [done|]. apply IH; [apply Hs|]. intros x Hx. apply Hall. by right.
Qed.

(** C11: the service implements the machine of [ServiceSpec]: whatever operations are made,
    one at a time, whatever calls of the store fail and in whatever order maps are walked,
    the table of runs changes by admissions of posed requests that respect the limits as
    they are then, by moves of statuses, and by starting queued runs; and only the runs an
    operation is about give up their slot. *)
Theorem service_refines (os : list op) (w : world) : tidy w ->
  tidy (performs os w) /\ rtc (srv (clock O) (terms_at w) (targeted os) (posed os)) (abs w) (abs (performs os w)).
Proof.
  intros Hw. destruct (performs_refine (terms_at w) os os w (tidy_good w Hw)) as [Hg Hs]; [done|]. split; [by eapply good_tidy|done].
Qed.

(** ** Slots *)

(** The rows of a flow stay visible while an operation runs. *)
Definition has_room (c f : string) (w : world) (o : op) : Prop := room c f (runs (db w)) (runs (db (perform o w).2)).

Lemma perform_anything T o w : good T w -> served O T (fun _ => true) anything w (perform o w).2.
Proof. intros Hg. apply perform_served; try done; intros; apply freeing_all. Qed.

(** One operation keeps the flow in its slots, and calm. *)
Lemma perform_slots T c f name l o w : T f = Some (name, l) -> good T w -> has_room c f w o ->
  slots c f l (runs (db w)) -> slots c f l (runs (db (perform o w).2)).
Proof.
  intros HT Hg Hroom Hs. destruct (perform_anything T o w Hg) as [_ Hsteps].
  by apply (srvs_slots (clock O) T (fun _ => true) anything c f name l HT (abs w) (abs (perform o w).2) Hsteps (g_runs T w Hg)).
Qed.

Lemma perform_calm T c f name l o w : T f = Some (name, l) -> name.2 = c -> good T w -> (forall k, fails O k = false) ->
  has_room c f w o -> calm c f l (runs (db w)) -> calm c f l (runs (db (perform o w).2)).
Proof.
  intros HT Hname Hg Hno Hroom Hc. set (others := fun r => negb (live_of c f r)).
  assert (forall r r', birth r' = birth r -> others r' = others r) as Hb by (intros r r' Hb; unfold others; by rewrite (live_birth c f r r')).
  assert (served O T others anything w (perform o w).2 -> calm c f l (runs (db (perform o w).2))) as Hothers.
  { intros [_ Hs]. apply (srvs_calm (clock O) T others anything c f name l HT (abs w) (abs (perform o w).2)); [|done|apply Hg|done|done]. intros r Hr. unfold others. by rewrite Hr. }
  destruct (target o) as [id|] eqn:Ht; cycle 1.
  { apply Hothers. apply perform_served; try done. by rewrite Ht. }
  destruct (runs (db w) !! id) as [r|] eqn:Er; [destruct (live_of c f r) eqn:El|]; cycle 1.
  { apply Hothers. apply perform_served; try done. rewrite Ht. intros id' [= <-] r' Hr'. rewrite Er in Hr'. injection Hr' as <-. unfold others. by rewrite El. }
  { apply Hothers. apply perform_served; try done. rewrite Ht. intros id' [= <-] r' Hr'. by rewrite Er in Hr'. }
  apply live_of_spec in El as (Ec & Ef & Ed).
  destruct (perform_ends O LoadLocation cronFuel redactText jsonLen digest message_text error_text Owner walk_perm clock_real T (fun _ => true) anything ltac:(done) o id w Hg Ht (freeing_all _ _))
    as (Hs & Hends & _).
  destruct (Hends r Er) as [_ [Hsame|Hrest]].
  - destruct (Hsame c f) as [E1 E2]. unfold calm in *. by rewrite E1, E2.
  - destruct (Hrest Ed) as (w1 & w2 & [_ H1] & Hset & [_ H2] & [_ H3] & Hss). rewrite Ec, Ef in Hset.
    assert (visible c f (runs (db w1))) as Hv1.
    { apply (room_visible (clock O) T (fun _ => true) anything (abs w) (abs w1) (abs (perform o w).2)); [apply Hg|done|by etransitivity|done]. }
    destruct (Hss c f) as [E1 E2]. unfold calm. rewrite E1, E2. destruct (Hset (name, l) HT Hname Hno Hv1) as [?|?]; [by right|by left].
Qed.

Lemma performs_keep T (P : world -> Prop) (Q : world -> op -> Prop) os w :
  (forall o w, good T w -> Q w o -> P w -> P (perform o w).2) -> good T w -> throughout Q os w -> P w -> P (performs os w).
Proof.
  intros Hstep. revert w. induction os as [|o os IH]; intros w Hg; [done|]. intros [Ho Hos] Hp. cbn [Service.performs].
  apply IH; [apply (perform_anything T o w Hg)|done|by apply Hstep].
Qed.

(** C12: while the service sees a flow's active and queued runs, which are to be among its
    500 newest, at most [Concurrency] of them are active and at most [QueueDepth] wait,
    after any operations in any order and whichever calls of the store failed; and if none
    failed, no run waits in the queue beside a free slot. *)
Theorem slots_kept (os : list op) (w : world) (f : string) (flow : AutomationFlow) :
  tidy w -> flows (db w) !! f = Some flow ->
  let c := fCluster flow in
  let l := fLimits flow in
  throughout (has_room c f) os w ->
  (slots c f l (runs (db w)) -> slots c f l (runs (db (performs os w)))) /\
  ((forall k, fails O k = false) -> calm c f l (runs (db w)) -> calm c f l (runs (db (performs os w)))).
Proof.
  intros Hw Hf c l Hroom. assert (terms_at w f = Some (fID flow, c, l)) as HT by (unfold terms_at; by rewrite Hf).
  pose proof (tidy_good w Hw) as Hg. split; [|intros Hno].
  - apply (performs_keep (terms_at w) (fun w => slots c f l (runs (db w))) (has_room c f)); [|done..].
    intros o w' Hg' Ho. by apply (perform_slots (terms_at w) c f (fID flow, c)).
  - apply (performs_keep (terms_at w) (fun w => calm c f l (runs (db w))) (has_room c f)); [|done..].
    intros o w' Hg' Ho. by apply (perform_calm (terms_at w) c f (fID flow, c)).
Qed.

(** ** Rates *)
Definition is_trigger (o : op) : Prop :=
  match o with
  | OpStart req => UserStarted req = true -> firstText (qTriggerKind req) "manual" = "manual"%string
  | OpRetry _ _ _ _ => False
  | _ => True
  end.
Definition triggered (m : gmap string AutomationRun) (req : StartRequest) : Prop :=
  UserStarted req = true -> qDryRun req = false -> firstText (qTriggerKind req) "manual" = "manual"%string.

Lemma poses_triggered m o req : is_trigger o -> poses O m o req -> UserStarted req = true -> qDryRun req = false -> firstText (qTriggerKind req) "manual" = "manual"%string.
Proof.
  destruct o; cbn; try done.
  - intros H ->. auto.
  - by intros _ (depth & flow & lines & _ & ->).
  - by intros _ (sc & at_ & ->).
  - by intros _ (d & p & lines & ->).
Qed.

(** C13: whatever triggers arrive, however fast, a flow starts at most [PerMinute] triggered
    runs in any minute and [PerHour] in any hour; runs that a user starts by hand and
    dropped triggers do not count. *)
Theorem rates_kept (os : list op) (w : world) (f : string) (flow : AutomationFlow) :
  tidy w -> flows (db w) !! f = Some flow ->
  (forall i j, (i <= j)%nat -> clock O i <= clock O j) ->
  throughout (fun _ o => is_trigger o) os w ->
  let ok w := rate_ok (clock O) (fCluster flow) f (fLimits flow) (AutoStore.tick w, runs (db w)) in
  ok w -> ok (performs os w).
Proof.
  intros Hw Hf Hmono Hos ok Hok. assert (terms_at w f = Some (fID flow, fCluster flow, fLimits flow)) as HT by (unfold terms_at; by rewrite Hf).
  assert (served O (terms_at w) (fun _ => true) triggered w (performs os w)) as [_ Hsteps].
  { apply performs_served; [by apply tidy_good|]. eapply throughout_mono; [|exact Hos]. intros w' o Ho w'' req _ Hp. intros H1 H2. by eapply poses_triggered. }
  unfold ok. change (rate_ok (clock O) (fCluster flow) f (fLimits flow) (abs (performs os w))). change (ok w) with (rate_ok (clock O) (fCluster flow) f (fLimits flow) (abs w)) in Hok.
  induction Hsteps as [|a b d Hab _ IH]; [done|]. apply IH. eapply srv_rate; [exact HT|done| |done|done]. by intros m req H.
Qed.

(** ** Keys *)


(** ** Chains *)
Definition from_outside (w : world) (o : op) : Prop :=
  match o with
  | OpStart req => qCausedByRun req = ""%string /\ qChainDepth req = 0
  | OpEvent ev => evCausedBy ev = ""%string \/ exists c, runs (db w) !! evCausedBy ev = Some c /\ aCluster c = evCluster ev
  | _ => True
  end.
Definition caused_by_run (m : gmap string AutomationRun) (req : StartRequest) : Prop :=
  (qCausedByRun req = ""%string /\ qChainDepth req = 0) \/
  (exists cause, m !! qCausedByRun req = Some cause /\ aFlow cause <> qFlow req /\ qChainDepth req = ChainDepth cause + 1 /\ qChainDepth req <= MaxChainDepth).

Lemma poses_caused m o req w : (forall k, fails O k = false) -> runs (db w) = m -> from_outside w o -> poses O m o req -> caused_by_run m req.
Proof.
  intros Hno <- Ho Hp. destruct o; cbn in *; try done.
  - subst. by left.
  - destruct Hp as (depth & flow & lines & (Hle & Hd) & ->). unfold caused_by_run. cbn. destruct Hd as [(-> & Hwhy)|(c & Hc & -> & Hne)].
    + left. split; [|done]. destruct Ho as [Ho|(c & Hc & Ec)]; [done|]. destruct Hwhy as [H|[[k H]|H]]; [done|by rewrite Hno in H|]. by destruct (H c Hc).
    + right. by exists c.
  - destruct Hp as (sc & at_ & ->). by left.
  - destruct Hp as (run & d & ->). by left.
  - destruct Hp as (d & p & lines & ->). by left.
Qed.

Lemma caused_grows T w w' req : good T w -> served O T (fun _ => true) caused_by_run w w' -> caused_by_run (runs (db w)) req -> caused_by_run (runs (db w')) req.
Proof.
  intros Hg [_ Hs] [H|(c & Hc & Hf & Hd & Hle)]; [by left|right]. destruct (srvs_grow _ _ _ _ _ _ Hs (g_runs _ _ Hg) _ c Hc) as (c' & Hc' & Hb).
  exists c'. apply birth_eq in Hb as ((_ & _ & E1 & _) & _ & E2 & _). cbn in Hc'. by rewrite E1, E2.
Qed.

(** C15: if the store answers, runs that start each other through events end: no run is
    started by a run of its own flow, and a chain of runs each of which caused the next
    has at most [MaxChainDepth] + 1 runs. *)
Theorem chains_end (os : list op) (w : world) (r : AutomationRun) (l : list AutomationRun) :
  tidy w -> (forall k, fails O k = false) -> throughout from_outside os w -> chained (runs (db w)) ->
  chain (runs (db (performs os w))) (r :: l) ->
  Z.of_nat (length (r :: l)) <= MaxChainDepth + 1 /\
  forall i x y, (r :: l) !! i = Some x -> (r :: l) !! S i = Some y -> aFlow x <> aFlow y.
Proof.
  intros Hw Hno Hos Hch Hc. assert (chained (runs (db (performs os w)))) as Hch'.
  { assert (served O (terms_at w) (fun _ => true) caused_by_run w (performs os w)) as [_ Hsteps].
    { pose proof (tidy_good w Hw) as Hg. generalize (terms_at w), Hg. clear Hg Hw Hch Hc. revert w Hos. induction os as [|o os IH]; intros w Hos T Hg; [by apply keeps_served|].
      destruct Hos as [Ho Hos]. cbn [Service.performs]. assert (served O T (fun _ => true) caused_by_run w (perform o w).2) as Hs.
      { apply perform_served; try done. intros w' req Hs' Hp. eapply caused_grows; [done..|]. by eapply poses_caused. }
      eapply served_trans; [done|]. apply IH; [done|apply Hs]. }
    change (chained (abs (performs os w)).2). change (chained (abs w).2) in Hch. clear Hc. induction Hsteps as [|a b d Hab _ IH]; [done|]. apply IH.
    eapply srv_chained; [|exact Hab|done]. by intros m req H. }
  destruct (chain_depth _ r l Hch' Hc) as [H1 H2]. cbn [length]. split; [lia|done].
Qed.
End safety.

(** ** The demo cluster *)
#[local] Existing Instance ascii_tables.
#[local] Existing Instance ascii_print.
#[local] Existing Instance demo_catalog.

Lemma demo_tidy : tidy demo_world.
Proof. split; [apply demo_keyed|]. intros id r H. cbn in H. by apply lookup_empty_Some in H. Qed.

Definition demo_found (down : nat -> bool) (p : world -> op -> world -> bool) (os : list op) : bool :=
  found (demo_outside down) (fun _ => None) 100 (fun x => x) (fun _ => None) (fun _ => ""%string) (fun _ => ""%string) (fun _ => ""%string) "w" p os demo_world.
Definition small (_ : world) (_ : op) (w : world) : bool := bool_decide (Z.of_nat (size (runs (db w))) <= 500).

Lemma service_refines_witness : tidy (demo_performs never demo_triggers) /\
  rtc (srv (clock (demo_outside never)) (terms_at demo_world) (targeted demo_triggers) (posed (demo_outside never) demo_triggers)) (abs demo_world) (abs (demo_performs never demo_triggers)).
Proof.
  unfold demo_performs.
  exact (service_refines (demo_outside never) (fun _ => None) 100 (fun x => x) (fun _ => None) (fun _ => ""%string) (fun _ => ""%string) (fun _ => ""%string) "w"
    (demo_walk never) (demo_clock never) demo_triggers demo_world demo_tidy).
Defined.

Lemma slots_kept_witness : let m := runs (db (demo_performs never demo_triggers)) in
  active "c" "a" m = 1 /\ queued "c" "a" m = 1 /\ slots "c" "a" demo_limits m /\ calm "c" "a" demo_limits m.
Proof.
  cbv zeta. split; [vm_compute; reflexivity|]. split; [vm_compute; reflexivity|].
  destruct (slots_kept (demo_outside never) (fun _ => None) 100 (fun x => x) (fun _ => None) (fun _ => ""%string) (fun _ => ""%string) (fun _ => ""%string) "w"
    (demo_walk never) (demo_clock never) demo_triggers demo_world "a" (demo_row "a") demo_tidy eq_refl) as [H1 H2].
  - eapply (found_throughout _ _ _ _ _ _ _ _ _ small); [|vm_compute; reflexivity]. intros w o H. apply room_small. by apply bool_decide_eq_true in H.
  - split; [apply H1|apply H2; [done|]]; [split|left]; vm_compute; congruence.
Defined.

Lemma rates_kept_witness :
  let ok := fun w => rate_ok (clock (demo_outside never)) "c" "a" demo_limits (AutoStore.tick w, runs (db w)) in
  rows (counted "c" "a" demo_start) (runs (db (demo_performs never demo_triggers))) = 2 /\ ok demo_world /\ ok (demo_performs never demo_triggers).
Proof.
  intros ok. split; [vm_compute; reflexivity|]. assert (ok demo_world) as H0.
  { split; [intros id r H; cbn in H; by apply lookup_empty_Some in H|]. intros from. by vm_compute. }
  split; [exact H0|].
  refine (rates_kept (demo_outside never) (fun _ => None) 100 (fun x => x) (fun _ => None) (fun _ => ""%string) (fun _ => ""%string) (fun _ => ""%string) "w"
    (demo_walk never) (demo_clock never) demo_triggers demo_world "a" (demo_row "a") demo_tidy eq_refl (demo_clock_mono never) _ H0).
  repeat split; discriminate.
Defined.


(** Events and starts from outside name a run of their cluster, or none. *)
Definition names_cause (w : world) (o : op) (_ : world) : bool :=
  match o with
  | OpStart req => bool_decide (qCausedByRun req = ""%string) && (qChainDepth req =? 0)
  | OpEvent ev => bool_decide (evCausedBy ev = ""%string) ||
                  match runs (db w) !! evCausedBy ev with Some c => bool_decide (aCluster c = evCluster ev) | None => false end
  | _ => true
  end.
Lemma names_cause_ok w o w' : names_cause w o w' = true -> from_outside w o.
Proof.
  destruct o as [req|ev| | | | | | |]; try done; cbn.
  - rewrite andb_true_iff, bool_decide_eq_true, Z.eqb_eq. done.
  - rewrite orb_true_iff, bool_decide_eq_true. intros [?|H]; [by left|right]. destruct (runs (db w) !! evCausedBy ev) as [c|]; [|done].
    exists c. by apply bool_decide_eq_true in H.
Qed.

Lemma demo_chained : chained (runs (db demo_world)).
Proof. intros id r H. cbn in H. by apply lookup_empty_Some in H. Qed.

Lemma chains_end_witness : exists a b, let m := runs (db (demo_performs never demo_chain)) in
  m !! "u6"%string = Some a /\ m !! "u31"%string = Some b /\ chain m [b; a] /\ ChainDepth b = 1 /\
  Z.of_nat (length [b; a]) <= MaxChainDepth + 1 /\ aFlow b <> aFlow a.
Proof.
  set (m := runs (db (demo_performs never demo_chain))).
  destruct (m !! "u6"%string) as [a|] eqn:Ea; [|exfalso; vm_compute in Ea; discriminate].
  destruct (m !! "u31"%string) as [b|] eqn:Eb; [|exfalso; vm_compute in Eb; discriminate].
  assert (CausedByRun <$> m !! "u31"%string = Some "u6"%string) as Hb by (vm_compute; reflexivity). rewrite Eb in Hb. apply (inj Some) in Hb.
  assert (ChainDepth <$> m !! "u31"%string = Some 1) as Hd by (vm_compute; reflexivity). rewrite Eb in Hd. apply (inj Some) in Hd.
  assert (chain m [b; a]) as Hc by (apply (chain_cons m "u31"%string); [done|by rewrite Hb|by rewrite Hb|by apply (chain_one m "u6"%string)]).
  destruct (chains_end (demo_outside never) (fun _ => None) 100 (fun x => x) (fun _ => None) (fun _ => ""%string) (fun _ => ""%string) (fun _ => ""%string) "w"
    (demo_walk never) (demo_clock never) demo_chain demo_world b [a] demo_tidy (fun _ => eq_refl)) as [H1 H2].
  - eapply (found_throughout _ _ _ _ _ _ _ _ _ names_cause); [|vm_compute; reflexivity]. intros w o. apply names_cause_ok.
  - exact demo_chained.
  - exact Hc.
  - exists a, b. exact (conj Ea (conj Eb (conj Hc (conj Hd (conj H1 (H2 0%nat b a eq_refl eq_refl)))))).
Defined.

(** ** Where the limits do not hold *)

(** [Start] takes no lock: a start that was checked before another one, and made after it,
    is a second active run of a flow with one slot. *)
Definition demo_start_run (f id : string) : AutomationRun :=
  newRun (fun x => x) (fun _ => None) (demo_request f "") (demo_row f) demo_def 1 id "" demo_start.
Definition two_starts : M StartResult :=
  let O := demo_outside never in
  '(_, status) ← queueCheck O (demo_request "a" "") (demo_row "a");
  Start O (fun x => x) (fun _ => None) (fun _ => ""%string) (demo_request "a" "") ≫= fun _ =>
  accept_run O (demo_request "a" "") (demo_row "a") (set_status status (demo_start_run "a" "late")) demo_start.
Example two_starts_ex : seen (two_starts demo_world).2 = [("u5", "a", "pending", 0); ("late", "a", "pending", 0)]%string
  /\ Concurrency (FlowLimits (demo_row "a")) = 1.
Proof. vm_compute. done. Qed.

(** A start that found the slot taken and is made after the run in it ended: the new run
    waits although the slot is free, and nothing is left that would start it. *)
Definition one_active : world := (Start (demo_outside never) (fun x => x) (fun _ => None) (fun _ => ""%string) (demo_request "a" "") demo_world).2.
Definition late_queue : M StartResult :=
  let O := demo_outside never in
  '(_, status) ← queueCheck O (demo_request "a" "") (demo_row "a");
  Service.Cancel O (fun _ => ""%string) "w" "c" "u3" "me" ≫= fun _ =>
  accept_run O (demo_request "a" "") (demo_row "a") (set_status status (demo_start_run "a" "late")) demo_start.
Example late_queue_ex : seen (late_queue one_active).2 = [("u3", "a", "cancelled", 0); ("late", "a", "queued", 0)]%string.
Proof. vm_compute. done. Qed.

(** A run that ended between [Cancel]'s check and its lease is cancelled all the same. *)
Definition succeeded_world : world := set_db (set_runs {["r" := demo_ended RunSucceeded]} (db demo_world)) demo_world.
Example cancel_after_success :
  seen succeeded_world = [("r", "a", "succeeded", 0)]%string /\
  seen (cancel_taken (demo_outside never) (fun _ => ""%string) "c" "r" "me" demo_start succeeded_world).2 = [("r", "a", "cancelled", 0)]%string.
Proof. vm_compute. done. Qed.

(** When the read of an event's cause fails, the run that caused the event starts its own
    flow again, at depth 0. *)
Example cause_unread : seen (demo_performs (Nat.eqb 27) demo_chain)
  = [("u31", "a", "queued", 0); ("u17", "b", "pending", 0); ("u6", "a", "pending", 0); ("u42", "b", "queued", 0)]%string.
Proof. vm_compute. done. Qed.

(** A schedule whose flow could not be read is deleted. *)
Definition timed_row : AutomationFlow :=
  mkFlow "a" "c" "flow a" (Some demo_def) 1 true "schedule" "" demo_limits "" 0 "" demo_start 0 false "".
Definition timed_world : world := set_db (set_flows {["a" := timed_row]} (db demo_world)) demo_world.
Definition timed_schedule : AutomationSchedule := mkSchedule "a" "c" "" "" "" (Some demo_start) "".
Example schedule_lost : map (fun down => NextRunAt <$>
    schedules (db (process_schedule (demo_outside down) (fun _ => None) 100 (fun x => x) (fun _ => None) (fun _ => ""%string) demo_start timed_schedule timed_world).2) !! "a"%string)
  [never; Nat.eqb 0] = [Some None; None] /\ Enabled timed_row = true.
Proof. vm_compute. done. Qed.

(** Behind 500 newer rows, which are never deleted, an active run is not counted. *)
Definition old_run (k : nat) : AutomationRun :=
  mkARun (Itoa (Z.of_nat k)) "c" "a" 1 false (AutoRun (if decide (k = 0)%nat then RunWaitingApproval else RunSucceeded)) "event" VNull VNull (Some demo_def) zeroState None
    "" "" "" 0 "" "" "" "" None "" None None None (demo_start + Z.of_nat k).
Definition crowded (n : nat) : world := set_db (set_runs (list_to_map (map (fun k => (aID (old_run k), old_run k)) (seq 0 n))) (db demo_world)) demo_world.
Example crowded_ex : map (fun n => (counts (demo_outside never) "c" "a" (crowded n)).1) [500; 501]%nat = [Ok (1, 0); Ok (0, 0)].
Proof. vm_compute. done. Qed.
