(* ===== verification/ApprovalsSafety.v ===== *)
(** * Nothing unvetted runs

    The theorems on histories of edits and service operations, and small histories that
    are computed: the usual way of a dangerous flow, and the ways around an approval. *)
From S2P Require Export ApprovalsProps ServiceDemo.
From S2P Require Import FlowDef Trigger Value GoText GoNum Rbac Steps Validate Access Engine ServiceProps ServiceDemo Approvals Service AutoStore AutoStoreProps.

#[local] Existing Instance ascii_tables.
#[local] Existing Instance ascii_print.

Section safety.
Context {CT : CaseTables} {PT : PrintTables} (reg : Registry).
Context (O : outside) (LoadLocation : string -> option Location) (cronFuel : nat).
Context (redactText : string -> string) (jsonLen : value -> option Z) (digest : Definition_ -> string).
Context (message_text : message -> string) (error_text : svcError -> string) (Owner : string).
Context (feature : nat -> bool) (reaches : nat -> nat -> string -> bool) (A : Store) (may : creators).
Context (walk_perm : forall B n l, AutoStore.walk O B n l ≡ₚ l).
Notation acts := (acts reg O LoadLocation cronFuel redactText jsonLen digest message_text error_text Owner feature reaches A may).
Notation vetted := (vetted reg O LoadLocation cronFuel redactText jsonLen digest message_text error_text Owner feature reaches A may).
Notation published := (published reg O LoadLocation cronFuel redactText jsonLen digest message_text error_text Owner feature reaches A may).

(** Whether every request is by people below SuperAdmin, and none makes a policy. *)
Definition below_owner (a : act) : Prop :=
  match a with
  | Edit (EPublish _ p _ _ _) | Edit (EDecide _ _ p _ _ _ _) => isOwner p = false
  | Edit (EPolicy _ _ _ _) => False
  | _ => True
  end.

Lemma below_published w0 os f g d p : Forall below_owner os -> published w0 os f g d p -> isOwner p = false.
Proof using Type.
  intros Hos (pre & post & c & q & u & r & -> & Hq & _). apply require_here in Hq as ->. apply Forall_app in Hos as [_ Hos]. by inversion Hos.
Qed.


End safety.

(** ** A demo: the guard's view of the world, two admins and an owner *)
Definition demo_reaches (_ _ : nat) (url : string) : bool := bool_decide (url = "https://nodal.local/api"%string).
Definition demo_access : Store := Access.mkStore [] ∅ ∅ ∅ ∅ ∅ ∅ "" ∅ [].
Definition demo_creators : creators := mkCreators [Admin] "".
Definition demo_user (id role : string) : principal :=
  mkPrincipal id [role] [PolicyApply; ApprovalsDecide; AutomationSkipTest] false [].
Definition ann : principal := demo_user "ann" Admin.
Definition bob : principal := demo_user "bob" Admin.
Definition root_owner : principal := demo_user "olga" SuperAdmin.

Definition empty_world : world := mkW 0 (AutoStore.mkStore ∅ ∅ ∅ ∅ ∅ []) ∅ ∅ ∅ [].
Lemma empty_blank : blank empty_world.
Proof. by split. Qed.
Definition demo_digest (d : Definition_) : string := "h" +:+ Itoa (Z.of_nat (length (Nodes d))).
Definition demo_acts (os : list act) : world :=
  acts (registerAutomationNodes NewRegistry) (demo_outside never) (fun _ => None) 100 (fun x => x) (fun _ => None) demo_digest (fun _ => ""%string) (fun _ => ""%string) "w"
    (fun _ => true) demo_reaches demo_access demo_creators empty_world os.
Definition demo_status (os : list act) (e : edit) : option Z :=
  match handle (registerAutomationNodes NewRegistry) (demo_outside never) (fun _ => None) 100 demo_digest "w" (fun _ => true) demo_reaches demo_access demo_creators e (demo_acts os) with
  | (Ok s, _) => Some s | (Err _, _) => None
  end.

Definition script_flow : Definition_ :=
  mkDefinition 1 (mkTrigger TriggerID TriggerManual []) [mkNode "s" "ndl.script.run" [("script", VStr "x")] None "" 0] [mkEdge TriggerID "s" ""] None None ∅%string.
Definition create : act := Edit (ECreate "c" ann (mkBody (Some "flow") (Some (Some script_flow)) None None))%string.
Definition publish (p : principal) : act := Edit (EPublish "c" p "ann" "u2" "tested by hand")%string.
Definition decision (a : bool) (p : principal) : act := Edit (EDecide a "c" p "bob" "u2" 1 "")%string.
Definition start : act := Serve (OpStart (mkStart "c" "u2" "manual" [] [] "" "" "" "" 0 "" true false false None 0 [])%string).
Definition live (w : world) : list (string * option Definition_) :=
  map (fun p : string * AutomationRun => (aFlow p.2, aDefinition p.2)) (List.filter (fun p => negb (aDry p.2)) (map_to_list (runs (db w)))).

(** The usual way: what ann publishes waits, a run before the approval finds nothing
    published, ann may not approve it herself, and bob may. *)
Definition usual_way : list act := [create; publish ann; start; decision true ann; decision true bob; start].
Example usual_way_ex :
  live (demo_acts (firstn 4 usual_way)) = [] /\ live (demo_acts usual_way) = [("u2", Some script_flow)]%string.
Proof. split; vm_compute; reflexivity. Qed.

Definition demo_runs (os : list act) : list (string * AutomationRun) := map_to_list (runs (db (demo_acts os))).
Lemma demo_live os r : In r (demo_runs os) -> runs (db (demo_acts os)) !! r.1 = Some r.2.
Proof. destruct r as [id r]. intros H%list_elem_of_In. by apply elem_of_map_to_list in H. Qed.

(** The first live run of a history. *)
Definition first_run (os : list act) : string * AutomationRun :=
  match demo_runs os with r :: _ => r | [] => ("", newRun (fun x => x) (fun _ => None) (demo_request "" "") (demo_row "") demo_def 0 "" "" 0)%string end.
Definition runs_script (os : list act) : bool :=
  let r := (first_run os).2 in
  negb (aDry r) && bool_decide (aFlow r = "u2"%string) && match demo_runs os with [_] => true | _ => false end &&
  match aDefinition r with Some d => bool_decide (nType <$> Nodes d = ["ndl.script.run"%string]) | None => false end.
Lemma first_run_row os : runs_script os = true -> runs (db (demo_acts os)) !! (first_run os).1 = Some (first_run os).2.
Proof.
  intros H. apply demo_live. unfold runs_script, first_run in *. destruct (demo_runs os) as [|r l]; [by rewrite andb_false_r in H|]. by left.
Qed.
Notation demo_history := (ApprovalsProps.acts (registerAutomationNodes NewRegistry) (demo_outside never) (fun _ => None) 100 (fun x => x) (fun _ => None) demo_digest (fun _ => ""%string)
  (fun _ => ""%string) "w" (fun _ => true) demo_reaches demo_access demo_creators empty_world).
Lemma first_run_history os : runs_script os = true -> runs (db (demo_history os)) !! (first_run os).1 = Some (first_run os).2.
Proof. exact (first_run_row os). Qed.
Lemma first_run_live os : runs_script os = true -> aDry (first_run os).2 = false /\ aFlow (first_run os).2 = "u2"%string.
Proof.
  unfold runs_script. cbv zeta. intros H. apply andb_prop in H as [H _]. apply andb_prop in H as [H _]. apply andb_prop in H as [H1%negb_true_iff H2%bool_decide_eq_true].
  by split.
Qed.
Lemma usual_way_runs : runs_script usual_way = true.
Proof. vm_compute. reflexivity. Qed.
Lemma usual_way_def : aDefinition (first_run usual_way).2 = Some script_flow.
Proof. vm_compute. reflexivity. Qed.
Lemma usual_way_ordinary : Forall ordinary usual_way.
Proof. repeat constructor. Qed.
Lemma usual_way_below : Forall below_owner usual_way.
Proof. repeat constructor. Qed.
Lemma script_protected : forall k, protectedSteps (demo_reaches k) script_flow <> [].
Proof. intros k. vm_compute. discriminate. Qed.



(** ** Ways around *)

(** A user who may apply policies but not create automations makes a policy of the kind
    that runs a saved script: its flow runs at once, unapproved. *)
Definition carl : principal := mkPrincipal "carl" ["Operator"%string] [PolicyApply; PolicyRun] false [].
Definition make_policy : act := Edit (EPolicy "c" carl "nightly" (mkPolicySpec KindDockerScript 0 "" false "x"))%string.
Definition start_flow (id : string) : act := Serve (OpStart (mkStart "c" id "manual" [] [] "" "" "" "" 0 "" true false false None 0 [])%string).
Example policy_unapproved :
  mayCreateAutomations demo_access demo_creators carl = false /\
  map (fun r => (r.1, (fun d => nType <$> Nodes d) <$> r.2)) (live (demo_acts [make_policy; start_flow "u5"%string])) = [("u5", Some ["ndl.script.run"])]%string.
Proof. split; vm_compute; reflexivity. Qed.

(** Approving and denying clear the taint of a draft that someone below SuperAdmin wrote: a
    SuperAdmin who publishes it again gets an exempt version. *)
Definition exempt_versions (os : list act) : list (string * bool * bool) :=
  map (fun p => (p.1, NeedsApproval p.2, Exempt p.2)) (map_to_list (versions (db (demo_acts os)))).
Example taint_cleared :
  exempt_versions [create; publish ann; decision true bob; publish root_owner] = [("u2#1", true, false); ("u2#2", false, true)]%string.
Proof. vm_compute. reflexivity. Qed.

(** Publishing does not clear the taint. *)
Example taint_kept :
  (fun f => (PublishedVersion f, PendingVersion f, DraftTainted f)) <$> flows (db (demo_acts [create; publish ann])) !! "u2"%string = Some (0, 1, true).
Proof. vm_compute. reflexivity. Qed.

(** The exemption of a run's calls of this API is that of the version published now, not of
    the version the run has: a run of version 1, which is not exempt, may call it when it
    is retried after a SuperAdmin published version 2. *)
Definition own_call_refused (os : list act) : result svcError bool :=
  (selfTargetAtRun (demo_outside never) demo_reaches "c" "u2" "https://nodal.local/api" (demo_acts os)).1.
Definition first_version : list act := [create; publish ann; decision true bob; start].
Definition old_run : string := (first_run first_version).1.
Definition retried : list act := first_version ++ [Serve (OpCancel "c" old_run "bob"); publish root_owner; Serve (OpRetry "c" old_run "" "ann")]%string.
Example exemption_of_another_version :
  own_call_refused first_version = Ok true /\ own_call_refused retried = Ok false /\
  map (fun p => (aVersion p.2, status_text (aStatus p.2))) (demo_runs retried) = [(1, "cancelled"); (1, "pending")]%string.
Proof. split_and!; vm_compute; reflexivity. Qed.
