(* ===== verification/Paths.v ===== *)
(** * Go's packages [path] and [path/filepath] on Unix

    Cleaning, joining and taking apart of paths, and the view of a clean path as the list
    of its names. *)
From S2P Require Export GoText.

Definition slash : ascii := "/"%char.

Definition clean_step (rooted : bool) (stack : list string) (seg : string) : list string :=
  if decide (seg = "" \/ seg = ".")%string then stack
  else if decide (seg = "..")%string then
    match stack with
    | top :: rest => if decide (top = "..")%string then seg :: stack else rest
    | [] => if rooted then [] else [seg]
    end
  else seg :: stack.

Fixpoint join (l : list string) : string :=
  match l with [] => "" | [s] => s | s :: l => s +:+ "/" +:+ join l end.
Definition abs (l : list string) : string := "/" +:+ join l.

Definition Clean (p : string) : string :=
  let rooted := HasPrefix p "/" in
  let names := rev (fold_left (clean_step rooted) (Split p slash) []) in
  if rooted then abs names else match names with [] => "." | _ => join names end.

Fixpoint Join (l : list string) : string :=
  match l with [] => "" | s :: l' => if decide (s = ""%string) then Join l' else Clean (join l) end.

Definition IsAbs (p : string) : bool := HasPrefix p "/".

(** Up to and including the last slash, and after it. *)
Definition last_slash (p : string) : nat := match LastIndex p "/" with Some i => S i | None => 0 end.
Definition Dir (p : string) : string := Clean (ofBytes (take (last_slash p) (bytes p))).

Fixpoint drop_slashes (l : list ascii) : list ascii :=
  match l with a :: l' => if Ascii.eqb a slash then drop_slashes l' else l | [] => [] end.
Definition Base (p : string) : string :=
  if decide (p = ""%string) then "."
  else let q := ofBytes (rev (drop_slashes (rev (bytes p)))) in
       let b := ofBytes (drop (last_slash q) (bytes q)) in
       if decide (b = ""%string) then "/" else b.

(** From the last dot of the last name. *)
Definition Ext (p : string) : string :=
  let name := drop (last_slash p) (bytes p) in
  match last_indexb ["."%char] name 0 with Some i => ofBytes (drop i name) | None => "" end.

Example Clean_ex : map Clean [""; "/"; "/."; "a//b/./c/"; "/../a/../b"; "../../a/../b"; "./x"; "/a/b/"]%string
  = ["."; "/"; "/"; "a/b/c"; "/b"; "../../b"; "x"; "/a/b"]%string.
Proof. vm_compute. reflexivity. Qed.
Example parts_ex : map (fun p => (Dir p, Base p, Ext p)) ["/a/b.tar.gz"; "x"; "a/.env"; "/"; "a/b/"; "a.d/f"]%string
  = [("/a", "b.tar.gz", ".gz"); (".", "x", ""); ("a", ".env", ".env"); ("/", "/", ""); ("a/b", "b", ""); ("a.d", "f", "")]%string.
Proof. vm_compute. reflexivity. Qed.
Example Join_ex : map Join [["/x"; "a/b"]; [""; "a"]; ["/"; "a"]; ["/x"; ""]; ["a"; "../.."]]%string = ["/x/a/b"; "a"; "/a"; "/x"; ".."]%string.
Proof. vm_compute. reflexivity. Qed.

(** ** Clean paths as lists of names *)
Definition plain (s : string) : Prop := slash ∉ bytes s /\ s <> ""%string /\ s <> "."%string /\ s <> ".."%string.

#[export] Instance plain_dec s : Decision (plain s).
Proof. unfold plain. apply _. Defined.

(** Every name closed by a slash. *)
Definition closed (l : list string) : list ascii := concat (map (fun s => bytes s ++ [slash]) l).

Lemma closed_app a b : closed (a ++ b) = closed a ++ closed b.
Proof. unfold closed. by rewrite map_app, concat_app. Qed.
Lemma bytes_join l : l <> [] -> bytes (join l) ++ [slash] = closed l.
Proof.
  induction l as [|s l IH]; [done|]. intros _. destruct l as [|t l]; [unfold closed; cbn; by rewrite app_nil_r|].
  change (join (s :: t :: l)) with (s +:+ "/" +:+ join (t :: l)). rewrite !bytes_app. change (closed (s :: t :: l)) with ((bytes s ++ [slash]) ++ closed (t :: l)).
  rewrite <- IH by done. by rewrite <- !app_assoc.
Qed.

(** Two names that are closed agree, and so does what follows. *)
Lemma closed_cancel s t x y : slash ∉ bytes s -> slash ∉ bytes t -> bytes s ++ slash :: x = bytes t ++ slash :: y -> s = t /\ x = y.
Proof.
  intros Hs Ht H. enough (bytes s = bytes t /\ x = y) as [E ?] by (split; [by apply bytes_inj|done]).
  revert Hs Ht H. generalize (bytes s) (bytes t). clear s t. intros s. induction s as [|a s IH]; intros [|b t] Hs Ht H; cbn in H.
  - by injection H.
  - injection H as E _. exfalso. apply Ht. rewrite <- E. by left.
  - injection H as E _. exfalso. apply Hs. rewrite E. by left.
  - injection H as -> H. destruct (IH t) as [-> ->]; [..|done].
    + intros Hin. apply Hs. by right.
    + intros Hin. apply Ht. by right.
    + done.
Qed.

Lemma closed_prefix a b : Forall plain a -> Forall plain b -> (exists r, closed b = closed a ++ r) <-> a `prefix_of` b.
Proof.
  intros Ha Hb. split.
  - revert b Hb. induction Ha as [|s a [Hs _] Ha IH]; intros b Hb [r Hr]; [apply prefix_nil|].
    destruct Hb as [|t b [Ht _] Hb]; [exfalso; cbn in Hr; by destruct (bytes s)|].
    change (closed (t :: b)) with ((bytes t ++ [slash]) ++ closed b) in Hr. change (closed (s :: a)) with ((bytes s ++ [slash]) ++ closed a) in Hr.
    rewrite <- !app_assoc in Hr. cbn in Hr. apply closed_cancel in Hr as [-> Hr]; [|done..]. apply prefix_cons, IH; [done|by exists r].
  - intros [r ->]. rewrite closed_app. by eexists.
Qed.

Lemma join_nonempty a : Forall plain a -> a <> [] -> join a <> ""%string.
Proof. intros [|s l [_ [Hs _]] _] Hn; [done|]. destruct s as [|c s]; [done|]. by destruct l. Qed.
Lemma closed_inj a b : Forall plain a -> Forall plain b -> closed a = closed b -> a = b.
Proof. intros Ha Hb E. apply (anti_symm prefix); (apply closed_prefix; [done..|]; exists []; by rewrite app_nil_r). Qed.
Lemma join_names_inj a b : Forall plain a -> Forall plain b -> join a = join b -> a = b.
Proof.
  intros Ha Hb H. apply closed_inj; [done..|]. destruct a as [|s a], b as [|t b]; [done|..].
  - by destruct (join_nonempty (t :: b)).
  - by destruct (join_nonempty (s :: a)).
  - by rewrite <- !bytes_join, H.
Qed.

(** A path lies at or below another one. *)
Definition under (p q : string) : bool := bool_decide (q = p) || HasPrefix q (p +:+ "/").

Lemma under_join a b : Forall plain a -> Forall plain b -> a <> [] -> b <> [] -> under (join a) (join b) = true <-> a `prefix_of` b.
Proof.
  intros Ha Hb Hna Hnb. unfold under. rewrite orb_true_iff, bool_decide_eq_true, HasPrefix_spec, bytes_app. change (bytes "/") with [slash].
  rewrite <- closed_prefix, bytes_join by done. rewrite <- (bytes_join b) by done. split.
  - intros [H|[r H]]; [exists []; by rewrite H, bytes_join, app_nil_r by done|]. exists (r ++ [slash]). rewrite H. by rewrite app_assoc.
  - intros [r H]. destruct r as [|c r _] using rev_ind.
    + left. rewrite app_nil_r, bytes_join in H by done. f_equal. by apply closed_inj.
    + right. exists r. rewrite app_assoc in H. by apply app_inj_tail in H as [-> _].
Qed.

Lemma under_abs a b : Forall plain a -> Forall plain b -> a <> [] -> under (abs a) (abs b) = true <-> a `prefix_of` b.
Proof.
  intros Ha Hb Hn. assert (under (abs a) (abs b) = under (join a) (join b)) as ->.
  { unfold under, abs. change (("/" +:+ join a) +:+ "/") with ("/" +:+ (join a +:+ "/")). unfold HasPrefix. cbn [bytes].
    f_equal. apply bool_decide_ext. split; [intros [= E]; exact E|intros E; by rewrite E]. }
  destruct b as [|t b]; [|by apply under_join]. split.
  - unfold under. rewrite orb_true_iff, bool_decide_eq_true, HasPrefix_spec. intros [H|[r H]].
    + by destruct (join_nonempty a).
    + rewrite bytes_app in H. symmetry in H. apply app_eq_nil in H as [H _]. by apply app_eq_nil in H as [_ ?].
  - by intros ->%prefix_nil_inv.
Qed.

(** ** Cleaning clean paths *)
Lemma clean_steps rooted l acc : Forall plain l -> fold_left (clean_step rooted) l acc = rev l ++ acc.
Proof.
  intros Hl. revert acc. induction Hl as [|s l (_ & H1 & H2 & H3) Hl IH]; intros acc; [done|]. cbn [fold_left rev].
  rewrite IH, <- app_assoc. unfold clean_step. rewrite decide_False by naive_solver. by rewrite decide_False.
Qed.

Lemma Split_join l : Forall plain l -> l <> [] -> Split (join l) slash = l.
Proof.
  intros Hl Hn. unfold Split. induction Hl as [|s l [Hs _] Hl IH]; [done|]. destruct l as [|t l].
  - cbn [join]. rewrite splitb_last by done. cbn. by rewrite ofBytes_bytes.
  - change (join (s :: t :: l)) with (s +:+ "/" +:+ join (t :: l)). rewrite !bytes_app. change (bytes "/") with [slash]. cbn [app].
    rewrite splitb_app by done. cbn [map rev app]. rewrite ofBytes_bytes. f_equal. by apply IH.
Qed.
Lemma Split_abs l : Forall plain l -> l <> [] -> Split (abs l) slash = ""%string :: l.
Proof. intros Hl Hn. unfold Split, abs. change (bytes ("/" +:+ join l)) with (slash :: bytes (join l)). cbn. f_equal. by apply Split_join. Qed.

Lemma join_no_slash l : Forall plain l -> HasPrefix (join l) "/" = false.
Proof.
  intros [|s l' (Hs & Hn & _) _]; [done|]. destruct s as [|c s]; [done|]. unfold HasPrefix.
  assert (exists r, bytes (join (String c s :: l')) = c :: r) as [r ->] by (destruct l'; by eexists).
  change (Ascii.eqb slash c && true = false). destruct (Ascii.eqb_spec slash c) as [<-|]; [|done]. exfalso. apply Hs. cbn. left.
Qed.

Lemma Clean_abs l : Forall plain l -> Clean (abs l) = abs l.
Proof.
  intros Hl. unfold Clean. change (HasPrefix (abs l) "/") with true. cbv zeta iota. destruct l as [|s l]; [done|].
  rewrite Split_abs by done. change (fold_left (clean_step true) (""%string :: s :: l) []) with (fold_left (clean_step true) (s :: l) []).
  rewrite clean_steps by done. by rewrite app_nil_r, rev_involutive.
Qed.
Lemma Clean_join l : Forall plain l -> l <> [] -> Clean (join l) = join l.
Proof.
  intros Hl Hn. unfold Clean. rewrite join_no_slash by done. cbv zeta iota. rewrite Split_join, clean_steps, app_nil_r, rev_involutive by done. by destruct l.
Qed.

Lemma append_assoc (a b c : string) : (a +:+ b) +:+ c = a +:+ (b +:+ c).
Proof. apply bytes_inj. rewrite !bytes_app. by rewrite <- app_assoc. Qed.
Lemma join_app a b : a <> [] -> b <> [] -> join (a ++ b) = join a +:+ "/" +:+ join b.
Proof.
  intros Ha Hb. induction a as [|s a IH]; [done|]. destruct a as [|t a].
  - cbn [app]. by destruct b.
  - change (join ((s :: t :: a) ++ b)) with (s +:+ "/" +:+ join ((t :: a) ++ b)). rewrite IH by done.
    change (join (s :: t :: a)) with (s +:+ "/" +:+ join (t :: a)). by rewrite !append_assoc.
Qed.
Lemma Join_abs a b : Forall plain a -> Forall plain b -> a <> [] -> b <> [] -> Join [abs a; join b] = abs (a ++ b).
Proof.
  intros Ha Hb Hna Hnb. cbn [Join]. rewrite decide_False by done. change (join [abs a; join b]) with ("/" +:+ (join a +:+ "/" +:+ join b)).
  rewrite <- join_app by done. apply Clean_abs. by apply Forall_app.
Qed.

Lemma split_closed l : Forall plain l -> map ofBytes (splitb slash (closed l) []) = l ++ [""%string].
Proof.
  induction 1 as [|s l [Hs _] Hl IH]; [done|]. change (closed (s :: l)) with ((bytes s ++ [slash]) ++ closed l). rewrite <- app_assoc. cbn [app].
  rewrite splitb_app by done. cbn [map rev app]. rewrite ofBytes_bytes. f_equal. exact IH.
Qed.
Lemma Clean_closed l : Forall plain l -> l <> [] -> Clean (abs l +:+ "/") = abs l.
Proof.
  intros Hl Hn. unfold Clean. change (HasPrefix (abs l +:+ "/") "/") with true. cbv zeta iota. f_equal.
  unfold Split, abs. rewrite bytes_app. change (bytes ("/" +:+ join l)) with (slash :: bytes (join l)). change (bytes "/") with [slash].
  cbn [app]. rewrite bytes_join by done. change (splitb slash (slash :: closed l) []) with (rev [] :: splitb slash (closed l) []). cbn [map rev].
  rewrite split_closed by done. change (fold_left (clean_step true) (ofBytes [] :: l ++ [""%string]) []) with (fold_left (clean_step true) (l ++ [""%string]) []).
  rewrite fold_left_app, (clean_steps true l) by done. change (fold_left (clean_step true) [""%string] (rev l ++ [])) with (rev l ++ []). by rewrite app_nil_r, rev_involutive.
Qed.

(** What is cleaned from the root on is clean. *)
Lemma Clean_rooted p : HasPrefix p "/" = true -> exists l, Forall plain l /\ Clean p = abs l.
Proof.
  intros Hp. unfold Clean. rewrite Hp. cbv zeta iota. eexists. split; [|reflexivity]. apply Forall_rev.
  assert (Forall (fun s => slash ∉ bytes s) (Split p slash)) as Hs.
  { unfold Split. apply Forall_map. generalize (bytes p). intros l. assert (slash ∉ @nil ascii) as H by apply not_elem_of_nil. revert H.
    generalize (@nil ascii). induction l as [|a l IH]; intros acc Ha; cbn [splitb].
    - constructor; [|constructor]. rewrite bytes_ofBytes. by rewrite list_elem_of_In, <- in_rev, <- list_elem_of_In.
    - destruct (Ascii.eqb_spec a slash) as [->|Hn]; [constructor; [by rewrite bytes_ofBytes, list_elem_of_In, <- in_rev, <- list_elem_of_In|apply IH, not_elem_of_nil]|].
      apply IH. by apply not_elem_of_cons. }
  assert (forall acc, Forall plain acc -> Forall plain (fold_left (clean_step true) (Split p slash) acc)) as H; [|by apply H].
  induction Hs as [|s l Hs Hl IH]; intros acc Ha; [done|]. cbn [fold_left]. apply IH. unfold clean_step. case_decide as H1; [done|]. case_decide as H2.
  - destruct Ha as [|t acc (_ & _ & _ & Ht) Ha]; [done|]. by rewrite decide_False.
  - constructor; [|done]. split_and!; [done|naive_solver..].
Qed.
