(* ===== verification/Capture.v ===== *)
(** * What a capture keeps ([src/internal/backup/engine.go], [src/internal/backuphost/rules.go])

    A capture walks the files of a workload and keeps those its lists of included and
    excluded paths leave in.  The lists come from the scope of the policy ([Scope]) and
    from the rules a workload carries.  A directory is the list of its entries in the order
    the walk reads them. *)
From S2P Require Export Paths.

Inductive entry :=
  | Regular (size : Z)
  | Special (to_dir : bool)              (** a link or device; whether it leads to a directory *)
  | Folder (kids : list (string * entry)).
Definition is_folder (e : entry) : bool := match e with Folder _ => true | _ => false end.

(** ** Paths that are listed *)
Definition under_root (root p : string) : bool := bool_decide (p = root) || HasPrefix p (root +:+ "/").
Definition host_path (root p : string) : string :=
  if IsAbs p then let p := Clean p in if under_root root p then p else Join [root; TrimPrefix p "/"]
  else Join [root; Clean p].
Fixpoint add_new (seen l : list string) : list string :=
  match l with [] => [] | p :: l => if bool_decide (p ∈ seen) then add_new seen l else p :: add_new (p :: seen) l end.
Definition normalizeCapturePaths (source : string) (paths : list string) : list string :=
  add_new [] (map (host_path (Clean source)) (filter (fun p => p <> ""%string) (map TrimSpace paths))).

(** ** The decision *)
Definition matches (path rel p : string) : bool :=
  bool_decide (path = p) || bool_decide (rel = p) || HasPrefix path (p +:+ "/") ||
  (bool_decide (rel <> "."%string) && HasPrefix rel (TrimPrefix p "/" +:+ "/")).
Definition len (s : string) : Z := Z.of_nat (length (bytes s)).
Definition longestMatch (path rel : string) (l : list string) : Z :=
  fold_left (fun best p => if matches path rel p && (best <? len p) then len p else best) l (-1).
Definition pathMayContain (path rel : string) (includes : list string) : bool :=
  existsb (fun p => HasPrefix p (path +:+ "/") || (bool_decide (rel <> "."%string) && HasPrefix p (Join [Dir path; rel] +:+ "/"))) includes.

(** Whether the entry is skipped, and whether with all below it. *)
Definition captureSkip (path rel : string) (isDir : bool) (includes excludes : list string) : bool * bool :=
  let le := longestMatch path rel excludes in
  let li := longestMatch path rel includes in
  if (0 <=? le) && (li <=? le) then if isDir && pathMayContain path rel includes then (false, false) else (true, isDir)
  else if bool_decide (includes = []) || (0 <=? li) then (false, false)
  else if isDir && pathMayContain path rel includes then (false, false)
  else (true, isDir).

(** The loop of [Captured] over the parts of a path. *)
Fixpoint captured_loop (source : string) (incl excl done_ todo : list string) : bool :=
  match todo with
  | [] => true
  | name :: todo =>
      let r := Join (done_ ++ [name]) in
      let isDir := bool_decide (todo <> []) in
      let '(skip, skipDir) := captureSkip (Join [Clean source; r]) r isDir incl excl in
      if (isDir && skip && skipDir) || (negb isDir && skip) then false else captured_loop source incl excl (done_ ++ [name]) todo
  end.
Definition Captured (source rel : string) (includes excludes : list string) : bool :=
  captured_loop source (normalizeCapturePaths source includes) (normalizeCapturePaths source excludes) [] (Split (TrimPrefix rel "/") slash).

(** The walk of [Engine.Capture]: the entries it keeps, by their paths below the source. *)
Definition below (rel name : string) : string := if decide (rel = ""%string) then name else rel +:+ "/" +:+ name.
Fixpoint capture_entry (incl excl : list string) (path rel : string) (e : entry) : list (string * entry) :=
  let '(skip, skipDir) := captureSkip (Clean path) rel (is_folder e) incl excl in
  let kept := if skip then [] else [(rel, e)] in
  match e with
  | Folder kids => if skipDir then kept else kept ++ concat (map (fun k => capture_entry incl excl (Join [path; k.1]) (below rel k.1) k.2) kids)
  | _ => kept
  end.
Definition capture (source : string) (includes excludes : list string) (kids : list (string * entry)) : list (string * entry) :=
  let incl := normalizeCapturePaths source includes in
  let excl := normalizeCapturePaths source excludes in
  concat (map (fun k => capture_entry incl excl (Join [source; k.1]) k.1 k.2) kids).

(** ** The rules of a workload *)
Definition RulesPath : string := "/.ndl-backup/rules.json".
Record WorkloadRules := mkRules { Skip : list string; Keep : list string }.

Inductive rule_error := NotAbsolute (p : string) | SkipsAll | Both (p : string).
Definition nul : string := String (chr 0) "".

Fixpoint clean_loop (allowRoot : bool) (l : list string) : result rule_error (list string) :=
  match l with
  | [] => Ok []
  | p :: l =>
      let p := TrimSpace p in
      if decide (p = ""%string) then clean_loop allowRoot l
      else if negb (HasPrefix p "/") || Contains p nul then Err (NotAbsolute p)
      else
        let p := Clean p in
        if decide (p = "/"%string) then if allowRoot then q ← clean_loop allowRoot l; Ok (p :: q) else Err SkipsAll
        else if bool_decide (p = Dir RulesPath) || HasPrefix p (Dir RulesPath +:+ "/") then clean_loop allowRoot l
        else q ← clean_loop allowRoot l; Ok (p :: q)
  end.
Definition cleanGuestPaths (l : list string) (allowRoot : bool) : result rule_error (list string) :=
  q ← clean_loop allowRoot l; Ok (sortStrings (add_new [] q)).

Definition NormalizeRules (r : WorkloadRules) : result rule_error WorkloadRules :=
  skip ← cleanGuestPaths (Skip r) false;
  keep ← cleanGuestPaths (Keep r) true;
  match filter (fun p => p ∈ keep) skip with
  | p :: _ => Err (Both p)
  | [] => Ok (mkRules skip keep)
  end.

Definition applyRules (includes excludes : list string) (r : WorkloadRules) : list string * list string :=
  (match Keep r with [] => includes | _ => (match includes with [] => ["/"%string] | _ => includes end) ++ Keep r end, excludes ++ Skip r).

(** The rule that holds for a path in the listing of a workload's files. *)
Inductive rule := keep_rule | skip_rule.
#[export] Instance rule_eq_dec : EqDecision rule.
Proof. solve_decision. Defined.
Definition rule_step (p : string) (kind : rule) (st : option rule * Z * option rule) (q : string) : option rule * Z * option rule :=
  let '(own, best, effective) := st in
  let own := if decide (q = p) then Some kind else own in
  if (bool_decide (q = p) || bool_decide (q = "/"%string) || HasPrefix p (q +:+ "/")) && (best <? len q) then (own, len q, Some kind)
  else (own, best, effective).
Definition ruleFor (p : string) (r : WorkloadRules) : option rule * option rule :=
  let '(own, _, effective) := fold_left (rule_step p skip_rule) (Skip r) (fold_left (rule_step p keep_rule) (Keep r) (None, -1, None)) in
  (own, effective).
