(* ===== verification/CaptureProps.v ===== *)
(** * A capture looks at each file on its own

    The walk of a capture leaves whole directories out; it keeps exactly the files for
    which the most specific listed path is an included one.  With a workload's rules, what
    the listing of its files says is what a full capture does. *)
From stdpp Require Import sorting.
From S2P Require Export Capture.

(** ** Texts of paths *)
Lemma len_bytes s : len s = Z.of_nat (length (bytes s)).
Proof. done. Qed.
Lemma len_abs_app a b : a <> [] -> b <> [] -> len (abs a) < len (abs (a ++ b)).
Proof.
  intros Ha Hb. unfold len, abs. rewrite join_app by done. rewrite !bytes_app, !length_app. change (length (bytes "/")) with 1%nat. lia.
Qed.
Lemma len_prefix a b : a <> [] -> a `prefix_of` b -> (len (abs a) <= len (abs b)) /\ (len (abs b) <= len (abs a) -> b = a).
Proof.
  intros Ha [r ->]. destruct r as [|s r]; [rewrite app_nil_r; split; [lia|done]|]. pose proof (len_abs_app a (s :: r) Ha ltac:(done)). split; lia.
Qed.

Lemma TrimPrefix_abs a : TrimPrefix (abs a) "/" = join a.
Proof. apply bytes_inj. by apply (bytes_TrimPrefix _ _ (bytes (join a))). Qed.

Lemma dot_plain a : Forall plain a -> join a <> "."%string.
Proof.
  intros Ha E. destruct a as [|s [|t a]]; [done|..].
  - inversion Ha as [|? ? (_ & _ & H & _)]. done.
  - inversion Ha as [|? ? (_ & Hn & _) Ha']; subst. inversion Ha' as [|? ? (_ & Ht & _) _]; subst.
    change (join (s :: t :: a)) with (s +:+ "/" +:+ join (t :: a)) in E. apply (f_equal bytes) in E. rewrite !bytes_app in E. destruct s as [|c s]; [done|].
    apply (f_equal length) in E. rewrite !length_app in E. cbn in E. lia.
Qed.

Lemma elem_add_new (p : string) (l seen : list string) : p ∈ add_new seen l <-> p ∈ l /\ p ∉ seen.
Proof.
  revert seen. induction l as [|q l IH]; intros seen; cbn [add_new]; [split; [by intros ?%elem_of_nil|by intros [?%elem_of_nil _]]|].
  case_bool_decide; [rewrite IH, elem_of_cons; naive_solver|]. rewrite !elem_of_cons, IH, elem_of_cons. destruct (decide (p = q)); naive_solver.
Qed.

(** *** Trees *)
Lemma entry_ind' (P : entry -> Prop) : (forall n, P (Regular n)) -> (forall b, P (Special b)) ->
  (forall kids, Forall (fun k : string * entry => P k.2) kids -> P (Folder kids)) -> forall e, P e.
Proof.
  intros H1 H2 H3. fix F 1. intros [n|b|kids]; [apply H1|apply H2|]. apply H3. induction kids as [|[s k] kids IH]; constructor; [apply F|exact IH].
Qed.

(** The files of a tree, with the names on the way, and trees whose names are plain. *)
Fixpoint leaves (x : list string) (e : entry) : list (list string * entry) :=
  match e with Folder kids => concat (map (fun k => leaves (x ++ [k.1]) k.2) kids) | _ => [(x, e)] end.
Fixpoint named (e : entry) : Prop :=
  match e with
  | Folder kids => (fix all (l : list (string * entry)) : Prop := match l with [] => True | k :: l => plain k.1 /\ named k.2 /\ all l end) kids
  | _ => True
  end.

Lemma named_folder kids : named (Folder kids) <-> Forall (fun k => plain k.1 /\ named k.2) kids.
Proof.
  cbn [named]. induction kids as [|k kids IH]; [done|]. rewrite Forall_cons, <- IH. tauto.
Qed.
Lemma elem_concat_map {A B} (f : A -> list B) l b : b ∈ concat (map f l) <-> exists a, a ∈ l /\ b ∈ f a.
Proof.
  rewrite list_elem_of_In, in_concat. setoid_rewrite in_map_iff. setoid_rewrite list_elem_of_In. naive_solver.
Qed.
Lemma leaves_folder x kids y e : (y, e) ∈ leaves x (Folder kids) <-> exists k, k ∈ kids /\ (y, e) ∈ leaves (x ++ [k.1]) k.2.
Proof. apply elem_concat_map. Qed.
Lemma leaves_below e : forall x y e', (y, e') ∈ leaves x e -> x `prefix_of` y.
Proof.
  induction e as [n|b|kids IH] using entry_ind'; intros x y e'; cbn [leaves].
  1,2: by intros [= -> ->]%list_elem_of_singleton.
  rewrite Forall_forall in IH. intros (k & Hk & H)%elem_concat_map. apply (IH k Hk) in H. etrans; [by apply prefix_app_r|exact H].
Qed.

(** *** The best of a list *)
Definition best_of {A} (f : A -> bool) (g : A -> Z) (l : list A) : Z := fold_left (fun best p => if f p && (best <? g p) then g p else best) l (-1).

Lemma best_of_spec {A} (f : A -> bool) (g : A -> Z) l : (forall a, 0 <= g a) ->
  (best_of f g l = -1 /\ forall a, a ∈ l -> f a = false) \/
  (exists a, a ∈ l /\ f a = true /\ best_of f g l = g a /\ forall b, b ∈ l -> f b = true -> g b <= g a).
Proof.
  intros Hg. unfold best_of. induction l as [|a l IH] using rev_ind; [left; split; [done|]; by intros ? ?%elem_of_nil|].
  rewrite fold_left_app. cbn [fold_left]. destruct (f a) eqn:Ef; cbn [andb].
  - destruct (Z.ltb_spec (fold_left (fun best p => if f p && (best <? g p) then g p else best) l (-1)) (g a)) as [H|H].
    + right. exists a. split_and!; [apply elem_of_app; right; by left|done|done|]. intros b [Hb|Hb%list_elem_of_singleton]%elem_of_app Hf; [|subst b; lia].
      destruct IH as [[_ IH]|(c & _ & _ & E & Hc)]; [by rewrite (IH b Hb) in Hf|]. specialize (Hc b Hb Hf). lia.
    + right. destruct IH as [[E _]|(c & Hc1 & Hc2 & E & Hc)]; [specialize (Hg a); lia|]. exists c. split_and!; [apply elem_of_app; by left|done|done|].
      intros b [Hb|Hb%list_elem_of_singleton]%elem_of_app Hf; [by apply Hc|subst b; lia].
  - destruct IH as [[E IH]|(c & Hc1 & Hc2 & E & Hc)]; [left|right].
    + split; [done|]. intros b [Hb|Hb%list_elem_of_singleton]%elem_of_app; [by apply IH|by subst b].
    + exists c. split_and!; [apply elem_of_app; by left|done|done|]. intros b [Hb|Hb%list_elem_of_singleton]%elem_of_app Hf; [by apply Hc|congruence].
Qed.

(** How deep the most specific of the paths [qs] at or above [x] is. *)
Definition deepest (qs : list (list string)) (x : list string) : Z := best_of (fun q => bool_decide (q `prefix_of` x)) (fun q => Z.of_nat (length q)) qs.
(** Whether a file at [x] is wanted: the most specific listed path decides, an excluded one
    on a tie, and no listed path only if nothing is included. *)
Definition wanted (ins exs : list (list string)) (x : list string) : bool :=
  negb ((0 <=? deepest exs x) && (deepest ins x <=? deepest exs x)) && (bool_decide (ins = []) || (0 <=? deepest ins x)).

Lemma prefix_chain {A} (a b x : list A) : a `prefix_of` x -> b `prefix_of` x -> (length a <= length b)%nat -> a `prefix_of` b.
Proof.
  intros [r ->] [t E] Hl. exists (drop (length a) b). rewrite <- (take_drop (length a) b) at 1. f_equal.
  apply (f_equal (take (length a))) in E. by rewrite take_app_length, take_app_le in E.
Qed.

Section root.
(** The names of the directory whose files are captured. *)
Context (rs : list string) (rs_plain : Forall plain rs) (rs_some : rs <> []).
Notation host q := (abs (rs ++ q)).

(** A guest's path that is listed: not rewritten by trimming, and not the host's path of
    the directory over again. *)
Record guest (q : list string) : Prop := {
  g_plain : Forall plain q; g_trim : TrimSpace (abs q) = abs q; g_echo : ~ rs `prefix_of` q }.

Lemma host_plain q : Forall plain q -> Forall plain (rs ++ q).
Proof using rs_plain. intros Hq. by apply Forall_app. Qed.
Lemma host_some q : rs ++ q <> [].
Proof using rs_some. intros E. by apply app_eq_nil in E as [E _]. Qed.

Lemma host_path_abs q : guest q -> host_path (abs rs) (abs q) = host q.
Proof using All.
  intros [Hq _ He]. unfold host_path. change (IsAbs (abs q)) with true. cbv iota zeta. rewrite Clean_abs by done.
  assert (under_root (abs rs) (abs q) = false) as ->.
  { destruct (under_root (abs rs) (abs q)) eqn:E; [|done]. exfalso. apply He. by apply under_abs. }
  rewrite TrimPrefix_abs. destruct q as [|s q]; [|by apply Join_abs].
  rewrite app_nil_r. cbn [Join join]. rewrite decide_False by done. by apply Clean_closed.
Qed.

Lemma elem_normalize qs p : Forall guest qs -> p ∈ normalizeCapturePaths (abs rs) (map abs qs) <-> exists q, q ∈ qs /\ p = host q.
Proof using All.
  intros Hqs. unfold normalizeCapturePaths. rewrite elem_add_new, Clean_abs by done. split.
  - intros [H _]. apply list_elem_of_fmap in H as (p' & -> & H). apply list_elem_of_filter in H as [_ H]. apply list_elem_of_fmap in H as (p'' & -> & H).
    apply list_elem_of_fmap in H as (q & -> & H). rewrite Forall_forall in Hqs. pose proof (Hqs q H) as Hq. exists q. rewrite (g_trim _ Hq). by rewrite host_path_abs.
  - intros (q & H & ->). rewrite Forall_forall in Hqs. pose proof (Hqs q H) as Hq. split; [|set_solver]. apply list_elem_of_fmap. exists (abs q). rewrite host_path_abs by done. split; [done|].
    apply list_elem_of_filter. split; [done|]. apply list_elem_of_fmap. exists (abs q). rewrite (g_trim _ Hq). split; [done|]. by apply list_elem_of_fmap_2.
Qed.

(** A file of the guest. *)
Record file (x : list string) : Prop := { f_plain : Forall plain x; f_some : x <> []; f_echo : ~ rs `prefix_of` x }.

Lemma matches_host x q : file x -> guest q -> matches (host x) (join x) (host q) = bool_decide (q `prefix_of` x).
Proof using All.
  intros [Hx Hn He] [Hq _ _]. apply eq_true_iff_eq. rewrite bool_decide_eq_true. unfold matches.
  assert (bool_decide (join x = host q) = false) as ->.
  { apply bool_decide_eq_false. intros E. pose proof (join_no_slash x Hx) as H. by rewrite E in H. }
  assert (bool_decide (join x <> "."%string) && HasPrefix (join x) (TrimPrefix (host q) "/" +:+ "/") = false) as ->.
  { apply andb_false_iff. right. rewrite TrimPrefix_abs. destruct (HasPrefix _ _) eqn:E; [|done]. exfalso. apply He.
    assert (under (join (rs ++ q)) (join x) = true) as Hu by (unfold under; by rewrite E, orb_true_r).
    apply under_join in Hu; [|by apply host_plain|done|by apply host_some|done]. etrans; [by apply prefix_app_r|exact Hu]. }
  rewrite !orb_false_r. change (under (host q) (host x) = true <-> q `prefix_of` x). rewrite under_abs; [|by apply host_plain..|by apply host_some].
  split; [apply prefix_app_inv|apply prefix_app].
Qed.

(** The longest match and the deepest listed path. *)
Lemma longest_deepest qs x : file x -> Forall guest qs -> let lm := longestMatch (host x) (join x) (normalizeCapturePaths (abs rs) (map abs qs)) in
  (lm = -1 /\ deepest qs x = -1) \/ exists q, q `prefix_of` x /\ Forall plain q /\ lm = len (host q) /\ deepest qs x = Z.of_nat (length q).
Proof using All.
  intros Hx Hqs. cbv zeta. rewrite Forall_forall in Hqs.
  pose proof (best_of_spec (matches (host x) (join x)) len (normalizeCapturePaths (abs rs) (map abs qs)) ltac:(intros; unfold len; lia)) as HL.
  pose proof (best_of_spec (fun q => bool_decide (q `prefix_of` x)) (fun q => Z.of_nat (length q)) qs ltac:(intros; cbn beta; lia)) as HD.
  fold (deepest qs x) in HD. change (best_of _ len _) with (longestMatch (host x) (join x) (normalizeCapturePaths (abs rs) (map abs qs))) in HL.
  assert (forall p, p ∈ normalizeCapturePaths (abs rs) (map abs qs) <-> exists q, q ∈ qs /\ p = host q) as Hin by (intros p; apply elem_normalize; by apply Forall_forall).
  destruct HL as [[E HL]|(p & Hp & Hm & E & HL)].
  - left. split; [done|]. destruct HD as [[-> _]|(q & Hq & Hm & _)]; [done|]. rewrite <- matches_host in Hm; [|done|by apply Hqs].
    rewrite HL in Hm; [done|]. apply Hin. by exists q.
  - right. apply Hin in Hp as (q & Hq & ->). rewrite matches_host in Hm; [|done|by apply Hqs]. apply bool_decide_eq_true in Hm.
    exists q. split_and!; [done|apply (Hqs q Hq)|done|]. destruct HD as [[_ HD]|(q' & Hq' & Hm' & -> & HD)]; [specialize (HD q Hq); by rewrite bool_decide_eq_false in HD|].
    apply bool_decide_eq_true in Hm'. assert (length q <= length q')%nat as H1 by (specialize (HD q Hq); rewrite bool_decide_eq_true in HD; specialize (HD Hm); cbn beta in HD; lia).
    assert (q `prefix_of` q') as [r ->] by by eapply prefix_chain. destruct r as [|s r]; [by rewrite app_nil_r|]. exfalso.
    assert (host (q ++ s :: r) ∈ normalizeCapturePaths (abs rs) (map abs qs)) as Hin' by (apply Hin; by eexists).
    specialize (HL _ Hin'). rewrite matches_host in HL; [|done|by apply Hqs]. rewrite bool_decide_eq_true in HL. specialize (HL Hm').
    rewrite app_assoc in HL. pose proof (len_abs_app (rs ++ q) (s :: r) (host_some q) ltac:(done)). lia.
Qed.

Lemma match_order ins exs x : file x -> Forall guest ins -> Forall guest exs ->
  let li := longestMatch (host x) (join x) (normalizeCapturePaths (abs rs) (map abs ins)) in
  let le := longestMatch (host x) (join x) (normalizeCapturePaths (abs rs) (map abs exs)) in
  ((li <=? le) = (deepest ins x <=? deepest exs x)) /\ ((0 <=? li) = (0 <=? deepest ins x)) /\ ((0 <=? le) = (0 <=? deepest exs x)).
Proof using All.
  intros Hx Hi He. cbv zeta. pose proof (longest_deepest ins x Hx Hi) as H1. pose proof (longest_deepest exs x Hx He) as H2. cbv zeta in H1, H2.
  assert (forall q, 0 <= len (host q)) as Hlen by (intros q; unfold len; lia).
  destruct H1 as [[-> ->]|(q & Hq & Hpq & -> & ->)], H2 as [[-> ->]|(p & Hp & Hpp & -> & ->)].
  - done.
  - specialize (Hlen p). split_and!; apply eq_true_iff_eq; rewrite ?Z.leb_le; lia.
  - specialize (Hlen q). split_and!; apply eq_true_iff_eq; rewrite ?Z.leb_le; lia.
  - pose proof (Hlen p). pose proof (Hlen q). split_and!; apply eq_true_iff_eq; rewrite ?Z.leb_le; [|lia..].
    destruct (Nat.le_gt_cases (length q) (length p)) as [Hle|Hgt].
    + split; [lia|]. intros _. apply len_prefix; [apply host_some|]. apply prefix_app. by eapply prefix_chain.
    + split; [|lia]. intros Hlen'. exfalso. assert (rs ++ p `prefix_of` rs ++ q) as Hpr by (apply prefix_app; eapply prefix_chain; [exact Hp|exact Hq|lia]).
      destruct (len_prefix _ _ (host_some p) Hpr) as [_ E]. specialize (E Hlen'). apply (f_equal length) in E. rewrite !length_app in E. lia.
Qed.

(** *** One decision *)
Context (ins exs : list (list string)) (ins_guest : Forall guest ins) (exs_guest : Forall guest exs).
Notation incl := (normalizeCapturePaths (abs rs) (map abs ins)).
Notation excl := (normalizeCapturePaths (abs rs) (map abs exs)).

Lemma incl_nil : bool_decide (incl = []) = bool_decide (ins = []).
Proof using rs_plain rs_some ins_guest.
  apply bool_decide_ext. split; [|by intros ->]. intros E. destruct ins as [|q l] eqn:El; [done|]. exfalso.
  assert (host q ∈ incl) as H by (rewrite El; apply elem_normalize; [done|]; exists q; split; [left|done]). rewrite El, E in H. by apply elem_of_nil in H.
Qed.

Lemma captureSkip_file x : file x -> captureSkip (host x) (join x) false incl excl = (negb (wanted ins exs x), false).
Proof using All.
  intros Hx. unfold captureSkip, wanted. cbv zeta. rewrite incl_nil. destruct (match_order ins exs x Hx ins_guest exs_guest) as (-> & -> & ->).
  cbn [andb]. destruct (_ && _) eqn:E; cbn [negb andb]; [done|]. by destruct (_ || _).
Qed.

Lemma captured_below a q : Forall plain a -> guest q -> q ∈ ins -> a `prefix_of` q -> a <> q -> pathMayContain (host a) (join a) incl = true.
Proof using rs_plain rs_some ins_guest.
  intros Ha Hq Hin Hp Hne. unfold pathMayContain. apply existsb_exists. exists (host q). split; [apply list_elem_of_In, elem_normalize; [done|by exists q]|].
  apply orb_true_iff. left. assert (under (host a) (host q) = true) as Hu.
  { apply under_abs; [by apply host_plain|apply host_plain, Hq|by apply host_some|by apply prefix_app]. }
  unfold under in Hu. apply orb_true_iff in Hu as [H|H]; [|done]. exfalso. apply bool_decide_eq_true in H. apply Hne.
  assert (rs ++ q = rs ++ a) as E by (apply join_names_inj; [apply host_plain, Hq|by apply host_plain|]; by injection H). by apply app_inv_head in E.
Qed.

Lemma deepest_mono qs a x : a `prefix_of` x -> deepest qs a <= deepest qs x.
Proof using Type.
  intros Hp. pose proof (best_of_spec (fun q => bool_decide (q `prefix_of` a)) (fun q => Z.of_nat (length q)) qs ltac:(intros; cbn beta; lia)) as H1.
  pose proof (best_of_spec (fun q => bool_decide (q `prefix_of` x)) (fun q => Z.of_nat (length q)) qs ltac:(intros; cbn beta; lia)) as H2.
  fold (deepest qs a) in H1. fold (deepest qs x) in H2. destruct H1 as [[-> _]|(q & Hq & Hm & -> & _)]; [destruct H2 as [[-> _]|(p & _ & _ & -> & _)]; lia|].
  apply bool_decide_eq_true in Hm. assert (bool_decide (q `prefix_of` x) = true) as Hm' by (apply bool_decide_eq_true; by etrans).
  destruct H2 as [[_ H2]|(p & _ & _ & -> & H2)]; [by rewrite (H2 q Hq) in Hm'|]. by apply H2.
Qed.

(** A directory above a wanted file is walked. *)
Lemma captureSkip_dir a x : file x -> a `prefix_of` x -> a <> [] -> wanted ins exs x = true -> (captureSkip (host a) (join a) true incl excl).1 = false.
Proof using All.
  intros Hx Hp Hn Hw. assert (file a) as Ha.
  { destruct Hx as [H1 _ H3]. split; [|done|intros H; apply H3; by etrans]. destruct Hp as [r ->]. by apply Forall_app in H1 as [? _]. }
  unfold captureSkip. cbv zeta. rewrite incl_nil. destruct (match_order ins exs a Ha ins_guest exs_guest) as (-> & -> & ->).
  unfold wanted in Hw. apply andb_prop in Hw as [H1%negb_true_iff H2]. pose proof (deepest_mono exs a x Hp) as Hme. cbn [andb].
  pose proof (best_of_spec (fun q => bool_decide (q `prefix_of` x)) (fun q => Z.of_nat (length q)) ins ltac:(intros; cbn beta; lia)) as Hd. fold (deepest ins x) in Hd.
  destruct Hd as [[E _]|(q & Hq & Hm & E & _)].
  - rewrite E in H1, H2. change (0 <=? -1) with false in H2. rewrite orb_false_r in H2. rewrite H2. cbn [orb].
    assert ((0 <=? deepest exs a) = false) as -> by (apply andb_false_iff in H1 as [H1|H1]; apply Z.leb_gt in H1; apply Z.leb_gt; lia). done.
  - apply bool_decide_eq_true in Hm. rewrite E in H1. assert (guest q) as Hgq by (rewrite Forall_forall in ins_guest; auto).
    destruct (decide (q `prefix_of` a)) as [Hqa|Hqa].
    + assert (Z.of_nat (length q) <= deepest ins a) as Hli.
      { pose proof (best_of_spec (fun q => bool_decide (q `prefix_of` a)) (fun q => Z.of_nat (length q)) ins ltac:(intros; cbn beta; lia)) as Hd. fold (deepest ins a) in Hd.
        assert (bool_decide (q `prefix_of` a) = true) as Hb by by apply bool_decide_eq_true. destruct Hd as [[_ Hd]|(p & _ & _ & -> & Hd)]; [by rewrite (Hd q Hq) in Hb|by apply Hd]. }
      assert ((0 <=? deepest exs a) && (deepest ins a <=? deepest exs a) = false) as ->.
      { apply andb_false_iff in H1 as [H1|H1]; apply Z.leb_gt in H1; [apply andb_false_iff; left|apply andb_false_iff; right]; apply Z.leb_gt; lia. }
      assert ((0 <=? deepest ins a) = true) as -> by (apply Z.leb_le; lia). by rewrite orb_true_r.
    + assert (a `prefix_of` q) as Hap.
      { eapply prefix_chain; [exact Hp|exact Hm|]. destruct (Nat.le_gt_cases (length a) (length q)); [done|]. exfalso. apply Hqa. eapply prefix_chain; [exact Hm|exact Hp|lia]. }
      rewrite (captured_below a q); [|apply Ha|done..|by intros ->].
      by destruct ((0 <=? deepest exs a) && (deepest ins a <=? deepest exs a)), (bool_decide (ins = []) || (0 <=? deepest ins a)).
Qed.

(** *** The loop of [Captured] *)
Lemma Join_plain l : Forall plain l -> l <> [] -> Join l = join l.
Proof using Type.
  intros Hl Hn. destruct l as [|s l]; [done|]. cbn [Join]. rewrite decide_False by (inversion Hl as [|? ? (_ & ? & _)]; done). by apply Clean_join.
Qed.
Lemma file_prefix a x : file x -> a `prefix_of` x -> a <> [] -> file a.
Proof using Type.
  intros [H1 _ H3] Hp Hn. split; [|done|intros H; apply H3; by etrans]. destruct Hp as [r ->]. by apply Forall_app in H1 as [? _].
Qed.

Lemma captured_loop_wanted todo : forall done_, todo <> [] -> file (done_ ++ todo) -> captured_loop (abs rs) incl excl done_ todo = wanted ins exs (done_ ++ todo).
Proof using All.
  induction todo as [|name todo IH]; intros done_ Hn Hx; [done|]. cbn [captured_loop].
  assert (file (done_ ++ [name])) as Ha by (eapply file_prefix; [exact Hx|exists todo; by rewrite <- app_assoc|by destruct done_]).
  pose proof (f_plain _ Ha) as Hap. pose proof (f_some _ Ha) as Has. rewrite (Join_plain (done_ ++ [name])), Clean_abs, Join_abs by done. destruct todo as [|t todo].
  - rewrite bool_decide_eq_false_2 by naive_solver. rewrite captureSkip_file by done. cbn [negb andb orb]. by destruct (wanted _ _ _).
  - rewrite bool_decide_eq_true_2 by done.
    assert (done_ ++ name :: t :: todo = (done_ ++ [name]) ++ t :: todo) as E by by rewrite <- app_assoc. rewrite E in *.
    pose proof (captureSkip_dir (done_ ++ [name]) ((done_ ++ [name]) ++ t :: todo) Hx ltac:(by eexists) ltac:(apply Ha)) as Hd.
    destruct (captureSkip _ _ _ _ _) as [skip skipDir]. cbn [negb andb orb fst] in *. rewrite orb_false_r.
    destruct (skip && skipDir) eqn:Es; [|by apply IH]. destruct (wanted _ _ _); [|done]. apply andb_prop in Es as [-> _]. by specialize (Hd eq_refl).
Qed.

Lemma Captured_wanted x : file x -> Captured (abs rs) (join x) (map abs ins) (map abs exs) = wanted ins exs x.
Proof using All.
  intros Hx. unfold Captured. assert (TrimPrefix (join x) "/" = join x) as ->.
  { unfold TrimPrefix. by rewrite join_no_slash by apply Hx. }
  rewrite Split_join by apply Hx. by apply (captured_loop_wanted x []); [apply Hx|].
Qed.

(** *** The walk *)
Lemma join_snoc x name : x <> [] -> below (join x) name = join (x ++ [name]) \/ join x = ""%string.
Proof using Type.
  intros Hx. unfold below. case_decide; [by right|]. left. by rewrite join_app.
Qed.

Lemma capture_entry_leaves e : forall x, named e -> Forall plain x -> x <> [] -> (forall y e', (y, e') ∈ leaves x e -> file y) ->
  forall r e', is_folder e' = false -> ((r, e') ∈ capture_entry incl excl (host x) (join x) e <-> exists y, (y, e') ∈ leaves x e /\ r = join y /\ wanted ins exs y = true).
Proof using All.
  induction e as [n|b|kids IH] using entry_ind'; intros x Hn Hx Hnx Hf r e' He'.
  1,2: cbn [capture_entry leaves is_folder]; rewrite Clean_abs by (by apply host_plain); rewrite captureSkip_file by (by eapply Hf, list_elem_of_singleton);
    destruct (wanted ins exs x) eqn:Ew; cbn [negb]; (split; [intros H|intros (y & [= -> ->]%list_elem_of_singleton & -> & Hw)]);
    [apply list_elem_of_singleton in H as [= -> ->]; exists x; by rewrite list_elem_of_singleton|by apply list_elem_of_singleton|by apply elem_of_nil in H|congruence].
  rewrite Forall_forall in IH. apply named_folder in Hn. rewrite Forall_forall in Hn.
  cbn [capture_entry is_folder]. rewrite Clean_abs by (by apply host_plain).
  destruct (captureSkip (host x) (join x) true incl excl) as [skip skipDir] eqn:Es.
  assert (forall k, k ∈ kids -> (r, e') ∈ capture_entry incl excl (Join [host x; k.1]) (below (join x) k.1) k.2 <->
    exists y, (y, e') ∈ leaves (x ++ [k.1]) k.2 /\ r = join y /\ wanted ins exs y = true) as Hk.
  { intros k Hk. destruct (Hn k Hk) as [Hp Hnk]. assert (Forall plain [k.1]) as Hp1 by by constructor.
    assert (Join [host x; k.1] = host (x ++ [k.1])) as ->.
    { rewrite app_assoc. change k.1 with (join [k.1]) at 1. by apply Join_abs; [apply host_plain| |apply host_some|]. }
    destruct (join_snoc x k.1 Hnx) as [-> |E]; [|by destruct (join_nonempty x)].
    apply IH; [done|done|by apply Forall_app|by destruct x| |done].
    intros y e2 Hy. apply (Hf y e2), leaves_folder. by exists k. }
  assert ((exists y, (y, e') ∈ leaves x (Folder kids) /\ r = join y /\ wanted ins exs y = true) <->
          (r, e') ∈ concat (map (fun k => capture_entry incl excl (Join [host x; k.1]) (below (join x) k.1) k.2) kids)) as ->.
  { rewrite elem_concat_map. setoid_rewrite leaves_folder. split.
    - intros (y & (k & Hin & Hy) & Hr). exists k. split; [done|]. apply Hk; [done|]. by exists y.
    - intros (k & Hin & H). apply Hk in H as (y & Hy & Hr); [|done]. exists y. split; [by exists k|done]. }
  assert ((r, e') ∉ (if skip then [] else [(join x, Folder kids)])) as Hself.
  { destruct skip; [by apply not_elem_of_nil|]. by intros [= -> ->]%list_elem_of_singleton. }
  destruct skipDir; [|rewrite elem_of_app; tauto]. split; [done|]. intros H. exfalso.
  apply elem_concat_map in H as (k & Hin & H). apply Hk in H as (y & Hy & _ & Hw); [|done].
  assert (file y) as Hfy. { apply (Hf y e'), leaves_folder. by exists k. }
  pose proof (captureSkip_dir x y Hfy ltac:(etrans; [by apply prefix_app_r|by eapply leaves_below]) Hnx Hw) as Hd. rewrite Es in Hd. cbn in Hd. subst skip.
  unfold captureSkip in Es. cbv zeta in Es. by repeat case_match.
Qed.

Lemma capture_leaves kids : named (Folder kids) -> (forall y e', (y, e') ∈ leaves [] (Folder kids) -> file y) ->
  forall r e', is_folder e' = false -> ((r, e') ∈ capture (abs rs) (map abs ins) (map abs exs) kids <-> exists y, (y, e') ∈ leaves [] (Folder kids) /\ r = join y /\ wanted ins exs y = true).
Proof using All.
  intros Hn Hf r e' He'. apply named_folder in Hn. rewrite Forall_forall in Hn. unfold capture. rewrite elem_concat_map. setoid_rewrite leaves_folder. cbn [app].
  assert (forall k, k ∈ kids -> (r, e') ∈ capture_entry incl excl (Join [abs rs; k.1]) k.1 k.2 <-> exists y, (y, e') ∈ leaves [k.1] k.2 /\ r = join y /\ wanted ins exs y = true) as Hk.
  { intros k Hk. destruct (Hn k Hk) as [Hp Hnk]. assert (Forall plain [k.1]) as Hp1 by by constructor.
    assert (Join [abs rs; k.1] = host [k.1]) as -> by (change k.1 with (join [k.1]) at 1; by apply Join_abs).
    apply (capture_entry_leaves k.2 [k.1]); try done.
    intros y e2 Hy. apply (Hf y e2), leaves_folder. by exists k. }
  split.
  - intros (k & Hin & H). apply Hk in H as (y & Hy & Hr); [|done]. exists y. split; [by exists k|done].
  - intros (y & (k & Hin & Hy) & Hr). exists k. split; [done|]. apply Hk; [done|]. by exists y.
Qed.
End root.

(** ** The rules of a workload *)
Lemma clean_loop_abs b l : forall q, clean_loop b l = Ok q -> Forall (fun p => exists x, Forall plain x /\ (b = false -> x <> []) /\ p = abs x) q.
Proof.
  induction l as [|p l IH]; intros q; cbn [clean_loop]; [intros [= <-]; constructor|]. cbv zeta.
  destruct (decide (TrimSpace p = ""%string)); [by apply IH|]. destruct (negb (HasPrefix (TrimSpace p) "/")) eqn:Ep; [done|]. apply negb_false_iff in Ep.
  destruct (Contains (TrimSpace p) nul); [done|]. cbn [orb]. destruct (Clean_rooted _ Ep) as (x & Hx & ->).
  assert (forall q', clean_loop b l = Ok q' -> (b = false -> x <> []) -> Forall (fun p => exists x, Forall plain x /\ (b = false -> x <> []) /\ p = abs x) (abs x :: q')) as Hcons.
  { intros q' Hq' Hn. constructor; [by exists x|]. by apply IH. }
  case_decide as Hroot; [destruct b; [|done]|destruct (_ || _); [by apply IH|]]; destruct (clean_loop _ l) as [q'|] eqn:El; try done; intros [= <-]; apply Hcons; try done.
  intros _ ->. by apply Hroot.
Qed.
Lemma cleanGuestPaths_abs b l q : cleanGuestPaths l b = Ok q -> Forall (fun p => exists x, Forall plain x /\ (b = false -> x <> []) /\ p = abs x) q.
Proof.
  unfold cleanGuestPaths. destruct (clean_loop b l) as [q'|] eqn:E; [|done]. cbn. intros [= <-]. apply clean_loop_abs in E. rewrite Forall_forall in *.
  intros p Hp. apply E. unfold sortStrings in Hp. rewrite merge_sort_Permutation in Hp. by apply elem_add_new in Hp as [? _].
Qed.
Lemma choose_names (P : list string -> Prop) l : Forall (fun p => exists x, P x /\ p = abs x) l -> exists xs, Forall P xs /\ l = map abs xs.
Proof. induction 1 as [|p l (x & Hx & ->) _ (xs & Hxs & ->)]; [by exists []|]. exists (x :: xs). split; [by constructor|done]. Qed.

Lemma NormalizeRules_names r r' : NormalizeRules r = Ok r' -> exists ss ks, Skip r' = map abs ss /\ Keep r' = map abs ks /\
  Forall (fun x => Forall plain x /\ x <> []) ss /\ Forall (Forall plain) ks /\ forall x, x ∈ ss -> x ∉ ks.
Proof.
  unfold NormalizeRules. destruct (cleanGuestPaths (Skip r) false) as [skip|] eqn:Es; [|done]. cbn.
  destruct (cleanGuestPaths (Keep r) true) as [keep|] eqn:Ek; [|done]. cbn. destruct (filter _ _) as [|] eqn:Ef; [|done]. intros [= <-].
  apply cleanGuestPaths_abs in Es, Ek. destruct (choose_names (fun x => Forall plain x /\ x <> []) skip) as (ss & Hss & ->).
  { eapply Forall_impl; [exact Es|]. intros p (x & ? & Hn & ->). exists x. auto. }
  destruct (choose_names (Forall plain) keep) as (ks & Hks & ->); [eapply Forall_impl; [exact Ek|]; intros p (x & ? & _ & ->); by exists x|].
  exists ss, ks. split_and!; [done..|]. intros x Hx Hk. assert (abs x ∈ filter (fun p => p ∈ map abs ks) (map abs ss)) as H.
  { apply list_elem_of_filter. split; by apply list_elem_of_fmap_2. }
  rewrite Ef in H. by apply elem_of_nil in H.
Qed.

(** Whether a rule for [q] holds at [p]. *)
Definition rule_holds (p q : string) : bool := bool_decide (q = p) || bool_decide (q = "/"%string) || HasPrefix p (q +:+ "/").
Lemma rule_holds_abs x q : Forall plain x -> Forall plain q -> rule_holds (abs x) (abs q) = bool_decide (q `prefix_of` x).
Proof.
  intros Hx Hq. apply eq_true_iff_eq. rewrite bool_decide_eq_true. unfold rule_holds. destruct q as [|s q].
  - rewrite (bool_decide_eq_true_2 (abs [] = "/"%string)) by done. rewrite orb_true_r. split; [intros _; apply prefix_nil|done].
  - rewrite (bool_decide_eq_false_2 (abs (s :: q) = "/"%string)).
    + rewrite orb_false_r. rewrite <- (under_abs (s :: q) x) by done. unfold under. by rewrite (bool_decide_ext (abs (s :: q) = abs x) (abs x = abs (s :: q))) by (split; intros; congruence).
    + intros H. injection H as H. by destruct (join_nonempty (s :: q)).
Qed.

Lemma rule_fold p kind l : forall own best eff, let '(own', best', eff') := fold_left (rule_step p kind) l (own, best, eff) in
  best <= best' /\ (forall q, q ∈ l -> rule_holds p q = true -> len q <= best') /\
  ((best' = best /\ eff' = eff) \/ (eff' = Some kind /\ exists q, q ∈ l /\ rule_holds p q = true /\ best' = len q /\ best < len q)).
Proof.
  induction l as [|q l IH]; intros own best eff; cbn [fold_left]; [split_and!; [lia|by intros ? ?%elem_of_nil|by left]|].
  unfold rule_step at 2. fold (rule_holds p q). cbv zeta. destruct (rule_holds p q && (best <? len q)) eqn:E.
  - apply andb_prop in E as [E1 E2%Z.ltb_lt]. specialize (IH (if decide (q = p) then Some kind else own) (len q) (Some kind)).
    destruct (fold_left _ l _) as [[own' best'] eff']. destruct IH as (H1 & H2 & H3). split_and!; [lia| |].
    + intros q' [->|Hq']%elem_of_cons Hh; [lia|by apply H2].
    + right. destruct H3 as [[-> ->]|(-> & q' & Hq' & Hh & -> & Hl)]; (split; [done|]); [exists q|exists q']; rewrite elem_of_cons; split_and!; auto; lia.
  - specialize (IH (if decide (q = p) then Some kind else own) best eff). destruct (fold_left _ l _) as [[own' best'] eff']. destruct IH as (H1 & H2 & H3). split_and!; [done| |].
    + intros q' [->|Hq']%elem_of_cons Hh; [|by apply H2]. rewrite Hh in E. cbn in E. apply Z.ltb_ge in E. lia.
    + destruct H3 as [?|(-> & q' & Hq' & Hr)]; [by left|]. right. split; [done|]. exists q'. split; [by right|done].
Qed.
