(* ===== verification/CaptureSafety.v ===== *)
(** * What a capture keeps, and what the rules of a workload say

    The two claims about captures, each for every tree and every list of paths, and the
    concrete captures that show where the documentation says more than the code does. *)
From S2P Require Export CaptureProps.

(** A tree whose entries have plain names and no file that repeats the path of the root. *)
Definition tree (rs : list string) (kids : list (string * entry)) : Prop :=
  named (Folder kids) /\ forall y e, (y, e) ∈ leaves [] (Folder kids) -> file rs y.

(** *** A container to try it on *)
Definition ct : list string := ["srv"; "ct"].
Definition ct_tree : list (string * entry) :=
  [("etc", Folder [("hostname", Regular 4)]);
   ("var", Folder [("cache", Folder [("junk", Regular 9); ("app", Folder [("a.db", Regular 7)])]); ("link", Special true)])].



(** ** Rules *)
Lemma len_prefixes x q1 q2 : Forall plain x -> q1 `prefix_of` x -> q2 `prefix_of` x ->
  (len (abs q1) < len (abs q2)) <-> (Z.of_nat (length q1) < Z.of_nat (length q2)).
Proof.
  intros Hx. assert (forall a b : list string, a `prefix_of` x -> b `prefix_of` x -> (length a < length b)%nat -> len (abs a) < len (abs b)) as Hlt.
  { intros a b Ha Hb Hl. destruct (prefix_chain a b x Ha Hb ltac:(lia)) as [r ->]. rewrite length_app in Hl. destruct a as [|s a].
    - assert (Forall plain r) as Hr by (destruct Hb as [t ->]; by apply Forall_app in Hx as [? _]).
      assert (join r <> ""%string) as Hj by (apply join_nonempty; [done|]; intros ->; cbn in Hl; lia).
      cbn [app]. unfold len, abs. rewrite !bytes_app, !length_app. destruct (join r); [done|]. cbn. lia.
    - apply len_abs_app; [done|]. intros ->. cbn in Hl. lia. }
  intros H1 H2. pose proof (Hlt q1 q2 H1 H2). pose proof (Hlt q2 q1 H2 H1).
  destruct (Nat.lt_trichotomy (length q1) (length q2)) as [H3|[H3|H3]]; [specialize (H H3); lia| |specialize (H0 H3); lia].
  assert (q1 = q2) as <-; [|lia]. destruct (prefix_chain q1 q2 x H1 H2 ltac:(lia)) as [r ->]. rewrite length_app in H3. destruct r; [by rewrite app_nil_r|cbn in H3; lia].
Qed.

(** The rules that hold at a file, as the depths of the most specific ones. *)
Lemma ruleFor_deepest ss ks x r : Forall plain x -> Forall (Forall plain) ss -> Forall (Forall plain) ks -> Skip r = map abs ss -> Keep r = map abs ks ->
  bool_decide ((ruleFor (abs x) r).2 = Some skip_rule) = (0 <=? deepest ss x) && (deepest ks x <? deepest ss x).
Proof.
  intros Hx Hss Hks Es Ek. unfold ruleFor. rewrite Es, Ek.
  pose proof (rule_fold (abs x) keep_rule (map abs ks) None (-1) None) as H1. destruct (fold_left _ (map abs ks) _) as [[o1 b1] e1].
  pose proof (rule_fold (abs x) skip_rule (map abs ss) o1 b1 e1) as H2. destruct (fold_left _ (map abs ss) _) as [[o2 b2] e2]. cbn [snd].
  destruct H1 as (_ & U1 & C1), H2 as (_ & U2 & C2).
  assert (forall l q, Forall (Forall plain) l -> q ∈ map abs l -> rule_holds (abs x) q = true -> exists y, y ∈ l /\ q = abs y /\ y `prefix_of` x) as Hin.
  { intros l q Hl (y & -> & Hy)%list_elem_of_fmap Hr. rewrite Forall_forall in Hl. rewrite rule_holds_abs in Hr by auto. apply bool_decide_eq_true in Hr. eauto. }
  assert (forall l y, Forall (Forall plain) l -> y ∈ l -> y `prefix_of` x -> abs y ∈ map abs l /\ rule_holds (abs x) (abs y) = true) as Hout.
  { intros l y Hl Hy Hp. rewrite Forall_forall in Hl. split; [by apply list_elem_of_fmap_2|]. rewrite rule_holds_abs by auto. by apply bool_decide_eq_true. }
  pose proof (best_of_spec (fun q => bool_decide (q `prefix_of` x)) (fun q => Z.of_nat (length q)) ss ltac:(intros; cbn beta; lia)) as Ds. fold (deepest ss x) in Ds.
  pose proof (best_of_spec (fun q => bool_decide (q `prefix_of` x)) (fun q => Z.of_nat (length q)) ks ltac:(intros; cbn beta; lia)) as Dk. fold (deepest ks x) in Dk.
  apply eq_true_iff_eq. rewrite bool_decide_eq_true, andb_true_iff, Z.leb_le, Z.ltb_lt. split.
  - intros E. destruct C2 as [[_ E']|(_ & q & Hq & Hr & -> & Hlt)]; [destruct C1 as [[_ ?]|[? _]]; congruence|].
    destruct (Hin ss q Hss Hq Hr) as (y & Hy & -> & Hp). destruct Ds as [[_ Ds]|(y' & Hy' & _ & -> & Ds)].
    { specialize (Ds y Hy). by rewrite bool_decide_eq_false in Ds. }
    specialize (Ds y Hy ltac:(by apply bool_decide_eq_true)). cbn beta in Ds. split; [lia|].
    destruct Dk as [[-> _]|(z & Hz & Hpz%bool_decide_eq_true & -> & _)]; [lia|]. destruct (Hout ks z Hks Hz Hpz) as [H3 H4]. specialize (U1 _ H3 H4).
    pose proof (len_prefixes x z y Hx Hpz Hp) as H5. lia.
  - intros [H0 Hlt]. destruct Ds as [[Ds _]|(y & Hy & Hp%bool_decide_eq_true & Ds & _)]; [lia|]. rewrite Ds in Hlt. destruct (Hout ss y Hss Hy Hp) as [H3 H4]. specialize (U2 _ H3 H4).
    destruct C2 as [[-> ->]|[-> _]]; [|done]. exfalso.
    destruct C1 as [[-> _]|(_ & q & Hq & Hr & -> & _)]; [unfold len in U2; lia|]. destruct (Hin ks q Hks Hq Hr) as (z & Hz & -> & Hpz).
    destruct Dk as [[_ Dk]|(z' & Hz' & _ & Ek' & Dk)]; [specialize (Dk z Hz); by rewrite bool_decide_eq_false in Dk|].
    specialize (Dk z Hz ltac:(by apply bool_decide_eq_true)). cbn beta in Dk. rewrite Ek' in Hlt. pose proof (len_prefixes x z y Hx Hpz Hp) as H5. lia.
Qed.

(** A rule that is as deep as another one at or above the same file is the same path. *)
Lemma deepest_tie (a b : list (list string)) x : 0 <= deepest a x -> deepest a x = deepest b x -> exists q, q ∈ a /\ q ∈ b.
Proof.
  pose proof (best_of_spec (fun q => bool_decide (q `prefix_of` x)) (fun q => Z.of_nat (length q)) a ltac:(intros; cbn beta; lia)) as Da. fold (deepest a x) in Da.
  pose proof (best_of_spec (fun q => bool_decide (q `prefix_of` x)) (fun q => Z.of_nat (length q)) b ltac:(intros; cbn beta; lia)) as Db. fold (deepest b x) in Db.
  intros H0 E. destruct Da as [[Da _]|(y & Hy & Hp%bool_decide_eq_true & Da & _)]; [lia|].
  destruct Db as [[Db _]|(z & Hz & Hpz%bool_decide_eq_true & Db & _)]; [lia|]. rewrite Da, Db in E.
  assert (y = z) as <-; [|eauto]. destruct (prefix_chain y z x Hp Hpz ltac:(lia)) as [t ->]. rewrite length_app in E. destruct t; [by rewrite app_nil_r|cbn in E; lia].
Qed.
Lemma deepest_cons_root qs x : deepest ([] :: qs) x = Z.max 0 (deepest qs x).
Proof.
  pose proof (best_of_spec (fun q => bool_decide (q `prefix_of` x)) (fun q => Z.of_nat (length q)) qs ltac:(intros; cbn beta; lia)) as D. fold (deepest qs x) in D.
  pose proof (best_of_spec (fun q => bool_decide (q `prefix_of` x)) (fun q => Z.of_nat (length q)) ([] :: qs) ltac:(intros; cbn beta; lia)) as D'. fold (deepest ([] :: qs) x) in D'.
  destruct D' as [[_ D']|(y & Hy & Hp & -> & D')].
  - specialize (D' [] ltac:(by left)). rewrite bool_decide_eq_false in D'. by destruct D'; apply prefix_nil.
  - apply elem_of_cons in Hy as [->|Hy]; destruct D as [[-> D]|(z & Hz & Hpz & -> & D)].
    + done.
    + specialize (D' z ltac:(by right) Hpz). cbn in *. lia.
    + rewrite (D y Hy) in Hp. done.
    + specialize (D y Hy Hp). specialize (D' z ltac:(by right) Hpz). cbn beta in *. lia.
Qed.


Definition ct_rules : WorkloadRules := mkRules ["/var/cache"] ["/var/cache/app"].

(** ** Where the documentation says more

    A path to keep that the scope of the policy itself lists to leave out stays out: on a
    tie the excluded one wins, so the rule does not override the policy there. *)
Example keep_loses_a_tie :
  let '(incl, excl) := applyRules [] ["/var/cache"] (mkRules [] ["/var/cache"]) in
  Captured (abs ct) "var/cache/junk" incl excl = false.
Proof. vm_compute. reflexivity. Qed.

(** A directory to skip keeps what the scope lists below it. *)
Example skip_keeps_more_specific :
  let '(incl, excl) := applyRules ["/etc"; "/var/lib/mysql"] [] (mkRules ["/var"] []) in
  Captured (abs ct) "var/lib/mysql/ibdata1" incl excl = true.
Proof. vm_compute. reflexivity. Qed.

(** A rule for a directory whose name ends in a space is accepted and shown as holding,
    and a capture reads it as a rule for another directory. *)
Example trimmed_rule :
  NormalizeRules (mkRules ["/data /"] []) = Ok (mkRules ["/data "] []) /\
  (ruleFor "/data /x" (mkRules ["/data "] [])).2 = Some skip_rule /\
  Captured (abs ct) "data /x" [] ["/data "] = true /\ Captured (abs ct) "data/x" [] ["/data "] = false.
Proof. vm_compute. repeat split. Qed.

(** A path of the guest that repeats the path of its root on the host is read as the
    host's: the rule for it leaves out the directory below the root instead. *)
Example echoed_rule :
  Captured (abs ct) "srv/ct/data/x" [] ["/srv/ct/data"] = false /\ Captured (abs ct) "data/x" [] ["/srv/ct/data"] = false.
Proof. vm_compute. repeat split. Qed.
