(* ===== verification/Scope.v ===== *)
(** * What a backup of a workload covers ([src/internal/backupscope])

    Discovery walks the files of a workload and sorts them into items: databases, volumes,
    configuration, data of unknown kind, and what can be fetched again.  The selection of
    items gives the lists of paths a capture includes and excludes ([Capture]).

    The walk is a fold over the entries of the tree with the state [scan].  Git is a
    parameter: what a run of it prints. *)
From Stdlib Require Export Floats.SpecFloat.
From stdpp Require Import sorting.
From S2P Require Export GoNum Capture.

(** ** Data *)
Definition ModeSmart : string := "smart".
Definition ModeCustom : string := "custom".
Definition ModeFull : string := "full".

Definition KindDatabase : string := "database".
Definition KindDockerVolume : string := "docker-volume".
Definition KindDockerBind : string := "docker-bind".
Definition KindApplication : string := "application".
Definition KindConfig : string := "configuration".
Definition KindCertificate : string := "certificate".
Definition KindGit : string := "git".
Definition KindReproducible : string := "reproducible".
Definition KindLogs : string := "logs".
Definition KindOS : string := "os".
Definition KindUncertain : string := "uncertain".
Definition KindTechnical : string := "technical".
Definition KindMedia : string := "media".

Record Item := mkItem {
  iID : string; iKind : string; iLabel : string; iPaths : list string; iBytes : Z;
  iSelected : bool; iDefaultOn : bool; iExcluded : bool; iReproducible : bool; iWarnings : list string }.
Record Warning := mkWarning { wLevel : string; wMessage : string; wItemID : string; wPath : string }.
Record Selection := mkSelection { Selected : list string; Deselected : list string; Includes : list string; Excludes : list string }.
Definition no_selection : Selection := mkSelection [] [] [] [].
Record GitRemote := mkRemote { gName : string; gURL : string }.
Record GitRepo := mkRepo {
  gPath : string; gRemotes : list GitRemote; gBranch : string; gCommit : string; gDirty : bool; gChanged : list string;
  gUnpushed : bool; gPushedBase : string; gUnpushedCommits : Z; gKept : list string; gError : string }.
Record Preview := mkPreview {
  pWorkloadID : string; pWorkloadName : string; pMode : string; pItems : list Item; pWarnings : list Warning;
  pProtected : Z; pExcluded : Z; pFull : Z; pIncludes : list string; pExcludes : list string; pRepos : list GitRepo }.
Record DockerHint := mkHint { Projects : list string; NamedVolumes : list string; VolumePaths : list string; BindMounts : list string }.

Definition set_paths (l : list string) (it : Item) : Item :=
  mkItem (iID it) (iKind it) (iLabel it) l (iBytes it) (iSelected it) (iDefaultOn it) (iExcluded it) (iReproducible it) (iWarnings it).
Definition set_bytes (b : Z) (it : Item) : Item :=
  mkItem (iID it) (iKind it) (iLabel it) (iPaths it) b (iSelected it) (iDefaultOn it) (iExcluded it) (iReproducible it) (iWarnings it).
Definition set_selected (b : bool) (it : Item) : Item :=
  mkItem (iID it) (iKind it) (iLabel it) (iPaths it) (iBytes it) b (iDefaultOn it) (iExcluded it) (iReproducible it) (iWarnings it).
Definition set_excluded (b : bool) (it : Item) : Item :=
  mkItem (iID it) (iKind it) (iLabel it) (iPaths it) (iBytes it) (iSelected it) (iDefaultOn it) b (iReproducible it) (iWarnings it).
Definition set_warnings (l : list string) (it : Item) : Item :=
  mkItem (iID it) (iKind it) (iLabel it) (iPaths it) (iBytes it) (iSelected it) (iDefaultOn it) (iExcluded it) (iReproducible it) l.

Definition appendUnique (l : list string) (msg : string) : list string := if decide (msg ∈ l) then l else l ++ [msg].
Definition addPath (p : string) (it : Item) : Item :=
  if decide (p = ""%string) then it else if decide (p ∈ iPaths it) then it else set_paths (iPaths it ++ [p]) it.
Definition add_bytes (b : Z) (it : Item) : Item := set_bytes (i64 (iBytes it + b)) it.
Definition warn (msg : string) (it : Item) : Item := set_warnings (appendUnique (iWarnings it) msg) it.

(** The item of an identifier, made when it is new, and what is done to it. *)
Definition upsert (id kind label : string) (defaultOn repro : bool) (f : Item -> Item) (items : gmap string Item) : gmap string Item :=
  <[id := f (default (mkItem id kind label [] 0 false defaultOn false repro []) (items !! id))]> items.

(** ** Tables *)
Record place := mkPlace { p_rel : string; p_id : string; p_kind : string; p_label : string }.
Definition technicalRoots : list string := ["proc"; "sys"; "dev"; "run"].
Definition persistentPrefixes : list place := [
  mkPlace "var/lib/postgresql" "db:postgresql" KindDatabase "PostgreSQL";
  mkPlace "var/lib/pgsql" "db:pgsql" KindDatabase "PostgreSQL";
  mkPlace "var/lib/mysql" "db:mysql" KindDatabase "MySQL";
  mkPlace "var/lib/mariadb" "db:mariadb" KindDatabase "MariaDB";
  mkPlace "var/lib/redis" "db:redis" KindDatabase "Redis";
  mkPlace "var/lib/mongodb" "db:mongodb" KindDatabase "MongoDB";
  mkPlace "var/lib/docker/volumes" "docker:volumes" KindDockerVolume "Docker volumes";
  mkPlace "etc/ssl" "certs:ssl" KindCertificate "TLS material";
  mkPlace "etc/letsencrypt" "certs:letsencrypt" KindCertificate "Let's Encrypt";
  mkPlace "etc/systemd/system" "config:systemd" KindConfig "systemd units";
  mkPlace "etc" "config:etc" KindConfig "Configuration";
  mkPlace "srv" "app:srv" KindApplication "Application data";
  mkPlace "opt" "app:opt" KindApplication "Application data";
  mkPlace "home" "app:home" KindApplication "User data";
  mkPlace "root" "app:root" KindApplication "Root home";
  mkPlace "var/lib" "app:var-lib" KindApplication "Service state"]%string.
Definition reproduciblePrefixes : list place := [
  mkPlace "var/cache/apt" "repro:apt" KindReproducible "Package cache";
  mkPlace "var/cache/apk" "repro:apk" KindReproducible "Package cache";
  mkPlace "var/cache" "repro:cache" KindReproducible "Package cache";
  mkPlace "var/lib/apt" "repro:apt-lib" KindReproducible "Package cache";
  mkPlace "var/tmp" "repro:var-tmp" KindReproducible "Temporary files";
  mkPlace "tmp" "repro:tmp" KindReproducible "Temporary files";
  mkPlace "var/log" "repro:logs" KindLogs "Logs";
  mkPlace "var/lib/docker/overlay2" "repro:docker-overlay" KindReproducible "Docker image layers";
  mkPlace "var/lib/docker/image" "repro:docker-image" KindReproducible "Docker image metadata";
  mkPlace "var/lib/docker/buildkit" "repro:docker-buildkit" KindReproducible "Docker build cache";
  mkPlace "var/lib/docker/containerd" "repro:docker-containerd" KindReproducible "Docker image layers";
  mkPlace "var/lib/docker/containers" "repro:docker-containers" KindReproducible "Docker container logs";
  mkPlace "var/lib/docker/tmp" "repro:docker-tmp" KindReproducible "Docker temporary files";
  mkPlace "var/lib/containerd" "repro:containerd" KindReproducible "Docker image layers";
  mkPlace "usr" "os:usr" KindOS "Operating system";
  mkPlace "lib" "os:lib" KindOS "Operating system";
  mkPlace "lib64" "os:lib64" KindOS "Operating system";
  mkPlace "bin" "os:bin" KindOS "Operating system";
  mkPlace "sbin" "os:sbin" KindOS "Operating system";
  mkPlace "boot" "os:boot" KindOS "Operating system"]%string.
Definition sqliteExt : list string := [".sqlite"; ".sqlite3"; ".db"]%string.

Definition reproducibleNames : list (string * string) := [
  ("node_modules", "Package dependencies"); (".pnpm-store", "Package cache"); ("__pycache__", "Build cache");
  (".cache", "Cache"); ("cache", "Cache"); ("caches", "Cache"); ("Cache", "Cache"); ("CachedData", "Cache");
  ("transcode", "Transcode cache"); ("transcodes", "Transcode cache"); ("transcoding-temp", "Transcode cache");
  (".npm", "Package cache"); (".yarn-cache", "Package cache"); (".rustup", "Toolchain"); (".nvm", "Toolchain"); (".bun", "Toolchain");
  (".vscode-server", "Editor server"); (".cursor-server", "Editor server"); (".gradle", "Build cache");
  (".pytest_cache", "Build cache"); (".mypy_cache", "Build cache"); (".ruff_cache", "Build cache"); (".turbo", "Build cache");
  (".next", "Build output"); ("steamapps", "Game files"); ("go-build", "Build cache"); (".terraform", "Provider cache");
  ("site-packages", "Package dependencies"); (".venv", "Package dependencies"); ("venv", "Package dependencies");
  ("vendor-cache", "Package cache"); ("docker-buildcache", "Build cache")]%string.
Definition reproducibleSuffixes : list (string * string) := [
  (".cargo/registry", "Package cache"); (".cargo/git", "Package cache"); ("go/pkg/mod", "Package cache"); (".m2/repository", "Package cache");
  (".nuget/packages", "Package cache"); (".yarn/cache", "Package cache"); (".yarn/berry/cache", "Package cache");
  (".local/share/pnpm", "Package cache"); ("Content/Paks", "Game files"); ("Binaries/Win64", "Game files"); ("Binaries/Linux", "Game files");
  ("Engine/Binaries", "Game files"); ("Engine/Content", "Game files")]%string.
Definition dockerImageDirs : list string := ["overlay2"; "image"; "buildkit"; "containerd"; "tmp"; "vfs"; "fuse-overlayfs"; "btrfs"; "zfs"; "aufs"]%string.
Definition podmanImageDirs : list string := ["overlay"; "overlay-images"; "overlay-layers"; "vfs"; "vfs-images"; "vfs-layers"; "btrfs"; "zfs"]%string.
Definition mediaExt : list string := [".mkv"; ".mp4"; ".m4v"; ".avi"; ".mov"; ".wmv"; ".flv"; ".webm"; ".ts"; ".m2ts"; ".mpg"; ".mpeg"; ".vob";
  ".mp3"; ".flac"; ".wav"; ".aac"; ".ogg"; ".opus"; ".m4a"; ".wma"; ".aiff"; ".aif"; ".ape"; ".dsf"; ".alac"]%string.
Definition keepConfigExt : list string := [".yml"; ".yaml"; ".json"; ".toml"; ".ini"; ".conf"; ".cfg"; ".config"; ".properties"; ".xml"; ".env"]%string.
Definition keepKeyExt : list string := [".pem"; ".key"; ".crt"; ".p12"; ".pfx"; ".jks"; ".keystore"]%string.
Definition keepBuildDirs : list string := ["dist"; "build"; "out"; "target"; "coverage"; "vendor"; "logs"; "log"; "tmp"; "public"; "static"; ".svelte-kit"]%string.
Definition keepConfigMaxBytes : Z := 5 * 2 ^ 20.
Definition mediaDirMinBytes : Z := 50 * 2 ^ 20.
Definition mediaDirShare : spec_float := num "0.8".
Definition mediaFileMinBytes : Z := 200 * 2 ^ 20.
Definition mediaFileLimit : nat := 5000.

(** ** Names *)
Definition firstSeg (rel : string) : string := match Index rel "/" with Some i => ofBytes (take i (bytes rel)) | None => rel end.
Definition isTechnical (rel : string) : bool := bool_decide (firstSeg rel ∈ technicalRoots).
Definition classify_step (rel : string) (best : option place) (row : place) : option place :=
  if under (p_rel row) rel && bool_decide (match best with Some b => len (p_rel b) | None => -1 end < len (p_rel row)) then Some row else best.
Definition classifyPrefix (rel : string) (table : list place) : option place := fold_left (classify_step rel) table None.
Definition moreSpecificPersistent (rel : string) : bool :=
  existsb (fun p => under p rel) ["var/lib/postgresql"; "var/lib/pgsql"; "var/lib/mysql"; "var/lib/mariadb"; "var/lib/redis"; "var/lib/mongodb"; "var/lib/docker"]%string.
Definition underReproCache (rel : string) : bool :=
  HasPrefix rel "var/cache/" || HasPrefix rel "tmp/" || HasPrefix rel "var/tmp/" || Contains rel "/node_modules/".
Definition reproducibleDir (rel : string) : option (string * string) :=
  if HasPrefix rel "etc/" || bool_decide (rel = "etc"%string) then None
  else match find (fun r => bool_decide (r.1 = Base rel)) reproducibleNames with
  | Some r => Some ("repro:" +:+ Base rel, r.2)
  | None => match find (fun r => bool_decide (rel = r.1) || HasSuffix rel ("/" +:+ r.1)) reproducibleSuffixes with
            | Some r => Some ("repro:" +:+ r.1, r.2) | None => None end
  end.
Definition skipReproducibleWalk (id : string) : bool :=
  bool_decide (id ∈ ["repro:docker-overlay"; "repro:docker-image"; "repro:docker-buildkit"; "repro:containerd"; "repro:docker-containerd";
    "repro:docker-containers"; "repro:docker-tmp"; "repro:apt"; "repro:cache"]%string).
Definition isImageStoreItem (id : string) : bool :=
  HasPrefix id "images:" || bool_decide (id ∈ ["repro:docker-overlay"; "repro:docker-image"; "repro:docker-buildkit"; "repro:docker-containerd";
    "repro:containerd"; "repro:docker-tmp"]%string).
Definition slashes (rel : string) : nat := length (filter (fun a => a = slash) (bytes rel)).

(** ** The files of the workload *)
Fixpoint lookup_names (kids : list (string * entry)) (names : list string) : option entry :=
  match names with
  | [] => Some (Folder kids)
  | name :: rest =>
      match find (fun k => bool_decide (k.1 = name)) kids with
      | Some (_, Folder kids') => lookup_names kids' rest
      | Some (_, e) => match rest with [] => Some e | _ => None end
      | None => None
      end
  end.
(** What is at a path below the root. *)
Definition stat (kids : list (string * entry)) (rel : string) : option entry :=
  lookup_names kids (filter (fun s => s <> ""%string) (Split (TrimPrefix (Clean ("/" +:+ rel)) "/") slash)).
Definition isDir (kids : list (string * entry)) (rel : string) : bool :=
  match stat kids rel with Some (Folder _) => true | Some (Special to_dir) => to_dir | _ => false end.
Definition exists_ (kids : list (string * entry)) (rel : string) : bool := match stat kids rel with Some _ => true | None => false end.
Definition looksLikeGit (kids : list (string * entry)) (rel : string) : bool :=
  match stat kids (Join [rel; ".git"]) with Some (Folder _) | Some (Regular _) => true | _ => false end.
Definition imageStoreDir (kids : list (string * entry)) (rel : string) : option (string * string) :=
  let base := Base rel in
  let beside name := Join [Dir rel; name] in
  if HasPrefix base "io.containerd.snapshotter.v1." || bool_decide (base = "io.containerd.content.v1.content"%string)
  then Some ("images:" +:+ rel, "Container image layers"%string)
  else if bool_decide (base ∈ dockerImageDirs) && isDir kids (beside "volumes") && (isDir kids (beside "containers") || isDir kids (beside "network"))
  then Some ("images:" +:+ rel, "Docker image layers"%string)
  else if bool_decide (base ∈ podmanImageDirs) && (exists_ kids (beside "storage.lock") || isDir kids (beside "libpod"))
  then Some ("images:" +:+ rel, "Container image layers"%string)
  else None.

(** ** Media *)
Record mediaTally := mkTally { tMedia : gmap string Z; tTotal : gmap string Z; tFiles : list string; tOwner : gmap string (gmap string Z); tSizes : gmap string Z }.
Definition newMediaTally : mediaTally := mkTally ∅ ∅ [] ∅ ∅.
Definition bump (k : string) (n : Z) (t : gmap string Z) : gmap string Z := <[k := i64 (default 0 (t !! k) + n)]> t.

(** The directory and those above it, the root aside. *)
Fixpoint ups (fuel : nat) (d : string) : list string :=
  match fuel with
  | O => []
  | S fuel => if decide (d = "." \/ d = "/" \/ d = "")%string then [] else d :: ups fuel (Dir d)
  end.
Definition upsOf (d : string) : list string := ups (S (length (bytes d))) d.

Definition sumInto (l : list (string * Z)) (out : gmap string Z) : gmap string Z := fold_left (fun out ob => bump ob.1 ob.2 out) l out.
(** Over a map, in some order; [pick] is the key a range over it sees first. *)
Definition ownedUnder (pick : gmap string Z -> option string) (p : string) (t : mediaTally) : gmap string Z :=
  match tSizes t !! p with
  | Some size => match pick (default ∅ (tOwner t !! Dir p)) with Some owner => bump owner size ∅ | None => ∅ end
  | None => fold_left (fun out d => if under p d.1 then sumInto (map_to_list d.2) out else out) (map_to_list (tOwner t)) ∅
  end.

Section Scope.
Context `{CaseTables}.

Definition is_media (rel : string) : bool := bool_decide (ToLower (Ext rel) ∈ mediaExt).
Definition add (rel : string) (size : Z) (owner : string) (t : mediaTally) : mediaTally :=
  let dir := Dir rel in
  let t := mkTally (tMedia t) (bump dir size (tTotal t)) (tFiles t) (<[dir := bump owner size (default ∅ (tOwner t !! dir))]> (tOwner t)) (tSizes t) in
  if negb (is_media rel) then t
  else
    let t := mkTally (bump dir size (tMedia t)) (tTotal t) (tFiles t) (tOwner t) (tSizes t) in
    if bool_decide (mediaFileMinBytes <= size) && bool_decide (length (tFiles t) < mediaFileLimit)%nat
    then mkTally (tMedia t) (tTotal t) (tFiles t ++ [rel]) (tOwner t) (<[rel := size]> (tSizes t)) else t.

Definition share_of (b : Z) : spec_float := SFmul 53 1024 mediaDirShare (float_of_Z b).
Definition notMedia (t : mediaTally) (dir : string) (b : Z) : bool := SFltb (float_of_Z (default 0 (tMedia t !! dir))) (share_of b).
Definition subMedia (t : mediaTally) : gmap string Z :=
  fold_left (fun sub d => fold_left (fun sub u => bump u (default 0 (tMedia t !! d.1)) sub) (upsOf d.1) sub) (map_to_list (tTotal t)) ∅.
Definition mixed (t : mediaTally) : gset string :=
  list_to_set (concat (map (fun d => if notMedia t d.1 d.2 then upsOf d.1 else []) (map_to_list (tTotal t)))).
Definition chosen (t : mediaTally) : gset string :=
  list_to_set (map fst (filter (fun d => mediaDirMinBytes <= d.2 /\ SFleb (share_of (default 0 (tTotal t !! d.1))) (float_of_Z d.2) = true) (map_to_list (tMedia t)))) ∪
  list_to_set (map fst (filter (fun d => (1 <= slashes d.1)%nat /\ mediaDirMinBytes <= d.2 /\ d.1 ∉ mixed t) (map_to_list (subMedia t)))).
Definition inside (c : gset string) (p : string) : bool := existsb (fun d => bool_decide (d ∈ c)) (upsOf (Dir p)).
Definition excluded (t : mediaTally) : list string :=
  let c := chosen t in
  sortStrings (filter (fun d => inside c d = false) (elements c) ++ filter (fun f => inside c f = false) (tFiles t)).

(** ** Files kept inside a Git working tree *)
Definition keepInRepo (rel : string) (size : Z) : bool :=
  let lower := ToLower (Base rel) in
  if bool_decide (lower = ".env"%string) || HasPrefix lower ".env." || HasSuffix lower ".env" then true
  else
    let ext := Ext (TrimSuffix (TrimSuffix (TrimSuffix lower "-wal") "-shm") "-journal") in
    if bool_decide (ext ∈ sqliteExt) || bool_decide (ext = ".db3"%string) then true
    else if bool_decide (ext ∈ keepKeyExt) then size <=? keepConfigMaxBytes
    else if negb (bool_decide (ext ∈ keepConfigExt)) || (keepConfigMaxBytes <? size) then false
    else negb (existsb (fun seg => bool_decide (seg ∈ keepBuildDirs)) (Split (Dir rel) slash)).

(** ** The walk *)
Record scan := mkScan {
  items : gmap string Item; warnings : list Warning; full : Z;
  gitRoots : gmap string string; gitKeep : gmap string (list string); sqliteHits : gmap string Z; media : mediaTally }.
Definition scan0 : scan := mkScan ∅ [] 0 ∅ ∅ ∅ newMediaTally.
Definition on_items (f : gmap string Item -> gmap string Item) (s : scan) : scan :=
  mkScan (f (items s)) (warnings s) (full s) (gitRoots s) (gitKeep s) (sqliteHits s) (media s).
Definition on_media (f : mediaTally -> mediaTally) (s : scan) : scan :=
  mkScan (items s) (warnings s) (full s) (gitRoots s) (gitKeep s) (sqliteHits s) (f (media s)).
Definition add_warning (w : Warning) (s : scan) : scan :=
  mkScan (items s) (warnings s ++ [w]) (full s) (gitRoots s) (gitKeep s) (sqliteHits s) (media s).
Definition add_full (n : Z) (s : scan) : scan := mkScan (items s) (warnings s) (i64 (full s + n)) (gitRoots s) (gitKeep s) (sqliteHits s) (media s).
Definition add_git (rel id : string) (s : scan) : scan := mkScan (items s) (warnings s) (full s) (<[rel := id]> (gitRoots s)) (gitKeep s) (sqliteHits s) (media s).
Definition add_keep (repo rel : string) (s : scan) : scan :=
  mkScan (items s) (warnings s) (full s) (gitRoots s) (<[repo := default [] (gitKeep s !! repo) ++ [rel]]> (gitKeep s)) (sqliteHits s) (media s).
Definition add_sqlite (rel : string) (n : Z) (s : scan) : scan := mkScan (items s) (warnings s) (full s) (gitRoots s) (gitKeep s) (<[rel := n]> (sqliteHits s)) (media s).

Definition enclosingGit (rel : string) (roots : gmap string string) : string :=
  fold_left (fun best r => if under r.1 rel && bool_decide (len best < len r.1) then r.1 else best) (map_to_list roots) "".

(** A directory left out by its name or by what it stores. *)
Definition visit_skipped (mode : string) (kids : list (string * entry)) (rel : string) (s : scan) : option scan :=
  if isTechnical rel then
    Some (on_items (upsert ("tech:" +:+ firstSeg rel) KindTechnical "Runtime filesystem" false true (fun it => addPath ("/" +:+ rel) (set_excluded true it))) s)
  else if bool_decide (mode <> ModeFull) then
    match imageStoreDir kids rel with
    | Some (id, label) => Some (on_items (upsert id KindReproducible label false true (addPath ("/" +:+ rel))) s)
    | None =>
        match reproducibleDir rel with
        | Some (id, label) => Some (on_items (upsert (id +:+ ":" +:+ rel) KindReproducible label false true (addPath ("/" +:+ rel))) s)
        | None => None
        end
    end
  else None.

Definition git_note : string := "Git repository may contain uncommitted work, ignored files, or local-only state.".
Definition visit_git (rel : string) (s : scan) : scan :=
  let id := "git:" +:+ rel in
  let s := on_items (upsert id KindGit "Git repository" false true (fun it => warn git_note (addPath ("/" +:+ rel) it))) s in
  add_warning (mkWarning "warning" "Git repository may contain uncommitted work or local-only files." id ("/" +:+ rel)) (add_git rel id s).

(** Inside the working tree [repo]. *)
Definition visit_in_git (repo rel : string) (e : entry) (s : scan) : scan * bool :=
  match e with
  | Folder _ => (s, bool_decide (Base rel = ".git"%string))
  | Special _ => (s, false)
  | Regular size =>
      if keepInRepo rel size then (add_keep repo rel s, false)
      else (on_items (fun its => match gitRoots s !! repo with Some id => alter (add_bytes size) id its | None => its end) s, false)
  end.

Definition count (id : place) (size : Z) : gmap string Item -> gmap string Item :=
  upsert (p_id id) (p_kind id) (p_label id) (bool_decide (p_kind id <> KindOS)) false (fun it => add_bytes size (addPath ("/" +:+ p_rel id) it)).

(** Below a persistent prefix. *)
Definition generic_place (id : string) : bool := bool_decide (id ∈ ["app:opt"; "app:root"; "app:home"; "app:srv"; "app:var-lib"]%string).
Definition visit_persistent (mode : string) (row : place) (rel : string) (e : entry) (size : Z) (s : scan) : scan :=
  let '(s, owner) :=
    if bool_decide (p_id row = "config:etc"%string) && (HasPrefix rel "etc/ssl" || HasPrefix rel "etc/letsencrypt" || HasPrefix rel "etc/systemd") then (s, ""%string)
    else if bool_decide (p_id row = "app:var-lib"%string) && moreSpecificPersistent rel then (s, ""%string)
    else if generic_place (p_id row) then
      if is_folder e && (1 <=? slashes rel)%nat then
        (on_items (upsert ("app:" +:+ rel) KindApplication "Application data" true false (fun it => add_bytes size (addPath ("/" +:+ rel) it))) s, ""%string)
      else (on_items (count row size) s, p_id row)
    else (on_items (count row size) s, p_id row) in
  match e with
  | Regular _ => if bool_decide (mode <> ModeFull) && bool_decide (owner <> ""%string) then on_media (add rel size owner) s else s
  | _ => s
  end.

Definition uncertain_note : string := "Directory classification uncertain.".
Definition visit_uncertain (mode rel : string) (size : Z) (s : scan) : scan :=
  let id := "uncertain:" +:+ Dir rel in
  let s := if bool_decide (mode <> ModeFull) then on_media (add rel size id) s else s in
  let fresh := match items s !! id with Some it => bool_decide (iWarnings it = []) | None => true end in
  let s := on_items (upsert id KindUncertain "Unclassified data" true false (fun it =>
    let it := add_bytes size (addPath ("/" +:+ Dir rel) it) in if fresh then set_warnings (iWarnings it ++ [uncertain_note]) it else it)) s in
  if fresh then add_warning (mkWarning "info" uncertain_note id ("/" +:+ Dir rel)) s else s.

Definition visit_classified (mode rel : string) (e : entry) (size : Z) (s : scan) : scan * bool :=
  let s := match e with
           | Regular _ => if bool_decide (ToLower (Ext rel) ∈ sqliteExt) && negb (underReproCache rel) then add_sqlite rel size s else s
           | _ => s end in
  let persist := classifyPrefix rel persistentPrefixes in
  let repro := classifyPrefix rel reproduciblePrefixes in
  let persist := match repro, persist with
                 | Some r, Some p => if len (p_rel p) <? len (p_rel r) then None else persist
                 | _, _ => persist end in
  match (if isTechnical rel then None else persist) with
  | Some row => (visit_persistent mode row rel e size s, false)
  | None =>
      match repro with
      | Some row =>
          (on_items (upsert (p_id row) (p_kind row) (p_label row) false true (fun it => add_bytes size (addPath ("/" +:+ p_rel row) it))) s,
           is_folder e && bool_decide (rel = p_rel row) && bool_decide (mode <> ModeFull) && skipReproducibleWalk (p_id row))
      | None => (if negb (is_folder e) && (0 <? size) && negb (isTechnical rel) then visit_uncertain mode rel size s else s, false)
      end
  end.

(** One entry: the state after it, and whether what is below it is left out. *)
Definition visit (mode : string) (kids : list (string * entry)) (rel : string) (e : entry) (s : scan) : scan * bool :=
  match (if is_folder e then visit_skipped mode kids rel s else None) with
  | Some s => (s, true)
  | None =>
      let size := match e with Regular n => n | _ => 0 end in
      let s := match e with Regular n => add_full n s | _ => s end in
      if is_folder e && looksLikeGit kids rel then (visit_git rel s, false)
      else
        let repo := enclosingGit rel (gitRoots s) in
        if bool_decide (repo <> ""%string) then visit_in_git repo rel e s else visit_classified mode rel e size s
  end.

Fixpoint walk (mode : string) (root : list (string * entry)) (rel : string) (e : entry) (s : scan) : scan :=
  let '(s, skip) := visit mode root rel e s in
  match e with
  | Folder kids => if skip then s else fold_left (fun s k => walk mode root (below rel k.1) k.2 s) kids s
  | _ => s
  end.
Definition walk_root (mode : string) (root : list (string * entry)) : scan := fold_left (fun s k => walk mode root k.1 k.2 s) root scan0.

(** ** After the walk *)
Definition uniquePath (p : string) : string :=
  if negb (HasPrefix p "/") && negb (Contains p "/") then p else if negb (HasPrefix p "/") then "/" +:+ TrimPrefix p "./" else p.
Definition uniquePaths (l : list string) : list string :=
  sortStrings (add_new [] (map uniquePath (filter (fun p => p <> ""%string) (map TrimSpace l)))).

Definition allUnder (paths roots : list string) : bool := forallb (fun p => existsb (fun r => under r (TrimPrefix p "/")) roots) paths.
Definition trim_slashes (p : string) : string := ofBytes (rev (drop_slashes (rev (bytes p)))).
Definition pathOverlap (p : string) (paths : list string) : bool :=
  let p := trim_slashes p in
  existsb (fun o => let o := trim_slashes o in under o p || HasPrefix o (p +:+ "/")) paths.
Definition bindHoldsGit (bind : string) (roots : gmap string string) : bool :=
  let b := ofBytes (drop_slashes (bytes (trim_slashes bind))) in
  existsb (fun r => bool_decide (b = r.1) || bool_decide (b = ""%string) || HasPrefix r.1 (b +:+ "/")) (map_to_list roots).
Definition ResolveDockerVolumePath (name : string) : string :=
  let name := TrimSpace name in
  if decide (name = ""%string) then "" else if HasPrefix name "/" then name else "/var/lib/docker/volumes/" +:+ name +:+ "/_data".

Definition add_databases (s : scan) : gmap string Item :=
  fold_left (fun its h => upsert ("db:sqlite:" +:+ h.1) KindDatabase "SQLite database" true false (fun it => add_bytes h.2 (addPath ("/" +:+ h.1) it)) its)
    (map_to_list (sqliteHits s)) (items s).

Definition move_bytes (media_id : string) (owned : list (string * Z)) (its : gmap string Item) : gmap string Item :=
  fold_left (fun its ob => alter (add_bytes ob.2) media_id (alter (add_bytes (- ob.2)) ob.1 its)) owned its.
Definition add_media (pick : gmap string Z -> option string) (t : mediaTally) (its : gmap string Item) : gmap string Item :=
  fold_left (fun its m => move_bytes ("media:" +:+ m) (map_to_list (ownedUnder pick m t))
    (upsert ("media:" +:+ m) KindMedia "Media files" false true (addPath ("/" +:+ m)) its)) (excluded t) its.

Definition swallowed (mediaPaths : list string) (it : Item) : bool :=
  (bool_decide (iKind it = KindApplication) || bool_decide (iKind it = KindUncertain)) && bool_decide (iPaths it <> []) && allUnder (iPaths it) mediaPaths.
Definition drop_swallowed (mediaPaths : list string) (its : gmap string Item) : gmap string Item := filter (fun x => swallowed mediaPaths x.2 = false) its.

(** *** Git working trees.  [git] answers a run of Git in a directory: its output, or that
    it failed; [safe_url] takes the credentials out of a remote's address. *)
Context (git : string -> list string -> option string) (safe_url : string -> string).

Definition non_empty (l : list string) : list string := filter (fun s => s <> ""%string) l.
Definition nul_byte : ascii := chr 0.
Definition read_remotes (out : string) : list GitRemote :=
  (fold_left (fun acc line =>
    match Fields line with
    | name :: u :: _ => if decide (name ∈ acc.1) then acc else (name :: acc.1, acc.2 ++ [mkRemote name (safe_url u)])
    | _ => acc
    end) (Split out (chr 10)) ([], [])).2.
Definition GitChangedLimit : nat := 200.
Definition changes (out : string) : list string := filter (fun e => (4 <= length (bytes e))%nat) (Split out nul_byte).

Definition inspectGit (dir guestPath : string) : GitRepo * list string :=
  let none err := mkRepo guestPath [] "" "" false [] false "" 0 [] err in
  match git dir ["ls-files"; "-z"]%string with
  | None => (none "could not read the repository"%string, [])
  | Some out =>
      let tracked := non_empty (Split out nul_byte) in
      let text args := match git dir args with Some out => TrimSpace out | None => ""%string end in
      let commit := text ["rev-parse"; "HEAD"]%string in
      let branch := text ["symbolic-ref"; "--short"; "-q"; "HEAD"]%string in
      let remotes := match git dir ["remote"; "-v"]%string with Some out => read_remotes out | None => [] end in
      let changed := match git dir ["status"; "--porcelain=v1"; "-z"; "--untracked-files=all"]%string with Some out => changes out | None => [] end in
      let dirty := bool_decide (changed <> []) in
      let listed := take GitChangedLimit (map (fun e => ofBytes (drop 3 (bytes e))) changed) in
      let pushed :=
        match git dir ["branch"; "-r"; "--contains"; commit]%string with Some out => bool_decide (TrimSpace out <> ""%string) | None => false end in
      let '(unpushed, base, commits) :=
        if decide (commit = ""%string) then (false, ""%string, 0)
        else if decide (remotes = []) then (true, ""%string, 0)
        else if pushed then (false, ""%string, 0)
        else
          match git dir ["rev-list"; "--first-parent"; commit; "--not"; "--remotes"]%string with
          | Some out => let ids := Fields out in
              (true, match last ids with Some id => text ["rev-parse"; "--verify"; "-q"; id +:+ "^"]%string | None => ""%string end, Z.of_nat (length ids))
          | None => (true, ""%string, 0)
          end in
      (mkRepo guestPath remotes branch commit dirty listed unpushed base commits [] "", tracked)
  end.

Definition set_kept (l : list string) (r : GitRepo) : GitRepo :=
  mkRepo (gPath r) (gRemotes r) (gBranch r) (gCommit r) (gDirty r) (gChanged r) (gUnpushed r) (gPushedBase r) (gUnpushedCommits r) l (gError r).
Definition size_of (kids : list (string * entry)) (rel : string) : Z := match stat kids rel with Some (Regular n) => n | _ => 0 end.

(** One working tree: its record, and the files kept of it. *)
Definition git_repo (root : string) (kids : list (string * entry)) (keep : gmap string (list string)) (acc : gmap string Item * list GitRepo) (r : string * string)
  : gmap string Item * list GitRepo :=
  let '(its, repos) := acc in
  let '(rel, id) := r in
  let '(repo, tracked) := inspectGit (Join [root; rel]) ("/" +:+ rel) in
  let '(mine, kept) := List.partition (fun f => bool_decide (TrimPrefix f (rel +:+ "/") ∈ tracked)) (default [] (keep !! rel)) in
  let its := fold_left (fun its f => alter (add_bytes (size_of kids f)) id its) mine its in
  let repo := set_kept (sortStrings (map (fun f => "/" +:+ f) kept)) repo in
  let its := if decide (kept = []) then its else
    upsert ("git-keep:" +:+ rel) KindConfig "Untracked config, databases and .env in a Git repository" true false
      (fun it => set_bytes (fold_left (fun b f => i64 (b + size_of kids f)) kept 0) (set_paths (gKept repo) it)) its in
  let its := if gDirty repo then alter (warn "Git repository has uncommitted changes.") id its else its in
  let its := if gUnpushed repo then alter (warn "Git repository has commits that are on no remote.") id its else its in
  (its, repos ++ [repo]).
Definition git_repos (root : string) (kids : list (string * entry)) (s : scan) (its : gmap string Item) : gmap string Item * list GitRepo :=
  fold_left (git_repo root kids (gitKeep s)) (map_to_list (gitRoots s)) (its, []).

(** Work a fresh clone would lose. *)
Definition Unsaved (g : GitRepo) : list string :=
  let kept := map (fun k => TrimPrefix (TrimPrefix k (gPath g)) "/") (gKept g) in filter (fun c => c ∉ kept) (gChanged g).
Definition AtRisk (g : GitRepo) : bool := gUnpushed g || bool_decide (Unsaved g <> []) || bool_decide (GitChangedLimit <= length (gChanged g))%nat.

(** *** Docker *)
Definition add_volume (paths : list string) (its : gmap string Item) (iv : nat * string) : gmap string Item :=
  let vol := TrimSpace iv.2 in
  if decide (vol = ""%string) then its
  else
    let path := match paths !! iv.1 with
                | Some p => if decide (TrimSpace p <> ""%string) then TrimSpace p else ResolveDockerVolumePath vol
                | None => ResolveDockerVolumePath vol end in
    upsert ("docker:volume:" +:+ vol) KindDockerVolume "Docker volume" true false (addPath path) its.
Definition bind_note : string := "Docker bind mount contains persistent application data.".
Definition add_bind (roots : gmap string string) (acc : gmap string Item * list Warning) (bind : string) : gmap string Item * list Warning :=
  let '(its, warns) := acc in
  let bind := TrimSpace bind in
  if decide (bind = ""%string) then acc
  else
    let id := "docker:bind:" +:+ bind in
    if bindHoldsGit bind roots then (upsert id KindDockerBind "Docker bind mount (Git working tree)" false true (addPath bind) its, warns)
    else (upsert id KindDockerBind "Docker bind mount" true false (fun it => warn bind_note (addPath bind it)) its, warns ++ [mkWarning "info" bind_note id bind]).
Definition add_docker (roots : gmap string string) (hint : option DockerHint) (acc : gmap string Item * list Warning) : gmap string Item * list Warning :=
  match hint with
  | None => acc
  | Some h =>
      let '(its, warns) := acc in
      let its := fold_left (add_volume (VolumePaths h)) (imap (fun i v => (i, v)) (NamedVolumes h)) its in
      let '(its, warns) := fold_left (add_bind roots) (BindMounts h) (its, warns) in
      (if decide (Projects h = []) then its
       else upsert "docker:compose" KindConfig "Compose configuration" true false (fun it => fold_left (fun it p => addPath p it) (Projects h) it) its, warns)
  end.

(** ** The selection *)
Definition item_on (mode : string) (sel : Selection) (it : Item) : bool :=
  let on := iDefaultOn it && negb (iExcluded it) in
  let on := if bool_decide (mode = ModeFull) && bool_decide (iKind it <> KindTechnical) then true else on in
  let on := if bool_decide (mode = ModeCustom) && bool_decide (Selected sel = [] /\ Deselected sel = [] /\ Includes sel = [] /\ Excludes sel = [])
            then iDefaultOn it && negb (iReproducible it) && bool_decide (iKind it <> KindTechnical) else on in
  let on := if bool_decide (iID it ∈ Selected sel) then true else on in
  let on := if bool_decide (mode = ModeSmart) && isImageStoreItem (iID it) then false else on in
  if bool_decide (iID it ∈ Deselected sel) then false else on.

Definition PlanCapture (mode : string) (its : list Item) : list string * list string :=
  let technical := concat (map iPaths (filter (fun it => iKind it = KindTechnical) its)) in
  if decide (mode = ModeFull) then ([], uniquePaths technical)
  else
    (uniquePaths (concat (map iPaths (filter (fun it => iKind it <> KindTechnical /\ iSelected it = true) its))),
     uniquePaths (concat (map iPaths (filter (fun it => iKind it = KindTechnical \/ iSelected it = false) its)))).

Definition overlap_note : string := "Custom exclusion overlaps detected database storage.".
Definition overlaps (p : string) (it : Item) : bool := iSelected it && pathOverlap p (iPaths it) && bool_decide (iKind it = KindDatabase).
Definition note_overlaps (acc : list Item * list Warning) (p : string) : list Item * list Warning :=
  (map (fun it => if overlaps p it then warn overlap_note it else it) acc.1,
   acc.2 ++ map (fun it => mkWarning "warning" overlap_note (iID it) p) (filter (fun it => overlaps p it = true) acc.1)).

Definition sum_bytes (its : list Item) : Z := fold_left (fun b it => i64 (b + iBytes it)) its 0.
Definition applySelection (sel : Selection) (prev : Preview) : Preview :=
  let mode := pMode prev in
  let its := map (fun it => set_selected (item_on mode sel it) it) (pItems prev) in
  let protected := sum_bytes (filter (fun it => iSelected it = true) its) in
  let excluded := sum_bytes (filter (fun it => iSelected it = false) its) in
  let its := match uniquePaths (Includes sel) with [] => its
             | extra => its ++ [mkItem "custom:includes" KindApplication "Custom includes" extra 0 true true false false []] end in
  let '(its, warns) := match uniquePaths (Excludes sel) with [] => (its, pWarnings prev)
             | extra => fold_left note_overlaps extra (its ++ [mkItem "custom:excludes" KindReproducible "Custom excludes" extra 0 false false true true []], pWarnings prev) end in
  let '(incs, excs) := PlanCapture mode its in
  mkPreview (pWorkloadID prev) (pWorkloadName prev) mode its warns protected excluded (pFull prev) incs excs (pRepos prev).

(** ** Discovery *)
Record Options := mkOptions { oRoot : string; oWorkloadID : string; oName : string; oMode : string; oSelection : Selection; oDocker : option DockerHint }.
Definition item_le (a b : Item) : Prop := if decide (iKind a = iKind b) then String.le (iID a) (iID b) else String.le (iKind a) (iKind b).
#[export] Instance item_le_dec : RelDecision item_le.
Proof. intros a b. unfold item_le. destruct (decide (iKind a = iKind b)); apply _. Defined.
Definition repo_le (a b : GitRepo) : Prop := String.le (gPath a) (gPath b).
#[export] Instance repo_le_dec : RelDecision repo_le.
Proof. intros a b. unfold repo_le. apply _. Defined.

Definition mode_of (opts : Options) : string := let m := TrimSpace (oMode opts) in if decide (m = ""%string) then ModeSmart else m.
Definition Discover (pick : gmap string Z -> option string) (opts : Options) (kids : list (string * entry)) : Preview :=
  let root := Clean (oRoot opts) in
  let mode := mode_of opts in
  let s := walk_root mode kids in
  let its := add_databases s in
  let its := add_media pick (media s) its in
  let its := drop_swallowed (excluded (media s)) its in
  let '(its, repos) := git_repos root kids s its in
  let '(its, warns) := add_docker (gitRoots s) (oDocker opts) (its, warnings s) in
  applySelection (oSelection opts)
    (mkPreview (oWorkloadID opts) (oName opts) mode (merge_sort item_le (map snd (map_to_list its))) warns 0 0 (full s) [] [] (merge_sort repo_le repos)).
End Scope.
