(* ===== verification/ScopeProps.v ===== *)
(** * Nothing is left out in silence

    Every file of the workload lies at or below a path of an item of the preview, so what a
    capture leaves out is below an item that is not selected ([ScopeSafety]). *)
From stdpp Require Import sorting.
From S2P Require Export Scope CaptureProps.

(** ** Paths below the root as names *)
Definition relof (q : list string) : string := match q with [] => "." | _ => join q end.
Definition rooted (q : list string) : string := "/" +:+ relof q.

Lemma relof_some q : q <> [] -> relof q = join q.
Proof. by destruct q. Qed.
Lemma rooted_some q : q <> [] -> rooted q = abs q.
Proof. by destruct q. Qed.
Lemma Clean_rooted_names q : Forall plain q -> Clean (rooted q) = abs q.
Proof. intros Hq. destruct q as [|s q]; [done|]. rewrite rooted_some by done. by apply Clean_abs. Qed.
Lemma relof_inj a b : Forall plain a -> Forall plain b -> relof a = relof b -> a = b.
Proof.
  intros Ha Hb. destruct a as [|s a], b as [|t b]; [done|..]; cbn [relof].
  - intros E. symmetry in E. by apply (dot_plain (t :: b)) in E.
  - intros E. by apply (dot_plain (s :: a)) in E.
  - by apply join_names_inj.
Qed.

Lemma last_indexb_app c a l i : c ∉ l -> last_indexb [c] (a ++ c :: l) i = Some (i + length a)%nat.
Proof.
  intros Hl. assert (forall i, last_indexb [c] l i = None) as Hn.
  { clear i. intros i. revert i. induction l as [|b l IH]; intros i; cbn; [done|]. apply not_elem_of_cons in Hl as [Hb Hl]. rewrite IH by done.
    by destruct (Ascii.eqb_spec c b). }
  revert i. induction a as [|b a IH]; intros i; cbn [app last_indexb].
  - rewrite Hn. unfold prefixb. rewrite Ascii.eqb_refl. cbn. f_equal. lia.
  - rewrite IH. f_equal. cbn. lia.
Qed.
Lemma last_indexb_none c l i : c ∉ l -> last_indexb [c] l i = None.
Proof.
  revert i. induction l as [|b l IH]; intros i Hl; cbn; [done|]. apply not_elem_of_cons in Hl as [Hb Hl]. rewrite IH by done. by destruct (Ascii.eqb_spec c b).
Qed.

(** The last slash of a clean path is before its last name. *)
Lemma last_slash_join q s : Forall plain (q ++ [s]) -> take (last_slash (join (q ++ [s]))) (bytes (join (q ++ [s]))) = closed q /\
  drop (last_slash (join (q ++ [s]))) (bytes (join (q ++ [s]))) = bytes s.
Proof.
  intros [Hq [[Hs _] _]%Forall_cons]%Forall_app.
  assert (bytes (join (q ++ [s])) = closed q ++ bytes s) as E.
  { apply (app_inv_tail [slash]). rewrite bytes_join by (by destruct q). rewrite closed_app, <- app_assoc. f_equal. cbn. by rewrite app_nil_r. }
  unfold last_slash, LastIndex. rewrite E. destruct q as [|t q _] using rev_ind.
  - cbn [closed map concat app]. change (bytes "/") with [slash]. by rewrite last_indexb_none.
  - assert (closed (q ++ [t]) ++ bytes s = (closed q ++ bytes t) ++ slash :: bytes s) as E'.
    { rewrite closed_app. unfold closed at 2. cbn. rewrite app_nil_r, <- !app_assoc. done. }
    rewrite E'. change (bytes "/") with [slash]. rewrite last_indexb_app by done. cbn [Nat.add].
    assert (closed (q ++ [t]) = (closed q ++ bytes t) ++ [slash]) as -> by (rewrite closed_app; unfold closed at 2; cbn; by rewrite app_nil_r, <- !app_assoc).
    assert ((closed q ++ bytes t) ++ slash :: bytes s = ((closed q ++ bytes t) ++ [slash]) ++ bytes s) as -> by (by rewrite <- !app_assoc).
    assert (S (length (closed q ++ bytes t)) = length ((closed q ++ bytes t) ++ [slash])) as -> by (rewrite !length_app; cbn [length]; lia).
    by rewrite take_app_length, drop_app_length.
Qed.

Lemma Dir_join q s : Forall plain (q ++ [s]) -> Dir (join (q ++ [s])) = relof q.
Proof.
  intros H. unfold Dir. destruct (last_slash_join q s H) as [-> _]. apply Forall_app in H as [Hq _]. destruct q as [|t q]; [done|].
  rewrite relof_some by done. rewrite <- bytes_join by done. transitivity (Clean (join (t :: q))); [|by apply Clean_join]. unfold Clean.
  assert (ofBytes (bytes (join (t :: q)) ++ [slash]) = join (t :: q) +:+ "/") as -> by (apply bytes_inj; by rewrite bytes_ofBytes, bytes_app).
  assert (HasPrefix (join (t :: q) +:+ "/") "/" = HasPrefix (join (t :: q)) "/") as ->.
  { assert (join (t :: q) <> ""%string) as Hne by by apply join_nonempty. by destruct (join (t :: q)). }
  rewrite join_no_slash by done. cbv zeta iota. f_equal.
  assert (fold_left (clean_step false) (Split (join (t :: q) +:+ "/") slash) [] = fold_left (clean_step false) (Split (join (t :: q)) slash) []) as ->; [|done].
  rewrite Split_join by done. unfold Split. rewrite bytes_app. change (bytes "/") with [slash]. rewrite bytes_join by done. rewrite split_closed by done.
  by rewrite fold_left_app.
Qed.

Lemma firstSeg_join s q : Forall plain (s :: q) -> firstSeg (join (s :: q)) = s.
Proof.
  intros [[Hs Hne] _]%Forall_cons. unfold firstSeg, Index. change (bytes "/") with [slash].
  assert (forall l r i, slash ∉ l -> indexb [slash] (l ++ slash :: r) i = Some (i + length l)%nat) as Hi.
  { intros l. induction l as [|b l IH]; intros r i Hl; cbn [app indexb prefixb length]; [rewrite Ascii.eqb_refl; cbn; f_equal; lia|].
    apply not_elem_of_cons in Hl as [Hb Hl]. destruct (Ascii.eqb_spec slash b); [done|]. cbn [andb]. rewrite IH by done. f_equal. lia. }
  destruct q as [|t q].
  - assert (forall l i, slash ∉ l -> indexb [slash] l i = None) as Hn.
    { intros l. induction l as [|b l IH]; intros i Hl; cbn [indexb prefixb]; [done|]. apply not_elem_of_cons in Hl as [Hb Hl]. destruct (Ascii.eqb_spec slash b); [done|]. cbn [andb]. by apply IH. }
    cbn [join]. by rewrite Hn.
  - change (join (s :: t :: q)) with (s +:+ "/" +:+ join (t :: q)). rewrite !bytes_app. change (bytes "/") with [slash]. cbn [app].
    rewrite Hi by done. cbn [Nat.add]. rewrite take_app_length. by rewrite ofBytes_bytes.
Qed.
Lemma isTechnical_join s q : Forall plain (s :: q) -> isTechnical (join (s :: q)) = bool_decide (s ∈ technicalRoots).
Proof. intros H. unfold isTechnical. by rewrite firstSeg_join. Qed.

(** ** Items *)
Fixpoint entries (x : list string) (e : entry) : list (list string * entry) :=
  (x, e) :: match e with Folder kids => concat (map (fun k => entries (x ++ [k.1]) k.2) kids) | _ => [] end.

(** The items that are off unless they are picked, by their identifiers. *)
Definition off (id : string) : bool := existsb (HasPrefix id) ["tech:"; "images:"; "repro:"; "git:"; "os:"; "media:"]%string.

(** What is always so of an item; [R] holds of the paths of those that are off. *)
Record okitem (R : list string -> Prop) (id : string) (it : Item) : Prop := {
  ok_id : iID it = id;
  ok_on : iDefaultOn it = negb (off id);
  ok_repro : iReproducible it = off id;
  ok_excluded : iExcluded it = true -> off id = true;
  ok_paths : off id = true -> forall p, p ∈ iPaths it -> exists q, Forall plain q /\ p = rooted q /\ R q;
  ok_media : HasPrefix id "media:" = true -> iKind it = KindMedia;
  ok_tech : iKind it = KindTechnical -> off id = true }.

Section okitem.
Context (R : list string -> Prop) (id : string).
Notation ok := (okitem R id).
Lemma ok_set_bytes b it : ok it -> ok (set_bytes b it).
Proof. intros []. by split. Qed.
Lemma ok_add_bytes b it : ok it -> ok (add_bytes b it).
Proof. apply ok_set_bytes. Qed.
Lemma ok_warn m it : ok it -> ok (warn m it).
Proof. intros []. by split. Qed.
Lemma ok_set_warnings l it : ok it -> ok (set_warnings l it).
Proof. intros []. by split. Qed.
Lemma ok_set_excluded it : off id = true -> ok it -> ok (set_excluded true it).
Proof. intros ? []. by split. Qed.
Lemma ok_addPath q it : (off id = true -> Forall plain q /\ R q) -> ok it -> ok (addPath (rooted q) it).
Proof.
  intros Hq Hit. unfold addPath. case_decide; [done|]. case_decide; [done|]. destruct Hit as [H1 H2 H3 H4 H5 H6 H7]. split; try done.
  cbn. intros Ho p [Hp|Hp%list_elem_of_singleton]%elem_of_app; [by apply H5|subst p]. destruct (Hq Ho). by exists q.
Qed.
End okitem.
Lemma ok_weaken (R R' : list string -> Prop) id it : (forall q, R q -> R' q) -> okitem R id it -> okitem R' id it.
Proof. intros HR []. split; try done. intros Ho p Hp. destruct (ok_paths0 Ho p Hp) as (q & ? & ? & ?). exists q. auto. Qed.

Lemma upsert_ok R (its : gmap string Item) id kind label f :
  map_Forall (okitem R) its -> (HasPrefix id "media:" = true -> kind = KindMedia) -> (kind = KindTechnical -> off id = true) ->
  (forall it, okitem R id it -> okitem R id (f it)) -> map_Forall (okitem R) (upsert id kind label (negb (off id)) (off id) f its).
Proof.
  intros Hits Hm Ht Hf. unfold upsert. apply map_Forall_insert_2; [|done]. apply Hf. destruct (its !! id) as [it|] eqn:E; [by apply (Hits id it)|].
  split; cbn; try done. by intros _ p ?%elem_of_nil.
Qed.
Lemma alter_ok R (its : gmap string Item) id f : map_Forall (okitem R) its -> (forall it, okitem R id it -> okitem R id (f it)) -> map_Forall (okitem R) (alter f id its).
Proof.
  intros Hits Hf k it Hk. destruct (decide (k = id)) as [->|Hn].
  - rewrite lookup_alter_eq in Hk. apply fmap_Some in Hk as (it' & Hit & ->). by apply Hf, (Hits id).
  - rewrite lookup_alter_ne in Hk by done. by apply Hits.
Qed.

(** *** Paths only grow *)
Definition kept_id (id : string) : Prop := HasPrefix id "git-keep:" = false.
Definition grows (its its' : gmap string Item) : Prop :=
  forall id it, kept_id id -> its !! id = Some it -> exists it', its' !! id = Some it' /\ forall p, p ∈ iPaths it -> p ∈ iPaths it'.
#[export] Instance grows_preorder : PreOrder grows.
Proof.
  split; [intros its id it _ H; by exists it|]. intros a b c H1 H2 id it Hk H. destruct (H1 id it Hk H) as (it' & H' & Hp). destruct (H2 id it' Hk H') as (it'' & H'' & Hp').
  exists it''. auto.
Qed.
Definition keeps_paths (f : Item -> Item) : Prop := forall it p, p ∈ iPaths it -> p ∈ iPaths (f it).
Lemma addPath_keeps p : keeps_paths (addPath p).
Proof. intros it q Hq. unfold addPath. case_decide; [done|]. case_decide; [done|]. apply elem_of_app. by left. Qed.
Lemma addPath_elem p it : p <> ""%string -> p ∈ iPaths (addPath p it).
Proof. intros Hp. unfold addPath. rewrite decide_False by done. case_decide; [done|]. apply elem_of_app. right. by left. Qed.
Lemma upsert_grows id kind label on rp f its : keeps_paths f -> grows its (upsert id kind label on rp f its).
Proof.
  intros Hf id' it _ Hit. unfold upsert. destruct (decide (id = id')) as [<-|Hn].
  - rewrite lookup_insert_eq, Hit. eexists. split; [done|]. apply Hf.
  - rewrite lookup_insert_ne by done. by exists it.
Qed.
Lemma upsert_keep_grows id kind label on rp f its : ~ kept_id id -> grows its (upsert id kind label on rp f its).
Proof. intros Hn id' it Hk Hit. unfold upsert. rewrite lookup_insert_ne by (by intros ->). by exists it. Qed.
Lemma alter_grows id f (its : gmap string Item) : keeps_paths f -> grows its (alter f id its).
Proof.
  intros Hf id' it _ Hit. destruct (decide (id = id')) as [<-|Hn].
  - rewrite lookup_alter_eq, Hit. eexists. split; [done|]. apply Hf.
  - rewrite lookup_alter_ne by done. by exists it.
Qed.
Lemma fold_grows {A} (f : gmap string Item -> A -> gmap string Item) l its : (forall its a, grows its (f its a)) -> grows its (fold_left f l its).
Proof. intros Hf. revert its. induction l as [|a l IH]; intros its; cbn; [done|]. etrans; [apply Hf|apply IH]. Qed.
Lemma fold_all {A B} (P : B -> Prop) (f : B -> A -> B) l b : P b -> (forall b a, a ∈ l -> P b -> P (f b a)) -> P (fold_left f l b).
Proof.
  revert b. induction l as [|a l IH]; intros b Hb Hf; cbn; [done|]. apply IH; [apply Hf; [left|done]|]. intros b' a' Ha. apply Hf. by right.
Qed.

(** An item covers [x]: one of its paths is at or above it. *)
Definition covers (its : gmap string Item) (x : list string) : Prop :=
  exists id it q, kept_id id /\ its !! id = Some it /\ Forall plain q /\ rooted q ∈ iPaths it /\ q `prefix_of` x.
Lemma covers_grows its its' x : grows its its' -> covers its x -> covers its' x.
Proof. intros Hg (id & it & q & Hk & Hit & Hp & Hq & Hx). destruct (Hg id it Hk Hit) as (it' & Hit' & Hs). exists id, it', q. split_and!; auto. Qed.
Lemma covers_below its a x : a `prefix_of` x -> covers its a -> covers its x.
Proof. intros Hp (id & it & q & Hk & Hit & Hq & Hin & Hx). exists id, it, q. split_and!; [done..|]. by etrans. Qed.
Lemma upsert_covers id kind label on rp f its q : kept_id id -> Forall plain q -> (forall it, rooted q ∈ iPaths (f it)) -> covers (upsert id kind label on rp f its) q.
Proof. intros Hk Hq Hf. eexists id, _, q. split_and!; [done|apply lookup_insert_eq|done|apply Hf|done]. Qed.

(** ** The tables *)
Definition row_names (row : place) : list string := Split (p_rel row) slash.
Definition row_ok (o : bool) (row : place) : bool :=
  bool_decide (Forall plain (row_names row) /\ row_names row <> [] /\ p_rel row = join (row_names row)) && bool_decide (kept_id (p_id row)) &&
  bool_decide (off (p_id row) = o) && negb (HasPrefix (p_id row) "media:") && bool_decide (p_kind row <> KindTechnical) && (o || bool_decide (p_kind row <> KindOS)).
#[local] Instance kept_id_dec id : Decision (kept_id id).
Proof. unfold kept_id. apply _. Defined.

Lemma row_facts o row : row_ok o row = true ->
  Forall plain (row_names row) /\ row_names row <> [] /\ p_rel row = join (row_names row) /\ kept_id (p_id row) /\ off (p_id row) = o /\
  HasPrefix (p_id row) "media:" = false /\ p_kind row <> KindTechnical /\ (o = false -> p_kind row <> KindOS).
Proof.
  unfold row_ok. rewrite !andb_true_iff, orb_true_iff, !bool_decide_eq_true, negb_true_iff. intros (((((? & ?) & ?) & ?) & ?) & Ho). split_and!; try tauto. intros ->. by destruct Ho.
Qed.
Lemma persistent_rows row : row ∈ persistentPrefixes -> row_ok false row = true.
Proof. rewrite list_elem_of_In. revert row. by apply forallb_forall. Qed.
Lemma reproducible_rows row : row ∈ reproduciblePrefixes -> row_ok true row = true.
Proof. rewrite list_elem_of_In. revert row. by apply forallb_forall. Qed.

Lemma classifyPrefix_some rel table row : classifyPrefix rel table = Some row -> row ∈ table /\ under (p_rel row) rel = true.
Proof.
  unfold classifyPrefix. induction table as [|r table IH] using rev_ind; [done|]. rewrite fold_left_app. cbn [fold_left]. unfold classify_step at 1.
  destruct (under (p_rel r) rel && _) eqn:E.
  - intros [= ->]. apply andb_prop in E as [E _]. split; [apply elem_of_app; right; by left|done].
  - intros H. destruct (IH H) as [H1 H2]. split; [apply elem_of_app; by left|done].
Qed.
Lemma row_above o row x : row_ok o row = true -> Forall plain x -> x <> [] -> under (p_rel row) (join x) = true -> row_names row `prefix_of` x.
Proof. intros (Hp & Hn & -> & _)%row_facts Hx Hx0 Hu. by apply under_join in Hu. Qed.
Lemma row_rooted o row : row_ok o row = true -> "/" +:+ p_rel row = rooted (row_names row).
Proof. intros (_ & Hn & -> & _)%row_facts. by rewrite rooted_some. Qed.

(** ** The walk *)
Section walk.
Context `{CaseTables} (mode : string) (root : list (string * entry)) (T : list (list string * entry)).

(** Why a path is left out during the walk. *)
Definition walk_reason (q : list string) : Prop :=
  (exists t, q = [t] /\ t ∈ technicalRoots) \/
  (exists kids, (q, Folder kids) ∈ T /\ (is_Some (imageStoreDir root (join q)) \/ is_Some (reproducibleDir (join q)) \/ looksLikeGit root (join q) = true)) \/
  (exists row, row ∈ reproduciblePrefixes /\ q = row_names row).
Notation ok := (okitem walk_reason).

Definition git_ok (its : gmap string Item) (roots : gmap string string) : Prop :=
  forall rel id, roots !! rel = Some id -> exists q, Forall plain q /\ q <> [] /\ rel = join q /\ covers its q.
Record tally_ok (t : mediaTally) : Prop := {
  t_total : forall k b, tTotal t !! k = Some b -> exists q, Forall plain q /\ k = relof q;
  t_media : forall k b, tMedia t !! k = Some b -> exists q, Forall plain q /\ k = relof q;
  t_files : forall f, f ∈ tFiles t -> exists q n, Forall plain q /\ q <> [] /\ f = join q /\ (q, Regular n) ∈ T /\ is_media f = true /\ mediaFileMinBytes <= n }.
Record inv (s : scan) : Prop := { inv_items : map_Forall ok (items s); inv_git : git_ok (items s) (gitRoots s); inv_media : tally_ok (media s) }.
(** The invariant kept and nothing lost. *)
Definition good (s s' : scan) : Prop := inv s -> inv s' /\ grows (items s) (items s').

Lemma good_refl s : good s s.
Proof. by split. Qed.
Lemma good_trans a b c : good a b -> good b c -> good a c.
Proof. intros H1 H2 Ha. destruct (H1 Ha) as [Hb G1]. destruct (H2 Hb) as [Hc G2]. split; [done|]. by etrans. Qed.
Lemma git_ok_grows its its' roots : grows its its' -> git_ok its roots -> git_ok its' roots.
Proof. intros Hg Hr rel id E. destruct (Hr rel id E) as (q & ? & ? & ? & Hc). exists q. split_and!; [done..|]. by eapply covers_grows. Qed.
Lemma good_items f s : (map_Forall ok (items s) -> map_Forall ok (f (items s))) -> grows (items s) (f (items s)) -> good s (on_items f s).
Proof. intros Hf Hg [Hi Hr Ht]. split; [|done]. split; [by apply Hf|by eapply git_ok_grows|done]. Qed.
(** A step that touches neither items nor roots nor media. *)
Lemma good_same s s' : items s' = items s -> gitRoots s' = gitRoots s -> media s' = media s -> good s s'.
Proof. intros E1 E2 E3 [Hi Hr Ht]. split; [split; [by rewrite E1|by rewrite E1, E2|by rewrite E3]|by rewrite E1]. Qed.

Lemma upsert_off id kind label f its : off id = true -> (HasPrefix id "media:" = true -> kind = KindMedia) ->
  (forall it, ok id it -> ok id (f it)) -> map_Forall ok its -> map_Forall ok (upsert id kind label false true f its).
Proof. intros Ho Hm Hf Hits. pose proof (upsert_ok walk_reason its id kind label f Hits Hm ltac:(by intros) Hf) as H1. by rewrite Ho in H1. Qed.
Lemma upsert_on id kind label f its : off id = false -> HasPrefix id "media:" = false -> kind <> KindTechnical ->
  (forall it, ok id it -> ok id (f it)) -> map_Forall ok its -> map_Forall ok (upsert id kind label true false f its).
Proof. intros Ho Hm Hk Hf Hits. pose proof (upsert_ok walk_reason its id kind label f Hits ltac:(congruence) ltac:(done) Hf) as H1. by rewrite Ho in H1. Qed.

Lemma rooted_join x : x <> [] -> "/" +:+ join x = rooted x.
Proof. by destruct x. Qed.
Lemma rooted_nonempty q : rooted q <> ""%string.
Proof. done. Qed.

Lemma imageStoreDir_id rel id label : imageStoreDir root rel = Some (id, label) -> id = "images:" +:+ rel.
Proof. unfold imageStoreDir. cbv zeta. intros E. repeat case_match; congruence. Qed.
Lemma reproducibleDir_id rel id label : reproducibleDir rel = Some (id, label) -> exists z, id = "repro:" +:+ z.
Proof. unfold reproducibleDir. intros E. repeat case_match; simplify_eq; eauto. Qed.

Lemma visit_skipped_good x kids s s' : (x, Folder kids) ∈ T -> Forall plain x -> x <> [] -> (tail x <> [] -> isTechnical (join x) = false) ->
  visit_skipped mode root (join x) s = Some s' -> good s s' /\ covers (items s') x.
Proof using All.
  intros HT Hx Hn Htech. unfold visit_skipped. rewrite rooted_join by done. destruct (isTechnical (join x)) eqn:Et.
  - intros [= <-]. destruct x as [|t x]; [done|]. destruct x as [|u x]; [|by discriminate Htech]. split.
    + apply good_items; [|apply upsert_grows; intros it p Hp; by apply addPath_keeps]. apply upsert_off; [done..|]. intros it Hit.
      apply ok_addPath; [|by apply ok_set_excluded]. intros _. split; [done|]. left. exists t. split; [done|]. rewrite isTechnical_join in Et by done. by apply bool_decide_eq_true in Et.
    + apply upsert_covers; [done..|]. intros it. by apply addPath_elem.
  - destruct (bool_decide (mode <> ModeFull)); [|done].
    destruct (imageStoreDir root (join x)) as [[id label]|] eqn:Ei; [|destruct (reproducibleDir (join x)) as [[id label]|] eqn:Er; [|done]]; intros [= <-].
    + pose proof (imageStoreDir_id _ _ _ Ei) as ->. split.
      * apply good_items; [|apply upsert_grows; intros it p Hp; by apply addPath_keeps]. apply upsert_off; [done..|]. intros it. apply ok_addPath. intros _. split; [done|].
        right. left. exists kids. rewrite Ei. eauto.
      * apply upsert_covers; [done..|]. intros it. by apply addPath_elem.
    + destruct (reproducibleDir_id _ _ _ Er) as [z ->]. split.
      * apply good_items; [|apply upsert_grows; intros it p Hp; by apply addPath_keeps]. apply upsert_off; [done..|]. intros it. apply ok_addPath. intros _. split; [done|].
        right. left. exists kids. rewrite Er. eauto.
      * apply upsert_covers; [done..|]. intros it. by apply addPath_elem.
Qed.

Lemma visit_git_good x kids s : (x, Folder kids) ∈ T -> Forall plain x -> x <> [] -> looksLikeGit root (join x) = true ->
  good s (visit_git (join x) s) /\ covers (items (visit_git (join x) s)) x.
Proof using All.
  intros HT Hx Hn Hg. unfold visit_git. rewrite rooted_join by done. cbv zeta.
  assert (forall its, covers (upsert ("git:" +:+ join x) KindGit "Git repository" false true (fun it => warn git_note (addPath (rooted x) it)) its) x) as Hc.
  { intros its. apply upsert_covers; [done..|]. intros it. by apply addPath_elem. }
  split; [|apply Hc]. intros [Hi Hr Ht].
  assert (grows (items s) (upsert ("git:" +:+ join x) KindGit "Git repository" false true (fun it => warn git_note (addPath (rooted x) it)) (items s))) as Hgr.
  { apply upsert_grows. intros it p Hp. by apply addPath_keeps. }
  split; [|done]. split; [|cbn|done].
  - apply upsert_off; [done..| |done]. intros it Hit. apply ok_warn, ok_addPath; [|done]. intros _. split; [done|]. right. left. exists kids. auto.
  - intros rel id [[<- <-]|[_ E]]%lookup_insert_Some; [by exists x|]. by apply (git_ok_grows _ _ _ Hgr Hr _ _ E).
Qed.

Lemma enclosing_covers x s : inv s -> Forall plain x -> x <> [] -> enclosingGit (join x) (gitRoots s) <> ""%string -> covers (items s) x.
Proof using All.
  intros [_ Hr _] Hx Hn. unfold enclosingGit. set (l := map_to_list (gitRoots s)).
  assert (forall best, fold_left (fun best r => if under r.1 (join x) && bool_decide (len best < len r.1) then r.1 else best) l best <> ""%string ->
    best <> ""%string \/ exists r, r ∈ l /\ under r.1 (join x) = true) as Hl.
  { generalize l. clear. intros l. induction l as [|r l IH]; intros best; cbn [fold_left]; [by left|]. intros [H1|(r' & H1 & H2)]%IH; [|right; exists r'; split; [by right|done]].
    destruct (under r.1 (join x)) eqn:E; [right; exists r; split; [left|done]|by left]. }
  intros H1. destruct (Hl _ H1) as [?|([rel id] & Hin & Hu)]; [done|]. apply elem_of_map_to_list in Hin. destruct (Hr rel id Hin) as (q & Hq & Hq0 & -> & Hc).
  eapply covers_below; [|exact Hc]. by apply under_join in Hu.
Qed.
Lemma visit_in_git_good repo rel e s : good s (visit_in_git repo rel e s).1.
Proof using Type.
  unfold visit_in_git. destruct e as [size|b|kids]; [|apply good_refl..]. destruct (keepInRepo rel size); [by apply good_same|].
  apply good_items; destruct (gitRoots s !! repo) as [id|]; try done.
  - intros Hi. apply alter_ok; [done|]. intros it. apply ok_add_bytes.
  - apply alter_grows. by intros it.
Qed.

Lemma bump_elem k n t k' b : bump k n t !! k' = Some b -> k' = k \/ t !! k' = Some b.
Proof. unfold bump. intros [[<- _]|[_ E]]%lookup_insert_Some; auto. Qed.
Lemma add_tally_ok x size owner t : (x, Regular size) ∈ T -> Forall plain x -> x <> [] -> tally_ok t -> tally_ok (add (join x) size owner t).
Proof.
  intros HT Hx Hn [H1 H2 H3]. destruct x as [|s q _] using rev_ind; [done|]. unfold add. rewrite Dir_join by done.
  pose proof (proj1 (proj1 (Forall_app _ _ _) Hx)) as Hq.
  assert (forall (m : gmap string Z) k b, (forall k b, m !! k = Some b -> exists q, Forall plain q /\ k = relof q) -> bump (relof q) size m !! k = Some b -> exists q, Forall plain q /\ k = relof q) as Hp.
  { intros m k b Hm [->|E]%bump_elem; [by exists q|by eapply Hm]. }
  destruct (is_media _) eqn:Em; [|split; cbn; [|done..]; intros k b; by apply Hp]. cbn [negb]. destruct (bool_decide (mediaFileMinBytes <= size) && _) eqn:Es; (split; cbn; [intros k b; by apply Hp|intros k b; by apply Hp|]); [|done].
  intros f [Hf|Hf%list_elem_of_singleton]%elem_of_app; [by apply H3|subst f]. apply andb_prop in Es as [Es%bool_decide_eq_true _]. exists (q ++ [s]), size. split_and!; [done|by destruct q|done..].
Qed.
Lemma good_media f s : (tally_ok (media s) -> tally_ok (f (media s))) -> good s (on_media f s).
Proof. intros Hf [Hi Hr Ht]. split; [|done]. split; [done|done|]. by apply Hf. Qed.

Lemma count_good row size s : row ∈ persistentPrefixes -> good s (on_items (count row size) s) /\ covers (items (on_items (count row size) s)) (row_names row).
Proof.
  intros Hrow%persistent_rows. pose proof (row_facts _ _ Hrow) as (Hp & Hn & _ & Hk & Ho & Hm & Ht & Hos). specialize (Hos eq_refl). unfold count.
  rewrite bool_decide_eq_true_2 by done. rewrite (row_rooted _ _ Hrow). split.
  - apply good_items; [|apply upsert_grows; intros it p Hin; by apply addPath_keeps]. apply upsert_on; [done..|]. intros it Hit. apply ok_add_bytes, ok_addPath; [congruence|done].
  - apply upsert_covers; [done..|]. intros it. by apply addPath_elem.
Qed.

(** The directories whose items stand for what is below them and has no item of its own. *)
Definition above (s : scan) (x : list string) : Prop :=
  forall a, a ∈ [["etc"]; ["var"; "lib"]]%string -> a `prefix_of` x -> a <> x -> covers (items s) a.

Lemma generic_off rel : off ("app:" +:+ rel) = false.
Proof. reflexivity. Qed.

(** The size that is counted for an entry. *)
Definition sized (e : entry) (size : Z) : Prop := size = match e with Regular n => n | _ => 0 end.

Lemma visit_persistent_good row x e size s : (x, e) ∈ T -> sized e size -> row ∈ persistentPrefixes -> Forall plain x -> x <> [] -> under (p_rel row) (join x) = true ->
  good s (visit_persistent mode row (join x) e size s) /\ (above s x -> covers (items (visit_persistent mode row (join x) e size s)) x).
Proof using Type.
  intros HT Hsz Hrow Hx Hn Hu. pose proof (row_above _ _ x (persistent_rows row Hrow) Hx Hn Hu) as Habove. unfold visit_persistent.
  set (so := if bool_decide (p_id row = "config:etc"%string) && _ then _ else _).
  assert (good s so.1 /\ (above s x -> covers (items so.1) x)) as [Hg Hc].
  { unfold so. destruct (bool_decide (p_id row = "config:etc"%string) && _) eqn:E1; [|destruct (bool_decide (p_id row = "app:var-lib"%string) && moreSpecificPersistent (join x)) eqn:E2; [|destruct (generic_place (p_id row)); [destruct (is_folder e && (1 <=? slashes (join x))%nat)|]]].
    - split; [apply good_refl|]. intros Ha. apply andb_prop in E1 as [E1%bool_decide_eq_true E2].
      assert (row_names row = ["etc"]%string) as En. { revert E1. clear -Hrow. revert Hrow. rewrite list_elem_of_In. cbn. intuition (subst; try discriminate; reflexivity). }
      rewrite En in Habove. eapply covers_below; [exact Habove|]. apply Ha; [left|done|]. intros <-. discriminate E2.
    - split; [apply good_refl|]. intros Ha. apply andb_prop in E2 as [E2%bool_decide_eq_true E3].
      assert (row_names row = ["var"; "lib"]%string) as En. { revert E2. clear -Hrow. revert Hrow. rewrite list_elem_of_In. cbn. intuition (subst; try discriminate; reflexivity). }
      rewrite En in Habove. eapply covers_below; [exact Habove|]. apply Ha; [right; left|done|]. intros <-. discriminate E3.
    - rewrite rooted_join by done. split.
      + apply good_items; [|apply upsert_grows; intros it p Hin; by apply addPath_keeps]. apply upsert_on; [done..|]. intros it Hit. apply ok_add_bytes, ok_addPath; [by rewrite generic_off|done].
      + intros _. apply upsert_covers; [done..|]. intros it. by apply addPath_elem.
    - destruct (count_good row size s Hrow) as [Hg Hc]. split; [done|]. intros _. by eapply covers_below.
    - destruct (count_good row size s Hrow) as [Hg Hc]. split; [done|]. intros _. by eapply covers_below. }
  destruct so as [s' owner]. cbn [fst] in Hg, Hc. destruct e as [n|b|kids]; [|by split..]. destruct (_ && _); [|by split]. split.
  - eapply good_trans; [exact Hg|]. apply good_media. apply add_tally_ok; [by rewrite Hsz|done..].
  - intros Ha. exact (Hc Ha).
Qed.

Lemma visit_uncertain_good x s size : (x, Regular size) ∈ T -> Forall plain x -> x <> [] ->
  good s (visit_uncertain mode (join x) size s) /\ covers (items (visit_uncertain mode (join x) size s)) x.
Proof using Type.
  intros HT Hx Hn. unfold visit_uncertain. cbv zeta. set (s1 := if bool_decide (mode <> ModeFull) then _ else s).
  assert (good s s1) as H1. { unfold s1. destruct (bool_decide _); [|apply good_refl]. apply good_media. by apply add_tally_ok. }
  set (fresh := match items s1 !! _ with Some it => _ | None => true end). destruct x as [|nm q _] using rev_ind; [done|].
  pose proof (proj1 (proj1 (Forall_app _ _ _) Hx)) as Hq. rewrite Dir_join in * by done. change ("/" +:+ relof q) with (rooted q).
  set (f := fun it => _). set (s2 := on_items _ s1). assert (good s1 s2) as H2.
  { apply good_items; [|apply upsert_grows; unfold f; intros it p Hin; destruct fresh; by apply addPath_keeps]. apply upsert_on; [done..|]. intros it Hit. unfold f.
    assert (ok ("uncertain:" +:+ relof q) (add_bytes size (addPath (rooted q) it))) by by apply ok_add_bytes, ok_addPath. destruct fresh; [by apply ok_set_warnings|done]. }
  assert (covers (items s2) q) as Hc by (apply upsert_covers; [done..|]; intros it; unfold f; destruct fresh; by apply addPath_elem). split.
  - eapply good_trans; [exact H1|]. eapply good_trans; [exact H2|]. destruct fresh; [by apply good_same|apply good_refl].
  - eapply covers_below; [by apply prefix_app_r|]. by destruct fresh.
Qed.

Lemma special_place x : x ∈ [["etc"]; ["var"; "lib"]]%string ->
  is_Some (classifyPrefix (join x) persistentPrefixes) /\ classifyPrefix (join x) reproduciblePrefixes = None /\ isTechnical (join x) = false.
Proof. intros [->|[->|[]%elem_of_nil]%elem_of_cons]%elem_of_cons; (split; [eexists; vm_compute; reflexivity|split; reflexivity]). Qed.

Lemma above_items s s' x : items s' = items s -> above s x -> above s' x.
Proof using Type. intros E Ha a H1 H2 H3. rewrite E. by apply Ha. Qed.

Lemma visit_classified_good x e size s : (x, e) ∈ T -> sized e size -> Forall plain x -> x <> [] ->
  let '(s', skip) := visit_classified mode (join x) e size s in
  good s s' /\
  (skip = true \/ (0 < size /\ is_folder e = false /\ isTechnical (join x) = false) \/ x ∈ [["etc"]; ["var"; "lib"]]%string -> above s x -> covers (items s') x).
Proof using Type.
  intros HT Hsz Hx Hn. unfold visit_classified. set (s0 := match e with Regular _ => _ | _ => s end).
  assert (good s s0 /\ items s0 = items s) as [H0 E0].
  { unfold s0. destruct e; try (split; [apply good_refl|done]). destruct (_ && _); (split; [|done]); [by apply good_same|apply good_refl]. }
  clearbody s0. destruct (classifyPrefix (join x) reproduciblePrefixes) as [r|] eqn:Er.
  - pose proof (classifyPrefix_some _ _ _ Er) as [Hr Hru]. pose proof (reproducible_rows _ Hr) as Hrow. pose proof (row_above _ _ x Hrow Hx Hn Hru) as Hra.
    set (pp := if isTechnical (join x) then None else _).
    assert (forall p, pp = Some p -> p ∈ persistentPrefixes /\ under (p_rel p) (join x) = true) as Hpp.
    { intros p. unfold pp. destruct (isTechnical (join x)); [done|]. destruct (classifyPrefix (join x) persistentPrefixes) as [p'|] eqn:Ep; [|done].
      destruct (len (p_rel p') <? len (p_rel r)); [done|]. intros [= <-]. by eapply classifyPrefix_some. }
    destruct pp as [p|].
    + destruct (Hpp p eq_refl) as [Hp Hpu]. destruct (visit_persistent_good p x e size s0 HT Hsz Hp Hx Hn Hpu) as [Hg Hc].
      split; [by eapply good_trans|]. intros _ Ha. apply Hc. by eapply above_items.
    + pose proof (row_facts _ _ Hrow) as (Hp & Hn' & _ & Hk & Ho & Hm & Ht & _). rewrite (row_rooted _ _ Hrow). split.
      * eapply good_trans; [exact H0|]. apply good_items; [|apply upsert_grows; intros it q Hin; by apply addPath_keeps]. apply upsert_off; [done|congruence|].
        intros it Hit. apply ok_add_bytes, ok_addPath; [|done]. intros _. split; [done|]. right. right. by exists r.
      * intros _ _. eapply covers_below; [exact Hra|]. apply upsert_covers; [done..|]. intros it. by apply addPath_elem.
  - destruct (classifyPrefix (join x) persistentPrefixes) as [p|] eqn:Ep; [destruct (isTechnical (join x)) eqn:Et|].
    + split; [|intros [?|[(_ & _ & ?)|Hs%special_place]]; [done..|destruct Hs as (_ & _ & Hs); congruence]]. by destruct (negb (is_folder e) && (0 <? size) && negb true) eqn:E; [rewrite andb_false_r in E|].
    + destruct (classifyPrefix_some _ _ _ Ep) as [Hp Hpu]. destruct (visit_persistent_good p x e size s0 HT Hsz Hp Hx Hn Hpu) as [Hg Hc].
      split; [by eapply good_trans|]. intros _ Ha. apply Hc. by eapply above_items.
    + assert ((if isTechnical (join x) then @None place else None) = None) as -> by by destruct (isTechnical (join x)).
      destruct (negb (is_folder e) && (0 <? size) && negb (isTechnical (join x))) eqn:E.
      * assert ((x, Regular size) ∈ T) as HTr.
        { rewrite Hsz in E |- *. destruct e; try done; by rewrite andb_false_r in E. }
        destruct (visit_uncertain_good x s0 size HTr Hx Hn) as [Hg Hc]. split; [by eapply good_trans|]. intros _ _. exact Hc.
      * split; [done|]. intros [?|[(H1%Z.ltb_lt & H2 & H3)|Hs%special_place]]; [done|by rewrite H1, H2, H3 in E|destruct Hs as ([? ?] & _); congruence].
Qed.

Lemma visit_good x e s : (x, e) ∈ T -> Forall plain x -> x <> [] -> (tail x <> [] -> isTechnical (join x) = false) -> inv s ->
  let '(s', skip) := visit mode root (join x) e s in
  (inv s' /\ grows (items s) (items s')) /\ (skip = true -> isTechnical (join x) = false -> above s x -> covers (items s') x) /\
  (isTechnical (join x) = true -> is_folder e = true -> skip = true /\ covers (items s') x) /\
  (forall n, e = Regular n -> 0 < n -> isTechnical (join x) = false -> above s x -> covers (items s') x) /\
  (is_folder e = true -> x ∈ [["etc"]; ["var"; "lib"]]%string -> covers (items s') x).
Proof using All.
  intros HT Hx Hn Htech Hinv. unfold visit.
  assert (forall a, a ∈ [["etc"]; ["var"; "lib"]]%string -> x = a -> above s x) as Habove.
  { intros a Ha -> b Hb Hp Hne. revert Ha Hb Hp Hne. rewrite !list_elem_of_In. cbn. intros [<-|[<-|[]]] [<-|[<-|[]]] Hp Hne; first [by destruct Hne|destruct Hp as [? Hp]; discriminate Hp]. }
  destruct (if is_folder e then visit_skipped mode root (join x) s else None) as [s1|] eqn:Es.
  - destruct e as [n|b|kids]; try done. cbn [is_folder] in Es. destruct (visit_skipped_good x kids s s1 HT Hx Hn Htech Es) as [Hg Hc].
    split; [by apply Hg|]. split_and!; try done.
  - assert (is_folder e = true -> isTechnical (join x) = false) as Hnt.
    { intros He. rewrite He in Es. unfold visit_skipped in Es. by destruct (isTechnical (join x)). }
    set (s1 := match e with Regular n => add_full n s | _ => s end). assert (good s s1 /\ items s1 = items s /\ gitRoots s1 = gitRoots s) as (H1 & E1 & E2).
    { unfold s1. destruct e; (split; [|done]); [by apply good_same|apply good_refl..]. }
    clearbody s1. destruct (is_folder e && looksLikeGit root (join x)) eqn:Eg.
    + apply andb_prop in Eg as [Ef Eg]. destruct e as [n|b|kids]; try done. destruct (visit_git_good x kids s1 HT Hx Hn Eg) as [Hg Hc].
      split; [by apply (good_trans s s1)|]. split_and!; try done. intros Ht _. rewrite Hnt in Ht; done.
    + destruct (bool_decide (enclosingGit (join x) (gitRoots s1) <> ""%string)) eqn:Ee.
      * apply bool_decide_eq_true in Ee. destruct (H1 Hinv) as [Hinv1 _]. pose proof (enclosing_covers x s1 Hinv1 Hx Hn Ee) as Hc.
        pose proof (visit_in_git_good (enclosingGit (join x) (gitRoots s1)) (join x) e s1) as Hg. destruct (visit_in_git _ _ _ _) as [s' skip]. cbn [fst] in Hg.
        assert (covers (items s') x) as Hc' by (eapply covers_grows; [by apply Hg|exact Hc]).
        split; [by apply (good_trans s s1)|]. split_and!; try done. intros Ht He. by rewrite (Hnt He) in Ht.
      * pose proof (visit_classified_good x e match e with Regular n => n | _ => 0 end s1 HT eq_refl Hx Hn) as Hg. destruct (visit_classified _ _ _ _ _) as [s' skip].
        destruct Hg as [Hg Hc]. split; [by apply (good_trans s s1)|]. split_and!.
        -- intros Hs _ Ha. apply Hc; [by left|by eapply above_items].
        -- intros Ht He. by rewrite (Hnt He) in Ht.
        -- intros n -> Hpos Ht Ha. apply Hc; [right; by left|by eapply above_items].
        -- intros He Hs. apply Hc; [right; by right|]. eapply above_items; [exact E1|]. by eapply Habove.
Qed.

Lemma isTechnical_app x y : Forall plain (x ++ y) -> x <> [] -> isTechnical (join (x ++ y)) = isTechnical (join x).
Proof. intros Hp Hn. destruct x as [|s x]; [done|]. change ((s :: x) ++ y) with (s :: (x ++ y)) in *. rewrite !isTechnical_join; [done| |done]. change (s :: x ++ y) with ((s :: x) ++ y) in Hp. by apply Forall_app in Hp as [? _]. Qed.

(** A list of entries that each keep the invariant and cover their own files. *)
Lemma fold_walk {A} (f : scan -> A -> scan) (P : A -> list string -> Prop) l s :
  (forall a s1, a ∈ l -> inv s1 -> grows (items s) (items s1) -> (inv (f s1 a) /\ grows (items s1) (items (f s1 a))) /\ forall y, P a y -> covers (items (f s1 a)) y) ->
  inv s -> (inv (fold_left f l s) /\ grows (items s) (items (fold_left f l s))) /\ forall a y, a ∈ l -> P a y -> covers (items (fold_left f l s)) y.
Proof.
  revert s. induction l as [|a l IH]; intros s Hf Hi; cbn [fold_left]; [split; [done|]; by intros ? ? ?%elem_of_nil|].
  destruct (Hf a s ltac:(left) Hi ltac:(done)) as [[Hi1 Hg1] Hc1]. destruct (IH (f s a)) as [[Hi2 Hg2] Hc2]; [|done|].
  - intros b s1 Hb Hs1 Hg. apply Hf; [by right|done|by etrans].
  - split; [split; [done|by etrans]|]. intros b y [->|Hb]%elem_of_cons Hy; [|by eapply Hc2]. eapply covers_grows; [exact Hg2|by apply Hc1].
Qed.

Lemma below_join x s : Forall plain x -> x <> [] -> below (join x) s = join (x ++ [s]).
Proof. intros Hx Hn. destruct (join_snoc x s Hn) as [|E]; [done|]. by destruct (join_nonempty x). Qed.

Lemma walk_good e : forall x s, (forall y e', (y, e') ∈ entries x e -> (y, e') ∈ T) -> named e -> Forall plain x -> x <> [] ->
  (tail x <> [] -> isTechnical (join x) = false) -> inv s -> above s x ->
  (inv (walk mode root (join x) e s) /\ grows (items s) (items (walk mode root (join x) e s))) /\
  forall y n, (y, Regular n) ∈ leaves x e -> 0 < n -> (is_folder e = true \/ isTechnical (join x) = false) -> covers (items (walk mode root (join x) e s)) y.
Proof using All.
  induction e as [n|b|kids IH] using entry_ind'; intros x s HT Hnm Hx Hn Htech Hinv Ha.
  1,2: pose proof (visit_good x _ s (HT x _ ltac:(left)) Hx Hn Htech Hinv) as Hv; cbn [walk]; destruct (visit _ _ _ _ _) as [s' skip];
    destruct Hv as (Hg & _ & _ & Hc & _); (split; [exact Hg|]); intros y n' Hy Hpos [?|Ht]; try done; apply list_elem_of_singleton in Hy; simplify_eq; by eapply Hc.
  rewrite Forall_forall in IH. apply named_folder in Hnm. rewrite Forall_forall in Hnm.
  pose proof (visit_good x (Folder kids) s (HT x _ ltac:(left)) Hx Hn Htech Hinv) as Hv. cbn [walk]. destruct (visit _ _ _ _ _) as [s1 skip].
  destruct Hv as ([Hinv1 Hg1] & Hskip & Htc & _ & Hspec).
  assert (skip = true -> covers (items s1) x) as Hcs.
  { intros Hs. destruct (isTechnical (join x)) eqn:Et; [by apply Htc|by apply Hskip]. }
  destruct skip.
  { split; [done|]. intros y n Hy Hpos _. eapply covers_below; [by eapply leaves_below|]. by apply Hcs. }
  assert (isTechnical (join x) = false) as Hnt. { destruct (isTechnical (join x)) eqn:Et; [|done]. by destruct (Htc eq_refl eq_refl). }
  destruct (fold_walk (fun s k => walk mode root (below (join x) k.1) k.2 s) (fun k y => exists n, (y, Regular n) ∈ leaves (x ++ [k.1]) k.2 /\ 0 < n) kids s1) as [[Hi2 Hg2] Hc2]; [|done|].
  - intros k s2 Hk Hi2 Hg2. destruct (Hnm k Hk) as [Hpk Hnk]. rewrite below_join by done.
    assert (Forall plain (x ++ [k.1])) as Hxk by (apply Forall_app; split; [done|by constructor]).
    destruct (IH k Hk (x ++ [k.1]) s2) as [Hw1 Hw2]; try done.
    + intros y e' Hy. apply HT. cbn [entries]. right. apply elem_concat_map. by exists k.
    + by destruct x.
    + intros _. by rewrite isTechnical_app.
    + intros a Ha1 Ha2 Ha3. eapply covers_grows; [exact Hg2|]. assert (a `prefix_of` x) as Hax.
      { eapply prefix_chain; [exact Ha2|by apply prefix_app_r|]. destruct Ha2 as [t E]. apply (f_equal length) in E as El. rewrite !length_app in El. cbn in El.
        destruct t as [|u t]; [rewrite app_nil_r in E; by destruct Ha3|cbn in El; lia]. }
      destruct (decide (a = x)) as [->|Hne]; [by apply Hspec|]. eapply covers_grows; [exact Hg1|]. by apply Ha.
    + split; [done|]. intros y (n & Hy & Hpos). apply (Hw2 y n Hy Hpos). right. by rewrite isTechnical_app.
  - split; [split; [done|by etrans]|]. intros y n Hy Hpos _. apply leaves_folder in Hy as (k & Hk & Hy). apply (Hc2 k y Hk). by exists n.
Qed.
End walk.

(** ** After the walk *)
Definition root_entries (root : list (string * entry)) : list (list string * entry) := concat (map (fun k => entries [k.1] k.2) root).

Section after.
Context `{CaseTables} (mode : string) (root : list (string * entry)) (root_named : named (Folder root)).
Notation T := (root_entries root).

Lemma inv0 : inv root T scan0.
Proof using Type. split; [done|done|]. split; cbn; [done..|]. by intros f ?%elem_of_nil. Qed.

Lemma walk_root_good : inv root T (walk_root mode root) /\
  forall y n, (y, Regular n) ∈ leaves [] (Folder root) -> 0 < n -> (forall t, y = [t] -> t ∉ technicalRoots) -> covers (items (walk_root mode root)) y.
Proof using All.
  pose proof (proj1 (named_folder root) root_named) as Hnm. rewrite Forall_forall in Hnm. unfold walk_root.
  destruct (fold_walk root T (fun s k => walk mode root k.1 k.2 s)
    (fun k y => exists n, (y, Regular n) ∈ leaves [k.1] k.2 /\ 0 < n /\ (forall t, y = [t] -> t ∉ technicalRoots)) root scan0) as [[Hi _] Hc]; [|exact inv0|].
  - intros k s Hk Hi Hg. destruct (Hnm k Hk) as [Hpk Hnk]. destruct (walk_good mode root T k.2 [k.1] s) as [Hw1 Hw2]; try done.
    + intros y e' Hy. apply elem_concat_map. by exists k.
    + by constructor.
    + intros a Ha Hp Hne. destruct Hp as [t E]. exfalso. revert Ha. rewrite list_elem_of_In. cbn. intros [<-|[<-|[]]]; [|done]. injection E as E1 E2. apply Hne. by rewrite E1.
    + split; [done|]. intros y (n & Hy & Hpos & Ht). apply (Hw2 y n Hy Hpos). destruct (k.2) as [m|b|kids] eqn:Ek; [right..|by left]; apply list_elem_of_singleton in Hy; simplify_eq.
      change k.1 with (join [k.1]). rewrite isTechnical_join by (by constructor). apply bool_decide_eq_false. by apply Ht.
  - split; [done|]. intros y n Hy Hpos Ht. apply leaves_folder in Hy as (k & Hk & Hy). apply (Hc k y Hk). by exists n.
Qed.

(** Media. *)
Definition media_reason (t : mediaTally) (q : list string) : Prop := relof q ∈ excluded t.
Definition reason (q : list string) : Prop := walk_reason root T q \/ media_reason (media (walk_root mode root)) q.
Notation ok := (okitem reason).

Lemma ok_addPath_on R id p it : off id = false -> okitem R id it -> okitem R id (addPath p it).
Proof using Type.
  intros Ho []. unfold addPath. case_decide; [by split|]. case_decide; [by split|]. split; try done. intros Ho'. by rewrite Ho in Ho'.
Qed.
Lemma upsert_media R id kind label f its : off id = true -> (HasPrefix id "media:" = true -> kind = KindMedia) ->
  (forall it, okitem R id it -> okitem R id (f it)) -> map_Forall (okitem R) its -> map_Forall (okitem R) (upsert id kind label false true f its).
Proof using Type. intros Ho Hm Hf Hits. pose proof (upsert_ok R its id kind label f Hits Hm ltac:(by intros) Hf) as H1. by rewrite Ho in H1. Qed.
Lemma upsert_plain R id kind label f its : off id = false -> HasPrefix id "media:" = false -> kind <> KindTechnical ->
  (forall it, okitem R id it -> okitem R id (f it)) -> map_Forall (okitem R) its -> map_Forall (okitem R) (upsert id kind label true false f its).
Proof using Type. intros Ho Hm Hk Hf Hits. pose proof (upsert_ok R its id kind label f Hits ltac:(congruence) ltac:(done) Hf) as H1. by rewrite Ho in H1. Qed.

Lemma add_databases_good s : map_Forall (okitem (walk_reason root T)) (items s) ->
  map_Forall (okitem (walk_reason root T)) (add_databases s) /\ grows (items s) (add_databases s).
Proof using Type.
  intros Hi. unfold add_databases. split.
  - apply fold_all; [done|]. intros its [rel size] _ Hits. apply upsert_plain; [done..| |done]. intros it Hit. by apply ok_add_bytes, ok_addPath_on.
  - apply fold_grows. intros its [rel size]. apply upsert_grows. intros it p. apply addPath_keeps.
Qed.

Lemma ups_names fuel : forall q d, Forall plain q -> d ∈ ups fuel (relof q) -> exists q', Forall plain q' /\ q' <> [] /\ d = relof q'.
Proof using Type.
  induction fuel as [|fuel IH]; intros q d Hq; cbn [ups]; [by intros ?%elem_of_nil|]. case_decide as Hs; [by intros ?%elem_of_nil|].
  destruct q as [|s q _] using rev_ind; [destruct Hs; by left|]. rewrite relof_some by (by destruct q). intros [->|Hd]%elem_of_cons.
  - exists (q ++ [s]). split_and!; [done|by destruct q|]. by rewrite relof_some by (by destruct q).
  - rewrite Dir_join in Hd by done. apply (IH q); [|done]. by apply Forall_app in Hq as [? _].
Qed.

Lemma excluded_names t m : tally_ok T t -> m ∈ excluded t -> exists q, Forall plain q /\ m = relof q.
Proof using Type.
  intros [H1 H2 H3]. unfold excluded, sortStrings. rewrite merge_sort_Permutation, elem_of_app, !list_elem_of_filter. intros [[_ Hm]|[_ Hm]].
  - apply elem_of_elements in Hm. unfold chosen in Hm. rewrite elem_of_union, !elem_of_list_to_set in Hm.
    destruct Hm as [Hm|Hm]; apply list_elem_of_fmap in Hm as ([k b] & -> & Hm); apply list_elem_of_filter in Hm as [_ Hm]; apply elem_of_map_to_list in Hm; [by eapply H2|].
    assert (forall k b, subMedia t !! k = Some b -> exists q, Forall plain q /\ k = relof q) as Hsub; [|by eapply Hsub]. clear k b Hm.
    unfold subMedia. apply (fold_all (fun sub : gmap string Z => forall k b, sub !! k = Some b -> exists q, Forall plain q /\ k = relof q)); [done|].
    intros sub [dir b] Hd%elem_of_map_to_list Hs. destruct (H1 dir b Hd) as (q & Hq & ->).
    apply (fold_all (fun sub : gmap string Z => forall k b, sub !! k = Some b -> exists q, Forall plain q /\ k = relof q)); [done|].
    intros sub' u Hu Hs' k b' [->|E]%bump_elem; [|by eapply Hs']. destruct (ups_names _ _ _ Hq Hu) as (q' & ? & _ & ->). by exists q'.
  - destruct (H3 m Hm) as (q & n & ? & ? & -> & _). exists q. by rewrite relof_some.
Qed.

Definition has_media (its : gmap string Item) (m : string) : Prop :=
  exists it, its !! ("media:" +:+ m) = Some it /\ "/" +:+ m ∈ iPaths it.
Lemma has_media_grows its its' m : grows its its' -> has_media its m -> has_media its' m.
Proof using Type. intros Hg (it & E & Hp). destruct (Hg ("media:" +:+ m) it ltac:(done) E) as (it' & E' & Hs). exists it'. auto. Qed.

Lemma move_bytes_good id owned its : (map_Forall ok its -> map_Forall ok (move_bytes id owned its)) /\ grows its (move_bytes id owned its).
Proof using Type.
  unfold move_bytes. split.
  - intros Hi. apply fold_all; [done|]. intros its' [o b] _ H'. apply alter_ok; [apply alter_ok; [done|]|]; intros it; apply ok_add_bytes.
  - apply fold_grows. intros its' [o b]. etrans; [|apply alter_grows; by intros it]. apply alter_grows. by intros it.
Qed.

Lemma add_media_good pick its : let t := media (walk_root mode root) in
  map_Forall (okitem (walk_reason root T)) its ->
  map_Forall ok (add_media pick t its) /\ grows its (add_media pick t its) /\ forall m, m ∈ excluded t -> has_media (add_media pick t its) m.
Proof using root_named.
  intros t Hi. pose proof (inv_media _ _ _ (proj1 walk_root_good)) as Ht. fold t in Ht.
  assert (map_Forall ok its) as Hi'. { eapply map_Forall_impl; [exact Hi|]. intros id it Hit. eapply ok_weaken; [|exact Hit]. intros q Hq. by left. }
  unfold add_media. set (f := fun its m => move_bytes _ _ _).
  assert (forall its m, grows its (upsert ("media:" +:+ m) KindMedia "Media files" false true (addPath ("/" +:+ m)) its)) as Hup.
  { intros its' m. apply upsert_grows. intros it p. apply addPath_keeps. }
  assert (forall its m, grows its (f its m)) as Hf. { intros its' m. etrans; [apply Hup|]. apply move_bytes_good. }
  split_and!.
  - apply fold_all; [done|]. intros its' m Hm H'. apply move_bytes_good. apply upsert_media; [done..| |done]. intros it Hit.
    destruct (excluded_names t m Ht Hm) as (q & Hq & Em). subst m. change ("/" +:+ relof q) with (rooted q). apply ok_addPath; [|done]. intros _. split; [done|]. by right.
  - by apply fold_grows.
  - generalize (excluded t) as l. intros l. clear Hi Hi'. revert its. induction l as [|m l IH]; intros its m' Hm; [by apply elem_of_nil in Hm|]. cbn [fold_left].
    apply elem_of_cons in Hm as [->|Hm]; [|by apply IH]. eapply has_media_grows; [by apply fold_grows|]. eapply has_media_grows; [apply move_bytes_good|].
    eexists. split; [apply lookup_insert_eq|]. by apply addPath_elem.
Qed.

Lemma under_relof r q : Forall plain r -> Forall plain q -> under (relof r) (relof q) = true -> r `prefix_of` q.
Proof using Type.
  intros Hr Hq Hu. destruct r as [|s r]; [apply prefix_nil|]. rewrite relof_some in Hu by done. destruct q as [|t q].
  - exfalso. unfold under in Hu. apply orb_true_iff in Hu as [Hu|Hu].
    + apply bool_decide_eq_true in Hu. by apply (dot_plain (s :: r)).
    + cbn [relof] in Hu. apply HasPrefix_spec in Hu as [z Hz]. rewrite bytes_app in Hz. apply (f_equal length) in Hz. rewrite !length_app in Hz. change (length (bytes ".")) with 1%nat in Hz. change (length (bytes "/")) with 1%nat in Hz.
      assert (length (bytes (join (s :: r))) <> 0%nat) as Hne; [|lia]. intros E. apply (join_nonempty (s :: r)); [done..|]. apply bytes_inj. by apply nil_length_inv in E.
  - rewrite relof_some in Hu by done. by apply under_join in Hu.
Qed.

Lemma drop_swallowed_good its x : let t := media (walk_root mode root) in
  map_Forall ok its -> (forall m, m ∈ excluded t -> has_media its m) -> covers its x -> covers (drop_swallowed (excluded t) its) x.
Proof using root_named.
  intros t Hi Hm (id & it & q & Hk & Hit & Hq & Hin & Hp). unfold covers, drop_swallowed. destruct (swallowed (excluded t) it) eqn:Es.
  - unfold swallowed in Es. rewrite !andb_true_iff in Es. destruct Es as [_ Ha]. unfold allUnder in Ha. rewrite forallb_forall in Ha.
    specialize (Ha (rooted q) ltac:(by apply list_elem_of_In)). apply existsb_exists in Ha as (r & Hr%list_elem_of_In & Hu).
    destruct (excluded_names t r (inv_media _ _ _ (proj1 walk_root_good)) Hr) as (qr & Hqr & ->).
    destruct (Hm _ Hr) as (mt & Hmt & Hmp). exists ("media:" +:+ relof qr), mt, qr. split_and!; [done| |done|exact Hmp|].
    + apply map_lookup_filter_Some. split; [done|]. cbn. unfold swallowed. rewrite (ok_media _ _ _ (Hi _ _ Hmt)) by done. done.
    + etrans; [|exact Hp]. apply under_relof; [done..|]. assert (TrimPrefix (rooted q) "/" = relof q) as E by (apply bytes_inj; by apply (bytes_TrimPrefix _ _ (bytes (relof q)))).
      by rewrite E in Hu.
  - exists id, it, q. split_and!; [done| |done..]. by apply map_lookup_filter_Some.
Qed.

(** Git working trees and Docker add paths and take none away. *)
Context (git : string -> list string -> option string) (safe_url : string -> string).

Lemma git_repos_good dir s its : (map_Forall ok its -> map_Forall ok (git_repos git safe_url dir root s its).1) /\ grows its (git_repos git safe_url dir root s its).1.
Proof using Type.
  unfold git_repos. assert (forall acc r, (map_Forall ok acc.1 -> map_Forall ok (git_repo git safe_url dir root (gitKeep s) acc r).1) /\ grows acc.1 (git_repo git safe_url dir root (gitKeep s) acc r).1) as Hstep.
  { intros [its' repos] [rel id]. unfold git_repo. destruct (inspectGit _ _ _ _) as [repo tracked]. destruct (List.partition _ _) as [mine kept]. cbn [fst].
    set (i1 := fold_left _ mine its'). set (i2 := if decide (kept = []) then i1 else _). set (i3 := if gDirty _ then _ else i2). set (i4 := if gUnpushed _ then _ else i3).
    assert (forall m i, (map_Forall ok i -> map_Forall ok (alter (warn m) id i)) /\ grows i (alter (warn m) id i)) as Hw.
    { intros m i. split; [|apply alter_grows; by intros it]. intros Hi. apply alter_ok; [done|]. intros it. apply ok_warn. }
    assert ((map_Forall ok its' -> map_Forall ok i1) /\ grows its' i1) as [A1 G1].
    { unfold i1. split; [|apply fold_grows; intros; apply alter_grows; by intros it]. intros Hi. apply fold_all; [done|]. intros i f _ Hi'. apply alter_ok; [done|]. intros it. apply ok_add_bytes. }
    assert ((map_Forall ok i1 -> map_Forall ok i2) /\ grows i1 i2) as [A2 G2].
    { unfold i2. case_decide; [done|]. split; [|by apply upsert_keep_grows]. apply upsert_plain; [done..|]. intros it []. by split. }
    assert ((map_Forall ok i2 -> map_Forall ok i3) /\ grows i2 i3) as [A3 G3] by (unfold i3; destruct (gDirty _); [apply Hw|done]).
    assert ((map_Forall ok i3 -> map_Forall ok i4) /\ grows i3 i4) as [A4 G4] by (unfold i4; destruct (gUnpushed _); [apply Hw|done]).
    split; [auto|]. etrans; [exact G1|]. etrans; [exact G2|]. by etrans. }
  generalize (map_to_list (gitRoots s)) as l. intros l. change its with (its, @nil GitRepo).1 at 1 3. generalize (its, @nil GitRepo) as acc. clear its.
  induction l as [|r l IH]; intros acc; cbn [fold_left]; [done|]. destruct (Hstep acc r) as [A1 G1]. destruct (IH (git_repo git safe_url dir root (gitKeep s) acc r)) as [A2 G2].
  split; [auto|by etrans].
Qed.

Lemma fold_addPath_keeps l : keeps_paths (fun it => fold_left (fun it p => addPath p it) l it).
Proof using Type. induction l as [|p l IH]; intros it q Hq; cbn [fold_left]; [done|]. by apply IH, addPath_keeps. Qed.
Lemma add_docker_grows roots hint acc : grows acc.1 (add_docker roots hint acc).1.
Proof using Type.
  destruct hint as [h|]; [|done]. destruct acc as [its warns]. cbn [add_docker fst]. set (i1 := fold_left (add_volume _) _ its).
  assert (grows its i1) as G1. { apply fold_grows. intros i [n v]. unfold add_volume. cbv zeta. case_decide; [done|]. apply upsert_grows. intros it p. apply addPath_keeps. }
  destruct (fold_left (add_bind roots) (BindMounts h) (i1, warns)) as [i2 w2] eqn:E. assert (grows i1 i2) as G2.
  { change i1 with (i1, warns).1. replace i2 with (fold_left (add_bind roots) (BindMounts h) (i1, warns)).1 by by rewrite E. clear E i2 w2. generalize (i1, warns) as acc.
    induction (BindMounts h) as [|b l IH]; intros acc; cbn [fold_left]; [done|]. etrans; [|apply IH]. destruct acc as [i w]. unfold add_bind. case_decide; [done|].
    destruct (bindHoldsGit _ _); apply upsert_grows; intros it p Hp; by apply addPath_keeps. }
  etrans; [exact G1|]. etrans; [exact G2|]. cbn [fst]. case_decide; [done|]. apply upsert_grows. apply fold_addPath_keeps.
Qed.

(** The items before the selection. *)
Definition found (pick : gmap string Z -> option string) (dir : string) (hint : option DockerHint) : gmap string Item :=
  let s := walk_root mode root in
  let its := drop_swallowed (excluded (media s)) (add_media pick (media s) (add_databases s)) in
  let '(its, _) := git_repos git safe_url dir root s its in (add_docker (gitRoots s) hint (its, warnings s)).1.

Lemma found_covers pick dir hint y n : (y, Regular n) ∈ leaves [] (Folder root) -> 0 < n -> (forall t, y = [t] -> t ∉ technicalRoots) -> covers (found pick dir hint) y.
Proof using root_named.
  intros Hy Hpos Ht. destruct walk_root_good as [Hinv Hc]. specialize (Hc y n Hy Hpos Ht). unfold found. cbv zeta.
  destruct (add_databases_good (walk_root mode root) (inv_items _ _ _ Hinv)) as [Hi1 G1]. destruct (add_media_good pick _ Hi1) as (Hi2 & G2 & Hm).
  assert (covers (drop_swallowed (excluded (media (walk_root mode root))) (add_media pick (media (walk_root mode root)) (add_databases (walk_root mode root)))) y) as Hc3.
  { apply drop_swallowed_good; [done..|]. eapply covers_grows; [exact G2|]. by eapply covers_grows. }
  pose proof (proj2 (git_repos_good dir (walk_root mode root) (drop_swallowed (excluded (media (walk_root mode root))) (add_media pick (media (walk_root mode root)) (add_databases (walk_root mode root)))))) as G4.
  destruct (git_repos _ _ _ _ _ _) as [its repos]. cbn [fst] in G4. eapply covers_grows; [apply (add_docker_grows _ _ (its, _))|]. by eapply covers_grows.
Qed.
Lemma found_ok pick dir : map_Forall ok (found pick dir None).
Proof using root_named.
  destruct walk_root_good as [Hinv _]. unfold found. cbv zeta.
  destruct (add_databases_good (walk_root mode root) (inv_items _ _ _ Hinv)) as [Hi1 _]. destruct (add_media_good pick _ Hi1) as (Hi2 & _ & _).
  pose proof (proj1 (git_repos_good dir (walk_root mode root) (drop_swallowed (excluded (media (walk_root mode root))) (add_media pick (media (walk_root mode root)) (add_databases (walk_root mode root)))))) as G4.
  destruct (git_repos _ _ _ _ _ _) as [its repos]. cbn [fst] in *. apply G4. intros id it [Hit _]%map_lookup_filter_Some. by apply Hi2.
Qed.
End after.

(** ** The selection and the plan *)
Lemma uniquePaths_elem l p : Forall (fun p => HasPrefix p "/" = true /\ TrimSpace p = p) l -> p ∈ uniquePaths l <-> p ∈ l.
Proof.
  intros Hl. rewrite Forall_forall in Hl. unfold uniquePaths, sortStrings. rewrite merge_sort_Permutation, elem_add_new. split.
  - intros [Hp _]. apply list_elem_of_fmap in Hp as (q & -> & [_ Hq]%list_elem_of_filter). apply list_elem_of_fmap in Hq as (r & -> & Hr). destruct (Hl r Hr) as [H1 H2].
    rewrite H2. unfold uniquePath. by rewrite H1.
  - intros Hp. destruct (Hl p Hp) as [H1 H2]. split; [|by apply not_elem_of_nil]. apply list_elem_of_fmap. exists p. split; [unfold uniquePath; by rewrite H1|].
    apply list_elem_of_filter. split; [by intros ->|]. apply list_elem_of_fmap. by exists p.
Qed.

(** A listed path that is read as it is written. *)
Definition lists (rs : list string) (p : string) (q : list string) : Prop := guest rs q /\ HasPrefix p "/" = true /\ Clean p = abs q /\ TrimSpace p = p.
Definition listed (rs : list string) (p : string) : Prop := exists q, lists rs p q.

Lemma lists_same rs l qs : Forall2 (lists rs) l qs -> normalizeCapturePaths (abs rs) l = normalizeCapturePaths (abs rs) (map abs qs).
Proof.
  intros Hl. unfold normalizeCapturePaths. f_equal. induction Hl as [|p q l qs (Hg & Hp & Hc & Ht) _ IH]; [done|]. cbn [map].
  rewrite Ht, (g_trim _ _ Hg). rewrite filter_cons_True by (by intros ->). rewrite (filter_cons_True _ (abs q)) by done. cbn [map]. f_equal; [|exact IH].
  unfold host_path, IsAbs. rewrite Hp. change (HasPrefix (abs q) "/") with true. cbv iota zeta. rewrite Hc. by rewrite (Clean_abs q) by apply Hg.
Qed.
Lemma listed_choose rs l : Forall (listed rs) l -> exists qs, Forall2 (lists rs) l qs /\ Forall (guest rs) qs.
Proof.
  induction 1 as [|p l (q & Hq) _ (qs & H1 & H2)]; [by exists []|]. exists (q :: qs). split; constructor; try done. apply Hq.
Qed.

(** A capture with listed paths keeps the wanted files. *)
Lemma Captured_listed rs incl excl x : Forall plain rs -> rs <> [] -> Forall (listed rs) incl -> Forall (listed rs) excl -> file rs x ->
  exists ins exs, Forall2 (lists rs) incl ins /\ Forall2 (lists rs) excl exs /\ Captured (abs rs) (join x) incl excl = wanted ins exs x.
Proof.
  intros Hrs Hn Hi He Hx. destruct (listed_choose rs incl Hi) as (ins & Hi1 & Hi2). destruct (listed_choose rs excl He) as (exs & He1 & He2).
  exists ins, exs. split_and!; [done..|]. rewrite <- (Captured_wanted rs Hrs Hn ins exs Hi2 He2 x Hx). unfold Captured. by rewrite (lists_same rs incl ins), (lists_same rs excl exs).
Qed.
