(* ===== verification/ScopeSafety.v ===== *)
(** * What a backup leaves out

    What a capture planned from a preview leaves out lies below an item that the preview
    shows as not selected, and without a selection every such item has its reason in the
    files.  The examples at the end are files the rules lose. *)
From stdpp Require Import sorting.
From S2P Require Export ScopeProps.

Section safety.
Context `{CaseTables} (git : string -> list string -> option string) (safe_url : string -> string).

(** ** Discovery as the items found and the selection *)
Definition found_list (pick : gmap string Z -> option string) (opts : Options) (kids : list (string * entry)) : list Item :=
  merge_sort item_le (map snd (map_to_list (found (mode_of opts) kids git safe_url pick (Clean (oRoot opts)) (oDocker opts)))).

Lemma Discover_found pick opts kids : exists warns fullb repos,
  Discover git safe_url pick opts kids =
  applySelection (oSelection opts) (mkPreview (oWorkloadID opts) (oName opts) (mode_of opts) (found_list pick opts kids) warns 0 0 fullb [] [] repos).
Proof.
  unfold Discover, found_list, found. cbv zeta. destruct (git_repos _ _ _ _ _ _) as [its repos]. destruct (add_docker _ _ _) as [its' warns]. cbn [fst]. by eexists _, _, _.
Qed.

Lemma note_overlaps_paths l acc : map iPaths (fold_left note_overlaps l acc).1 = map iPaths acc.1.
Proof.
  revert acc. induction l as [|p l IH]; intros acc; cbn [fold_left]; [done|]. rewrite IH. unfold note_overlaps. cbn [fst]. rewrite map_map. apply map_ext. intros it. by destruct (overlaps p it).
Qed.

Lemma applySelection_facts sel prev : let out := applySelection sel prev in
  (forall it, it ∈ pItems prev -> exists it', it' ∈ pItems out /\ iPaths it' = iPaths it) /\
  PlanCapture (pMode prev) (pItems out) = (pIncludes out, pExcludes out) /\
  (sel = no_selection -> pItems out = map (fun it => set_selected (item_on (pMode prev) no_selection it) it) (pItems prev)).
Proof.
  unfold applySelection. cbv zeta. set (its := map _ (pItems prev)). set (its1 := match uniquePaths (Includes sel) with [] => its | _ => _ end).
  set (iw := match uniquePaths (Excludes sel) with [] => (its1, _) | _ => _ end).
  assert (exists more, map iPaths iw.1 = map iPaths its ++ more) as [more Hmore].
  { assert (exists more, map iPaths its1 = map iPaths its ++ more) as [m1 E1].
    { unfold its1. destruct (uniquePaths (Includes sel)); [exists []; by rewrite app_nil_r|]. rewrite map_app. by eexists. }
    unfold iw. destruct (uniquePaths (Excludes sel)) as [|p l]; [by exists m1|]. rewrite note_overlaps_paths. cbn [fst]. rewrite map_app, E1, <- app_assoc. by eexists. }
  assert (sel = no_selection -> iw.1 = its) as Hnone by (intros E; unfold iw, its1; by rewrite E).
  clearbody iw. destruct iw as [its2 warns]. cbn [fst] in *. destruct (PlanCapture (pMode prev) its2) as [incs excs] eqn:Ep. cbn. split_and!; [|done|].
  - intros it Hit. assert (iPaths it ∈ map iPaths its2) as Hin.
    { rewrite Hmore, elem_of_app. left. unfold its. rewrite map_map. apply list_elem_of_fmap. by exists it. }
    apply list_elem_of_fmap in Hin as (it' & E & Hit'). by exists it'.
  - intros E. rewrite (Hnone E). unfold its. by rewrite E.
Qed.

(** ** The plan *)
Lemma abs_inj a b : Forall plain a -> Forall plain b -> abs a = abs b -> a = b.
Proof. intros Ha Hb E. apply join_names_inj; [done..|]. by injection E. Qed.
Lemma lists_inj rs p a b : lists rs p a -> lists rs p b -> a = b.
Proof. intros (Ha & _ & E1 & _) (Hb & _ & E2 & _). apply abs_inj; [apply Ha|apply Hb|congruence]. Qed.

Lemma deepest_in qs x : 0 <= deepest qs x -> exists q, q ∈ qs /\ q `prefix_of` x /\ deepest qs x = Z.of_nat (length q).
Proof.
  pose proof (best_of_spec (fun q => bool_decide (q `prefix_of` x)) (fun q => Z.of_nat (length q)) qs ltac:(intros; cbn beta; lia)) as D. fold (deepest qs x) in D.
  intros H0. destruct D as [[D _]|(q & Hq & Hp%bool_decide_eq_true & D & _)]; [lia|]. by exists q.
Qed.
Lemma deepest_ge qs x q : q ∈ qs -> q `prefix_of` x -> Z.of_nat (length q) <= deepest qs x.
Proof.
  pose proof (best_of_spec (fun q => bool_decide (q `prefix_of` x)) (fun q => Z.of_nat (length q)) qs ltac:(intros; cbn beta; lia)) as D. fold (deepest qs x) in D.
  intros Hq Hp0. assert (bool_decide (q `prefix_of` x) = true) as Hp by by apply bool_decide_eq_true. destruct D as [[_ D]|(q' & _ & _ & -> & D)]; [by rewrite (D q Hq) in Hp|]. by apply D.
Qed.

(** Whether the plan leaves the paths of an item out. *)
Definition left_out (it : Item) : Prop := iSelected it = false \/ iKind it = KindTechnical.
#[local] Instance left_out_dec it : Decision (left_out it).
Proof. unfold left_out. apply _. Defined.

Lemma concat_paths_elem (P : Item -> Prop) `{forall it, Decision (P it)} its p : p ∈ concat (map iPaths (filter P its)) <-> exists it, it ∈ its /\ P it /\ p ∈ iPaths it.
Proof. rewrite elem_concat_map. setoid_rewrite list_elem_of_filter. naive_solver. Qed.

Lemma listed_unique rs l : Forall (listed rs) l -> Forall (listed rs) (uniquePaths l) /\ forall p, p ∈ uniquePaths l <-> p ∈ l.
Proof.
  intros Hl. assert (forall p, p ∈ uniquePaths l <-> p ∈ l) as Hiff.
  { intros p. apply uniquePaths_elem. eapply Forall_impl; [exact Hl|]. intros p' (q & _ & ? & _ & ?). done. }
  split; [|done]. rewrite Forall_forall in Hl. apply Forall_forall. intros p Hp. by apply Hl, Hiff.
Qed.

Lemma plan_leaves_out rs mode its x p0 q0 it0 incl excl :
  Forall plain rs -> rs <> [] -> Forall (listed rs) (concat (map iPaths its)) -> file rs x ->
  PlanCapture mode its = (incl, excl) -> it0 ∈ its -> p0 ∈ iPaths it0 -> lists rs p0 q0 -> q0 `prefix_of` x ->
  Captured (abs rs) (join x) incl excl = false ->
  exists it p q, it ∈ its /\ left_out it /\ p ∈ iPaths it /\ lists rs p q /\ q `prefix_of` x /\
    (mode <> ModeFull -> forall it' p' q', it' ∈ its -> ~ left_out it' -> p' ∈ iPaths it' -> lists rs p' q' -> q' `prefix_of` x -> (length q' <= length q)%nat).
Proof.
  intros Hrs Hn Hl Hx Hplan Hit0 Hp0 Hq0 Hpre Hcap. rewrite Forall_forall in Hl.
  assert (forall (P : Item -> Prop) (HP : forall it, Decision (P it)), Forall (listed rs) (concat (map iPaths (filter P its)))) as HP.
  { intros P HP. apply Forall_forall. intros p (it & Hit & _ & Hp)%concat_paths_elem. apply Hl, elem_concat_map. by exists it. }
  unfold PlanCapture in Hplan. destruct (decide (mode = ModeFull)) as [->|Hm]; injection Hplan as <- <-.
  - destruct (listed_unique rs _ (HP (fun it => iKind it = KindTechnical) _)) as [Hl' Hiff].
    destruct (Captured_listed rs [] _ x Hrs Hn (Forall_nil_2 _) Hl' Hx) as (ins & exs & Hi & He & Hw). apply Forall2_nil_inv_l in Hi as ->.
    rewrite Hw in Hcap. unfold wanted in Hcap. rewrite bool_decide_eq_true_2 in Hcap by done. rewrite andb_true_r in Hcap. apply negb_false_iff, andb_prop in Hcap as [Hc%Z.leb_le _].
    destruct (deepest_in exs x Hc) as (q & Hq & Hqx & _). apply list_elem_of_lookup in Hq as [i Hq]. destruct (Forall2_lookup_r _ _ _ _ _ He Hq) as (p & Hp & Hpq).
    apply list_elem_of_lookup_2, Hiff, concat_paths_elem in Hp as (it & Hit & Hk & Hp). exists it, p, q. split_and!; try done; by right.
  - destruct (listed_unique rs _ (HP (fun it => iKind it <> KindTechnical /\ iSelected it = true) _)) as [Hli Hiffi].
    destruct (listed_unique rs _ (HP (fun it => iKind it = KindTechnical \/ iSelected it = false) _)) as [Hle Hiffe].
    destruct (Captured_listed rs _ _ x Hrs Hn Hli Hle Hx) as (ins & exs & Hi & He & Hw). rewrite Hw in Hcap.
    assert (forall it p q, it ∈ its -> ~ left_out it -> p ∈ iPaths it -> lists rs p q -> q ∈ ins) as Hins.
    { intros it p q Hit Hlo Hp Hpq. assert (p ∈ uniquePaths (concat (map iPaths (filter (fun it => iKind it <> KindTechnical /\ iSelected it = true) its)))) as Hin.
      { apply Hiffi, concat_paths_elem. exists it. split_and!; [done|by intros E; apply Hlo; right| |done]. destruct (iSelected it) eqn:Es; [done|]. destruct Hlo. by left. }
      apply list_elem_of_lookup in Hin as [i Hin]. destruct (Forall2_lookup_l _ _ _ _ _ Hi Hin) as (q' & Hq' & Hpq'). rewrite (lists_inj _ _ _ _ Hpq Hpq'). by eapply list_elem_of_lookup_2. }
    assert (forall it p q, it ∈ its -> left_out it -> p ∈ iPaths it -> lists rs p q -> q ∈ exs) as Hexs.
    { intros it p q Hit Hlo Hp Hpq. assert (p ∈ uniquePaths (concat (map iPaths (filter (fun it => iKind it = KindTechnical \/ iSelected it = false) its)))) as Hin.
      { apply Hiffe, concat_paths_elem. exists it. split_and!; [done|unfold left_out in Hlo; tauto|done]. }
      apply list_elem_of_lookup in Hin as [i Hin]. destruct (Forall2_lookup_l _ _ _ _ _ He Hin) as (q' & Hq' & Hpq'). rewrite (lists_inj _ _ _ _ Hpq Hpq'). by eapply list_elem_of_lookup_2. }
    assert (0 <= deepest exs x /\ deepest ins x <= deepest exs x) as [Hd1 Hd2].
    { unfold wanted in Hcap. apply andb_false_iff in Hcap as [Hcap|Hcap].
      - apply negb_false_iff, andb_prop in Hcap as [?%Z.leb_le ?%Z.leb_le]. done.
      - apply orb_false_iff in Hcap as [_ Hcap%Z.leb_gt]. destruct (decide (left_out it0)) as [Hlo|Hlo].
        + pose proof (deepest_ge exs x q0 (Hexs it0 p0 q0 Hit0 Hlo Hp0 Hq0) Hpre). lia.
        + pose proof (deepest_ge ins x q0 (Hins it0 p0 q0 Hit0 Hlo Hp0 Hq0) Hpre). lia. }
    destruct (deepest_in exs x Hd1) as (q & Hq & Hqx & Hd). apply list_elem_of_lookup in Hq as [i Hq]. destruct (Forall2_lookup_r _ _ _ _ _ He Hq) as (p & Hp & Hpq).
    apply list_elem_of_lookup_2, Hiffe, concat_paths_elem in Hp as (it & Hit & Hk & Hp). exists it, p, q. split_and!; try done; [unfold left_out; tauto|].
    intros _ it' p' q' Hit' Hlo Hp' Hpq' Hq'. pose proof (deepest_ge ins x q' (Hins it' p' q' Hit' Hlo Hp' Hpq') Hq'). lia.
Qed.

Lemma Discover_leaves_out pick opts kids rs x n : let prev := Discover git safe_url pick opts kids in
  Clean (oRoot opts) = abs rs -> Forall plain rs -> rs <> [] -> named (Folder kids) ->
  (x, Regular n) ∈ leaves [] (Folder kids) -> 0 < n -> (forall t, x = [t] -> t ∉ technicalRoots) -> file rs x ->
  Forall (listed rs) (concat (map iPaths (pItems prev))) -> Captured (abs rs) (join x) (pIncludes prev) (pExcludes prev) = false ->
  exists it p q, it ∈ pItems prev /\ left_out it /\ p ∈ iPaths it /\ lists rs p q /\ q `prefix_of` x /\
    (mode_of opts <> ModeFull -> forall it' p' q', it' ∈ pItems prev -> ~ left_out it' -> p' ∈ iPaths it' -> lists rs p' q' -> q' `prefix_of` x -> (length q' <= length q)%nat).
Proof.
  intros prev Hroot Hrs Hn Hnm Hx Hpos Ht Hf Hl Hcap.
  destruct (found_covers (mode_of opts) kids Hnm git safe_url pick (Clean (oRoot opts)) (oDocker opts) x n Hx Hpos Ht) as (id & it & q & _ & Hit & Hq & Hin & Hp).
  unfold prev in *. destruct (Discover_found pick opts kids) as (warns & fb & repos & E). rewrite E in *. clear E prev.
  set (pre := mkPreview _ _ _ _ _ _ _ _ _ _ _) in *. pose proof (applySelection_facts (oSelection opts) pre) as (Hitems & Hplan & _).
  destruct (Hitems it) as (it0 & Hit0 & Hp0).
  { cbn. unfold found_list. rewrite merge_sort_Permutation. apply list_elem_of_fmap. exists (id, it). split; [done|]. by apply elem_of_map_to_list. }
  rewrite <- Hp0 in Hin. assert (listed rs (rooted q)) as [q0 Hq0]. { rewrite Forall_forall in Hl. apply Hl, elem_concat_map. by exists it0. }
  assert (q0 = q) as ->. { destruct Hq0 as (Hg & _ & Hc & _). rewrite Clean_rooted_names in Hc by done. symmetry. apply abs_inj; [done|apply Hg|done]. }
  by eapply (plan_leaves_out rs (mode_of opts) (pItems (applySelection (oSelection opts) pre)) x (rooted q) q it0).
Qed.

(** ** The claims *)


(** The reasons to leave out what is at a path, without a selection. *)
Inductive left_out_reason (mode : string) (root : list (string * entry)) (q : list string) : Prop :=
  | runtime t : q = [t] -> t ∈ technicalRoots -> left_out_reason mode root q
  | image_store kids : (q, Folder kids) ∈ root_entries root -> is_Some (imageStoreDir root (join q)) -> left_out_reason mode root q
  | rebuilt kids : (q, Folder kids) ∈ root_entries root -> is_Some (reproducibleDir (join q)) -> left_out_reason mode root q
  | working_tree kids : (q, Folder kids) ∈ root_entries root -> looksLikeGit root (join q) = true -> left_out_reason mode root q
  | system row : row ∈ reproduciblePrefixes -> q = row_names row -> left_out_reason mode root q
  | media_file n : (q, Regular n) ∈ root_entries root -> is_media (join q) = true -> mediaFileMinBytes <= n -> left_out_reason mode root q
  | media_folder b : let t := media (walk_root mode root) in
      tMedia t !! relof q = Some b -> mediaDirMinBytes <= b -> SFleb (share_of (default 0 (tTotal t !! relof q))) (float_of_Z b) = true -> left_out_reason mode root q
  | media_tree b : let t := media (walk_root mode root) in
      subMedia t !! relof q = Some b -> mediaDirMinBytes <= b -> relof q ∉ mixed t -> left_out_reason mode root q.

Lemma reason_left_out mode root q : named (Folder root) -> Forall plain q -> reason mode root q -> left_out_reason mode root q.
Proof.
  intros Hnm Hq [[(t & -> & Ht)|[(kids & HT & [Hi|[Hr|Hg]])|(row & Hr & ->)]]|Hm].
  - by eapply runtime.
  - by eapply image_store.
  - by eapply rebuilt.
  - by eapply working_tree.
  - by eapply system.
  - unfold media_reason, excluded, sortStrings in Hm. rewrite merge_sort_Permutation, elem_of_app, !list_elem_of_filter in Hm. destruct Hm as [[_ Hm]|[_ Hm]].
    + apply elem_of_elements in Hm. unfold chosen in Hm. rewrite elem_of_union, !elem_of_list_to_set in Hm.
      destruct Hm as [Hm|Hm]; apply list_elem_of_fmap in Hm as ([k b] & E & Hm); apply list_elem_of_filter in Hm as [Hc Hm]; apply elem_of_map_to_list in Hm; cbn [fst snd] in *; subst k.
      * destruct Hc as [H1 H2]. exact (media_folder _ _ _ b Hm H1 H2).
      * destruct Hc as (_ & H1 & H2). exact (media_tree _ _ _ b Hm H1 H2).
    + destruct (t_files _ _ (inv_media _ _ _ (proj1 (walk_root_good mode root Hnm))) _ Hm) as (q' & n & Hq' & Hn' & E & HT & Hmd & Hb).
      rewrite <- (relof_some q') in E by done. apply relof_inj in E as ->; [|done..]. rewrite relof_some in Hmd by done. by eapply media_file.
Qed.

Lemma off_item mode it id root : (mode = ModeSmart \/ mode = ModeCustom) -> okitem (reason mode root) id it -> left_out (set_selected (item_on mode no_selection it) it) -> off id = true.
Proof.
  intros Hmode [Hid Hon Hre Hex _ _ Ht] Hlo. destruct (off id) eqn:Eo; [done|]. exfalso. destruct Hlo as [Hs|Hk]; [|cbn in Hk; by specialize (Ht Hk)].
  cbn in Hs. unfold item_on in Hs. assert (isImageStoreItem (iID it) = false) as Him.
  { rewrite Hid. unfold isImageStoreItem. apply orb_false_iff. split.
    - unfold off in Eo. cbn [existsb] in Eo. rewrite !orb_false_iff in Eo. tauto.
    - clear -Eo. apply bool_decide_eq_false. rewrite list_elem_of_In. cbn. intros Hin. intuition (subst id; discriminate Eo). }
  assert (iExcluded it = false) as Hex' by (destruct (iExcluded it); [by discriminate Hex|done]).
  rewrite Hon, Hre, Hex', Him, andb_false_r in Hs. rewrite (bool_decide_eq_false_2 (iID it ∈ Selected no_selection)), (bool_decide_eq_false_2 (iID it ∈ Deselected no_selection)) in Hs by apply not_elem_of_nil.
  rewrite (bool_decide_eq_true_2 (iKind it <> KindTechnical)) in Hs by (intros E; by specialize (Ht E)).
  destruct Hmode as [->| ->]; vm_compute in Hs; discriminate Hs.
Qed.

End safety.

(** ** A container to try it on *)
Definition names_of (p : string) : list string := filter (fun s => s <> ""%string) (Split (Clean p) slash).
Definition listedb (rs : list string) (p : string) : bool :=
  let q := names_of p in
  bool_decide (Forall plain q) && bool_decide (TrimSpace (abs q) = abs q) && negb (bool_decide (rs `prefix_of` q)) &&
  HasPrefix p "/" && bool_decide (Clean p = abs q) && bool_decide (TrimSpace p = p).
Lemma listedb_listed rs l : forallb (listedb rs) l = true -> Forall (listed rs) l.
Proof.
  rewrite forallb_forall. intros Hl. apply Forall_forall. intros p Hp. specialize (Hl p ltac:(by apply list_elem_of_In)). unfold listedb in Hl.
  rewrite !andb_true_iff, negb_true_iff, !bool_decide_eq_true, bool_decide_eq_false in Hl. destruct Hl as (((((H1 & H2) & H3) & H4) & H5) & H6).
  exists (names_of p). split_and!; done.
Qed.
Fixpoint namedb (e : entry) : bool :=
  match e with
  | Folder kids => (fix all (l : list (string * entry)) : bool := match l with [] => true | k :: l => bool_decide (plain k.1) && namedb k.2 && all l end) kids
  | _ => true
  end.
Lemma namedb_named e : namedb e = true -> named e.
Proof.
  induction e as [n|b|kids IH] using entry_ind'; [done..|]. intros Hb. apply named_folder. cbn [namedb] in Hb. induction IH as [|k kids Hk _ IHl]; [constructor|].
  rewrite !andb_true_iff, bool_decide_eq_true in Hb. destruct Hb as [[H1 H2] H3]. constructor; [by split; [|apply Hk]|by apply IHl].
Qed.

Module Demo.
#[local] Existing Instance ascii_tables.
Definition mib : Z := 2 ^ 20.
Definition box : list (string * entry) := [
  ("etc", Folder [("hostname", Regular 4); ("ssl", Folder [("k.pem", Regular 3)])]);
  ("home", Folder [("u", Folder [("proj", Folder [(".git", Folder [("HEAD", Regular 3)]); (".env", Regular 3); ("a.go", Regular 9)])])]);
  ("srv", Folder [("music", Folder [("a.mp3", Regular (60 * mib)); ("docs", Folder [("thesis.pdf", Regular 5)])])]);
  ("usr", Folder [("bin", Regular 5)]);
  ("var", Folder [("cache", Folder [("j", Regular 1)]);
                  ("lib", Folder [("docker", Folder [("volumes", Folder [("v", Regular 3)]); ("overlay2", Folder [("l", Regular 4)])]);
                                  ("mysql", Folder [("ib", Regular 4)]); ("app", Folder [("s.db", Regular 4)])])])]%string.
(** A Git that knows a clean working tree, and one that cannot read any. *)
Definition clean_git (dir : string) (args : list string) : option string :=
  match args with ["rev-parse"; "HEAD"]%string => Some "abc"%string | ["remote"; "-v"]%string => Some "origin url (fetch)"%string
                | "branch"%string :: _ => Some "origin/main"%string | _ => Some ""%string end.
Definition no_git (dir : string) (args : list string) : option string := None.
Definition first (m : gmap string Z) : option string := match map_to_list m with (k, _) :: _ => Some k | [] => None end.
Definition smart : Options := mkOptions "/ct" "w" "n" "" no_selection None.
Definition preview := Discover clean_git (fun u => u) first smart.
Definition kept (kids : list (string * entry)) (rel : string) : bool := Captured "/ct" rel (pIncludes (preview kids)) (pExcludes (preview kids)).

Example box_kept : map (kept box) ["etc/hostname"; "etc/ssl/k.pem"; "home/u/proj/.env"; "var/lib/docker/volumes/v"; "var/lib/mysql/ib"; "var/lib/app/s.db"]%string = repeat true 6 /\
  map (kept box) ["home/u/proj/a.go"; "srv/music/a.mp3"; "usr/bin"; "var/cache/j"; "var/lib/docker/overlay2/l"]%string = repeat false 5.
Proof. vm_compute. split; reflexivity. Qed.

(** *** Where the rules lose files *)

(** A folder with media directly in it takes its subfolders with it, whatever they hold. *)
Example media_swallows : kept box "srv/music/docs/thesis.pdf" = false /\ reproducibleDir "srv/music/docs" = None.
Proof. vm_compute. split; reflexivity. Qed.

(** Empty files, links and devices are seen by no item outside the known places: a
    directory with nothing else is lost without a word. *)
Definition quiet : list (string * entry) := [("data", Folder [(".initialised", Regular 0); ("current", Special true)])]%string.
Example quiet_lost : pItems (preview quiet) = [] /\ kept (box ++ quiet) "data/.initialised" = false /\ kept (box ++ quiet) "data/current" = false /\
  existsb (fun it => existsb (fun p => HasPrefix p "/data") (iPaths it)) (pItems (preview (box ++ quiet))) = false.
Proof. vm_compute. repeat split. Qed.

(** A directory whose name ends in a space is shown as selected, and is not captured. *)
Definition spaced : list (string * entry) := [("data ", Folder [("x", Regular 5)])]%string.
Example spaced_lost : map (fun it => (iPaths it, iSelected it)) (pItems (preview spaced)) = [(["/data "], true)]%string /\ kept spaced "data /x" = false.
Proof. vm_compute. split; reflexivity. Qed.

(** A working tree that Git cannot read counts as holding nothing a clone would lose. *)
Definition blind := Discover no_git (fun u => u) first smart box.
Example unreadable_not_held : map (fun r => (gPath r, gError r, AtRisk r)) (pRepos blind) = [("/home/u/proj", "could not read the repository", false)]%string /\
  Captured "/ct" "home/u/proj/a.go" (pIncludes blind) (pExcludes blind) = false.
Proof. vm_compute. split; reflexivity. Qed.

(** The bytes of a database are counted with its folder and again on its own. *)
Definition counted : list (string * entry) := [("srv", Folder [("a.db", Regular 7)])]%string.
Example counted_twice : (pFull (preview counted), pProtected (preview counted)) = (7, 14).
Proof. vm_compute. reflexivity. Qed.

(** *** The claims at work *)
Lemma box_named : named (Folder box).
Proof. apply namedb_named. vm_compute. reflexivity. Qed.
Lemma box_file : file ["ct"]%string ["usr"; "bin"]%string.
Proof. constructor; apply (bool_decide_unpack _); vm_compute; exact I. Qed.
Lemma box_listed : Forall (listed ["ct"]%string) (concat (map iPaths (pItems (preview box)))).
Proof. apply listedb_listed. vm_compute. reflexivity. Qed.
End Demo.

