(* ===== verification/Ip.v ===== *)
(** * Addresses ([src/internal/ndnet/cidr.go], with what it uses of package [net])

    What the code uses of Go's [net.ParseIP], [net.ParseCIDR] and [net.ParseMAC], then the
    subnets of isolated networks: their gateway, the range their DHCP server hands out,
    and the reservations in it.  An address is a number below 2^32 or 2^128. *)
From S2P Require Export TextProps.

(** ** Go's addresses *)
Inductive Addr := V4 (a : Z) | V6 (a : Z).
#[export] Instance Addr_eq_dec : EqDecision Addr.
Proof. solve_decision. Defined.

Definition digit (a : ascii) : option Z := let z := byteZ a in if (48 <=? z) && (z <=? 57) then Some (z - 48) else None.
Definition hex_digit (a : ascii) : option Z :=
  let z := byteZ a in
  if (48 <=? z) && (z <=? 57) then Some (z - 48)
  else if (97 <=? z) && (z <=? 102) then Some (z - 87)
  else if (65 <=? z) && (z <=? 70) then Some (z - 55) else None.

(** [netip.parseIPv4Fields]: the value, the digits of the field, the fields before it. *)
Fixpoint ip4_loop (l : list ascii) (val : Z) (digits : nat) (fields : list Z) : option (list Z) :=
  match l with
  | [] => if bool_decide (digits = 0%nat) then None else if bool_decide (length fields = 3%nat) then Some (fields ++ [val]) else None
  | a :: l =>
      match digit a with
      | Some d =>
          if bool_decide (digits = 1%nat) && (val =? 0) then None
          else let val := val * 10 + d in if 255 <? val then None else ip4_loop l val (S digits) fields
      | None =>
          if negb (Ascii.eqb a "."%char) then None
          else if bool_decide (digits = 0%nat) || bool_decide (length fields = 3%nat) then None
          else ip4_loop l 0 0 (fields ++ [val])
      end
  end.
Definition of_fields (fields : list Z) : Z := fold_left (fun acc f => acc * 256 + f) fields 0.
Definition parse4 (l : list ascii) : option Z := of_fields <$> ip4_loop l 0 0 [].

(** A group of at most four hexadecimal digits: its value, its length and what follows. *)
Fixpoint hex_group (l : list ascii) (acc : Z) (off : nat) : option (Z * nat * list ascii) :=
  match l with
  | a :: l' =>
      match hex_digit a with
      | Some d => if (3 <? Z.of_nat off) then None else hex_group l' (acc * 16 + d) (S off)
      | None => Some (acc, off, l)
      end
  | [] => Some (acc, off, [])
  end.
(** [netip.parseIPv6] after a leading [::]: the groups so far (16 bits each), and how many
    of them come before the ellipsis. *)
Fixpoint ip6_loop (fuel : nat) (l : list ascii) (groups : list Z) (ellipsis : option nat) : option (list ascii * list Z * option nat) :=
  match fuel with
  | O => Some (l, groups, ellipsis)
  | S fuel =>
      match hex_group l 0 0 with
      | None => None
      | Some (acc, off, rest) =>
          if bool_decide (off = 0%nat) then None
          else match rest with
          | "."%char :: _ =>
              if (bool_decide (ellipsis = None) && negb (bool_decide (length groups = 6%nat))) || bool_decide (6 < length groups)%nat then None
              else match parse4 l with
                   | Some v => Some ([], groups ++ [v / 65536; v mod 65536], ellipsis)
                   | None => None
                   end
          | [] => Some ([], groups ++ [acc], ellipsis)
          | ":"%char :: [] => None
          | ":"%char :: ":"%char :: l =>
              if bool_decide (is_Some ellipsis) then None
              else let ellipsis := Some (S (length groups)) in
                   match l with [] => Some ([], groups ++ [acc], ellipsis) | _ => ip6_loop fuel l (groups ++ [acc]) ellipsis end
          | ":"%char :: l => ip6_loop fuel l (groups ++ [acc]) ellipsis
          | _ => None
          end
      end
  end.
Definition of_groups (groups : list Z) : Z := fold_left (fun acc g => acc * 65536 + g) groups 0.
Definition finish6 (r : option (list ascii * list Z * option nat)) : option Z :=
  match r with
  | Some ([], groups, ellipsis) =>
      if bool_decide (length groups < 8)%nat then
        match ellipsis with
        | None => None
        | Some k => Some (of_groups (take k groups ++ repeat 0 (8 - length groups) ++ drop k groups))
        end
      else match ellipsis with Some _ => None | None => Some (of_groups groups) end
  | _ => None
  end.
Definition parse6 (l : list ascii) : option Z :=
  match l with
  | ":"%char :: ":"%char :: [] => Some 0
  | ":"%char :: ":"%char :: l => finish6 (ip6_loop 8 l [] (Some 0%nat))
  | _ => finish6 (ip6_loop 8 l [] None)
  end.

(** [netip.ParseAddr]: the first of [.], [:] and [%] decides.  A text with a zone, which
    [net] refuses, is no address. *)
Definition ParseAddr (l : list ascii) : option Addr :=
  match find (fun a => bool_decide (a ∈ ["."; ":"; "%"]%char)) l with
  | Some "."%char => V4 <$> parse4 l
  | Some ":"%char => if bool_decide ("%"%char ∈ l) then None else V6 <$> parse6 l
  | _ => None
  end.
(** [IP.To4], of the sixteen bytes of an [IP]. *)
Definition To4 (a : Addr) : option Z :=
  match a with V4 a => Some a | V6 a => if a / 2 ^ 32 =? 65535 then Some (a mod 2 ^ 32) else None end.
Definition ParseIP (s : string) : option Addr := ParseAddr (bytes s).

(** [net.dtoi] of a whole text, below a limit past which it fails. *)
Fixpoint dtoi_loop (l : list ascii) (n : Z) : option Z :=
  match l with
  | [] => Some n
  | a :: l => match digit a with Some d => let n := n * 10 + d in if 16777215 <=? n then None else dtoi_loop l n | None => None end
  end.
Definition dtoi (l : list ascii) : option Z := match l with [] => None | _ => dtoi_loop l 0 end.
(** [net.ParseCIDR]: the address and the bits of its mask. *)
Definition ParseCIDR (s : string) : option (Addr * Z) :=
  match Index s "/" with
  | None => None
  | Some i =>
      match ParseAddr (take i (bytes s)), dtoi (drop (S i) (bytes s)) with
      | Some a, Some n => if n <=? (match a with V4 _ => 32 | V6 _ => 128 end) then Some (a, n) else None
      | _, _ => None
      end
  end.

(** An IPv4 network; [IP.Mask] and [IPNet.Contains] on IPv4 addresses. *)
Record IPNet := mkNet { nIP : Z; nOnes : Z }.
Definition mask4 (a ones : Z) : Z := a - a mod 2 ^ (32 - ones).
Definition NetContains (n : IPNet) (a : Addr) : bool :=
  match To4 a with Some a => mask4 a (nOnes n) =? mask4 (nIP n) (nOnes n) | None => false end.
Definition octets (a : Z) : list Z := [a / 2 ^ 24 mod 256; a / 2 ^ 16 mod 256; a / 2 ^ 8 mod 256; a mod 256].
Definition join_with (sep : string) (l : list string) : string :=
  match l with [] => "" | s :: l => fold_left (fun acc t => acc +:+ sep +:+ t) l s end.
Definition ip4String (a : Z) : string := join_with "." (map Itoa (octets a)).
Definition netString (n : IPNet) : string := ip4String (nIP n) +:+ "/" +:+ Itoa (nOnes n).

(** ** Hardware addresses *)
Definition xtoi2 (a b : ascii) : option Z := match hex_digit a, hex_digit b with Some x, Some y => Some (x * 16 + y) | _, _ => None end.
(** Pairs of digits with [sep] between them, or with [sep] after every second pair. *)
Fixpoint mac_pairs (sep : ascii) (l : list ascii) : option (list Z) :=
  match l with
  | [a; b] => v ← xtoi2 a b; Some [v]
  | a :: b :: c :: l => if Ascii.eqb c sep then v ← xtoi2 a b; vs ← mac_pairs sep l; Some (v :: vs) else None
  | _ => None
  end.
Fixpoint mac_quads (l : list ascii) : option (list Z) :=
  match l with
  | [a; b; c; d] => v ← xtoi2 a b; w ← xtoi2 c d; Some [v; w]
  | a :: b :: c :: d :: e :: l =>
      if Ascii.eqb e "."%char then v ← xtoi2 a b; w ← xtoi2 c d; vs ← mac_quads l; Some (v :: w :: vs) else None
  | _ => None
  end.
Definition ParseMAC (s : string) : option (list Z) :=
  let l := bytes s in
  if bool_decide (length l < 14)%nat then None
  else
    let r := match l !! 2%nat, l !! 4%nat with
             | Some ":"%char, _ => mac_pairs ":"%char l
             | Some "-"%char, _ => mac_pairs "-"%char l
             | _, Some "."%char => mac_quads l
             | _, _ => None
             end in
    match r with Some m => if bool_decide (length m ∈ [6; 8; 20]%nat) then Some m else None | None => None end.
Definition hex_char (d : Z) : ascii := chr (if d <? 10 then 48 + d else 87 + d).
Definition hex_byte (v : Z) : string := ofBytes [hex_char (v / 16); hex_char (v mod 16)].
Definition macString (m : list Z) : string := join_with ":" (map hex_byte m).

(** [normalizeMAC]: a unicast address of six bytes. *)
Definition normalizeMAC (raw : string) : string :=
  match ParseMAC (TrimSpace raw) with
  | Some (v :: m) =>
      if negb (bool_decide (length (v :: m) = 6%nat)) then ""
      else if Z.odd v then ""
      else if forallb (fun v => v =? 0) (v :: m) then ""
      else macString (v :: m)
  | _ => ""
  end.
Definition sameMAC (a b : string) : bool := bool_decide (normalizeMAC a <> ""%string) && bool_decide (normalizeMAC a = normalizeMAC b).

(** ** Subnets *)
Inductive net_error :=
  | InvalidCIDR | NotIPv4 | PrefixRange | ZeroNet | TooSmall
  | ReservationMAC | ReservationIPv4 | ReservationOutside | ReservationReserved | DuplicateMAC | DuplicateIPv4.
Definition DefaultIPv4 : string := "10.64.0.0/24".

Definition parseIPv4Net (cidr : string) : result net_error (Z * IPNet) :=
  match ParseCIDR (TrimSpace cidr) with
  | None => Err InvalidCIDR
  | Some (V6 a, ones) =>
      (* the network's address is the first [ones] bits: mapped from IPv4 when they keep its prefix *)
      match To4 (V6 a), To4 (V6 (a - a mod 2 ^ (128 - ones))) with Some _, Some _ => Err PrefixRange | _, _ => Err NotIPv4 end
  | Some (V4 a, ones) =>
      if (ones <? 16) || (30 <? ones) then Err PrefixRange
      else let n := mkNet (mask4 a ones) ones in
           if nIP n =? 0 then Err ZeroNet else Ok (a, n)
  end.

Definition u32 (z : Z) : Z := z mod 2 ^ 32.
(** [ip[3]++] on a byte. *)
Definition gatewayOf (n : IPNet) : Z := nIP n - nIP n mod 256 + (nIP n mod 256 + 1) mod 256.
Definition dhcpRange (n : IPNet) : result net_error (Z * Z) :=
  let size := 2 ^ (32 - nOnes n) in
  if size <? 8 then Err TooSmall
  else
    let base := nIP n in
    let s := u32 (base + 50) in
    let e := u32 (base + size - 6) in
    let '(s, e) := if e <=? s then (u32 (base + 2), u32 (base + size - 2)) else (s, e) in
    if e <=? s then Err TooSmall else Ok (s, e).
Definition SameIPv4Net (a b : string) : bool :=
  match parseIPv4Net a, parseIPv4Net b with Ok (_, na), Ok (_, nb) => bool_decide (netString na = netString nb) | _, _ => false end.

Definition stripCIDR (addr : string) : string :=
  match Index addr "/" with Some (S i) => ofBytes (take (S i) (bytes addr)) | _ => addr end.
Definition overlaps (n : IPNet) (addrs : list string) : bool :=
  existsb (fun addr => match ParseIP (stripCIDR addr) with Some ip => NetContains n ip | None => false end) addrs.

(** ** Reservations *)
Record Reservation := mkReservation { rMAC : string; rIPv4 : string; rHostname : string }.
(** [validateReservations]; [macs] and [ips] are what the items before have. *)
Fixpoint check_reservations (items : list Reservation) (n : IPNet) (gw : Z) (macs : list string) (ips : list string) : result net_error unit :=
  match items with
  | [] => Ok ()
  | item :: items =>
      match ParseMAC (TrimSpace (rMAC item)) with
      | None => Err ReservationMAC
      | Some mac =>
          match ParseIP (TrimSpace (rIPv4 item)) ≫= To4 with
          | None => Err ReservationIPv4
          | Some ip =>
              if negb (NetContains n (V4 ip)) then Err ReservationOutside
              else if (ip =? gw) || (ip =? nIP n) then Err ReservationReserved
              else if bool_decide (macString mac ∈ macs) then Err DuplicateMAC
              else if bool_decide (ip4String ip ∈ ips) then Err DuplicateIPv4
              else check_reservations items n gw (macString mac :: macs) (ip4String ip :: ips)
          end
      end
  end.
Definition validateReservations (items : list Reservation) (n : IPNet) (gw : Z) : result net_error unit := check_reservations items n gw [] [].
Definition ValidateReservations (items : list Reservation) (cidr : string) : result net_error unit :=
  let cidr := TrimSpace cidr in
  '(_, n) ← parseIPv4Net (if decide (cidr = ""%string) then DefaultIPv4 else cidr);
  validateReservations items n (gatewayOf n).

(** ** The addresses a bridge takes over *)
Definition usable4 (a : Z) : bool := negb (a / 2 ^ 24 =? 127) && negb (a / 2 ^ 16 =? 169 * 256 + 254) && negb (a =? 0).
Definition cidr_of (raw : string) : option (Z * Z) :=
  match ParseCIDR raw with
  | Some (V4 a, ones) => if usable4 a && negb (ones <=? 0) then Some (a, ones) else None
  | Some (V6 _, _) => None
  | None =>
      match ParseIP raw ≫= To4 with
      | Some a => if usable4 a then Some (a, 32) else None
      | None => None
      end
  end.
Definition ipv4CIDRs (addrs : list string) : list string :=
  fold_left (fun out raw =>
    match cidr_of (TrimSpace raw) with
    | Some (a, ones) => let s := ip4String a +:+ "/" +:+ Itoa ones in if decide (s ∈ out) then out else out ++ [s]
    | None => out
    end) addrs [].
