(* ===== verification/IpProps.v ===== *)
(** * Subnets of isolated networks

    What a subnet's texts say can be read back, two texts name one subnet exactly when
    they cover the same addresses, and the gateway, the range of the DHCP server and the
    reservations keep out of each other's way. *)
From S2P Require Export Ip.

(** ** Texts *)
(** [ip4_loop] on the digits of one field. *)
Fixpoint field_run (l : list ascii) (val : Z) (digits : nat) : option (Z * nat) :=
  match l with
  | [] => Some (val, digits)
  | a :: l =>
      match digit a with
      | Some d =>
          if bool_decide (digits = 1%nat) && (val =? 0) then None
          else let val := val * 10 + d in if 255 <? val then None else field_run l val (S digits)
      | None => None
      end
  end.

Lemma field_run_app l rest fields : forall val digits v k, field_run l val digits = Some (v, k) ->
  ip4_loop (l ++ rest) val digits fields = ip4_loop rest v k fields.
Proof.
  induction l as [|a l IH]; cbn; intros val digits v k H; [by injection H as -> ->|].
  destruct (digit a) as [d|]; [|done]. destruct (bool_decide (digits = 1%nat) && (val =? 0)); [done|].
  destruct (255 <? val * 10 + d); [done|]. by apply IH.
Qed.

Definition octet_ok (o : Z) : bool :=
  bool_decide (field_run (bytes (Itoa o)) 0 0 = Some (o, length (bytes (Itoa o)))) && bool_decide (0 < length (bytes (Itoa o)))%nat &&
  forallb (fun a => negb (bool_decide (a ∈ ["."; "/"; ":"; "%"]%char))) (bytes (Itoa o)).

Lemma octet_facts o : 0 <= o < 256 -> octet_ok o = true.
Proof. revert o. apply (all_between_spec octet_ok). vm_compute. reflexivity. Qed.

Lemma octet_digits o : 0 <= o < 256 -> exists d, bytes (Itoa o) = d /\ d <> [] /\ (forall a, a ∈ d -> a ∉ ["."; "/"; ":"; "%"]%char) /\
  forall rest fields, ip4_loop (d ++ rest) 0 0 fields = ip4_loop rest o (length d) fields.
Proof.
  intros Ho. pose proof (octet_facts o Ho) as H. unfold octet_ok in H. rewrite !andb_true_iff in H. destruct H as [[H1 H2] H3].
  apply bool_decide_eq_true in H1, H2. exists (bytes (Itoa o)). split; [done|]. split; [intros E; rewrite E in H2; cbn in H2; lia|]. split.
  - intros a Ha. rewrite forallb_forall in H3. specialize (H3 a (proj1 (list_elem_of_In _ _) Ha)). by apply negb_true_iff, bool_decide_eq_false in H3.
  - intros rest fields. by apply field_run_app.
Qed.

Lemma ip4_sep l o k fields : (0 < k)%nat -> (length fields < 3)%nat -> ip4_loop ("."%char :: l) o k fields = ip4_loop l 0 0 (fields ++ [o]).
Proof. intros Hk Hf. cbn. by rewrite (bool_decide_eq_false_2 (k = 0%nat)), (bool_decide_eq_false_2 (length fields = 3%nat)) by lia. Qed.

Lemma octets_range a : Forall (fun o => 0 <= o < 256) (octets a).
Proof. unfold octets. repeat constructor; apply Z.mod_pos_bound; lia. Qed.

Lemma of_octets a : 0 <= a < 2 ^ 32 -> of_fields (octets a) = a.
Proof.
  intros Ha. cbn -[Z.div Z.modulo Z.mul Z.add].
  pose proof (Z.div_mod a 256 ltac:(lia)). pose proof (Z.div_mod (a / 256) 256 ltac:(lia)). pose proof (Z.div_mod (a / 256 / 256) 256 ltac:(lia)).
  assert (a / 2 ^ 24 = a / 256 / 256 / 256) as E1 by (rewrite !Z.div_div by lia; f_equal; lia).
  assert (a / 2 ^ 16 = a / 256 / 256) as E2 by (rewrite !Z.div_div by lia; f_equal; lia).
  assert (a / 2 ^ 8 = a / 256) as E3 by (f_equal; lia).
  assert (0 <= a / 256 / 256 / 256 < 256) by (rewrite !Z.div_div by lia; split; [apply Z.div_pos; lia|apply Z.div_lt_upper_bound; lia]).
  rewrite E1, E2, E3, (Z.mod_small (a / 256 / 256 / 256)) by lia. lia.
Qed.

Lemma bytes_ip4 a : exists d1 d2 d3 d4, bytes (ip4String a) = d1 ++ "."%char :: d2 ++ "."%char :: d3 ++ "."%char :: d4 /\ d1 <> [] /\
  (forall x, x ∈ d1 ++ d2 ++ d3 ++ d4 -> x ∉ ["."; "/"; ":"; "%"]%char) /\ parse4 (bytes (ip4String a)) = Some (of_fields (octets a)).
Proof.
  pose proof (octets_range a) as Hr. unfold ip4String. destruct (octets a) as [|o1 [|o2 [|o3 [|o4 [|]]]]] eqn:E; try (by apply (f_equal length) in E).
  rewrite !Forall_cons in Hr. destruct Hr as (H1 & H2 & H3 & H4 & _).
  destruct (octet_digits o1 H1) as (d1 & B1 & N1 & C1 & R1), (octet_digits o2 H2) as (d2 & B2 & N2 & C2 & R2),
    (octet_digits o3 H3) as (d3 & B3 & N3 & C3 & R3), (octet_digits o4 H4) as (d4 & B4 & N4 & C4 & R4).
  exists d1, d2, d3, d4. cbn [map join_with fold_left].
  match goal with |- bytes ?s = _ /\ _ => assert (bytes s = d1 ++ "."%char :: d2 ++ "."%char :: d3 ++ "."%char :: d4) as B end.
  { rewrite !bytes_app, B1, B2, B3, B4. cbn [bytes Stdlib.Strings.String.list_ascii_of_string]. by rewrite <- !app_assoc. }
  rewrite B. split; [done|]. split; [done|]. split.
  - intros x. rewrite !elem_of_app. intros [Hx|[Hx|[Hx|Hx]]]; eauto.
  - unfold parse4. assert (forall d : list ascii, d <> [] -> (0 < length d)%nat) as Hl by (intros []; cbn; [done|lia]).
    rewrite R1, ip4_sep, R2, ip4_sep, R3, ip4_sep by (cbn; auto with lia).
    rewrite <- (app_nil_r d4), R4. cbn. by rewrite bool_decide_eq_false_2 by (intros E'; specialize (Hl d4 N4); lia).
Qed.

(** An IPv4 address reads back from its text. *)
Lemma ParseAddr_ip4 a : 0 <= a < 2 ^ 32 -> ParseAddr (bytes (ip4String a)) = Some (V4 a) /\ "/"%char ∉ bytes (ip4String a).
Proof.
  intros Ha. destruct (bytes_ip4 a) as (d1 & d2 & d3 & d4 & B & N & C & P). rewrite of_octets in P by done. split.
  - unfold ParseAddr. rewrite P, B. assert (find (fun x => bool_decide (x ∈ ["."; ":"; "%"]%char)) (d1 ++ "."%char :: d2 ++ "."%char :: d3 ++ "."%char :: d4) = Some "."%char) as ->; [|done].
    assert (forall x, x ∈ d1 -> x ∉ ["."; "/"; ":"; "%"]%char) as C1 by (intros x Hx; apply C; set_solver). clear -C1.
    induction d1 as [|x d1 IH]; cbn; [done|]. rewrite bool_decide_eq_false_2; [apply IH; set_solver|]. specialize (C1 x ltac:(left)). set_solver.
  - rewrite B. intros H. assert ("/"%char ∈ d1 ++ d2 ++ d3 ++ d4) as H' by set_solver. apply (C _ H'). set_solver.
Qed.
Lemma ParseIP_String a : 0 <= a < 2 ^ 32 -> ParseIP (ip4String a) = Some (V4 a).
Proof. intros Ha. apply (ParseAddr_ip4 a Ha). Qed.

Lemma ip4String_inj a b : 0 <= a < 2 ^ 32 -> 0 <= b < 2 ^ 32 -> ip4String a = ip4String b -> a = b.
Proof. intros Ha Hb E. pose proof (ParseIP_String a Ha) as H. rewrite E, ParseIP_String in H by done. by injection H. Qed.

Definition net_wf (n : IPNet) : Prop := 0 < nIP n < 2 ^ 32 /\ 16 <= nOnes n <= 30 /\ nIP n mod 2 ^ (32 - nOnes n) = 0.

Lemma dtoi_ones k : 0 <= k <= 32 -> dtoi (bytes (Itoa k)) = Some k.
Proof.
  assert (forall k, 0 <= k < 33 -> bool_decide (dtoi (bytes (Itoa k)) = Some k) = true) as H by (apply all_between_spec; vm_compute; reflexivity).
  intros Hk. specialize (H k ltac:(lia)). by apply bool_decide_eq_true in H.
Qed.

Lemma ParseCIDR_String n : 0 <= nIP n < 2 ^ 32 -> 0 <= nOnes n <= 32 -> ParseCIDR (netString n) = Some (V4 (nIP n), nOnes n).
Proof.
  intros Ha Ho. destruct (ParseAddr_ip4 _ Ha) as [P N]. unfold ParseCIDR, netString, Index.
  rewrite bytes_app, bytes_app. change (bytes "/") with ["/"%char]. cbn [app]. rewrite (indexb_one "/"%char _ _ N 0). cbn [Nat.add].
  rewrite take_app_length, P. rewrite drop_app_ge by lia. replace (S (length (bytes (ip4String (nIP n)))) - length (bytes (ip4String (nIP n))))%nat with 1%nat by lia.
  rewrite skipn_cons, drop_0, dtoi_ones by done. by destruct (Z.leb_spec (nOnes n) 32); [|lia].
Qed.

Lemma netString_inj n m : net_wf n -> net_wf m -> netString n = netString m -> n = m.
Proof.
  intros (? & ? & _) (? & ? & _) E. pose proof (ParseCIDR_String n ltac:(lia) ltac:(lia)) as HP. rewrite E, ParseCIDR_String in HP by lia.
  destruct n, m; cbn in *. by injection HP as -> ->.
Qed.

(** ** Networks *)
Lemma mask4_wf a ones : 0 <= a < 2 ^ 32 -> 0 <= ones <= 32 -> 0 <= mask4 a ones <= a /\ mask4 a ones mod 2 ^ (32 - ones) = 0 /\ a < mask4 a ones + 2 ^ (32 - ones).
Proof.
  intros Ha Ho. unfold mask4. assert (0 < 2 ^ (32 - ones)) as Hp by (apply Z.pow_pos_nonneg; lia).
  pose proof (Z.mod_pos_bound a _ Hp). pose proof (Z.mod_le a (2 ^ (32 - ones)) ltac:(lia) Hp).
  split; [lia|]. split; [|lia]. rewrite Zminus_mod_idemp_r, Z.sub_diag. by apply Z.mod_0_l; lia.
Qed.

(** A network has the addresses from its own up to the next network's. *)
Lemma Contains_range n x : net_wf n -> 0 <= x < 2 ^ 32 -> NetContains n (V4 x) = true <-> nIP n <= x < nIP n + 2 ^ (32 - nOnes n).
Proof.
  intros (Hn & Ho & Hm) Hx. unfold NetContains. cbn [To4]. rewrite Z.eqb_eq. unfold mask4. rewrite Hm, Z.sub_0_r.
  assert (0 < 2 ^ (32 - nOnes n)) as Hp by (apply Z.pow_pos_nonneg; lia). set (k := 2 ^ (32 - nOnes n)) in *.
  pose proof (Z.div_mod x k ltac:(lia)). pose proof (Z.div_mod (nIP n) k ltac:(lia)). pose proof (Z.mod_pos_bound x k Hp).
  split; [intros; nia|]. intros Hr. assert (x / k = nIP n / k) by nia. nia.
Qed.

Lemma parse4_range l : forall v d fs, 0 <= v < 256 -> Forall (fun f => 0 <= f < 256) fs -> forall r, ip4_loop l v d fs = Some r -> Forall (fun f => 0 <= f < 256) r /\ length r = 4%nat.
Proof.
  induction l as [|a l IH]; cbn; intros v d fs Hv Hf r.
  - destruct (bool_decide (d = 0%nat)); [done|]. case_bool_decide; [|done]. intros [= <-]. rewrite Forall_app, Forall_singleton, length_app, H. done.
  - unfold digit. set (z := byteZ a). destruct ((48 <=? z) && (z <=? 57)) eqn:Ed.
    + rewrite andb_true_iff, !Z.leb_le in Ed. destruct (bool_decide (d = 1%nat) && (v =? 0)); [done|]. destruct (Z.ltb_spec 255 (v * 10 + (z - 48))); [done|].
      apply IH; [lia|done].
    + destruct (negb (Ascii.eqb a "."%char)); [done|]. destruct (bool_decide (d = 0%nat) || bool_decide (length fs = 3%nat)); [done|].
      apply IH; [lia|]. by rewrite Forall_app, Forall_singleton.
Qed.

Lemma parse4_bound l a : parse4 l = Some a -> 0 <= a < 2 ^ 32.
Proof.
  unfold parse4. destruct (ip4_loop l 0 0 []) as [r|] eqn:E; [|done]. intros [= <-].
  destruct (parse4_range l 0 0 [] ltac:(lia) ltac:(constructor) r E) as [Hr Hl]. destruct r as [|a [|b [|c [|d [|]]]]]; try done.
  rewrite !Forall_cons in Hr. cbn. lia.
Qed.

Lemma ParseAddr_bound l a : ParseAddr l = Some (V4 a) -> 0 <= a < 2 ^ 32.
Proof.
  unfold ParseAddr. destruct (find _ l) as [c|]; [|done]. intros H. apply (parse4_bound l).
  destruct (parse4 l) as [b|], (parse6 l) as [b'|]; destruct c as [[] [] [] [] [] [] [] []]; cbn in H; try done; try (by injection H as ->); try (by destruct (bool_decide _)).
Qed.

Lemma dtoi_bound l n : dtoi l = Some n -> 0 <= n.
Proof.
  assert (forall l m, 0 <= m -> dtoi_loop l m = Some n -> 0 <= n) as H.
  { clear l. induction l as [|a l IH]; cbn; intros m Hm; [by intros [= <-]|]. unfold digit. destruct ((48 <=? byteZ a) && (byteZ a <=? 57)) eqn:Ed; [|done].
    rewrite andb_true_iff, !Z.leb_le in Ed. destruct (Z.leb_spec 16777215 (m * 10 + (byteZ a - 48))); [done|]. apply IH. lia. }
  destruct l as [|a l]; [done|]. apply H. done.
Qed.

Lemma parseIPv4Net_wf cidr a n : parseIPv4Net cidr = Ok (a, n) -> net_wf n /\ NetContains n (V4 a) = true.
Proof.
  unfold parseIPv4Net, ParseCIDR. set (s := TrimSpace cidr). destruct (Index s "/") as [i|]; [|done].
  destruct (ParseAddr (take i (bytes s))) as [ad|] eqn:Ea; [|done]. destruct (dtoi _) as [ones|] eqn:Ed; [|done].
  apply dtoi_bound in Ed. destruct ad as [v|v].
  2: { destruct (ones <=? 128); [|done]. by repeat (case_match; try done). }
  apply ParseAddr_bound in Ea. destruct (ones <=? 32); [|done]. destruct ((ones <? 16) || (30 <? ones)) eqn:Eo; [done|].
  rewrite orb_false_iff, !Z.ltb_ge in Eo. cbn [nIP]. destruct (Z.eqb_spec (mask4 v ones) 0); [done|]. intros [= <- <-].
  destruct (mask4_wf v ones Ea ltac:(lia)) as (H1 & H2 & H3).
  assert (net_wf (mkNet (mask4 v ones) ones)) as Hw by (repeat split; cbn; lia). split; [done|]. apply Contains_range; cbn; [done|lia|lia].
Qed.

Lemma net_end n : net_wf n -> nIP n + 2 ^ (32 - nOnes n) <= 2 ^ 32.
Proof.
  intros (Hn & Ho & Hm). assert (0 < 2 ^ (32 - nOnes n)) as Hp by (apply Z.pow_pos_nonneg; lia).
  pose proof (Z.div_mod (nIP n) (2 ^ (32 - nOnes n)) ltac:(lia)) as Hd. rewrite Hm in Hd.
  assert (2 ^ 32 = 2 ^ (32 - nOnes n) * 2 ^ nOnes n) as E by (rewrite <- Z.pow_add_r by lia; f_equal; lia).
  set (k := 2 ^ (32 - nOnes n)) in *. set (d := nIP n / k) in *. set (t := 2 ^ nOnes n) in *. assert (d < t) by nia. nia.
Qed.

Lemma net_size n : net_wf n -> nOnes n = 30 /\ 2 ^ (32 - nOnes n) = 4 \/ nOnes n <> 30 /\ 8 <= 2 ^ (32 - nOnes n).
Proof.
  intros (_ & Ho & _). destruct (decide (nOnes n = 30)) as [->|Hn]; [by left|right]. split; [done|]. change 8 with (2 ^ 3). apply Z.pow_le_mono_r; lia.
Qed.

Lemma gatewayOf_next n : net_wf n -> gatewayOf n = nIP n + 1.
Proof.
  intros (Hn & Ho & Hm). unfold gatewayOf. assert (nIP n mod 4 = 0) as H4.
  { apply Z.mod_divide; [lia|]. apply Z.mod_divide in Hm; [|apply Z.pow_nonzero; lia]. etransitivity; [|exact Hm].
    exists (2 ^ (30 - nOnes n)). change 4 with (2 ^ 2). rewrite <- Z.pow_add_r by lia. f_equal. lia. }
  assert (nIP n mod 256 mod 4 = 0) as H5 by (rewrite <- Znumtheory.Zmod_div_mod; [done|lia|lia|by exists 64]).
  pose proof (Z.mod_pos_bound (nIP n) 256 ltac:(lia)). pose proof (Z.div_mod (nIP n mod 256) 4 ltac:(lia)).
  rewrite (Z.mod_small (nIP n mod 256 + 1)) by lia. lia.
Qed.

Lemma dhcpRange_inside n : net_wf n -> nIP n + 50 < 2 ^ 32 ->
  match dhcpRange n with
  | Ok (s, e) => nIP n + 1 < s /\ s < e /\ e < nIP n + 2 ^ (32 - nOnes n) - 1
  | Err e => e = TooSmall /\ nOnes n = 30
  end.
Proof.
  intros Hw H50. pose proof (net_end n Hw) as He. pose proof (net_size n Hw) as Hs. destruct Hw as (Hn & Ho & Hm).
  unfold dhcpRange, u32. set (k := 2 ^ (32 - nOnes n)) in *. change (2 ^ 32) with 4294967296 in *.
  destruct Hs as [[Ho30 ->]|[Ho30 Hk]]; [done|]. destruct (Z.ltb_spec k 8); [lia|]. rewrite !Z.mod_small by lia.
  destruct (Z.leb_spec (nIP n + k - 6) (nIP n + 50)).
  - destruct (Z.leb_spec (nIP n + k - 2) (nIP n + 2)); lia.
  - destruct (Z.leb_spec (nIP n + k - 6) (nIP n + 50)); lia.
Qed.

(** ** Reservations *)
Definition mac_of (r : Reservation) : option string := macString <$> ParseMAC (TrimSpace (rMAC r)).
Definition ip_of (r : Reservation) : option Z := ParseIP (TrimSpace (rIPv4 r)) ≫= To4.

Lemma check_reservations_spec items n gw : forall macs ips, check_reservations items n gw macs ips = Ok () ->
  NoDup (map ip_of items) /\ NoDup (map mac_of items) /\
  Forall (fun r => exists ip m, ip_of r = Some ip /\ mac_of r = Some m /\ ip4String ip ∉ ips /\ m ∉ macs /\ NetContains n (V4 ip) = true /\ ip <> gw /\ ip <> nIP n) items.
Proof.
  induction items as [|r items IH]; intros macs ips; cbn [check_reservations map]; [intros _; repeat split; constructor|].
  destruct (ParseMAC (TrimSpace (rMAC r))) as [m|] eqn:Em; [|done]. destruct (ParseIP (TrimSpace (rIPv4 r)) ≫= To4) as [ip|] eqn:Ei; [|done].
  assert (ip_of r = Some ip) as Er by done. assert (mac_of r = Some (macString m)) as Fr by (unfold mac_of; by rewrite Em).
  destruct (NetContains n (V4 ip)) eqn:Ec; [|done]. cbn [negb]. destruct ((ip =? gw) || (ip =? nIP n)) eqn:Eg; [done|].
  rewrite orb_false_iff, !Z.eqb_neq in Eg. case_bool_decide as Hm; [done|]. case_bool_decide as Hp; [done|]. intros H.
  destruct (IH _ _ H) as (N1 & N2 & Hall). rewrite Forall_forall in Hall. rewrite !NoDup_cons, Forall_cons, Forall_forall.
  refine (conj (conj _ N1) (conj (conj _ N2) (conj _ _))).
  - rewrite list_elem_of_fmap. intros (r' & E & Hr'). destruct (Hall r' Hr') as (ip' & m' & E1 & _ & Hn & _). rewrite ?Er, ?Fr, E1 in E. injection E as <-. apply Hn. left.
  - rewrite list_elem_of_fmap. intros (r' & E & Hr'). destruct (Hall r' Hr') as (ip' & m' & _ & E1 & _ & Hn & _). rewrite ?Er, ?Fr, E1 in E. injection E as <-. apply Hn. left.
  - exists ip, (macString m). tauto.
  - intros r' Hr'. destruct (Hall r' Hr') as (ip' & m' & E1 & E2 & H1 & H2 & H3). exists ip', m'. split; [done|]. split; [done|]. rewrite !not_elem_of_cons in *. tauto.
Qed.

(** ** The theorems *)
(** Two texts of subnets are the same to the code exactly when they cover the same
    addresses, whatever bits of the host, zeros of the prefix or spaces they are written with. *)
Theorem SameIPv4Net_spec a b :
  SameIPv4Net a b = true <->
  exists x n y m, parseIPv4Net a = Ok (x, n) /\ parseIPv4Net b = Ok (y, m) /\ forall ip, 0 <= ip < 2 ^ 32 -> NetContains n (V4 ip) = NetContains m (V4 ip).
Proof.
  unfold SameIPv4Net. destruct (parseIPv4Net a) as [[x n]|] eqn:Ea; [|naive_solver]. destruct (parseIPv4Net b) as [[y m]|] eqn:Eb; [|naive_solver].
  destruct (parseIPv4Net_wf _ _ _ Ea) as [Hn _], (parseIPv4Net_wf _ _ _ Eb) as [Hm _]. rewrite bool_decide_eq_true. split.
  - intros E. apply netString_inj in E as <-; [|done..]. by exists x, n, y, n.
  - intros (x' & n' & y' & m' & [= <- <-] & [= <- <-] & H). f_equal.
    assert (forall p q, net_wf p -> net_wf q -> (forall ip, 0 <= ip < 2 ^ 32 -> NetContains p (V4 ip) = NetContains q (V4 ip)) ->
      nIP q <= nIP p /\ nIP p + 2 ^ (32 - nOnes p) <= nIP q + 2 ^ (32 - nOnes q)) as Hsub.
    { intros p q Hp Hq Hc. pose proof (net_end p Hp). pose proof (net_end q Hq). assert (0 < 2 ^ (32 - nOnes p)) by (apply Z.pow_pos_nonneg; destruct Hp; lia).
      pose proof Hp as (? & _). assert (0 <= nIP p < 2 ^ 32) as R1 by lia. assert (0 <= nIP p + 2 ^ (32 - nOnes p) - 1 < 2 ^ 32) as R2 by lia.
      pose proof (proj2 (Contains_range p (nIP p) Hp R1) ltac:(lia)) as C1. rewrite Hc, Contains_range in C1 by done.
      pose proof (proj2 (Contains_range p _ Hp R2) ltac:(lia)) as C2. rewrite Hc, Contains_range in C2 by done. lia. }
    destruct (Hsub n m Hn Hm H) as [? ?], (Hsub m n Hm Hn (fun ip Hip => eq_sym (H ip Hip))) as [? ?].
    assert (2 ^ (32 - nOnes n) = 2 ^ (32 - nOnes m)) as Ep by lia. destruct Hn as (_ & ? & _), Hm as (_ & ? & _).
    apply Z.pow_inj_r in Ep; [|lia..]. destruct n, m; cbn in *. f_equal; lia.
Qed.

(** On an isolated subnet, the gateway is the address after the network's, the DHCP
    server's range lies between the gateway and the broadcast address and is not empty, and
    reservations that are accepted are distinct addresses of the subnet, with distinct
    hardware addresses, that are neither the network's nor the gateway's.  Only a subnet
    of four addresses has no range. *)
Theorem subnet_layout cidr a n items :
  parseIPv4Net cidr = Ok (a, n) -> nIP n + 50 < 2 ^ 32 -> validateReservations items n (gatewayOf n) = Ok () ->
  gatewayOf n = nIP n + 1 /\
  (match dhcpRange n with
   | Ok (s, e) => gatewayOf n < s /\ s < e /\ e < nIP n + 2 ^ (32 - nOnes n) - 1
   | Err e => e = TooSmall /\ nOnes n = 30
   end) /\
  NoDup (map ip_of items) /\ NoDup (map mac_of items) /\
  forall r, r ∈ items -> exists ip, ip_of r = Some ip /\ NetContains n (V4 ip) = true /\ ip <> nIP n /\ ip <> gatewayOf n.
Proof.
  intros Hp H50 Hv. destruct (parseIPv4Net_wf _ _ _ Hp) as [Hw _]. pose proof (gatewayOf_next n Hw) as Hg. split; [done|].
  pose proof (dhcpRange_inside n Hw H50) as Hd. rewrite <- Hg in Hd. split; [done|].
  destruct (check_reservations_spec _ _ _ _ _ Hv) as (N1 & N2 & Hall). split; [done|]. split; [done|].
  intros r Hr. destruct (proj1 (Forall_forall _ _) Hall r Hr) as (ip & m & E & _ & _ & _ & Hc & ? & ?). by exists ip.
Qed.

Definition demo_items : list Reservation := [mkReservation "52:54:00:00:00:01" "10.64.0.9" "web"; mkReservation "52:54:00:00:00:02" "10.64.0.255" ""].
Lemma subnet_layout_witness : exists s e, dhcpRange (mkNet 171966464 24) = Ok (s, e) /\ 171966465 < s /\ s < e.
Proof.
  destruct (subnet_layout "10.64.0.0/24" 171966464 (mkNet 171966464 24) demo_items) as (Hg & Hd & _); [vm_compute; reflexivity|cbn; lia|vm_compute; reflexivity|].
  exists 171966514, 171966714. split; [vm_compute; reflexivity|]. split; lia.
Defined.

(** The broadcast address can be reserved. *)
Example broadcast_reserved : ValidateReservations [mkReservation "52:54:00:00:00:02" "10.64.0.255" ""] "10.64.0.0/24" = Ok ().
Proof. vm_compute. reflexivity. Qed.
(** At the end of the address space the range wraps, and starts outside the subnet. *)
Example range_wraps : dhcpRange (mkNet (2 ^ 32 - 16) 28) = Ok (34, 2 ^ 32 - 6).
Proof. vm_compute. reflexivity. Qed.

(** Runs of the definitions. *)
Example ParseIP_ex : map ParseIP ["10.64.0.9"; "10.64.0.256"; "01.2.3.4"; "1.2.3"; "::"; "::1"; "fe80::1%eth0"; "2001:db8::ff00:42"; "::ffff:1.2.3.4"; "1:2:3:4:5:6:7:8:9"; "1::2::3"]%string
  = [Some (V4 171966473); None; None; None; Some (V6 0); Some (V6 1); None; Some (V6 42540766411282592856903984955932016706);
     Some (V6 281470698652420); None; None].
Proof. vm_compute. reflexivity. Qed.
Example net_ex : parseIPv4Net " 10.64.3.9/22" = Ok (171967241, mkNet 171966464 22) /\ dhcpRange (mkNet 171966464 22) = Ok (171966514, 171967482).
Proof. vm_compute. done. Qed.
Example mac_ex : map normalizeMAC ["52:54:00:AB:cd:01 "; "01:00:5e:00:00:01"; "5254.00ab.cd01"; "00:00:00:00:00:00"]%string
  = ["52:54:00:ab:cd:01"; ""; "52:54:00:ab:cd:01"; ""]%string.
Proof. vm_compute. reflexivity. Qed.
