(* ===== verification/Net.v ===== *)
(** * Networks of a host ([src/internal/ndnet])

    What the agent sees of a host's interfaces, which changes touch the path it is managed
    by, whether that path still answers, and the plan of a network: the files its services
    are configured by ([danger.go], [hostview.go], [names.go], [plan.go], [dnsmasq.go],
    [nft.go]).  Names of interfaces are compared without regard to case, as
    [strings.EqualFold] does. *)
From S2P Require Export Ip.

Record Iface := mkIface {
  ifName : string; ifIndex : Z; ifAddresses : list string; ifHardwareAddr : string; ifKind : string; ifMaster : string; ifUp : bool }.
Record HostView := mkHost {
  Ifaces : list Iface; DefaultRouteIf : string; DefaultGateway : string; Nameservers : list string;
  ManagementIfIndex : Z; ManagementIfName : string; ManagementAddresses : list string }.
(** The view a failed reading leaves. *)
Definition no_host : HostView := mkHost [] "" "" [] 0 "" [].

Definition KindIsolated : string := "isolated".
Definition KindIsolatedNAT : string := "isolated-nat".
Definition KindLANBridge : string := "lan-bridge".
Inductive Danger := DangerSafe | DangerWarning | DangerDangerous.
#[export] Instance Danger_eq_dec : EqDecision Danger.
Proof. solve_decision. Defined.
Record Classification := mkClass {
  cDanger : Danger; cReason : string; cRequiresConfirm : bool; cTypedIfName : string; cManagementIfName : string; cManagementIndex : Z; cSingleNIC : bool }.
Record Spec := mkSpec {
  sNetworkID : string; sName : string; sKind : string; sIPv4CIDR : string; sUplinkIfName : string; sConfirmIfName : string; sReservations : list Reservation }.
Record Plan := mkPlan {
  plNetworkID : string; plName : string; plKind : string; plBridgeName : string; plUplinkIfName : string; plEgressIfName : string;
  plIPv4CIDR : string; plGateway : string; plDHCPStart : string; plDHCPEnd : string; plNAT : bool;
  plFiles : list (string * string); plDnsmasq : string; plNFT : string; plClass : Classification;
  plManagementIfIndex : Z; plManagementIfName : string; plWarnings : list string }.

Definition ValidKind (kind : string) : bool := bool_decide (kind ∈ [KindIsolated; KindIsolatedNAT; KindLANBridge]).
Definition Isolated (kind : string) : bool := bool_decide (kind = KindIsolated) || bool_decide (kind = KindIsolatedNAT).
Definition if_char (first : bool) (a : ascii) : bool :=
  let z := byteZ a in
  ((97 <=? z) && (z <=? 122)) || ((65 <=? z) && (z <=? 90)) || ((48 <=? z) && (z <=? 57)) || (((z =? 45) || (z =? 95) || (z =? 46)) && negb first).
Definition ValidIfName (name : string) : bool :=
  match bytes name with
  | [] => false
  | a :: l => bool_decide (length (a :: l) <= 15)%nat && if_char true a && forallb (if_char false) l
  end.
Definition isLoopback (name : string) : bool := bool_decide (name = "lo"%string) || HasPrefix name "lo:".
Definition containsAny (have want : list string) : bool := existsb (fun w => bool_decide (stripCIDR w ∈ map stripCIDR have)) want.

Section Net.
Context `{CaseTables}.

Definition sameIface (a b : string) : bool := bool_decide (a <> ""%string) && EqualFold a b.
Definition lookup_if (host : HostView) (name : string) : option Iface := find (fun i => sameIface (ifName i) name) (Ifaces host).
Definition managementName (host : HostView) : string := if decide (ManagementIfName host <> ""%string) then ManagementIfName host else DefaultRouteIf host.
Definition matchesManagementIndex (host : HostView) (name : string) : bool :=
  if ManagementIfIndex host <=? 0 then false
  else match lookup_if host name with Some i => bool_decide (ifIndex i = ManagementIfIndex host) | None => false end.

Definition virtualKinds : list string := ["bridge"; "veth"; "tun"; "tap"; "bond"; "vlan"; "dummy"]%string.
Definition isPhysical (i : Iface) : bool :=
  let name := ToLower (ifName i) in
  negb (isLoopback name) && negb (bool_decide (ToLower (ifKind i) ∈ virtualKinds)) &&
  negb (HasPrefix name "ndl" || HasPrefix name "veth" || HasPrefix name "tap" || HasPrefix name "br-").
Definition physicalCount (host : HostView) : nat := length (filter (fun i => Is_true (isPhysical i)) (Ifaces host)).

Definition Classify (spec : Spec) (host : HostView) : Classification :=
  let single := bool_decide (physicalCount host <= 1)%nat in
  let mgmt := if bool_decide (ManagementIfName host = ""%string) && bool_decide (DefaultRouteIf host <> ""%string) then DefaultRouteIf host else ManagementIfName host in
  let out danger reason confirm typed := mkClass danger reason confirm typed mgmt (ManagementIfIndex host) single in
  if Isolated (sKind spec) then out DangerSafe "isolated networks do not enslave a host NIC"%string false ""%string
  else if bool_decide (sKind spec <> KindLANBridge) then out DangerDangerous "unknown network kind"%string true ""%string
  else
    let uplink := TrimSpace (sUplinkIfName spec) in
    if bool_decide (uplink = ""%string) then out DangerDangerous "LAN-bridge requires an uplink interface name"%string true uplink
    else if negb (ValidIfName uplink) then out DangerDangerous "uplink interface name is not valid"%string true uplink
    else if isLoopback uplink then out DangerDangerous "loopback cannot be enslaved"%string true uplink
    else if sameIface uplink (managementName host) || sameIface uplink (DefaultRouteIf host) || matchesManagementIndex host uplink
    then out DangerDangerous ("enslaving " +:+ uplink +:+ " would move the management NIC onto a bridge") true uplink
    else if single then out DangerDangerous "single-NIC host: LAN-bridge enslaves the only physical interface"%string true uplink
    else if match lookup_if host uplink with Some i => containsAny (ifAddresses i) (ManagementAddresses host) | None => false end
    then out DangerDangerous ("enslaving " +:+ uplink +:+ " would move a management address") true uplink
    else out DangerWarning ("LAN-bridge enslaves " +:+ uplink +:+ "; guests share that L2 domain and No-dal will not run DHCP there") false uplink.

(** Whether the management path still has addresses. *)
Definition addressed (i : option Iface) : bool := match i with Some i => bool_decide (ifAddresses i <> []) | None => false end.
Definition ProbeManagement (host : HostView) (name : string) (ifindex : Z) (addrs : list string) : bool :=
  (bool_decide (addrs <> []) && existsb (fun i => containsAny (ifAddresses i) addrs) (Ifaces host)) ||
  (bool_decide (DefaultRouteIf host <> ""%string) && addressed (lookup_if host (DefaultRouteIf host))) ||
  (bool_decide (name <> ""%string) && addressed (lookup_if host name)) ||
  ((0 <? ifindex) && existsb (fun i => bool_decide (ifIndex i = ifindex) && bool_decide (ifAddresses i <> [])) (Ifaces host)) ||
  (bool_decide (name = ""%string) && (ifindex <=? 0) && bool_decide (addrs = [])).

Definition touchesManagement (host : HostView) (names : list string) : bool :=
  existsb (fun name => bool_decide (name <> ""%string) &&
    (sameIface name (managementName host) || sameIface name (DefaultRouteIf host) || matchesManagementIndex host name ||
     match lookup_if host name with Some i => containsAny (ifAddresses i) (ManagementAddresses host) | None => false end)) names.

(** ** The plan of a network *)
Definition newline : ascii := chr 10.
Definition lines (l : list string) : string := foldr (fun s acc => s +:+ String newline acc) "" l.
Definition persistName (id suffix : string) : string := "50-ndl-" +:+ ToLower id +:+ suffix.

(** [uuid.Parse] gives the canonical text of an identifier. *)
Context (parse_uuid : string -> option string).
Definition BridgeName (networkID : string) : option string :=
  (fun id => "ndl" +:+ ofBytes (take 8 (filter (fun a => a <> "-"%char) (bytes id)))) <$> parse_uuid (TrimSpace networkID).

(** *** Bridges to the LAN *)
Definition lanBridgeMAC (host : HostView) (uplink : string) : string :=
  match lookup_if host uplink with Some i => normalizeMAC (ifHardwareAddr i) | None => "" end.
Definition lanBridgeCarriesDefaultRoute (host : HostView) (bridge uplink : string) : bool :=
  sameIface (DefaultRouteIf host) uplink || sameIface (DefaultRouteIf host) bridge.
Definition addresses_of (host : HostView) (name : string) : list string := match lookup_if host name with Some i => ipv4CIDRs (ifAddresses i) | None => [] end.
Definition lanBridgeHostIP (host : HostView) (bridge uplink : string) : list string * string * list string :=
  let addrs := match addresses_of host uplink with [] => addresses_of host bridge | l => l end in
  if lanBridgeCarriesDefaultRoute host bridge uplink then
    (match ipv4CIDRs (ManagementAddresses host) with [] => addrs | l => l end, TrimSpace (DefaultGateway host), Nameservers host)
  else (addrs, ""%string, []).
Definition non_empty (key v : string) : list string := if decide (v = ""%string) then [] else [key +:+ v].
Definition lanBridgeFiles (id bridge uplink : string) (host : HostView) : list (string * string) :=
  let '(addrs, gw, dns) := lanBridgeHostIP host bridge uplink in
  let addressing := match addrs with
    | [] => ["DHCP=yes"; "KeepConfiguration=yes"; ""; "[DHCP]"; "ClientIdentifier=mac"]%string
    | _ => ["DHCP=no"; "KeepConfiguration=static"]%string ++ map (fun a => "Address=" +:+ a) addrs ++ non_empty "Gateway=" gw ++ map (fun a => "DNS=" +:+ a) dns
    end in
  [(persistName id ".netdev", lines (["[NetDev]"; "Name=" +:+ bridge; "Kind=bridge"] ++ non_empty "MACAddress=" (lanBridgeMAC host uplink)));
   (persistName id ".network", lines (["[Match]"; "Name=" +:+ bridge; ""; "[Network]"] ++ addressing));
   (persistName id "-uplink.network", lines ["[Match]"; "Name=" +:+ uplink; ""; "[Network]"; "Bridge=" +:+ bridge])]%string.

(** *** Isolated networks *)
Definition isolatedFiles (id bridge : string) (gw : Z) (n : IPNet) (nat : bool) : list (string * string) :=
  [(persistName id ".netdev", lines ["[NetDev]"; "Name=" +:+ bridge; "Kind=bridge"]);
   (persistName id ".network", lines (["[Match]"; "Name=" +:+ bridge; ""; "[Link]"; "RequiredForOnline=no"; "ActivationPolicy=always-up"; "";
      "[Network]"; "Address=" +:+ ip4String gw +:+ "/" +:+ Itoa (nOnes n); "DHCP=no"; "LinkLocalAddressing=no"; "ConfigureWithoutCarrier=yes"; "IgnoreCarrierLoss=yes"] ++
      (if nat then ["IPForward=yes"; "IPv4Forwarding=yes"] else [])))]%string.

Definition host_char (a : ascii) : bool := let z := byteZ a in ((97 <=? z) && (z <=? 122)) || ((48 <=? z) && (z <=? 57)).
Fixpoint trim_dashes (l : list ascii) : list ascii := match l with "-"%char :: l => trim_dashes l | _ => l end.
Definition sanitizeHostname (name : string) : string :=
  match bytes (ToLower (TrimSpace name)) with
  | [] => ""
  | a :: l =>
      let kept := (if host_char a then [a] else []) ++ filter (fun a => Is_true (host_char a || Ascii.eqb a "-"%char)) l in
      ofBytes (take 63 (rev (trim_dashes (rev (trim_dashes kept)))))
  end.
Definition host_line (item : Reservation) : list string :=
  match ParseMAC (TrimSpace (rMAC item)), ParseIP (TrimSpace (rIPv4 item)) with
  | Some mac, Some ip =>
      let h := sanitizeHostname (rHostname item) in
      ["dhcp-host=" +:+ macString mac +:+ "," +:+ match To4 ip with Some a => ip4String a | None => "<nil>" end +:+ (if decide (h = ""%string) then "" else "," +:+ h)]%string
  | _, _ => []
  end.
Definition dnsmasq_lines (bridge : string) (gw start stop : Z) (reservations : list Reservation) : list string :=
  ["# Generated by No-dal. Isolated bridge only."; "bind-interfaces"; "except-interface=lo"; "interface=" +:+ bridge; "listen-address=" +:+ ip4String gw;
   "no-dhcp-interface=lo"; "dhcp-range=" +:+ ip4String start +:+ "," +:+ ip4String stop +:+ ",12h"; "dhcp-option=option:router," +:+ ip4String gw;
   "dhcp-option=option:dns-server," +:+ ip4String gw; "domain-needed"; "bogus-priv"]%string ++ concat (map host_line reservations).
Definition renderDnsmasq (bridge : string) (gw start stop : Z) (reservations : list Reservation) : string := lines (dnsmasq_lines bridge gw start stop reservations).

Definition quote : ascii := chr 34.
Definition quoteNFT (name : string) : string := ofBytes (quote :: filter (fun a => a <> quote) (bytes name) ++ [quote]).
Definition NATTableName (bridge : string) : string :=
  let hex := TrimPrefix bridge "ndl" in
  "ndl_nat_" +:+ (if bool_decide (hex = ""%string) || bool_decide (hex = bridge) then "net" else hex).
Definition renderNFT (nat : bool) (cidr bridge egress : string) : string :=
  if negb nat || bool_decide (cidr = ""%string) || bool_decide (bridge = ""%string) || bool_decide (egress = ""%string) then ""
  else
    let table := NATTableName bridge in
    let br := quoteNFT bridge in
    let oif := quoteNFT egress in
    lines ["destroy table inet " +:+ table; "table inet " +:+ table +:+ " {"; "  chain forward {";
      "    type filter hook forward priority -10; policy accept;";
      "    iifname " +:+ br +:+ " oifname " +:+ oif +:+ " ip saddr " +:+ cidr +:+ " accept";
      "    iifname " +:+ oif +:+ " oifname " +:+ br +:+ " ip daddr " +:+ cidr +:+ " ct state established,related accept";
      "  }"; "  chain postrouting {"; "    type nat hook postrouting priority srcnat; policy accept;";
      "    ip saddr " +:+ cidr +:+ " oifname " +:+ oif +:+ " masquerade"; "  }"; "}"]%string.

Inductive plan_error :=
  | PlanNet (e : net_error) | UnsupportedKind | NotUUID | OverlapsManagement | NoEgress | EgressIsBridge | EgressIsLoopback | NoUplink | UplinkIsBridge.
Definition of_net {A} (r : result net_error A) : result plan_error A := match r with Ok a => Ok a | Err e => Err (PlanNet e) end.

Definition isolated_egress (host : HostView) (bridge : string) : result plan_error string :=
  let egress := TrimSpace (DefaultRouteIf host) in
  if negb (ValidIfName egress) then Err NoEgress
  else if sameIface egress bridge then Err EgressIsBridge
  else if isLoopback egress then Err EgressIsLoopback
  else Ok egress.
Definition BuildPlan (spec : Spec) (host : HostView) : result plan_error Plan :=
  if negb (ValidKind (sKind spec)) then Err UnsupportedKind
  else
    let id := TrimSpace (sNetworkID spec) in
    match BridgeName id with
    | None => Err NotUUID
    | Some bridge =>
        let class := Classify spec host in
        let uplink := TrimSpace (sUplinkIfName spec) in
        let plan egress cidr gw start stop nat files dnsmasq nft warnings :=
          mkPlan id (TrimSpace (sName spec)) (sKind spec) bridge uplink egress cidr gw start stop nat files dnsmasq nft class
                 (ManagementIfIndex host) (managementName host) warnings in
        if Isolated (sKind spec) then
          let cidr := TrimSpace (sIPv4CIDR spec) in
          '(_, n) ← of_net (parseIPv4Net (if decide (cidr = ""%string) then DefaultIPv4 else cidr));
          if overlaps n (ManagementAddresses host) then Err OverlapsManagement
          else
            let gw := gatewayOf n in
            '(start, stop) ← of_net (dhcpRange n);
            let nat := bool_decide (sKind spec = KindIsolatedNAT) in
            egress ← (if nat then isolated_egress host bridge else Ok ""%string);
            _ ← of_net (ValidateReservations (sReservations spec) (sIPv4CIDR spec));
            Ok (plan egress (netString n) (ip4String gw) (ip4String start) (ip4String stop) nat (isolatedFiles id bridge gw n nat)
                  (renderDnsmasq bridge gw start stop (sReservations spec)) (renderNFT nat (netString n) bridge egress) [])
        else if negb (ValidIfName uplink) then Err NoUplink
        else if bool_decide (uplink = bridge) then Err UplinkIsBridge
        else
          let gw := TrimSpace (DefaultGateway host) in
          Ok (plan ""%string ""%string (if bool_decide (gw <> ""%string) && lanBridgeCarriesDefaultRoute host bridge uplink then gw else ""%string) ""%string ""%string
                false (lanBridgeFiles id bridge uplink host) ""%string ""%string
                (cReason class :: if bool_decide (cDanger class = DangerDangerous) then ["typed interface confirmation and the rollback watchdog are required"]%string else []))
    end.
End Net.
