(* ===== verification/NetApply.v ===== *)
(** * Changing the network of a host ([src/internal/ndnet/engine.go], [rollback.go])

    A bridge to the LAN can take the interface a host is managed by.  Before such a change
    the agent copies the network's files, arms a rollback and starts a watchdog, which puts
    the files back when the management path stops answering.

    A program is a sequence of calls to the host.  Any of them may fail, the process may
    end before any of them, and a file that is being written then holds anything.  Other
    processes may change the files between two calls.  Commands answer or fail; what they
    do to interfaces is seen in the next [HostView]. *)
From S2P Require Export Net.

(** ** The host's files *)
Record ActiveRollback := mkActive {
  aID : string; aDeadline : Z; aManagementIfIndex : Z; aManagementIfName : string; aManagementAddresses : list string; aSnapshotDir : string; aTargetDir : string }.
(** A copy of the network's files, and of other managers' files with the list of them. *)
Record snapshot := mkSnap { s_files : gmap string string; s_host : gmap string string; s_manifest : list (string * string) }.
Definition no_snap : snapshot := mkSnap ∅ ∅ [].

Record disk := mkDisk {
  net : gmap string string;          (** systemd-networkd's directory *)
  etc : gmap string string;          (** plain files below /etc *)
  nm_dir : bool;                     (** /etc/NetworkManager is there *)
  resolv_backup : option string;
  snaps : gmap string snapshot;      (** directories below rollback, by path *)
  active : option (option ActiveRollback);   (** active.json, readable or not *)
  okfile : bool;                     (** active.ok *)
  dnsmasq : gmap string string;      (** configurations of DHCP servers *)
  nft : gmap string string;          (** rules of isolated networks *)
  origin : option string;            (** forwarding.origin *)
  sysctl : bool;                     (** the drop-in that turns forwarding on *)
  forwarding : string }.             (** ip_forward *)

Definition set_net (v : gmap string string) (d : disk) : disk := mkDisk v (etc d) (nm_dir d) (resolv_backup d) (snaps d) (active d) (okfile d) (dnsmasq d) (nft d) (origin d) (sysctl d) (forwarding d).
Definition set_etc (v : gmap string string) (d : disk) : disk := mkDisk (net d) v (nm_dir d) (resolv_backup d) (snaps d) (active d) (okfile d) (dnsmasq d) (nft d) (origin d) (sysctl d) (forwarding d).
Definition set_resolv_backup (v : option string) (d : disk) : disk := mkDisk (net d) (etc d) (nm_dir d) v (snaps d) (active d) (okfile d) (dnsmasq d) (nft d) (origin d) (sysctl d) (forwarding d).
Definition set_snaps (v : gmap string snapshot) (d : disk) : disk := mkDisk (net d) (etc d) (nm_dir d) (resolv_backup d) v (active d) (okfile d) (dnsmasq d) (nft d) (origin d) (sysctl d) (forwarding d).
Definition set_active (v : option (option ActiveRollback)) (d : disk) : disk := mkDisk (net d) (etc d) (nm_dir d) (resolv_backup d) (snaps d) v (okfile d) (dnsmasq d) (nft d) (origin d) (sysctl d) (forwarding d).
Definition set_okfile (v : bool) (d : disk) : disk := mkDisk (net d) (etc d) (nm_dir d) (resolv_backup d) (snaps d) (active d) v (dnsmasq d) (nft d) (origin d) (sysctl d) (forwarding d).
Definition set_dnsmasq (v : gmap string string) (d : disk) : disk := mkDisk (net d) (etc d) (nm_dir d) (resolv_backup d) (snaps d) (active d) (okfile d) v (nft d) (origin d) (sysctl d) (forwarding d).
Definition set_nft (v : gmap string string) (d : disk) : disk := mkDisk (net d) (etc d) (nm_dir d) (resolv_backup d) (snaps d) (active d) (okfile d) (dnsmasq d) v (origin d) (sysctl d) (forwarding d).
Definition set_origin (v : option string) (d : disk) : disk := mkDisk (net d) (etc d) (nm_dir d) (resolv_backup d) (snaps d) (active d) (okfile d) (dnsmasq d) (nft d) v (sysctl d) (forwarding d).
Definition set_sysctl (v : bool) (d : disk) : disk := mkDisk (net d) (etc d) (nm_dir d) (resolv_backup d) (snaps d) (active d) (okfile d) (dnsmasq d) (nft d) (origin d) v (forwarding d).
Definition set_forwarding (v : string) (d : disk) : disk := mkDisk (net d) (etc d) (nm_dir d) (resolv_backup d) (snaps d) (active d) (okfile d) (dnsmasq d) (nft d) (origin d) (sysctl d) v.

(** ** Programs *)
Record outside := mkOutside {
  stops : nat -> bool;                  (** the process ends before its n-th call *)
  io_ok : nat -> bool;
  remove_ok : nat -> bool;
  partial : nat -> option string;       (** what a write that fails or is cut leaves *)
  run_ok : nat -> bool;
  host_at : nat -> option HostView;
  pid_at : nat -> bool;                 (** dhcpcd holds the interface *)
  ready_at : nat -> bool;               (** an isolated bridge gets its address in time *)
  clock : nat -> Z;
  others : nat -> disk -> disk }.       (** what other processes do before the call *)

Inductive apply_error := Text (s : string) | PlanError (e : plan_error) | ProbeFailed.
Inductive outcome (A : Type) := Done (a : A) | Failed (e : apply_error) | Stopped.
Arguments Done {A} _.
Arguments Failed {A} _.
Arguments Stopped {A}.

Definition M (A : Type) : Type := outside -> disk * nat -> outcome A * (disk * nat).
#[export] Instance M_ret : MRet M := fun A a o s => (Done a, s).
#[export] Instance M_bind : MBind M := fun A B f m o s =>
  match m o s with (Done a, s) => f a o s | (Failed e, s) => (Failed e, s) | (Stopped, s) => (Stopped, s) end.
Definition fail {A} (e : apply_error) : M A := fun o s => (Failed e, s).
(** The error is looked at, or not. *)
Definition attempt {A} (m : M A) : M (option A) := fun o s =>
  match m o s with (Done a, s) => (Done (Some a), s) | (Failed _, s) => (Done None, s) | (Stopped, s) => (Stopped, s) end.
Definition ignore {A} (m : M A) : M unit := attempt m ≫= fun _ => mret ().
(** After an error, [m] and the error again. *)
Definition on_failure {A} (m : M unit) (p : M A) : M A := fun o s =>
  match p o s with
  | (Failed e, s) => match m o s with (Stopped, s) => (Stopped, s) | (_, s) => (Failed e, s) end
  | r => r
  end.

(** A call: others first, then the call unless the process ends. *)
Definition call {A} (f : outside -> nat -> disk -> outcome A * disk) : M A := fun o '(d, n) =>
  let d := others o n d in
  if stops o n then (Stopped, (d, S n)) else let '(r, d) := f o n d in (r, (d, S n)).
Definition io_error {A} : outcome A := Failed (Text "io").
(** Writing a file that [put] stores. *)
Definition write_file (put : string -> disk -> disk) (body : string) : M unit := fun o '(d, n) =>
  let d := others o n d in
  let cut := match partial o n with Some s => put s d | None => d end in
  if stops o n then (Stopped, (cut, S n)) else if io_ok o n then (Done (), (put body d, S n)) else (io_error, (cut, S n)).
Definition change (f : disk -> disk) : M unit := call (fun o n d => if io_ok o n then (Done (), f d) else (io_error, d)).
Definition remove (f : disk -> disk) : M unit := call (fun o n d => if remove_ok o n then (Done (), f d) else (io_error, d)).
Definition look {A} (f : disk -> A) : M A := call (fun o n d => (Done (f d), d)).
Definition read_may_fail {A} (f : disk -> A) : M A := call (fun o n d => if io_ok o n then (Done (f d), d) else (io_error, d)).
Definition run : M unit := call (fun o n d => if run_ok o n then (Done (), d) else (Failed (Text "command"), d)).
Definition host : M HostView := call (fun o n d => match host_at o n with Some h => (Done h, d) | None => (Failed (Text "host"), d) end).
Definition time_now : M Z := call (fun o n d => (Done (clock o n), d)).
Definition waitIsolatedReady : M unit := call (fun o n d => if ready_at o n then (Done (), d) else (Failed (Text "not ready"), d)).
Definition dhcpcdPIDPresent : M bool := call (fun o n d => (Done (pid_at o n), d)).

Fixpoint each {A} (f : A -> M unit) (l : list A) : M unit := match l with [] => mret () | a :: l => f a ≫= fun _ => each f l end.

(** ** The network's files *)
(** The entries of a directory, in the order of their names. *)
Definition entries (m : gmap string string) : list (string * string) := omap (fun n => (fun b => (n, b)) <$> m !! n) (sortStrings (map fst (map_to_list m))).
Definition lower_byte (a : ascii) : Z := let z := byteZ a in if (65 <=? z) && (z <=? 90) then z + 32 else z.
Definition equalFoldASCII (a b : string) : bool := bool_decide (map lower_byte (bytes a) = map lower_byte (bytes b)).
Definition stringsHasPrefixFold (name prefix : string) : bool :=
  bool_decide (length (bytes prefix) <= length (bytes name))%nat && equalFoldASCII (ofBytes (take (length (bytes prefix)) (bytes name))) prefix.
Definition ownedPersistName (name : string) : bool := stringsHasPrefixFold name "50-ndl-".

Section NetApply.
Context `{CaseTables} (parse_uuid : string -> option string).

Definition put_net (name body : string) (d : disk) : disk := set_net (<[name := body]> (net d)) d.
Definition WriteNet (name body : string) : M unit := write_file (put_net name) body.
Definition RemoveNet (name : string) : M unit := remove (fun d => set_net (delete name (net d)) d).
Definition put_etc (rel body : string) (d : disk) : disk := set_etc (<[rel := body]> (etc d)) d.
Definition WriteEtc (rel body : string) : M unit := write_file (put_etc rel) body.

(** *** What a file of systemd-networkd says *)
Fixpoint section_value (sect key : string) (inside : bool) (lines : list string) : string :=
  match lines with
  | [] => ""
  | line :: lines =>
      let trim := TrimSpace line in
      if decide (trim = ""%string) then section_value sect key inside lines
      else if HasPrefix trim "#" then section_value sect key inside lines
      else if HasPrefix trim "[" then section_value sect key (EqualFold trim sect) lines
      else if negb inside then section_value sect key inside lines
      else
        match Index trim "=" with
        | Some i =>
            if EqualFold (TrimSpace (ofBytes (take i (bytes trim)))) key then TrimSpace (ofBytes (drop (S i) (bytes trim)))
            else section_value sect key inside lines
        | None => section_value sect key inside lines
        end
  end.
Definition networkdMatchName (body : string) : string := section_value "[Match]" "Name" false (Split body newline).

(** *** Other managers of the interface *)
Definition second (l : list string) (f : string -> list string -> bool) : bool := match l with a :: b :: l => f a (b :: l) | _ => false end.
Definition isIfupdownStanzaStart (trim : string) : bool := second (Fields trim) (fun a _ => bool_decide (a = "iface"%string)).
Definition ifupdownControlLine (trim : string) : bool := second (Fields trim) (fun a _ => bool_decide (a ∈ ["auto"; "allow-hotplug"; "allow-auto"]%string)).
Definition ifupdownStanzaMatches (trim iface : string) : bool :=
  second (Fields trim) (fun a l => bool_decide (a = "iface"%string) && match l with b :: _ => sameIface b iface | [] => false end).
Definition ifupdownControlMatches (trim iface : string) : bool :=
  ifupdownControlLine trim && second (Fields trim) (fun _ l => existsb (fun name => sameIface name iface) l).
Definition ifupdownMentions (content iface : string) : bool :=
  let iface := TrimSpace iface in
  existsb (fun line => let trim := TrimSpace line in negb (HasPrefix trim "#") && (ifupdownControlMatches trim iface || ifupdownStanzaMatches trim iface)) (Split content newline).

Definition ifupdownMigratePrefix : string := "# ndl-migrated: ".
(** The loop over the lines: the lines after it, and whether one changed. *)
Fixpoint disable_lines (iface : string) (inStanza : bool) (lines : list string) : list string * bool :=
  match lines with
  | [] => ([], false)
  | line :: lines =>
      let raw := TrimSpace line in
      let keep inStanza := let '(out, changed) := disable_lines iface inStanza lines in (line :: out, changed) in
      let comment inStanza := let '(out, _) := disable_lines iface inStanza lines in ((ifupdownMigratePrefix +:+ line) :: out, true) in
      if decide (raw = ""%string) then keep false
      else if HasPrefix raw ifupdownMigratePrefix || HasPrefix raw "#" then keep inStanza
      else if isIfupdownStanzaStart raw then let inStanza := ifupdownStanzaMatches raw iface in if inStanza || ifupdownControlMatches raw iface then comment inStanza else keep inStanza
      else if ifupdownControlLine raw then if ifupdownControlMatches raw iface then comment false else keep false
      else if inStanza then comment inStanza else keep inStanza
  end.
Fixpoint join_lines (l : list string) : string := match l with [] => "" | [s] => s | s :: l => s +:+ String newline "" +:+ join_lines l end.
Definition disableIfupdownIface (content iface : string) : string * bool :=
  let iface := TrimSpace iface in
  if negb (ValidIfName iface) then (content, false)
  else let '(lines, changed) := disable_lines iface false (Split content newline) in if changed then (join_lines lines, true) else (content, false).

Definition dhcpcdDenies (content iface : string) : bool :=
  existsb (fun line => let trim := TrimSpace line in
    negb (HasPrefix trim "#") && second (Fields trim) (fun a l => EqualFold a "denyinterfaces" && existsb (fun name => sameIface name iface) l)) (Split content newline).
Definition dhcpcdDenyIface (content iface : string) : string :=
  if dhcpcdDenies content iface then content
  else (if bool_decide (content <> ""%string) && negb (HasSuffix content (String newline "")) then content +:+ String newline "" else content)
       +:+ "denyinterfaces " +:+ iface +:+ String newline "".
Definition nmUnmanagedName (iface : string) : string := "50-ndl-unmanaged-" +:+ ToLower iface +:+ ".conf".
Definition resolvHasNameserver (content : string) : bool :=
  existsb (fun line => second (Fields (TrimSpace line)) (fun a _ => bool_decide (a = "nameserver"%string))) (Split content newline).

Inductive action := DisableStanza | ReleaseLease | Unmanage | Conflict.
#[export] Instance action_eq_dec : EqDecision action.
Proof. solve_decision. Defined.
Record HostManagerConflict := mkManager { mManager : string; mPath : string; mAction : action }.

Definition inspectIfupdown (d : disk) (uplink : string) : list HostManagerConflict :=
  let mentions rel := match etc d !! rel with Some b => ifupdownMentions b uplink | None => false end in
  map (fun rel => mkManager "ifupdown" rel DisableStanza)
    ((if mentions "network/interfaces"%string then ["network/interfaces"%string] else []) ++
     filter (fun rel => Is_true (HasPrefix rel "network/interfaces.d/" && mentions rel)) (map fst (entries (etc d)))).
Definition inspectDhcpcd (d : disk) (pid : bool) (uplink : string) : list HostManagerConflict :=
  let conf := etc d !! "dhcpcd.conf"%string in
  let denied := match conf with Some b => dhcpcdDenies b uplink | None => false end in
  if negb (bool_decide (is_Some conf)) && negb pid then []
  else if denied && negb pid then []
  else [mkManager "dhcpcd" "dhcpcd.conf" ReleaseLease].
Definition nm_path (uplink : string) : string := "NetworkManager/conf.d/" +:+ nmUnmanagedName uplink.
Definition inspectNetworkManager (d : disk) (uplink : string) : list HostManagerConflict :=
  if bool_decide (is_Some (etc d !! nm_path uplink)) then []
  else if negb (nm_dir d) then []
  else [mkManager "NetworkManager" (nm_path uplink) Unmanage].
Definition adminNetworkdConflicts (d : disk) (uplink : string) : list HostManagerConflict :=
  let uplink := TrimSpace uplink in
  map (fun f => mkManager "systemd-networkd" f.1 Conflict)
    (filter (fun f => Is_true (negb (ownedPersistName f.1) && HasSuffix (ToLower f.1) ".network" && sameIface (networkdMatchName f.2) uplink)) (entries (net d))).
Definition InspectHostManagers (uplink : string) : M (list HostManagerConflict) :=
  let uplink := TrimSpace uplink in
  if negb (ValidIfName uplink) then mret []
  else
    pid ← dhcpcdPIDPresent;
    look (fun d => inspectIfupdown d uplink ++ inspectDhcpcd d pid uplink ++ inspectNetworkManager d uplink ++ adminNetworkdConflicts d uplink).
Definition hostManagerConflicts (l : list HostManagerConflict) : list HostManagerConflict := filter (fun m => mAction m = Conflict) l.
Definition hostManagerActions (l : list HostManagerConflict) : list HostManagerConflict := filter (fun m => mAction m <> Conflict) l.

(** *** Rollback *)
Definition ProbeWindow : Z := 120 * 10 ^ 9.
Definition owned_files (m : gmap string string) : gmap string string := filter (fun f => Is_true (ownedPersistName f.1)) m.
Definition on_snap (id : string) (f : snapshot -> snapshot) (d : disk) : disk := set_snaps (<[id := f (default no_snap (snaps d !! id))]> (snaps d)) d.
Definition snap_file (id name body : string) (d : disk) : disk := on_snap id (fun s => mkSnap (<[name := body]> (s_files s)) (s_host s) (s_manifest s)) d.
Definition snap_host (id rel body : string) (d : disk) : disk := on_snap id (fun s => mkSnap (s_files s) (<[rel := body]> (s_host s)) (s_manifest s)) d.
Definition snap_list (id : string) (l : list (string * string)) (d : disk) : disk := on_snap id (fun s => mkSnap (s_files s) (s_host s) l) d.

(** The files of a directory that are No-dal's, copied one by one. *)
Definition snapshotDir (src : disk -> gmap string string) (put : string -> string -> disk -> disk) : M unit :=
  files ← read_may_fail (fun d => entries (owned_files (src d)));
  each (fun f =>
    b ← read_may_fail (fun d => src d !! f.1);
    match b with Some b => write_file (put f.1) b | None => fail (Text "missing") end) files.
Definition underscored (rel : string) : string := ofBytes (map (fun a => if Ascii.eqb a "/"%char then "_"%char else a) (bytes rel)).
Definition host_paths (d : disk) : list string :=
  filter (fun rel => is_Some (etc d !! rel))
    ("network/interfaces" :: filter (fun rel => Is_true (HasPrefix rel "network/interfaces.d/")) (map fst (entries (etc d))) ++ ["dhcpcd.conf"; "resolv.conf"])%string.
(** What cannot be read or written is not copied. *)
Definition add_host (id : string) (acc : list (string * string)) (rel : string) : M (list (string * string)) :=
  body ← attempt (read_may_fail (fun d => default "" (etc d !! rel)));
  match body with
  | None => mret acc
  | Some body =>
      r ← attempt (write_file (snap_host id (underscored rel)) body);
      mret match r with Some _ => acc ++ [(underscored rel, rel)] | None => acc end
  end.
Fixpoint add_hosts (id : string) (acc : list (string * string)) (l : list string) : M (list (string * string)) :=
  match l with [] => mret acc | rel :: l => acc ← add_host id acc rel; add_hosts id acc l end.
Definition snapshotHostManagers (id : string) : M unit :=
  change (fun d => d) ≫= fun _ =>
  rels ← look host_paths;
  man ← add_hosts id [] rels;
  change (snap_list id man).

Definition WriteActive (a : ActiveRollback) : M unit := fun o '(d, n) =>
  let d := others o n d in
  let cut := match partial o n with Some _ => set_active (Some None) d | None => d end in
  if stops o n then (Stopped, (cut, S n)) else if io_ok o n then (Done (), (set_active (Some (Some a)) d, S n)) else (io_error, (cut, S n)).
Definition clearRollback : M unit :=
  ignore (remove (set_active None)) ≫= fun _ => ignore (remove (set_okfile false)).
Definition snap_path (id : string) : string := "rollback/" +:+ id.
Definition networkDir : string := "etc/systemd/network".
Definition armRollback (plan : Plan) (view : HostView) : M ActiveRollback :=
  let id := snap_path (plNetworkID plan) in
  change (fun d => d) ≫= fun _ =>
  change (fun d => set_snaps (delete id (snaps d)) d) ≫= fun _ =>
  change (on_snap id (fun s => s)) ≫= fun _ =>
  snapshotDir net (snap_file id) ≫= fun _ =>
  snapshotHostManagers id ≫= fun _ =>
  now ← time_now;
  let a := mkActive (plNetworkID plan) (now + ProbeWindow) (plManagementIfIndex plan) (plManagementIfName plan) (ManagementAddresses view) id networkDir in
  ignore (remove (set_okfile false)) ≫= fun _ =>
  WriteActive a ≫= fun _ => mret a.

Definition replaceDir (id : string) : M unit :=
  change (fun d => d) ≫= fun _ =>
  cur ← read_may_fail (fun d => map fst (entries (owned_files (net d))));
  each (fun name => ignore (RemoveNet name)) cur ≫= fun _ =>
  snapshotDir (fun d => s_files (default no_snap (snaps d !! id))) put_net.
Definition restoreHostManagers (id : string) : M unit :=
  man ← attempt (read_may_fail (fun d => s_manifest (default no_snap (snaps d !! id))));
  match man with
  | None => mret ()
  | Some man =>
      each (fun f =>
        body ← attempt (read_may_fail (fun d => s_host (default no_snap (snaps d !! id)) !! f.1));
        match body with Some (Some body) => ignore (change (fun d => d) ≫= fun _ => WriteEtc f.2 body) | _ => mret () end) man
  end.
Definition reloadNetworkd : M unit := ignore run ≫= fun _ => ignore run ≫= fun _ => run.
Definition restoreSnapshot (a : ActiveRollback) : M unit :=
  if bool_decide (aSnapshotDir a = ""%string) || bool_decide (aTargetDir a = ""%string) then fail (Text "rollback snapshot is incomplete")
  else replaceDir (aSnapshotDir a) ≫= fun _ => restoreHostManagers (aSnapshotDir a) ≫= fun _ => reloadNetworkd.
Definition LoadActiveRollback : M ActiveRollback :=
  r ← read_may_fail active;
  match r with Some (Some a) => mret a | _ => fail (Text "active") end.
Definition RestoreActive : M unit :=
  a ← LoadActiveRollback;
  restoreSnapshot a ≫= fun _ => clearRollback.

(** *** The change *)
Definition lanBridgeLive (plan : Plan) (view : HostView) : bool :=
  bool_decide (plKind plan = KindLANBridge) &&
  match lookup_if view (plBridgeName plan), lookup_if view (plUplinkIfName plan) with
  | Some br, Some up => ifUp br && sameIface (ifMaster up) (plBridgeName plan)
  | _, _ => false
  end.
Definition persistMatches (plan : Plan) (d : disk) : bool :=
  forallb (fun f => match net d !! f.1 with Some b => bool_decide (TrimSpace b = TrimSpace f.2) | None => false end) (plFiles plan) && bool_decide (plFiles plan <> []).
Definition lanAlreadyApplied (plan : Plan) (view : HostView) (d : disk) : bool :=
  bool_decide (plKind plan = KindLANBridge) && persistMatches plan d && lanBridgeLive plan view.
Definition writeOwned (files : list (string * string)) : M unit :=
  change (fun d => d) ≫= fun _ =>
  each (fun f => if ownedPersistName f.1 then WriteNet f.1 f.2 else fail (Text "refusing to write unmanaged networkd file")) files.
Definition writeFiles (plan : Plan) : M unit := writeOwned (plFiles plan).
Definition ensureLANBridgeMAC (plan : Plan) (view : HostView) : M unit :=
  let mac := lanBridgeMAC view (plUplinkIfName plan) in
  if bool_decide (mac = ""%string) || negb (ValidIfName (plBridgeName plan)) then mret ()
  else if match lookup_if view (plBridgeName plan) with Some live => sameMAC (ifHardwareAddr live) mac | None => false end then mret ()
  else run.
Definition startWatchdog : M unit := run.

Definition backupResolvIfPresent : M unit :=
  b ← look (fun d => etc d !! "resolv.conf"%string);
  match b with
  | Some b => if resolvHasNameserver b then ignore (change (fun d => d)) ≫= fun _ => ignore (write_file (fun s => set_resolv_backup (Some s)) b) else mret ()
  | None => mret ()
  end.
Definition preserveResolvNameservers : M unit :=
  cur ← look (fun d => etc d !! "resolv.conf"%string);
  match cur with
  | None => mret ()
  | Some cur =>
      if resolvHasNameserver cur then mret ()
      else
        prev ← look resolv_backup;
        match prev with Some prev => if resolvHasNameserver prev then WriteEtc "resolv.conf" prev else mret () | None => mret () end
  end.
Definition migrateIfupdownFile (rel uplink : string) : M unit :=
  b ← read_may_fail (fun d => etc d !! rel);
  match b with
  | None => fail (Text "missing")
  | Some b => let '(next, changed) := disableIfupdownIface b uplink in if changed : bool then WriteEtc rel next else mret ()
  end.
Definition migrateDhcpcd (uplink : string) : M unit :=
  (b ← look (fun d => etc d !! "dhcpcd.conf"%string);
   match b with
   | Some b => let next := dhcpcdDenyIface b uplink in if decide (next = b) then mret () else WriteEtc "dhcpcd.conf" next
   | None => mret () end) ≫= fun _ =>
  ignore run ≫= fun _ => ignore run.
Definition migrateNetworkManager (uplink : string) : M unit :=
  change (fun d => d) ≫= fun _ =>
  WriteEtc (nm_path uplink) ("[keyfile]" +:+ String newline "unmanaged-devices=interface-name:" +:+ uplink +:+ String newline "") ≫= fun _ =>
  ignore run.
Definition migrate_one (uplink : string) (m : HostManagerConflict) : M unit :=
  match mAction m with
  | DisableStanza => migrateIfupdownFile (mPath m) uplink
  | ReleaseLease => migrateDhcpcd uplink
  | Unmanage => migrateNetworkManager uplink
  | Conflict => mret ()
  end.
Definition migrateUplinkManagers (uplink : string) (l : list HostManagerConflict) : M unit :=
  each (migrate_one uplink) l ≫= fun _ => preserveResolvNameservers.

Definition persistIDFromName (name : string) : option (string * string) :=
  let base := ToLower name in
  if negb (HasPrefix base "50-ndl-") then None
  else
    let rest := TrimPrefix base "50-ndl-" in
    if HasSuffix rest "-uplink.network" then Some (TrimSuffix rest "-uplink.network", "uplink"%string)
    else if HasSuffix rest ".netdev" then Some (TrimSuffix rest ".netdev", "netdev"%string)
    else if HasSuffix rest ".network" then Some (TrimSuffix rest ".network", "network"%string)
    else None.
(** The network whose uplink file a file is. *)
Definition uplink_of (f : string * string) : option string :=
  if negb (ownedPersistName f.1) then None
  else match persistIDFromName f.1 with
       | Some (id, kind) => if bool_decide (kind <> "uplink"%string) || bool_decide (id = ""%string) then None else Some id
       | None => None
       end.
Definition stale_claim (uplink keepID : string) (f : string * string) : option string :=
  match uplink_of f with
  | Some id => if decide (id = keepID) then None else if sameIface (networkdMatchName f.2) uplink then Some id else None
  | None => None
  end.
Definition listStaleUplinkClaims (uplink keepID : string) (d : disk) : list string :=
  omap (stale_claim (TrimSpace uplink) (ToLower (TrimSpace keepID))) (entries (net d)).
Definition removeOwnedNetworkSet (id : string) : M unit :=
  let id := ToLower (TrimSpace id) in
  if decide (id = ""%string) then mret ()
  else each (fun suffix => let name := persistName id suffix in if ownedPersistName name then ignore (RemoveNet name) else mret ()) [".netdev"; ".network"; "-uplink.network"]%string.
Definition releaseStaleUplinkClaims (uplink keepID : string) : M unit :=
  stale ← look (listStaleUplinkClaims uplink keepID);
  each removeOwnedNetworkSet stale.
Fixpoint sweep_orphans (keep seen : list string) (files : list (string * string)) : M unit :=
  match files with
  | [] => mret ()
  | f :: files =>
      match uplink_of f with
      | Some id =>
          if decide (id ∈ keep ++ seen) then sweep_orphans keep seen files
          else
            there ← look (fun d => bool_decide (is_Some (net d !! f.1)));
            if there : bool then removeOwnedNetworkSet id ≫= fun _ => sweep_orphans keep (id :: seen) files else sweep_orphans keep seen files
      | None => sweep_orphans keep seen files
      end
  end.
Definition sweepOrphanUplinkFiles (keep : list string) : M unit :=
  files ← look (fun d => entries (net d));
  sweep_orphans keep [] files.

(** *** Isolated networks: forwarding, rules and DHCP *)
Definition text_line (v : string) : string := v +:+ String newline "".
Definition readForwarding (d : disk) : string := if decide (TrimSpace (forwarding d) = "1"%string) then "1" else "0".
Definition writeForwarding (v : string) : M unit := change (fun d => d) ≫= fun _ => write_file set_forwarding (text_line v).
Definition enableForwarding : M unit :=
  change (fun d => d) ≫= fun _ =>
  change (fun d => d) ≫= fun _ =>
  o ← look origin;
  (match o with
   | None => v ← look readForwarding; write_file (fun s => set_origin (Some s)) (text_line v)
   | Some _ => mret ()
   end) ≫= fun _ =>
  write_file (fun _ => set_sysctl true) "" ≫= fun _ =>
  writeForwarding "1".
Definition natPersistName (name : string) : bool := HasSuffix name ".nft" && negb (HasSuffix name ".destroy.nft" || HasSuffix name ".check.nft").
Definition natPersistCount (d : disk) : nat := length (filter (fun f => Is_true (natPersistName f.1)) (entries (nft d))).
Definition readOrigin (d : disk) : string :=
  match origin d with Some raw => if decide (TrimSpace raw = "0"%string) then "0" else "1" | None => "1" end.
Definition disableForwardingIfUnused : M unit :=
  n ← look natPersistCount;
  if (0 <? n)%nat then mret ()
  else
    ignore (remove (set_sysctl false)) ≫= fun _ =>
    v ← look readOrigin;
    ignore (remove (set_origin None)) ≫= fun _ =>
    if decide (v = "0"%string) then writeForwarding "0" else mret ().
Definition writeNFTNamed (name rules : string) : M unit :=
  change (fun d => d) ≫= fun _ => write_file (fun s d => set_nft (<[name := s]> (nft d)) d) rules.
Definition removeNFT (name : string) : M unit := ignore (remove (fun d => set_nft (delete name (nft d)) d)).
Definition renderNFTDestroy (plan : Plan) : string :=
  if decide (plBridgeName plan = ""%string) then "" else "destroy table inet " +:+ NATTableName (plBridgeName plan) +:+ String newline "".
Definition checkNFT (plan : Plan) : M unit :=
  if decide (plNFT plan = ""%string) then mret ()
  else
    writeNFTNamed (plNetworkID plan +:+ ".check.nft") (plNFT plan) ≫= fun _ =>
    r ← attempt run;
    removeNFT (plNetworkID plan +:+ ".check.nft") ≫= fun _ =>
    match r with Some _ => mret () | None => fail (Text "nft") end.
Definition applyNFT (plan : Plan) : M unit :=
  if decide (plNFT plan = ""%string) then fail (Text "isolated-nat nftables rules are empty")
  else
    writeNFTNamed (plNetworkID plan +:+ ".nft") (plNFT plan) ≫= fun _ =>
    (if decide (renderNFTDestroy plan = ""%string) then mret () else writeNFTNamed (plNetworkID plan +:+ ".destroy.nft") (renderNFTDestroy plan)) ≫= fun _ =>
    run ≫= fun _ => run.
Definition nftPresent (id : string) (d : disk) : bool := bool_decide (is_Some (nft d !! (id +:+ ".nft"))).
(** Starting and stopping a unit of an identifier: three commands, or two. *)
Definition startUnit : M unit := ignore run ≫= fun _ => ignore run ≫= fun _ => run.
Definition stopUnit : M unit := ignore run ≫= fun _ => run.
Definition removeNAT (plan : Plan) : M unit :=
  ignore stopUnit ≫= fun _ =>
  (if decide (renderNFTDestroy plan = ""%string) then mret ()
   else ignore (writeNFTNamed (plNetworkID plan +:+ ".destroy.nft") (renderNFTDestroy plan) ≫= fun _ => run)) ≫= fun _ =>
  removeNFT (plNetworkID plan +:+ ".nft") ≫= fun _ =>
  removeNFT (plNetworkID plan +:+ ".destroy.nft") ≫= fun _ =>
  removeNFT (plNetworkID plan +:+ ".check.nft") ≫= fun _ =>
  disableForwardingIfUnused.
Definition RestoreNAT : M unit :=
  rules ← look (fun d => filter (fun f => Is_true (natPersistName f.1)) (entries (nft d)));
  each (fun _ => ignore run) rules ≫= fun _ =>
  if decide (rules = []) then mret () else enableForwarding.

Definition ensureIsolatedReady (plan : Plan) : M unit :=
  r ← attempt waitIsolatedReady;
  match r with
  | Some _ => mret ()
  | None =>
      ignore run ≫= fun _ =>
      r ← attempt waitIsolatedReady;
      match r with
      | Some _ => mret ()
      | None =>
          (* up, and the address: the prefix is never empty *)
          ignore run ≫= fun _ =>
          ignore run ≫= fun _ =>
          waitIsolatedReady
      end
  end.
Definition writeDnsmasq (plan : Plan) : M unit :=
  change (fun d => d) ≫= fun _ => write_file (fun s d => set_dnsmasq (<[plNetworkID plan +:+ ".conf" := s]> (dnsmasq d)) d) (plDnsmasq plan).
Definition dnsmasqRunning : M bool := r ← attempt run; mret (match r with Some _ => true | None => false end).
Definition revertOwned (plan : Plan) : M unit :=
  each (fun f => ignore (RemoveNet f.1)) (plFiles plan) ≫= fun _ =>
  ignore (remove (fun d => set_dnsmasq (delete (plNetworkID plan +:+ ".conf") (dnsmasq d)) d)) ≫= fun _ =>
  ignore stopUnit ≫= fun _ =>
  there ← look (nftPresent (plNetworkID plan));
  (if plNAT plan || there then ignore (removeNAT plan) else mret ()) ≫= fun _ =>
  reloadNetworkd.

(** *** [Engine.Apply] *)
Record ApplyResult := mkResult { rAlreadyApplied : bool; rRollbackArmed : bool; rManagementIfIndex : Z }.

Definition finish_lan (plan : Plan) : M ApplyResult :=
  ignore stopUnit ≫= fun _ =>
  after ← attempt host;
  let after := default no_host after in
  if ProbeManagement after (plManagementIfName plan) (plManagementIfIndex plan) (ManagementAddresses after)
  then mret (mkResult false true (ManagementIfIndex after))
  else fail ProbeFailed.
(** A bridge to the LAN, once the rollback is armed; a failed probe reports that the
    change was rolled back. *)
Definition apply_armed (plan : Plan) (view : HostView) (managers : list HostManagerConflict) : M ApplyResult :=
  on_failure (ignore RestoreActive) (
    migrateUplinkManagers (plUplinkIfName plan) (hostManagerActions managers) ≫= fun _ =>
    releaseStaleUplinkClaims (plUplinkIfName plan) (plNetworkID plan) ≫= fun _ =>
    same ← look (persistMatches plan);
    if same && lanBridgeLive plan view then ignore (ensureLANBridgeMAC plan view) ≫= fun _ => mret (mkResult true true (ManagementIfIndex view))
    else
      writeFiles plan ≫= fun _ =>
      reloadNetworkd ≫= fun _ =>
      ignore (ensureLANBridgeMAC plan view) ≫= fun _ =>
      finish_lan plan).
Definition armed_rollback (plan : Plan) (view : HostView) : M unit :=
  armRollback plan view ≫= fun _ => on_failure clearRollback startWatchdog.
Definition apply_lan (plan : Plan) (view : HostView) : M ApplyResult :=
  managers ← InspectHostManagers (plUplinkIfName plan);
  if bool_decide (hostManagerConflicts managers <> []) then fail (Text "uplink is still owned")
  else
    same ← look (lanAlreadyApplied plan view);
    if same && bool_decide (hostManagerActions managers = [])
    then ignore (ensureLANBridgeMAC plan view) ≫= fun _ => mret (mkResult true false (ManagementIfIndex view))
    else
      backupResolvIfPresent ≫= fun _ =>
      armed_rollback plan view ≫= fun _ =>
      apply_armed plan view managers.
Definition apply_isolated (plan : Plan) (before : Z) : M ApplyResult :=
  on_failure (ignore (revertOwned plan)) (
    writeFiles plan ≫= fun _ =>
    reloadNetworkd ≫= fun _ =>
    ensureIsolatedReady plan ≫= fun _ =>
    writeDnsmasq plan ≫= fun _ =>
    startUnit ≫= fun _ =>
    up ← dnsmasqRunning;
    (if up : bool then mret () else again ← dnsmasqRunning; if again : bool then mret () else fail (Text "isolated DHCP did not start")) ≫= fun _ =>
    (if plNAT plan then enableForwarding ≫= fun _ => applyNFT plan ≫= fun _ => startUnit else mret ()) ≫= fun _ =>
    after ← attempt host;
    let after := default no_host after in
    if (0 <? before) && (0 <? ManagementIfIndex after) && negb (ManagementIfIndex after =? before) then fail (Text "management ifindex changed after isolated apply")
    else mret (mkResult false false (ManagementIfIndex after))).
Definition Apply (spec : Spec) : M ApplyResult :=
  view ← host;
  match BuildPlan parse_uuid spec view with
  | Err e => fail (PlanError e)
  | Ok plan =>
      if cRequiresConfirm (plClass plan) && negb (ValidIfName (sConfirmIfName spec) && sameIface (sConfirmIfName spec) (plUplinkIfName plan))
      then fail (Text ("typed interface confirmation is required: type " +:+ plUplinkIfName plan))
      else if Isolated (plKind plan) && (0 <? ManagementIfIndex view) && negb (plManagementIfIndex plan =? ManagementIfIndex view) then fail (Text "management ifindex changed during plan")
      else
        (if plNAT plan then checkNFT plan else mret ()) ≫= fun _ =>
        if decide (plKind plan = KindLANBridge) then apply_lan plan view else apply_isolated plan (ManagementIfIndex view)
  end.
Definition Delete (spec : Spec) : M unit :=
  if decide (sKind spec = KindLANBridge) then fail (Text "LAN-bridge networks cannot be deleted")
  else
    let id := TrimSpace (sNetworkID spec) in
    revertOwned (mkPlan id "" (sKind spec) (default "" (BridgeName parse_uuid id)) "" "" "" "" "" "" (bool_decide (sKind spec = KindIsolatedNAT))
      [(persistName id ".netdev", ""); (persistName id ".network", "")] "" "" (mkClass DangerSafe "" false "" "" 0 false) 0 "" [])%string.

(** Observing a bridge puts its files back when they differ. *)
Definition healLANBridge (networkID uplink : string) : M bool :=
  let uplink := TrimSpace uplink in
  if negb (ValidIfName uplink) then mret false
  else
    view ← host;
    match BuildPlan parse_uuid (mkSpec networkID networkID KindLANBridge "" uplink "" []) view with
    | Err e => fail (PlanError e)
    | Ok plan =>
        same ← look (persistMatches plan);
        (if same : bool then mret () else writeFiles plan ≫= fun _ => reloadNetworkd) ≫= fun _ =>
        ensureLANBridgeMAC plan view ≫= fun _ =>
        let mac := lanBridgeMAC view uplink in
        mret (negb same || match lookup_if view (plBridgeName plan) with
                           | Some live => bool_decide (mac <> ""%string) && negb (sameMAC (ifHardwareAddr live) mac)
                           | None => false
                           end)
    end.

(** *** After the change: the watchdog ([src/cmd/ndl-network-rollback/main.go]) and the
    start of the agent.  [Answered] says that the management path was probed and answered. *)
Inductive verdict := Nothing | Confirmed | Restarted | Answered | Restored.
#[export] Instance verdict_eq_dec : EqDecision verdict.
Proof. solve_decision. Defined.
Definition probe (a : ActiveRollback) (view : HostView) : bool := ProbeManagement view (aManagementIfName a) (aManagementIfIndex a) (aManagementAddresses a).
Definition answers (a : ActiveRollback) : M bool := view ← attempt host; mret (match view with Some view => probe a view | None => false end).

(** A round every two seconds; a watchdog that is stopped has a last round. *)
Fixpoint watch (rounds : nat) (a : ActiveRollback) (deadline : Z) : M verdict :=
  match rounds with
  | O => fun _ s => (Stopped, s)
  | S rounds =>
      now ← time_now;
      ok ← look okfile;
      if ok : bool then mret Confirmed
      else if now <? deadline then
        view ← attempt host;
        match view with
        | Some view => if probe a view then watch rounds a deadline else RestoreActive ≫= fun _ => mret Restored
        | None => watch rounds a deadline
        end
      else
        up ← answers a;
        if up : bool then mret Answered else RestoreActive ≫= fun _ => mret Restored
  end.
Definition watchdog (rounds : nat) : M verdict :=
  r ← read_may_fail active;
  match r with
  | None => mret Nothing
  | Some None => fail (Text "active.json")
  | Some (Some a) =>
      deadline ← (if aDeadline a =? 0 then now ← time_now; mret (now + ProbeWindow) else mret (aDeadline a) : M Z);
      watch rounds a deadline
  end.
Definition RecoverStale : M verdict :=
  a ← attempt LoadActiveRollback;
  match a with
  | None => mret Nothing
  | Some a =>
      ok ← look okfile;
      if ok : bool then mret Confirmed
      else
        now ← time_now;
        if now <? aDeadline a then startWatchdog ≫= fun _ => mret Restarted
        else
          up ← answers a;
          if up : bool then clearRollback ≫= fun _ => mret Answered else RestoreActive ≫= fun _ => mret Restored
  end.
End NetApply.
