(* ===== verification/NetProps.v ===== *)
(** * Programs on the host's network: triples, copies and the rollback

    A triple says what holds when a program is done, and what holds when it fails or is
    cut short; nothing else runs beside it. *)
From stdpp Require Import sorting.
From S2P Require Export NetApply.

(** ** Triples *)
Definition quiet (o : outside) : Prop := forall n d, others o n d = d.
(** A file can be removed. *)
Definition sure (o : outside) : Prop := quiet o /\ forall n, remove_ok o n = true.

Section Triples.
Context (fit : outside -> Prop) (fit_quiet : forall o, fit o -> quiet o).

Definition holds {A} (P : disk -> Prop) (m : M A) (Q : A -> disk -> Prop) (E : disk -> Prop) : Prop :=
  forall o d n, fit o -> P d -> match m o (d, n) with (Done a, (d, _)) => Q a d | (_, (d, _)) => E d end.

Lemma h_conseq {A} P P' (m : M A) (Q Q' : A -> disk -> Prop) (E E' : disk -> Prop) :
  holds P' m Q' E' -> (forall d, P d -> P' d) -> (forall a d, Q' a d -> Q a d) -> (forall d, E' d -> E d) -> holds P m Q E.
Proof. intros H HP HQ HE o d n Ho Hd. specialize (H o d n Ho (HP d Hd)). destruct (m o (d, n)) as [[a|e|] [d' n']]; auto. Qed.
Lemma h_pre {A} P P' (m : M A) Q E : holds P' m Q E -> (forall d, P d -> P' d) -> holds P m Q E.
Proof. intros H HP. by eapply h_conseq. Qed.
Lemma h_pure {A} (F : Prop) P (m : M A) Q E : (F -> holds P m Q E) -> holds (fun d => F /\ P d) m Q E.
Proof. intros H o d n Ho [HF Hd]. by apply H. Qed.
Lemma h_ret {A} (P : disk -> Prop) (a : A) Q E : (forall d, P d -> Q a d) -> holds P (mret a) Q E.
Proof. intros H o d n _ Hd. by apply H. Qed.
Lemma h_fail {A} (P : disk -> Prop) e (Q : A -> disk -> Prop) (E : disk -> Prop) : (forall d, P d -> E d) -> holds P (fail e) Q E.
Proof. intros H o d n _ Hd. by apply H. Qed.
Lemma h_bind {A B} P (m : M A) (f : A -> M B) R Q E : holds P m R E -> (forall a, holds (R a) (f a) Q E) -> holds P (m ≫= f) Q E.
Proof.
  intros Hm Hf o d n Ho Hd. specialize (Hm o d n Ho Hd). unfold mbind, M_bind. destruct (m o (d, n)) as [[a|e|] [d' n']]; [|done..]. by apply Hf.
Qed.
Lemma h_attempt {A} P (m : M A) Q E : holds P m Q E -> holds P (attempt m) (fun r d => match r with Some a => Q a d | None => E d end) E.
Proof. intros H o d n Ho Hd. specialize (H o d n Ho Hd). unfold attempt. by destruct (m o (d, n)) as [[a|e|] [d' n']]. Qed.
Lemma h_ignore {A} P (m : M A) (Q : A -> disk -> Prop) (E R : disk -> Prop) :
  holds P m Q E -> (forall a d, Q a d -> R d) -> (forall d, E d -> R d) -> holds P (ignore m) (fun _ => R) E.
Proof.
  intros H HQ HE. eapply h_bind; [by apply h_attempt|]. intros [a|]; apply h_ret; cbn; eauto.
Qed.
Lemma h_on_failure {A} P (p : M A) (m : M unit) Q (E E' : disk -> Prop) :
  holds P p Q E -> holds E m (fun _ => E') E' -> (forall d, E d -> E' d) -> holds P (on_failure m p) Q E'.
Proof.
  intros Hp Hm HE o d n Ho Hd. specialize (Hp o d n Ho Hd). unfold on_failure. destruct (p o (d, n)) as [[a|e|] [d' n']]; [done| |by apply HE].
  specialize (Hm o d' n' Ho Hp). by destruct (m o (d', n')) as [[[]|e'|] [d'' n'']].
Qed.
(** A call may be the last, or fail. *)
Definition trouble : Prop := exists o n, fit o /\ (stops o n = true \/ io_ok o n = false).
(** A call that no other process disturbs. *)
Lemma h_call {A} (P : disk -> Prop) f (Q : A -> disk -> Prop) (E : disk -> Prop) :
  (forall o n d, fit o -> P d -> (trouble -> E d) /\ match f o n d with (Done a, d) => Q a d | (_, d) => E d end) -> holds P (call f) Q E.
Proof.
  intros H o d n Ho Hd. unfold call. rewrite (fit_quiet o Ho). specialize (H o n d Ho Hd) as [He H].
  destruct (stops o n) eqn:Es; [apply He; exists o, n; auto|]. destruct (f o n d) as [[a|e|] d']; exact H.
Qed.
Lemma h_change (P : disk -> Prop) f (Q : unit -> disk -> Prop) (E : disk -> Prop) : (forall d, P d -> Q tt (f d)) -> (trouble -> forall d, P d -> E d) -> holds P (change f) Q E.
Proof.
  intros HQ HE. apply h_call. intros o n d Ho Hd. split; [intros; by apply HE|]. destruct (io_ok o n) eqn:Ei; cbn; [auto|]. apply HE; [|done]. exists o, n; auto.
Qed.
Lemma h_look {A} (P : disk -> Prop) (f : disk -> A) (Q : A -> disk -> Prop) (E : disk -> Prop) : (forall d, P d -> Q (f d) d) -> (trouble -> forall d, P d -> E d) -> holds P (look f) Q E.
Proof. intros HQ HE. apply h_call. intros o n d Ho Hd. split; [intros; by apply HE|]. by apply HQ. Qed.
Lemma h_read {A} (P : disk -> Prop) (f : disk -> A) (Q : A -> disk -> Prop) (E : disk -> Prop) : (forall d, P d -> Q (f d) d) -> (trouble -> forall d, P d -> E d) -> holds P (read_may_fail f) Q E.
Proof.
  intros HQ HE. apply h_call. intros o n d Ho Hd. split; [intros; by apply HE|]. destruct (io_ok o n) eqn:Ei; cbn; [auto|]. apply HE; [|done]. exists o, n; auto.
Qed.
Lemma h_write P put body (Q : unit -> disk -> Prop) (E : disk -> Prop) :
  (forall d, P d -> Q tt (put body d)) -> (trouble -> forall s d, P d -> E (put s d)) -> (trouble -> forall d, P d -> E d) -> holds P (write_file put body) Q E.
Proof.
  intros HQ Hc HE o d n Ho Hd. unfold write_file. rewrite (fit_quiet o Ho).
  assert (trouble -> E (match partial o n with Some s => put s d | None => d end)) as Hcut by (intros Ht; destruct (partial o n); auto).
  destruct (stops o n) eqn:Es; [apply Hcut; exists o, n; auto|]. destruct (io_ok o n) eqn:Ei; [by apply HQ|]. apply Hcut. exists o, n; auto.
Qed.
Lemma h_each {A} (I : list A -> disk -> Prop) (E : disk -> Prop) (f : A -> M unit) l :
  (forall k a k', l = k ++ a :: k' -> holds (I k) (f a) (fun _ => I (k ++ [a])) E) -> holds (I []) (each f l) (fun _ => I l) E.
Proof.
  intros H. enough (forall l1 l0, l = l0 ++ l1 -> holds (I l0) (each f l1) (fun _ => I l) E) as G by by apply G.
  induction l1 as [|a l1 IH]; intros l0 El; cbn; [rewrite app_nil_r in El; rewrite El; by apply h_ret|].
  eapply h_bind; [by eapply H|]. intros []. apply IH. by rewrite El, <- app_assoc.
Qed.

(** *** What a program keeps whatever happens *)
Definition keeps {A} (I : disk -> Prop) (m : M A) : Prop := holds I m (fun _ => I) I.
Section Keeps.
Context (I : disk -> Prop).
Lemma k_ret {A} (a : A) : keeps I (mret a). Proof using Type. by apply h_ret. Qed.
Lemma k_fail {A} e : keeps (A := A) I (fail e). Proof using Type. by apply h_fail. Qed.
Lemma k_bind {A B} (m : M A) (f : A -> M B) : keeps I m -> (forall a, keeps I (f a)) -> keeps I (m ≫= f).
Proof using Type. apply h_bind. Qed.
Lemma k_attempt {A} (m : M A) : keeps I m -> keeps I (attempt m).
Proof using Type. intros H. eapply h_conseq; [by apply h_attempt|done| |done]. by intros [a|] d. Qed.
Lemma k_ignore {A} (m : M A) : keeps I m -> keeps I (ignore m).
Proof using Type. intros H. by eapply h_ignore. Qed.
Lemma k_on_failure {A} (p : M A) m : keeps I p -> keeps I m -> keeps I (on_failure m p).
Proof using Type. intros Hp Hm. by eapply h_on_failure. Qed.
Lemma k_call {A} (f : outside -> nat -> disk -> outcome A * disk) : (forall o n d, I d -> I (f o n d).2) -> keeps I (call f).
Proof using fit_quiet. intros H. apply h_call. intros o n d _ Hd. split; [done|]. specialize (H o n d Hd). by destruct (f o n d) as [[a|e|] d']. Qed.
Lemma k_look {A} (f : disk -> A) : keeps I (look f). Proof using fit_quiet. by apply h_look. Qed.
Lemma k_read {A} (f : disk -> A) : keeps I (read_may_fail f). Proof using fit_quiet. by apply h_read. Qed.
Lemma k_run : keeps I run. Proof using fit_quiet. apply k_call. intros o n d Hd. by destruct (run_ok o n). Qed.
Lemma k_host : keeps I host. Proof using fit_quiet. apply k_call. intros o n d Hd. by destruct (host_at o n). Qed.
Lemma k_time : keeps I time_now. Proof using fit_quiet. by apply k_call. Qed.
Lemma k_pid : keeps I dhcpcdPIDPresent. Proof using fit_quiet. by apply k_call. Qed.
Lemma k_wait : keeps I waitIsolatedReady. Proof using fit_quiet. apply k_call. intros o n d Hd. by destruct (ready_at o n). Qed.
Lemma k_change f : (forall d, I d -> I (f d)) -> keeps I (change f). Proof using fit_quiet. intros H. by apply h_change. Qed.
Lemma k_remove f : (forall d, I d -> I (f d)) -> keeps I (remove f).
Proof using fit_quiet. intros H. apply k_call. intros o n d Hd. destruct (remove_ok o n); [by apply H|done]. Qed.
Lemma k_write put body : (forall s d, I d -> I (put s d)) -> keeps I (write_file put body). Proof using fit_quiet. intros H. apply h_write; auto. Qed.
Lemma k_each {A} (f : A -> M unit) l : (forall a, keeps I (f a)) -> keeps I (each f l).
Proof using Type. intros H. induction l as [|a l IH]; [by apply k_ret|]. by apply k_bind. Qed.
End Keeps.
End Triples.

(** Programs are taken apart by their last combinator. *)
Create HintDb net.
Ltac keep1 :=
  match goal with
  | |- keeps _ _ (_ ≫= _) => apply k_bind; [|intros ?]
  | |- keeps _ _ (mret _) => apply k_ret
  | |- keeps _ _ (fail _) => apply k_fail
  | |- keeps _ _ (attempt _) => apply k_attempt
  | |- keeps _ _ (ignore _) => apply k_ignore
  | |- keeps _ _ (on_failure _ _) => apply k_on_failure
  | |- keeps _ _ (each _ _) => apply k_each; intros ?
  | |- keeps _ _ (look _) => apply k_look; assumption
  | |- keeps _ _ (read_may_fail _) => apply k_read; assumption
  | |- keeps _ _ run => apply k_run; assumption
  | |- keeps _ _ host => apply k_host; assumption
  | |- keeps _ _ time_now => apply k_time; assumption
  | |- keeps _ _ dhcpcdPIDPresent => apply k_pid; assumption
  | |- keeps _ _ waitIsolatedReady => apply k_wait; assumption
  | |- keeps _ _ (change _) => apply k_change; [assumption|]
  | |- keeps _ _ (remove _) => apply k_remove; [assumption|]
  | |- keeps _ _ (write_file _ _) => apply k_write; [assumption|]
  | |- keeps _ _ (if ?b then _ else _) => destruct b
  | |- keeps _ _ (match ?x with _ => _ end) => destruct x
  end.

(** ** Directories *)
Lemma entries_spec m f : f ∈ entries m <-> m !! f.1 = Some f.2.
Proof.
  unfold entries. rewrite list_elem_of_omap. split.
  - intros (n & _ & H). destruct (m !! n) eqn:E; [|done]. by injection H as <-.
  - intros H. exists f.1. rewrite H. split; [|by destruct f]. unfold sortStrings. rewrite merge_sort_Permutation, list_elem_of_fmap.
    exists f. split; [done|]. by rewrite (surjective_pairing f), elem_of_map_to_list.
Qed.
Lemma entries_names m n : n ∈ map fst (entries m) <-> is_Some (m !! n).
Proof.
  rewrite list_elem_of_fmap. split.
  - intros ([n' b] & -> & H%entries_spec). eauto.
  - intros [b H]. exists (n, b). by rewrite entries_spec.
Qed.

Definition foreign (m : gmap string string) : gmap string string := filter (fun f => ~ Is_true (ownedPersistName f.1)) m.
Lemma owned_lookup m n : owned_files m !! n = if ownedPersistName n then m !! n else None.
Proof.
  unfold owned_files. rewrite map_lookup_filter. destruct (m !! n) as [b|]; cbn; [|by destruct (ownedPersistName n)].
  case_guard as Hg; destruct (ownedPersistName n) eqn:E; cbn; rewrite ?E in Hg; naive_solver.
Qed.
Lemma foreign_lookup m n : foreign m !! n = if ownedPersistName n then None else m !! n.
Proof.
  unfold foreign. rewrite map_lookup_filter. destruct (m !! n) as [b|]; cbn; [|by destruct (ownedPersistName n)].
  case_guard as Hg; destruct (ownedPersistName n) eqn:E; cbn; rewrite ?E in Hg; naive_solver.
Qed.
Lemma net_split m m' : owned_files m = owned_files m' -> foreign m = foreign m' -> m = m'.
Proof.
  intros Ho Hf. apply map_eq. intros n. apply (f_equal (lookup n)) in Ho, Hf. rewrite !owned_lookup in Ho. rewrite !foreign_lookup in Hf.
  by destruct (ownedPersistName n).
Qed.
Lemma owned_insert m n b : ownedPersistName n = true -> owned_files (<[n := b]> m) = <[n := b]> (owned_files m) /\ foreign (<[n := b]> m) = foreign m.
Proof.
  intros Hn. split; apply map_eq; intros i; [rewrite owned_lookup|rewrite !foreign_lookup].
  - destruct (decide (i = n)) as [->|Hi]; [by rewrite Hn, !lookup_insert_eq|]. by rewrite !lookup_insert_ne, owned_lookup by done.
  - destruct (decide (i = n)) as [->|Hi]; [by rewrite Hn|]. by rewrite !lookup_insert_ne by done.
Qed.
Lemma owned_delete m n : ownedPersistName n = true -> owned_files (delete n m) = delete n (owned_files m) /\ foreign (delete n m) = foreign m.
Proof.
  intros Hn. split; apply map_eq; intros i; [rewrite owned_lookup|rewrite !foreign_lookup].
  - destruct (decide (i = n)) as [->|Hi]; [by rewrite Hn, !lookup_delete_eq|]. by rewrite !lookup_delete_ne, owned_lookup by done.
  - destruct (decide (i = n)) as [->|Hi]; [by rewrite Hn|]. by rewrite !lookup_delete_ne by done.
Qed.
Lemma owned_idem m : owned_files (owned_files m) = owned_files m.
Proof. apply map_eq. intros n. rewrite !owned_lookup. by destruct (ownedPersistName n). Qed.
Lemma owned_in m f : f ∈ entries (owned_files m) -> ownedPersistName f.1 = true /\ m !! f.1 = Some f.2.
Proof. rewrite entries_spec, owned_lookup. by destruct (ownedPersistName f.1). Qed.

(** ** Copies *)
Section Copies.
Context (fit : outside -> Prop) (fit_quiet : forall o, fit o -> quiet o).

(** Copying a directory into an empty place gives its files. *)
Lemma h_copy src put get (P E : disk -> Prop) m :
  (forall d, P d -> owned_files (src d) = m) ->
  (forall d, P d -> forall n b s, m !! n = Some b -> P (put n s d) /\ get (put n s d) = <[n := s]> (get d)) ->
  (trouble fit -> forall d, P d -> E d) ->
  holds fit (fun d => P d /\ get d = ∅) (snapshotDir src put) (fun _ d => P d /\ get d = m) E.
Proof using fit_quiet.
  intros Hs Hp HE. unfold snapshotDir. eapply h_bind.
  - eapply (h_read fit fit_quiet _ _ (fun files d => files = entries m /\ P d /\ get d = ∅)); [|intros Ht d [H _]; by apply HE].
    intros d [Hd Hg]. by rewrite (Hs d Hd).
  - intros files. apply h_pure. intros ->.
    set (I := fun (k : list (string * string)) d => P d /\ get d ⊆ m /\ forall f, f ∈ k -> get d !! f.1 = Some f.2).
    eapply (h_conseq fit _ (I []) _ _ (fun _ => I (entries m)) E E).
    2: { intros d [Hd Hg]. split; [done|]. rewrite Hg. split; [apply map_empty_subseteq|]. by intros f ?%not_elem_of_nil. }
    2: { intros _ d (Hd & Hg & Hf). split; [done|]. apply map_subseteq_po; [done|]. apply map_subseteq_spec. intros n b Hn. by apply (Hf (n, b)), entries_spec. }
    2: done.
    apply h_each. intros k f k' Ef. assert (m !! f.1 = Some f.2) as Hf by (apply entries_spec; rewrite Ef; set_solver).
    eapply h_bind.
    + eapply (h_read fit fit_quiet _ _ (fun b d => b = Some f.2 /\ I k d)); [|intros Ht d [H _]; by apply HE].
      intros d Hd. split; [|done]. destruct Hd as [Hd _]. pose proof Hf as Hf'. rewrite <- (Hs d Hd), owned_lookup in Hf'. by destruct (ownedPersistName f.1).
    + intros b. apply h_pure. intros ->. apply h_write; [done|..].
      * intros d (Hd & Hg & Hk). destruct (Hp d Hd f.1 f.2 f.2 Hf) as [Hd' Eg]. split; [done|]. rewrite Eg. split.
        -- apply map_subseteq_spec. intros n b. destruct (decide (n = f.1)) as [->|Hn]; [by rewrite lookup_insert_eq; intros [= <-]|].
           rewrite lookup_insert_ne by done. intros Hb. by eapply lookup_weaken.
        -- intros f'. rewrite elem_of_app, list_elem_of_singleton. intros [Hf'| ->]; [|by rewrite lookup_insert_eq].
           destruct (decide (f'.1 = f.1)) as [E1|Hn]; [|by rewrite lookup_insert_ne by done; apply Hk].
           rewrite E1, lookup_insert_eq. specialize (Hk f' Hf'). rewrite E1 in Hk. pose proof (lookup_weaken _ _ _ _ Hk Hg) as Hk'. by rewrite Hf in Hk'.
      * intros Ht s d [Hd _]. apply HE; [done|]. by eapply Hp.
      * intros Ht d [Hd _]. by apply HE.
Qed.
End Copies.

(** ** The rollback *)
Lemma sure_still o : sure o -> quiet o.
Proof. by intros [H _]. Qed.
#[export] Hint Resolve sure_still : core.

Section Rollback.
Context `{CaseTables} (d0 : disk).

(** The files are those of [d0], and no rollback can be loaded. *)
Definition calm (d : disk) : Prop := net d = net d0 /\ okfile d = false /\ (active d = None \/ active d = Some None).
(** The rollback [a] is armed, with a copy of No-dal's files of [d0]; the files of others
    are those of [d0]. *)
Definition armed_with (a : ActiveRollback) (d : disk) : Prop :=
  foreign (net d) = foreign (net d0) /\ okfile d = false /\ active d = Some (Some a) /\
  s_files (default no_snap (snaps d !! aSnapshotDir a)) = owned_files (net d0) /\ aSnapshotDir a <> ""%string /\ aTargetDir a <> ""%string.
Definition undoable (d : disk) : Prop := calm d \/ exists a, armed_with a d.
Definition still (d : disk) : Prop := net d = net d0 /\ undoable d.

Lemma still_calm d : calm d -> still d.
Proof using Type. intros Hc. split; [apply Hc|by left]. Qed.
Lemma still_armed a d : net d = net d0 -> armed_with a d -> still d.
Proof using Type. intros Hn Ha. split; [done|]. right. eauto. Qed.

Lemma put_net_armed a n b d : ownedPersistName n = true -> armed_with a d -> armed_with a (put_net n b d).
Proof using Type. intros Hn (Hf & Hr). split; [|exact Hr]. cbn. by rewrite (proj2 (owned_insert (net d) n b Hn)). Qed.
Lemma drop_net_armed a n d : ownedPersistName n = true -> armed_with a d -> armed_with a (set_net (delete n (net d)) d).
Proof using Type. intros Hn (Hf & Hr). split; [|exact Hr]. cbn. by rewrite (proj2 (owned_delete (net d) n Hn)). Qed.

Lemma snap_at id f d : snaps (on_snap id f d) !! id = Some (f (default no_snap (snaps d !! id))).
Proof using Type. apply lookup_insert_eq. Qed.

(** *** Arming *)
Section Arm.
Context (fit : outside -> Prop) (fit_quiet : forall o, fit o -> quiet o).

Lemma host_copy_keeps (I : disk -> Prop) id : (forall f d, (forall s, s_files (f s) = s_files s) -> I d -> I (on_snap id f d)) -> keeps fit I (snapshotHostManagers id).
Proof using fit_quiet.
  intros Hi. assert (forall l acc, keeps fit I (add_hosts id acc l)) as Hl.
  { induction l as [|rel l IH]; intros acc; cbn [add_hosts]; [keep1|]. keep1; [|apply IH]. unfold add_host. repeat keep1. intros ? d ?. by apply Hi. }
  unfold snapshotHostManagers. repeat keep1; [|apply Hl|]; intros d Hd; [done|by apply Hi].
Qed.

Definition copying (id : string) (d : disk) : gmap string string := s_files (default no_snap (snaps d !! id)).
Lemma arm_holds plan view :
  holds fit calm (armRollback plan view) (fun a d => net d = net d0 /\ armed_with a d) undoable.
Proof using fit_quiet.
  set (id := snap_path (plNetworkID plan)).
  assert (forall (f : snapshot -> snapshot) d, calm d -> calm (on_snap id f d)) as Hsnap by done.
  assert (forall d, calm d -> undoable d) as Hu by (intros d Hd; by left).
  unfold armRollback. fold id. eapply h_bind; [by apply (h_change _ fit_quiet _ _ (fun _ => calm)); [|intros _]|]. intros ?.
  eapply h_bind; [apply (h_change _ fit_quiet _ _ (fun _ d => calm d /\ copying id d = ∅)); [|intros _; exact Hu]|].
  { intros d Hd. split; [done|]. unfold copying. cbn. by rewrite lookup_delete_eq. }
  intros ?. eapply h_bind; [apply (h_change _ fit_quiet _ _ (fun _ d => calm d /\ copying id d = ∅)); [|by intros _ d [? _]; apply Hu]|].
  { intros d [Hd Hc]. split; [by apply Hsnap|]. unfold copying. by rewrite snap_at. }
  intros ?. eapply h_bind.
  { apply (h_copy _ fit_quiet net (snap_file id) (copying id) calm undoable (owned_files (net d0))); [by intros d [-> _]| |intros _; exact Hu].
    intros d Hd n b s _. split; [by apply Hsnap|]. unfold snap_file, copying. by rewrite snap_at. }
  intros ?. set (R := fun d => calm d /\ copying id d = owned_files (net d0)).
  assert (forall d, R d -> undoable d) as Hr by (intros d [Hd _]; auto).
  eapply h_bind; [eapply (h_conseq _ R R _ (fun _ => R) (fun _ => R) undoable R); [apply host_copy_keeps|done|done|done]|].
  { intros f d Hf [Hd Hc]. split; [by apply Hsnap|]. unfold copying. rewrite snap_at. cbn. by rewrite Hf. }
  intros ?. eapply h_bind; [eapply (h_conseq _ R R _ (fun _ => R) (fun _ => R) undoable R); [by apply k_time|done|done|done]|].
  intros now. cbn zeta. eapply h_bind; [eapply (h_conseq _ R R _ (fun _ => R) (fun _ => R) undoable R); [apply k_ignore, k_remove; [done|]|done|done|done]|].
  { intros d [(Hn & Hk & Ha) Hc]. done. }
  intros ?. match goal with |- holds _ _ (WriteActive ?a ≫= _) _ _ => eapply (h_bind _ _ _ _ (fun _ d => net d = net d0 /\ armed_with a d)); [|intros ?; by apply h_ret] end.
  intros o d n Ho [(Hn & Hk & Ha) Hc]. unfold WriteActive. rewrite (fit_quiet o Ho).
  assert (undoable (match partial o n with Some _ => set_active (Some None) d | None => d end)) as Hcut.
  { left. destruct (partial o n); [split; [done|]; split; [done|by right]|done]. }
  destruct (stops o n); [done|]. destruct (io_ok o n); [|done]. split; [done|].
  split; [by cbn; rewrite Hn|]. split; [done|]. split; [done|]. split; [exact Hc|done].
Qed.
End Arm.

(** *** Restoring *)
Lemma clear_still fit : (forall o, fit o -> quiet o) -> keeps fit still clearRollback.
Proof using Type.
  intros Hq. unfold clearRollback. repeat keep1; intros d [Hn [(? & ? & ?)|[act (? & Hk & ?)]]]; (split; [done|]).
  - left. split; [done|]. split; [done|by left].
  - left. split; [done|]. split; [done|by left].
  - left. by split.
  - right. exists act. by split.
Qed.

Section Restore.
Context (fit : outside -> Prop) (fit_sure : forall o, fit o -> sure o).
Lemma sure_fit_quiet o : fit o -> quiet o.
Proof using fit_sure. intros Ho. by apply sure_still, fit_sure. Qed.

(** A removal whose error nobody looks at. *)
Lemma h_drop (P Q E : disk -> Prop) f : (forall d, P d -> Q (f d)) -> (trouble fit -> forall d, P d -> E d) -> holds fit P (ignore (remove f)) (fun _ => Q) E.
Proof using fit_sure.
  intros HQ HE o d n Ho Hd. destruct (fit_sure o Ho) as [Hq Hr]. unfold ignore, attempt, remove, call, mbind, M_bind, mret, M_ret. rewrite Hq.
  destruct (stops o n) eqn:Es; [apply HE; [exists o, n; auto|done]|]. rewrite Hr. by apply HQ.
Qed.

(** Removing what is No-dal's leaves nothing of it. *)
Definition emptied (cur k : list string) (d : disk) : Prop := forall n, is_Some (owned_files (net d) !! n) -> n ∈ cur /\ n ∉ k.
Lemma remove_owned_holds a cur (E : disk -> Prop) : Forall (fun n => ownedPersistName n = true) cur -> (trouble fit -> forall d, armed_with a d -> E d) ->
  holds fit (fun d => armed_with a d /\ emptied cur [] d) (each (fun name => ignore (RemoveNet name)) cur)
    (fun _ d => armed_with a d /\ owned_files (net d) = ∅) E.
Proof using fit_sure.
  intros Hc HE. eapply (h_conseq _ _ (fun d => armed_with a d /\ emptied cur [] d) _ _ (fun _ d => armed_with a d /\ emptied cur cur d)); [|done| |by intros d Hd].
  - apply (h_each fit (fun k d => armed_with a d /\ emptied cur k d)). intros k n k' Ek. assert (ownedPersistName n = true) as Hn by (apply (proj1 (Forall_forall _ _) Hc); set_solver).
    apply h_drop; [|by intros Ht d [Hd _]; apply HE]. intros d [Hd He]. split; [by apply drop_net_armed|]. intros i. cbn. rewrite (proj1 (owned_delete (net d) n Hn)).
    destruct (decide (i = n)) as [->|Hi]; [by rewrite lookup_delete_eq; intros []|]. rewrite lookup_delete_ne by done. intros Hs. destruct (He i Hs). set_solver.
  - intros ? d [Hd He]. split; [done|]. apply map_eq. intros n. rewrite lookup_empty. apply eq_None_not_Some. intros Hs. by destruct (He n Hs).
Qed.

Lemma replaceDir_holds a (E : disk -> Prop) : (trouble fit -> forall d, armed_with a d -> E d) ->
  holds fit (armed_with a) (replaceDir (aSnapshotDir a)) (fun _ d => armed_with a d /\ net d = net d0) E.
Proof using fit_sure.
  intros HE. pose proof sure_fit_quiet as Hq. unfold replaceDir. eapply h_bind; [by apply (h_change _ Hq _ _ (fun _ => armed_with a))|]. intros ?.
  eapply h_bind.
  { apply (h_read _ Hq (armed_with a) _ (fun cur d => Forall (fun n => ownedPersistName n = true) cur /\ armed_with a d /\ emptied cur [] d)); [|exact HE].
    intros d Hd. split; [|split; [done|]].
    - apply Forall_forall. intros n. rewrite entries_names, owned_lookup. destruct (ownedPersistName n); [done|by intros []].
    - intros n Hn. split; [by apply entries_names|by apply not_elem_of_nil]. }
  intros cur. apply h_pure. intros Hc. eapply h_bind; [by apply remove_owned_holds|]. intros ?.
  eapply (h_conseq _ _ (fun d => armed_with a d /\ owned_files (net d) = ∅) _ _ (fun _ d => armed_with a d /\ owned_files (net d) = owned_files (net d0))); [|done| |done].
  - apply (h_copy fit Hq (fun d => s_files (default no_snap (snaps d !! aSnapshotDir a))) put_net (fun d => owned_files (net d)) (armed_with a)); [| |exact HE].
    + intros d (_ & _ & _ & -> & _). apply owned_idem.
    + intros d Hd n b s Hb. rewrite owned_lookup in Hb. destruct (ownedPersistName n) eqn:Hn; [|done]. split; [by apply put_net_armed|]. by apply owned_insert.
  - intros ? d [Hd Ho]. split; [done|]. apply net_split; [done|apply Hd].
Qed.

Lemma restoreSnapshot_holds a (E : disk -> Prop) : (trouble fit -> forall d, armed_with a d -> E d) -> (forall d, armed_with a d -> net d = net d0 -> E d) ->
  holds fit (armed_with a) (restoreSnapshot a) (fun _ => still) E.
Proof using fit_sure.
  intros HE Hr. set (R := fun d => armed_with a d /\ net d = net d0).
  unfold restoreSnapshot. destruct (_ || _) eqn:Ed.
  { apply h_fail. intros d (_ & _ & _ & _ & H1 & H2). apply orb_true_iff in Ed. rewrite !bool_decide_eq_true in Ed. tauto. }
  eapply h_bind; [by apply replaceDir_holds|]. intros ?. fold R.
  assert (keeps fit R (restoreHostManagers (aSnapshotDir a) ≫= fun _ => reloadNetworkd)) as Hk.
  { unfold restoreHostManagers, reloadNetworkd, WriteEtc. pose proof sure_fit_quiet as Hq. repeat keep1; done. }
  eapply h_conseq; [exact Hk|done| |by intros d [? ?]; apply Hr]. intros ? d [Ha Hn]. by apply (still_armed a).
Qed.

Lemma RestoreActive_holds (E : disk -> Prop) : (trouble fit -> forall d, undoable d -> E d) -> (forall d, still d -> E d) ->
  holds fit undoable RestoreActive (fun _ => still) E.
Proof using fit_sure.
  intros HE Hs. pose proof sure_fit_quiet as Hq. assert (forall a, holds fit (armed_with a) (restoreSnapshot a ≫= fun _ => clearRollback) (fun _ => still) E) as H1.
  { intros a. eapply (h_bind _ _ _ _ (fun _ => still)); [|intros ?; eapply h_conseq; [apply (clear_still fit Hq)|done|done|exact Hs]].
    apply restoreSnapshot_holds; [|intros d Hd Hn; apply Hs; by apply (still_armed a)]. intros Ht d Hd. apply HE; [done|]. right. by exists a. }
  unfold RestoreActive, LoadActiveRollback. eapply (h_bind _ _ _ _ armed_with); [|exact H1].
  eapply (h_bind _ _ _ _ (fun r d => undoable d /\ r = active d)); [by apply (h_read _ Hq)|].
  intros r. destruct r as [[a|]|]; [apply h_ret|apply h_fail..].
  - intros d [[(_ & _ & [Hn|Hn])|[a' Ha]] E']; [congruence..|]. pose proof Ha as (_ & _ & Hact & _). rewrite Hact in E'. injection E' as ->. done.
  - intros d [[Hc|[a' (_ & _ & Hact & _)]] E']; [by apply Hs, still_calm|congruence].
  - intros d [[Hc|[a' (_ & _ & Hact & _)]] E']; [by apply Hs, still_calm|congruence].
Qed.
End Restore.
End Rollback.
