(* ===== verification/NetOps.v ===== *)
(** * VLANs, bonds, overlays and policies of a host ([advanced.go], [vlan.go], [bond.go],
    [overlay.go], [policy.go], [teardown.go] of [src/internal/ndnet])

    Each writes or removes files of its own.  One that touches the interface the host is
    managed by needs its name typed, and arms the rollback first. *)
From S2P Require Export NetApply.

Record PolicyRule := mkRule { pID : string; pAction : string; pSrcMAC : string; pDstMAC : string }.
Record AdvancedOp := mkOp {
  oAction : string; oObjectID : string; oNetworkID : string; oName : string; oVID : Z; oParentIfName : string; oMode : string; oAccessIfName : string;
  oMembers : list string; oSrcMAC : string; oDstMAC : string; oPolicyAction : string; oPolicies : list PolicyRule; oOverlayVNI : Z;
  oConfirmIfName : string; oBridgeName : string }.

Definition ParseVID (vid : Z) : bool := (1 <=? vid) && (vid <=? 4094).
Definition VLANAccess : string := "access".
Definition VLANTrunk : string := "trunk".
Definition BondActiveBackup : string := "active-backup".
Definition BondLACP : string := "802.3ad".
Definition ParseVLANMode (mode : string) : option string :=
  let m := TrimSpace mode in
  if bool_decide (m = ""%string) || bool_decide (m = VLANAccess) then Some VLANAccess else if decide (m = VLANTrunk) then Some VLANTrunk else None.
Definition ParseBondMode (mode : string) : option string :=
  let m := TrimSpace mode in
  if bool_decide (m = ""%string) || bool_decide (m = BondActiveBackup) then Some BondActiveBackup
  else if bool_decide (m = BondLACP) || bool_decide (m = "lacp"%string) then Some BondLACP else None.
Definition firstNonEmptyIf (l : list string) : string := default "" (find (fun s => negb (bool_decide (TrimSpace s = ""%string))) l).
Definition BridgeBin : string := "/usr/sbin/bridge".
Definition refuseShellArgv (argv : list string) : bool :=
  let joined := join_with " " argv in
  negb (Contains joined "bash" || Contains joined "/bin/sh") &&
  match argv with a :: _ => bool_decide (a ∈ [BridgeBin; "/usr/sbin/nft"; "/usr/bin/networkctl"]%string) | [] => false end.
Definition VLANAccessArgv (dev : string) (vid : Z) : option (list string) :=
  if negb (ValidIfName dev) || negb (ParseVID vid) then None
  else let argv := [BridgeBin; "vlan"; "add"; "dev"; dev; "vid"; Itoa vid; "pvid"; "untagged"]%string in
       if refuseShellArgv argv then Some argv else None.

Section NetOps.
Context `{CaseTables} (parse_uuid : string -> option string).

(** The name of an object's interface. *)
Definition locator (prefix id : string) : option string :=
  (fun u => prefix +:+ ofBytes (take 8 (filter (fun a => a <> "-"%char) (bytes u)))) <$> parse_uuid (TrimSpace id).
Definition VLANName : string -> option string := locator "ndlv".
Definition BondName : string -> option string := locator "ndlb".
Definition OverlayName : string -> option string := locator "ndlo".

Definition vlanFiles (op : AdvancedOp) (vlanIf parent : string) : list (string * string) :=
  let id := ToLower (TrimSpace (oObjectID op)) in
  let bridge := if bool_decide (oBridgeName op <> ""%string) && ValidIfName (oBridgeName op) then ["Bridge=" +:+ oBridgeName op]%string else [] in
  [(persistName id "-vlan.netdev", lines ["[NetDev]"; "Name=" +:+ vlanIf; "Kind=vlan"; ""; "[VLAN]"; "Id=" +:+ Itoa (oVID op)]);
   (persistName id "-vlan.network", lines (["[Match]"; "Name=" +:+ vlanIf; ""; "[Network]"] ++ bridge));
   (persistName id "-parent.network", lines ["[Match]"; "Name=" +:+ parent; ""; "[Network]"; "VLAN=" +:+ vlanIf])]%string.
Definition bondFiles (id bondIf mode : string) (members : list string) : list (string * string) :=
  let primary := match members with m :: _ => if decide (mode = BondActiveBackup) then ["PrimarySlave=" +:+ m]%string else [] | [] => [] end in
  [(persistName id "-bond.netdev", lines (["[NetDev]"; "Name=" +:+ bondIf; "Kind=bond"; ""; "[Bond]"; "Mode=" +:+ mode; "MIIMonitorSec=1s"] ++ primary));
   (persistName id "-bond.network", lines ["[Match]"; "Name=" +:+ bondIf; ""; "[Network]"; "BindCarrier=" +:+ join_with " " members])]%string ++
  imap (fun i m => (persistName id ("-m" +:+ Itoa (Z.of_nat i) +:+ ".network"), lines ["[Match]"; "Name=" +:+ m; ""; "[Network]"; "Bond=" +:+ bondIf])) members.
Definition overlayFiles (id ifname : string) (vni : Z) : list (string * string) :=
  [(persistName id "-vxlan.netdev", lines ["[NetDev]"; "Name=" +:+ ifname; "Kind=vxlan"; ""; "[VXLAN]"; "VNI=" +:+ Itoa vni; "Independent=true"]);
   (persistName id "-vxlan.network", lines ["[Match]"; "Name=" +:+ ifname; ""; "[Network]"; "LinkLocalAddressing=no"])]%string.

(** ** The guard of the management path *)
Definition arming_plan (id : string) (view : HostView) : Plan :=
  mkPlan id "" "" "" "" "" "" "" "" "" false [] "" "" (mkClass DangerSafe "" false "" "" 0 false) (ManagementIfIndex view) (managementName view) [].
Definition maybeArm (dangerous : bool) (confirm typed : string) (view : HostView) (id : string) : M bool :=
  if negb dangerous then mret false
  else if negb (ValidIfName confirm && sameIface confirm typed) then fail (Text ("typed interface confirmation is required: type " +:+ typed))
  else armed_rollback (arming_plan id view) view ≫= fun _ => mret true.
Definition undo (armed : bool) : M unit := if armed then ignore RestoreActive else mret ().
Definition probe_after (armed : bool) (name : string) (index : Z) : M unit :=
  if negb armed then mret ()
  else
    after ← attempt host;
    let after := default no_host after in
    if ProbeManagement after name index (ManagementAddresses after) then mret () else ignore RestoreActive ≫= fun _ => fail ProbeFailed.

(** ** The operations: whether the rollback was armed *)
Definition applyVLAN (op : AdvancedOp) : M bool :=
  if negb (ParseVID (oVID op)) then fail (Text "vlan id must be 1-4094")
  else match VLANName (oObjectID op) with
  | None => fail (Text "vlan id must be a UUID")
  | Some vlanIf =>
      let parent := if decide (TrimSpace (oParentIfName op) = ""%string) then TrimSpace (oBridgeName op) else TrimSpace (oParentIfName op) in
      if negb (ValidIfName (TrimSpace parent)) then fail (Text "vlan parent interface is required")
      else match ParseVLANMode (oMode op) with
      | None => fail (Text "vlan mode must be access or trunk")
      | Some mode =>
          view ← host;
          armed ← maybeArm (touchesManagement view [parent; oAccessIfName op]) (oConfirmIfName op) (firstNonEmptyIf [parent; oAccessIfName op]) view (oObjectID op);
          on_failure (undo armed) (writeOwned (vlanFiles op vlanIf parent)) ≫= fun _ =>
          (if bool_decide (mode = VLANAccess) && negb (bool_decide (oAccessIfName op = ""%string)) then
             match VLANAccessArgv (oAccessIfName op) (oVID op) with
             | None => fail (Text "access interface name is not valid")
             | Some _ => on_failure (undo armed) run
             end
           else mret ()) ≫= fun _ =>
          on_failure (undo armed) reloadNetworkd ≫= fun _ =>
          probe_after armed (managementName view) (ManagementIfIndex view) ≫= fun _ =>
          mret armed
      end
  end.
Definition ParseBondMembers (bondIf : string) (members : list string) : bool :=
  bool_decide (members <> []) && forallb (fun m => ValidIfName m && negb (bool_decide (m = bondIf))) members.
Definition applyBond (op : AdvancedOp) : M bool :=
  match ParseBondMode (oMode op), BondName (oObjectID op) with
  | Some mode, Some bondIf =>
      if negb (ParseBondMembers bondIf (oMembers op)) then fail (Text "bond members")
      else
        view ← host;
        armed ← maybeArm (touchesManagement view (oMembers op)) (oConfirmIfName op) (default "" (head (oMembers op))) view (oObjectID op);
        on_failure (undo armed) (writeOwned (bondFiles (ToLower (oObjectID op)) bondIf mode (oMembers op))) ≫= fun _ =>
        on_failure (undo armed) reloadNetworkd ≫= fun _ =>
        probe_after armed (managementName view) (ManagementIfIndex view) ≫= fun _ =>
        mret armed
  | _, _ => fail (Text "bond")
  end.
Definition applyOverlay (op : AdvancedOp) : M bool :=
  if (oOverlayVNI op =? 0) || (16777215 <? oOverlayVNI op) then fail (Text "overlay vni is invalid")
  else match OverlayName (oObjectID op) with
       | None => fail (Text "overlay id must be a UUID")
       | Some ifname => writeOwned (overlayFiles (ToLower (oObjectID op)) ifname (oOverlayVNI op)) ≫= fun _ => mret false
       end.

(** *** Policies between guests *)
Definition PolicyTable : string := "ndl-policy".
Definition policyRules (op : AdvancedOp) : list PolicyRule :=
  match oPolicies op with [] => [mkRule (oObjectID op) (oPolicyAction op) (oSrcMAC op) (oDstMAC op)] | l => l end.
Definition policyVerdict (action : string) : option string :=
  let act := ToLower (TrimSpace action) in
  if bool_decide (act ∈ ["allow"; "accept"]%string) then Some "accept"%string else if bool_decide (act ∈ ["deny"; "drop"]%string) then Some "drop"%string else None.
Definition policy_lines (item : PolicyRule) : option (list string) :=
  match macString <$> ParseMAC (TrimSpace (pSrcMAC item)), macString <$> ParseMAC (TrimSpace (pDstMAC item)) with
  | Some src, Some dst =>
      if decide (src = dst) then None
      else match policyVerdict (pAction item) with
      | None => None
      | Some verdict =>
          let q := String quote "" in
          let id := TrimSpace (pID item) in
          Some ["    ether saddr " +:+ src +:+ " ether daddr " +:+ dst +:+ " " +:+ verdict +:+ " comment " +:+ q +:+ "ndl-policy-" +:+ id +:+ q;
                "    ether saddr " +:+ dst +:+ " ether daddr " +:+ src +:+ " " +:+ verdict +:+ " comment " +:+ q +:+ "ndl-policy-" +:+ id +:+ "-rev" +:+ q]%string
      end
  | _, _ => None
  end.
Definition RefuseManagementINPUT (rules mgmtIf : string) : bool :=
  let low := ToLower rules in
  let q := String quote "" in
  negb (Contains low "hook input" || Contains low "type filter hook input" ||
        (bool_decide (mgmtIf <> ""%string) && ValidIfName mgmtIf && (Contains low ("iifname " +:+ q +:+ ToLower mgmtIf +:+ q) || Contains low ("iifname " +:+ ToLower mgmtIf))) ||
        (Contains low "chain input" && Contains low "policy drop")).
Definition RenderBridgePolicies (items : list PolicyRule) (mgmtIf : string) : option string :=
  if decide (items = []) then None
  else match mapM policy_lines items with
       | None => None
       | Some rules =>
           let s := lines (["table bridge " +:+ PolicyTable +:+ " {"; "  chain forward {"; "    type filter hook forward priority 0; policy accept;"]%string ++ concat rules ++ ["  }"; "}"]%string) in
           if RefuseManagementINPUT s mgmtIf then Some s else None
       end.
Definition applyPolicy (op : AdvancedOp) : M bool :=
  view ← host;
  match RenderBridgePolicies (policyRules op) (managementName view) with
  | None => fail (Text "policy")
  | Some rules =>
      writeNFTNamed "ndl-policy.nft" rules ≫= fun _ =>
      run ≫= fun _ =>
      ignore run ≫= fun _ =>
      run ≫= fun _ => mret false
  end.
Definition clearPolicies (op : AdvancedOp) : M bool := ignore run ≫= fun _ => removeNFT "ndl-policy.nft" ≫= fun _ => mret false.

(** *** Removing *)
Definition ownedFilesWithPrefix (id : string) (suffixes : list string) (d : disk) : list string :=
  filter (fun name => Is_true (ownedPersistName name && existsb (fun suffix => HasPrefix (ToLower name) (persistName id suffix)) suffixes)) (map fst (entries (net d))).
Definition removeAdvanced (op : AdvancedOp) (ifname : string) (guard suffixes : list string) : M bool :=
  let id := ToLower (TrimSpace (oObjectID op)) in
  if decide (id = ""%string) then fail (Text "object_id is required")
  else
    '(armed, view) ← (if decide (guard = []) then mret (false, no_host)
      else view ← host;
           armed ← maybeArm (touchesManagement view guard) (oConfirmIfName op) (firstNonEmptyIf guard) view (oObjectID op);
           mret (armed, view) : M (bool * HostView));
    names ← look (ownedFilesWithPrefix id suffixes);
    each RemoveNet names ≫= fun _ =>
    (if bool_decide (ifname <> ""%string) && ValidIfName ifname then ignore run else mret ()) ≫= fun _ =>
    on_failure (undo armed) reloadNetworkd ≫= fun _ =>
    probe_after armed (managementName view) (ManagementIfIndex view) ≫= fun _ =>
    mret armed.
Definition removeVLAN (op : AdvancedOp) : M bool :=
  match VLANName (oObjectID op) with
  | None => fail (Text "vlan id must be a UUID")
  | Some vlanIf =>
      (if bool_decide (oMode op = VLANAccess) && bool_decide (oAccessIfName op <> ""%string) && ValidIfName (oAccessIfName op) && ParseVID (oVID op) then ignore run else mret ()) ≫= fun _ =>
      removeAdvanced op vlanIf [oParentIfName op; oAccessIfName op] ["-vlan."; "-parent."]%string
  end.
Definition removeBond (op : AdvancedOp) : M bool :=
  match BondName (oObjectID op) with
  | None => fail (Text "bond id must be a UUID")
  | Some bondIf => removeAdvanced op bondIf (bondIf :: oMembers op) ["-bond."; "-m"]%string
  end.
Definition removeOverlay (op : AdvancedOp) : M bool :=
  match OverlayName (oObjectID op) with
  | None => fail (Text "overlay id must be a UUID")
  | Some ifname => removeAdvanced op ifname [] ["-vxlan."]%string
  end.
Definition deleteNetworkAdvanced (op : AdvancedOp) : M bool :=
  let id := if decide (TrimSpace (oNetworkID op) = ""%string) then TrimSpace (oObjectID op) else TrimSpace (oNetworkID op) in
  if decide (id = ""%string) then fail (Text "network_id is required")
  else Delete parse_uuid (mkSpec id (oName op) "" "" "" "" []) ≫= fun _ => mret false.

Definition ApplyAdvanced (op : AdvancedOp) : M bool :=
  let action := ToLower (TrimSpace (oAction op)) in
  if decide (action = "vlan-add"%string) then applyVLAN op
  else if decide (action = "bond-add"%string) then applyBond op
  else if decide (action = "policy-apply"%string) then applyPolicy op
  else if decide (action = "overlay-prep"%string) then applyOverlay op
  else if decide (action = "network-delete"%string) then deleteNetworkAdvanced op
  else if decide (action = "vlan-remove"%string) then removeVLAN op
  else if decide (action = "bond-remove"%string) then removeBond op
  else if decide (action = "overlay-remove"%string) then removeOverlay op
  else if decide (action = "policy-clear"%string) then clearPolicies op
  else fail (Text "advanced network action is unsupported").
End NetOps.
