(* ===== verification/NetSafety.v ===== *)
(** * What becomes of a change to the management path

    A change that touches the interface a host is managed by needs that interface's name
    typed, and it comes undone unless the management path answers. *)
From S2P Require Export NetOps NetProps.

(** ** Changes and attempts to undo them *)
Inductive net_change := Lan (spec : Spec) | Advanced (op : AdvancedOp).

Section Changes.
Context `{CaseTables} (parse_uuid : string -> option string).

Definition perform (c : net_change) : M unit :=
  match c with Lan spec => Apply parse_uuid spec ≫= fun _ => mret () | Advanced op => ApplyAdvanced parse_uuid op ≫= fun _ => mret () end.

(** The interfaces an operation on VLANs or bonds names, and the one to type. *)
Definition action_of (op : AdvancedOp) : string := ToLower (TrimSpace (oAction op)).
Definition vlan_parent (op : AdvancedOp) : string := if decide (TrimSpace (oParentIfName op) = ""%string) then TrimSpace (oBridgeName op) else TrimSpace (oParentIfName op).
Definition named (op : AdvancedOp) : list string :=
  if decide (action_of op = "vlan-add"%string) then [vlan_parent op; oAccessIfName op]
  else if decide (action_of op = "bond-add"%string) then oMembers op
  else if decide (action_of op = "vlan-remove"%string) then [oParentIfName op; oAccessIfName op]
  else if decide (action_of op = "bond-remove"%string) then default "" (BondName parse_uuid (oObjectID op)) :: oMembers op
  else [].
(** A change that takes the management path, seen from [view]: a bridge always counts. *)
Definition takes_management (c : net_change) (view : HostView) : Prop :=
  match c with Lan spec => sKind spec = KindLANBridge | Advanced op => touchesManagement view (named op) = true end.
Definition guarded (c : net_change) : Prop := match c with Lan spec => sKind spec = KindLANBridge | Advanced op => named op <> [] end.
Definition faces (R : HostView -> Prop) (o : outside) : Prop := forall n v, host_at o n = Some v -> R v.

Inductive attempt_kind := Watchdog (rounds : nat) | AgentStart.
Definition try_undo (k : attempt_kind) : M verdict := match k with Watchdog rounds => watchdog rounds | AgentStart => RecoverStale end.
Definition try_on (a : attempt_kind * outside) (d : disk) : outcome verdict * disk := let '(r, (d, _)) := try_undo a.1 a.2 (d, 0%nat) in (r, d).
(** Attempts, one process after the other; none when one found that the path answers. *)
Fixpoint unanswered (l : list (attempt_kind * outside)) (d : disk) : option disk :=
  match l with
  | [] => Some d
  | a :: l => match try_on a d with (Done Answered, _) => None | (_, d) => unanswered l d end
  end.

(** ** The invariant *)
Section Undo.
Context (d0 : disk).
Notation calm := (calm d0). Notation armed_with := (armed_with d0). Notation undoable := (undoable d0). Notation still := (still d0).
Definition armed (d : disk) : Prop := exists a, armed_with a d.

Lemma armed_undoable d : armed d -> undoable d.
Proof using Type. by right. Qed.
Lemma calm_undoable d : calm d -> undoable d.
Proof using Type. by left. Qed.
Lemma still_undoable d : still d -> undoable d.
Proof using Type. by intros [_ ?]. Qed.

Section Fit.
Context (fit : outside -> Prop) (fit_sure : forall o, fit o -> sure o).
Lemma fit_quiet o : fit o -> quiet o.
Proof using fit_sure. intros Ho. by apply sure_still, fit_sure. Qed.
(** Programs that leave the network's files, the copies and the rollback alone. *)
Definition aside (I : disk -> Prop) : Prop :=
  forall d, I d -> (forall v, I (set_etc v d)) /\ (forall v, I (set_resolv_backup v d)) /\ (forall v, I (set_dnsmasq v d)) /\ (forall v, I (set_nft v d)) /\
    (forall v, I (set_origin v d)) /\ (forall v, I (set_sysctl v d)) /\ (forall v, I (set_forwarding v d)).
Lemma aside_calm : aside calm. Proof using Type. intros d Hd. repeat split; apply Hd. Qed.
Lemma aside_armed : aside armed. Proof using Type. intros d [a Ha]. repeat split; intros v; exists a; exact Ha. Qed.
Lemma keeps_checkNFT I plan : aside I -> keeps fit I (checkNFT plan).
Proof using fit_sure. intros Hi. pose proof fit_quiet. unfold checkNFT, writeNFTNamed, removeNFT. repeat keep1; intros; by try apply Hi. Qed.
Lemma keeps_inspect I uplink : keeps fit I (InspectHostManagers uplink).
Proof using fit_sure. pose proof fit_quiet. unfold InspectHostManagers. repeat keep1. Qed.
Lemma keeps_mac I plan view : keeps fit I (ensureLANBridgeMAC plan view).
Proof using fit_sure. pose proof fit_quiet. unfold ensureLANBridgeMAC. repeat keep1. Qed.
Lemma keeps_resolv I : aside I -> keeps fit I backupResolvIfPresent.
Proof using fit_sure. intros Hi. pose proof fit_quiet. unfold backupResolvIfPresent. repeat keep1; intros; by try apply Hi. Qed.
Lemma keeps_migrate I uplink l : aside I -> keeps fit I (migrateUplinkManagers uplink l).
Proof using fit_sure.
  intros Hi. pose proof fit_quiet. unfold migrateUplinkManagers, migrate_one, migrateIfupdownFile, migrateDhcpcd, migrateNetworkManager, preserveResolvNameservers, WriteEtc.
  repeat keep1; intros; by try apply Hi.
Qed.
Lemma keeps_reload I : keeps fit I reloadNetworkd.
Proof using fit_sure. pose proof fit_quiet. unfold reloadNetworkd. repeat keep1. Qed.

(** No-dal's files may change while the rollback is armed. *)
Lemma armed_put n b d : ownedPersistName n = true -> armed d -> armed (put_net n b d).
Proof using Type. intros Hn [a Ha]. exists a. by apply put_net_armed. Qed.
Lemma armed_drop n d : ownedPersistName n = true -> armed d -> armed (set_net (delete n (net d)) d).
Proof using Type. intros Hn [a Ha]. exists a. by apply drop_net_armed. Qed.
Lemma keeps_write files : keeps fit armed (writeOwned files).
Proof using fit_sure.
  pose proof fit_quiet. unfold writeOwned, WriteNet. keep1; [by keep1|]. keep1. destruct (ownedPersistName _) eqn:E; repeat keep1. intros. by apply armed_put.
Qed.
Lemma keeps_remove_set id : keeps fit armed (removeOwnedNetworkSet id).
Proof using fit_sure.
  pose proof fit_quiet. unfold removeOwnedNetworkSet, RemoveNet. keep1; [keep1|]. keep1. cbn zeta. destruct (ownedPersistName _) eqn:E; repeat keep1. intros. by apply armed_drop.
Qed.
Lemma keeps_release uplink id : keeps fit armed (releaseStaleUplinkClaims uplink id).
Proof using fit_sure. pose proof fit_quiet. unfold releaseStaleUplinkClaims. keep1; [keep1|]. keep1. apply keeps_remove_set. Qed.

(** *** A program under the armed rollback *)
Lemma restore_undoable : holds fit armed (ignore RestoreActive) (fun _ => undoable) undoable.
Proof using fit_sure.
  eapply h_ignore; [eapply h_conseq; [apply (RestoreActive_holds d0 fit fit_sure undoable)|exact armed_undoable|done|done]|by intros _ d [_ ?]|done]; [done|by intros d [_ ?]].
Qed.
Lemma undone {A} (p : M A) : keeps fit armed p -> holds fit armed (on_failure (ignore RestoreActive) p) (fun _ => armed) undoable.
Proof using fit_sure. intros Hp. eapply h_on_failure; [exact Hp|exact restore_undoable|exact armed_undoable]. Qed.
Lemma arm_armed plan view : holds fit calm (armed_rollback plan view) (fun _ => armed) undoable.
Proof using fit_sure.
  unfold armed_rollback. eapply h_bind; [apply arm_holds; exact fit_quiet|]. intros a.
  eapply (h_conseq fit _ (fun d => net d = net d0 /\ armed_with a d)); [|done|by intros ? d Hd; apply Hd|done].
  eapply (h_on_failure fit _ _ _ _ (fun d => net d = net d0 /\ armed_with a d)).
  - eapply h_conseq; [apply (k_run fit fit_quiet (fun d => net d = net d0 /\ armed_with a d))|done| |done]. intros ? d [_ Ha]. by exists a.
  - eapply h_conseq; [apply clear_still; exact fit_quiet| |intros ? d; apply still_undoable|apply still_undoable]. intros d [Hn Ha]. by apply (still_armed d0 a).
  - intros d [_ Ha]. right. by exists a.
Qed.

Lemma apply_lan_holds plan view : holds fit calm (apply_lan plan view) (fun _ => undoable) undoable.
Proof using fit_sure.
  assert (forall {A} (m : M A) (f : A -> M ApplyResult), keeps fit calm m -> (forall a, holds fit calm (f a) (fun _ => undoable) undoable) -> holds fit calm (m ≫= f) (fun _ => undoable) undoable) as Hb.
  { intros A m f Hm Hf. eapply h_bind; [eapply h_conseq; [exact Hm|done|done|exact calm_undoable]|exact Hf]. }
  pose proof fit_quiet as Hq. unfold apply_lan. apply Hb; [apply keeps_inspect|]. intros managers. destruct (bool_decide _); [apply h_fail, calm_undoable|].
  apply Hb; [by keep1|]. intros same. destruct (same && _).
  - apply Hb; [apply k_ignore, keeps_mac|]. intros ?. apply h_ret, calm_undoable.
  - apply Hb; [apply keeps_resolv, aside_calm|]. intros ?. eapply h_bind; [apply arm_armed|]. intros ?.
    eapply h_conseq; [apply undone|done|intros ? d; apply armed_undoable|done].
    keep1; [apply keeps_migrate, aside_armed|]. keep1; [apply keeps_release|]. keep1; [by keep1|].
    destruct (_ && _); [keep1; [apply k_ignore, keeps_mac|keep1]|]. keep1; [apply keeps_write|]. keep1; [apply keeps_reload|]. keep1; [apply k_ignore, keeps_mac|].
    unfold finish_lan, stopUnit. repeat keep1.
Qed.

(** *** VLANs and bonds *)
Lemma maybeArm_holds confirm typed view id : holds fit calm (maybeArm true confirm typed view id) (fun b d => b = true /\ armed d) undoable.
Proof using fit_sure.
  unfold maybeArm. cbn [negb]. destruct (_ && _); cbn [negb]; [|apply h_fail, calm_undoable].
  eapply h_bind; [apply arm_armed|]. intros ?. by apply h_ret.
Qed.
Lemma probe_after_holds name index : holds fit armed (probe_after true name index) (fun _ => armed) undoable.
Proof using fit_sure.
  pose proof fit_quiet as Hq. unfold probe_after. cbn [negb]. eapply (h_bind _ _ _ _ (fun _ => armed)).
  - eapply h_conseq; [apply k_attempt, (k_host fit Hq armed)|done|done|exact armed_undoable].
  - intros after. destruct (ProbeManagement _ _ _ _); [by apply h_ret|]. eapply h_bind; [apply restore_undoable|]. intros ?. by apply h_fail.
Qed.
(** Steps under the armed rollback, undone or not when they fail. *)
Lemma armed_step {A B} (m : M A) (f : A -> M B) : keeps fit armed m -> (forall a, holds fit armed (f a) (fun _ => armed) undoable) -> holds fit armed (m ≫= f) (fun _ => armed) undoable.
Proof using Type. intros Hm Hf. eapply h_bind; [eapply h_conseq; [exact Hm|done|done|exact armed_undoable]|exact Hf]. Qed.
Lemma undo_step {B} (m : M unit) (f : unit -> M B) : keeps fit armed m -> (forall a, holds fit armed (f a) (fun _ => armed) undoable) ->
  holds fit armed (on_failure (undo true) m ≫= f) (fun _ => armed) undoable.
Proof using fit_sure. intros Hm Hf. eapply h_bind; [by apply undone|exact Hf]. Qed.
Lemma armed_end {A} (m : M A) : holds fit armed m (fun _ => armed) undoable -> holds fit armed m (fun _ => undoable) undoable.
Proof using Type. intros Hm. eapply h_conseq; [exact Hm|done|intros ? d; apply armed_undoable|done]. Qed.

Context (R : HostView -> Prop) (fit_faces : forall o, fit o -> faces R o).
Lemma host_holds {B} (f : HostView -> M B) : (forall view, R view -> holds fit calm (f view) (fun _ => undoable) undoable) -> holds fit calm (host ≫= f) (fun _ => undoable) undoable.
Proof using fit_sure fit_faces.
  intros Hf. eapply (h_bind _ _ _ _ (fun v d => R v /\ calm d)); [|intros view; apply h_pure; apply Hf].
  apply h_call; [exact fit_quiet|]. intros o n d Ho Hd. split; [intros _; by left|]. destruct (host_at o n) as [v|] eqn:E; [|by left]. split; [|done]. by eapply fit_faces.
Qed.
(** The rest of an operation that arms first. *)
Lemma arms_first {B} confirm typed view id b (f : bool -> M B) : b = true -> (holds fit armed (f true) (fun _ => armed) undoable) ->
  holds fit calm (maybeArm b confirm typed view id ≫= f) (fun _ => undoable) undoable.
Proof using fit_sure.
  intros -> Hf. eapply h_bind; [apply maybeArm_holds|]. intros b. apply h_pure. intros ->. by apply armed_end.
Qed.

Lemma applyVLAN_holds op : (forall v, R v -> touchesManagement v [vlan_parent op; oAccessIfName op] = true) -> holds fit calm (applyVLAN parse_uuid op) (fun _ => undoable) undoable.
Proof using fit_sure fit_faces.
  intros HR. pose proof fit_quiet as Hq. unfold applyVLAN. fold (vlan_parent op). destruct (negb (ParseVID _)); [apply h_fail, calm_undoable|].
  destruct (VLANName _ _); [|apply h_fail, calm_undoable]. cbn zeta. destruct (negb (ValidIfName _)); [apply h_fail, calm_undoable|].
  destruct (ParseVLANMode _); [|apply h_fail, calm_undoable]. apply host_holds. intros view Hv. apply arms_first; [by apply HR|].
  apply undo_step; [apply keeps_write|]. intros ?. eapply (h_bind _ _ _ _ (fun _ => armed)).
  - destruct (_ && _); [|by apply h_ret]. destruct (VLANAccessArgv _ _); [|apply h_fail, armed_undoable]. apply undone. by keep1.
  - intros ?. apply undo_step; [apply keeps_reload|]. intros ?. eapply h_bind; [apply probe_after_holds|]. intros ?. by apply h_ret.
Qed.
Lemma applyBond_holds op : (forall v, R v -> touchesManagement v (oMembers op) = true) -> holds fit calm (applyBond parse_uuid op) (fun _ => undoable) undoable.
Proof using fit_sure fit_faces.
  intros HR. unfold applyBond. destruct (ParseBondMode _); [|apply h_fail, calm_undoable]. destruct (BondName _ _); [|apply h_fail, calm_undoable].
  destruct (negb _); [apply h_fail, calm_undoable|]. apply host_holds. intros view Hv. apply arms_first; [by apply HR|].
  apply undo_step; [apply keeps_write|]. intros ?. apply undo_step; [apply keeps_reload|]. intros ?. eapply h_bind; [apply probe_after_holds|]. intros ?. by apply h_ret.
Qed.
Lemma keeps_remove_names names : Forall (fun n => ownedPersistName n = true) names -> keeps fit armed (each RemoveNet names).
Proof using fit_sure.
  pose proof fit_quiet as Hq. induction 1 as [|n l Hn _ IH]; [by apply k_ret|]. change (each RemoveNet (n :: l)) with (RemoveNet n ≫= fun _ => each RemoveNet l). keep1; [|exact IH]. unfold RemoveNet. keep1. intros d. by apply armed_drop.
Qed.
Lemma removeAdvanced_holds op ifname guard suffixes : guard <> [] -> (forall v, R v -> touchesManagement v guard = true) ->
  holds fit calm (removeAdvanced op ifname guard suffixes) (fun _ => undoable) undoable.
Proof using fit_sure fit_faces.
  intros Hg HR. pose proof fit_quiet as Hq. unfold removeAdvanced. cbn zeta. destruct (decide (_ = ""%string)); [apply h_fail, calm_undoable|].
  rewrite decide_False by done. eapply (h_bind _ _ _ _ (fun x d => x.1 = true /\ armed d)).
  - eapply (h_bind _ _ _ _ (fun v d => R v /\ calm d)).
    { apply h_call; [done|]. intros o n' d Ho Hd. split; [intros _; by left|]. destruct (host_at o n') as [v|] eqn:E; [|by left]. split; [|done]. by eapply fit_faces. }
    intros view. apply h_pure. intros Hv. rewrite (HR view Hv). eapply h_bind; [apply maybeArm_holds|]. intros b. apply h_pure. intros ->. by apply h_ret.
  - intros [b view]. apply h_pure. cbn. intros ->. apply armed_end.
    eapply (h_bind _ _ _ _ (fun names d => Forall (fun n => ownedPersistName n = true) names /\ armed d)).
    { apply h_look; [done| |intros _; exact armed_undoable]. intros d Hd. split; [|done]. apply Forall_forall. intros n'. unfold ownedFilesWithPrefix.
      rewrite list_elem_of_filter. intros [Hp _]. apply Is_true_true, andb_true_iff in Hp. by destruct Hp. }
    intros names. apply h_pure. intros Hn. apply armed_step; [by apply keeps_remove_names|]. intros ?. apply armed_step; [destruct (_ && _); repeat keep1|]. intros ?.
    apply undo_step; [apply keeps_reload|]. intros ?. eapply h_bind; [apply probe_after_holds|]. intros ?. by apply h_ret.
Qed.
Lemma calm_step {A B} (m : M A) (f : A -> M B) : keeps fit calm m -> (forall a, holds fit calm (f a) (fun _ => undoable) undoable) -> holds fit calm (m ≫= f) (fun _ => undoable) undoable.
Proof using Type. intros Hm Hf. eapply h_bind; [eapply h_conseq; [exact Hm|done|done|exact calm_undoable]|exact Hf]. Qed.

Lemma ApplyAdvanced_holds op : named op <> [] -> (forall v, R v -> touchesManagement v (named op) = true) -> holds fit calm (ApplyAdvanced parse_uuid op) (fun _ => undoable) undoable.
Proof using fit_sure fit_faces.
  pose proof fit_quiet as Hq. unfold named, ApplyAdvanced, action_of. cbn zeta. set (act := ToLower (TrimSpace (oAction op))). intros Hn HR.
  destruct (decide (act = "vlan-add"%string)); [by apply applyVLAN_holds|]. destruct (decide (act = "bond-add"%string)); [by apply applyBond_holds|].
  destruct (decide (act = "vlan-remove"%string)) as [E|]; [rewrite E|destruct (decide (act = "bond-remove"%string)) as [E|]; [rewrite E|done]].
  - repeat (rewrite decide_False by done). unfold removeVLAN. destruct (VLANName _ _); [|apply h_fail, calm_undoable].
    apply calm_step; [destruct (_ && _); repeat keep1|]. intros ?. by apply removeAdvanced_holds.
  - repeat (rewrite decide_False by done). unfold removeBond. destruct (BondName _ _) eqn:Eb; [|apply h_fail, calm_undoable].
    apply removeAdvanced_holds; [done|]. by rewrite ?Eb in HR.
Qed.

Lemma BuildPlan_kind spec view plan : BuildPlan parse_uuid spec view = Ok plan -> plKind plan = sKind spec /\ plUplinkIfName plan = TrimSpace (sUplinkIfName spec) /\ plClass plan = Classify spec view.
Proof using Type.
  unfold BuildPlan. destruct (negb (ValidKind _)); [done|]. cbn zeta. destruct (BridgeName _ _) as [br|]; [|done].
  destruct (Isolated (sKind spec)).
  - destruct (of_net (parseIPv4Net _)) as [[? n]|]; cbn [mbind result_mbind]; [|done]. destruct (overlaps n _); [done|].
    destruct (of_net (dhcpRange n)) as [[st sp]|]; cbn [mbind result_mbind]; [|done]. destruct (if bool_decide _ then _ else _) as [eg|]; cbn [mbind result_mbind]; [|done].
    destruct (of_net (ValidateReservations _ _)); cbn [mbind result_mbind]; [|done]. by intros [= <-].
  - destruct (negb (ValidIfName _)); [done|]. destruct (bool_decide (TrimSpace (sUplinkIfName spec) = br)); [done|]. by intros [= <-].
Qed.
End Fit.

Lemma perform_holds c fit : guarded c -> (forall o, fit o -> sure o) -> (forall o, fit o -> faces (takes_management c) o) -> holds fit calm (perform c) (fun _ => undoable) undoable.
Proof using Type.
  intros Hg Hs Hf. destruct c as [spec|op]; cbn [perform guarded takes_management] in *; eapply (h_bind _ _ _ _ (fun _ => undoable)); try (intros ?; by apply h_ret).
  - unfold Apply. apply (host_holds fit Hs _ Hf). intros view _. destruct (BuildPlan _ _ _) as [plan|e] eqn:Ep; [|apply h_fail, calm_undoable].
    apply BuildPlan_kind in Ep as [Hk _]. destruct (_ && _); [apply h_fail, calm_undoable|]. destruct (_ && _); [apply h_fail, calm_undoable|].
    apply calm_step; [destruct (plNAT plan); [apply keeps_checkNFT; [done|apply aside_calm]|by apply k_ret]|]. intros ?.
    rewrite decide_True by congruence. by apply apply_lan_holds.
  - by apply (ApplyAdvanced_holds fit Hs _ Hf).
Qed.

(** *** Attempts *)
Section Attempts.
Context (fit : outside -> Prop) (fit_sure : forall o, fit o -> sure o).
Lemma try_step {A} P (m : M A) (f : A -> M verdict) : (forall d, P d -> undoable d) -> keeps fit P m -> (forall a, holds fit P (f a) (fun _ => undoable) undoable) ->
  holds fit P (m ≫= f) (fun _ => undoable) undoable.
Proof using Type. intros HP Hm Hf. eapply h_bind; [eapply h_conseq; [exact Hm|done|done|exact HP]|exact Hf]. Qed.
Lemma restored_holds : holds fit undoable (RestoreActive ≫= fun _ => mret Restored) (fun _ => undoable) undoable.
Proof using fit_sure.
  eapply h_bind; [apply (RestoreActive_holds d0 fit fit_sure undoable); [done|by intros d [_ ?]]|]. intros ?. by apply h_ret; intros d [_ Hd].
Qed.
Lemma answers_keeps I a : keeps fit I (answers a).
Proof using fit_sure. pose proof (fit_quiet fit fit_sure). unfold answers. repeat keep1. Qed.
End Attempts.

Lemma watch_holds rounds a deadline : holds sure undoable (watch rounds a deadline) (fun _ => undoable) undoable.
Proof using Type.
  pose proof sure_still as Hq. induction rounds as [|rounds IH]; cbn [watch]; [by intros o d n _ Hd|].
  apply try_step; [done|by keep1|]. intros now. apply try_step; [done|by keep1|]. intros ok. destruct ok; [by apply h_ret|]. destruct (now <? deadline).
  - apply try_step; [done|repeat keep1|]. intros [view|]; [destruct (probe a view); [exact IH|by apply restored_holds]|exact IH].
  - apply try_step; [done|by apply answers_keeps|]. intros [|]; [by apply h_ret|by apply restored_holds].
Qed.
Lemma watchdog_holds rounds : holds sure undoable (watchdog rounds) (fun _ => undoable) undoable.
Proof using Type.
  pose proof sure_still as Hq. unfold watchdog. apply try_step; [done|by keep1|]. intros [[a|]|]; [|by apply h_fail|by apply h_ret].
  apply try_step; [done|repeat keep1|]. intros deadline. apply watch_holds.
Qed.

(** The views of the host in which the path of [a] does not answer. *)
Definition deaf (a : ActiveRollback) : HostView -> Prop := fun v => probe a v = false.
Lemma start_calm : holds sure calm RecoverStale (fun _ => undoable) undoable.
Proof using Type.
  pose proof sure_still as Hq. unfold RecoverStale, LoadActiveRollback. eapply (h_bind _ _ _ _ (fun r d => r = None /\ calm d)).
  - eapply h_conseq; [apply (h_attempt sure calm _ (fun _ _ => False) calm)|done| |exact calm_undoable]; [|by intros [a|] d].
    eapply (h_bind _ _ _ _ (fun r d => r = active d /\ calm d)); [by apply (h_read _ Hq)|]. intros r. destruct r as [[a|]|]; [apply h_ret|apply h_fail; by intros d [_ ?]..].
    intros d [E (_ & _ & [?|?])]; congruence.
  - intros r. apply h_pure. intros ->. apply h_ret, calm_undoable.
Qed.
Lemma start_armed a : holds (fun o => sure o /\ faces (deaf a) o) (armed_with a) RecoverStale (fun _ => undoable) undoable.
Proof using Type.
  set (fit := fun o => sure o /\ faces (deaf a) o). assert (forall o, fit o -> sure o) as Hs by by intros o [? _]. pose proof (fit_quiet fit Hs) as Hq.
  assert (forall d, armed_with a d -> undoable d) as Hu by (intros d Hd; right; by exists a).
  unfold RecoverStale, LoadActiveRollback. eapply (h_bind _ _ _ _ (fun r d => (r = None \/ r = Some a) /\ armed_with a d)).
  - eapply h_conseq; [apply (h_attempt fit (armed_with a) _ (fun r d => r = a /\ armed_with a d) (armed_with a))|done| |exact Hu].
    + eapply (h_bind _ _ _ _ (fun r d => r = active d /\ armed_with a d)); [by apply (h_read _ Hq)|]. intros r. destruct r as [[b|]|]; [apply h_ret|apply h_fail; by intros d [_ ?]..].
      intros d [E Ha]. split; [|done]. destruct Ha as (_ & _ & Hact & _). congruence.
    + intros [b|] d; [intros [-> ?]; by split; [right|]|intros ?; by split; [left|]].
  - intros r. apply h_pure. intros [->| ->]; [by apply h_ret|]. apply try_step; [done|by keep1|]. intros ok. destruct ok; [by apply h_ret|].
    apply try_step; [done|by keep1|]. intros now. destruct (_ <? _); [apply try_step; [done|by apply k_run|]; intros ?; by apply h_ret|].
    eapply (h_bind _ _ _ _ (fun up d => up = false /\ armed_with a d)).
    + unfold answers. eapply (h_bind _ _ _ _ (fun v d => (match v with Some v => probe a v = false | None => True end) /\ armed_with a d)).
      * eapply h_conseq; [apply (h_attempt fit (armed_with a) host (fun v d => probe a v = false /\ armed_with a d) (armed_with a))|done| |exact Hu]; [|by intros [v|] d].
        apply (h_call _ Hq). intros o n d [Ho Hf] Hd. split; [done|]. destruct (host_at o n) as [v|] eqn:E; [|done]. split; [by apply (Hf n)|done].
      * intros v. apply h_ret. intros d [Hv Hd]. split; [|done]. by destruct v.
    + intros up. apply h_pure. intros ->. eapply h_pre; [apply (restored_holds fit Hs)|exact Hu].
Qed.

(** What an agent that starts sees of the host. *)
Definition unheard (x : attempt_kind * outside) (d : disk) : Prop :=
  match x.1 with Watchdog _ => True | AgentStart => forall a, active d = Some (Some a) -> faces (deaf a) x.2 end.
Lemma try_undoable x d : sure x.2 -> unheard x d -> undoable d -> undoable (try_on x d).2.
Proof using Type.
  destruct x as [k o]. unfold try_on, unheard. cbn [fst snd]. intros Hs Hu Hd. destruct k as [rounds|]; cbn [try_undo].
  - pose proof (watchdog_holds rounds o d 0%nat Hs Hd) as Hw. by destruct (watchdog rounds o (d, 0%nat)) as [[v|e|] [d' n']].
  - destruct Hd as [Hc|[a Ha]].
    + pose proof (start_calm o d 0%nat Hs Hc) as Hw. by destruct (RecoverStale o (d, 0%nat)) as [[v|e|] [d' n']].
    + pose proof Ha as (_ & _ & Hact & _). pose proof (start_armed a o d 0%nat (conj Hs (Hu a Hact)) Ha) as Hw. by destruct (RecoverStale o (d, 0%nat)) as [[v|e|] [d' n']].
Qed.

(** *** The attempt that runs to its end *)
Definition smooth (o : outside) : Prop := sure o /\ (forall n, stops o n = false) /\ forall n, io_ok o n = true.
Lemma smooth_sure o : smooth o -> sure o.
Proof using Type. by intros [? _]. Qed.
Lemma no_trouble : ~ trouble smooth.
Proof using Type. intros (o & n & (_ & Hs & Hi) & [H1|H1]); congruence. Qed.
Definition restored (d : disk) : Prop := net d = net d0.
Lemma restore_smooth : holds smooth undoable (RestoreActive ≫= fun _ => mret Restored) (fun _ => restored) restored.
Proof using Type.
  eapply (h_bind _ _ _ _ (fun _ => still)); [apply (RestoreActive_holds d0 smooth smooth_sure restored); [by intros Ht%no_trouble|by intros d [? _]]|].
  intros ?. apply h_ret. by intros d [? _].
Qed.
Definition over (r : outcome verdict * (disk * nat)) : Prop := match r with (Done Answered, _) => True | (_, (d, _)) => restored d end.
Lemma over_restore o d n : smooth o -> undoable d -> over ((RestoreActive ≫= fun _ => mret Restored) o (d, n)).
Proof using Type.
  intros Ho Hd. pose proof (restore_smooth o d n Ho Hd) as Hr. destruct ((RestoreActive ≫= _) o (d, n)) as [[[]|e|] [d' n']]; done.
Qed.
Lemma watch_over o a N deadline : smooth o -> (forall n, (N <= n)%nat -> deadline <= clock o n) ->
  forall rounds n d, armed_with a d -> (0 < rounds)%nat -> (N < n + rounds)%nat -> over (watch rounds a deadline o (d, n)).
Proof using Type.
  intros Ho Hc. pose proof Ho as (Hs & Hst & Hio). induction rounds as [|rounds IH]; intros n d Ha Hp Hn; [lia|]. cbn [watch].
  assert (undoable d) as Hu by (right; by exists a). pose proof Ha as (_ & Hok & _).
  unfold mbind, M_bind, time_now, look, call. rewrite (sure_still o Hs), Hst. cbn beta iota zeta. rewrite (sure_still o Hs), Hst. cbn beta iota zeta. rewrite Hok.
  destruct (Z.ltb_spec (clock o n) deadline) as [Hlt|Hge].
  - assert (n < N)%nat by (destruct (decide (n < N)%nat); [done|]; specialize (Hc n ltac:(lia)); lia).
    unfold attempt, host, call. rewrite (sure_still o Hs), Hst. destruct (host_at o (S (S n))) as [view|].
    + destruct (probe a view); [apply IH; [done|lia|lia]|]. by apply over_restore.
    + apply IH; [done|lia|lia].
  - unfold answers, attempt, host, call, mbind, M_bind. rewrite (sure_still o Hs), Hst. destruct (host_at o (S (S n))) as [view|].
    + cbn. destruct (probe a view); [done|]. by apply over_restore.
    + cbn. by apply over_restore.
Qed.

Lemma clear_smooth o d n : smooth o -> clearRollback o (d, n) = (Done tt, (set_okfile false (set_active None d), S (S n))).
Proof using Type.
  intros ([Hq Hr] & Hst & _). unfold clearRollback, ignore, attempt, remove, call, mbind, M_bind, mret, M_ret. by rewrite !Hq, !Hst, !Hr, Hq, Hst.
Qed.
(** An attempt past the deadline of the rollback it finds, that nothing cuts short. *)
Definition completes (x : attempt_kind * outside) (d : disk) : Prop :=
  smooth x.2 /\ forall a, active d = Some (Some a) ->
  match x.1 with
  | Watchdog rounds => exists N, (N < rounds)%nat /\ forall n, (N <= n)%nat -> (if aDeadline a =? 0 then clock x.2 1%nat + ProbeWindow else aDeadline a) <= clock x.2 n
  | AgentStart => forall n, aDeadline a <= clock x.2 n
  end.
Lemma complete_restores x d : completes x d -> undoable d -> (try_on x d).1 <> Done Answered -> restored (try_on x d).2.
Proof using Type.
  destruct x as [k o]. unfold completes, try_on. cbn [fst snd]. intros [Ho Hc] Hd.
  assert (over (try_undo k o (d, 0%nat))) as Hov.
  2: { destruct (try_undo k o (d, 0%nat)) as [[[]|e|] [d' n']]; done. }
  pose proof Ho as (Hs & Hst & Hio). destruct Hd as [Hcalm|[a Ha]].
  - assert (forall b, active d <> Some (Some b)) as Hno by (destruct Hcalm as (_ & _ & [E|E]); rewrite E; congruence).
    destruct k; cbn [try_undo]; unfold watchdog, RecoverStale, LoadActiveRollback, attempt, read_may_fail, mbind, M_bind, call; rewrite (sure_still o Hs), Hst, Hio; cbn beta iota zeta.
    + destruct (active d) as [[b|]|] eqn:E; [by destruct (Hno b)|apply Hcalm..].
    + destruct (active d) as [[b|]|] eqn:E; [by destruct (Hno b)|apply Hcalm..].
  - assert (undoable d) as Hu by (right; by exists a). pose proof Ha as (_ & Hok & Hact & _). specialize (Hc a Hact).
    destruct k as [rounds|]; cbn [try_undo].
    + destruct Hc as (N & HN & Hc). unfold watchdog, read_may_fail, mbind, M_bind, call. rewrite (sure_still o Hs), Hst, Hio. cbn beta iota zeta. rewrite Hact.
      destruct (aDeadline a =? 0).
      * unfold time_now, call. rewrite (sure_still o Hs), Hst. cbn beta iota zeta. apply (watch_over o a N); [done|done|done|lia|lia].
      * apply (watch_over o a N); [done|done|done|lia|lia].
    + unfold RecoverStale, LoadActiveRollback, attempt, read_may_fail, look, time_now, mbind, M_bind, call. rewrite (sure_still o Hs), Hst, Hio. cbn beta iota zeta. rewrite Hact. cbn beta iota zeta.
      unfold mret, M_ret. cbn beta iota zeta. rewrite (sure_still o Hs), Hst. cbn beta iota zeta. rewrite Hok, (sure_still o Hs), Hst. cbn beta iota zeta.
      destruct (Z.ltb_spec (clock o 2) (aDeadline a)); [specialize (Hc 2%nat); lia|].
      unfold answers, attempt, host, call, mbind, M_bind. rewrite (sure_still o Hs), Hst. destruct (host_at o 3) as [view|].
      * cbn. destruct (probe a view); [|by apply over_restore]. by rewrite clear_smooth.
      * cbn. by apply over_restore.
Qed.
End Undo.

(** Attempts one after the other: what the agents among them see, and what they leave. *)
Fixpoint unheard_all (l : list (attempt_kind * outside)) (d : disk) : Prop :=
  match l with [] => True | x :: l => sure x.2 /\ unheard x d /\ unheard_all l (try_on x d).2 end.
Fixpoint after (l : list (attempt_kind * outside)) (d : disk) : disk := match l with [] => d | x :: l => after l (try_on x d).2 end.
Lemma after_undoable d0 l : forall d, undoable d0 d -> unheard_all l d -> undoable d0 (after l d).
Proof using Type.
  induction l as [|x l IH]; intros d Hd; cbn; [done|]. intros (Hs & Hu & Hl). apply IH; [|done]. by apply try_undoable.
Qed.


(** ** Confirmation *)
Definition takes_path (c : net_change) (view : HostView) : Prop :=
  match c with
  | Lan spec => touchesManagement view [TrimSpace (sUplinkIfName spec)] = true \/ (physicalCount view <= 1)%nat
  | Advanced op => touchesManagement view (named op) = true
  end.
Definition confirmation (c : net_change) : string := match c with Lan spec => sConfirmIfName spec | Advanced op => oConfirmIfName op end.
Definition to_type (c : net_change) : string :=
  match c with
  | Lan spec => TrimSpace (sUplinkIfName spec)
  | Advanced op => if decide (action_of op = "bond-add"%string) then default "" (head (oMembers op)) else firstNonEmptyIf (named op)
  end.
Definition confirmed (c : net_change) : bool := ValidIfName (confirmation c) && sameIface (confirmation c) (to_type c).

Lemma Classify_confirm spec view : sKind spec = KindLANBridge -> takes_path (Lan spec) view -> cRequiresConfirm (Classify spec view) = true.
Proof using Type.
  intros Hk Ht. unfold Classify. rewrite Hk. rewrite (bool_decide_eq_false_2 (KindLANBridge <> KindLANBridge)) by (intros E; by apply E). change (Isolated KindLANBridge) with false. cbn zeta.
  cbn [takes_path] in Ht. set (u := TrimSpace (sUplinkIfName spec)) in *.
  destruct (bool_decide (u = ""%string)) eqn:Hu; [done|]. apply bool_decide_eq_false in Hu. destruct (negb (ValidIfName u)); [done|]. destruct (isLoopback u); [done|].
  destruct (_ || _) eqn:Es; [done|]. destruct (bool_decide (physicalCount view <= 1)%nat) eqn:Ep; [done|]. apply bool_decide_eq_false in Ep.
  destruct Ht as [Ht|Ht]; [|by destruct Ep]. unfold touchesManagement in Ht. cbn [existsb] in Ht. rewrite bool_decide_eq_true_2, Es, orb_false_r in Ht by done. cbn in Ht. by rewrite Ht.
Qed.

Section Unconfirmed.
Context (d0 : disk) (R : HostView -> Prop).
Notation same := (fun d => d = d0).
Definition sees (o : outside) : Prop := quiet o /\ faces R o.
Lemma sees_quiet o : sees o -> quiet o.
Proof using Type. by intros [? _]. Qed.
Lemma host_same {B} (f : HostView -> M B) : (forall view, R view -> keeps sees same (f view)) -> keeps sees same (host ≫= f).
Proof using Type.
  intros Hf. eapply (h_bind _ _ _ _ (fun v d => R v /\ d = d0)); [|intros view; apply h_pure; apply Hf].
  apply (h_call _ sees_quiet). intros o n d [Hq Hr] Hd. split; [done|]. destruct (host_at o n) as [v|] eqn:E; [|done]. split; [by apply (Hr n)|done].
Qed.
Lemma unarmed {B} b confirm typed view id (f : bool -> M B) : b = true -> ValidIfName confirm && sameIface confirm typed = false -> keeps sees same (maybeArm b confirm typed view id ≫= f).
Proof using Type. intros -> Hc. unfold maybeArm. rewrite Hc. cbn [negb]. eapply (h_bind _ _ _ _ (fun _ _ => False)); [by apply h_fail|]. by intros ? o d n _ []. Qed.
End Unconfirmed.

Lemma unconfirmed_same c d0 : guarded c -> confirmed c = false -> keeps (sees (takes_path c)) (fun d => d = d0) (perform c).
Proof using Type.
  intros Hg Hc. pose proof (sees_quiet (takes_path c)) as Hq. destruct c as [spec|op]; cbn [perform]; (keep1; [|keep1]).
  - unfold Apply. apply host_same. intros view Hv. destruct (BuildPlan _ _ _) as [plan|e] eqn:Ep; [|keep1]. apply BuildPlan_kind in Ep as (_ & Hu & ->).
    rewrite (Classify_confirm spec view Hg Hv), Hu. unfold confirmed in Hc. cbn [confirmation to_type] in Hc. rewrite Hc. cbn [andb negb]. keep1.
  - cbn [takes_path guarded] in *. unfold named, confirmed, to_type, confirmation, named, ApplyAdvanced, action_of in *. cbn zeta. set (act := ToLower (TrimSpace (oAction op))) in *.
    destruct (decide (act = "vlan-add"%string)) as [E|].
    { rewrite E in *. unfold applyVLAN. fold (vlan_parent op). destruct (negb (ParseVID _)); [keep1|]. destruct (VLANName _ _); [|keep1]. cbn zeta. destruct (negb (ValidIfName (TrimSpace _))); [keep1|].
      destruct (ParseVLANMode _); [|keep1]. apply host_same. intros view Hv. apply unarmed; [|done]. cbn [takes_path] in Hv. unfold named, action_of in Hv. fold act in Hv. by rewrite E in Hv. }
    destruct (decide (act = "bond-add"%string)) as [E|].
    { rewrite E in *. unfold applyBond. destruct (ParseBondMode _); [|keep1]. destruct (BondName _ _); [|keep1]. destruct (negb _); [keep1|]. apply host_same. intros view Hv. apply unarmed; [|done].
      cbn [takes_path] in Hv. unfold named, action_of in Hv. fold act in Hv. by rewrite E in Hv. }
    assert (forall ifname guard suffixes, guard <> [] -> (forall v, takes_path (Advanced op) v -> touchesManagement v guard = true) ->
      ValidIfName (oConfirmIfName op) && sameIface (oConfirmIfName op) (firstNonEmptyIf guard) = false -> keeps (sees (takes_path (Advanced op))) (fun d => d = d0) (removeAdvanced op ifname guard suffixes)) as Hrm.
    { intros ifname guard suffixes Hn Ht Hf. unfold removeAdvanced. cbn zeta. destruct (decide (ToLower _ = ""%string)); [keep1|]. rewrite (decide_False (P := guard = [])) by done.
      eapply (h_bind _ _ _ _ (fun _ _ => False)); [|by intros ? o d n' _ []]. eapply (h_bind _ _ _ _ (fun v d => takes_path (Advanced op) v /\ d = d0)).
      - apply (h_call _ Hq). intros o n' d [Hq' Hr] Hd. split; [done|]. destruct (host_at o n') as [v|] eqn:E; [|done]. split; [by apply (Hr n')|done].
      - intros v. apply h_pure. intros Hv. rewrite (Ht v Hv). unfold maybeArm. rewrite Hf. cbn [negb]. eapply (h_bind _ _ _ _ (fun _ _ => False)); [by apply h_fail|]. by intros ? o d n' _ []. }
    destruct (decide (act = "vlan-remove"%string)) as [E|].
    { rewrite E in *. repeat (rewrite decide_False by done). unfold removeVLAN. destruct (VLANName _ _); [|keep1]. keep1; [destruct (_ && _); repeat keep1|]. apply Hrm; [done| |done].
      cbn [takes_path]. unfold named, action_of. fold act. rewrite E. done. }
    destruct (decide (act = "bond-remove"%string)) as [E|]; [|done].
    rewrite E in *. repeat (rewrite decide_False by done). unfold removeBond. destruct (BondName _ _) eqn:Eb; [|keep1]. apply Hrm; [done| |done].
    cbn [takes_path]. unfold named, action_of. fold act. rewrite E, Eb. done.
Qed.

End Changes.

(** ** A host with one interface *)
Module NetDemo.
#[local] Existing Instance ascii_tables.
Definition demo_uuid (s : string) : option string := if bool_decide (length (bytes s) = 36%nat) then Some s else None.
Definition eth0 (addrs : list string) : Iface := mkIface "eth0" 2 addrs "52:54:00:00:00:01" "device" "" true.
Definition up_view : HostView := mkHost [eth0 ["192.168.1.10/24"%string]] "eth0" "192.168.1.1" ["192.168.1.1"%string] 2 "eth0" ["192.168.1.10/24"%string].
Definition lost_view : HostView := mkHost [eth0 []] "" "" [] 0 "" [].
Definition demo_id : string := "11111111-2222-3333-4444-555555555555".
Definition demo_spec : Spec := mkSpec demo_id "lan" KindLANBridge "" "eth0" "eth0" [].
Definition demo_net : gmap string string := {["10-admin.network" := "x"; "50-ndl-old.network" := "y"]}%string.
Definition demo_disk : disk := mkDisk demo_net {["network/interfaces" := "auto eth0"]}%string false None ∅ None false ∅ ∅ None false "0".
Definition uplink_file : string := "50-ndl-11111111-2222-3333-4444-555555555555-uplink.network".
(** A world that stops at a call, sees a view and has a time. *)
Definition world (stop : nat) (view : nat -> HostView) (now : Z) : outside :=
  mkOutside (fun n => Nat.eqb n stop) (fun _ => true) (fun _ => true) (fun _ => None) (fun _ => true) (fun n => Some (view n)) (fun _ => false) (fun _ => true) (fun _ => now) (fun _ d => d).
Definition never : nat := 1000.
Definition late : Z := 10 ^ 15.
Definition bridged : disk := (perform demo_uuid (Lan demo_spec) (world never (fun _ => up_view) 1000) (demo_disk, 0%nat)).2.1.

Lemma world_sure stop view now : sure (world stop view now).
Proof. by split. Qed.
Lemma world_faces stop view now (R : HostView -> Prop) : (forall n, R (view n)) -> faces R (world stop view now).
Proof. intros H n v E. injection E as <-. apply H. Qed.
Definition steady (view : HostView) (now : Z) : outside :=
  mkOutside (fun _ => false) (fun _ => true) (fun _ => true) (fun _ => None) (fun _ => true) (fun _ => Some view) (fun _ => false) (fun _ => true) (fun _ => now) (fun _ d => d).
Lemma steady_smooth view now : smooth (steady view now).
Proof. by repeat split. Qed.

(** The agent stops while it writes the bridge's files, the first watchdog stops while it
    restores, and the agent that starts after the deadline gets no answer. *)
Definition cut_short : list (attempt_kind * outside) := [(Watchdog 5, world 9 (fun _ => lost_view) 2000)].
Definition half_done : disk := (perform demo_uuid (Lan demo_spec) (world 27 (fun _ => up_view) 1000) (demo_disk, 0%nat)).2.1.
Example half_restored :
  is_Some (net half_done !! "50-ndl-11111111-2222-3333-4444-555555555555.netdev"%string) /\ net (after cut_short half_done) !! "50-ndl-old.network"%string = None.
Proof. vm_compute. split; [eexists; reflexivity|reflexivity]. Qed.


(** What the code does beside the theorems.  A removal that fails is not looked at: the
    rollback is cleared although the bridge's files are still there. *)
Definition stuck (o : outside) : outside :=
  mkOutside (stops o) (io_ok o) (fun n => negb (Nat.ltb n 8)) (partial o) (run_ok o) (host_at o) (pid_at o) (ready_at o) (clock o) (others o).
Example failed_removal_disarms :
  let '(r, d) := try_on (AgentStart, stuck (steady lost_view late)) bridged in r = Done Restored /\ active d = None /\ is_Some (net d !! uplink_file).
Proof. vm_compute. split; [reflexivity|]. split; [reflexivity|]. eexists. reflexivity. Qed.

(** A watchdog that got its answer leaves the rollback armed.  When the agent starts again
    before the host has its address, everything since the change is undone. *)
Definition a_month_later : disk := put_net "50-ndl-other.network" "z" (try_on (Watchdog 5, steady up_view late) bridged).2.
Example answered_but_armed :
  (try_on (Watchdog 5, steady up_view late) bridged).1 = Done Answered /\
  (try_on (AgentStart, steady lost_view (late + late)) a_month_later).1 = Done Restored /\
  net (try_on (AgentStart, steady lost_view (late + late)) a_month_later).2 !! "50-ndl-other.network"%string = None.
Proof. vm_compute. done. Qed.

(** The watchdog may restore while the change is still being made: then the files are
    written after it, nothing is left to restore from, and the change counts as undone. *)
Definition racing : outside :=
  mkOutside (fun _ => false) (fun _ => true) (fun _ => true) (fun _ => None) (fun _ => true) (fun n => Some (if Nat.ltb n 5 then up_view else lost_view)) (fun _ => false) (fun _ => true) (fun _ => 1000)
    (fun n d => if Nat.eqb n 22 then (try_on (Watchdog 5, steady lost_view 2000) d).2 else d).
Example restored_too_early :
  let '(r, (d, _)) := perform demo_uuid (Lan demo_spec) racing (demo_disk, 0%nat) in r = Failed ProbeFailed /\ active d = None /\ is_Some (net d !! uplink_file).
Proof. vm_compute. split; [reflexivity|]. split; [reflexivity|]. eexists. reflexivity. Qed.

(** A second request, before the bridge is seen, replaces the copy by the new files. *)
Definition bridged_twice : disk := (perform demo_uuid (Lan demo_spec) (steady up_view 2000) (set_etc {["network/interfaces" := "auto eth0"]}%string bridged, 0%nat)).2.1.
Example copied_too_late : is_Some (net (try_on (AgentStart, steady lost_view late) bridged_twice).2 !! uplink_file).
Proof. vm_compute. eexists. reflexivity. Qed.

(** The repair of an observed bridge writes the files that the rollback took away, and arms
    nothing. *)
Definition rolled_back : disk := (try_on (AgentStart, steady lost_view late) bridged).2.
Example repair_undoes_rollback :
  net rolled_back = demo_net /\
  let d := (healLANBridge demo_uuid demo_id "eth0" (steady up_view late) (rolled_back, 0%nat)).2.1 in is_Some (net d !! uplink_file) /\ active d = None.
Proof. split; [|vm_compute; split; [eexists; reflexivity|reflexivity]]. apply (bool_decide_unpack _). vm_compute. exact I. Qed.

(** A VLAN on the management path whose access port is not valid fails and stays. *)
Definition vlan_op : AdvancedOp := mkOp "vlan-add" demo_id "" "" 7 "eth0" "access" "not a name" [] "" "" "" [] 0 "eth0" "".
Example failed_vlan_stays :
  let '(r, (d, _)) := perform demo_uuid (Advanced vlan_op) (steady up_view 1000) (demo_disk, 0%nat) in
  r = Failed (Text "access interface name is not valid") /\ is_Some (net d !! "50-ndl-11111111-2222-3333-4444-555555555555-parent.network"%string).
Proof. vm_compute. split; [reflexivity|]. eexists. reflexivity. Qed.

(** Deleting does not know a bridge to the LAN, and takes its files. *)
Definition delete_op : AdvancedOp := mkOp "network-delete" "" demo_id "" 0 "" "" "" [] "" "" "" [] 0 "" "".
Example bridge_deleted :
  let '(r, (d, _)) := perform demo_uuid (Advanced delete_op) (steady up_view late) (bridged, 0%nat) in
  r = Done () /\ net d !! "50-ndl-11111111-2222-3333-4444-555555555555.network"%string = None /\ is_Some (net d !! uplink_file).
Proof. vm_compute. split; [reflexivity|]. split; [reflexivity|]. eexists. reflexivity. Qed.

(** The policies between guests count as a network with NAT: at the start of the agent
    they turn forwarding on. *)
Example policy_turns_forwarding_on :
  let d := (RestoreNAT (steady up_view 1000) (set_nft {["ndl-policy.nft" := "table bridge ndl-policy {}"]}%string demo_disk, 0%nat)).2.1 in
  forwarding demo_disk = "0"%string /\ forwarding d = text_line "1".
Proof. vm_compute. done. Qed.

(** Applying an isolated network again, with an error on the way, takes away the network
    that was there. *)
Definition iso_spec : Spec := mkSpec demo_id "iso" KindIsolated "10.64.0.0/24" "" "" [].
Definition isolated : disk := (perform demo_uuid (Lan iso_spec) (steady up_view 1000) (demo_disk, 0%nat)).2.1.
Definition reload_fails : outside := mkOutside (fun _ => false) (fun _ => true) (fun _ => true) (fun _ => None) (fun _ => false) (fun _ => Some up_view) (fun _ => false) (fun _ => true) (fun _ => 1000) (fun _ d => d).
Example failed_again_removes :
  is_Some (net isolated !! "50-ndl-11111111-2222-3333-4444-555555555555.network"%string) /\ is_Some (dnsmasq isolated !! (demo_id +:+ ".conf")) /\
  let d := (perform demo_uuid (Lan iso_spec) reload_fails (isolated, 0%nat)).2.1 in
  net d !! "50-ndl-11111111-2222-3333-4444-555555555555.network"%string = None /\ dnsmasq d !! (demo_id +:+ ".conf") = None.
Proof. vm_compute. split; [eexists; reflexivity|]. split; [eexists; reflexivity|]. done. Qed.

(** The file that takes the interface from NetworkManager stays after the rollback. *)
Definition with_manager : disk := mkDisk demo_net ∅ true None ∅ None false ∅ ∅ None false "0".
Example manager_stays_off :
  let d := (perform demo_uuid (Lan demo_spec) (steady up_view 1000) (with_manager, 0%nat)).2.1 in
  is_Some (etc (try_on (AgentStart, steady lost_view late) d).2 !! nm_path "eth0").
Proof. vm_compute. eexists. reflexivity. Qed.

(** An address that leads nowhere is an answer. *)
Example link_local_answers : ProbeManagement (mkHost [eth0 ["fe80::1/64"%string]] "" "" [] 0 "" []) "eth0" 2 ["192.168.1.10/24"%string] = true.
Proof. vm_compute. reflexivity. Qed.
End NetDemo.
