(* ===== verification/NetMigrate.v ===== *)
(** * Taking an interface from ifupdown ([src/internal/ndnet/ifupdown.go])

    Before a bridge takes an interface, the lines of [/etc/network/interfaces] that
    configure it are commented out. *)
From S2P Require Export NetApply TextProps.

(** ** Lines *)
Lemma Split_plain (s : string) c : Forall (fun l => c ∉ bytes l) (Split s c) /\ Split s c <> [].
Proof.
  unfold Split. assert (forall l acc, c ∉ acc -> Forall (fun x => c ∉ x) (splitb c l acc) /\ splitb c l acc <> []) as H.
  { induction l as [|a l IH]; intros acc Ha; cbn [splitb].
    - split; [|done]. rewrite Forall_singleton. by rewrite elem_of_rev.
    - destruct (Ascii.eqb_spec a c) as [->|Hne].
      + split; [|done]. rewrite Forall_cons, elem_of_rev. split; [done|]. apply IH. by apply not_elem_of_nil.
      + apply IH. rewrite not_elem_of_cons. by split; [congruence|]. }
  destruct (H (bytes s) [] ltac:(by apply not_elem_of_nil)) as [Hf Hn]. split.
  - apply Forall_map. eapply Forall_impl; [exact Hf|]. intros x Hx. by rewrite bytes_ofBytes.
  - by destruct (splitb c (bytes s) []).
Qed.

Lemma bytes_join_lines s t l : bytes (join_lines (s :: t :: l)) = bytes s ++ newline :: bytes (join_lines (t :: l)).
Proof. cbn [join_lines]. by rewrite !bytes_app. Qed.
Lemma Split_join_lines l : Forall (fun s => newline ∉ bytes s) l -> l <> [] -> Split (join_lines l) newline = l.
Proof.
  intros Hl Hn. unfold Split. induction Hl as [|s l Hs Hl IH]; [done|]. destruct l as [|t l].
  - cbn [join_lines]. rewrite splitb_last by done. cbn. by rewrite ofBytes_bytes.
  - rewrite bytes_join_lines, splitb_app by done. cbn [map rev app]. rewrite ofBytes_bytes. f_equal. by apply IH.
Qed.

Lemma hash_not_space : "#"%char ∉ space_bytes.
Proof. apply (bool_decide_unpack _). vm_compute. exact I. Qed.
Lemma commented_line l : HasPrefix (TrimSpace (ifupdownMigratePrefix +:+ l)) "#" = true.
Proof.
  set (s := ifupdownMigratePrefix +:+ l). destruct (TrimSpace_spec s) as (a & b & E & Hs). apply HasPrefix_spec.
  assert (exists r, bytes s = "#"%char :: r) as [r Er] by (unfold s; rewrite bytes_app; by eexists). rewrite Er in E.
  destruct a as [|x a]; [|injection E as <- _; destruct hash_not_space; apply Hs; by left].
  cbn [app] in E. destruct (bytes (TrimSpace s)) as [|x t].
  - destruct b as [|x b]; [done|]. injection E as <- _. destruct hash_not_space. apply Hs. by left.
  - injection E as <- _. by exists t.
Qed.

Section Migrate.
Context `{CaseTables}.

(** A line that gives the interface to ifupdown. *)
Definition mentions_line (iface line : string) : bool :=
  let trim := TrimSpace line in negb (HasPrefix trim "#") && (ifupdownControlMatches trim iface || ifupdownStanzaMatches trim iface).
(** What may become of a line: a line that starts something of other interfaces stays. *)
Definition line_ok (iface l l' : string) : Prop :=
  (l' = l /\ mentions_line iface l = false) \/
  (l' = ifupdownMigratePrefix +:+ l /\ HasPrefix (TrimSpace l) "#" = false /\
   (isIfupdownStanzaStart (TrimSpace l) = true -> ifupdownStanzaMatches (TrimSpace l) iface = true) /\
   (ifupdownControlLine (TrimSpace l) = true -> ifupdownControlMatches (TrimSpace l) iface = true)).

Lemma stanza_not_control raw : isIfupdownStanzaStart raw = true -> ifupdownControlLine raw = false.
Proof using Type.
  unfold isIfupdownStanzaStart, ifupdownControlLine, second. destruct (Fields raw) as [|a [|b l]]; [done|done|]. rewrite bool_decide_eq_true. by intros ->.
Qed.
Lemma match_starts raw iface : ifupdownStanzaMatches raw iface = true -> isIfupdownStanzaStart raw = true.
Proof using Type.
  unfold isIfupdownStanzaStart, ifupdownStanzaMatches, second. destruct (Fields raw) as [|a [|b l]]; [done|done|]. rewrite andb_true_iff. by intros [? _].
Qed.
Lemma match_controls raw iface : ifupdownControlMatches raw iface = true -> ifupdownControlLine raw = true.
Proof using Type. unfold ifupdownControlMatches. rewrite andb_true_iff. by intros [? _]. Qed.
Lemma Fields_empty : Fields "" = [].
Proof using Type. reflexivity. Qed.
Lemma kept_line iface l : (HasPrefix (TrimSpace l) "#" = true \/ ifupdownControlMatches (TrimSpace l) iface = false /\ ifupdownStanzaMatches (TrimSpace l) iface = false) -> line_ok iface l l.
Proof using Type. intros Hl. left. split; [done|]. unfold mentions_line. destruct Hl as [-> | [-> ->]]; [done|]. cbn. by rewrite andb_false_r. Qed.

Lemma disable_lines_spec iface ls : forall inStanza, Forall2 (line_ok iface) ls (disable_lines iface inStanza ls).1 /\
  ((disable_lines iface inStanza ls).2 = false -> (disable_lines iface inStanza ls).1 = ls) /\
  (inStanza = false -> (disable_lines iface inStanza ls).2 = existsb (mentions_line iface) ls).
Proof using Type.
  induction ls as [|l ls IH]; intros inStanza; [cbn; by split; [constructor|]|]. cbn [disable_lines]. set (raw := TrimSpace l).
  assert (forall b, line_ok iface l l -> (b = false \/ inStanza = true) ->
    Forall2 (line_ok iface) (l :: ls) (let '(out, changed) := disable_lines iface b ls in (l :: out, changed)).1 /\
    ((let '(out, changed) := disable_lines iface b ls in (l :: out, changed)).2 = false -> (let '(out, changed) := disable_lines iface b ls in (l :: out, changed)).1 = l :: ls) /\
    (inStanza = false -> (let '(out, changed) := disable_lines iface b ls in (l :: out, changed)).2 = existsb (mentions_line iface) (l :: ls))) as Hkeep.
  { intros b Hl Hb. destruct (IH b) as (H1 & H2 & H3). destruct (disable_lines iface b ls) as [out ch]. cbn [fst snd] in *. split; [by constructor|]. split; [by intros E; rewrite H2|].
    intros E. destruct Hb as [Hb|Hb]; [|congruence]. rewrite (H3 Hb). cbn [existsb]. destruct Hl as [[_ ->]|(E2 & Hh & _)]; [done|].
    exfalso. pose proof (commented_line l) as Hc. rewrite <- E2 in Hc. congruence. }
  assert (forall b, (b = true \/ True) -> line_ok iface l (ifupdownMigratePrefix +:+ l) -> (inStanza = true \/ mentions_line iface l = true) ->
    Forall2 (line_ok iface) (l :: ls) (let '(out, _) := disable_lines iface b ls in ((ifupdownMigratePrefix +:+ l) :: out, true)).1 /\
    ((let '(out, _) := disable_lines iface b ls in ((ifupdownMigratePrefix +:+ l) :: out, true)).2 = false -> (let '(out, _) := disable_lines iface b ls in ((ifupdownMigratePrefix +:+ l) :: out, true)).1 = l :: ls) /\
    (inStanza = false -> (let '(out, _) := disable_lines iface b ls in ((ifupdownMigratePrefix +:+ l) :: out, true)).2 = existsb (mentions_line iface) (l :: ls))) as Hcomment.
  { intros b _ Hl Hm. destruct (IH b) as (H1 & _ & _). destruct (disable_lines iface b ls) as [out ch]. cbn [fst snd] in *. split; [by constructor|]. split; [done|].
    intros E. destruct Hm as [Hm|Hm]; [congruence|]. cbn [existsb]. by rewrite Hm. }
  cbn zeta. destruct (decide (raw = ""%string)) as [Er|_].
  { apply Hkeep; [|by left]. apply kept_line. right. fold raw. rewrite Er. done. }
  destruct (HasPrefix raw ifupdownMigratePrefix || HasPrefix raw "#") eqn:Eh.
  { apply Hkeep; [|by destruct inStanza; [right|left]]. apply kept_line. left. fold raw. apply orb_true_iff in Eh as [Eh|Eh]; [|done].
    apply HasPrefix_spec in Eh as [r Er]. apply HasPrefix_spec. fold raw. rewrite Er. eexists. reflexivity. }
  apply orb_false_iff in Eh as [_ Eh].
  destruct (isIfupdownStanzaStart raw) eqn:Es.
  { pose proof (stanza_not_control raw Es) as Ec. assert (ifupdownControlMatches raw iface = false) as Em by (unfold ifupdownControlMatches; by rewrite Ec).
    rewrite Em, orb_false_r. destruct (ifupdownStanzaMatches raw iface) eqn:Ems.
    - apply Hcomment; [by right| |right; unfold mentions_line; fold raw; by rewrite Eh, Em, Ems]. right. fold raw. rewrite Ec. done.
    - apply Hkeep; [|by left]. apply kept_line. right. fold raw. by rewrite Em, Ems. }
  assert (ifupdownStanzaMatches raw iface = false) as Ems by (destruct (ifupdownStanzaMatches raw iface) eqn:E; [by rewrite (match_starts _ _ E) in Es|done]).
  destruct (ifupdownControlLine raw) eqn:Ec.
  { destruct (ifupdownControlMatches raw iface) eqn:Em.
    - apply Hcomment; [by right| |right; unfold mentions_line; fold raw; by rewrite Eh, Em]. right. fold raw. rewrite Es, Em. done.
    - apply Hkeep; [|by left]. apply kept_line. right. fold raw. by rewrite Em, Ems. }
  assert (ifupdownControlMatches raw iface = false) as Em by (destruct (ifupdownControlMatches raw iface) eqn:E; [by rewrite (match_controls _ _ E) in Ec|done]).
  destruct inStanza.
  - apply Hcomment; [by right| |by left]. right. fold raw. rewrite Es, Ec. done.
  - apply Hkeep; [|by left]. apply kept_line. right. fold raw. by rewrite Em, Ems.
Qed.

(** After the migration of an interface, ifupdown is not told of it any more: the file
    has the same lines, of which some are commented out and no other changes; none of
    those starts or switches on what is another interface's only, and the file changes
    exactly when ifupdown was told of the interface. *)
Theorem migration_quiets content iface :
  ValidIfName (TrimSpace iface) = true ->
  ifupdownMentions (disableIfupdownIface content iface).1 iface = false /\
  (disableIfupdownIface content iface).2 = ifupdownMentions content iface /\
  Forall2 (line_ok (TrimSpace iface)) (Split content newline) (Split (disableIfupdownIface content iface).1 newline) /\
  (ifupdownMentions content iface = false -> (disableIfupdownIface content iface).1 = content).
Proof using Type.
  intros Hv. unfold disableIfupdownIface. rewrite Hv. cbn [negb]. cbn zeta. unfold ifupdownMentions. cbn zeta.
  set (ls := Split content newline). destruct (Split_plain content newline) as [Hp Hn]. fold ls in Hp, Hn.
  destruct (disable_lines_spec (TrimSpace iface) ls false) as (H1 & H2 & H3). specialize (H3 eq_refl).
  assert (forall out, Forall2 (line_ok (TrimSpace iface)) ls out -> Forall (fun s => newline ∉ bytes s) out /\ out <> [] /\ existsb (mentions_line (TrimSpace iface)) out = false) as Hout.
  { intros out Ho. split; [|split].
    - eapply Forall2_Forall_r; [exact Ho|]. eapply Forall_impl; [exact Hp|]. intros l Hl l' [[-> _]|(-> & _)]; [done|]. rewrite bytes_app, not_elem_of_app. split; [|done].
      apply (bool_decide_unpack _). vm_compute. exact I.
    - destruct Ho; [done|discriminate].
    - apply not_true_is_false. intros E. apply existsb_exists in E as (l' & Hl' & Hm). apply list_elem_of_In, list_elem_of_lookup in Hl' as [i Hi].
      destruct (Forall2_lookup_r _ _ _ _ _ Ho Hi) as (l & _ & [[-> Hk]|(-> & _)]); [congruence|]. unfold mentions_line in Hm. by rewrite commented_line in Hm. }
  destruct (disable_lines (TrimSpace iface) false ls) as [out ch] eqn:E. cbn [fst snd] in *. destruct (Hout out H1) as (Ho1 & Ho2 & Ho3). destruct ch; cbn [fst snd].
  - rewrite Split_join_lines by done. split; [exact Ho3|]. split; [exact H3|]. split; [exact H1|]. intros E2. change (existsb (mentions_line (TrimSpace iface)) ls = false) in E2. by rewrite <- H3 in E2.
  - rewrite (H2 eq_refl) in *. fold ls. split; [exact Ho3|]. split; [exact H3|]. split; [exact H1|done].
Qed.
End Migrate.

Module MigrateDemo.
#[local] Existing Instance ascii_tables.
Definition usual : string := lines ["auto lo"; "iface lo inet loopback"; ""; "allow-hotplug eth0"; "iface eth0 inet static"; "  address 10.0.0.2/24"; ""; "iface eth1 inet dhcp"].
Lemma migration_quiets_witness : ifupdownMentions usual "eth0" = true /\ ifupdownMentions (disableIfupdownIface usual "eth0").1 "eth0" = false /\ (disableIfupdownIface usual "eth0").2 = true.
Proof.
  destruct (migration_quiets usual "eth0") as (H1 & H2 & _); [vm_compute; reflexivity|]. split; [vm_compute; reflexivity|]. split; [exact H1|].
  rewrite H2. vm_compute. reflexivity.
Defined.
Example usual_after : (disableIfupdownIface usual "eth0").1 =
  lines ["auto lo"; "iface lo inet loopback"; ""; "# ndl-migrated: allow-hotplug eth0"; "# ndl-migrated: iface eth0 inet static"; "# ndl-migrated:   address 10.0.0.2/24"; ""; "iface eth1 inet dhcp"].
Proof. vm_compute. reflexivity. Qed.

(** A line that starts several interfaces is commented out for all of them. *)
Example others_not_started : (disableIfupdownIface (lines ["auto lo eth0"]) "eth0").1 = lines ["# ndl-migrated: auto lo eth0"].
Proof. vm_compute. reflexivity. Qed.
(** What follows a stanza without an empty line goes with it, even what reads other files. *)
Example source_lost : (disableIfupdownIface (lines ["iface eth0 inet dhcp"; "source /etc/network/interfaces.d/*"]) "eth0").1 =
  lines ["# ndl-migrated: iface eth0 inet dhcp"; "# ndl-migrated: source /etc/network/interfaces.d/*"].
Proof. vm_compute. reflexivity. Qed.
(** An option after an empty line stays, and is then another interface's. *)
Example option_left : (disableIfupdownIface (lines ["iface eth1 inet static"; "iface eth0 inet static"; ""; "  address 10.0.0.2/24"]) "eth0").1 =
  lines ["iface eth1 inet static"; "# ndl-migrated: iface eth0 inet static"; ""; "  address 10.0.0.2/24"].
Proof. vm_compute. reflexivity. Qed.
End MigrateDemo.
