(* ===== verification/Locators.v ===== *)
(** * Names of block devices ([src/internal/storage])

    Which device paths the storage engines hand out and accept: zvols, thin volumes of
    LVM, RBD and NBD mappings ([zfs.go], [lvm.go], [distributed.go]).  The regular
    expressions are written out as predicates on the bytes of a name. *)
From S2P Require Export Paths.

(** [strings.ContainsAny] for ASCII characters. *)
Definition ContainsAny (s : string) (chars : list ascii) : bool := existsb (fun a => bool_decide (a ∈ chars)) (bytes s).
Definition nul : ascii := chr 0.
Definition lf : ascii := chr 10.
Definition cr : ascii := chr 13.
Definition tab : ascii := chr 9.
Definition quote : ascii := chr 34.
Definition lower_letter (a : ascii) : bool := let z := byteZ a in (97 <=? z) && (z <=? 122).
Definition upper_letter (a : ascii) : bool := let z := byteZ a in (65 <=? z) && (z <=? 90).
Definition digit_char (a : ascii) : bool := let z := byteZ a in (48 <=? z) && (z <=? 57).
Definition letter (a : ascii) : bool := lower_letter a || upper_letter a.
Definition alnum (a : ascii) : bool := letter a || digit_char a.
Definition one_of (chars : list ascii) (a : ascii) : bool := bool_decide (a ∈ chars).

(** [^[first][rest]{0,n}$]. *)
Definition name_re (first rest : ascii -> bool) (n : nat) (s : string) : bool :=
  match bytes s with a :: l => first a && forallb rest l && bool_decide (length l <= n)%nat | [] => false end.
Definition lvmVGNameRe : string -> bool := name_re letter (fun a => alnum a || one_of ["."; "_"; "+"; "-"]%char a) 62.
Definition lvmLVNameRe : string -> bool := name_re alnum (fun a => alnum a || one_of ["."; "_"; "+"; "-"]%char a) 126.
Definition cephPoolRe : string -> bool := name_re letter (fun a => alnum a || one_of ["."; "_"; "-"]%char a) 127.
Definition cephImageRe : string -> bool := name_re alnum (fun a => alnum a || one_of ["."; "_"; "-"]%char a) 126.

Definition ZVolDevPrefix : string := "/dev/zvol/".
Definition ISCSIByPath : string := "/dev/disk/by-path/".
Definition LVMMountRoot : string := "/var/lib/ndl/storage/lvm".
Definition RBDDevPrefix : string := "/dev/rbd/".
Definition NBDDevPrefix : string := "/dev/nbd".

Definition ValidateZVolPath (p : string) : bool :=
  let rest := TrimPrefix p ZVolDevPrefix in
  HasPrefix p ZVolDevPrefix && negb (bool_decide (rest = ""%string) || Contains rest "..") &&
  forallb (fun a => alnum a || one_of ["/"; "."; "_"; "-"]%char a) (bytes rest).

(** The two names of a path of two. *)
Definition pair_of (s : string) : option (string * string) :=
  match Split s slash with [a; b] => if decide (a = "" \/ b = "")%string then None else Some (a, b) | _ => None end.

Section Locators.
Context `{CaseTables}.

Definition ParseVGName (name : string) : option string :=
  let name := TrimSpace name in
  if bool_decide (name = ""%string) || ContainsAny name [" "; lf; cr; tab; "/"; "\"; quote; "'"]%char || Contains name ".." ||
     Contains (ToLower name) "vgexport" || negb (lvmVGNameRe name) then None else Some name.
Definition ParseLVName (name : string) : option string :=
  let name := TrimSpace name in
  if bool_decide (name = ""%string) || ContainsAny name [" "; lf; cr; tab; "/"; "\"; quote; "'"; "@"]%char || Contains name ".." ||
     (EqualFold name "vgexport" || Contains (ToLower name) "vgexport") || negb (lvmLVNameRe name) then None else Some name.
Definition ValidateLVMDevice (p : string) : bool :=
  let p := TrimSpace p in
  if bool_decide (p = ""%string) || Contains p ".." || ContainsAny p [" "; lf; cr; tab]%char then false
  else if HasPrefix p "/dev/mapper/" then
    let rest := TrimPrefix p "/dev/mapper/" in
    negb (bool_decide (rest = ""%string) || Contains rest "/") && forallb (fun a => alnum a || one_of ["."; "_"; "-"; "+"]%char a) (bytes rest)
  else if negb (HasPrefix p "/dev/") then false
  else match pair_of (TrimPrefix p "/dev/") with
       | Some (vg, lv) => match ParseVGName vg, ParseLVName lv with Some _, Some _ => true | _, _ => false end
       | None => false
       end.

Definition ParseCephPool (name : string) : option string :=
  let name := TrimSpace name in if bool_decide (name = ""%string) || negb (cephPoolRe name) then None else Some name.
Definition ParseCephImage (name : string) : option string :=
  let name := TrimSpace name in
  if bool_decide (name = ""%string) || (Contains name "/" || Contains name "..") || negb (cephImageRe name) then None else Some name.
Definition ValidateRBDPath (p : string) : bool :=
  let p := TrimSpace p in
  if negb (HasPrefix p RBDDevPrefix) then false
  else if bool_decide (Clean p <> p) || Contains p ".." || ContainsAny p [" "; lf; cr; tab; ","; "="]%char then false
  else match pair_of (TrimPrefix (Clean p) RBDDevPrefix) with
       | Some (pool, image) => match ParseCephPool pool, ParseCephImage image with Some _, Some _ => true | _, _ => false end
       | None => false
       end.

(** [^/dev/nbd[0-9]{1,2}$]. *)
Definition nbdDevRe (p : string) : bool :=
  HasPrefix p NBDDevPrefix &&
  let rest := bytes (TrimPrefix p NBDDevPrefix) in forallb digit_char rest && bool_decide (1 <= length rest <= 2)%nat.
Definition ValidateNBDPath (p : string) : bool :=
  let p := TrimSpace p in
  nbdDevRe p && match Atoi (TrimPrefix p NBDDevPrefix) with Some n => (0 <=? n) && (n <=? 15) | None => false end.
End Locators.
