(* ===== verification/VmSpec.v ===== *)
(** * What a virtual machine is asked to be ([src/internal/vmspec])

    The desired machine, its normal form and its validation ([spec.go], [validate.go],
    [usb.go]), the identity and the PCI address each device keeps ([nic.go], [pci.go]), the
    cloud-init text ([nocloud.go]), and its compilation into a launch whose every locator
    is fixed ([compile.go]).  [uuid.Parse] gives the bytes of an identifier, [uuid.NewSHA1]
    the text of one made from a name; they and SHA-256 are parameters. *)
From stdpp Require Import gmap.
From S2P Require Export Ip Locators.

Definition SchemaDesired : string := "ndl.vm.spec.v1".
Definition SchemaLaunch : string := "ndl.vm.launch.v1".
Definition DefaultMachine : string := "pc-q35-10.0".
Definition DefaultCPUs : Z := 2.
Definition DefaultMemory : Z := 2 * 2 ^ 30.
Definition DefaultDiskBytes : Z := 8 * 2 ^ 30.
Definition FirmwareBIOS : string := "bios".
Definition FirmwareUEFI : string := "uefi".
Definition DiskRoleBoot : string := "boot".
Definition DiskRoleData : string := "data".
Definition DiskRoleCDROM : string := "cdrom".
Definition DiskRoleCIDATA : string := "cidata".
Definition DiskRoleVars : string := "uefi-vars".
Definition DiskSourcePhysical : string := "physical".
Definition DiskBusVirtio : string := "virtio-blk".
Definition DiskBusAHCI : string := "ahci".
Definition NICModelVirtio : string := "virtio".

Record Disk := mkDisk {
  dVolumeID : string; dRole : string; dSlot : Z; dFormat : string; dReadOnly : bool; dSizeBytes : Z;
  dPCIAddr : string; dSource : string; dDeviceID : string; dBus : string }.
Record USB := mkUSB { uAddress : string; uVendor : string; uProduct : string }.
Record NIC := mkNIC { nID : string; nNetworkID : string; nMAC : string; nModel : string; nPCIAddr : string }.
Record NoCloud := mkNoCloud {
  cEnable : bool; cHostname : string; cUsername : string; cKeys : list string; cPassword : string; cUserData : string;
  cNetworkConfig : string; cHasPassword : bool }.
Record Console := mkConsole { Serial : bool; VNC : bool }.
Record Spec := mkSpec {
  SchemaVersion : string; Name : string; CPUs : Z; MemoryBytes : Z; Machine : string; SFirmware : string; BootOrder : list string;
  Disks : list Disk; NICs : list NIC; ISOLibraryID : string; CloudImageID : string; SNoCloud : NoCloud; Autostart : bool;
  SConsole : Console; Balloon : bool; SecureBoot : bool; USBs : list USB; PCIHosts : list string }.

(** What is resolved for a launch: paths, bridges, firmware. *)
Record ResolvedDisk := mkRDisk {
  rdVolumeID : string; rdRole : string; rdSlot : Z; rdPath : string; rdFormat : string; rdReadOnly : bool; rdPCIAddr : string;
  rdSource : string; rdDeviceID : string; rdBus : string; rdSerial : string; rdDiscard : bool }.
Record ResolvedNIC := mkRNIC {
  rnID : string; rnNetworkID : string; rnBridgeName : string; rnMAC : string; rnModel : string; rnPCIAddr : string; rnTAPName : string }.
Record Resolved := mkResolved {
  rDisks : list ResolvedDisk; rNICs : list ResolvedNIC; rISOPath : string; rFirmwareCode : string; rFirmwareVarsIn : string; rAccel : string }.

(** The frozen launch. *)
Record Firmware := mkFirmware { fMode : string; fCodePath : string; fVarsPath : string; fSecureBoot : bool }.
Record LaunchDisk := mkLDisk {
  ldVolumeID : string; ldRole : string; ldSlot : Z; ldPath : string; ldFormat : string; ldReadOnly : bool; ldPCIAddr : string;
  ldNodeName : string; ldSource : string; ldDeviceID : string; ldBus : string; ldSerial : string; ldDiscard : bool }.
Record LaunchNIC := mkLNIC {
  lnID : string; lnNetworkID : string; lnBridgeName : string; lnTAPName : string; lnMAC : string; lnModel : string; lnPCIAddr : string }.
Record LaunchNoCloud := mkLNoCloud {
  lcEnable : bool; lcHostname : string; lcUsername : string; lcImagePath : string; lcHasPassword : bool; lcUserDataSHA : string;
  lcNetworkConfig : string }.
Record LaunchGPU := mkLGPU { lgHost : string; lgPCIAddr : string }.
Record LaunchUSB := mkLUSB { luAddress : string; luVendor : string; luProduct : string; luID : string }.
Record Launch := mkLaunch {
  lSchemaVersion : string; lWorkloadID : string; lMachine : string; lAccel : string; lCPUs : Z; lMemoryMiB : Z; lFirmware : Firmware;
  lDisks : list LaunchDisk; lNICs : list LaunchNIC; lPCI : gmap string string; lAutostart : bool; lConsole : Console;
  lNoCloud : option LaunchNoCloud; lBalloon : bool; lBootOrder : string; lQGA : bool; lGPUs : list LaunchGPU; lUSBs : list LaunchUSB;
  lSecureBoot : bool }.

Definition need (b : bool) (message : string) : result string unit := if b then Ok () else Err message.
Definition hex_digits (l : list ascii) : bool := forallb (fun a => match hex_digit a with Some _ => true | None => false end) l.
Definition lower_hex (a : ascii) : bool := let z := byteZ a in ((48 <=? z) && (z <=? 57)) || ((97 <=? z) && (z <=? 102)).
Definition banned_lines : list ascii := [lf; cr; nul].
Definition banned_options : list ascii := [","; "="]%char ++ banned_lines.
Definition banned_names : list ascii := [" "%char; lf; cr; ","%char; "="%char].

(** ** Locators *)
Definition ValidateCleanPath (p kind : string) : result string unit :=
  need (negb (bool_decide (p = ""%string) || negb (HasPrefix p "/"))) (kind +:+ " must be an absolute locator") ;;
  need (negb (Contains p ".." || ContainsAny p banned_options)) (kind +:+ " contains a banned character").
Definition ValidatePCIAddr (addr : string) : bool :=
  negb (negb (HasPrefix addr "0x") || bool_decide (length (bytes addr) < 3)%nat || bool_decide (6 < length (bytes addr))%nat) &&
  hex_digits (drop 2 (bytes addr)).

(** [strconv.ParseInt(addr, 0, 64)] for an address that [ValidatePCIAddr] accepts: [0x] and
    one to four hexadecimal digits. *)
Definition hex_value (l : list ascii) : Z := fold_left (fun acc a => acc * 16 + default 0 (hex_digit a)) l 0.
Definition pci_slot (addr : string) : Z := hex_value (drop 2 (bytes (TrimSpace addr))).

(** [fmt.Sprintf("0x%x", slot)]. *)
Fixpoint hex_loop (fuel : nat) (n : Z) (acc : list ascii) : list ascii :=
  match fuel with
  | O => acc
  | S fuel => let acc := hex_char (n mod 16) :: acc in if n <? 16 then acc else hex_loop fuel (n / 16) acc
  end.
Definition hexZ (n : Z) : string := ofBytes (hex_loop (S (Z.to_nat (Z.log2 n))) n []).
Definition slot_addr (slot : Z) : string := "0x" +:+ hexZ slot.

(** ** PCI addresses *)
Definition PCIVGA : string := "0x02".
Definition PCISerial : string := "0x03".
Definition PCIBalloon : string := "0x04".
Definition PCIFirstDisk : Z := 5.

(** The owner of each slot, where the search goes on, the address of each device. *)
Record slots := mkSlots { used : gmap Z string; next : Z; pci : gmap string string }.

Definition claim (used : gmap Z string) (key addr : string) : result string (gmap Z string) :=
  if decide (addr = ""%string) then Ok used
  else
    need (ValidatePCIAddr addr) "pci address must be 0xNN" ;;
    let slot := pci_slot addr in
    need (negb ((slot <? 2) || (31 <? slot))) ("pci address " +:+ addr +:+ " is out of range") ;;
    match used !! slot with
    | Some owner => if decide (owner = key) then Ok (<[slot := key]> used) else Err ("pci address " +:+ addr +:+ " is already used by " +:+ owner)
    | None => Ok (<[slot := key]> used)
    end.

Fixpoint nextFree_loop (fuel : nat) (used : gmap Z string) (start slot : Z) : string * Z :=
  match fuel with
  | O => ("0x1f"%string, start)
  | S fuel =>
      if bool_decide (used !! slot = None) && negb (slot =? 0) && negb (slot =? 1) then (slot_addr slot, slot + 1)
      else
        let slot := slot + 1 in
        let slot := if 31 <? slot then 2 else slot in
        if slot =? start then ("0x1f"%string, slot) else nextFree_loop fuel used start slot
  end.
(** Every slot is looked at within thirty steps: [nextFree_spec]. *)
Definition nextFree (used : gmap Z string) (start : Z) : string * Z := nextFree_loop 32 used start start.

(** A device that names no address takes the next free one. *)
Definition place (st : slots) (key addr : string) : result string (slots * string) :=
  let '(addr, next) := if decide (addr = ""%string) then nextFree (used st) (next st) else (addr, next st) in
  used ← claim (used st) key addr;
  Ok (mkSlots used next (<[key := addr]> (pci st)), addr).

Definition diskKey (role : string) (slot : Z) : string := "disk:" +:+ role +:+ ":" +:+ Itoa slot.
Definition nicKey (i : nat) : string := "nic:" +:+ Itoa (Z.of_nat i).
Definition set_disk_addr (d : Disk) (addr : string) : Disk :=
  mkDisk (dVolumeID d) (dRole d) (dSlot d) (dFormat d) (dReadOnly d) (dSizeBytes d) addr (dSource d) (dDeviceID d) (dBus d).
Definition set_nic_addr (n : NIC) (addr : string) : NIC := mkNIC (nID n) (nNetworkID n) (nMAC n) (nModel n) addr.
Definition set_devices (s : Spec) (disks : list Disk) (nics : list NIC) : Spec :=
  mkSpec (SchemaVersion s) (Name s) (CPUs s) (MemoryBytes s) (Machine s) (SFirmware s) (BootOrder s) disks nics (ISOLibraryID s)
    (CloudImageID s) (SNoCloud s) (Autostart s) (SConsole s) (Balloon s) (SecureBoot s) (USBs s) (PCIHosts s).

Section VmSpec.
Context `{CaseTables}.
Context (parse_uuid : string -> option (list Z)) (new_sha1 : string -> string) (sha256 : string -> list Z).

Definition diskUsesAHCI (d : Disk) : bool :=
  if decide (dRole d = DiskRoleCDROM) then true
  else
    let src := ToLower (TrimSpace (dSource d)) in
    let src := if decide (src = ""%string /\ dDeviceID d <> ""%string) then DiskSourcePhysical else src in
    bool_decide (src = DiskSourcePhysical) && (bool_decide (dBus d = ""%string) || bool_decide (dBus d = DiskBusAHCI)).

Fixpoint place_disks (st : slots) (disks : list Disk) : result string (slots * list Disk) :=
  match disks with
  | [] => Ok (st, [])
  | d :: disks =>
      if diskUsesAHCI d then '(st, rest) ← place_disks st disks; Ok (st, d :: rest)
      else
        '(st, addr) ← place st (diskKey (dRole d) (dSlot d)) (dPCIAddr d);
        '(st, rest) ← place_disks st disks; Ok (st, set_disk_addr d addr :: rest)
  end.
Fixpoint place_nics (st : slots) (i : nat) (nics : list NIC) : result string (slots * list NIC) :=
  match nics with
  | [] => Ok (st, [])
  | n :: nics =>
      '(st, addr) ← place st (nicKey i) (nPCIAddr n);
      '(st, rest) ← place_nics st (S i) nics; Ok (st, set_nic_addr n addr :: rest)
  end.

Definition fixed_slots (balloon : bool) : result string slots :=
  let pci0 : gmap string string := <["serial" := PCISerial]> (<["vga" := PCIVGA]> ∅) in
  let pci := if balloon then <["balloon" := PCIBalloon]> pci0 else pci0 in
  used ← claim ∅ "vga" PCIVGA;
  used ← claim used "serial" PCISerial;
  used ← (if balloon then claim used "balloon" PCIBalloon else Ok used);
  Ok (mkSlots used PCIFirstDisk pci).
Definition place_seed (st : slots) (enable : bool) : result string slots :=
  if enable && bool_decide (pci st !! diskKey DiskRoleCIDATA 0 = None)
  then fst <$> place st (diskKey DiskRoleCIDATA 0) "" else Ok st.

Definition AllocatePCI (spec : Spec) : result string (Spec * gmap string string) :=
  st ← fixed_slots (Balloon spec);
  '(st, disks) ← place_disks st (Disks spec);
  '(st, nics) ← place_nics st 0 (NICs spec);
  st ← place_seed st (cEnable (SNoCloud spec));
  Ok (set_devices spec disks nics, pci st).

(** ** Identity of the network cards *)
Definition MACFromID (stable : string) : string :=
  let b := take 6 (match parse_uuid (TrimSpace stable) with Some u => u | None => sha256 (TrimSpace stable) end) in
  macString (match b with b0 :: rest => Z.lor (Z.land b0 254) 2 :: rest | [] => [] end).
Definition TAPName (workloadID : string) (index : Z) : string :=
  "nv" +:+ join_with "" (map hex_byte (take 6 (sha256 (TrimSpace workloadID +:+ ":" +:+ Itoa index)))).

Definition persist_nic (workloadID : string) (i : nat) (n : NIC) : NIC :=
  let id := if decide (nID n = ""%string) then new_sha1 (TrimSpace workloadID +:+ ":nic:" +:+ Itoa (Z.of_nat i)) else nID n in
  mkNIC id (nNetworkID n) (if decide (nMAC n = ""%string) then MACFromID id else nMAC n)
    (if decide (nModel n = ""%string) then NICModelVirtio else nModel n) (nPCIAddr n).
Definition PersistNICs (workloadID : string) (spec : Spec) : Spec := set_devices spec (Disks spec) (imap (persist_nic workloadID) (NICs spec)).

(** ** Normal form *)
Definition normal_nic (n : NIC) : NIC :=
  mkNIC (nID n) (nNetworkID n) (nMAC n) (if decide (nModel n = ""%string) then NICModelVirtio else nModel n) (nPCIAddr n).
Definition normal_disk (d : Disk) : Disk :=
  let source := ToLower (TrimSpace (dSource d)) in
  let source := if decide (dDeviceID d <> ""%string /\ source = ""%string) then DiskSourcePhysical else source in
  let physical := bool_decide (source = DiskSourcePhysical) in
  mkDisk (if physical then "" else dVolumeID d) (dRole d) (dSlot d)
    (if physical && bool_decide (dFormat d = ""%string) then "raw" else dFormat d) (dReadOnly d) (dSizeBytes d) (dPCIAddr d) source (dDeviceID d)
    (if physical && bool_decide (dBus d = ""%string) then DiskBusAHCI else dBus d).
Definition normal_disks (disks : list Disk) : list Disk :=
  let disks := map normal_disk disks in
  if existsb (fun d => bool_decide (dRole d = DiskRoleBoot)) disks then disks
  else mkDisk "" DiskRoleBoot 0 "qcow2" false DefaultDiskBytes "" "" "" "" :: disks.
Definition normal_nocloud (name : string) (c : NoCloud) : NoCloud :=
  mkNoCloud (cEnable c)
    (if bool_decide (cHostname c = ""%string) && bool_decide (name <> ""%string) && cEnable c then name else cHostname c)
    (if bool_decide (cUsername c = ""%string) && cEnable c then "debian" else cUsername c)
    (cKeys c) (cPassword c) (cUserData c) (cNetworkConfig c)
    (bool_decide (cPassword c <> ""%string) || cHasPassword c).

Definition Normalize (spec : Spec) : Spec :=
  let name := TrimSpace (Name spec) in
  let firmware := ToLower (TrimSpace (SFirmware spec)) in
  mkSpec SchemaDesired name
    (if CPUs spec <? 1 then DefaultCPUs else CPUs spec)
    (if MemoryBytes spec <? 64 * 2 ^ 20 then DefaultMemory else MemoryBytes spec)
    (if decide (Machine spec = ""%string) then DefaultMachine else Machine spec)
    (if decide (firmware = ""%string) then FirmwareBIOS else firmware)
    (match BootOrder spec with
     | [] => if decide (TrimSpace (ISOLibraryID spec) <> ""%string) then ["cdrom"; "disk"]%string else ["disk"%string]
     | order => order
     end)
    (normal_disks (Disks spec)) (map normal_nic (NICs spec)) (ISOLibraryID spec) (CloudImageID spec)
    (normal_nocloud name (SNoCloud spec)) (Autostart spec)
    (if Serial (SConsole spec) || VNC (SConsole spec) then SConsole spec else mkConsole true true)
    (Balloon spec) (SecureBoot spec) (USBs spec) (PCIHosts spec).

(** What a response, a log and the stored row may show. *)
Definition userDataLooksSecret (s : string) : bool :=
  let lower := ToLower s in
  Contains lower "chpasswd" || Contains lower "hashed_passwd" ||
  existsb (fun line => let line := TrimSpace line in HasPrefix line "password:" || HasPrefix line "passwd:" || Contains line " password:") (Split lower lf).
Definition redact_nocloud (c : NoCloud) : NoCloud :=
  let secret := userDataLooksSecret (cUserData c) in
  mkNoCloud (cEnable c) (cHostname c) (cUsername c) (cKeys c) "" (if secret then "" else cUserData c) (cNetworkConfig c)
    (bool_decide (cPassword c <> ""%string) || secret || cHasPassword c).
Definition set_nocloud (s : Spec) (c : NoCloud) : Spec :=
  mkSpec (SchemaVersion s) (Name s) (CPUs s) (MemoryBytes s) (Machine s) (SFirmware s) (BootOrder s) (Disks s) (NICs s) (ISOLibraryID s)
    (CloudImageID s) c (Autostart s) (SConsole s) (Balloon s) (SecureBoot s) (USBs s) (PCIHosts s).
Definition Redact (spec : Spec) : Spec := set_nocloud spec (redact_nocloud (SNoCloud spec)).

(** ** Validation *)
Definition digits_only (s : string) : bool := forallb digit_char (bytes s).
Definition ValidateMachine (machine : string) : result string unit :=
  need (negb (bool_decide (machine = "q35"%string) || EqualFold machine "pc")) "machine type must be a pinned pc-q35-X.Y, not an alias" ;;
  need (HasPrefix machine "pc-q35-") "machine type must be pc-q35-X.Y" ;;
  match Split (TrimPrefix machine "pc-q35-") "."%char with
  | [a; b] =>
      need (negb (bool_decide (a = ""%string) || bool_decide (b = ""%string))) "machine type must be pc-q35-X.Y" ;;
      need (digits_only a && digits_only b) "machine type must be pc-q35-X.Y" ;;
      need (negb (ContainsAny machine banned_options)) "machine type contains a banned character"
  | _ => Err "machine type must be pc-q35-X.Y"%string
  end.
Definition ValidateMAC (mac : string) : result string unit :=
  let parts := Split (ToLower (TrimSpace mac)) ":"%char in
  need (bool_decide (length parts = 6)%nat) "mac must be six octets" ;;
  foldr (fun p rest => need (bool_decide (length (bytes p) = 2)%nat) "mac must be six octets" ;;
                       need (forallb lower_hex (bytes p)) "mac must be hex" ;; rest) (Ok ()) parts.
Definition ValidateWorkloadID (id : string) : result string unit :=
  need (bool_decide (is_Some (parse_uuid (TrimSpace id)))) "workload_id must be a UUID".
Definition ValidateUSBHex (v : string) : result string unit :=
  let v := ToLower (TrimSpace v) in
  need (bool_decide (length (bytes v) = 4)%nat) "must be 4 hex digits" ;; need (forallb lower_hex (bytes v)) "must be 4 hex digits".
Definition ValidateUSB (u : USB) : result string unit :=
  need (bool_decide (TrimSpace (uAddress u) <> ""%string)) "usb address is required" ;;
  need (negb (ContainsAny (uAddress u) (banned_options ++ [" "; "/"]%char))) "usb address contains a banned character" ;;
  ValidateUSBHex (uVendor u) ;; ValidateUSBHex (uProduct u).
Definition USBDeviceID (address : string) : string :=
  let clean := ofBytes (map (fun a => if one_of ["."; "-"; ":"]%char a then "_"%char else a) (bytes (TrimSpace address))) in
  if decide (clean = ""%string) then "usb0" else "usb_" +:+ clean.

Definition diskRoles : list string := [DiskRoleBoot; DiskRoleData; DiskRoleCDROM; DiskRoleCIDATA; DiskRoleVars].
Definition disk_source (d : Disk) : string :=
  let src := ToLower (TrimSpace (dSource d)) in if decide (src = ""%string /\ dDeviceID d <> ""%string) then DiskSourcePhysical else src.
Definition uuid_ok (s : string) : bool := bool_decide (is_Some (parse_uuid s)).

(** The disks: how many are for booting, which physical devices are taken. *)
Fixpoint validate_disks (disks : list Disk) (boot : Z) (phys : list string) : result string Z :=
  match disks with
  | [] => Ok boot
  | d :: disks =>
      need (bool_decide (dRole d ∈ diskRoles)) "disk has an unsupported role" ;;
      let boot := if decide (dRole d = DiskRoleBoot) then boot + 1 else boot in
      let id := TrimSpace (dDeviceID d) in
      let physical := bool_decide (disk_source d = DiskSourcePhysical) in
      (if physical then
         need (bool_decide (id <> ""%string)) "physical device_id is required" ;;
         need (negb (Contains id ".." || ContainsAny id banned_names)) "device_id is invalid" ;;
         need (bool_decide (id ∉ phys)) "physical device is already attached" ;;
         need (bool_decide (dVolumeID d = ""%string)) "disk is a physical device and must not reference a volume" ;;
         need (bool_decide (dFormat d = ""%string) || bool_decide (dFormat d = "raw"%string)) "physical format must be raw" ;;
         need (bool_decide (dBus d = ""%string) || bool_decide (dBus d = DiskBusAHCI) || bool_decide (dBus d = DiskBusVirtio)) "bus must be ahci or virtio-blk"
       else need (bool_decide (dVolumeID d = ""%string) || uuid_ok (dVolumeID d)) "volume_id must be a UUID") ;;
      need (bool_decide (dFormat d ∈ [""; "qcow2"; "raw"]%string)) "format must be qcow2 or raw" ;;
      need (bool_decide (dPCIAddr d = ""%string) || ValidatePCIAddr (dPCIAddr d)) "pci address must be 0xNN" ;;
      validate_disks disks boot (if physical then id :: phys else phys)
  end.
Fixpoint validate_nics (nics : list NIC) (macs : list string) : result string unit :=
  match nics with
  | [] => Ok ()
  | n :: nics =>
      need (uuid_ok (TrimSpace (nNetworkID n))) "network_id must be a UUID" ;;
      need (bool_decide (nModel n = ""%string) || bool_decide (nModel n = NICModelVirtio)) "model must be virtio" ;;
      let key := ToLower (nMAC n) in
      (if decide (nMAC n = ""%string) then Ok () else ValidateMAC (nMAC n) ;; need (bool_decide (key ∉ macs)) "mac is not unique") ;;
      need (bool_decide (nPCIAddr n = ""%string) || ValidatePCIAddr (nPCIAddr n)) "pci address must be 0xNN" ;;
      validate_nics nics (if decide (nMAC n = ""%string) then macs else key :: macs)
  end.

Definition Validate (spec : Spec) : result string unit :=
  let spec := Normalize spec in
  need (bool_decide (Name spec <> ""%string)) "name is required" ;;
  need (negb (ContainsAny (Name spec) banned_lines)) "name contains a banned character" ;;
  need (negb ((CPUs spec <? 1) || (64 <? CPUs spec))) "cpus must be between 1 and 64" ;;
  need (negb ((MemoryBytes spec <? 64 * 2 ^ 20) || (512 * 2 ^ 30 <? MemoryBytes spec))) "memory must be between 64 MiB and 512 GiB" ;;
  ValidateMachine (Machine spec) ;;
  need (bool_decide (SFirmware spec = FirmwareBIOS) || bool_decide (SFirmware spec = FirmwareUEFI)) "firmware must be bios or uefi" ;;
  need (negb (bool_decide (SFirmware spec = FirmwareUEFI) && ContainsAny (SFirmware spec) [","%char; "="%char; lf])) "firmware contains a banned character" ;;
  boot ← validate_disks (Disks spec) 0 [];
  need (boot =? 1) "exactly one boot disk is required" ;;
  need (negb (bool_decide (length (NICs spec) < 1)%nat)) "at least one NIC is required" ;;
  need (negb (bool_decide (8 < length (NICs spec))%nat)) "at most 8 NICs are supported" ;;
  validate_nics (NICs spec) [] ;;
  need (bool_decide (ISOLibraryID spec = ""%string) || uuid_ok (ISOLibraryID spec)) "iso_library_id must be a UUID" ;;
  need (bool_decide (CloudImageID spec = ""%string) || uuid_ok (CloudImageID spec)) "cloud_image_id must be a UUID" ;;
  need (forallb (fun item => bool_decide (item ∈ ["disk"; "cdrom"]%string)) (BootOrder spec)) "boot_order values must be disk or cdrom" ;;
  need (negb (ContainsAny (cUserData (SNoCloud spec)) [nul] || ContainsAny (cNetworkConfig (SNoCloud spec)) [nul])) "nocloud data contains a banned character" ;;
  need (negb (SecureBoot spec && bool_decide (SFirmware spec <> FirmwareUEFI))) "secure boot requires UEFI" ;;
  foldr (fun u rest => ValidateUSB u ;; rest) (Ok ()) (USBs spec) ;;
  need (forallb (fun host => negb (ContainsAny host banned_options)) (PCIHosts spec)) "pci host contains a banned character".

(** ** The cloud-init text *)
Fixpoint token_chars (first : bool) (l : list ascii) : bool :=
  match l with [] => true | a :: l => (alnum a || (Ascii.eqb a "-"%char && negb first)) && token_chars false l end.
Definition safeCloudToken (s : string) : bool :=
  negb (bool_decide (s = ""%string) || bool_decide (63 < length (bytes s))%nat) && token_chars true (bytes s).
Definition text_line (s : string) : string := s +:+ ofBytes [lf].
Fixpoint key_lines (keys : list string) : result string string :=
  match keys with
  | [] => Ok ""%string
  | key :: keys =>
      let key := TrimSpace key in
      if decide (key = ""%string) then key_lines keys
      else
        need (negb (ContainsAny key banned_lines)) "ssh key contains a banned character" ;;
        rest ← key_lines keys; Ok (text_line ("      - " +:+ key) +:+ rest)
  end.
Definition RenderUserData (n : NoCloud) : result string string :=
  if decide (TrimSpace (cUserData n) <> ""%string) then
    need (negb (ContainsAny (cUserData n) [nul])) "user-data contains a banned character" ;; Ok (cUserData n)
  else
    let user := TrimSpace (cUsername n) in
    let user := if decide (user = ""%string) then "debian"%string else user in
    need (safeCloudToken user) "username is not valid" ;;
    let host := TrimSpace (cHostname n) in
    hosts ← (if decide (host = ""%string) then Ok ""%string
             else need (safeCloudToken host) "hostname is not valid" ;;
                  Ok (text_line ("hostname: " +:+ host) +:+ text_line "manage_etc_hosts: true"));
    keys ← (match cKeys n with [] => Ok ""%string | l => text ← key_lines l; Ok (text_line "    ssh_authorized_keys:" +:+ text) end);
    password ← (if decide (cPassword n = ""%string) then Ok ""%string
                else need (negb (ContainsAny (cPassword n) banned_lines)) "password contains a banned character" ;;
                     Ok (text_line "chpasswd:" +:+ text_line "  expire: false" +:+ text_line "  list: |" +:+
                         text_line ("    " +:+ user +:+ ":" +:+ cPassword n) +:+ text_line "ssh_pwauth: true"));
    Ok (text_line "#cloud-config" +:+ hosts +:+
        text_line "users:" +:+ text_line ("  - name: " +:+ user) +:+ text_line "    sudo: ALL=(ALL) NOPASSWD:ALL" +:+ text_line "    groups: sudo" +:+
        text_line "    shell: /bin/bash" +:+ text_line ("    lock_passwd: " +:+ (if decide (cPassword n = ""%string) then "true" else "false")) +:+
        keys +:+ password).

(** ** Compilation *)
Definition RuntimeRoot : string := "/var/lib/ndl/runtime/qemu".
Definition StorageRoot : string := "/var/lib/ndl/storage".
Definition ByIDPrefix : string := "/dev/disk/by-id/".
Definition bootChars (order : list string) : string :=
  let chars := fold_left (fun acc item =>
    let c := if decide (item = "cdrom"%string) then "d"%char else "c"%char in if decide (c ∈ acc) then acc else acc ++ [c]) order [] in
  match chars with [] => "c" | _ => ofBytes chars end.
Definition allowedFirmware (p : string) : bool :=
  bool_decide (p ∈ ["/usr/share/OVMF/OVMF_CODE_4M.fd"; "/usr/share/OVMF/OVMF_CODE.fd"; "/usr/share/OVMF/OVMF_CODE_4M.secboot.fd";
    "/usr/share/OVMF/OVMF_CODE.secboot.fd"; "/usr/share/qemu/OVMF_CODE_4M.fd"; "/usr/share/qemu/OVMF_CODE.fd"]%string).
(** Whether it is a zvol, and whether it is a block device. *)
Definition hostBlockDisk (p : string) : bool * bool :=
  if ValidateZVolPath p then (true, true)
  else if ValidateLVMDevice p || ValidateRBDPath p || ValidateNBDPath p then (false, true)
  else if HasPrefix p ISCSIByPath && bool_decide (Clean p = p) && negb (Contains p "..") then (false, true)
  else (false, HasPrefix p ByIDPrefix && bool_decide (Clean p = p) && negb (Contains p "..")).

(** [gpu.ParseGPUID]: [0000:00:00.0]. *)
Definition bdfRe (id : string) : bool :=
  match bytes id with
  | [a; b; c; d; s; e; f; t; g; h; u; k] => hex_digits [a; b; c; d; e; f; g; h; k] && Ascii.eqb s ":"%char && Ascii.eqb t ":"%char && Ascii.eqb u "."%char
  | _ => false
  end.
Definition ParseGPUID (id : string) : result string string :=
  let id := TrimSpace id in
  need (bool_decide (id <> ""%string)) "gpu_id is required" ;;
  need (negb (EqualFold id "all")) "gpu=all is refused" ;;
  need (bdfRe id) "gpu_id must be a PCI address" ;; Ok (ToLower id).

Section Compile.
Context (workloadID : string) (resolved : Resolved).
Definition runtime_prefix : string := RuntimeRoot +:+ "/" +:+ workloadID +:+ "/".

Definition compile_firmware (spec : Spec) : result string Firmware :=
  if decide (SFirmware spec = FirmwareUEFI) then
    need (match ValidateCleanPath (rFirmwareCode resolved) "firmware code" with Ok _ => true | Err _ => false end) "uefi firmware is unavailable" ;;
    need (allowedFirmware (rFirmwareCode resolved)) "firmware code path is not a host firmware file" ;;
    let vars := if decide (rFirmwareVarsIn resolved = ""%string) then Join [RuntimeRoot; workloadID; "vars.fd"%string] else rFirmwareVarsIn resolved in
    ValidateCleanPath vars "firmware vars" ;;
    need (HasPrefix vars runtime_prefix) "firmware vars must be per-VM runtime state" ;;
    need (negb (SecureBoot spec) || Contains (rFirmwareCode resolved) "secboot") "secure boot firmware is unavailable" ;;
    Ok (mkFirmware (SFirmware spec) (rFirmwareCode resolved) vars (SecureBoot spec))
  else Ok (mkFirmware (SFirmware spec) "" "" false).

Definition compile_disk (spec : Spec) (i : nat) (d : ResolvedDisk) : result string LaunchDisk :=
  ValidateCleanPath (rdPath d) "disk path" ;;
  let physical := bool_decide (rdSource d = DiskSourcePhysical) || HasPrefix (rdPath d) ByIDPrefix in
  let underStorage := HasPrefix (rdPath d) (StorageRoot +:+ "/") || HasPrefix (rdPath d) runtime_prefix in
  let '(zvol, block) := hostBlockDisk (rdPath d) in
  need (underStorage || block || physical) "disk path must be a VolumeHandle locator" ;;
  need (negb physical || HasPrefix (rdPath d) ByIDPrefix) "physical disk path must be a /dev/disk/by-id locator" ;;
  let format := if decide (rdFormat d = ""%string) then (if block || physical then "raw"%string else "qcow2"%string) else rdFormat d in
  need (negb (zvol && bool_decide (format <> "raw"%string))) "zvol disk format must be raw" ;;
  need (negb ((block || physical) && bool_decide (format <> "raw"%string))) "block disk format must be raw" ;;
  need (bool_decide (format = "qcow2"%string) || bool_decide (format = "raw"%string)) "disk format must be qcow2 or raw" ;;
  let addr := if decide (rdPCIAddr d = ""%string) then match Disks spec !! i with Some sd => dPCIAddr sd | None => ""%string end else rdPCIAddr d in
  let bus := if physical && bool_decide (rdBus d = ""%string) then DiskBusAHCI else rdBus d in
  Ok (mkLDisk (rdVolumeID d) (rdRole d) (rdSlot d) (rdPath d) format
        (rdReadOnly d || bool_decide (rdRole d = DiskRoleCDROM) || bool_decide (rdRole d = DiskRoleCIDATA)) addr
        ("disk" +:+ Itoa (Z.of_nat i)) (rdSource d) (rdDeviceID d) bus (rdSerial d) (rdDiscard d)).
Fixpoint compile_disks (spec : Spec) (i : nat) (disks : list ResolvedDisk) : result string (list LaunchDisk) :=
  match disks with
  | [] => Ok []
  | d :: disks => ld ← compile_disk spec i d; rest ← compile_disks spec (S i) disks; Ok (ld :: rest)
  end.

Definition compile_nic (spec : Spec) (i : nat) (n : ResolvedNIC) : result string LaunchNIC :=
  ValidateMAC (rnMAC n) ;;
  let tap := if decide (rnTAPName n = ""%string) then TAPName workloadID (Z.of_nat i) else rnTAPName n in
  need (negb (bool_decide (15 < length (bytes tap))%nat || ContainsAny tap banned_names)) "tap name is invalid" ;;
  need (negb (bool_decide (rnBridgeName n = ""%string) || ContainsAny (rnBridgeName n) banned_names)) "bridge name is invalid" ;;
  let addr := if decide (rnPCIAddr n = ""%string) then match NICs spec !! i with Some sn => nPCIAddr sn | None => ""%string end else rnPCIAddr n in
  Ok (mkLNIC (rnID n) (rnNetworkID n) (rnBridgeName n) tap (ToLower (rnMAC n)) NICModelVirtio addr).
Fixpoint compile_nics (spec : Spec) (i : nat) (nics : list ResolvedNIC) : result string (list LaunchNIC) :=
  match nics with
  | [] => Ok []
  | n :: nics => ln ← compile_nic spec i n; rest ← compile_nics spec (S i) nics; Ok (ln :: rest)
  end.

Definition compile_iso (spec : Spec) : result string (list LaunchDisk) :=
  if decide (ISOLibraryID spec = ""%string) then Ok []
  else
    need (match ValidateCleanPath (rISOPath resolved) "iso path" with Ok _ => true | Err _ => false end) "installation media is unavailable" ;;
    need (HasPrefix (rISOPath resolved) (StorageRoot +:+ "/")) "iso path must be a library locator" ;;
    Ok [mkLDisk "" DiskRoleCDROM 0 (rISOPath resolved) "raw" true "" "iso0" "" "" "" "" false].
Definition compile_seed (spec : Spec) (pci : gmap string string) : result string (option LaunchNoCloud * list LaunchDisk) :=
  let c := SNoCloud spec in
  if cEnable c then
    let img := Join [RuntimeRoot; workloadID; "cidata.fat"%string] in
    userData ← RenderUserData c;
    Ok (Some (mkLNoCloud true (cHostname c) (cUsername c) img (cHasPassword c || bool_decide (cPassword c <> ""%string))
               (join_with "" (map hex_byte (sha256 userData))) (cNetworkConfig c)),
        [mkLDisk "" DiskRoleCIDATA 0 img "raw" true (default ""%string (pci !! diskKey DiskRoleCIDATA 0)) "cidata" "" "" "" "" false])
  else Ok (None, []).
Fixpoint compile_usbs (usbs : list USB) : result string (list LaunchUSB) :=
  match usbs with
  | [] => Ok []
  | u :: usbs =>
      ValidateUSB u ;; rest ← compile_usbs usbs;
      Ok (mkLUSB (uAddress u) (ToLower (uVendor u)) (ToLower (uProduct u)) (USBDeviceID (uAddress u)) :: rest)
  end.
Definition vfioFirstSlot : Z := 26.
(** Passed-through devices sit from slot 0x1a on. *)
Fixpoint compile_gpus (slot : Z) (hosts : list string) : result string (list LaunchGPU) :=
  match hosts with
  | [] => Ok []
  | host :: hosts =>
      addr ← ParseGPUID host;
      need (ValidatePCIAddr (slot_addr slot)) "pci address must be 0xNN" ;;
      rest ← compile_gpus (slot + 1) hosts; Ok (mkLGPU addr (slot_addr slot) :: rest)
  end.

Definition Compile (spec : Spec) : result string Launch :=
  ValidateWorkloadID workloadID ;;
  let spec := PersistNICs workloadID (Normalize spec) in
  Validate spec ;;
  '(spec, pci) ← AllocatePCI spec;
  let accel := if decide (rAccel resolved = ""%string) then "tcg"%string else rAccel resolved in
  need (bool_decide (accel = "kvm"%string) || bool_decide (accel = "tcg"%string)) "accel must be kvm or tcg" ;;
  let memory := Z.quot (MemoryBytes spec) (2 ^ 20) in
  firmware ← compile_firmware spec;
  need (bool_decide (rDisks resolved <> [])) "resolved disks are required" ;;
  disks ← compile_disks spec 0 (rDisks resolved);
  need (bool_decide (rNICs resolved <> [])) "resolved nics are required" ;;
  nics ← compile_nics spec 0 (rNICs resolved);
  iso ← compile_iso spec;
  '(nocloud, seed) ← compile_seed spec pci;
  usbs ← compile_usbs (USBs spec);
  gpus ← compile_gpus vfioFirstSlot (PCIHosts spec);
  Ok (mkLaunch SchemaLaunch workloadID (Machine spec) accel (CPUs spec) (if memory <? 64 then 128 else memory) firmware (disks ++ iso ++ seed) nics pci
        (Autostart spec) (SConsole spec) nocloud (Balloon spec) (bootChars (BootOrder spec)) true gpus usbs (fSecureBoot firmware)).
End Compile.

(** ** How an edit applies ([nocloud.go]) *)
Inductive Apply := ApplyLive | ApplyRestart | ApplyStop | ApplyUnsupported.
#[local] Instance Apply_eq_dec : EqDecision Apply.
Proof. solve_decision. Defined.
Record ApplyClass := mkApply { acField : string; acApply : Apply }.

Definition nocloudChanged (a b : NoCloud) : bool :=
  negb (Bool.eqb (cEnable a) (cEnable b)) || bool_decide (cHostname a <> cHostname b) || bool_decide (cUsername a <> cUsername b) ||
  bool_decide (cUserData a <> cUserData b) || bool_decide (cNetworkConfig a <> cNetworkConfig b) ||
  bool_decide (cPassword a <> ""%string) || bool_decide (cPassword b <> ""%string) || bool_decide (cKeys a <> cKeys b).
Definition disksChanged (a b : list Disk) : bool :=
  bool_decide (length a <> length b) ||
  existsb (fun p => bool_decide (dVolumeID p.1 <> dVolumeID p.2) || bool_decide (dRole p.1 <> dRole p.2) || negb (Bool.eqb (dReadOnly p.1) (dReadOnly p.2)) ||
                    bool_decide (dDeviceID p.1 <> dDeviceID p.2) || bool_decide (dSource p.1 <> dSource p.2)) (zip a b).
Definition nicsChanged (a b : list NIC) : bool :=
  bool_decide (length a <> length b) ||
  existsb (fun p => bool_decide (nNetworkID p.1 <> nNetworkID p.2) || bool_decide (nID p.1 <> nID p.2)) (zip a b).
Definition usbsChanged (a b : list USB) : bool :=
  bool_decide (length a <> length b) ||
  existsb (fun p => bool_decide (uAddress p.1 <> uAddress p.2) || bool_decide (uVendor p.1 <> uVendor p.2) || bool_decide (uProduct p.1 <> uProduct p.2)) (zip a b).
Definition pciHostsChanged (a b : list string) : bool := bool_decide (a <> b).

Definition ClassifyEdit (prev next : Spec) : list ApplyClass :=
  let prev := Normalize prev in
  let next := Normalize next in
  let add (field : string) (apply : Apply) (changed : bool) := if changed then [mkApply field apply] else [] in
  add "autostart" ApplyLive (negb (Bool.eqb (Autostart prev) (Autostart next))) ++
  add "cpus" ApplyRestart (negb (CPUs prev =? CPUs next)) ++
  add "memory_bytes" ApplyRestart (negb (MemoryBytes prev =? MemoryBytes next)) ++
  add "machine" ApplyUnsupported (bool_decide (Machine prev <> Machine next)) ++
  add "firmware" ApplyStop (bool_decide (SFirmware prev <> SFirmware next)) ++
  add "secure_boot" ApplyStop (negb (Bool.eqb (SecureBoot prev) (SecureBoot next))) ++
  add "iso_library_id" ApplyStop (bool_decide (ISOLibraryID prev <> ISOLibraryID next)) ++
  add "nocloud" ApplyRestart (nocloudChanged (SNoCloud prev) (SNoCloud next)) ++
  add "disks" ApplyStop (disksChanged (Disks prev) (Disks next)) ++
  add "nics" ApplyStop (nicsChanged (NICs prev) (NICs next)) ++
  add "usbs" ApplyLive (usbsChanged (USBs prev) (USBs next)) ++
  add "pci_hosts" ApplyStop (pciHostsChanged (PCIHosts prev) (PCIHosts next)) ++
  add "name" ApplyRestart (bool_decide (Name prev <> Name next)).

Definition RequiresStop (classes : list ApplyClass) : bool :=
  existsb (fun c => bool_decide (acApply c = ApplyStop) || bool_decide (acApply c = ApplyUnsupported)) classes.
Definition RequiresRestart (classes : list ApplyClass) : bool := existsb (fun c => bool_decide (acApply c = ApplyRestart)) classes.
Definition HasUnsupported (classes : list ApplyClass) : bool := existsb (fun c => bool_decide (acApply c = ApplyUnsupported)) classes.

(** ** The server's side ([httpapi/phase8.go])

    A row stores the redacted machine; reading it back gives its normal form. *)
Definition stored (spec : Spec) : Spec := Redact spec.
Definition reread (row : Spec) : Spec := Normalize row.

Record vm_patch := mkPatch {
  vName : string; vCPUs : Z; vMemoryBytes : Z; vFirmware : string; vAutostart : option bool; vISO : option string; vNoCloud : option NoCloud }.

(** [library id] is the identifier of an installation medium that may be used. *)
Definition patch_iso (library : string -> option string) (prev : string) (iso : option string) : result string string :=
  match iso with
  | None => Ok prev
  | Some id => let id := TrimSpace id in
      if decide (id = ""%string) then Ok ""%string
      else match library id with Some id => Ok id | None => Err "installation media is unavailable"%string end
  end.
Definition patch_nocloud (prev : NoCloud) (nc : option NoCloud) : NoCloud :=
  match nc with
  | None => prev
  | Some c => mkNoCloud true (cHostname c) (cUsername c) (cKeys c) (cPassword c) (cUserData c) (cNetworkConfig c)
                (if decide (cPassword c = ""%string) then cHasPassword prev else cHasPassword c)
  end.
Definition patch_spec (library : string -> option string) (prev : Spec) (req : vm_patch) : result string Spec :=
  iso ← patch_iso library (ISOLibraryID prev) (vISO req);
  Ok (mkSpec (SchemaVersion prev) (if decide (vName req = ""%string) then Name prev else vName req)
        (if 0 <? vCPUs req then vCPUs req else CPUs prev) (if 0 <? vMemoryBytes req then vMemoryBytes req else MemoryBytes prev)
        (Machine prev) (if decide (vFirmware req = ""%string) then SFirmware prev else vFirmware req) (BootOrder prev)
        (Disks prev) (NICs prev) iso (CloudImageID prev) (patch_nocloud (SNoCloud prev) (vNoCloud req))
        (default (Autostart prev) (vAutostart req)) (SConsole prev) (Balloon prev) (SecureBoot prev) (USBs prev) (PCIHosts prev)).

(** The machine an edit leads to, and whether it waits for a restart.  The copy of the machine
    that is edited shares its disks and cards with the original: what is filled in in one
    shows in the other. *)
Definition patchVM (library : string -> option string) (id : string) (row : Spec) (running : bool) (req : vm_patch) : result string (Spec * bool) :=
  let prev := reread row in
  next ← patch_spec library prev req;
  let next := PersistNICs id (Normalize next) in
  let classes := ClassifyEdit (set_devices prev (Disks next) (NICs next)) next in
  need (negb (HasUnsupported classes)) "this spec change is not supported in Phase 8" ;;
  need (negb (running && RequiresStop classes)) "this spec change requires the VM to be stopped" ;;
  Validate next ;;
  Ok (next, running && RequiresRestart classes).

(** The machine a new row holds, and the launch each start makes of a row. *)
Definition create_spec (id : string) (spec : Spec) : result string (Spec * gmap string string) :=
  '(spec, pci) ← AllocatePCI (PersistNICs id spec);
  Validate spec ;; Ok (spec, pci).
Definition reprepareVM (resolve : Spec -> result string Resolved) (id : string) (row : Spec) : result string Launch :=
  '(spec, _) ← create_spec id (reread row);
  resolved ← resolve spec; Compile id resolved spec.

(** *** What a new machine's devices resolve to

    The device behind a physical disk, the volume of an identifier and a format, and the
    bridge of a network are found elsewhere. *)
Record device := mkDevice { vdID : string; vdPath : string; vdSerial : string; vdDiscard : bool }.
Record volume := mkVolume { vvID : string; vvPath : string; vvFormat : string }.
Record found := mkFound {
  find_device : Disk -> result string device; boot_volume : result string volume; get_volume : string -> string -> result string volume;
  find_network : string -> result string (string * string); iso_path : string; firmware_code : string; accel_found : string }.

Definition firstNonEmpty (l : list string) : string := default ""%string (List.find (fun s => bool_decide (TrimSpace s <> ""%string)) l).
Definition isPhysicalSpecDisk (d : Disk) : bool := EqualFold (TrimSpace (dSource d)) DiskSourcePhysical || bool_decide (TrimSpace (dDeviceID d) <> ""%string).
Definition resolvePhysicalDisk (f : found) (d : Disk) : result string ResolvedDisk :=
  dv ← find_device f d;
  Ok (mkRDisk "" (firstNonEmpty [dRole d; DiskRoleData]) (dSlot d) (vdPath dv) "raw" (dReadOnly d) (dPCIAddr d) DiskSourcePhysical (vdID dv)
        (firstNonEmpty [dBus d; DiskBusAHCI]) (firstNonEmpty [vdSerial dv; vdID dv]) (vdDiscard dv)).
Definition resolve_disk (f : found) (vol : option volume) (d : Disk) : result string (list ResolvedDisk) :=
  if decide (dRole d ∈ [DiskRoleCDROM; DiskRoleCIDATA; DiskRoleVars]) then Ok []
  else if isPhysicalSpecDisk d then rd ← resolvePhysicalDisk f d; Ok [rd]
  else
    match vol, bool_decide (dRole d = DiskRoleBoot) with
    | Some v, true => Ok [mkRDisk (vvID v) DiskRoleBoot 0 (vvPath v) (vvFormat v) false (dPCIAddr d) "" "" "" "" false]
    | _, _ =>
        if bool_decide (dRole d <> DiskRoleData) || bool_decide (TrimSpace (dVolumeID d) = ""%string) ||
           match vol with Some v => bool_decide (dVolumeID d = vvID v) | None => false end
        then Ok []
        else v ← get_volume f (dVolumeID d) (dFormat d);
             Ok [mkRDisk (vvID v) DiskRoleData (dSlot d) (vvPath v) (vvFormat v) (dReadOnly d) (dPCIAddr d) "" "" "" "" false]
    end.
Fixpoint resolve_disks (f : found) (vol : option volume) (disks : list Disk) : result string (list ResolvedDisk) :=
  match disks with [] => Ok [] | d :: disks => rd ← resolve_disk f vol d; rest ← resolve_disks f vol disks; Ok (rd ++ rest) end.
Fixpoint resolve_nics (f : found) (id : string) (i : nat) (nics : list NIC) : result string (list ResolvedNIC) :=
  match nics with
  | [] => Ok []
  | n :: nics =>
      '(net, bridge) ← find_network f (nNetworkID n); rest ← resolve_nics f id (S i) nics;
      Ok (mkRNIC (nID n) net bridge (nMAC n) (nModel n) (nPCIAddr n) (TAPName id (Z.of_nat i)) :: rest)
  end.
Definition specHasPhysicalBoot (spec : Spec) : bool := existsb (fun d => bool_decide (dRole d = DiskRoleBoot) && isPhysicalSpecDisk d) (Disks spec).
Definition resolveVM (f : found) (id : string) (spec : Spec) : result string (Resolved * option volume) :=
  nics ← resolve_nics f id 0 (NICs spec);
  need (bool_decide (nics <> [])) "network is not found" ;;
  let physicalBoot := specHasPhysicalBoot spec in
  need (negb (physicalBoot && bool_decide (CloudImageID spec <> ""%string))) "a cloud image cannot be applied to a physical boot disk" ;;
  vol ← (if physicalBoot then Ok None else Some <$> boot_volume f);
  disks ← resolve_disks f vol (Disks spec);
  need (bool_decide (disks <> [])) "VM storage is unavailable" ;;
  Ok (mkResolved disks nics (iso_path f) (firmware_code f) "" (accel_found f), vol).

(** A request for a new machine: a description, and fields of their own that override it.  It
    asks for no host device: those are added later. *)
Record create_request := mkCreate {
  qSpec : option Spec; qName : string; qCPUs : Z; qMemoryBytes : Z; qFirmware : string; qSecureBoot : bool; qAutostart : bool; qBalloon : bool;
  qISOLibraryID : string; qCloudImageID : string; qNoCloud : NoCloud; qNetworkID : string; qVolumeID : string }.
Definition blank_nocloud : NoCloud := mkNoCloud false "" "" [] "" "" "" false.
Definition blank_spec : Spec := mkSpec "" "" 0 0 "" "" [] [] [] "" "" blank_nocloud false (mkConsole false false) false false [] [].
Definition or_else (a b : string) : string := if decide (a = ""%string) then b else a.
Definition set_boot_volume (volumeID : string) (disks : list Disk) : list Disk :=
  if decide (volumeID = ""%string) then disks
  else if existsb (fun d => bool_decide (dRole d = DiskRoleBoot)) disks then
    map (fun d => if decide (dRole d = DiskRoleBoot) then
                    mkDisk volumeID (dRole d) (dSlot d) (dFormat d) (dReadOnly d) (dSizeBytes d) (dPCIAddr d) (dSource d) (dDeviceID d) (dBus d) else d) disks
  else mkDisk volumeID DiskRoleBoot 0 "qcow2" false 0 "" "" "" "" :: disks.
Definition specFromCreate (req : create_request) : Spec :=
  let spec := match qSpec req with Some spec => Normalize spec | None => blank_spec end in
  let c := qNoCloud req in
  let given := cEnable c || bool_decide (cUsername c <> ""%string) || bool_decide (cHostname c <> ""%string) || bool_decide (cPassword c <> ""%string) ||
    bool_decide (cUserData c <> ""%string) || bool_decide (cKeys c <> []) in
  Normalize (mkSpec (SchemaVersion spec) (or_else (qName req) (Name spec)) (if 0 <? qCPUs req then qCPUs req else CPUs spec)
    (if 0 <? qMemoryBytes req then qMemoryBytes req else MemoryBytes spec) (Machine spec) (or_else (qFirmware req) (SFirmware spec)) (BootOrder spec)
    (set_boot_volume (qVolumeID req) (Disks spec))
    (if bool_decide (qNetworkID req <> ""%string) && bool_decide (NICs spec = []) then [mkNIC "" (qNetworkID req) "" "" ""] else NICs spec)
    (or_else (qISOLibraryID req) (ISOLibraryID spec)) (or_else (qCloudImageID req) (CloudImageID spec))
    (if given then mkNoCloud true (cHostname c) (cUsername c) (cKeys c) (cPassword c) (cUserData c) (cNetworkConfig c) (cHasPassword c) else SNoCloud spec)
    (qAutostart req) (SConsole spec) (qBalloon req) (SecureBoot spec || qSecureBoot req) [] []).
(** The row names the volume that was made for the boot disk. *)
Definition own_disk (v : volume) (d : Disk) : Disk :=
  if decide (dRole d = DiskRoleBoot /\ isPhysicalSpecDisk d = false) then
    mkDisk (vvID v) (dRole d) (dSlot d) (dFormat d) (dReadOnly d) (dSizeBytes d) (dPCIAddr d) (dSource d) (dDeviceID d) (dBus d) else d.
Definition own_boot (vol : option volume) (spec : Spec) : Spec :=
  match vol with Some v => set_devices spec (map (own_disk v) (Disks spec)) (NICs spec) | None => spec end.
Definition createVM (f : found) (id : string) (spec : Spec) : result string (Spec * Launch) :=
  '(spec, _) ← create_spec id spec;
  '(resolved, vol) ← resolveVM f id spec;
  launch ← Compile id resolved spec;
  Ok (own_boot vol spec, launch).
End VmSpec.
