(* ===== verification/Qemu.v ===== *)
(** * The command line of a virtual machine ([src/internal/qemu])

    A frozen launch becomes the arguments of QEMU ([launch.go], [usb.go]), which are checked
    once more as the file that starts the machine ([validate.go]); devices are added to and
    removed from a frozen launch ([vfio.go], [usb.go]), and the devices QEMU reports are
    compared with it ([querypci.go]). *)
From stdpp Require Import gmap.
From S2P Require Export VmSpec.

Definition BinQEMU : string := "/usr/bin/qemu-system-x86_64".
Definition IncomingDefer : string := "defer".
Definition GuestAgentName : string := "org.qemu.guest_agent.0".
Definition NodalGuestName : string := "org.nodal.guest.0".
Definition allowedLaunchFlags : list string :=
  ["-name"; "-machine"; "-accel"; "-cpu"; "-smp"; "-m"; "-nodefaults"; "-no-user-config"; "-display"; "-blockdev"; "-device"; "-chardev"; "-mon";
   "-serial"; "-vnc"; "-netdev"; "-boot"; "-drive"; "-incoming"]%string.

Definition validateInterpolated (name value : string) : result string unit :=
  need (negb (ContainsAny value banned_options)) (name +:+ " contains a banned character").
Definition joined (argv : list string) : string := join_with " " argv.
(** Every [-incoming] is followed by [defer]. *)
Fixpoint incoming_ok (argv : list string) : bool :=
  match argv with
  | [] => true
  | a :: rest => (if decide (a = "-incoming"%string) then match rest with v :: _ => bool_decide (v = IncomingDefer) | [] => false end else true) && incoming_ok rest
  end.

Section Qemu.
Context `{CaseTables}.
Context (parse_uuid : string -> option (list Z)).

Definition ValidateDiskPath (diskPath : string) : result string unit :=
  need (negb (bool_decide (diskPath = ""%string) || negb (HasPrefix diskPath "/"))) "disk_path must be an absolute VolumeHandle locator" ;;
  need (negb (Contains diskPath "..")) "disk_path is not a clean locator" ;;
  need (negb (ContainsAny diskPath banned_options)) "disk_path contains a banned character" ;;
  let cleaned := Clean diskPath in
  need (bool_decide (cleaned = diskPath)) "disk_path is not a clean locator" ;;
  if bool_decide (cleaned = StorageRoot) || HasPrefix cleaned (StorageRoot +:+ "/") then Ok ()
  else if HasPrefix cleaned ZVolDevPrefix then need (ValidateZVolPath cleaned) "zvol locator is invalid"
  else if ValidateLVMDevice cleaned then Ok ()
  else if HasPrefix cleaned ISCSIByPath then need (negb (Contains cleaned "..")) "disk_path is not a clean locator"
  else if HasPrefix cleaned (LVMMountRoot +:+ "/") then Ok ()
  else if ValidateRBDPath cleaned then Ok ()
  else if ValidateNBDPath cleaned then Ok ()
  else if HasPrefix cleaned ByIDPrefix then
    let rest := TrimPrefix cleaned ByIDPrefix in
    need (negb (bool_decide (rest = ""%string) || Contains rest "/")) "disk_path is not a clean locator"
  else Err "disk_path must be under the storage root"%string.

Definition ValidateFrozenArgv (id : string) (argv : list string) : result string unit :=
  ValidateWorkloadID parse_uuid id ;;
  need (negb (bool_decide (length argv < 2)%nat) && bool_decide (head argv = Some BinQEMU)) "frozen argv is not a typed qemu command" ;;
  let text := joined argv in
  need (negb (Contains text "/bin/sh" || Contains text "/bin/bash" || Contains text "Host.Exec")) "frozen argv must not invoke a shell" ;;
  need (Contains text "mode=control") "QMP control monitor is required" ;;
  need (negb (Contains text "mode=human" || Contains text "monitor stdio")) "human monitor is forbidden" ;;
  need (forallb (fun a => negb (ContainsAny a (banned_lines ++ [";"%char])) && (negb (HasPrefix a "-") || bool_decide (a ∈ allowedLaunchFlags))) argv)
    "argv contains a banned character or flag" ;;
  need (incoming_ok argv) "incoming must be defer".

(** ** From a launch to arguments *)
Definition cpuForAccel (accel : string) : string := if decide (accel = "kvm"%string) then "host" else "qemu64".
Definition safeBoot (order : string) : string :=
  match filter (fun a => a = "c"%char \/ a = "d"%char) (bytes order) with [] => "c" | l => ofBytes l end.
Definition bootIndex (order : string) (device : ascii) : Z :=
  match list_find (fun a => a = device) (bytes order) with Some (i, _) => Z.of_nat i + 1 | None => 0 end.
Definition isPhysicalLaunchDisk (d : LaunchDisk) : bool := bool_decide (ldSource d = DiskSourcePhysical) || HasPrefix (ldPath d) ByIDPrefix.
Definition usesAHCI (d : LaunchDisk) : bool :=
  bool_decide (ldRole d = DiskRoleCDROM) || (isPhysicalLaunchDisk d && (bool_decide (ldBus d = ""%string) || bool_decide (ldBus d = DiskBusAHCI))).
Definition qemuSerial (serial deviceID : string) : string :=
  let s := TrimSpace serial in
  let s := if decide (s = ""%string) then TrimSpace deviceID else s in
  let s := ofBytes (filter (fun a => a <> slash) (bytes s)) in
  if ContainsAny s [","; "="; lf; cr; " "]%char then "" else ofBytes (take 20 (bytes s)).
Definition validateLaunchDisk (id : string) (d : LaunchDisk) : result string unit :=
  need (negb (bool_decide (ldNodeName d = ""%string) || ContainsAny (ldNodeName d) [","%char; "="%char; lf])) "disk node-name is invalid" ;;
  need (bool_decide (ldFormat d = "qcow2"%string) || bool_decide (ldFormat d = "raw"%string)) "disk format must be qcow2 or raw" ;;
  need (negb (isPhysicalLaunchDisk d && bool_decide (ldFormat d <> "raw"%string))) "physical disk format must be raw" ;;
  if HasPrefix (ldPath d) (runtime_prefix id) then ValidateCleanPath (ldPath d) "disk path" else ValidateDiskPath (ldPath d).

Definition usbHostDevice (u : LaunchUSB) : result string string :=
  ValidateUSB (mkUSB (luAddress u) (luVendor u) (luProduct u)) ;;
  let id := if decide (luID u = ""%string) then USBDeviceID (luAddress u) else luID u in
  need (negb (ContainsAny id [","%char; "="%char; lf])) "usb id contains a banned character" ;;
  Ok ("usb-host,id=" +:+ id +:+ ",vendorid=0x" +:+ ToLower (luVendor u) +:+ ",productid=0x" +:+ ToLower (luProduct u)).

(** The boot order's index, where the device is in it. *)
Definition boot_option (launch : Launch) (device : ascii) : string :=
  let idx := bootIndex (lBootOrder launch) device in if 0 <? idx then ",bootindex=" +:+ Itoa idx else "".
Definition serial_option (d : LaunchDisk) : string :=
  let s := qemuSerial (ldSerial d) (ldDeviceID d) in if decide (s = ""%string) then "" else ",serial=" +:+ s.

Section Compile.
Context (dataDir : string) (launch : Launch).
Let id := lWorkloadID launch.
Definition runtimeDir : string := Join [(if decide (dataDir = ""%string) then "/var/lib/ndl"%string else dataDir); "runtime"; "qemu"; lWorkloadID launch]%string.
Definition socket (name : string) : string := Join [runtimeDir; name].
Definition pci_of (key fallback : string) : string := let addr := default ""%string (lPCI launch !! key) in if decide (addr = ""%string) then fallback else addr.

(** The arguments of one disk, and the next free port of the AHCI controller. *)
Definition disk_args (port : Z) (d : LaunchDisk) : result string (list string * Z) :=
  validateLaunchDisk id d ;;
  let ro := if ldReadOnly d then ",read-only=on" else "" in
  let fileNode := ldNodeName d +:+ "-file" in
  let physical := isPhysicalLaunchDisk d in
  let fileDriver := if physical then "host_device" else "file" in
  let cache := if physical then ",cache.direct=on,aio=native" else "" in
  let discard := if physical && negb (ldDiscard d) then "ignore" else "unmap" in
  let blockdevs := ["-blockdev"; "driver=" +:+ fileDriver +:+ ",node-name=" +:+ fileNode +:+ ",filename=" +:+ ldPath d +:+ ",discard=" +:+ discard +:+ cache +:+ ro;
                    "-blockdev"; "driver=" +:+ ldFormat d +:+ ",node-name=" +:+ ldNodeName d +:+ ",file=" +:+ fileNode +:+ ro]%string in
  if decide (ldRole d = DiskRoleCDROM) then
    Ok (blockdevs ++ ["-device"; "ide-cd,drive=" +:+ ldNodeName d +:+ ",bus=ide." +:+ Itoa port +:+ ",id=" +:+ ldNodeName d +:+ boot_option launch "d"]%string, port + 1)
  else
    let boot := if decide (ldRole d = DiskRoleBoot) then boot_option launch "c" else "" in
    if usesAHCI d then
      Ok (blockdevs ++ ["-device"; "ide-hd,drive=" +:+ ldNodeName d +:+ ",bus=ide." +:+ Itoa port +:+ ",id=" +:+ ldNodeName d +:+ serial_option d +:+ boot]%string, port + 1)
    else
      need (bool_decide (ldPCIAddr d <> ""%string)) ("disk " +:+ ldNodeName d +:+ " is missing a pci address") ;;
      need (ValidatePCIAddr (ldPCIAddr d)) "pci address must be 0xNN" ;;
      Ok (blockdevs ++ ["-device"; "virtio-blk-pci,drive=" +:+ ldNodeName d +:+ ",addr=" +:+ ldPCIAddr d +:+ serial_option d +:+ boot]%string, port).
Fixpoint disks_args (port : Z) (disks : list LaunchDisk) : result string (list string) :=
  match disks with
  | [] => Ok []
  | d :: disks => '(args, port) ← disk_args port d; rest ← disks_args port disks; Ok (args ++ rest)
  end.
Fixpoint gpus_args (i : nat) (gpus : list LaunchGPU) : result string (list string) :=
  match gpus with
  | [] => Ok []
  | g :: gpus =>
      need (ValidatePCIAddr (lgPCIAddr g)) "pci address must be 0xNN" ;;
      ParseGPUID (lgHost g) ;;
      need (negb (ContainsAny (lgHost g) [","; "="]%char)) "vfio host contains a banned character" ;;
      rest ← gpus_args (S i) gpus;
      Ok (["-device"; "vfio-pci,host=" +:+ lgHost g +:+ ",addr=" +:+ lgPCIAddr g +:+ ",id=vfio" +:+ Itoa (Z.of_nat i)]%string ++ rest)
  end.
Fixpoint usbs_args (usbs : list LaunchUSB) : result string (list string) :=
  match usbs with
  | [] => Ok []
  | u :: usbs => dev ← usbHostDevice u; rest ← usbs_args usbs; Ok (["-device"%string; dev] ++ rest)
  end.
Fixpoint nics_args (i : nat) (nics : list LaunchNIC) : result string (list string) :=
  match nics with
  | [] => Ok []
  | n :: nics =>
      ValidateMAC (lnMAC n) ;;
      need (ValidatePCIAddr (lnPCIAddr n)) "pci address must be 0xNN" ;;
      need (negb (bool_decide (lnTAPName n = ""%string) || ContainsAny (lnTAPName n) banned_names)) "tap name is invalid" ;;
      let netID := "net" +:+ Itoa (Z.of_nat i) in
      rest ← nics_args (S i) nics;
      Ok (["-netdev"; "tap,id=" +:+ netID +:+ ",ifname=" +:+ lnTAPName n +:+ ",script=no,downscript=no";
           "-device"; "virtio-net-pci,netdev=" +:+ netID +:+ ",mac=" +:+ lnMAC n +:+ ",addr=" +:+ lnPCIAddr n]%string ++ rest)
  end.

Definition base_args (cpus memory : Z) : list string :=
  [BinQEMU; "-name"; id; "-machine"; lMachine launch +:+ ",usb=off"; "-accel"; lAccel launch; "-cpu"; cpuForAccel (lAccel launch);
   "-smp"; Itoa cpus; "-m"; Itoa memory; "-nodefaults"; "-no-user-config"; "-display"; "none"; "-boot"; "order=" +:+ safeBoot (lBootOrder launch);
   "-device"; "VGA,id=vga0,addr=" +:+ pci_of "vga" PCIVGA; "-chardev"; "socket,id=qmp0,path=" +:+ socket "qmp.sock" +:+ ",server=on,wait=off";
   "-mon"; "chardev=qmp0,mode=control"]%string.
Definition firmware_args : result string (list string) :=
  let f := lFirmware launch in
  if decide (fMode f = FirmwareUEFI) then
    ValidateCleanPath (fCodePath f) "firmware code" ;; ValidateCleanPath (fVarsPath f) "firmware vars" ;;
    Ok ["-drive"; "if=pflash,format=raw,readonly=on,file=" +:+ fCodePath f; "-drive"; "if=pflash,format=raw,file=" +:+ fVarsPath f]%string
  else Ok [].
Definition console_args : list string :=
  (if Serial (lConsole launch) then ["-chardev"; "socket,id=serial0,path=" +:+ socket "serial.sock" +:+ ",server=on,wait=off"; "-serial"; "chardev:serial0"] else []) ++
  (if VNC (lConsole launch) then ["-vnc"; "unix:" +:+ socket "vnc.sock"] else [])%string.
Definition agent_args : list string :=
  ["-chardev"; "socket,id=qga0,path=" +:+ socket "qga.sock" +:+ ",server=on,wait=off"; "-device"; "virtio-serial-pci,id=virtio-serial0,addr=" +:+ pci_of "serial" PCISerial;
   "-device"; "virtserialport,chardev=qga0,name=" +:+ GuestAgentName; "-chardev"; "socket,id=nga0,path=" +:+ socket "guest.sock" +:+ ",server=on,wait=off";
   "-device"; "virtserialport,chardev=nga0,name=" +:+ NodalGuestName]%string ++
  (if lBalloon launch then ["-device"; "virtio-balloon-pci,id=balloon0,addr=" +:+ pci_of "balloon" PCIBalloon]%string else []).

Definition CompileLaunch : result string (list string) :=
  ValidateWorkloadID parse_uuid id ;;
  ValidateMachine (lMachine launch) ;;
  need (bool_decide (lAccel launch = "kvm"%string) || bool_decide (lAccel launch = "tcg"%string)) "accel must be kvm or tcg" ;;
  let cpus := if lCPUs launch <? 1 then 1 else lCPUs launch in
  let memory := if lMemoryMiB launch <? 64 then 128 else lMemoryMiB launch in
  need (lQGA launch) "qemu-ga channel is required" ;;
  foldr (fun name rest => validateInterpolated "socket" (socket name) ;; rest) (Ok ()) ["qmp.sock"; "serial.sock"; "vnc.sock"; "qga.sock"; "guest.sock"]%string ;;
  firmware ← firmware_args;
  disks ← disks_args 0 (lDisks launch);
  gpus ← gpus_args 0 (lGPUs launch);
  usbs ← usbs_args (lUSBs launch);
  nics ← nics_args 0 (lNICs launch);
  let argv := base_args cpus memory ++ firmware ++ console_args ++ agent_args ++ disks ++ gpus ++ ["-device"; "qemu-xhci,id=usb"]%string ++ usbs ++ nics in
  need (forallb (fun a => negb (ContainsAny a banned_lines)) argv) "argv contains a banned character" ;;
  ValidateFrozenArgv id argv ;; Ok argv.
End Compile.

(** ** Changes of a frozen launch

    The file of a machine holds its launch and its arguments. *)
Record frozen := mkFrozen { zLaunch : Launch; zArgv : list string }.
Definition set_gpus (l : Launch) (gpus : list LaunchGPU) : Launch :=
  mkLaunch (lSchemaVersion l) (lWorkloadID l) (lMachine l) (lAccel l) (lCPUs l) (lMemoryMiB l) (lFirmware l) (lDisks l) (lNICs l) (lPCI l)
    (lAutostart l) (lConsole l) (lNoCloud l) (lBalloon l) (lBootOrder l) (lQGA l) gpus (lUSBs l) (lSecureBoot l).
Definition set_usbs (l : Launch) (usbs : list LaunchUSB) : Launch :=
  mkLaunch (lSchemaVersion l) (lWorkloadID l) (lMachine l) (lAccel l) (lCPUs l) (lMemoryMiB l) (lFirmware l) (lDisks l) (lNICs l) (lPCI l)
    (lAutostart l) (lConsole l) (lNoCloud l) (lBalloon l) (lBootOrder l) (lQGA l) (lGPUs l) usbs (lSecureBoot l).

Definition ReadLaunch (files : gmap string frozen) (id : string) : result string Launch :=
  match files !! id with
  | Some z => if decide (lWorkloadID (zLaunch z) = ""%string) then Err "frozen launch config is missing"%string else Ok (zLaunch z)
  | None => Err "file does not exist"%string
  end.
Definition writeLaunch (dataDir : string) (files : gmap string frozen) (launch : Launch) : result string (gmap string frozen) :=
  argv ← CompileLaunch dataDir launch; Ok (<[lWorkloadID launch := mkFrozen launch argv]> files).
Fixpoint vfio_gpus (slot : Z) (hosts : list string) : result string (list LaunchGPU) :=
  match hosts with
  | [] => Ok []
  | host :: hosts =>
      addr ← ParseGPUID host;
      need (negb (ContainsAny addr [","; "="]%char)) "vfio host address contains a banned character" ;;
      need (ValidatePCIAddr (slot_addr slot)) "pci address must be 0xNN" ;;
      rest ← vfio_gpus (slot + 1) hosts; Ok (mkLGPU addr (slot_addr slot) :: rest)
  end.
Definition ApplyVFIOHost (dataDir : string) (files : gmap string frozen) (id : string) (hosts : list string) : result string (gmap string frozen) :=
  launch ← ReadLaunch files id;
  gpus ← vfio_gpus vfioFirstSlot hosts;
  writeLaunch dataDir files (set_gpus launch gpus).
Definition ApplyUSBHost (dataDir : string) (files : gmap string frozen) (id : string) (usbs : list LaunchUSB) : result string (gmap string frozen) :=
  launch ← ReadLaunch files id; writeLaunch dataDir files (set_usbs launch usbs).

Definition MergeUSBs (current : list LaunchUSB) (add : LaunchUSB) : list LaunchUSB :=
  if existsb (fun u => bool_decide (luAddress u = luAddress add)) current then current else current ++ [add].
Definition DropUSB (current : list LaunchUSB) (address : string) : list LaunchUSB := filter (fun u => luAddress u <> address) current.
Definition addOne (out : list string) (id : string) : list string :=
  let id := ToLower (TrimSpace id) in if decide (id = ""%string \/ id ∈ out) then out else out ++ [id].
Definition MergeHostAddrs (current add : list string) : list string := fold_left addOne (current ++ add) [].
Definition DropHostAddrs (current drop : list string) : list string :=
  let remove := map (fun id => ToLower (TrimSpace id)) drop in
  fold_left (fun out id => if decide (ToLower (TrimSpace id) ∈ remove) then out else addOne out id) current [].
Definition HostAddrsFromLaunch (launch : Launch) : list string := filter (fun h => h <> ""%string) (map (fun g => TrimSpace (lgHost g)) (lGPUs launch)).
End Qemu.

(** ** The devices QEMU reports, by the slots they are in *)
Definition pciMatchesLaunch (live : list Z) (want : gmap string string) : bool :=
  let have := map slot_addr live in
  forallb (fun p : string * string => bool_decide (p.2 ∈ have)) (map_to_list want).
