(* ===== verification/VmProps.v ===== *)
(** * PCI addresses of a machine

    How a free slot is found, what a claim leaves behind, and that addresses once given
    are given again. *)
From stdpp Require Import gmap.
From S2P Require Export Qemu.

(** ** Fallible steps *)
Lemma bind_ok {A B} (m : result string A) (f : A -> result string B) b : m ≫= f = Ok b -> exists a, m = Ok a /\ f a = Ok b.
Proof. destruct m as [a|e]; [|discriminate]. eauto. Qed.
Lemma need_ok b e x : need b e = Ok x -> b = true.
Proof. by destruct b. Qed.
(** Take a successful run apart, step by step. *)
Ltac steps H :=
  repeat match type of H with
  | (_ ≫= _) = Ok _ => let x := fresh "x" in let E := fresh "E" in apply bind_ok in H as (x & E & H); cbn beta in H;
      try (apply need_ok in E; clear x); try match type of x with (_ * _)%type => destruct x end; try match type of x with unit => destruct x end
  end.

(** ** Addresses and slots *)
Lemma slot_addr_table s : 2 <= s <= 31 ->
  pci_slot (slot_addr s) = s /\ ValidatePCIAddr (slot_addr s) = true /\ slot_addr s <> ""%string.
Proof.
  intros Hs.
  assert (Ht : all_between (fun s => (pci_slot (slot_addr s) =? s) && ValidatePCIAddr (slot_addr s) && bool_decide (slot_addr s <> ""%string)) 2 32 = true)
    by (vm_compute; reflexivity).
  apply all_between_spec with (w := s) in Ht; [|lia].
  rewrite !andb_true_iff, Z.eqb_eq, bool_decide_eq_true in Ht. tauto.
Qed.

(** ** The search for a free slot *)
Definition taken (m : gmap Z string) (a b : Z) : Prop := forall t, a <= t < b -> m !! t <> None.
(** The first free slot: from the fifth on, then the fourth. *)
Definition first_free (m : gmap Z string) (s : Z) : Prop := m !! s = None /\ ((5 <= s <= 31 /\ taken m 5 s) \/ (s = 4 /\ taken m 5 32)).
Record slots_wf (m : gmap Z string) (next : Z) : Prop := {
  wf_next : 5 <= next <= 32;
  wf_taken : taken m 5 next;
  wf_fixed : taken m 2 4;
  wf_range t k : m !! t = Some k -> 2 <= t <= 31 }.

Lemma first_free_inj m s t : first_free m s -> first_free m t -> s = t.
Proof.
  intros [Hs [[? Hs']|[-> Hs']]] [Ht [[? Ht']|[-> Ht']]]; [|exfalso..|done].
  - destruct (Z.lt_trichotomy s t) as [?|[?|?]]; [exfalso|done|exfalso]; [by apply (Ht' s ltac:(lia))|by apply (Hs' t ltac:(lia))].
  - by apply (Ht' s ltac:(lia)).
  - by apply (Hs' t ltac:(lia)).
Qed.

Section Search.
Context (m : gmap Z string) (start : Z).

Lemma search_skip slot fuel : 2 <= slot -> m !! slot <> None -> nextFree_loop (S fuel) m start slot =
  let slot := if 31 <? slot + 1 then 2 else slot + 1 in if slot =? start then ("0x1f"%string, slot) else nextFree_loop fuel m start slot.
Proof. intros H2 Hm. cbn [nextFree_loop]. rewrite bool_decide_eq_false_2 by done. done. Qed.
Lemma search_hit slot fuel : 2 <= slot -> m !! slot = None -> nextFree_loop (S fuel) m start slot = (slot_addr slot, slot + 1).
Proof.
  intros H2 Hm. cbn [nextFree_loop]. rewrite bool_decide_eq_true_2 by done.
  rewrite (proj2 (Z.eqb_neq slot 0)), (proj2 (Z.eqb_neq slot 1)) by lia. done.
Qed.

(** Past a run of taken slots that does not come by the start. *)
Lemma search_run k slot : 2 <= slot <= k -> k <= 31 -> taken m slot k -> start <= slot \/ k < start ->
  forall fuel, nextFree_loop (Z.to_nat (k - slot) + fuel) m start slot = nextFree_loop fuel m start k.
Proof.
  intros Hs Hk Ht Hst. remember (Z.to_nat (k - slot)) as n eqn:En. revert slot Hs Ht Hst En. induction n as [|n IH]; intros slot Hs Ht Hst En fuel.
  { by replace k with slot by lia. }
  cbn [Nat.add]. rewrite search_skip by (lia || (apply Ht; lia)).
  rewrite (proj2 (Z.ltb_ge 31 (slot + 1))) by lia. cbv zeta. rewrite (proj2 (Z.eqb_neq _ _)) by lia.
  apply IH; [lia|intros t Hb; apply Ht; lia|lia|lia].
Qed.
Lemma search_wrap fuel : 2 < start <= 31 -> m !! 31 <> None -> nextFree_loop (S fuel) m start 31 = nextFree_loop fuel m start 2.
Proof. intros Hs Hm. rewrite search_skip by (done || lia). change (31 <? 31 + 1) with true. cbv zeta iota. destruct (Z.eqb_spec 2 start); [lia|done]. Qed.
End Search.

Lemma search_first m start k fuel : 2 <= start <= k -> k <= 31 -> taken m start k -> m !! k = None -> (32 <= fuel)%nat ->
  nextFree_loop fuel m start start = (slot_addr k, k + 1).
Proof.
  intros Hs Hk Ht Hm Hf. replace fuel with (Z.to_nat (k - start) + S (fuel - Z.to_nat (k - start) - 1))%nat by lia.
  rewrite (search_run m start k) by (done || lia). apply search_hit; [lia|done].
Qed.

Lemma least_free m a b : a <= b -> taken m a b \/ exists k, a <= k < b /\ taken m a k /\ m !! k = None.
Proof.
  intros Hab. remember (Z.to_nat (b - a)) as n eqn:En. revert b Hab En. induction n as [|n IH]; intros b Hab En.
  { left. intros t Ht. lia. }
  destruct (IH (b - 1)) as [Ht|(k & Hk & Ht & Hm)]; [lia|lia| |].
  - destruct (m !! (b - 1)) eqn:Em; [left|right; exists (b - 1); split_and!; [lia..|done|done]].
    intros t Hb. destruct (decide (t = b - 1)) as [->|]; [by rewrite Em|apply Ht; lia].
  - right. exists k. split_and!; [lia..|done|done].
Qed.

(** Where the search ends: at the first free slot, unless there is none or it starts past the last. *)
Lemma nextFree_spec m next : slots_wf m next ->
  (exists s, first_free m s /\ nextFree m next = (slot_addr s, s + 1)) \/
  (taken m 2 32 /\ nextFree m next = ("0x1f"%string, next)) \/
  (next = 32 /\ fst (nextFree m next) = slot_addr 32).
Proof.
  intros [Hn Ht Hf Hr]. unfold nextFree. destruct (decide (next = 32)) as [->|Hne].
  { right. right. split; [done|]. rewrite search_hit; [done|lia|]. destruct (m !! 32) eqn:E; [|done]. apply Hr in E. lia. }
  destruct (least_free m next 32) as [Hu|(k & Hk & Hu & Hm)]; [lia| |].
  - assert (Ha : taken m 5 32) by (intros t Hb; destruct (decide (t < next)); [apply Ht|apply Hu]; lia).
    assert (E : nextFree_loop 32 m next next = nextFree_loop (Z.to_nat next) m next 2).
    { replace 32%nat with (Z.to_nat (31 - next) + S (Z.to_nat next))%nat by lia.
      rewrite (search_run m next 31) by (first [lia|intros t Hb; apply Ha; lia]). apply search_wrap; [lia|apply Ha; lia]. }
    rewrite E. destruct (m !! 4) as [o|] eqn:E4.
    + right. left. assert (Hall : taken m 2 32).
      { intros t Hb. destruct (decide (t < 4)); [apply Hf; lia|]. destruct (decide (t = 4)) as [->|]; [by rewrite E4|apply Ha; lia]. }
      split; [done|]. replace (Z.to_nat next) with (Z.to_nat (next - 1 - 2) + 3)%nat by lia.
      rewrite (search_run m next (next - 1)) by (first [lia|intros t Hb; apply Hall; lia]).
      rewrite search_skip by (first [lia|apply Hall; lia]). rewrite (proj2 (Z.ltb_ge 31 _)) by lia. cbv zeta.
      by rewrite (proj2 (Z.eqb_eq _ _)), Z.sub_add by lia.
    + left. exists 4. split; [split; [done|right; done]|].
      replace (Z.to_nat next) with (Z.to_nat (4 - 2) + S (Z.to_nat next - 3))%nat by lia.
      rewrite (search_run m next 4) by (first [lia|intros t Hb; apply Hf; lia]). by apply search_hit.
  - left. exists k. split; [split; [done|left; split; [lia|]]|].
    + intros t Hb. destruct (decide (t < next)); [apply Ht|apply Hu]; lia.
    + apply search_first; [lia|lia|done|done|lia].
Qed.

(** ** Claims *)
Definition slot_ok (addr : string) : Prop := addr <> ""%string /\ ValidatePCIAddr addr = true /\ 2 <= pci_slot addr <= 31.

Lemma claim_spec m key addr m' : addr <> ""%string -> claim m key addr = Ok m' ->
  slot_ok addr /\ m' = <[pci_slot addr := key]> m /\ (m !! pci_slot addr = None \/ m !! pci_slot addr = Some key).
Proof.
  intros Ha. unfold claim. rewrite decide_False by done. intros H. steps H.
  rewrite negb_true_iff, orb_false_iff, !Z.ltb_ge in E0.
  destruct (m !! pci_slot addr) as [o|] eqn:Eo; [destruct (decide (o = key)) as [->|]|]; simplify_eq; (split; [split_and!; [done|done|lia..]|tauto]).
Qed.
Lemma claim_free m key addr : slot_ok addr -> m !! pci_slot addr = None \/ m !! pci_slot addr = Some key -> claim m key addr = Ok (<[pci_slot addr := key]> m).
Proof.
  intros (Hne & Hv & Hr) Hm. unfold claim. rewrite decide_False, Hv by done. cbn.
  rewrite (proj2 (Z.ltb_ge (pci_slot addr) 2)), (proj2 (Z.ltb_ge 31 (pci_slot addr))) by lia. cbn.
  destruct Hm as [-> | ->]; [done|by rewrite decide_True].
Qed.

Lemma wf_insert m next s key : slots_wf m next -> 2 <= s <= 31 -> slots_wf (<[s := key]> m) next.
Proof.
  intros [H1 H2 H3 H4] Hs. assert (Ht : forall a b, taken m a b -> taken (<[s := key]> m) a b).
  { intros a b Hm t Hb. destruct (decide (t = s)) as [->|]; [by rewrite lookup_insert_eq|]. rewrite lookup_insert_ne by done. by apply Hm. }
  split; [done|by apply Ht..|]. intros t k. rewrite lookup_insert_Some. intros [[<- _]|[_ Hm]]; [done|by eapply H4].
Qed.

(** An address whose slot is the device's. *)
Definition owns (m : gmap Z string) (key addr : string) : Prop := slot_ok addr /\ m !! pci_slot addr = Some key.
Lemma owns_mono m m' key addr : m ⊆ m' -> owns m key addr -> owns m' key addr.
Proof. intros Hm [Hok Ho]. split; [done|]. by eapply lookup_weaken. Qed.

(** The slots in use, and where the search goes on; an owner has an address, an address an owner. *)
Record st_wf (st : slots) : Prop := {
  st_slots : slots_wf (used st) (next st);
  st_owners t k : used st !! t = Some k -> is_Some (pci st !! k);
  st_addrs k a : pci st !! k = Some a -> owns (used st) k a }.
Lemma claimed_grows (m : gmap Z string) s key : m !! s = None \/ m !! s = Some key -> m ⊆ <[s := key]> m.
Proof.
  intros Hfree. apply map_subseteq_spec. intros t k Ht. rewrite lookup_insert_Some. destruct (decide (s = t)) as [->|]; [left|right; done].
  destruct Hfree as [Hf|Hf]; rewrite Hf in Ht; [done|by simplify_eq].
Qed.
Definition rewind (st : slots) : slots := mkSlots (used st) PCIFirstDisk (pci st).

Lemma place_spec st key addr st' a : st_wf st -> place st key addr = Ok (st', a) ->
  st_wf st' /\ slot_ok a /\ (addr <> ""%string -> a = addr) /\
  used st' = <[pci_slot a := key]> (used st) /\ (used st !! pci_slot a = None \/ used st !! pci_slot a = Some key) /\ pci st' = <[key := a]> (pci st) /\
  (addr = ""%string -> first_free (used st) (pci_slot a) /\ a = slot_addr (pci_slot a) \/ taken (used st) 2 32 /\ used st !! pci_slot a = Some key).
Proof.
  intros [Hw Ho Ha]. unfold place.
  assert (Hadd : slot_ok a -> used st !! pci_slot a = None \/ used st !! pci_slot a = Some key ->
    forall k b, (<[key := a]> (pci st)) !! k = Some b -> owns (<[pci_slot a := key]> (used st)) k b).
  { intros Hok Hfree k b. rewrite lookup_insert_Some. intros [[<- <-]|[_ Hb]]; [split; [done|by rewrite lookup_insert_eq]|].
    eapply owns_mono; [by apply claimed_grows|by apply Ha]. }
  assert (Hown : forall s t k, (<[s := key]> (used st)) !! t = Some k -> is_Some ((<[key := a]> (pci st)) !! k)).
  { intros s t k. rewrite lookup_insert_Some. destruct (decide (k = key)) as [->|Hk]; [rewrite lookup_insert_eq; eauto|].
    rewrite lookup_insert_ne by done. intros [[_ ?]|[_ ?]]; [by subst|eauto]. }
  destruct (decide (addr = ""%string)) as [->|Hne].
  - pose proof (nextFree_spec _ _ Hw) as Hn. destruct (nextFree (used st) (next st)) as [x n] eqn:En. intros H. steps H. simplify_eq H. intros <- <-. cbn [used next pci].
    destruct Hn as [(s & Hs & [= -> ->])|[(Hall & [= -> ->])|(_ & Hx)]].
    + assert (2 <= s <= 31) as Hr by (destruct Hs as [_ [[? _]|[-> _]]]; lia). destruct (slot_addr_table s Hr) as (Ep & Hv & Hz).
      apply claim_spec in E as (Hok & -> & Hfree); [|done]. rewrite Ep in *. specialize (Hadd Hok). split_and!; [|done|done|done|done|done|by left].
      split; [|by apply Hown|by apply Hadd]. pose proof (wf_insert _ _ s key Hw Hr) as [? Ht ? ?]. split; [|intros t Hb|done|done]; cbn [next used] in *.
      * destruct Hs as [_ [[? _]|[-> _]]]; lia.
      * destruct Hs as [_ [[? Hb']|[-> Hb']]]; [|lia]. destruct (decide (t = s)) as [->|]; [by rewrite lookup_insert_eq|]. rewrite lookup_insert_ne by done. apply Hb'. lia.
    + apply claim_spec in E as (Hok & -> & Hfree); [|done]. change (pci_slot "0x1f") with 31 in *.
      split_and!; [|done|done|done|done|done|].
      * split; [by apply wf_insert|by apply Hown|by apply Hadd].
      * right. split; [done|]. destruct Hfree as [Hf|Hf]; [|done]. by apply (Hall 31 ltac:(lia)) in Hf.
    + cbn [fst] in Hx. subst x. apply claim_spec in E as ((_ & _ & Hbad) & _); [|by vm_compute]. exfalso. revert Hbad. vm_compute. intros [_ Hbad]. by apply Hbad.
  - intros H. steps H. simplify_eq H. intros <- <-. apply claim_spec in E as (Hok & -> & Hfree); [|done]. cbn [used next pci].
    split_and!; try done. split; [apply wf_insert; [done|apply Hok]|by apply Hown|by apply Hadd].
Qed.

(** An address given is given again. *)
Lemma place_again st key addr st' a : st_wf st -> place st key addr = Ok (st', a) -> place (rewind st) key a = Ok (rewind st', a).
Proof.
  intros Hw H. apply place_spec in H as (_ & Hok & _ & Hu & Hfree & Hp & _); [|done]. unfold place. cbn [rewind used next pci].
  rewrite decide_False by apply Hok. rewrite claim_free by done. cbn. unfold rewind. by rewrite Hu, Hp.
Qed.

(** ** The devices of a machine *)
Lemma place_grows st key addr st' a : st_wf st -> place st key addr = Ok (st', a) -> used st ⊆ used st' /\ (forall k, k <> key -> pci st' !! k = pci st !! k).
Proof.
  intros Hw H. apply place_spec in H as (_ & _ & _ & -> & Hfree & -> & _); [|done]. split; [|intros k Hk; by rewrite lookup_insert_ne].
  apply map_subseteq_spec. intros t k Ht. rewrite lookup_insert_Some. destruct (decide (pci_slot a = t)) as [<-|]; [left|right; done].
  destruct Hfree as [Hf|Hf]; rewrite Hf in Ht; [done|by simplify_eq].
Qed.

Section Devices.
Context {CT : CaseTables}.

Lemma set_addr_ahci d a : diskUsesAHCI (set_disk_addr d a) = diskUsesAHCI d.
Proof. done. Qed.


Lemma place_owns st key addr st' a : st_wf st -> place st key addr = Ok (st', a) -> owns (used st') key a.
Proof. intros Hw H. apply place_spec in H as (_ & Hok & _ & -> & _); [|done]. split; [done|by rewrite lookup_insert_eq]. Qed.

Lemma place_disks_spec disks : forall st st' out, st_wf st -> place_disks st disks = Ok (st', out) ->
  st_wf st' /\ used st ⊆ used st' /\ place_disks (rewind st) out = Ok (rewind st', out) /\
  Forall2 (fun d d' => d' = set_disk_addr d (dPCIAddr d') /\ (diskUsesAHCI d = true -> d' = d)) disks out /\
  Forall (fun d => diskUsesAHCI d = false -> owns (used st') (diskKey (dRole d) (dSlot d)) (dPCIAddr d)) out /\
  (forall k, (forall role slot, k <> diskKey role slot) -> pci st' !! k = pci st !! k).
Proof.
  induction disks as [|d disks IH]; intros st st' out Hw; cbn [place_disks]; [intros [= <- <-]; by split_and!|].
  destruct (diskUsesAHCI d) eqn:Ed; intros Hp; steps Hp; simplify_eq Hp; intros <- <-.
  - apply IH in E as (H1 & H2 & H3 & H4 & H5 & H6); [|done]. split_and!; [done|done| |constructor; [split; [by destruct d|done]|done]| |done].
    + cbn [place_disks]. rewrite Ed, H3. done.
    + constructor; [congruence|done].
  - destruct (place_grows _ _ _ _ _ Hw E) as [Hg Hk]. pose proof (place_again _ _ _ _ _ Hw E) as Ha. pose proof (place_owns _ _ _ _ _ Hw E) as Ho.
    apply place_spec in E as (Hw1 & Hok & _); [|done]. apply IH in E0 as (H1 & H2 & H3 & H4 & H5 & H6); [|done].
    split_and!; [done|by etrans| |constructor; [split; [done|congruence]|done]| |].
    + cbn [place_disks]. rewrite set_addr_ahci, Ed. cbn [dRole dSlot dPCIAddr set_disk_addr]. rewrite Ha. cbn. by rewrite H3.
    + constructor; [|done]. intros _. by apply (owns_mono _ _ _ _ H2).
    + intros k Hn. rewrite H6 by done. by apply Hk.
Qed.

Lemma place_nics_spec nics : forall i st st' out, st_wf st -> place_nics st i nics = Ok (st', out) ->
  st_wf st' /\ used st ⊆ used st' /\ place_nics (rewind st) i out = Ok (rewind st', out) /\
  Forall2 (fun n n' => n' = set_nic_addr n (nPCIAddr n')) nics out /\
  (forall j n, out !! j = Some n -> owns (used st') (nicKey (i + j)) (nPCIAddr n)) /\
  (forall k, (forall j, k <> nicKey j) -> pci st' !! k = pci st !! k).
Proof.
  induction nics as [|n nics IH]; intros i st st' out Hw; cbn [place_nics]; [intros [= <- <-]; by split_and!|].
  intros Hp; steps Hp; simplify_eq Hp; intros <- <-.
  destruct (place_grows _ _ _ _ _ Hw E) as [Hg Hk]. pose proof (place_again _ _ _ _ _ Hw E) as Ha. pose proof (place_owns _ _ _ _ _ Hw E) as Ho.
  apply place_spec in E as (Hw1 & Hok & _); [|done]. apply IH in E0 as (H1 & H2 & H3 & H4 & H5 & H6); [|done].
  split_and!; [done|by etrans| |by constructor| |].
  - cbn [place_nics nPCIAddr set_nic_addr]. rewrite Ha. cbn. by rewrite H3.
  - intros [|j] m Hj; cbn in Hj; [simplify_eq; rewrite Nat.add_0_r; by apply (owns_mono _ _ _ _ H2)|]. rewrite Nat.add_succ_r. by apply (H5 j).
  - intros k Hn. rewrite H6 by done. by apply Hk.
Qed.

Definition fixed_used (balloon : bool) : gmap Z string :=
  (if balloon then <[4 := "balloon"%string]> else id) (<[3 := "serial"%string]> (<[2 := "vga"%string]> ∅)).
Definition fixed_pci (balloon : bool) : gmap string string :=
  (if balloon then <["balloon"%string := PCIBalloon]> else id) (<["serial"%string := PCISerial]> (<["vga"%string := PCIVGA]> ∅)).
Lemma fixed_slots_spec balloon : fixed_slots balloon = Ok (mkSlots (fixed_used balloon) PCIFirstDisk (fixed_pci balloon)).
Proof. destruct balloon; vm_compute; reflexivity. Qed.
Lemma fixed_owner balloon t k : fixed_used balloon !! t = Some k -> (2 <= t <= 4) /\ is_Some (fixed_pci balloon !! k).
Proof.
  intros Hl. apply elem_of_map_to_list in Hl. destruct balloon; vm_compute in Hl; set_unfold in Hl; destruct_or?; simplify_eq; (split; [lia|vm_compute; eauto]).
Qed.
Lemma fixed_wf balloon : st_wf (mkSlots (fixed_used balloon) PCIFirstDisk (fixed_pci balloon)).
Proof.
  split; [split| |]; cbn [used next pci]; unfold PCIFirstDisk.
  - lia.
  - intros t Ht. lia.
  - intros t Ht. assert (Hd : t = 2 \/ t = 3) by lia. destruct Hd as [-> | ->]; destruct balloon; vm_compute; intros E; discriminate E.
  - intros t k Hl. apply fixed_owner in Hl. lia.
  - intros t k Hl. apply fixed_owner in Hl. apply Hl.
  - intros k a Hl. apply elem_of_map_to_list in Hl. destruct balloon; vm_compute in Hl; set_unfold in Hl; destruct_or?; simplify_eq; (split; [vm_compute; done|reflexivity]).
Qed.
Lemma fixed_owns balloon : owns (fixed_used balloon) "vga" PCIVGA /\ owns (fixed_used balloon) "serial" PCISerial /\
  (balloon = true -> owns (fixed_used balloon) "balloon" PCIBalloon).
Proof. destruct balloon; (split_and!; [..|intros; try done]; (split; [vm_compute; done|reflexivity])). Qed.
Lemma fixed_disk_key balloon role slot : fixed_pci balloon !! diskKey role slot = None.
Proof. destruct balloon; unfold fixed_pci, id; by rewrite !lookup_insert_ne by (unfold diskKey; cbn; discriminate). Qed.

Lemma place_seed_spec st enable st' : st_wf st -> place_seed st enable = Ok st' ->
  st_wf st' /\ used st ⊆ used st' /\ (exists n, place_seed (rewind st) enable = Ok (mkSlots (used st') n (pci st'))) /\
  (enable = true -> is_Some (pci st' !! diskKey DiskRoleCIDATA 0)) /\ (forall k, k <> diskKey DiskRoleCIDATA 0 -> pci st' !! k = pci st !! k).
Proof.
  intros Hw. unfold place_seed. destruct enable; cbn [andb]; [|intros [= <-]; split_and!; eauto; done].
  case_bool_decide as Ep; cbn [rewind pci].
  2: { intros [= <-]. rewrite bool_decide_eq_false_2 by done. split_and!; [done..|eauto| |done]. intros _. destruct (pci st !! _); [eauto|done]. }
  intros H. destruct (place st (diskKey DiskRoleCIDATA 0) "") as [[st1 a]|] eqn:E; [|done]. cbn in H. simplify_eq H. intros <-.
  destruct (place_grows _ _ _ _ _ Hw E) as [Hg Hk]. pose proof (place_again _ _ _ _ _ Hw E) as Hag.
  pose proof (place_spec _ _ _ _ _ Hw E) as (Hw1 & Hok & _ & Hu & Hfree & Hp & Hcase). rewrite bool_decide_eq_true_2 by done.
  split_and!; [done|done| |intros _; rewrite Hp, lookup_insert_eq; eauto|done].
  destruct (Hcase eq_refl) as [[Hf Ea]|[_ Ho]].
  2: { apply (st_owners _ Hw) in Ho. rewrite Ep in Ho. by destruct Ho. }
  assert (Hwr : slots_wf (used st) PCIFirstDisk). { destruct Hw as [[? ? ? ?] _ _]. unfold PCIFirstDisk. split; [lia|intros t Hb; lia|done..]. }
  unfold place in Hag |- *. cbn [rewind used next pci] in *. rewrite decide_False in Hag by apply Hok. rewrite decide_True by done.
  assert (Hn : fst (nextFree (used st) PCIFirstDisk) = a).
  { destruct (nextFree_spec _ _ Hwr) as [(s & Hs & ->)|[[Hall _]|[? _]]]; [|exfalso..]; [|destruct Hok as (_ & _ & ?); apply (Hall (pci_slot a) ltac:(lia)), Hf|done].
    cbn. by rewrite (first_free_inj _ _ _ Hs Hf), <- Ea. }
  destruct (nextFree (used st) PCIFirstDisk) as [x n]. cbn in Hn. subst x.
  destruct (claim (used st) _ a) as [u|]; [|done]. cbn in *. simplify_eq Hag. intros -> ->. eauto.
Qed.

(** The devices of an allocated machine own their slots, and allocating again changes nothing. *)
Record allocated (spec : Spec) (pci : gmap string string) (m : gmap Z string) : Prop := {
  al_fixed : owns m "vga" PCIVGA /\ owns m "serial" PCISerial /\ (Balloon spec = true -> owns m "balloon" PCIBalloon);
  al_disks d : d ∈ Disks spec -> diskUsesAHCI d = false -> owns m (diskKey (dRole d) (dSlot d)) (dPCIAddr d);
  al_nics j n : NICs spec !! j = Some n -> owns m (nicKey j) (nPCIAddr n);
  al_seed : cEnable (SNoCloud spec) = true -> exists a, pci !! diskKey DiskRoleCIDATA 0 = Some a /\ owns m (diskKey DiskRoleCIDATA 0) a;
  al_pci : pci !! "vga"%string = Some PCIVGA /\ pci !! "serial"%string = Some PCISerial /\ pci !! "balloon"%string = (if Balloon spec then Some PCIBalloon else None);
  al_again : AllocatePCI spec = Ok (spec, pci) }.

Lemma AllocatePCI_spec spec spec' pci' : AllocatePCI spec = Ok (spec', pci') ->
  (exists m, allocated spec' pci' m) /\ spec' = set_devices spec (Disks spec') (NICs spec') /\
  Forall2 (fun d d' => d' = set_disk_addr d (dPCIAddr d') /\ (diskUsesAHCI d = true -> d' = d)) (Disks spec) (Disks spec') /\
  Forall2 (fun n n' => n' = set_nic_addr n (nPCIAddr n')) (NICs spec) (NICs spec').
Proof.
  unfold AllocatePCI. rewrite fixed_slots_spec. cbn [mbind result_mbind]. intros H. steps H. simplify_eq H. intros <- <-.
  pose proof (fixed_owns (Balloon spec)) as (Hv & Hs & Hb). pose proof (fixed_wf (Balloon spec)) as Hw0.
  apply place_disks_spec in E as (Hw1 & Hg1 & Ha1 & Hd & Hdo & Hk1); [|done].
  apply place_nics_spec in E0 as (Hw2 & Hg2 & Ha2 & Hn & Hno & Hk2); [|done].
  apply place_seed_spec in E1 as (Hw3 & Hg3 & (n & Ha3) & Hse & Hk3); [|done]. cbn [used] in *.
  assert (Hkeep : forall k, (forall role slot, k <> diskKey role slot) -> (forall j, k <> nicKey j) -> pci x !! k = fixed_pci (Balloon spec) !! k).
  { intros k Hk Hj. rewrite Hk3, Hk2, Hk1 by done. done. }
  split; [|done]. exists (used x). split; cbn [Disks NICs Balloon SNoCloud set_devices].
  - split_and!; [..|intros Eb; specialize (Hb Eb)]; (eapply owns_mono; [|eassumption]); by do 2 (etrans; [eassumption|]).
  - intros d' Hin Hah. rewrite Forall_forall in Hdo. eapply owns_mono; [|by apply Hdo]. by etrans.
  - intros j m Hj. eapply owns_mono; [done|]. by apply (Hno j).
  - intros Een. destruct (Hse Een) as [a Ea]. exists a. split; [done|]. by apply (st_addrs _ Hw3).
  - split_and!; (rewrite Hkeep by (intros; unfold diskKey, nicKey; cbn; discriminate)); by destruct (Balloon spec).
  - unfold AllocatePCI. rewrite fixed_slots_spec. cbn [mbind result_mbind Balloon Disks NICs SNoCloud set_devices]. change (mkSlots (fixed_used (Balloon spec)) PCIFirstDisk (fixed_pci (Balloon spec)))
      with (rewind (mkSlots (fixed_used (Balloon spec)) PCIFirstDisk (fixed_pci (Balloon spec)))).
    rewrite Ha1. cbn. rewrite Ha2. cbn. by rewrite Ha3.
Qed.
End Devices.
