(* ===== verification/VmArgs.v ===== *)
(** * Texts without a separator

    Which texts hold no character that separates options, what splitting an option list
    gives back, and the numbers of names. *)
From S2P Require Export VmProps TextProps.

Definition comma : ascii := ","%char.
Definition free (c : ascii) (s : string) : Prop := c ∉ bytes s.

Lemma free_app c s t : free c (s +:+ t) <-> free c s /\ free c t.
Proof. unfold free. rewrite bytes_app, elem_of_app. tauto. Qed.
Lemma free_sub c s t : (forall x, x ∈ bytes t -> x ∈ bytes s) -> free c s -> free c t.
Proof. unfold free. auto. Qed.
Lemma ContainsAny_free s l c : ContainsAny s l = false -> c ∈ l -> free c s.
Proof.
  intros Hs Hc Hin. apply not_true_iff_false in Hs. apply Hs, existsb_exists. exists c.
  split; [by apply list_elem_of_In|by apply bool_decide_eq_true].
Qed.

(** ** Option lists *)
Fixpoint options_text (l : list string) : string := match l with [] => "" | [s] => s | s :: l => s +:+ "," +:+ options_text l end.
Lemma Split_options l : l <> [] -> Forall (free comma) l -> Split (options_text l) comma = l.
Proof.
  intros Hn Hl. unfold Split. induction Hl as [|s l Hs Hl IH]; [done|]. destruct l as [|t l].
  - cbn [options_text]. rewrite splitb_last by done. cbn. by rewrite ofBytes_bytes.
  - change (options_text (s :: t :: l)) with (s +:+ "," +:+ options_text (t :: l)). rewrite !bytes_app.
    change (bytes "," ++ bytes (options_text (t :: l))) with (comma :: bytes (options_text (t :: l))).
    rewrite splitb_app by done. cbn [map rev app]. rewrite ofBytes_bytes. f_equal. by apply IH.
Qed.

(** A character of a text is the separator or in one of the parts. *)
Lemma Split_covers s c x : x ∈ bytes s -> x = c \/ exists p, p ∈ Split s c /\ x ∈ bytes p.
Proof.
  intros Hx. assert (H : forall l acc, x ∈ l \/ x ∈ acc -> x = c \/ exists p, p ∈ splitb c l acc /\ x ∈ p).
  { induction l as [|a l IH]; intros acc Hin; cbn [splitb].
    - right. exists (rev acc). split; [set_solver|]. apply elem_of_rev. set_solver.
    - destruct (Ascii.eqb_spec a c) as [->|Hne].
      + destruct Hin as [Hin|Hin].
        * apply elem_of_cons in Hin as [->|Hin]; [by left|]. destruct (IH [] (or_introl Hin)) as [?|(p & Hp & Hxp)]; [by left|right; exists p; set_solver].
        * right. exists (rev acc). split; [set_solver|by apply elem_of_rev].
      + apply IH. set_solver. }
  destruct (H (bytes s) [] (or_introl Hx)) as [?|(p & Hp & Hxp)]; [by left|right]. exists (ofBytes p).
  split; [by apply list_elem_of_fmap_2|by rewrite bytes_ofBytes].
Qed.

(** ** Numbers *)
Lemma byteZ_chr z : 0 <= z < 256 -> byteZ (chr z) = z.
Proof. intros Hz. unfold byteZ, chr. rewrite N_ascii_embedding by lia. lia. Qed.
Lemma chr_byteZ a : chr (byteZ a) = a.
Proof. unfold byteZ, chr. by rewrite N2Z.id, ascii_N_embedding. Qed.
Lemma byteZ_range a : 0 <= byteZ a < 256.
Proof. unfold byteZ. pose proof (N_ascii_bounded a). lia. Qed.

Definition decimal (l : list ascii) : Z := fold_left (fun acc a => acc * 10 + (byteZ a - 48)) l 0.
Lemma decimal_shift l : forall acc, fold_left (fun acc a => acc * 10 + (byteZ a - 48)) l acc = acc * 10 ^ Z.of_nat (length l) + decimal l.
Proof.
  unfold decimal. induction l as [|a l IH]; intros acc; cbn [fold_left length]; [cbn; lia|].
  rewrite (IH (acc * 10 + _)), (IH (0 * 10 + _)), Nat2Z.inj_succ, Z.pow_succ_r by lia. ring.
Qed.
Lemma digits_value fuel : forall n acc, 0 <= n < 10 ^ Z.of_nat fuel -> decimal (digits_loop fuel n acc) = n * 10 ^ Z.of_nat (length acc) + decimal acc.
Proof.
  induction fuel as [|fuel IH]; intros n acc Hn; cbn [digits_loop]; [change (10 ^ Z.of_nat 0) with 1 in Hn; replace n with 0 by lia; lia|].
  pose proof (Z.mod_pos_bound n 10 ltac:(lia)) as Hm. pose proof (Z.div_mod n 10 ltac:(lia)) as Hd.
  assert (Hc : forall q, q = n / 10 -> q * 10 ^ Z.of_nat (length (chr (48 + n mod 10) :: acc)) + decimal (chr (48 + n mod 10) :: acc) = n * 10 ^ Z.of_nat (length acc) + decimal acc).
  { intros q ->. cbn [length]. unfold decimal at 1. cbn [fold_left]. rewrite decimal_shift, byteZ_chr, Nat2Z.inj_succ, Z.pow_succ_r by lia.
    rewrite Hd at 3. ring. }
  destruct (n <? 10) eqn:E.
  - apply Z.ltb_lt in E. rewrite <- (Hc 0) by (rewrite Z.div_small; lia). lia.
  - rewrite IH; [by apply Hc|]. rewrite Nat2Z.inj_succ, Z.pow_succ_r in Hn by lia. split; [apply Z.div_pos; lia|apply Z.div_lt_upper_bound; lia].
Qed.
Definition digits_of (n : Z) : list ascii := digits_loop (S (Z.to_nat (Z.log2 n))) n [].
Lemma digits_of_value n : 0 <= n -> decimal (digits_of n) = n.
Proof.
  intros Hn. unfold digits_of. rewrite digits_value; [cbn; lia|]. split; [done|].
  destruct (decide (n = 0)) as [->|]; [cbn; lia|]. pose proof (Z.log2_spec n ltac:(lia)) as [_ Hl]. pose proof (Z.log2_nonneg n).
  rewrite Nat2Z.inj_succ, Z2Nat.id by done. eapply Z.lt_le_trans; [exact Hl|]. apply Z.pow_le_mono_l. lia.
Qed.
Lemma digits_chars fuel : forall n acc, 0 <= n -> Forall (fun a => digit_char a = true) acc -> Forall (fun a => digit_char a = true) (digits_loop fuel n acc).
Proof.
  induction fuel as [|fuel IH]; intros n acc Hn Ha; cbn [digits_loop]; [done|].
  assert (Hc : Forall (fun a => digit_char a = true) (chr (48 + n mod 10) :: acc)).
  { constructor; [|done]. pose proof (Z.mod_pos_bound n 10 ltac:(lia)). unfold digit_char. rewrite byteZ_chr by lia. rewrite andb_true_iff, !Z.leb_le. lia. }
  destruct (n <? 10); [done|]. apply IH; [apply Z.div_pos; lia|done].
Qed.
Lemma Itoa_bytes n : bytes (Itoa n) = if n <? 0 then chr 45 :: digits_of (- n) else digits_of n.
Proof. unfold Itoa. by rewrite bytes_ofBytes. Qed.
Lemma Itoa_chars n a : a ∈ bytes (Itoa n) -> digit_char a = true \/ a = "-"%char.
Proof.
  rewrite Itoa_bytes. assert (H : forall m, 0 <= m -> a ∈ digits_of m -> digit_char a = true).
  { intros m Hm. assert (Hf := digits_chars (S (Z.to_nat (Z.log2 m))) m [] Hm ltac:(constructor)). rewrite Forall_forall in Hf. apply Hf. }
  destruct (Z.ltb_spec n 0); [rewrite elem_of_cons|]; [intros [->|Hin]; [by right|left; eapply H; [|done]; lia]|intros Hin; left; by eapply H].
Qed.
Lemma Itoa_free n c : digit_char c = false -> c <> "-"%char -> free c (Itoa n).
Proof. intros Hd Hc [E|E]%Itoa_chars; congruence. Qed.
Lemma Itoa_inj n m : Itoa n = Itoa m -> n = m.
Proof.
  intros E. apply (f_equal bytes) in E. rewrite !Itoa_bytes in E.
  assert (Hh : forall k l, 0 <= k -> digits_of k = chr 45 :: l -> False).
  { intros k l Hk Ek. assert (Hf := digits_chars (S (Z.to_nat (Z.log2 k))) k [] Hk ltac:(constructor)). change (digits_loop _ _ _) with (digits_of k) in Hf.
    rewrite Ek, Forall_cons in Hf. by destruct Hf. }
  destruct (Z.ltb_spec n 0), (Z.ltb_spec m 0).
  - injection E as E. apply (f_equal decimal) in E. rewrite !digits_of_value in E by lia. lia.
  - symmetry in E. by apply Hh in E.
  - by apply Hh in E.
  - apply (f_equal decimal) in E. by rewrite !digits_of_value in E by lia.
Qed.

(** ** Trimming and lower case *)
Lemma TrimSpace_free c s : c ∉ space_bytes -> free c s <-> free c (TrimSpace s).
Proof.
  intros Hc. unfold free. destruct (TrimSpace_spec s) as (a & b & -> & Hs). rewrite !elem_of_app.
  split; [tauto|]. intros Ht Hin. assert (Hab : c ∉ a ++ b) by (intros Hx; by apply Hc, Hs). rewrite elem_of_app in Hab. tauto.
Qed.
Lemma comma_not_space : comma ∉ space_bytes.
Proof. apply (bool_decide_unpack _). vm_compute. exact I. Qed.

(** One rune of a text: a byte below 128, or bytes all above. *)
Lemma decode_cases a l : exists w, snd (decode_rune (a :: l)) = S w /\ (S w <= length (a :: l))%nat /\
  ((w = 0%nat /\ fst (decode_rune (a :: l)) = byteZ a /\ byteZ a < 128) \/
   (128 <= fst (decode_rune (a :: l)) /\ Forall (fun x => 128 <= byteZ x) (take (S w) (a :: l)))).
Proof.
  assert (Hr := byteZ_range). unfold decode_rune, cont.
  destruct l as [|b [|c [|d l]]]; cbn [map nth];
    repeat match goal with |- context [if ?b then _ else _] => let E := fresh "E" in destruct b eqn:E end;
    repeat match goal with E : context [if ?b then _ else _] |- _ => let F := fresh "F" in destruct b eqn:F end;
    rewrite ?andb_true_iff, ?Z.leb_le, ?Z.eqb_eq, ?Z.eqb_neq, ?Z.ltb_lt, ?Z.ltb_ge in *; try (exfalso; lia);
    (eexists; split; [reflexivity|]; split; [cbn; lia|]; cbn [fst take]);
    first [left; split_and!; [reflexivity|reflexivity|lia] | right; split; [unfold RuneError; lia|repeat (apply Forall_cons; split; [lia|]); apply Forall_nil_2]].
Qed.

Lemma runes_low z : 0 <= z < 128 -> forall fuel l, (length l <= fuel)%nat -> (z ∈ runes_loop fuel l <-> chr z ∈ l) /\ Forall (fun r => 0 <= r) (runes_loop fuel l).
Proof.
  intros Hz. induction fuel as [|fuel IH]; intros [|a l] Hl; cbn [runes_loop length] in *; [by rewrite !elem_of_nil..|lia|by rewrite !elem_of_nil|].
  destruct (decode_cases a l) as (w & Hw & Hlen & Hc). destruct (decode_rune (a :: l)) as [r n]. cbn [fst snd] in *. subst n. cbn [length] in *.
  destruct (IH (drop (S w) (a :: l))) as [IH1 IH2]; [rewrite length_drop; cbn [length]; lia|]. rewrite elem_of_cons, Forall_cons, IH1.
  assert (E : a :: l = take (S w) (a :: l) ++ drop (S w) (a :: l)) by (by rewrite take_drop).
  pose proof (byteZ_range a). destruct Hc as [(-> & -> & Ha)|[Hr Hf]].
  - cbn [drop]. rewrite drop_0, elem_of_cons. split; [|split; [lia|done]]. split; (intros [Hi|Hi]; [left|by right]).
    + by rewrite Hi, chr_byteZ.
    + by rewrite <- Hi, byteZ_chr by lia.
  - split; [|split; [lia|done]]. setoid_rewrite E at 2. rewrite elem_of_app. rewrite Forall_forall in Hf. split; [intros [->|Hi]; [lia|by right]|].
    intros [Hi|Hi]; [|by right]. apply Hf in Hi. rewrite byteZ_chr in Hi by lia. lia.
Qed.

Lemma encode_low r c : byteZ c < 128 -> c ∈ encode_rune r -> r = byteZ c.
Proof.
  intros Hc. unfold encode_rune.
  set (r' := if (r <? 0) || (1114111 <? r) || ((55296 <=? r) && (r <=? 57343)) then RuneError else r).
  assert (Hr : r' = RuneError \/ r' = r /\ 0 <= r <= 1114111).
  { unfold r'. destruct (Z.ltb_spec r 0), (Z.ltb_spec 1114111 r); cbn; try (by left). destruct (_ && _); [by left|right; lia]. }
  clearbody r'. intros Hin. apply list_elem_of_fmap in Hin as (b & -> & Hb).
  assert (Hd : forall d, 0 < d -> 0 <= r' -> 0 <= r' / d) by (intros; apply Z.div_pos; lia). assert (Hm : forall x, 0 <= x mod 64 < 64) by (intros; apply Z.mod_pos_bound; lia).
  assert (H0 : 0 <= r' <= 1114111) by (destruct Hr as [->|[-> ?]]; unfold RuneError; lia).
  assert (Hx : forall b, 128 <= b < 256 -> 128 <= byteZ (chr b)) by (intros; rewrite byteZ_chr; lia).
  destruct (Z.ltb_spec r' 128); [|exfalso].
  - apply list_elem_of_singleton in Hb as ->. rewrite byteZ_chr by lia. destruct Hr as [->|[-> _]]; [unfold RuneError in *; lia|done].
  - assert (128 <= b < 256) as Hbb; [|specialize (Hx b Hbb); lia].
    destruct (Z.ltb_spec r' 2048); [|destruct (Z.ltb_spec r' 65536)]; repeat (apply elem_of_cons in Hb as [->|Hb]); try (by apply elem_of_nil in Hb);
      try (pose proof (Hm r'); lia); try (pose proof (Hm (r' / 64)); lia); try (pose proof (Hm (r' / 4096)); lia).
    + pose proof (Hd 64 ltac:(lia) ltac:(lia)). assert (r' / 64 < 32) by (apply Z.div_lt_upper_bound; lia). lia.
    + pose proof (Hd 4096 ltac:(lia) ltac:(lia)). assert (r' / 4096 < 16) by (apply Z.div_lt_upper_bound; lia). lia.
    + pose proof (Hd 262144 ltac:(lia) ltac:(lia)). assert (r' / 262144 < 8) by (apply Z.div_lt_upper_bound; lia). lia.
Qed.
Lemma encode_ascii z : 0 <= z < 128 -> encode_rune z = [chr z].
Proof.
  intros Hz. unfold encode_rune. rewrite (proj2 (Z.ltb_ge z 0)), (proj2 (Z.ltb_ge 1114111 z)), (proj2 (Z.leb_gt 55296 z)) by lia. cbn.
  by rewrite (proj2 (Z.ltb_lt z 128)) by lia.
Qed.

(** A sign is in the lower case of a text exactly when it is in the text. *)
Lemma ToLower_free {CT : CaseTables} c s : byteZ c < 65 -> free c (ToLower s) <-> free c s.
Proof.
  intros Hc. pose proof (byteZ_range c) as Hr. unfold free, ToLower. rewrite bytes_ofBytes. apply not_iff_compat.
  destruct (runes_low (byteZ c) ltac:(lia) (String.length s) (bytes s)) as [Hin Hnn]; [by rewrite length_bytes|]. rewrite chr_byteZ in Hin.
  rewrite <- Hin. change (runes_loop _ _) with (runes s). rewrite list_elem_of_In, in_concat. rewrite Forall_forall in Hnn. split.
  - intros (l & Hl & Hcl). apply in_map_iff in Hl as (r & <- & Hr'). rewrite <- !list_elem_of_In in *. apply encode_low in Hcl; [|lia].
    destruct (Z.lt_ge_cases r 128) as [Hlt|Hge]; [|pose proof (unicode_lower_high r Hge); lia].
    rewrite unicode_lower_ascii in Hcl by (split; [by apply Hnn|done]). destruct (Z.leb_spec 65 r), (Z.leb_spec r 90); cbn in Hcl; try lia; by subst r.
  - intros Hrn. exists (encode_rune (unicode_lower (byteZ c))). split; [apply in_map_iff; exists (byteZ c); split; [done|by apply list_elem_of_In]|]. rewrite <- list_elem_of_In.
    rewrite unicode_lower_ascii by lia. rewrite (proj2 (Z.leb_gt 65 _)) by lia. cbn. rewrite encode_ascii by lia. rewrite chr_byteZ. by left.
Qed.
