(* ===== verification/VmReads.v ===== *)
(** * Arguments read back

    QEMU reads a flag and its options, separated by commas.  Read that way, the arguments
    made of a launch are the flags and the options meant, whatever the texts in the launch. *)
From stdpp Require Import gmap.
From S2P Require Export VmArgs.

(** The flags with the options of each: a flag is followed by its options, but for two. *)
Definition bare_flags : list string := ["-nodefaults"; "-no-user-config"]%string.
Fixpoint read_args (argv : list string) : option (list (string * list string)) :=
  match argv with
  | [] => Some []
  | f :: argv =>
      if negb (HasPrefix f "-") then None
      else if bool_decide (f ∈ bare_flags) then (cons (f, [])) <$> read_args argv
      else match argv with v :: argv => (cons (f, Split v comma)) <$> read_args argv | [] => None end
  end.

Definition reads (a : list string) (l : list (string * list string)) : Prop := forall rest, read_args (a ++ rest) = (app l) <$> read_args rest.

Lemma reads_nil : reads [] [].
Proof. intros rest. cbn. by destruct (read_args rest). Qed.
Lemma reads_app a b l m : reads a l -> reads b m -> reads (a ++ b) (l ++ m).
Proof. intros Ha Hb rest. rewrite <- app_assoc, Ha, Hb. destruct (read_args rest) as [r|]; cbn; [by rewrite app_assoc|done]. Qed.
Lemma reads_whole a l : reads a l -> read_args a = Some l.
Proof. intros H. specialize (H []). rewrite app_nil_r in H. rewrite H. cbn. by rewrite app_nil_r. Qed.
Lemma reads_flag f v opts : HasPrefix f "-" && negb (bool_decide (f ∈ bare_flags)) = true -> v = options_text opts -> opts <> [] -> Forall (free comma) opts ->
  reads [f; v] [(f, opts)].
Proof.
  intros Hf -> Hn Ho rest. rewrite andb_true_iff, negb_true_iff in Hf. destruct Hf as [Hp Hb]. cbn [read_args app].
  rewrite Hp, Hb. cbn. rewrite Split_options by done. by destruct (read_args rest).
Qed.
Lemma reads_bare f : HasPrefix f "-" && bool_decide (f ∈ bare_flags) = true -> reads [f] [(f, [])].
Proof. intros Hf rest. rewrite andb_true_iff in Hf. destruct Hf as [Hp Hb]. cbn [read_args app]. rewrite Hp, Hb. cbn. by destruct (read_args rest). Qed.
Lemma reads_cons a b l m : reads a l -> reads b m -> reads (a ++ b) (l ++ m).
Proof. apply reads_app. Qed.
Lemma reads_flag_cons f v opts b m : HasPrefix f "-" && negb (bool_decide (f ∈ bare_flags)) = true -> v = options_text opts -> opts <> [] -> Forall (free comma) opts ->
  reads b m -> reads (f :: v :: b) ((f, opts) :: m).
Proof. intros H1 H2 H3 H4 Hb. apply (reads_app [f; v] b [(f, opts)] m); [by apply reads_flag|done]. Qed.

Lemma append_nil_r s : s +:+ "" = s.
Proof. apply bytes_inj. by rewrite bytes_app, app_nil_r. Qed.
Lemma literal_free s : bool_decide (comma ∉ bytes s) = true -> free comma s.
Proof. apply bool_decide_eq_true. Qed.

Section Fields.
Context {CT : CaseTables}.

Lemma clean_path_free p kind : ValidateCleanPath p kind = Ok () -> free comma p.
Proof. intros H. unfold ValidateCleanPath in H. steps H. apply need_ok in H. rewrite negb_true_iff, orb_false_iff in H. eapply ContainsAny_free; [apply H|by left]. Qed.
Lemma disk_path_free p : ValidateDiskPath p = Ok () -> free comma p.
Proof. intros H. unfold ValidateDiskPath in H. steps H. rewrite negb_true_iff in E1. eapply ContainsAny_free; [done|by left]. Qed.
Lemma launch_disk_free id d : validateLaunchDisk id d = Ok () -> free comma (ldNodeName d) /\ free comma (ldFormat d) /\ free comma (ldPath d).
Proof.
  intros H. unfold validateLaunchDisk in H. steps H. rewrite negb_true_iff, orb_false_iff in E. split_and!.
  - eapply ContainsAny_free; [apply E|by left].
  - rewrite orb_true_iff, !bool_decide_eq_true in E0. by destruct E0 as [-> | ->]; apply literal_free.
  - destruct (HasPrefix _ _); [by eapply clean_path_free|by apply disk_path_free].
Qed.
Lemma machine_free m : ValidateMachine m = Ok () -> free comma m.
Proof.
  intros H. unfold ValidateMachine in H. steps H. destruct (Split _ _) as [|a [|b [|]]]; try done. steps H. apply need_ok in H. rewrite negb_true_iff in H.
  eapply ContainsAny_free; [done|by left].
Qed.
Lemma hex_free l : hex_digits l = true -> comma ∉ l.
Proof. intros H Hin. unfold hex_digits in H. rewrite forallb_forall in H. apply list_elem_of_In, H in Hin. done. Qed.
Lemma lower_hex_free l : forallb lower_hex l = true -> comma ∉ l.
Proof. intros H Hin. rewrite forallb_forall in H. apply list_elem_of_In, H in Hin. done. Qed.
Lemma pci_free a : ValidatePCIAddr a = true -> free comma a.
Proof.
  unfold ValidatePCIAddr. rewrite andb_true_iff, negb_true_iff, !orb_false_iff, negb_false_iff. intros [[[Hp _] _] Hx].
  apply HasPrefix_spec in Hp as [r Er]. unfold free. rewrite Er in Hx |- *. change (drop 2 (bytes "0x" ++ r)) with r in Hx.
  apply hex_free in Hx. rewrite elem_of_app. intros [Hin|Hin]; [|done]. by apply (literal_free "0x") in Hin.
Qed.
Lemma mac_free m : ValidateMAC m = Ok () -> free comma m.
Proof.
  intros H. unfold ValidateMAC in H. steps H. apply (TrimSpace_free comma m comma_not_space), (ToLower_free comma); [done|].
  intros Hin. apply (Split_covers _ ":"%char) in Hin as [Hin|(p & Hp & Hin)]; [done|]. revert H. clear E. induction (Split (ToLower (TrimSpace m)) ":") as [|q l IH]; [by apply elem_of_nil in Hp|].
  cbn [foldr]. intros H. steps H. apply elem_of_cons in Hp as [->|Hp]; [by apply lower_hex_free in E0|by apply IH].
Qed.
Lemma usb_hex_free v : ValidateUSBHex v = Ok () -> free comma (ToLower v).
Proof.
  intros H. unfold ValidateUSBHex in H. steps H. apply need_ok, lower_hex_free in H. apply ToLower_free; [done|].
  by apply (TrimSpace_free comma v comma_not_space), (ToLower_free comma).
Qed.
Lemma serial_free s d : free comma (qemuSerial s d).
Proof.
  unfold qemuSerial. cbv zeta. set (t := ofBytes (filter _ _)). destruct (ContainsAny t _) eqn:E; [by apply literal_free|].
  eapply free_sub; [|eapply ContainsAny_free; [exact E|by left]]. intros x. rewrite bytes_ofBytes. intros Hx. apply elem_of_take in Hx as (i & Hi & _). by eapply list_elem_of_lookup_2.
Qed.
Lemma boot_free order : free comma (safeBoot order).
Proof.
  unfold safeBoot. destruct (filter _ _) as [|a l] eqn:E; [by apply literal_free|]. unfold free. rewrite bytes_ofBytes, <- E.
  rewrite list_elem_of_filter. by intros [[?|?] _].
Qed.
End Fields.

(** ** The command line as flags and options

    What each part of a launch asks QEMU for, before it is written as text. *)
Definition command : Type := list (string * list string).
Definition when (b : bool) (l : list string) : list string := if b then l else [].

Section Command.
Context {CT : CaseTables}.
Context (dataDir : string) (l : Launch).

Definition boot_opts (device : ascii) : list string :=
  let idx := bootIndex (lBootOrder l) device in when (0 <? idx) ["bootindex=" +:+ Itoa idx].
Definition serial_opts (d : LaunchDisk) : list string :=
  let s := qemuSerial (ldSerial d) (ldDeviceID d) in when (negb (bool_decide (s = ""%string))) ["serial=" +:+ s].
Definition socket_cmd (id name : string) : string * list string :=
  ("-chardev", ["socket"; "id=" +:+ id; "path=" +:+ socket dataDir l name; "server=on"; "wait=off"])%string.

Definition base_cmds (cpus memory : Z) : command :=
  [("-name", [lWorkloadID l]); ("-machine", [lMachine l; "usb=off"]); ("-accel", [lAccel l]); ("-cpu", [cpuForAccel (lAccel l)]);
   ("-smp", [Itoa cpus]); ("-m", [Itoa memory]); ("-nodefaults", []); ("-no-user-config", []); ("-display", ["none"]);
   ("-boot", ["order=" +:+ safeBoot (lBootOrder l)]); ("-device", ["VGA"; "id=vga0"; "addr=" +:+ pci_of l "vga" PCIVGA]);
   socket_cmd "qmp0" "qmp.sock"; ("-mon", ["chardev=qmp0"; "mode=control"])]%string.
Definition firmware_cmds : command :=
  if decide (fMode (lFirmware l) = FirmwareUEFI) then
    [("-drive", ["if=pflash"; "format=raw"; "readonly=on"; "file=" +:+ fCodePath (lFirmware l)]);
     ("-drive", ["if=pflash"; "format=raw"; "file=" +:+ fVarsPath (lFirmware l)])]%string
  else [].
Definition console_cmds : command :=
  (if Serial (lConsole l) then [socket_cmd "serial0" "serial.sock"; ("-serial", ["chardev:serial0"])] else []) ++
  (if VNC (lConsole l) then [("-vnc", ["unix:" +:+ socket dataDir l "vnc.sock"])] else [])%string.
Definition agent_cmds : command :=
  [socket_cmd "qga0" "qga.sock"; ("-device", ["virtio-serial-pci"; "id=virtio-serial0"; "addr=" +:+ pci_of l "serial" PCISerial]);
   ("-device", ["virtserialport"; "chardev=qga0"; "name=" +:+ GuestAgentName]); socket_cmd "nga0" "guest.sock";
   ("-device", ["virtserialport"; "chardev=nga0"; "name=" +:+ NodalGuestName])]%string ++
  (if lBalloon l then [("-device", ["virtio-balloon-pci"; "id=balloon0"; "addr=" +:+ pci_of l "balloon" PCIBalloon])]%string else []).

Definition disk_device (port : Z) (d : LaunchDisk) : string * list string :=
  if decide (ldRole d = DiskRoleCDROM) then
    ("-device"%string, ["ide-cd"; "drive=" +:+ ldNodeName d; "bus=ide." +:+ Itoa port; "id=" +:+ ldNodeName d]%string ++ boot_opts "d")
  else
    let boot := if decide (ldRole d = DiskRoleBoot) then boot_opts "c" else [] in
    if usesAHCI d then ("-device"%string, ["ide-hd"; "drive=" +:+ ldNodeName d; "bus=ide." +:+ Itoa port; "id=" +:+ ldNodeName d]%string ++ serial_opts d ++ boot)
    else ("-device"%string, ["virtio-blk-pci"; "drive=" +:+ ldNodeName d; "addr=" +:+ ldPCIAddr d]%string ++ serial_opts d ++ boot).
Definition disk_cmds (port : Z) (d : LaunchDisk) : command :=
  let physical := isPhysicalLaunchDisk d in
  let ro := when (ldReadOnly d) ["read-only=on"%string] in
  [("-blockdev"%string, ["driver=" +:+ (if physical then "host_device" else "file"); "node-name=" +:+ ldNodeName d +:+ "-file"; "filename=" +:+ ldPath d;
      "discard=" +:+ (if physical && negb (ldDiscard d) then "ignore" else "unmap")]%string ++ when physical ["cache.direct=on"; "aio=native"]%string ++ ro);
   ("-blockdev"%string, ["driver=" +:+ ldFormat d; "node-name=" +:+ ldNodeName d; "file=" +:+ ldNodeName d +:+ "-file"]%string ++ ro);
   disk_device port d].
Definition next_port (port : Z) (d : LaunchDisk) : Z := if bool_decide (ldRole d = DiskRoleCDROM) || usesAHCI d then port + 1 else port.
Fixpoint disks_cmds (port : Z) (disks : list LaunchDisk) : command :=
  match disks with [] => [] | d :: disks => disk_cmds port d ++ disks_cmds (next_port port d) disks end.
Definition gpu_cmd (i : nat) (g : LaunchGPU) : string * list string :=
  ("-device", ["vfio-pci"; "host=" +:+ lgHost g; "addr=" +:+ lgPCIAddr g; "id=vfio" +:+ Itoa (Z.of_nat i)])%string.
Definition usb_cmd (u : LaunchUSB) : string * list string :=
  ("-device", ["usb-host"; "id=" +:+ (if decide (luID u = ""%string) then USBDeviceID (luAddress u) else luID u);
     "vendorid=0x" +:+ ToLower (luVendor u); "productid=0x" +:+ ToLower (luProduct u)])%string.
Definition nic_cmds (i : nat) (n : LaunchNIC) : command :=
  let netID := "net" +:+ Itoa (Z.of_nat i) in
  [("-netdev", ["tap"; "id=" +:+ netID; "ifname=" +:+ lnTAPName n; "script=no"; "downscript=no"]);
   ("-device", ["virtio-net-pci"; "netdev=" +:+ netID; "mac=" +:+ lnMAC n; "addr=" +:+ lnPCIAddr n])]%string.
Definition launch_cmds : command :=
  base_cmds (if lCPUs l <? 1 then 1 else lCPUs l) (if lMemoryMiB l <? 64 then 128 else lMemoryMiB l) ++ firmware_cmds ++ console_cmds ++ agent_cmds ++
  disks_cmds 0 (lDisks l) ++ imap gpu_cmd (lGPUs l) ++ [("-device", ["qemu-xhci"; "id=usb"])]%string ++ map usb_cmd (lUSBs l) ++ concat (imap nic_cmds (lNICs l)).

(** ** Each part reads back *)
Create HintDb comma_free.
Ltac free_solve :=
  repeat first [apply Forall_nil_2 | apply Forall_cons; split | apply Forall_app; split];
  repeat (rewrite !free_app; split_and!); first [apply literal_free; reflexivity | assumption | apply serial_free | apply boot_free | apply Itoa_free; done | idtac].
Ltac text_eq := cbn [options_text app]; rewrite ?append_assoc; rewrite ?append_nil_r; reflexivity.
Ltac flag := apply reads_flag_cons; [reflexivity|text_eq|done|free_solve|].

Lemma socket_reads id name b m : bool_decide (comma ∉ bytes id) = true -> free comma (socket dataDir l name) -> reads b m ->
  reads ("-chardev" :: ("socket,id=" +:+ id +:+ ",path=" +:+ socket dataDir l name +:+ ",server=on,wait=off") :: b)%string (socket_cmd id name :: m).
Proof. intros Hi Hs Hb. apply literal_free in Hi. flag. done. Qed.

(** The two block devices of a disk. *)
Lemma blockdevs_reads d b port : free comma (ldNodeName d) -> free comma (ldFormat d) -> free comma (ldPath d) -> reads b [disk_device port d] ->
  let ro := if ldReadOnly d then ",read-only=on" else "" in
  let physical := isPhysicalLaunchDisk d in
  reads (["-blockdev"; "driver=" +:+ (if physical then "host_device" else "file") +:+ ",node-name=" +:+ (ldNodeName d +:+ "-file") +:+ ",filename=" +:+ ldPath d +:+
            ",discard=" +:+ (if physical && negb (ldDiscard d) then "ignore" else "unmap") +:+ (if physical then ",cache.direct=on,aio=native" else "") +:+ ro;
          "-blockdev"; "driver=" +:+ ldFormat d +:+ ",node-name=" +:+ ldNodeName d +:+ ",file=" +:+ (ldNodeName d +:+ "-file") +:+ ro]%string ++ b) (disk_cmds port d).
Proof.
  intros Hn Hf Hp Hb. unfold disk_cmds, when. destruct (isPhysicalLaunchDisk d), (ldDiscard d), (ldReadOnly d); cbn [andb negb app]; flag; flag; exact Hb.
Qed.
Ltac by_serial d := destruct (decide (qemuSerial (ldSerial d) (ldDeviceID d) = ""%string)) as [Es|Es]; rewrite ?(bool_decide_eq_true_2 _ Es), ?(bool_decide_eq_false_2 _ Es).
Lemma disk_reads port d args port' : disk_args l port d = Ok (args, port') -> reads args (disk_cmds port d) /\ port' = next_port port d.
Proof.
  unfold disk_args. intros H. steps H. apply launch_disk_free in E as (Hn & Hf & Hp). unfold next_port.
  destruct (decide (ldRole d = DiskRoleCDROM)) as [Er|Er]; [|destruct (usesAHCI d) eqn:Ea]; [| |steps H; apply pci_free in E0]; simplify_eq H; intros <- <-.
  all: rewrite ?(bool_decide_eq_true_2 _ Er), ?(bool_decide_eq_false_2 _ Er); cbn [orb].
  all: split; [apply (blockdevs_reads _ _ port Hn Hf Hp); unfold disk_device, serial_opts, boot_opts, when, serial_option, boot_option|done].
  - rewrite (decide_True _ _ Er). destruct (0 <? _); flag; apply reads_nil.
  - rewrite (decide_False _ _ Er), Ea. by_serial d; destruct (decide (ldRole d = DiskRoleBoot)); try destruct (0 <? _); cbn [negb app]; flag; apply reads_nil.
  - rewrite (decide_False _ _ Er), Ea. by_serial d; destruct (decide (ldRole d = DiskRoleBoot)); try destruct (0 <? _); cbn [negb app]; flag; apply reads_nil.
Qed.

Lemma disks_reads disks : forall port args, disks_args l port disks = Ok args -> reads args (disks_cmds port disks).
Proof.
  induction disks as [|d disks IH]; intros port args; cbn [disks_args disks_cmds]; [intros [= <-]; apply reads_nil|].
  intros H. steps H. simplify_eq H. intros <-. apply disk_reads in E as [Hd ->]. apply reads_app; [done|by apply IH].
Qed.
Lemma gpus_reads gpus : forall i args, gpus_args i gpus = Ok args -> reads args (imap (fun j => gpu_cmd (i + j)) gpus).
Proof.
  induction gpus as [|g gpus IH]; intros i args; cbn [gpus_args imap]; [intros [= <-]; apply reads_nil|].
  intros H. steps H. simplify_eq H. intros <-. apply pci_free in E. rewrite negb_true_iff in E1.
  assert (Hh : free comma (lgHost g)) by (eapply ContainsAny_free; [done|by left]). unfold gpu_cmd at 1. rewrite Nat.add_0_r. flag.
  erewrite imap_ext; [apply (IH (S i)); done|]. intros j y _. cbn. by rewrite Nat.add_succ_r.
Qed.
Lemma usbs_reads usbs : forall args, usbs_args usbs = Ok args -> reads args (map usb_cmd usbs).
Proof.
  induction usbs as [|u usbs IH]; intros args; cbn [usbs_args map]; [intros [= <-]; apply reads_nil|].
  intros H. steps H. simplify_eq H. intros <-. unfold usbHostDevice in E. steps E. simplify_eq E. intros <-.
  unfold ValidateUSB in E1. steps E1. cbn [uVendor uProduct] in *. apply usb_hex_free in E1, E5. rewrite negb_true_iff in E2.
  assert (Hi : free comma (if decide (luID u = ""%string) then USBDeviceID (luAddress u) else luID u)) by (eapply ContainsAny_free; [done|by left]).
  unfold usb_cmd. flag. by apply IH.
Qed.
Lemma nics_reads nics : forall i args, nics_args i nics = Ok args -> reads args (concat (imap (fun j => nic_cmds (i + j)) nics)).
Proof.
  induction nics as [|n nics IH]; intros i args; cbn [nics_args imap concat]; [intros [= <-]; apply reads_nil|].
  intros H. steps H. simplify_eq H. intros <-. apply mac_free in E. apply pci_free in E0. rewrite negb_true_iff, orb_false_iff in E1.
  assert (Ht : free comma (lnTAPName n)) by (eapply ContainsAny_free; [apply E1|by right; right; right; left]). unfold nic_cmds at 1. rewrite Nat.add_0_r.
  cbn [app]. flag. flag.
  erewrite imap_ext; [apply (IH (S i)); done|]. intros j y _. cbn. by rewrite Nat.add_succ_r.
Qed.

(** The whole launch: nothing is read that is not meant, if the identifier and the fixed
    addresses hold no separator. *)
Definition plain_launch : Prop :=
  free comma (lWorkloadID l) /\ free comma (pci_of l "vga" PCIVGA) /\ free comma (pci_of l "serial" PCISerial) /\ free comma (pci_of l "balloon" PCIBalloon).

Lemma socket_free name rest : (validateInterpolated "socket" (socket dataDir l name) ;; rest) = Ok () -> free comma (socket dataDir l name) /\ rest = Ok ().
Proof.
  intros H. steps H. split; [|done]. rewrite negb_true_iff in E. eapply ContainsAny_free; [done|by left].
Qed.
Lemma agent_reads b m : free comma (socket dataDir l "qga.sock") -> free comma (socket dataDir l "guest.sock") -> free comma (pci_of l "serial" PCISerial) ->
  free comma (pci_of l "balloon" PCIBalloon) -> reads b m -> reads (agent_args dataDir l ++ b) (agent_cmds ++ m).
Proof.
  intros Hq Hg Hs Hb Hm. unfold agent_args, agent_cmds. rewrite <- !app_assoc. cbn [app].
  apply (socket_reads "qga0" "qga.sock"); [done..|]. flag. flag. apply (socket_reads "nga0" "guest.sock"); [done..|]. flag.
  destruct (lBalloon l); [|done]. cbn [app]. flag. done.
Qed.
Lemma console_reads b m : free comma (socket dataDir l "serial.sock") -> free comma (socket dataDir l "vnc.sock") -> reads b m ->
  reads (console_args dataDir l ++ b) (console_cmds ++ m).
Proof.
  intros Hs Hv Hm. unfold console_args, console_cmds. rewrite <- !app_assoc. destruct (Serial (lConsole l)); cbn [app]; [apply (socket_reads "serial0" "serial.sock"); [done..|]; flag|];
    (destruct (VNC (lConsole l)); cbn [app]; [flag|]; done).
Qed.

Lemma firmware_reads args : firmware_args l = Ok args -> reads args firmware_cmds.
Proof.
  unfold firmware_args, firmware_cmds. case_decide; [|intros [= <-]; apply reads_nil]. intros H'. steps H'. simplify_eq H'. intros <-.
  apply clean_path_free in E, E0. flag. flag. apply reads_nil.
Qed.
Lemma CompileLaunch_reads parse_uuid argv : plain_launch -> CompileLaunch parse_uuid dataDir l = Ok argv ->
  exists rest, argv = BinQEMU :: rest /\ read_args rest = Some launch_cmds.
Proof.
  intros (Hid & Hvga & Hser & Hbal) H. unfold CompileLaunch in H. steps H. simplify_eq H. intros <-.
  cbn [foldr] in E3. apply socket_free in E3 as [Hq E3]. apply socket_free in E3 as [Hs E3]. apply socket_free in E3 as [Hv E3].
  apply socket_free in E3 as [Ha E3]. apply socket_free in E3 as [Hg _]. apply machine_free in E0.
  assert (Hacc : free comma (lAccel l)) by (rewrite orb_true_iff, !bool_decide_eq_true in E1; by destruct E1 as [-> | ->]; apply literal_free).
  assert (Hcpu : free comma (cpuForAccel (lAccel l))) by (unfold cpuForAccel; case_decide; by apply literal_free).
  eexists. split; [reflexivity|]. apply reads_whole. unfold launch_cmds, base_cmds. cbn [app].
  do 6 flag. apply (reads_app ["-nodefaults"%string] _ [_] _); [by apply reads_bare|]. apply (reads_app ["-no-user-config"%string] _ [_] _); [by apply reads_bare|].
  do 3 flag. apply (socket_reads "qmp0" "qmp.sock"); [done..|]. flag.
  apply reads_app; [by apply firmware_reads|]. apply console_reads; [done..|]. apply agent_reads; [done..|].
  apply reads_app; [by apply disks_reads|]. apply reads_app; [by apply (gpus_reads _ 0)|]. flag.
  apply reads_app; [by apply usbs_reads|]. by apply (nics_reads _ 0).
Qed.
End Command.
