(* ===== verification/VmSafety.v ===== *)
(** * Virtual machines, from the request to the command line

    The addresses of a machine's devices differ and stay, no text of a machine adds an
    option to its command line, and an edit of a running machine that waits for no restart
    changes nothing it runs with. *)
From stdpp Require Import gmap.
From S2P Require Export VmReads.

Section Vm.
Context {CT : CaseTables}.
Context (parse_uuid : string -> option (list Z)) (new_sha1 : string -> string) (sha256 : string -> list Z).
Notation PersistNICs := (PersistNICs parse_uuid new_sha1 sha256).
Notation create_spec := (create_spec parse_uuid new_sha1 sha256).
Notation Compile := (Compile parse_uuid new_sha1 sha256).
Notation CompileLaunch := (CompileLaunch parse_uuid).

(** ** Normal forms *)
(** What [Normalize] leaves as it is. *)
Definition normal (s : Spec) : Prop := Normalize s = s.

Lemma Normalize_devices s disks nics : Normalize (set_devices s disks nics) = set_devices (Normalize s) (normal_disks disks) (map normal_nic nics).
Proof. done. Qed.
Lemma Normalize_nocloud s c : Normalize (set_nocloud s c) = set_nocloud (Normalize s) (normal_nocloud (TrimSpace (Name s)) c).
Proof. done. Qed.

Lemma persist_idem id i n : persist_nic parse_uuid new_sha1 sha256 id i (persist_nic parse_uuid new_sha1 sha256 id i n) = persist_nic parse_uuid new_sha1 sha256 id i n.
Proof.
  unfold persist_nic. cbn [nID nMAC nModel nNetworkID nPCIAddr]. f_equal; repeat case_decide; congruence.
Qed.
Lemma PersistNICs_again id s s' nics : Forall2 (fun n n' => n' = set_nic_addr n (nPCIAddr n')) (NICs (PersistNICs id s)) nics -> NICs s' = nics -> PersistNICs id s' = s'.
Proof.
  intros Hf En. unfold PersistNICs, set_devices. rewrite En. destruct s'; cbn in *. subst. f_equal.
  apply list_eq. intros i. rewrite list_lookup_imap. destruct (nics !! i) as [n'|] eqn:E; cbn; [|done]. f_equal.
  destruct (Forall2_lookup_r _ _ _ _ _ Hf E) as (n & Hn & ->). rewrite list_lookup_imap in Hn. destruct (NICs s !! i) as [m|]; [|done]. cbn in Hn. simplify_eq.
  exact (f_equal (fun n => set_nic_addr n (nPCIAddr n')) (persist_idem id i m)).
Qed.
Lemma persisted_model id s n : n ∈ NICs (PersistNICs id s) -> nModel n <> ""%string.
Proof.
  cbn. intros Hn. apply list_elem_of_lookup in Hn as [i Hi]. rewrite list_lookup_imap in Hi. destruct (NICs s !! i); [|done]. cbn in Hi. simplify_eq. cbn. by case_decide.
Qed.

Lemma normal_disks_fix disks : normal_disks disks = disks ->
  existsb (fun d => bool_decide (dRole d = DiskRoleBoot)) (map normal_disk disks) = true /\ map normal_disk disks = disks.
Proof.
  unfold normal_disks. destruct (existsb _ (map normal_disk disks)); [done|]. intros H. apply (f_equal length) in H. cbn [length] in H. rewrite length_map in H. lia.
Qed.
Lemma normal_disks_addr disks disks' : Forall2 (fun d d' => d' = set_disk_addr d (dPCIAddr d')) disks disks' -> normal_disks disks = disks -> normal_disks disks' = disks'.
Proof.
  intros Hf Hn. apply normal_disks_fix in Hn as [Hb Hm].
  assert (Hm' : map normal_disk disks' = disks').
  { clear Hb. induction Hf as [|d d' disks disks' Hd Hf IH]; [done|]. cbn [map] in *. injection Hm as Hd0 Hm. rewrite (IH Hm). f_equal.
    rewrite Hd. by apply (f_equal (fun d => set_disk_addr d (dPCIAddr d'))) in Hd0. }
  unfold normal_disks. rewrite Hm'. rewrite Hm in Hb. clear Hm Hm'. replace (existsb _ disks') with true; [done|]. symmetry. rewrite <- Hb. clear Hb.
  induction Hf as [|d d' disks disks' Hd Hf IH]; [done|]. cbn [existsb]. rewrite IH, Hd. done.
Qed.

Lemma allocated_normal id s s1 pci : normal s -> AllocatePCI (PersistNICs id s) = Ok (s1, pci) -> normal s1 /\ PersistNICs id s1 = s1.
Proof.
  intros Hs Ha. apply AllocatePCI_spec in Ha as (_ & E & Hd & Hn). split; [|by eapply PersistNICs_again].
  assert (Hmodel : map normal_nic (NICs s1) = NICs s1).
  { apply list_eq. intros i. rewrite list_lookup_fmap. destruct (NICs s1 !! i) as [n'|] eqn:Ei; [|done]. cbn. f_equal.
    destruct (Forall2_lookup_r _ _ _ _ _ Hn Ei) as (n & Hi & ->). assert (nModel n <> ""%string) by (eapply (persisted_model id s), list_elem_of_lookup_2; done).
    unfold normal_nic, set_nic_addr. cbn. by rewrite decide_False. }
  assert (Hdisks : normal_disks (Disks s1) = Disks s1).
  { eapply normal_disks_addr; [|apply (f_equal Disks) in Hs; exact Hs]. eapply Forall2_impl; [exact Hd|]. by intros d d' [? _]. }
  unfold normal in *. rewrite E. unfold VmSpec.PersistNICs. rewrite !Normalize_devices, Hs, Hmodel, Hdisks. done.
Qed.
Lemma redacted_normal s : normal s -> normal (stored s).
Proof.
  unfold normal, stored, Redact. intros Hs. rewrite Normalize_nocloud, Hs. f_equal. apply (f_equal SNoCloud) in Hs. revert Hs.
  change (SNoCloud (Normalize s)) with (normal_nocloud (TrimSpace (Name s)) (SNoCloud s)). generalize (TrimSpace (Name s)). intros name.
  destruct (SNoCloud s) as [en host user keys pw ud net has]. unfold redact_nocloud, normal_nocloud. cbn. intros Hs. injection Hs as Hh Hu _. by rewrite Hh, Hu.
Qed.

(** ** What is stored is what is run *)
Lemma AllocatePCI_nocloud s s' pci c : cEnable c = cEnable (SNoCloud s) -> AllocatePCI s = Ok (s', pci) -> AllocatePCI (set_nocloud s c) = Ok (set_nocloud s' c, pci).
Proof.
  intros Hc H. unfold AllocatePCI in *. steps H. simplify_eq H. intros <- <-.
  unfold set_nocloud. cbn [Balloon Disks NICs SNoCloud]. rewrite E. cbn. rewrite E0. cbn. rewrite E1. cbn. by rewrite Hc, E2.
Qed.
Lemma ContainsAny_nil chars : ContainsAny "" chars = false.
Proof. done. Qed.
Lemma Validate_redact s : Validate parse_uuid s = Ok () -> Validate parse_uuid (Redact s) = Ok ().
Proof.
  intros H. unfold Validate in *. unfold Redact. rewrite Normalize_nocloud. pose proof H as H'. steps H'. clear H'.
  match goal with E : negb (ContainsAny _ [nul] || _) = true |- _ => rename E into En end.
  assert (Er : negb (ContainsAny (cUserData (normal_nocloud (TrimSpace (Name s)) (redact_nocloud (SNoCloud s)))) [nul] ||
                     ContainsAny (cNetworkConfig (normal_nocloud (TrimSpace (Name s)) (redact_nocloud (SNoCloud s)))) [nul]) = true).
  { rewrite negb_true_iff, orb_false_iff in *. destruct En as [Hu Hn]. split; [|exact Hn].
    unfold normal_nocloud, redact_nocloud. cbn [cUserData]. destruct (userDataLooksSecret _); [apply ContainsAny_nil|exact Hu]. }
  etransitivity; [|exact H]. unfold set_nocloud. cbn [Name CPUs MemoryBytes Machine SFirmware Disks NICs ISOLibraryID CloudImageID BootOrder SNoCloud SecureBoot USBs PCIHosts].
  by rewrite Er, En.
Qed.

(** The volume made for the boot disk. *)
Section Own.
Context (v : volume).
Lemma own_ahci d : diskUsesAHCI (own_disk v d) = diskUsesAHCI d.
Proof. unfold own_disk. by case_decide. Qed.
Lemma own_addr d a : own_disk v (set_disk_addr d a) = set_disk_addr (own_disk v d) a.
Proof. unfold own_disk. change (isPhysicalSpecDisk (set_disk_addr d a)) with (isPhysicalSpecDisk d). by repeat case_decide. Qed.
Lemma own_key d : diskKey (dRole (own_disk v d)) (dSlot (own_disk v d)) = diskKey (dRole d) (dSlot d) /\ dPCIAddr (own_disk v d) = dPCIAddr d.
Proof. unfold own_disk. by case_decide. Qed.
Lemma own_places disks : forall st st' out, place_disks st disks = Ok (st', out) -> place_disks st (map (own_disk v) disks) = Ok (st', map (own_disk v) out).
Proof.
  induction disks as [|d disks IH]; intros st st' out; cbn [place_disks map]; [by intros [= <- <-]|]. rewrite own_ahci. destruct (own_key d) as [-> ->]. destruct (diskUsesAHCI d).
  - intros H. steps H. injection H as <- <-. erewrite IH by done. done.
  - intros H. steps H. injection H as <- <-. rewrite E. cbn [mbind result_mbind]. erewrite IH by done. cbn [mbind result_mbind map]. by rewrite own_addr.
Qed.
Lemma own_allocates s s' pci : AllocatePCI s = Ok (s', pci) -> AllocatePCI (own_boot (Some v) s) = Ok (own_boot (Some v) s', pci).
Proof.
  intros H. unfold AllocatePCI in *. steps H. simplify_eq H. intros <- <-. unfold own_boot, set_devices. cbn [Balloon Disks NICs SNoCloud]. rewrite E. cbn [mbind result_mbind].
  erewrite own_places by done. cbn [mbind result_mbind]. rewrite E1. cbn [mbind result_mbind]. by rewrite E2.
Qed.
(** A physical disk in normal form says so. *)
Lemma normal_source d : dSource (normal_disk d) = disk_source d.
Proof. unfold normal_disk, disk_source. cbn [dSource]. case_decide as H1; case_decide as H2; [done|by destruct H2; destruct H1|by destruct H1; destruct H2|done]. Qed.
Lemma physical_source d : normal_disk d = d -> disk_source d = DiskSourcePhysical -> isPhysicalSpecDisk d = true.
Proof.
  intros Hn Hs. unfold isPhysicalSpecDisk. rewrite <- Hn at 1. rewrite normal_source, Hs. change (TrimSpace DiskSourcePhysical) with DiskSourcePhysical. by rewrite EqualFold_refl.
Qed.
Lemma own_normal d : normal_disk d = d -> normal_disk (own_disk v d) = own_disk v d.
Proof.
  intros Hn. unfold own_disk. case_decide as Hd; [|done]. destruct Hd as [_ Hp].
  assert (Hs : dSource (normal_disk d) <> DiskSourcePhysical) by (rewrite normal_source; intros Hs; by rewrite physical_source in Hp).
  revert Hn Hs. unfold normal_disk. cbn [dSource dDeviceID dVolumeID dRole dSlot dFormat dReadOnly dSizeBytes dPCIAddr dBus]. intros Hn Hs.
  rewrite (bool_decide_eq_false_2 _ Hs) in *. cbn [andb] in *. pose proof (f_equal dSource Hn) as E. cbn [dSource] in E. by rewrite E.
Qed.
Lemma own_disks_normal s : normal s -> normal (own_boot (Some v) s).
Proof.
  unfold normal, own_boot. intros Hn. rewrite Normalize_devices, Hn. pose proof (f_equal Disks Hn) as Hd. pose proof (f_equal NICs Hn) as Hnics. cbn [Disks NICs Normalize] in Hd, Hnics.
  rewrite Hnics. f_equal. apply normal_disks_fix in Hd as [Hb Hm]. unfold normal_disks.
  assert (Hm' : map normal_disk (map (own_disk v) (Disks s)) = map (own_disk v) (Disks s)).
  { rewrite map_map. apply map_ext_in. intros d Hin. apply own_normal. rewrite <- Hm in Hin. apply in_map_iff in Hin as (d0 & <- & Hin).
    apply (f_equal (fun l => l)) in Hm. apply In_nth_error in Hin as [i Hi]. assert (Hi' := Hi). apply (map_nth_error normal_disk) in Hi. rewrite Hm in Hi. congruence. }
  rewrite Hm'. rewrite Hm in Hb. replace (existsb _ (map (own_disk v) (Disks s))) with true; [done|]. symmetry. rewrite <- Hb. clear Hb Hm Hm' Hn Hnics.
  induction (Disks s) as [|d l IH]; [done|]. cbn [map existsb]. rewrite IH. f_equal. unfold own_disk. by case_decide.
Qed.
Lemma own_disks_valid disks : uuid_ok parse_uuid (vvID v) = true -> Forall (fun d => normal_disk d = d) disks -> forall boot phys n,
  validate_disks parse_uuid disks boot phys = Ok n -> validate_disks parse_uuid (map (own_disk v) disks) boot phys = Ok n.
Proof.
  intros Hv. induction 1 as [|d disks Hd _ IH]; intros boot phys n; [done|]. cbn [validate_disks map]. intros H.
  apply bind_ok in H as ([] & Hr & H). apply bind_ok in H as ([] & Hs & H). apply bind_ok in H as ([] & Hf & H). apply bind_ok in H as ([] & Hp & H). apply IH in H.
  destruct (decide (dRole d = DiskRoleBoot /\ isPhysicalSpecDisk d = false)) as [Ho|Ho].
  2:{ replace (own_disk v d) with d by (unfold own_disk; by rewrite decide_False). rewrite Hr, Hs, Hf, Hp. exact H. }
  destruct Ho as [Hb Ho]. change (validate_disks parse_uuid (own_disk v d :: map (own_disk v) disks) boot phys = Ok n). revert H.
  generalize (map (own_disk v) disks). intros rest H. unfold own_disk. rewrite decide_True by done. cbn [validate_disks dRole dSlot dFormat dReadOnly dSizeBytes dPCIAddr dSource dDeviceID dBus dVolumeID].
  change (disk_source (mkDisk _ _ _ _ _ _ _ _ _ _)) with (disk_source d).
  assert (Hn : disk_source d <> DiskSourcePhysical) by (intros E; by rewrite physical_source in Ho).
  rewrite (bool_decide_eq_false_2 _ Hn) in *. rewrite Hv, orb_true_r, Hr, Hf, Hp. exact H.
Qed.
Lemma own_valid s : normal s -> uuid_ok parse_uuid (vvID v) = true -> Validate parse_uuid s = Ok () -> Validate parse_uuid (own_boot (Some v) s) = Ok ().
Proof.
  intros Hn Hv H. pose proof (own_disks_normal s Hn) as Hn'. unfold normal in *. unfold Validate in *. rewrite Hn in H. rewrite Hn'. pose proof H as H'. steps H'. clear H'.
  match goal with E : validate_disks _ _ _ _ = Ok _ |- _ => rename E into Ed end.
  pose proof (f_equal Disks Hn) as Hd. apply normal_disks_fix in Hd as [_ Hd].
  assert (Hall : Forall (fun d => normal_disk d = d) (Disks s)).
  { revert Hd. generalize (Disks s). intros l. induction l as [|d l IH]; [by constructor|]. cbn [map]. intros [= H1 H2]. constructor; [done|by apply IH]. }
  etransitivity; [|exact H]. unfold own_boot, set_devices. cbn [Name CPUs MemoryBytes Machine SFirmware Disks NICs ISOLibraryID CloudImageID BootOrder SNoCloud SecureBoot USBs PCIHosts].
  rewrite (own_disks_valid _ Hv Hall _ _ _ Ed), Ed. done.
Qed.
End Own.
Lemma own_nics id vol s : PersistNICs id s = s -> PersistNICs id (own_boot vol s) = own_boot vol s.
Proof. destruct vol as [v|]; [|done]. intros Hp. unfold VmSpec.PersistNICs, own_boot, set_devices in *. cbn [NICs Disks]. destruct s. cbn in *. injection Hp as Hp. by rewrite Hp. Qed.

(** C34: the addresses, the network cards' identities and hardware addresses a machine is created
    with are the ones every later start finds in its row and gives again: reading back the
    stored machine, which names the volume made for it, and preparing it anew changes
    nothing.  The machine is in normal form, and the volume's identifier is a UUID. *)
Theorem addresses_are_kept id s s1 pci vol : normal s -> create_spec id s = Ok (s1, pci) -> (forall v, vol = Some v -> uuid_ok parse_uuid (vvID v) = true) ->
  let row := stored (own_boot vol s1) in create_spec id (reread row) = Ok (row, pci).
Proof.
  intros Hs H Hv row. unfold VmSpec.create_spec in H. steps H. simplify_eq H. intros -> ->. destruct (allocated_normal _ _ _ _ Hs E) as [Hn Hp].
  apply AllocatePCI_spec in E as [[m Ha] _]. pose proof (al_again _ _ _ Ha) as Hag.
  assert (Ho : normal (own_boot vol s1) /\ AllocatePCI (own_boot vol s1) = Ok (own_boot vol s1, pci) /\ Validate parse_uuid (own_boot vol s1) = Ok ()).
  { destruct vol as [v|]; [|done]. split_and!; [by apply own_disks_normal|by apply own_allocates|apply own_valid; auto]. }
  destruct Ho as (Hon & Hoa & Hov). unfold row, reread. rewrite (redacted_normal _ Hon). unfold VmSpec.create_spec.
  assert (Hop : PersistNICs id (stored (own_boot vol s1)) = stored (own_boot vol s1)).
  { change (PersistNICs id (stored (own_boot vol s1))) with (set_nocloud (PersistNICs id (own_boot vol s1)) (redact_nocloud (SNoCloud (own_boot vol s1)))). by rewrite own_nics. }
  rewrite Hop. assert (Hst : AllocatePCI (stored (own_boot vol s1)) = Ok (stored (own_boot vol s1), pci)) by by apply AllocatePCI_nocloud.
  rewrite Hst. cbn [mbind result_mbind]. pose proof (Validate_redact _ Hov) as Hr. change (Redact (own_boot vol s1)) with (stored (own_boot vol s1)) in Hr. by rewrite Hr.
Qed.

(** ** Edits of a running machine *)
Definition set_autostart (s : Spec) (a : bool) : Spec :=
  mkSpec (SchemaVersion s) (Name s) (CPUs s) (MemoryBytes s) (Machine s) (SFirmware s) (BootOrder s) (Disks s) (NICs s) (ISOLibraryID s)
    (CloudImageID s) (SNoCloud s) a (SConsole s) (Balloon s) (SecureBoot s) (USBs s) (PCIHosts s).

(** A field that changed is in the list of what changed. *)
Lemma class_absent (P : ApplyClass -> bool) f a (b : bool) : existsb P (if b then [mkApply f a] else []) = false -> P (mkApply f a) = true -> b = false.
Proof. destruct b; [|done]. cbn. intros H1 H2. by rewrite H2 in H1. Qed.
Lemma live_fields prev next :
  RequiresStop (ClassifyEdit prev next) = false -> RequiresRestart (ClassifyEdit prev next) = false -> HasUnsupported (ClassifyEdit prev next) = false ->
  let p := Normalize prev in let n := Normalize next in
  CPUs p = CPUs n /\ MemoryBytes p = MemoryBytes n /\ Machine p = Machine n /\ SFirmware p = SFirmware n /\ SecureBoot p = SecureBoot n /\
  ISOLibraryID p = ISOLibraryID n /\ nocloudChanged (SNoCloud p) (SNoCloud n) = false /\ Name p = Name n.
Proof.
  intros Hs Hr Hu p n. unfold RequiresStop, RequiresRestart, HasUnsupported, ClassifyEdit in *. cbv zeta in *. fold p n in Hs, Hr, Hu.
  rewrite !existsb_app, !orb_false_iff in Hs, Hr, Hu. destruct_and!.
  repeat match goal with H : existsb ?P (if ?b then [mkApply ?f ?a] else []) = false |- _ => first [apply class_absent in H; [|reflexivity] | clear H] end.
  repeat match goal with H : negb _ = false |- _ => apply negb_false_iff in H | H : bool_decide (_ <> _) = false |- _ => apply bool_decide_eq_false, dec_stable in H end.
  split_and!; try (by apply Z.eqb_eq); try (by apply Bool.eqb_prop); done.
Qed.

(** A row as creating and editing leave it. *)
Record settled (id : string) (row : Spec) : Prop := {
  se_normal : normal row;
  se_redacted : Redact row = row;
  se_nics : PersistNICs id row = row }.

Lemma same_nocloud row name req c0 :
  Redact row = row -> c0 = normal_nocloud name (patch_nocloud (SNoCloud row) req) -> forall name',
  nocloudChanged (SNoCloud row) (normal_nocloud name' c0) = false -> normal_nocloud name' (redact_nocloud c0) = SNoCloud row.
Proof.
  intros Hrd Ec name' Hch. apply (f_equal SNoCloud) in Hrd. change (SNoCloud (Redact row)) with (redact_nocloud (SNoCloud row)) in Hrd.
  unfold nocloudChanged in Hch. rewrite !orb_false_iff in Hch. destruct_and!.
  repeat match goal with H : negb _ = false |- _ => apply negb_false_iff, Bool.eqb_prop in H | H : bool_decide (_ <> _) = false |- _ => apply bool_decide_eq_false, dec_stable in H end.
  assert (Hhas : cHasPassword c0 = cHasPassword (SNoCloud row)).
  { rewrite Ec in *. destruct req as [c|]; cbn in *; repeat match goal with H : cPassword _ = ""%string |- _ => rewrite !H end; done. }
  destruct (SNoCloud row) as [en host user keys pw ud net has]. destruct c0 as [en0 host0 user0 keys0 pw0 ud0 net0 has0]. cbn in *. subst.
  unfold redact_nocloud in Hrd. cbn in Hrd. injection Hrd as Hud Hhas'. unfold normal_nocloud, redact_nocloud. cbn.
  match goal with |- context [userDataLooksSecret ?u] => destruct (userDataLooksSecret u) eqn:Es; [subst u; by vm_compute in Es|] end.
  done.
Qed.
Lemma spec_eq s t :
  SchemaVersion s = SchemaVersion t -> Name s = Name t -> CPUs s = CPUs t -> MemoryBytes s = MemoryBytes t -> Machine s = Machine t -> SFirmware s = SFirmware t ->
  BootOrder s = BootOrder t -> Disks s = Disks t -> NICs s = NICs t -> ISOLibraryID s = ISOLibraryID t -> CloudImageID s = CloudImageID t ->
  SNoCloud s = SNoCloud t -> Autostart s = Autostart t -> SConsole s = SConsole t -> Balloon s = Balloon t -> SecureBoot s = SecureBoot t ->
  USBs s = USBs t -> PCIHosts s = PCIHosts t -> s = t.
Proof. destruct s, t. cbn. intros. by subst. Qed.
Lemma normal_order s iso : normal s -> (match BootOrder s with [] => if decide (TrimSpace iso <> ""%string) then ["cdrom"; "disk"]%string else ["disk"%string] | o => o end) = BootOrder s.
Proof. intros Hn. apply (f_equal BootOrder) in Hn. cbn in Hn. destruct (BootOrder s); [|done]. by case_decide. Qed.
Lemma normal_console s : normal s -> (if Serial (SConsole s) || VNC (SConsole s) then SConsole s else mkConsole true true) = SConsole s.
Proof. intros Hn. by apply (f_equal SConsole) in Hn. Qed.


Lemma redact_idem s : Redact (Redact s) = Redact s.
Proof.
  unfold Redact. cbn [SNoCloud set_nocloud]. unfold set_nocloud; cbn. f_equal. destruct (SNoCloud s) as [en host user keys pw ud net has].
  unfold redact_nocloud. cbn. destruct (userDataLooksSecret ud) eqn:E; [|by rewrite E; destruct (bool_decide (pw <> ""%string)), has].
  replace (userDataLooksSecret "") with false by (vm_compute; reflexivity). by destruct (bool_decide (pw <> ""%string)), has.
Qed.
(** A machine that was just created is settled. *)
Lemma created_settled id s s1 pci : normal s -> create_spec id s = Ok (s1, pci) -> settled id (stored s1).
Proof.
  intros Hs H. unfold VmSpec.create_spec in H. steps H. injection H as -> ->. destruct (allocated_normal _ _ _ _ Hs E) as [Hn Hp].
  split; [by apply redacted_normal|apply redact_idem|]. change (PersistNICs id (stored s1)) with (set_nocloud (PersistNICs id s1) (redact_nocloud (SNoCloud s1))). by rewrite Hp.
Qed.

(** ** The launch of a machine *)
Record compiled (id : string) (r : Resolved) (spec : Spec) (l : Launch) (s1 : Spec) (m : gmap Z string) (disks iso seed : list LaunchDisk) : Prop := {
  co_spec : AllocatePCI (PersistNICs id (Normalize spec)) = Ok (s1, lPCI l);
  co_alloc : allocated s1 (lPCI l) m;
  co_id : lWorkloadID l = id;
  co_balloon : lBalloon l = Balloon s1;
  co_disks : compile_disks id s1 0 (rDisks r) = Ok disks;
  co_iso : compile_iso r s1 = Ok iso;
  co_seed : exists nc, compile_seed sha256 id s1 (lPCI l) = Ok (nc, seed);
  co_nics : compile_nics sha256 id s1 0 (rNICs r) = Ok (lNICs l);
  co_gpus : compile_gpus vfioFirstSlot (PCIHosts s1) = Ok (lGPUs l);
  co_all : lDisks l = disks ++ iso ++ seed }.
Lemma Compile_spec id r spec l : Compile id r spec = Ok l -> exists s1 m disks iso seed, compiled id r spec l s1 m disks iso seed.
Proof.
  intros H. unfold VmSpec.Compile in H. steps H. injection H as <-. pose proof E1 as Ha. apply AllocatePCI_spec in Ha as [[m Ha] _].
  eexists _, m, _, _, _. split; cbn; try done. eauto.
Qed.
Lemma Compile_plain id r spec l : free comma id -> Compile id r spec = Ok l -> plain_launch l.
Proof.
  intros Hid H. apply Compile_spec in H as (s1 & m & disks & iso & seed & H). destruct (al_pci _ _ _ (co_alloc _ _ _ _ _ _ _ _ _ H)) as (Hv & Hs & Hb).
  unfold plain_launch, pci_of. rewrite (co_id _ _ _ _ _ _ _ _ _ H), Hv, Hs, Hb. split_and!; [done|by apply literal_free..|]. destruct (Balloon s1); by apply literal_free.
Qed.

(** ** No text becomes an option *)
Definition key_of (opt : string) : string := match Split opt "="%char with k :: _ => k | [] => "" end.
Definition single_flags : list string := ["-name"; "-accel"; "-cpu"; "-smp"; "-m"; "-display"; "-serial"; "-vnc"]%string.
(** The options the compiler writes after a flag: those always there, those sometimes. *)
Definition shapes (flag : string) : list (list string * list string) :=
  if decide (flag = "-device"%string) then
    [(["VGA"; "id"; "addr"], []); (["virtio-serial-pci"; "id"; "addr"], []); (["virtserialport"; "chardev"; "name"], []);
     (["virtio-balloon-pci"; "id"; "addr"], []); (["ide-cd"; "drive"; "bus"; "id"], ["bootindex"]); (["ide-hd"; "drive"; "bus"; "id"], ["serial"; "bootindex"]);
     (["virtio-blk-pci"; "drive"; "addr"], ["serial"; "bootindex"]); (["vfio-pci"; "host"; "addr"; "id"], []); (["qemu-xhci"; "id"], []);
     (["usb-host"; "id"; "vendorid"; "productid"], []); (["virtio-net-pci"; "netdev"; "mac"; "addr"], [])]%string
  else if decide (flag = "-blockdev"%string) then
    [(["driver"; "node-name"; "filename"; "discard"], ["cache.direct"; "aio"; "read-only"]); (["driver"; "node-name"; "file"], ["read-only"])]%string
  else if decide (flag = "-chardev"%string) then [(["socket"; "id"; "path"; "server"; "wait"], [])]%string
  else if decide (flag = "-mon"%string) then [(["chardev"; "mode"], [])]%string
  else if decide (flag = "-boot"%string) then [(["order"], [])]%string
  else if decide (flag = "-drive"%string) then [(["if"; "format"; "readonly"; "file"], []); (["if"; "format"; "file"], [])]%string
  else if decide (flag = "-netdev"%string) then [(["tap"; "id"; "ifname"; "script"; "downscript"], [])]%string
  else [].
Fixpoint among (l opt : list string) : bool :=
  match l, opt with
  | [], _ => true
  | x :: l', y :: opt => if decide (x = y) then among l' opt else among l opt
  | _ :: _, [] => false
  end.
Definition fits (keys : list string) (shape : list string * list string) : bool :=
  bool_decide (take (length shape.1) keys = shape.1) && among (drop (length shape.1) keys) shape.2.
Definition options_known (arg : string * list string) : bool :=
  let '(flag, opts) := arg in
  if decide (flag ∈ bare_flags) then bool_decide (opts = [])
  else if decide (flag ∈ single_flags) then bool_decide (length opts = 1%nat)
  else if decide (flag = "-machine"%string) then bool_decide (length opts = 2%nat) && bool_decide (last opts = Some "usb=off"%string)
  else existsb (fits (map key_of opts)) (shapes flag).

(** The values given to an option, after one flag. *)
Fixpoint strip (p s : string) : option string :=
  match p, s with
  | EmptyString, _ => Some s
  | String a p, String b s => if Ascii.eqb a b then strip p s else None
  | String _ _, EmptyString => None
  end.
Definition values (flag name : string) (args : command) : list string :=
  concat (map (fun a : string * list string => if String.eqb a.1 flag then omap (strip (name +:+ "=")) a.2 else []) args).
Lemma values_app flag name a b : values flag name (a ++ b) = values flag name a ++ values flag name b.
Proof. unfold values. by rewrite map_app, concat_app. Qed.

Lemma forallb_concat {A} (f : A -> bool) l : forallb f (concat l) = forallb (forallb f) l.
Proof. induction l as [|x l IH]; [done|]. cbn. by rewrite forallb_app, IH. Qed.

Section Parts.
Context (dataDir : string) (l : Launch).

Lemma base_values cpus memory : values "-device" "addr" (base_cmds dataDir l cpus memory) = [pci_of l "vga" PCIVGA] /\ values "-blockdev" "filename" (base_cmds dataDir l cpus memory) = [] /\
  forallb options_known (base_cmds dataDir l cpus memory) = true.
Proof. split_and!; reflexivity. Qed.
Lemma firmware_values : values "-device" "addr" (firmware_cmds l) = [] /\ values "-blockdev" "filename" (firmware_cmds l) = [] /\ forallb options_known (firmware_cmds l) = true.
Proof. unfold firmware_cmds. case_decide; split_and!; reflexivity. Qed.
Lemma console_values : values "-device" "addr" (console_cmds dataDir l) = [] /\ values "-blockdev" "filename" (console_cmds dataDir l) = [] /\
  forallb options_known (console_cmds dataDir l) = true.
Proof. unfold console_cmds. destruct (Serial (lConsole l)), (VNC (lConsole l)); split_and!; reflexivity. Qed.
Lemma agent_values : values "-device" "addr" (agent_cmds dataDir l) = pci_of l "serial" PCISerial :: (if lBalloon l then [pci_of l "balloon" PCIBalloon] else []) /\
  values "-blockdev" "filename" (agent_cmds dataDir l) = [] /\ forallb options_known (agent_cmds dataDir l) = true.
Proof. unfold agent_cmds. destruct (lBalloon l); split_and!; reflexivity. Qed.
Definition virtio (d : LaunchDisk) : bool := negb (bool_decide (ldRole d = DiskRoleCDROM) || usesAHCI d).
Lemma disk_values port d : values "-device" "addr" (disk_cmds l port d) = (if virtio d then [ldPCIAddr d] else []) /\ values "-blockdev" "filename" (disk_cmds l port d) = [ldPath d] /\
  forallb options_known (disk_cmds l port d) = true.
Proof.
  unfold disk_cmds, disk_device, serial_opts, boot_opts, when, virtio.
  destruct (decide (ldRole d = DiskRoleCDROM)) as [Er|Er]; [rewrite (bool_decide_eq_true_2 _ Er)|rewrite (bool_decide_eq_false_2 _ Er)];
    [|destruct (usesAHCI d)]; destruct (isPhysicalLaunchDisk d), (ldReadOnly d), (ldDiscard d); cbn [negb andb orb app];
    repeat match goal with |- context [if decide (ldRole d = DiskRoleBoot) then _ else _] => destruct (decide (ldRole d = DiskRoleBoot)) end;
    repeat match goal with |- context [if 0 <? bootIndex ?o ?c then _ else _] => destruct (0 <? bootIndex o c) end;
    repeat match goal with |- context [bool_decide (qemuSerial ?s ?t = ""%string)] => destruct (bool_decide (qemuSerial s t = ""%string)) end;
    split_and!; reflexivity.
Qed.
Lemma disks_values disks : forall port, values "-device" "addr" (disks_cmds l port disks) = map ldPCIAddr (filter (fun d => virtio d = true) disks) /\
  values "-blockdev" "filename" (disks_cmds l port disks) = map ldPath disks /\ forallb options_known (disks_cmds l port disks) = true.
Proof.
  induction disks as [|d disks IH]; intros port; [done|]. cbn [disks_cmds map]. rewrite !values_app, forallb_app. destruct (disk_values port d) as (-> & -> & ->).
  destruct (IH (next_port port d)) as (-> & -> & ->). split_and!; [|done|done]. rewrite filter_cons. by destruct (virtio d).
Qed.
Lemma gpus_values gpus : forall k, values "-device" "addr" (imap (fun i => gpu_cmd (k + i)) gpus) = map lgPCIAddr gpus /\
  values "-blockdev" "filename" (imap (fun i => gpu_cmd (k + i)) gpus) = [] /\ forallb options_known (imap (fun i => gpu_cmd (k + i)) gpus) = true.
Proof.
  induction gpus as [|g gpus IH]; intros k; [done|]. cbn [imap map]. destruct (IH (S k)) as (H1 & H2 & H3).
  assert (E : imap ((fun i => gpu_cmd (k + i)) ∘ S) gpus = imap (fun i => gpu_cmd (S k + i)) gpus) by (apply imap_ext; intros i x _; cbn; by rewrite Nat.add_succ_r).
  rewrite E. change (?a :: ?b) with ([a] ++ b). rewrite !values_app, H1, H2, forallb_app, H3. split_and!; reflexivity.
Qed.
Lemma usbs_values usbs : values "-device" "addr" (map usb_cmd usbs) = [] /\ values "-blockdev" "filename" (map usb_cmd usbs) = [] /\ forallb options_known (map usb_cmd usbs) = true.
Proof.
  induction usbs as [|u usbs (H1 & H2 & H3)]; [done|]. cbn [map]. change (?a :: ?b) with ([a] ++ b). rewrite !values_app, H1, H2, forallb_app, H3. split_and!; reflexivity.
Qed.
Lemma nics_values nics : forall k, values "-device" "addr" (concat (imap (fun i => nic_cmds (k + i)) nics)) = map lnPCIAddr nics /\
  values "-blockdev" "filename" (concat (imap (fun i => nic_cmds (k + i)) nics)) = [] /\ forallb options_known (concat (imap (fun i => nic_cmds (k + i)) nics)) = true.
Proof.
  induction nics as [|n nics IH]; intros k; [done|]. cbn [imap map concat]. destruct (IH (S k)) as (H1 & H2 & H3).
  assert (E : imap ((fun i => nic_cmds (k + i)) ∘ S) nics = imap (fun i => nic_cmds (S k + i)) nics) by (apply imap_ext; intros i x _; cbn; by rewrite Nat.add_succ_r).
  rewrite E, !values_app, H1, H2, forallb_app, H3. split_and!; reflexivity.
Qed.

Lemma launch_values : let args := launch_cmds dataDir l in
  values "-device" "addr" args = pci_of l "vga" PCIVGA :: pci_of l "serial" PCISerial :: (if lBalloon l then [pci_of l "balloon" PCIBalloon] else []) ++
    map ldPCIAddr (filter (fun d => virtio d = true) (lDisks l)) ++ map lgPCIAddr (lGPUs l) ++ map lnPCIAddr (lNICs l) /\
  values "-blockdev" "filename" args = map ldPath (lDisks l) /\ forallb options_known args = true.
Proof.
  unfold launch_cmds. cbv zeta. change (imap gpu_cmd (lGPUs l)) with (imap (fun i => gpu_cmd (0 + i)) (lGPUs l)).
  change (imap nic_cmds (lNICs l)) with (imap (fun i => nic_cmds (0 + i)) (lNICs l)). rewrite !values_app, !forallb_app.
  destruct (base_values (if lCPUs l <? 1 then 1 else lCPUs l) (if lMemoryMiB l <? 64 then 128 else lMemoryMiB l)) as (-> & -> & ->).
  destruct firmware_values as (-> & -> & ->). destruct console_values as (-> & -> & ->). destruct agent_values as (-> & -> & ->).
  destruct (disks_values (lDisks l) 0) as (-> & -> & ->). destruct (gpus_values (lGPUs l) 0) as (-> & -> & ->). destruct (usbs_values (lUSBs l)) as (-> & -> & ->).
  destruct (nics_values (lNICs l) 0) as (-> & -> & ->). rewrite !app_nil_r. split_and!; reflexivity.
Qed.
End Parts.

Lemma disks_checked l disks : forall port args, disks_args l port disks = Ok args -> Forall (fun d => validateLaunchDisk (lWorkloadID l) d = Ok ()) disks.
Proof.
  induction disks as [|d disks IH]; intros port args; cbn [disks_args]; [by constructor|]. intros H. steps H. constructor; [|by eapply IH].
  unfold disk_args in E. by steps E.
Qed.

(** C33: no text of a machine, its request or what it resolves to adds an option to the command
    line: read back as QEMU reads it, each argument is a flag of a fixed list with the options
    the compiler writes after it, in their order, and every file a disk opens is in the
    machine's own runtime directory or a volume's path. *)
Theorem no_option_slips_in id r spec dataDir l argv :
  free comma id -> Compile id r spec = Ok l -> CompileLaunch dataDir l = Ok argv ->
  exists rest args, argv = BinQEMU :: rest /\ read_args rest = Some args /\ forallb options_known args = true /\
    Forall (fun p => HasPrefix p (runtime_prefix id) = true /\ ValidateCleanPath p "disk path" = Ok () \/ ValidateDiskPath p = Ok ()) (values "-blockdev" "filename" args).
Proof.
  intros Hid Hc Hl. destruct (CompileLaunch_reads dataDir l _ _ (Compile_plain _ _ _ _ Hid Hc) Hl) as (rest & -> & Hr).
  exists rest, (launch_cmds dataDir l). destruct (launch_values dataDir l) as (_ & Hf & Hk). split_and!; [done..|]. rewrite Hf, Forall_map.
  apply Compile_spec in Hc as (s1 & m & disks & iso & seed & Hc). rewrite <- (co_id _ _ _ _ _ _ _ _ _ Hc).
  unfold Qemu.CompileLaunch in Hl. steps Hl. apply disks_checked in E5. eapply Forall_impl; [exact E5|]. intros d Hd. unfold validateLaunchDisk in Hd. steps Hd.
  destruct (HasPrefix _ _); [left|right]; done.
Qed.

(** ** No two devices in one slot *)
Lemma slots_nodup (m : gmap Z string) (l : list (string * string)) : NoDup (map fst l) -> Forall (fun p => owns m p.1 p.2) l ->
  NoDup (map pci_slot (map snd l)) /\ Forall (fun a => 2 <= pci_slot a <= 31) (map snd l).
Proof.
  induction l as [|[k a] l IH]; cbn [map fst snd]; intros Hn Ho; [split; constructor|].
  apply NoDup_cons in Hn as [Hk Hn]. apply Forall_cons in Ho as [[(_ & _ & Hr) Ha] Ho]. destruct (IH Hn Ho) as [IH1 IH2]. cbn [fst snd] in *.
  split; constructor; try done. intros Hin. rewrite map_map in Hin. apply list_elem_of_In, in_map_iff in Hin as ([k' a'] & E & Hin). cbn in E.
  apply list_elem_of_In in Hin. rewrite Forall_forall in Ho. destruct (Ho _ Hin) as [_ Ha']. cbn in Ha'. rewrite E, Ha in Ha'. simplify_eq.
  apply Hk. by apply (list_elem_of_fmap_2 fst _ (k', a')).
Qed.

Lemma cut_at (c : ascii) a b x y : c ∉ a -> c ∉ b -> a ++ c :: x = b ++ c :: y -> a = b /\ x = y.
Proof.
  revert b. induction a as [|u a IH]; intros [|v b] Ha Hb E; cbn in E.
  - by injection E as ->.
  - injection E as -> _. set_solver.
  - injection E as -> _. set_solver.
  - injection E as -> E. destruct (IH b) as [-> ->]; set_solver.
Qed.
Lemma diskKey_inj r1 s1 r2 s2 : free ":"%char r1 -> free ":"%char r2 -> diskKey r1 s1 = diskKey r2 s2 -> r1 = r2 /\ s1 = s2.
Proof.
  intros H1 H2 E. apply (f_equal bytes) in E. unfold diskKey in E. rewrite !bytes_app in E. apply app_inv_head in E.
  change (bytes ":" ++ ?x) with (":"%char :: x) in E. apply cut_at in E as [Er Es]; [|done..]. split; [by apply bytes_inj|by apply Itoa_inj, bytes_inj].
Qed.
Lemma nicKey_inj i j : nicKey i = nicKey j -> i = j.
Proof. intros E. apply (f_equal bytes) in E. unfold nicKey in E. rewrite !bytes_app in E. apply app_inv_head, bytes_inj, Itoa_inj in E. lia. Qed.
Lemma role_free r : r ∈ diskRoles -> free ":"%char r.
Proof. intros Hr. unfold diskRoles in Hr. repeat (apply elem_of_cons in Hr as [->|Hr]; [apply (bool_decide_unpack _); vm_compute; exact I|]). by apply elem_of_nil in Hr. Qed.

(** What validation says of each disk. *)
Lemma validate_disks_spec disks : forall boot phys n, validate_disks parse_uuid disks boot phys = Ok n ->
  Forall (fun d => dRole d ∈ diskRoles /\ (disk_source d = DiskSourcePhysical -> TrimSpace (dDeviceID d) <> ""%string)) disks.
Proof.
  induction disks as [|d disks IH]; intros boot phys n; cbn [validate_disks]; [by constructor|]. intros H. steps H. apply bool_decide_eq_true in E.
  constructor; [|by eapply IH]. split; [done|]. intros Hp. rewrite bool_decide_eq_true_2 in E0 by done. steps E0. by apply bool_decide_eq_true in E3.
Qed.

(** A disk of a new machine that sits on the PCI bus has the address of the disk asked for. *)
Lemma resolved_disk f vol id s1 i d rds rd ld :
  dRole d ∈ diskRoles -> (disk_source d = DiskSourcePhysical -> TrimSpace (dDeviceID d) <> ""%string) -> (diskUsesAHCI d = false -> dPCIAddr d <> ""%string) ->
  resolve_disk f vol d = Ok rds -> rd ∈ rds -> compile_disk id s1 i rd = Ok ld -> virtio ld = true ->
  diskUsesAHCI d = false /\ ldPCIAddr ld = dPCIAddr d /\ dRole d <> DiskRoleCIDATA.
Proof.
  intros Hr Hsrc Haddr Hd Hin Hc Hv. unfold resolve_disk in Hd. destruct (decide _) as [|Hrole]; [injection Hd as <-; by apply elem_of_nil in Hin|].
  assert (Hnot : dRole d <> DiskRoleCDROM /\ dRole d <> DiskRoleCIDATA) by set_solver. destruct Hnot as [Hcd Hci].
  unfold compile_disk in Hc. steps Hc. destruct (hostBlockDisk _) as [zvol block]. steps Hc. injection Hc as <-. cbn [ldPCIAddr].
  assert (Hkey : diskUsesAHCI d = false /\ rdPCIAddr rd = dPCIAddr d); [|destruct Hkey as [Ha Hp]; rewrite Hp, decide_False by auto; done].
  unfold virtio, usesAHCI, isPhysicalLaunchDisk in Hv. cbn [ldRole ldSource ldBus ldPath] in Hv. rewrite negb_true_iff, !orb_false_iff in Hv. destruct Hv as [_ Hv].
  unfold diskUsesAHCI. rewrite (decide_False _ _ Hcd). fold (disk_source d).
  destruct (isPhysicalSpecDisk d) eqn:Ep.
  - steps Hd. injection Hd as <-. apply list_elem_of_singleton in Hin as ->. unfold resolvePhysicalDisk in *.
    match goal with E : (_ ≫= _) = Ok x |- _ => steps E; injection E as Ex end.
    assert (Hxs : rdSource x = DiskSourcePhysical) by (by rewrite <- Ex). assert (Hxb : rdBus x = firstNonEmpty [dBus d; DiskBusAHCI]) by (by rewrite <- Ex).
    split; [|by rewrite <- Ex]. clear Ex E4. rewrite Hxs, Hxb in Hv. rewrite (bool_decide_eq_true_2 (DiskSourcePhysical = DiskSourcePhysical) eq_refl) in Hv. cbn [orb andb] in Hv. destruct Hv as [_ Hv].
    unfold firstNonEmpty in Hv. cbn [List.find] in Hv. destruct (bool_decide (TrimSpace (dBus d) <> ""%string)) eqn:Eb.
    + cbn [default] in Hv. apply bool_decide_eq_true in Eb. assert (Hb : dBus d <> ""%string) by (intros E'; by rewrite E' in Eb).
      rewrite (bool_decide_eq_false_2 _ Hb) in Hv. cbn [andb] in Hv. rewrite (bool_decide_eq_false_2 _ Hb) in Hv. cbn in Hv. rewrite (bool_decide_eq_false_2 _ Hb), Hv. apply andb_false_r.
    + exfalso. by vm_compute in Hv.
  - assert (Hns : disk_source d <> DiskSourcePhysical).
    { intros Hs. unfold isPhysicalSpecDisk in Ep. apply orb_false_iff in Ep as [_ Ep]. apply bool_decide_eq_false in Ep. by apply Ep, Hsrc. }
    split; [by rewrite (bool_decide_eq_false_2 _ Hns)|].
    destruct vol as [v|]; [destruct (bool_decide (dRole d = DiskRoleBoot)); [injection Hd as <-; apply list_elem_of_singleton in Hin as ->; done|]|];
      (destruct (bool_decide _ || _ || _); [injection Hd as <-; by apply elem_of_nil in Hin|]; steps Hd; injection Hd as <-; apply list_elem_of_singleton in Hin as ->; done).
Qed.
Definition on_pci (d : Disk) : Prop := diskUsesAHCI d = false.
#[export] Instance on_pci_dec d : Decision (on_pci d) := _ : Decision (diskUsesAHCI d = false).
Definition sound_disk (d : Disk) : Prop :=
  dRole d ∈ diskRoles /\ (disk_source d = DiskSourcePhysical -> TrimSpace (dDeviceID d) <> ""%string) /\ (on_pci d -> dPCIAddr d <> ""%string).

Lemma resolve_one f vol d rds : resolve_disk f vol d = Ok rds -> rds = [] \/ exists rd, rds = [rd].
Proof.
  unfold resolve_disk. destruct (decide _); [intros [= <-]; by left|]. destruct (isPhysicalSpecDisk d).
  - intros H. steps H. injection H as <-. right. eauto.
  - destruct vol as [v|]; [destruct (bool_decide (dRole d = DiskRoleBoot)); [intros [= <-]; right; eauto|]|];
      (destruct (bool_decide _ || _ || _); [intros [= <-]; by left|]; intros H; steps H; injection H as <-; right; eauto).
Qed.
Lemma resolved_list f vol id s1 disks : forall i rds lds, Forall sound_disk disks -> resolve_disks f vol disks = Ok rds -> compile_disks id s1 i rds = Ok lds ->
  exists ds, ds `sublist_of` filter on_pci disks /\ Forall2 (fun ld d => ldPCIAddr ld = dPCIAddr d /\ dRole d <> DiskRoleCIDATA) (filter (fun d => virtio d = true) lds) ds.
Proof.
  induction disks as [|d disks IH]; intros i rds lds Hs Hr Hc; cbn [resolve_disks] in Hr; [injection Hr as <-; injection Hc as <-; exists []; by split|].
  steps Hr. injection Hr as <-. apply Forall_cons in Hs as [(Hrole & Hsrc & Hadr) Hs]. destruct (resolve_one _ _ _ _ E) as [->|[rd ->]].
  - destruct (IH i _ _ Hs E0 Hc) as (ds & Hd & Hf). exists ds. split; [|done]. rewrite filter_cons. destruct (decide (on_pci d)); [by apply sublist_cons|done].
  - cbn [app compile_disks] in Hc. steps Hc. injection Hc as <-. destruct (IH (S i) _ _ Hs E0 E2) as (ds & Hd & Hf). rewrite !filter_cons.
    destruct (decide (virtio _ = true)) as [Hv|Hv].
    + destruct (resolved_disk f vol id s1 i d _ rd _ Hrole Hsrc Hadr E ltac:(by left) E1 Hv) as (Ha & Hp & Hci). exists (d :: ds).
      split; [|by constructor]. rewrite decide_True by done. by apply sublist_skip.
    + exists ds. split; [|done]. destruct (decide (on_pci d)); [by apply sublist_cons|done].
Qed.
Lemma resolved_nics f id s1 nics : forall i j rns lns, Forall (fun n => nPCIAddr n <> ""%string) nics -> resolve_nics sha256 f id i nics = Ok rns ->
  compile_nics sha256 id s1 j rns = Ok lns -> map lnPCIAddr lns = map nPCIAddr nics.
Proof.
  induction nics as [|n nics IH]; intros i j rns lns Hn Hr Hc; cbn [resolve_nics] in Hr; [injection Hr as <-; by injection Hc as <-|].
  apply Forall_cons in Hn as [Hn Hs]. steps Hr. injection Hr as <-. cbn [compile_nics] in Hc. steps Hc. injection Hc as <-. cbn [map]. f_equal; [|by eapply IH].
  unfold compile_nic in E1. steps E1. injection E1 as <-. cbn. by rewrite decide_False.
Qed.

Lemma seed_addr id s1 pci nc seed : compile_seed sha256 id s1 pci = Ok (nc, seed) ->
  seed = [] \/ cEnable (SNoCloud s1) = true /\ exists d, seed = [d] /\ ldPCIAddr d = default ""%string (pci !! diskKey DiskRoleCIDATA 0).
Proof. unfold compile_seed. destruct (cEnable _); [|intros [= _ <-]; by left]. intros H. steps H. injection H as _ <-. right. eauto. Qed.
Lemma iso_off r s1 iso : compile_iso r s1 = Ok iso -> filter (fun d => virtio d = true) iso = [].
Proof. unfold compile_iso. case_decide; [by intros [= <-]|]. intros H'. steps H'. injection H' as <-. done. Qed.

Lemma same_keys disks disks' : Forall2 (fun d d' => d' = set_disk_addr d (dPCIAddr d') /\ (diskUsesAHCI d = true -> d' = d)) disks disks' ->
  map (fun d => (dRole d, dSlot d)) (filter on_pci disks') = map (fun d => (dRole d, dSlot d)) (filter on_pci disks).
Proof.
  induction 1 as [|d d' disks disks' [Hd _] _ IH]; [done|]. rewrite !filter_cons.
  assert (Hp : on_pci d' <-> on_pci d) by (unfold on_pci; by rewrite Hd). destruct (decide (on_pci d)) as [Ho|Ho].
  - rewrite decide_True by tauto. cbn [map]. rewrite IH. by rewrite Hd.
  - by rewrite decide_False by tauto.
Qed.

(** The devices with an address, by key. *)
Definition fixed_entries (balloon : bool) : list (string * string) :=
  [("vga", PCIVGA); ("serial", PCISerial)]%string ++ (if balloon then [("balloon"%string, PCIBalloon)] else []).
Definition disk_entry (d : Disk) : string * string := (diskKey (dRole d) (dSlot d), dPCIAddr d).
Definition nic_entry (j : nat) (n : NIC) : string * string := (nicKey j, nPCIAddr n).

Lemma entries_nodup balloon ds seed nics :
  NoDup (map (fun d => (dRole d, dSlot d)) ds) -> Forall (fun d => dRole d ∈ diskRoles /\ dRole d <> DiskRoleCIDATA) ds ->
  seed = [] \/ (exists a, seed = [(diskKey DiskRoleCIDATA 0, a)]) ->
  NoDup (map fst (fixed_entries balloon ++ map disk_entry ds ++ seed ++ imap nic_entry nics)).
Proof.
  intros Hd Hr Hs. rewrite !map_app, !map_map. set (dk := map (fun d => fst (disk_entry d)) ds).
  assert (Hdk : forall k, k ∈ dk -> exists d, d ∈ ds /\ k = diskKey (dRole d) (dSlot d)) by (intros k Hk; apply list_elem_of_In, in_map_iff in Hk as (d & <- & Hin); exists d; by rewrite list_elem_of_In).
  assert (Hnk : forall k, k ∈ map fst (imap nic_entry nics) -> exists j, k = nicKey j).
  { intros k Hk. apply list_elem_of_In, in_map_iff in Hk as ([k' a] & <- & Hin). apply list_elem_of_In, elem_of_lookup_imap in Hin as (j & n & [= -> ->] & _). by exists j. }
  assert (Hsk : forall k, k ∈ map fst seed -> k = diskKey DiskRoleCIDATA 0) by (destruct Hs as [->|[a ->]]; cbn; set_solver).
  rewrite !NoDup_app. split_and!.
  - destruct balloon; apply (bool_decide_unpack _); vm_compute; exact I.
  - intros k Hk Hin. assert (Hf : k ∈ ["vga"; "serial"; "balloon"]%string) by (destruct balloon; set_solver).
    rewrite !elem_of_app in Hin. destruct Hin as [Hin|[Hin|Hin]]; [destruct (Hdk _ Hin) as (d & _ & ->)|rewrite (Hsk _ Hin) in Hf|destruct (Hnk _ Hin) as (j & ->)];
      (repeat (apply elem_of_cons in Hf as [Hf|Hf]; [discriminate Hf|]); by apply elem_of_nil in Hf).
  - unfold dk. clear Hdk dk. induction ds as [|d ds IH]; cbn [map]; [constructor|]. apply Forall_cons in Hr as [[Hr1 Hr2] Hr]. apply NoDup_cons in Hd as [Hd1 Hd].
    constructor; [|by apply IH]. intros Hin. apply list_elem_of_In, in_map_iff in Hin as (d' & E & Hin). apply list_elem_of_In in Hin. cbn in E. rewrite Forall_forall in Hr.
    apply diskKey_inj in E as [E1 E2]; [|apply role_free; by apply Hr|by apply role_free]. apply Hd1. apply list_elem_of_In, in_map_iff. exists d'. by rewrite E1, E2, <- list_elem_of_In.
  - intros k Hk Hin. destruct (Hdk _ Hk) as (d & Hin' & ->). rewrite Forall_forall in Hr. destruct (Hr _ Hin') as [Hr1 Hr2].
    apply elem_of_app in Hin as [Hin|Hin]; [|by destruct (Hnk _ Hin)]. apply Hsk, diskKey_inj in Hin as [Hin _]; [done|by apply role_free|]. apply (bool_decide_unpack _); vm_compute; exact I.
  - destruct Hs as [->|[a ->]]; cbn; [constructor|apply NoDup_singleton].
  - intros k Hk Hin. rewrite (Hsk _ Hk) in Hin. by destruct (Hnk _ Hin).
  - apply NoDup_alt. intros i j k Hi Hj. rewrite list_lookup_fmap, list_lookup_imap in Hi, Hj. destruct (nics !! i), (nics !! j); try done.
    injection Hi as Hi. injection Hj as Hj. apply nicKey_inj. by rewrite Hi, Hj.
Qed.

(** The devices of a new machine's command line: an owned slot each, under different keys. *)
Lemma device_entries f id s s1 pci r vol l : normal s -> PCIHosts s = [] -> NoDup (map (fun d => (dRole d, dSlot d)) (filter on_pci (Disks s))) ->
  create_spec id s = Ok (s1, pci) -> resolveVM sha256 f id s1 = Ok (r, vol) -> Compile id r s1 = Ok l ->
  exists m es, NoDup (map fst es) /\ Forall (fun p => owns m p.1 p.2) es /\
    map snd es = pci_of l "vga" PCIVGA :: pci_of l "serial" PCISerial :: (if lBalloon l then [pci_of l "balloon" PCIBalloon] else []) ++
      map ldPCIAddr (filter (fun d => virtio d = true) (lDisks l)) ++ map lgPCIAddr (lGPUs l) ++ map lnPCIAddr (lNICs l).
Proof.
  intros Hn Hhosts Hkeys Hcr Hres Hc. unfold VmSpec.create_spec in Hcr. steps Hcr. injection Hcr as -> ->.
  destruct (allocated_normal _ _ _ _ Hn E) as [Hn1 Hp1]. pose proof (AllocatePCI_spec _ _ _ E) as ([m0 Ha0] & Es1 & Hds & _).
  apply Compile_spec in Hc as (s' & m & disks & iso & seed & [Hco Ha _ Hbal Hdisks Hiso [nc Hseed] Hnics Hgpus Hall]).
  unfold normal in Hn1. rewrite Hn1, Hp1, (al_again _ _ _ Ha0) in Hco. injection Hco as <- Epci.
  assert (Hg : lGPUs l = []) by (rewrite Es1 in Hgpus; cbn in Hgpus; rewrite Hhosts in Hgpus; by injection Hgpus as <-).
  assert (Hsound : Forall sound_disk (Disks s1)).
  { unfold Validate in E0. rewrite Hn1 in E0. steps E0. match goal with E : validate_disks _ _ _ _ = Ok _ |- _ => apply validate_disks_spec in E; rename E into Hvd end.
    apply Forall_forall. intros d Hd. rewrite Forall_forall in Hvd. destruct (Hvd d Hd) as [H1 H2]. split_and!; [done..|]. intros Hon. by destruct (al_disks _ _ _ Ha d Hd Hon) as [[? _] _]. }
  unfold resolveVM in Hres. steps Hres. injection Hres as <- <-. cbn [rDisks rNICs] in *.
  match goal with H1 : resolve_disks _ _ _ = Ok _, H2 : resolve_nics _ _ _ _ _ = Ok _ |- _ => destruct (resolved_list _ _ _ _ _ _ _ _ Hsound H1 Hdisks) as (ds & Hsub & Hds');
    assert (Hns : map lnPCIAddr (lNICs l) = map nPCIAddr (NICs s1)) end.
  { eapply resolved_nics; [|done|done]. apply Forall_forall. intros n Hin. apply list_elem_of_lookup in Hin as [j Hj]. by destruct (al_nics _ _ _ Ha j n Hj) as [[? _] _]. }
  destruct (al_fixed _ _ _ Ha) as (Hfv & Hfs & Hfb). destruct (al_pci _ _ _ Ha) as (Hpv & Hps & Hpb).
  assert (Hdso : Forall (fun d => d ∈ Disks s1 /\ on_pci d) ds).
  { apply Forall_forall. intros d Hd. eapply elem_of_sublist in Hd; [|done]. apply list_elem_of_filter in Hd. tauto. }
  assert (Hse : exists es, (es = [] \/ exists a, es = [(diskKey DiskRoleCIDATA 0, a)]) /\ Forall (fun p => owns m p.1 p.2) es /\
    map snd es = map ldPCIAddr (filter (fun d => virtio d = true) seed)).
  { apply seed_addr in Hseed as [->|(Hen & d & -> & Hd)]; [exists []; split_and!; [by left|constructor|done]|]. destruct (al_seed _ _ _ Ha Hen) as (a & Hpa & Hoa). rewrite Hpa in Hd. cbn in Hd.
    rewrite filter_cons. destruct (decide (virtio d = true)); [exists [(diskKey DiskRoleCIDATA 0, a)]; split_and!; [right; eauto|apply Forall_singleton; exact Hoa|cbn; by rewrite Hd]|exists []; split_and!; [by left|constructor|done]]. }
  destruct Hse as (es & Hes & Heo & Hea).
  exists m, (fixed_entries (Balloon s1) ++ map disk_entry ds ++ es ++ imap nic_entry (NICs s1)). split_and!.
  - apply entries_nodup; [| |done].
    + eapply sublist_NoDup; [|apply (fmap_sublist (fun d => (dRole d, dSlot d))); exact Hsub]. change (NoDup (map (fun d => (dRole d, dSlot d)) (filter on_pci (Disks s1)))).
      by rewrite (same_keys _ _ Hds).
    + apply Forall_forall. intros d Hd. split; [rewrite Forall_forall in Hdso, Hsound; by apply Hsound, Hdso|].
      apply list_elem_of_lookup in Hd as [j Hj]. destruct (Forall2_lookup_r _ _ _ _ _ Hds' Hj) as (ld & _ & _ & ?). done.
  - rewrite !Forall_app. split_and!; [| |done|].
    + unfold fixed_entries. apply Forall_app. split; [by apply Forall_cons; split; [|apply Forall_singleton]|]. destruct (Balloon s1); [apply Forall_singleton; by apply Hfb|constructor].
    + apply Forall_map. eapply Forall_impl; [exact Hdso|]. intros d [Hd Hon]. by apply (al_disks _ _ _ Ha).
    + apply Forall_forall. intros [k a] Hin. apply elem_of_lookup_imap in Hin as (j & n & [= -> ->] & Hj). by apply (al_nics _ _ _ Ha).
  - rewrite !map_app, Hea, Hall, !filter_app, (iso_off _ _ _ Hiso), Hg, Hns, Hbal. unfold pci_of. rewrite Hpv, Hps, Hpb. cbn [app map].
    assert (Edk : map snd (map disk_entry ds) = map ldPCIAddr (filter (fun d => virtio d = true) disks)).
    { clear -Hds'. induction Hds' as [|ld d lds ds [He _] _ IH]; [done|]. cbn [map]. by rewrite IH, He. }
    assert (Enk : map snd (imap nic_entry (NICs s1)) = map nPCIAddr (NICs s1)).
    { apply list_eq. intros j. rewrite !list_lookup_fmap, list_lookup_imap. by destruct (NICs s1 !! j). }
    rewrite Edk, Enk, map_app, !app_assoc. by destruct (Balloon s1).
Qed.

(** C32: no two devices on the command line of a new machine have the same PCI address, and each
    address is one of the thirty slots of the bus behind the chipset's own two, whatever
    addresses the request asks for.  Its description is in normal form (normalizing it again
    changes nothing), and no two of its disks on the bus have both role and slot number in
    common: such a pair is taken for one disk ([VmDemo.one_address_twice]). *)
Theorem devices_apart f id req s1 l dataDir argv :
  normal (specFromCreate req) -> NoDup (map (fun d => (dRole d, dSlot d)) (filter on_pci (Disks (specFromCreate req)))) -> free comma id ->
  createVM parse_uuid new_sha1 sha256 f id (specFromCreate req) = Ok (s1, l) -> CompileLaunch dataDir l = Ok argv ->
  exists rest args, argv = BinQEMU :: rest /\ read_args rest = Some args /\
    NoDup (map pci_slot (values "-device" "addr" args)) /\ Forall (fun a => 2 <= pci_slot a <= 31) (values "-device" "addr" args).
Proof.
  intros Hn Hk Hid H Hl. unfold createVM in H. steps H. injection H as _ ->.
  destruct (CompileLaunch_reads dataDir l _ _ (Compile_plain _ _ _ _ Hid E1) Hl) as (rest & -> & Hr).
  exists rest, (launch_cmds dataDir l). destruct (launch_values dataDir l) as (Hv & _ & _). split_and!; [done..| |];
    destruct (device_entries _ _ _ _ _ _ _ _ Hn eq_refl Hk E E0 E1) as (m & es & Hnd & Ho & Hes); rewrite Hv, <- Hes; by eapply slots_nodup.
Qed.

(** ** Devices given to a frozen machine *)
Lemma addOne_spec out id : NoDup out -> NoDup (addOne out id) /\ forall h, h ∈ addOne out id <-> h ∈ out \/ h <> ""%string /\ h = ToLower (TrimSpace id).
Proof.
  intros Hn. unfold addOne. case_decide as Hd; split; try done.
  - intros h. split; [by left|]. intros [?|[Hh ->]]; [done|]. by destruct Hd.
  - apply NoDup_app. split_and!; [done| |apply NoDup_singleton]. intros x Hx. rewrite list_elem_of_singleton. intros ->. tauto.
  - intros h. rewrite elem_of_app, list_elem_of_singleton. split; [|tauto]. intros [?| ->]; [by left|]. right. split; [|done]. intros E. tauto.
Qed.
(** Merging gives every address once, in one spelling. *)
Lemma MergeHostAddrs_spec current add : NoDup (MergeHostAddrs current add) /\
  forall h, h ∈ MergeHostAddrs current add <-> h <> ""%string /\ exists x, x ∈ current ++ add /\ h = ToLower (TrimSpace x).
Proof.
  assert (H : forall l out, NoDup out -> NoDup (fold_left addOne l out) /\
    forall h, h ∈ fold_left addOne l out <-> h ∈ out \/ h <> ""%string /\ exists x, x ∈ l /\ h = ToLower (TrimSpace x)).
  { induction l as [|id l IH]; intros out Hn; cbn [fold_left]; [split; [done|set_solver]|]. destruct (addOne_spec out id Hn) as [Hn' Ha].
    destruct (IH _ Hn') as [Hl Hi]. split; [done|]. intros h. rewrite Hi, Ha. set_solver. }
  destruct (H (current ++ add) [] (NoDup_nil_2)) as [Hn Hi]. split; [done|]. intros h. unfold MergeHostAddrs. rewrite Hi. set_solver.
Qed.
(** Dropping leaves the addresses that are not dropped. *)
Lemma DropHostAddrs_spec current drop h : h ∈ DropHostAddrs current drop <->
  h <> ""%string /\ (exists x, x ∈ current /\ h = ToLower (TrimSpace x)) /\ h ∉ map (fun id => ToLower (TrimSpace id)) drop.
Proof.
  unfold DropHostAddrs. set (rm := map _ drop). clearbody rm.
  assert (H : forall l out, NoDup out -> let r := fold_left (fun out id => if decide (ToLower (TrimSpace id) ∈ rm) then out else addOne out id) l out in
    h ∈ r <-> h ∈ out \/ h <> ""%string /\ (exists x, x ∈ l /\ h = ToLower (TrimSpace x)) /\ h ∉ rm).
  { induction l as [|id l IH]; intros out Hn; cbn [fold_left]; [set_solver|]. case_decide as Hd.
    - rewrite (IH out Hn). set_solver.
    - destruct (addOne_spec out id Hn) as [Hn' Ha]. rewrite (IH _ Hn'), Ha. set_solver. }
  rewrite (H current [] NoDup_nil_2). set_solver.
Qed.

(** The arguments in a machine's file are those of the launch in it. *)
Definition in_step (dataDir : string) (files : gmap string frozen) : Prop :=
  map_Forall (fun id z => CompileLaunch dataDir (zLaunch z) = Ok (zArgv z) /\ lWorkloadID (zLaunch z) = id) files.
Lemma writeLaunch_in_step dataDir files launch files' : in_step dataDir files -> writeLaunch parse_uuid dataDir files launch = Ok files' -> in_step dataDir files'.
Proof. intros Hs H. unfold writeLaunch in H. steps H. injection H as <-. by apply map_Forall_insert_2. Qed.
Lemma ApplyVFIOHost_in_step dataDir files id hosts files' : in_step dataDir files -> ApplyVFIOHost parse_uuid dataDir files id hosts = Ok files' ->
  in_step dataDir files' /\ forall other, other <> id -> files' !! other = files !! other.
Proof.
  intros Hs H. unfold ApplyVFIOHost in H. steps H. split; [by eapply writeLaunch_in_step|]. unfold writeLaunch in H. steps H. injection H as <-.
  intros other Hne. unfold ReadLaunch in E. destruct (files !! id) as [z|] eqn:Ez; [|done]. case_decide; [done|]. injection E as <-. destruct (Hs _ _ Ez) as [_ Hi].
  cbn [lWorkloadID set_gpus]. by rewrite Hi, lookup_insert_ne.
Qed.
Lemma ApplyUSBHost_in_step dataDir files id usbs files' : in_step dataDir files -> ApplyUSBHost parse_uuid dataDir files id usbs = Ok files' ->
  in_step dataDir files' /\ forall other, other <> id -> files' !! other = files !! other.
Proof.
  intros Hs H. unfold ApplyUSBHost in H. steps H. split; [by eapply writeLaunch_in_step|]. unfold writeLaunch in H. steps H. injection H as <-.
  intros other Hne. unfold ReadLaunch in E. destruct (files !! id) as [z|] eqn:Ez; [|done]. case_decide; [done|]. injection E as <-. destruct (Hs _ _ Ez) as [_ Hi].
  cbn [lWorkloadID set_usbs]. by rewrite Hi, lookup_insert_ne.
Qed.
End Vm.
