(* ===== verification/VmDemo.v ===== *)
(** * Virtual machines at concrete inputs

    A machine that is created, stored, edited and started, and the behaviours of the code that
    surprise. *)
From stdpp Require Import gmap.
From S2P Require Import VmSafety.

Module VmDemo.
#[local] Existing Instance ascii_tables.
Definition parse_uuid (s : string) : option (list Z) := if Nat.eqb (String.length s) 36 then Some (map byteZ (take 16 (bytes s))) else None.
Definition new_sha1 (s : string) : string := "id of " +:+ s.
Definition sha256 (s : string) : list Z := map (fun i => fold_left (fun h a => (h * 31 + byteZ a + i) mod 256) (bytes s) 7) (map Z.of_nat (seq 0 32)).

Definition id : string := "1b4e28ba-2fa1-11d2-883f-0016d3cca427".
Definition net : string := "6ba7b810-9dad-11d1-80b4-00c04fd430c8".
Definition data : string := "6ba7b811-9dad-11d1-80b4-00c04fd430c8".
Definition blank_disk (role : string) (slot : Z) (volume addr : string) : Disk := mkDisk volume role slot "qcow2" false 0 addr "" "" "".
Definition nic (addr : string) : NIC := mkNIC "" net "" "" addr.
Definition cloud : NoCloud := mkNoCloud true "" "" ["ssh-ed25519 AAAA me"%string] "secret" "" "" false.
Definition with_devices (disks : list Disk) (nics : list NIC) : Spec :=
  mkSpec "" "web" 2 (2 ^ 31) "" "" [] disks nics "" "" cloud false (mkConsole true true) true false [] [].
Definition request : create_request :=
  mkCreate (Some (with_devices [blank_disk DiskRoleBoot 0 "" ""; blank_disk DiskRoleData 1 data "0x09"] [nic ""; nic "0x10"]))
    "" 0 0 "" false true true "" "" blank_nocloud "" "".
Definition own : volume := mkVolume "6ba7b812-9dad-11d1-80b4-00c04fd430c8" "/var/lib/ndl/storage/local/web.qcow2" "qcow2".
Definition there : found := mkFound (fun _ => Err "no device"%string) (Ok own)
  (fun id format => Ok (mkVolume id "/var/lib/ndl/storage/local/data.qcow2" format)) (fun _ => Ok ("lan", "br-lan")%string) "" "" "kvm".

#[local] Notation created := (create_spec parse_uuid new_sha1 sha256 id (specFromCreate request)).
#[local] Notation made := (createVM parse_uuid new_sha1 sha256 there id (specFromCreate request)).
Definition manual : vm_patch := mkPatch "" 0 0 "" (Some false) None None.
#[local] Notation edited s := (patchVM parse_uuid new_sha1 sha256 (fun _ => None) id (stored s) true manual).
#[local] Notation line l := (CompileLaunch parse_uuid "" l).
#[local] Notation started s := ('(r, _) ← resolveVM sha256 there id s; Compile parse_uuid new_sha1 sha256 id r s).
(** How many arguments a command line has, and how many of them are devices with an address. *)
Definition sizes (argv : list string) : nat * nat :=
  match read_args (tail argv) with Some args => (length args, length (values "-device" "addr" args)) | None => (0, 0)%nat end.

Lemma request_normal : normal (specFromCreate request).
Proof. by vm_compute. Qed.
Lemma request_keys : NoDup (map (fun d => (dRole d, dSlot d)) (filter on_pci (Disks (specFromCreate request)))).
Proof. apply (bool_decide_unpack _). by vm_compute. Qed.
Lemma id_free : free comma id.
Proof. by apply literal_free. Qed.
Lemma demo_runs :
  match created with
  | Ok (s, _) => match edited s with Ok (t, false) => Autostart s && negb (Autostart t) | _ => false end &&
                 match l ← started s; line l with Ok argv => bool_decide (sizes argv = (36, 8)%nat) | Err _ => false end
  | Err _ => false
  end && match '(_, l) ← made; line l with Ok argv => bool_decide (sizes argv = (36, 8)%nat) | Err _ => false end = true.
Proof. vm_compute. reflexivity. Qed.

Lemma addresses_are_kept_witness : exists s1 pci, created = Ok (s1, pci) /\ create_spec parse_uuid new_sha1 sha256 id (reread (stored (own_boot (Some own) s1))) = Ok (stored (own_boot (Some own) s1), pci).
Proof.
  pose proof demo_runs as H. destruct created as [[s1 pci]|e] eqn:E; [|discriminate H]. exists s1, pci. split; [reflexivity|].
  refine (addresses_are_kept parse_uuid new_sha1 sha256 id (specFromCreate request) s1 pci (Some own) request_normal E _). intros v [= <-]. reflexivity.
Defined.


Lemma no_option_slips_in_witness : exists r s1 l argv rest args, Compile parse_uuid new_sha1 sha256 id r s1 = Ok l /\ line l = Ok argv /\
  argv = BinQEMU :: rest /\ read_args rest = Some args /\ forallb options_known args = true /\ length args = 36%nat.
Proof.
  pose proof demo_runs as H. destruct created as [[s1 pci]|e] eqn:E; [|discriminate H]. apply andb_prop in H as [H _]. apply andb_prop in H as [_ H].
  destruct (started s1) as [l|e] eqn:Es; [|discriminate H]. cbn [mbind result_mbind] in H. destruct (line l) as [argv|e] eqn:El; [|discriminate H]. apply bool_decide_eq_true in H.
  assert (Hc := Es). cbn [mbind result_mbind] in Hc. destruct (resolveVM sha256 there id s1) as [[r vol]|e] eqn:Er; [|discriminate Hc]. cbn [mbind result_mbind] in Hc.
  destruct (no_option_slips_in parse_uuid new_sha1 sha256 id r s1 "" l argv id_free Hc El) as (rest & args & -> & Hr & Hk & _).
  exists r, s1, l, (BinQEMU :: rest), rest, args. split_and!; [exact Hc|exact El|reflexivity|exact Hr|exact Hk|]. unfold sizes in H. cbn [tail] in H. rewrite Hr in H. injection H as H _. exact H.
Defined.

Lemma devices_apart_witness : exists s1 l argv rest args, made = Ok (s1, l) /\ line l = Ok argv /\
  argv = BinQEMU :: rest /\ read_args rest = Some args /\ NoDup (map pci_slot (values "-device" "addr" args)) /\ length (values "-device" "addr" args) = 8%nat.
Proof.
  pose proof demo_runs as H. apply andb_prop in H as [_ H]. destruct made as [[s1 l]|e] eqn:Em; [|discriminate H]. cbn [mbind result_mbind] in H.
  destruct (line l) as [argv|e] eqn:El; [|discriminate H]. apply bool_decide_eq_true in H.
  destruct (devices_apart parse_uuid new_sha1 sha256 there id request s1 l "" argv request_normal request_keys id_free Em El) as (rest & args & -> & Hr & Hd & _).
  exists s1, l, (BinQEMU :: rest), rest, args. split_and!; [reflexivity|exact El|reflexivity|exact Hr|exact Hd|]. unfold sizes in H. cbn [tail] in H. rewrite Hr in H. injection H as _ H. exact H.
Defined.

(** ** Surprises

    QEMU's report never matches a launch: the reported slots are printed without the leading
    zero the fixed devices are written with. *)
Lemma reported_never_match id r spec l live : Compile parse_uuid new_sha1 sha256 id r spec = Ok l -> Forall (fun slot => 0 <= slot <= 31) live ->
  pciMatchesLaunch live (lPCI l) = false.
Proof.
  intros Hc Hl. apply Compile_spec in Hc as (s1 & m & disks & iso & seed & Hc). destruct (al_pci _ _ _ (co_alloc _ _ _ _ _ _ _ _ _ _ _ _ Hc)) as (Hv & _ & _).
  apply not_true_iff_false. unfold pciMatchesLaunch. intros H. rewrite forallb_forall in H. specialize (H ("vga"%string, PCIVGA)).
  assert (Hin : PCIVGA ∈ map slot_addr live) by (apply (bool_decide_unpack _), Is_true_true, H, list_elem_of_In, elem_of_map_to_list, Hv).
  apply list_elem_of_In, in_map_iff in Hin as (z & E & Hin). apply list_elem_of_In in Hin. rewrite Forall_forall in Hl. specialize (Hl z Hin).
  assert (Hz : In z (map Z.of_nat (seq 0 32))) by (apply in_map_iff; exists (Z.to_nat z); split; [lia|apply in_seq; lia]).
  cbn [map seq] in Hz. repeat (destruct Hz as [<-|Hz]; [by vm_compute in E|]). done.
Qed.

Definition addresses (s : Spec) : result string (list string) :=
  '(s, _) ← AllocatePCI s; Ok (map dPCIAddr (Disks s) ++ map nPCIAddr (NICs s)).
Definition bare (disks : list Disk) (nics : list NIC) : Spec := set_nocloud (with_devices disks nics) blank_nocloud.
Definition boot : Disk := blank_disk DiskRoleBoot 0 "" "".

(** Two data disks of one slot number may ask for one address: the second is the first's owner. *)
Example one_address_twice : addresses (bare [boot; blank_disk DiskRoleData 1 data "0x09"; blank_disk DiskRoleData 1 net "0x09"] [nic ""])
  = Ok ["0x5"; "0x09"; "0x09"; "0x6"]%string.
Proof. vm_compute. reflexivity. Qed.
(** A disk without an address takes the one a later card asks for. *)
Example first_come : addresses (bare [boot] [nic "0x05"]) = Err "pci address 0x05 is already used by disk:boot:0"%string.
Proof. vm_compute. reflexivity. Qed.
(** The search tries a slot behind the last one while others are free. *)
Example slot_behind_the_last : nextFree (<[31 := "nic:0"%string]> ∅) 32 = ("0x20"%string, 33).
Proof. vm_compute. reflexivity. Qed.

(** A passed-through device takes a slot a card has, and the seventh one a slot the bus lacks. *)
Definition gpu (n : Z) : string := "0000:0" +:+ Itoa n +:+ ":00.0".
Definition passed (n : nat) (nics : list NIC) : result string (list string) :=
  let s := set_nocloud (with_devices [boot] nics) blank_nocloud in
  let s := mkSpec (SchemaVersion s) (Name s) (CPUs s) (MemoryBytes s) (Machine s) (SFirmware s) (BootOrder s) (Disks s) (NICs s) "" "" (SNoCloud s) false
             (SConsole s) (Balloon s) (SecureBoot s) [] (map (fun i => gpu (Z.of_nat i)) (seq 1 n)) in
  l ← createVM parse_uuid new_sha1 sha256 there id (Normalize s); argv ← CompileLaunch parse_uuid "" (snd l);
  Ok (match read_args (tail argv) with Some args => drop 4 (values "-device" "addr" args) | None => [] end).
Example gpu_on_a_card : passed 1 [nic "0x1a"] = Ok ["0x1a"; "0x1a"]%string.
Proof. vm_compute. reflexivity. Qed.
Example seventh_gpu : passed 7 [nic ""] = Ok ["0x1a"; "0x1b"; "0x1c"; "0x1d"; "0x1e"; "0x1f"; "0x20"; "0x6"]%string.
Proof. vm_compute. reflexivity. Qed.

(** A vendor is checked without the space around it and written with it. *)
Example usb_space : usbHostDevice (mkLUSB "1-2" " 1d6b" "0002" "") = Ok "usb-host,id=usb_1_2,vendorid=0x 1d6b,productid=0x0002"%string.
Proof. vm_compute. reflexivity. Qed.

(** An edit of the boot order, the console, the balloon or a card's hardware address is of no
    class: nothing waits for a restart. *)
Definition reordered (s : Spec) : Spec :=
  mkSpec (SchemaVersion s) (Name s) (CPUs s) (MemoryBytes s) (Machine s) (SFirmware s) ["cdrom"%string] (Disks s)
    (map (fun n => mkNIC (nID n) (nNetworkID n) "02:00:00:00:00:01" (nModel n) (nPCIAddr n)) (NICs s)) (ISOLibraryID s) (CloudImageID s) (SNoCloud s)
    (Autostart s) (mkConsole false true) (negb (Balloon s)) (SecureBoot s) (USBs s) (PCIHosts s).
Example unseen_edit : let s := bare [boot] [nic "0x10"] in ClassifyEdit s (reordered s) = [].
Proof. vm_compute. reflexivity. Qed.

(** An installation medium's name with a semicolon is frozen into a machine that cannot start. *)
Definition from_medium (path : string) : result string bool :=
  let s := bare [boot] [nic ""] in
  let s := Normalize (mkSpec (SchemaVersion s) (Name s) (CPUs s) (MemoryBytes s) (Machine s) (SFirmware s) (BootOrder s) (Disks s) (NICs s) data "" (SNoCloud s)
             false (SConsole s) (Balloon s) false [] []) in
  let f := mkFound (find_device there) (boot_volume there) (get_volume there) (find_network there) path "" "kvm" in
  l ← createVM parse_uuid new_sha1 sha256 f id s; Ok (match CompileLaunch parse_uuid "" (snd l) with Ok _ => true | Err _ => false end).
Example good_medium : from_medium "/var/lib/ndl/storage/library/debian.iso" = Ok true.
Proof. vm_compute. reflexivity. Qed.
Example bad_medium : from_medium "/var/lib/ndl/storage/library/a;b.iso" = Ok false.
Proof. vm_compute. reflexivity. Qed.
End VmDemo.
